(* ===== verification/_CoqProject ===== *)
-Q . S2P
Prelude.v
RustStr.v
BTree.v
Instant.v
Model.v
ChangeOrder.v
ChangePage.v
Acknowledgement.v
GitRaw.v
GitPatch.v
GitDiff.v
Highlight.v
HighlightProofs.v
UnionFind.v
Tarjan.v
Supersession.v
CanonicalHash.v
ChangeClaims.v
Relations.v
Crypto.v
Events.v
Payloads.v
ChangeGraph.v
ChangeProjection.v
ChangeViews.v
ChangeEvents.v
ChangeDocuments.v
Replacement.v
ReplacementProofs.v
Wire.v
Journal.v
EventCodec.v
Capabilities.v
CapabilityRouter.v
CapabilityProofs.v
EventStore.v
EventStoreProofs.v
Signing.v
Identity.v
IdentityProofs.v
Cosignature.v
CosignatureProofs.v
Ingest.v
IngestProofs.v
Subjects.v
SessionState.v
SessionStateProofs.v
Attention.v
AttentionProofs.v
CommitRange.v
CommitRangeProofs.v
Liveness.v
LivenessProofs.v
Artifacts.v
ArtifactsProofs.v
ReviewCursor.v
ReviewCursorProofs.v
Ssh.v
SshProofs.v
Removal.v
RemovalProofs.v
RemovalSweep.v
