(* ===== verification/Prelude.v ===== *)
(** * Pointbreak Review: verification development

    Pointbreak keeps code review as a journal of signed, content-addressed events beside a
    git repository.  Writers append events under idempotency keys; readers fold the events
    into projections (Changes, supersession, session state, attention, commit ranges,
    co-signatures, removals), and write against cursors that pin what they reviewed;
    captured diffs and long note bodies are blobs beside the journal.  This library
    translates that core from [src/src] into executable functions and proves what makes
    it correct.

    ** Conventions

    A Rust [str] or byte vector is a [string] of bytes; [BTreeMap] and [BTreeSet] are [gmap]
    and [gset], iterated in key order by [iter_map] and [iter_set] ([BTree]); a fallible
    function returns [result], with [let?] for the [?] operator; an operation on a store is
    [io S A], a function from the state to an outcome and a state, with [let!]; a panic is
    the error [Panicked].  Machine integers are [Z] or [N] with their wrap written out.
    Code that is not under [src/src] is an argument: a class of operations ([Digest],
    [JsonReader], [Primitives], [Decoders], [ReviewDecoders], [EventSigner], [Git],
    [AgentDuplex], [Repository], [Environment], [Authority], [EventFiles], [Syntect],
    [Similar], [Unicode], [UrlBase64]) and, where a
    theorem relies on its documented behaviour, a class of laws ([DigestLaws],
    [JsonReaderLaws], [PrimitivesLaws], [SignerLaws], [GitLaws], [JournalLaws],
    [ContentLaws] and others).  Each law class has a concrete instance, which the
    witnesses use.

    ** Parts

    - Shared: [Prelude], [RustStr] (string operations), [BTree], [Instant] (event times,
      [identity/instant.rs]), [Model] (identifiers).
    - Hashing and signatures: [CanonicalHash] ([canonical_hash.rs]), [Crypto]
      ([crypto]), [Signing] ([session/signing]), [Cosignature] and [CosignatureProofs]
      ([projection/cosignature.rs]), [Identity] and [IdentityProofs]
      ([session/identity]), [Ssh] and [SshProofs] ([keys/ssh], [keys/discovery.rs]).
    - Events: [Events], [Payloads], [ChangeClaims], [Relations], [Subjects]
      ([session/event]), [Wire] (the stored form).
    - Store: [Journal] (backend traits and the in-memory backend), [EventCodec],
      [EventStore], [EventStoreProofs] ([store/event_store.rs]), [Capabilities],
      [CapabilityRouter], [CapabilityProofs] ([store/capabilities.rs]), [Acknowledgement],
      [Ingest] and [IngestProofs] ([workflow/ingest.rs], [workflow/event_signature]).
    - Changes: [ChangeGraph], [ChangeProjection], [ChangeViews], [ChangeEvents]
      ([model/change.rs], [projection/change.rs]), [ChangeDocuments] (the claims behind a
      Change, same file), [ChangeOrder], [ChangePage] (listing), [ReviewCursor] and
      [ReviewCursorProofs] ([workflow/review_cursor.rs], and the canonical diff entries of
      [evidence/relation_proof.rs]).
    - Supersession: [UnionFind], [Tarjan], [Supersession] ([projection/supersession.rs]),
      [Replacement] and [ReplacementProofs] (its constructors from the log and
      [workflow/attention/effective.rs]).
    - Reading state: [SessionState] and [SessionStateProofs] ([projection/state.rs],
      [projection/freshness.rs]), [Attention] and [AttentionProofs]
      ([workflow/attention/items.rs], with the records of [workflow/assessment/view.rs] and
      [workflow/input_request/view.rs]).
    - Highlighting: [Highlight] and [HighlightProofs] ([highlight]).
    - Git: [GitRaw], [GitPatch], [GitDiff] ([src/git]), [CommitRange] and
      [CommitRangeProofs] ([projection/commit_range.rs]), [Liveness] and [LivenessProofs]
      ([workflow/commit_range_liveness.rs]).
    - Content: [Artifacts] and [ArtifactsProofs] ([store/body_artifact.rs],
      [store/object_artifact.rs], [store/content.rs], [workflow/artifact_transfer.rs]),
      [Removal], [RemovalProofs] and [RemovalSweep] ([projection/artifact_removal.rs],
      [workflow/artifact_removal]).

    ** What the theorems show

    - The event store refines an append-only map in which the first write of a key wins;
      listings are exact, replicas converge, the capability gates only advance, and ingest
      stores only what its gates accept and reports what it did.
    - Verification, signing, co-signature sets, endorsements and principals mean what
      they say; the stored and the signed forms are exact.
    - The Change projection shows exactly what the events state, in any order, where facts
      that share an id agree and claim documents do not collide; paging
      visits everything once; supersession threads and cycles are the components and
      cycles of the declared relation, and the search for them ends.  The claim documents
      list every carrier and explain the views.
    - Replacement read through Changes is exact and leaves no thread without a head;
      session state says exactly what the log says, and attention what it calls for, where
      the recorded times compare as their instants; attention is readable exactly when its
      events are.
    - A writer gets a cursor's revision exactly when everything the cursor pins stands, a
      cursor accepted later binds the earlier graph, and a fresh one stays usable.
    - Highlighted segments tile their row, and intraline emphasis never slices out of
      range.
    - Commit ranges are what the events claim, in any order; the batched reachability
      equals the walk it replaces; a printed unified diff reads back with the ranges and
      line numbers it states.
    - Transfer accepts exactly the content a reference names.  A removal suppresses content
      exactly when a claim in the log takes effect under the reader's policy.  The sweep of removed content deletes exactly
      what an operative claim and matching bytes make due, counts it exactly, and erases
      what this store removed; selectors target exactly what they name.
    - The SSH agent's replies are bounded and the agent signer returns exactly what the
      agent signed; the allowed-signers parser accounts for every line.

    Bodies that recurse on data need no bound.  The others have fuel that is proved enough:
    [tarjan_fuel] counts the nodes and edges, and [Tarjan] shows that the loop without fuel
    ends within it; [visit_fuel] and the worklist bound of [ChangeGraph] exceed the nodes
    left; [walk_pages] follows as many links as there are rows;
    [connect_loop] has a turn for each seed and neighbour, and reaches everything
    connected; [dec_digits] has the bits of its number.

    ** Not modelled

    The command line and the inspect server, the SQLite read model and its writers, the git
    subprocess and library calls, bundles and archives, the adapters that read transcripts,
    key files, and the file-system backend: they are input and output around this core.
    Of modelled parts: resolving which store directories a repository uses, and the
    fallback to a second store; the shown revision and the fresh capture a cursor's source
    is compared with, which are arguments; relation proof manifests; the grammar engine and
    the sequence diff behind highlighting; the generated decoders of most
    payloads, which are parameters. *)

From Stdlib Require Export Ascii String ZArith.
From stdpp Require Export prelude gmap strings sorting.

(** The notations of the development live in a scope of their own. *)
Declare Scope pb_scope.
Delimit Scope pb_scope with pb.
#[global] Open Scope pb_scope.
#[global] Open Scope string_scope.
#[global] Open Scope list_scope.
#[global] Open Scope nat_scope.
#[global] Open Scope stdpp_scope.

(** Appends compute on a constructor, as the string lemmas expect. *)
#[global] Arguments String.append !_ _ /.

(** [pb] collects the lemmas that close the routine side conditions. *)
Create HintDb pb discriminated.

(** ** Results and errors

    [ShoreError] is the error type of [src/src/error.rs]; a variant that wraps a
    foreign error carries its text. *)
Record SchemaBreakRecord := {
  retired : string;
  broken_at : string;
  anchor : string
}.

Record JournalUnavailable := { ju_volume : string; ju_os_error : Z }.

Inductive EventVerificationStatus := Valid | Invalid | UntrustedKey | Unsigned.

Inductive ShoreError :=
| Message (m : string)
| Json (m : string)
| GitCommand (command status stdout stderr : string)
| InvalidEvent (message : string)
| UnsupportedEventSchemaVersion (schema : string) (version : Z)
| UnsupportedEventType (r : SchemaBreakRecord)
| UnsupportedEventEnvelope (r : SchemaBreakRecord)
| UnsupportedStateSchemaVersion (schema : string) (version : Z)
| WorkflowInputInvalid (reason : string)
| CaptureProposalConflict (revision_id : string)
| EventVerificationRejected (event_id : string) (status : EventVerificationStatus)
| UnknownClaudeSessionLineType (line : Z) (kind : string)
| JournalUnavailableError (journal : JournalUnavailable)
(** Not a variant of the source: a panic ([expect], slicing inside a character). *)
| Panicked (message : string).

Inductive Result (E A : Type) :=
| Ok (a : A)
| Err (e : E).
Arguments Ok {_ _} _.
Arguments Err {_ _} _.

Abbreviation result := (Result ShoreError).

#[export] Instance Result_ret {E} : MRet (Result E) := λ A a, Ok a.

(** [r?] followed by the rest of the function. *)
Definition rbind {E A B} (r : Result E A) (f : A → Result E B) : Result E B :=
  match r with Ok a => f a | Err e => Err e end.
#[export] Instance Result_bind {E} : MBind (Result E) := λ A B f r, rbind r f.

Notation "'let?' x := r 'in' k" := (rbind r (λ x, k))
  (at level 200, x pattern, r at level 100, k at level 200, right associativity) : pb_scope.
#[export] Instance Result_fmap {E} : FMap (Result E) := λ A B f r,
  match r with Ok a => Ok (f a) | Err e => Err e end.

#[export] Instance SchemaBreakRecord_eq_dec : EqDecision SchemaBreakRecord.
Proof. solve_decision. Defined.
#[export] Instance EventVerificationStatus_eq_dec : EqDecision EventVerificationStatus.
Proof. solve_decision. Defined.
#[export] Instance JournalUnavailable_eq_dec : EqDecision JournalUnavailable.
Proof. solve_decision. Defined.
#[export] Instance ShoreError_eq_dec : EqDecision ShoreError.
Proof. solve_decision. Defined.

#[export] Instance Result_eq_dec {E A} `{!EqDecision E, !EqDecision A} :
  EqDecision (Result E A).
Proof. solve_decision. Defined.

(** [Option::ok_or_else] and [Result::map_err]. *)
Definition ok_or {E A} (o : option A) (e : E) : Result E A :=
  match o with Some a => Ok a | None => Err e end.

Definition map_err {E F A} (f : E → F) (r : Result E A) : Result F A :=
  match r with Ok a => Ok a | Err e => Err (f e) end.

Definition is_ok {E A} (r : Result E A) : bool :=
  match r with Ok _ => true | Err _ => false end.

Lemma bind_Ok {E A B} (r : Result E A) (f : A → Result E B) b :
  rbind r f = Ok b ↔ ∃ a, r = Ok a ∧ f a = Ok b.
Proof. destruct r; cbn; naive_solver. Qed.

Lemma bind_Err {E A B} (r : Result E A) (f : A → Result E B) e :
  rbind r f = Err e ↔ r = Err e ∨ ∃ a, r = Ok a ∧ f a = Err e.
Proof. destruct r; cbn; naive_solver. Qed.

Lemma ok_or_Ok {E A} (o : option A) (e : E) a : ok_or o e = Ok a ↔ o = Some a.
Proof. destruct o; cbn; naive_solver. Qed.

(** A left fold whose step can fail: the [for] loops with [?] in the body. *)
Fixpoint try_fold {E A S} (f : S → A → Result E S) (s : S) (l : list A) : Result E S :=
  match l with
  | [] => Ok s
  | x :: l => let? s' := f s x in try_fold f s' l
  end.

Lemma try_fold_app {E A S} (f : S → A → Result E S) s l1 l2 :
  try_fold f s (l1 ++ l2) = (let? s' := try_fold f s l1 in try_fold f s' l2).
Proof.
  revert s; induction l1 as [|x l1 IH]; intros s; cbn; [done|].
  destruct (f s x); cbn; [apply IH|done].
Qed.

Lemma try_fold_ext {E A S} (f g : S → A → Result E S) s l :
  (∀ s x, f s x = g s x) → try_fold f s l = try_fold g s l.
Proof.
  intros Hfg. revert s. induction l as [|x l IH]; intros s; cbn; [done|].
  rewrite Hfg. destruct (g s x); cbn; auto.
Qed.

(** A fallible fold whose step never fails is the plain fold. *)
Lemma try_fold_ok {E A S} (f : S → A → Result E S) (g : S → A → S) s l :
  (∀ s x, x ∈ l → f s x = Ok (g s x)) → try_fold f s l = Ok (foldl g s l).
Proof.
  revert s; induction l as [|x l IH]; intros s Hf; cbn; [done|].
  rewrite Hf by set_solver. cbn. apply IH. set_solver.
Qed.

(** The value of a computation that is known to succeed. *)
Definition ok_value {E A} (d : A) (r : Result E A) : A :=
  match r with Ok x => x | Err _ => d end.

Lemma is_ok_value {E A} (d : A) (r : Result E A) : is_ok r = true → r = Ok (ok_value d r).
Proof. by destruct r. Qed.

(** A loop that absorbs what [f] yields for each element: it succeeds exactly when
    every step does, and absorbs the yields in order. *)
Definition yield {E A B} (f : A → Result E (option B)) (x : A) : option B :=
  match f x with Ok o => o | Err _ => None end.

Lemma try_fold_absorb {E A B S} (f : A → Result E (option B)) (g : S → B → S) l s out :
  try_fold (λ s x,
    let? o := f x in
    Ok (match o with Some y => g s y | None => s end)) s l = Ok out ↔
  (∀ x, x ∈ l → is_ok (f x) = true) ∧ out = foldl g s (omap (yield f) l).
Proof.
  revert s. induction l as [|x l IH]; intros s; cbn [try_fold].
  { cbn. split; [intros [= ->]; split; [by intros ? ?%elem_of_nil|done]|by intros [_ ->]]. }
  setoid_rewrite elem_of_cons. cbn [omap list_omap]. unfold yield at 1.
  destruct (f x) as [o|err] eqn:E'; cbn [rbind].
  - rewrite IH. assert (foldl g (match o with Some y => g s y | None => s end) (omap (yield f) l) =
      foldl g s match o with Some y => y :: omap (yield f) l | None => omap (yield f) l end) as ->.
    { by destruct o. }
    assert (is_ok (f x) = true) as Hx by by rewrite E'.
    split; intros [Hl ->]; (split; [|done]); intros y Hy; [destruct Hy as [->|Hy]; [done|by apply Hl]|].
    apply Hl. by right.
  - split; [done|]. intros [Hok _]. specialize (Hok x (or_introl eq_refl)). by rewrite E' in Hok.
Qed.

Lemma foldl_snoc {A} (acc l : list A) : foldl (λ acc x, acc ++ [x]) acc l = acc ++ l.
Proof.
  revert acc. induction l as [|x l IH]; intros acc; cbn; [by rewrite app_nil_r|].
  by rewrite IH, <- app_assoc.
Qed.

Lemma try_fold_collect {E A B} (f : A → Result E (option B)) l acc out :
  try_fold (λ acc x,
    let? o := f x in
    Ok (match o with Some y => acc ++ [y] | None => acc end)) acc l = Ok out ↔
  (∀ x, x ∈ l → is_ok (f x) = true) ∧ out = acc ++ omap (yield f) l.
Proof. rewrite (try_fold_absorb f (λ acc y, acc ++ [y])). by rewrite foldl_snoc. Qed.

Lemma elem_of_concat_fmap {A B} (f : A → list B) l y : y ∈ concat (f <$> l) ↔ ∃ x, x ∈ l ∧ y ∈ f x.
Proof.
  induction l as [|x l IH]; cbn.
  { rewrite elem_of_nil. split; [done|]. by intros (? & ?%elem_of_nil & _). }
  rewrite elem_of_app, IH. setoid_rewrite elem_of_cons. split.
  - intros [?|(x' & ? & ?)]; [exists x|exists x']; auto.
  - intros (x' & [->|?] & ?); [by left|right; eauto].
Qed.

(** A loop that appends a list per element. *)
Lemma try_fold_concat {A B} (f : A → result (list B)) l acc out :
  try_fold (λ acc x, let? more := f x in Ok (acc ++ more)) acc l = Ok out ↔
  ∃ mores, Forall2 (λ x more, f x = Ok more) l mores ∧ out = acc ++ concat mores.
Proof.
  revert acc. induction l as [|x l IH]; intros acc; cbn [try_fold].
  { split.
    - intros [= ->]. exists []. split; [constructor|]. cbn. by rewrite app_nil_r.
    - intros (mores & Hm & ->). inversion Hm. cbn. by rewrite app_nil_r. }
  rewrite bind_Ok. split.
  - intros (acc' & (more & Hx & [= <-])%bind_Ok & (mores & Hm & ->)%IH).
    exists (more :: mores). split; [by constructor|]. cbn. by rewrite app_assoc.
  - intros (mores & Hm & ->). inversion Hm as [|? more ? mores' Hx Hm']; subst. cbn.
    exists (acc ++ more). rewrite Hx. split; [done|]. apply IH. exists mores'. by rewrite <- app_assoc.
Qed.

Lemma try_fold_from {A B} (f : A → result (list B)) l acc out :
  try_fold (λ acc x, let? more := f x in Ok (acc ++ more)) acc l = Ok out ↔
  ∃ more, try_fold (λ acc x, let? more := f x in Ok (acc ++ more)) [] l = Ok more ∧ out = acc ++ more.
Proof.
  rewrite try_fold_concat. setoid_rewrite try_fold_concat. split.
  - intros (mores & Hm & ->). exists (concat mores). eauto.
  - intros (more & (mores & Hm & ->) & ->). eauto.
Qed.

Lemma is_ok_ex {A} (r : result A) : is_ok r = true ↔ ∃ x, r = Ok x.
Proof. destruct r; cbn; split; try done; [eauto|by intros [? ?]]. Qed.

Lemma try_fold_is_ok {A B} (f : A → result (list B)) l acc :
  is_ok (try_fold (λ acc x, let? more := f x in Ok (acc ++ more)) acc l) = true ↔
  ∀ x, x ∈ l → is_ok (f x) = true.
Proof.
  revert acc. induction l as [|x l IH]; intros acc; cbn [try_fold].
  { split; [|done]. by intros _ x ?%elem_of_nil. }
  setoid_rewrite elem_of_cons. destruct (f x) as [more|] eqn:E; cbn [rbind].
  - rewrite IH. split; [|auto]. intros Hl y [->|Hy]; [by rewrite E|auto].
  - split; [done|]. intros Hl. specialize (Hl x (or_introl eq_refl)). by rewrite E in Hl.
Qed.

Lemma elem_of_mores {A B} (f : A → result (list B)) l mores y :
  Forall2 (λ x more, f x = Ok more) l mores →
  y ∈ concat mores ↔ ∃ x more, x ∈ l ∧ f x = Ok more ∧ y ∈ more.
Proof.
  induction 1 as [|x more l mores Hx _ IH]; cbn.
  { rewrite elem_of_nil. split; [done|]. by intros (? & ? & ?%elem_of_nil & _). }
  rewrite elem_of_app, IH. setoid_rewrite elem_of_cons. split.
  - intros [?|(x' & more' & ? & ? & ?)]; [exists x, more|exists x', more']; auto.
  - intros (x' & more' & [->|?] & Hf & ?); [left; congruence|right; exists x', more'; auto].
Qed.

Lemma mapM_Ok {E A B} (f : A → Result E B) l k :
  mapM f l = Ok k ↔ Forall2 (λ x y, f x = Ok y) l k.
Proof.
  revert k; induction l as [|x l IH]; intros k; cbn.
  - split; [intros [= <-]; constructor|by inversion 1].
  - unfold mbind, Result_bind. rewrite bind_Ok. split.
    + intros (y & Hy & (k' & Hk & [= <-])%bind_Ok). constructor; [done|by apply IH].
    + inversion 1 as [|? y ? k' Hy Hk]; subst. exists y; split; [done|].
      apply bind_Ok. exists k'; split; [by apply IH|done].
Qed.

(** ** Comparisons

    The comparators of the code ([Ord] on a type, [sort_by] closures) are
    functions to [comparison]; [TotalCmp] says one is a total preorder, which is
    what [sort_by] requires of its argument. *)
Class TotalCmp {A} (cmp : A → A → comparison) : Prop := {
  cmp_refl x : cmp x x = Eq;
  cmp_opp x y : cmp y x = CompOpp (cmp x y);
  cmp_le_trans x y z : cmp x y ≠ Gt → cmp y z ≠ Gt → cmp x z ≠ Gt
}.

Arguments cmp_refl {_} cmp {_} x.
Arguments cmp_opp {_} cmp {_} x y.
Arguments cmp_le_trans {_} cmp {_} x y z.

(** A comparator whose [Eq] is equality ([Ord] of a type with [Eq]). *)
Class StrictCmp {A} (cmp : A → A → comparison) : Prop := {
  strict_total :: TotalCmp cmp;
  cmp_eq x y : cmp x y = Eq → x = y
}.

Arguments cmp_eq {_} cmp {_} x y.

(** [Ordering::then_with]. *)
Definition then_with (c d : comparison) : comparison :=
  match c with Eq => d | _ => c end.

Section total_cmp.
Context {A : Type} (cmp : A → A → comparison) `{!TotalCmp cmp}.

Lemma cmp_gt_lt x y : cmp x y = Gt ↔ cmp y x = Lt.
Proof. rewrite (cmp_opp cmp x y). by destruct (cmp x y). Qed.

Lemma cmp_eq_sym x y : cmp x y = Eq → cmp y x = Eq.
Proof. intros H. by rewrite (cmp_opp cmp x y), H. Qed.

Lemma cmp_lt_le_trans x y z : cmp x y = Lt → cmp y z ≠ Gt → cmp x z = Lt.
Proof.
  intros Hxy Hyz. destruct (cmp x z) eqn:Hxz; [|done|].
  - assert (cmp y x ≠ Gt) as Hyx.
    { apply (cmp_le_trans cmp y z x); [done|]. by rewrite (cmp_eq_sym _ _ Hxz). }
    by rewrite (cmp_opp cmp x y), Hxy in Hyx.
  - exfalso. apply (cmp_le_trans cmp x y z); [by rewrite Hxy|done|done].
Qed.

Lemma cmp_le_lt_trans x y z : cmp x y ≠ Gt → cmp y z = Lt → cmp x z = Lt.
Proof.
  intros Hxy Hyz. destruct (cmp x z) eqn:Hxz; [|done|].
  - assert (cmp z y ≠ Gt) as Hzy.
    { apply (cmp_le_trans cmp z x y); [|done]. by rewrite (cmp_eq_sym _ _ Hxz). }
    by rewrite (cmp_opp cmp y z), Hyz in Hzy.
  - exfalso. apply (cmp_le_trans cmp x y z); [done|by rewrite Hyz|done].
Qed.

Lemma cmp_lt_trans x y z : cmp x y = Lt → cmp y z = Lt → cmp x z = Lt.
Proof. intros H1 H2. apply (cmp_lt_le_trans x y z); [done|]. by rewrite H2. Qed.

Lemma cmp_eq_trans x y z : cmp x y = Eq → cmp y z = cmp x z.
Proof.
  intros Hxy. pose proof (cmp_eq_sym _ _ Hxy) as Hyx.
  destruct (cmp y z) eqn:Hyz; symmetry.
  - destruct (cmp x z) eqn:Hxz; [done| |].
    + assert (cmp y z = Lt) by (apply (cmp_le_lt_trans y x z); [by rewrite Hyx|done]).
      congruence.
    + exfalso; apply (cmp_le_trans cmp x y z); congruence.
  - apply (cmp_le_lt_trans x y z); [by rewrite Hxy|done].
  - apply cmp_gt_lt. apply cmp_gt_lt in Hyz. apply (cmp_lt_le_trans z y x); [done|].
    by rewrite Hyx.
Qed.
End total_cmp.

(** Total preorders are closed under pull-back and under [then_with]. *)
#[export] Instance cmp_pullback {A B} (f : A → B) (cmp : B → B → comparison) :
  TotalCmp cmp → TotalCmp (λ x y, cmp (f x) (f y)).
Proof.
  intros H. split; intros *; [apply (cmp_refl cmp)|apply (cmp_opp cmp)|].
  apply (cmp_le_trans cmp).
Qed.

#[export] Instance cmp_then {A} (c d : A → A → comparison) :
  TotalCmp c → TotalCmp d → TotalCmp (λ x y, then_with (c x y) (d x y)).
Proof.
  intros Hc Hd. split.
  - intros x. by rewrite (cmp_refl c), (cmp_refl d).
  - intros x y. rewrite (cmp_opp c x y), (cmp_opp d x y).
    by destruct (c x y).
  - intros x y z Hxy Hyz. destruct (c x y) eqn:Exy; cbn in Hxy; [| |done].
    + rewrite (cmp_eq_trans c x y z Exy) in Hyz.
      destruct (c x z); cbn in *; [|done..]. by apply (cmp_le_trans d x y z).
    + assert (c x z = Lt) as ->; [|done].
      apply (cmp_lt_le_trans c x y z); [done|]. by destruct (c y z).
Qed.

#[export] Instance Z_compare_strict : StrictCmp Z.compare.
Proof.
  split; [split|]; [apply Z.compare_refl|apply Z.compare_antisym| |].
  - intros x y z. rewrite !Z.compare_le_iff. lia.
  - intros x y. apply Z.compare_eq.
Qed.

#[export] Instance nat_compare_strict : StrictCmp Nat.compare.
Proof.
  split; [split|]; [apply Nat.compare_refl|apply Nat.compare_antisym| |].
  - intros x y z. rewrite !Nat.compare_le_iff. lia.
  - intros x y. apply Nat.compare_eq.
Qed.

(** [str::cmp]: lexicographic on bytes. *)
#[export] Instance string_compare_strict : StrictCmp String.compare.
Proof.
  split; [split|].
  - intros s. destruct (String.compare s s) eqn:E; [done| |];
      pose proof (String.compare_antisym s s) as Ha; rewrite E in Ha; done.
  - intros x y. apply String.compare_antisym.
  - intros x y z Hxy Hyz. assert (String.le x z) as H.
    { transitivity y; unfold String.le, String.leb.
      - by destruct (String.compare x y).
      - by destruct (String.compare y z). }
    unfold String.le, String.leb in H. by destruct (String.compare x z).
  - intros x y. apply String.compare_eq_iff.
Qed.

(** Lexicographic order on pairs, the derived [Ord] of a tuple. *)
Definition pair_cmp {A B} (c : A → A → comparison) (d : B → B → comparison)
    (p q : A * B) : comparison :=
  then_with (c p.1 q.1) (d p.2 q.2).

#[export] Instance pair_cmp_strict {A B} (c : A → A → comparison) (d : B → B → comparison) :
  StrictCmp c → StrictCmp d → StrictCmp (pair_cmp c d).
Proof.
  intros Hc Hd. split.
  - apply (cmp_then (λ p q : A * B, c p.1 q.1) (λ p q : A * B, d p.2 q.2));
      apply cmp_pullback; apply _.
  - intros [x1 x2] [y1 y2]; unfold pair_cmp; cbn.
    destruct (c x1 y1) eqn:E; cbn; [|done..]. intros ?%(cmp_eq d).
    apply (cmp_eq c) in E. by subst.
Qed.

(** [Ord] of [Option]: [None] first. *)
Definition option_cmp {A} (c : A → A → comparison) (x y : option A) : comparison :=
  match x, y with
  | None, None => Eq
  | None, Some _ => Lt
  | Some _, None => Gt
  | Some x, Some y => c x y
  end.

#[export] Instance option_cmp_strict {A} (c : A → A → comparison) :
  StrictCmp c → StrictCmp (option_cmp c).
Proof.
  intros Hc. split; [split|].
  - intros [x|]; [apply (cmp_refl c)|done].
  - intros [x|] [y|]; cbn; [apply (cmp_opp c)|done..].
  - intros [x|] [y|] [z|]; cbn; try done. apply (cmp_le_trans c).
  - intros [x|] [y|]; cbn; try done. by intros ->%(cmp_eq c).
Qed.

(** ** Sorting

    [slice::sort_by]: stable insertion.  The result of a stable sort is
    determined by the comparator, so this is the function the standard library's
    merge sort computes. *)
Section sort_by.
Context {A : Type} (cmp : A → A → comparison).

Fixpoint insert_by (x : A) (l : list A) : list A :=
  match l with
  | [] => [x]
  | y :: l' => match cmp x y with Gt => y :: insert_by x l' | _ => x :: y :: l' end
  end.

Definition sort_by (l : list A) : list A := foldr insert_by [] l.

Definition cmp_le (x y : A) : Prop := cmp x y ≠ Gt.
Definition cmp_lt (x y : A) : Prop := cmp x y = Lt.

Lemma insert_by_Permutation x l : insert_by x l ≡ₚ x :: l.
Proof.
  induction l as [|y l IH]; cbn; [done|].
  destruct (cmp x y); [done..|]. rewrite IH. apply Permutation_swap.
Qed.

Lemma sort_by_Permutation l : sort_by l ≡ₚ l.
Proof.
  induction l as [|x l IH]; cbn; [done|]. by rewrite insert_by_Permutation, IH.
Qed.

Lemma elem_of_sort_by x l : x ∈ sort_by l ↔ x ∈ l.
Proof. by rewrite sort_by_Permutation. Qed.

Lemma length_sort_by l : length (sort_by l) = length l.
Proof. by rewrite sort_by_Permutation. Qed.

Context `{!TotalCmp cmp}.

Lemma insert_by_sorted x l :
  StronglySorted cmp_le l → StronglySorted cmp_le (insert_by x l).
Proof.
  induction 1 as [|y l Hl IH Hy]; cbn; [by repeat constructor|].
  destruct (cmp x y) eqn:E.
  1,2: constructor; [by constructor|]; constructor; [by unfold cmp_le; rewrite E|];
       eapply Forall_impl; [exact Hy|]; intros z Hz; apply (cmp_le_trans cmp x y z);
       [by rewrite E|done].
  constructor; [done|]. apply Forall_forall. intros z Hz.
  rewrite insert_by_Permutation in Hz. apply elem_of_cons in Hz as [->|Hz].
  - apply cmp_gt_lt in E; [|done]. unfold cmp_le. by rewrite E.
  - by eapply Forall_forall in Hy.
Qed.

Lemma sort_by_sorted l : StronglySorted cmp_le (sort_by l).
Proof. induction l; cbn; [constructor|by apply insert_by_sorted]. Qed.

(** A list already in order is left alone. *)
Lemma sort_by_id l : StronglySorted cmp_le l → sort_by l = l.
Proof.
  induction 1 as [|x l Hl IH Hx]; [done|].
  change (insert_by x (sort_by l) = x :: l). rewrite IH.
  destruct l as [|y l]; cbn; [done|].
  apply Forall_cons in Hx as [Hx _]. unfold cmp_le in Hx. by destruct (cmp x y).
Qed.
End sort_by.

(** Sorting is canonical when [Eq] is equality on the elements at hand. *)
Lemma sort_by_canonical {A} (cmp : A → A → comparison) `{!TotalCmp cmp} l1 l2 :
  (∀ x y, x ∈ l1 → y ∈ l1 → cmp x y = Eq → x = y) →
  l1 ≡ₚ l2 → sort_by cmp l1 = sort_by cmp l2.
Proof.
  intros Heq Hp. apply (StronglySorted_unique_strong (cmp_le cmp)).
  - intros x y Hx Hy Hxy Hyx. rewrite elem_of_sort_by in Hx, Hy. rewrite <- Hp in Hy.
    apply Heq; [done..|]. unfold cmp_le in *. rewrite (cmp_opp cmp x y) in Hyx.
    by destruct (cmp x y).
  - by apply sort_by_sorted.
  - by apply sort_by_sorted.
  - by rewrite !sort_by_Permutation.
Qed.

#[export] Hint Resolve sort_by_sorted : pb.

Lemma filter_sorted {A} (R : relation A) (P : A → Prop) `{!∀ x, Decision (P x)} l :
  StronglySorted R l → StronglySorted R (filter P l).
Proof.
  induction 1 as [|x l _ IH Hx]; [constructor|]. rewrite filter_cons. case_decide; [|done].
  constructor; [done|]. apply Forall_forall. intros y [_ Hy]%list_elem_of_filter.
  by eapply Forall_forall in Hx.
Qed.

(** A stable sort of a selection is the selection of the sort. *)
Lemma filter_sort_by {A} (cmp : A → A → comparison) `{!TotalCmp cmp} (P : A → Prop)
    `{!∀ x, Decision (P x)} l :
  filter P (sort_by cmp l) = sort_by cmp (filter P l).
Proof.
  assert (∀ x l, StronglySorted (cmp_le cmp) l →
    filter P (insert_by cmp x l) = if decide (P x) then insert_by cmp x (filter P l) else filter P l)
    as Hins.
  { clear l. intros x l. induction 1 as [|y l Hl IH Hy];
      [cbn [insert_by]; rewrite filter_cons; by case_decide|].
    cbn [insert_by]. destruct (cmp x y) eqn:E.
    3:{ rewrite !filter_cons, IH. destruct (decide (P y)), (decide (P x)); [|done..].
        cbn [insert_by]. by rewrite E. }
    all: rewrite filter_cons; destruct (decide (P x)); [|done];
      assert (StronglySorted (cmp_le cmp) (y :: l)) as Hs%(filter_sorted _ P) by (by constructor);
      assert (∀ z, z ∈ filter P (y :: l) → cmp_le cmp x z) as Hle by
        (intros z [_ [->|Hz]%elem_of_cons]%list_elem_of_filter; [by unfold cmp_le; rewrite E|];
         apply (cmp_le_trans cmp x y z); [by rewrite E|by eapply Forall_forall in Hy]);
      destruct (filter P (y :: l)) as [|z l']; [done|]; cbn [insert_by];
      specialize (Hle z (list_elem_of_here _ _)); unfold cmp_le in Hle; by destruct (cmp x z). }
  induction l as [|x l IH]; [done|]. change (sort_by cmp (x :: l)) with (insert_by cmp x (sort_by cmp l)).
  rewrite Hins, filter_cons, IH by by apply sort_by_sorted. by case_decide.
Qed.

(** [Iterator::max_by]: the last of the greatest elements. *)
Fixpoint max_by_from {A} (cmp : A → A → comparison) (best : A) (l : list A) : A :=
  match l with
  | [] => best
  | x :: l => max_by_from cmp (match cmp best x with Gt => best | _ => x end) l
  end.

Definition max_by {A} (cmp : A → A → comparison) (l : list A) : option A :=
  match l with [] => None | x :: l => Some (max_by_from cmp x l) end.

Section max_by.
Context {A : Type} (cmp : A → A → comparison) `{!TotalCmp cmp}.

Lemma max_by_from_elem b l : max_by_from cmp b l = b ∨ max_by_from cmp b l ∈ l.
Proof.
  revert b; induction l as [|x l IH]; intros b; cbn; [by left|].
  destruct (IH (match cmp b x with Gt => b | _ => x end)) as [H|H]; [|set_solver].
  rewrite H. destruct (cmp b x); set_solver.
Qed.

Lemma max_by_from_ge b l :
  cmp b (max_by_from cmp b l) ≠ Gt ∧ ∀ x, x ∈ l → cmp x (max_by_from cmp b l) ≠ Gt.
Proof.
  revert b; induction l as [|y l IH]; intros b; cbn.
  { split; [by rewrite (cmp_refl cmp)|set_solver]. }
  set (b' := match cmp b y with Gt => b | _ => y end).
  destruct (IH b') as [Hb' Hl].
  assert (cmp b b' ≠ Gt ∧ cmp y b' ≠ Gt) as [Hbb Hyb].
  { subst b'. destruct (cmp b y) eqn:E; rewrite ?(cmp_refl cmp), ?E; try done.
    split; [done|]. apply cmp_gt_lt in E; [|done]. by rewrite E. }
  split; [by eapply (cmp_le_trans cmp)|]. intros x [->|Hx]%elem_of_cons; [by eapply (cmp_le_trans cmp)|].
  by apply Hl.
Qed.

Lemma max_by_Some l m :
  max_by cmp l = Some m → m ∈ l ∧ ∀ x, x ∈ l → cmp x m ≠ Gt.
Proof.
  destruct l as [|x l]; cbn; [done|]. intros [= <-].
  destruct (max_by_from_ge x l) as [H1 H2]. split.
  - destruct (max_by_from_elem x l) as [->|]; set_solver.
  - intros y [->|Hy]%elem_of_cons; [done|by apply H2].
Qed.

Lemma max_by_None l : max_by cmp l = None ↔ l = [].
Proof. by destruct l. Qed.
End max_by.

(** ** Sorted lists by position *)

Lemma NoDup_fmap_elem {A B} (f : A → B) l x y :
  NoDup (f <$> l) → x ∈ l → y ∈ l → f x = f y → x = y.
Proof.
  intros Hnd [i Hi]%list_elem_of_lookup [j Hj]%list_elem_of_lookup Hxy.
  assert (i = j) as <-; [|congruence].
  apply (NoDup_lookup _ _ _ _ Hnd (list_lookup_fmap_Some_2 _ _ _ _ Hi)).
  rewrite list_lookup_fmap, Hj. cbn. congruence.
Qed.

Lemma StronglySorted_lookup {A} (R : A → A → Prop) l i j x y :
  StronglySorted R l → i < j → l !! i = Some x → l !! j = Some y → R x y.
Proof.
  intros Hs. revert i j. induction Hs as [|z l Hl IH Hz]; intros i j Hij Hi Hj; [done|].
  destruct j as [|j]; [lia|]. destruct i as [|i]; cbn in Hi, Hj.
  - simplify_eq. by eapply Forall_lookup_1 in Hz.
  - eapply (IH i j); [lia|done..].
Qed.

Lemma StronglySorted_of_lookup {A} (R : A → A → Prop) l :
  (∀ i j x y, i < j → l !! i = Some x → l !! j = Some y → R x y) → StronglySorted R l.
Proof.
  induction l as [|k l IH]; intros H; constructor.
  - apply IH. intros i j a b Hij Hi Hj. by apply (H (S i) (S j)); [lia|..].
  - apply Forall_lookup. intros i x Hi. by apply (H 0 (S i)); [lia|..].
Qed.

Lemma StronglySorted_fmap {A B} (R : B → B → Prop) (f : A → B) l :
  StronglySorted (λ x y, R (f x) (f y)) l → StronglySorted R (f <$> l).
Proof.
  induction 1 as [|x l Hl IH Hx]; cbn; constructor; [done|]. by apply Forall_fmap.
Qed.

Lemma StronglySorted_impl_elem {A} (R R' : A → A → Prop) l :
  StronglySorted R l → (∀ x y, x ∈ l → y ∈ l → R x y → R' x y) → StronglySorted R' l.
Proof.
  induction 1 as [|x l Hl IH Hx]; intros H; constructor.
  - apply IH. intros y z Hy Hz. apply H; set_solver.
  - apply Forall_forall. intros y Hy. apply H; [set_solver..|]. by eapply Forall_forall in Hx.
Qed.

Lemma StronglySorted_app_r {A} (R : A → A → Prop) l1 l2 :
  StronglySorted R (l1 ++ l2) → StronglySorted R l2.
Proof.
  induction l1 as [|x l1 IH]; [done|]. cbn. by intros [? _]%StronglySorted_inv; auto.
Qed.

Lemma StronglySorted_app_elem {A} (R : A → A → Prop) l1 l2 x y :
  StronglySorted R (l1 ++ l2) → x ∈ l1 → y ∈ l2 → R x y.
Proof.
  induction l1 as [|z l1 IH]; [set_solver|]. cbn. intros [Hs Hz]%StronglySorted_inv.
  intros [->|Hx]%elem_of_cons Hy; [|by apply IH].
  eapply Forall_forall in Hz; [exact Hz|]. set_solver.
Qed.

Lemma elem_of_concat {A} (x : A) ls : x ∈ concat ls ↔ ∃ l, x ∈ l ∧ l ∈ ls.
Proof.
  induction ls as [|l ls IH]; cbn; [set_solver|]. rewrite elem_of_app, IH. set_solver.
Qed.

Lemma tc_mono {A} (R R' : A → A → Prop) x y :
  (∀ u v, R u v → R' u v) → tc R x y → tc R' x y.
Proof. intros H. induction 1; [by apply tc_once, H|]. eapply tc_l; [by apply H|done]. Qed.

Lemma tc_step {A} (R : A → A → Prop) x y : tc R x y → ∃ z, R x z ∧ rtc R z y.
Proof. intros H. inversion H; subst; eauto using tc_rtc, rtc_refl. Qed.

Lemma tc_step_r {A} (R : A → A → Prop) x y : tc R x y → ∃ z, rtc R x z ∧ R z y.
Proof.
  induction 1 as [x y H|x y z H _ (w & H1 & H2)]; [by exists x|].
  exists w. split; [by eapply rtc_l|done].
Qed.

Lemma size_union_alt_le {A} `{Countable A} (X Y : gset A) : size (X ∪ Y) ≤ size X + size Y.
Proof.
  rewrite size_union_alt. pose proof (subseteq_size (Y ∖ X) Y ltac:(set_solver)). lia.
Qed.

Lemma size_set_map_le {A B} `{Countable A} `{Countable B} (f : A → B) (X : gset A) :
  size (set_map f X : gset B) ≤ size X.
Proof.
  induction X as [|x X Hx IH] using set_ind_L.
  - by rewrite set_map_empty, !size_empty.
  - rewrite (size_union {[x]} X) by set_solver.
    rewrite set_map_union_L, set_map_singleton_L.
    etrans; [apply size_union_alt_le|]. rewrite !size_singleton. lia.
Qed.

(** A finite, non-empty set in which every element is reached from another element
    of the set contains a cycle. *)
Lemma no_minimal_cycle {A} `{Countable A} (R : A → A → Prop) (X : gset A) :
  X ≠ ∅ → (∀ x, x ∈ X → ∃ y, y ∈ X ∧ R y x) → ∃ x, x ∈ X ∧ tc R x x.
Proof.
  intros Hne Hstep.
  assert (∀ n, ∃ l, length l = S n ∧ (∀ x, x ∈ l → x ∈ X) ∧ StronglySorted (tc R) l) as Hwalk.
  { intros n. induction n as [|n (l & Hl & Hin & Hs)].
    - apply set_choose_L in Hne as [x Hx]. exists [x]. split_and!; [done|set_solver|].
      by repeat constructor.
    - destruct l as [|x l]; [done|]. destruct (Hstep x) as (y & Hy & Hyx); [set_solver|].
      exists (y :: x :: l). split_and!; [cbn in *; lia|set_solver|]. constructor; [done|].
      apply StronglySorted_inv in Hs as [_ Hx]. constructor; [by apply tc_once|].
      eapply Forall_impl; [exact Hx|]. intros z Hz. by eapply tc_l. }
  destruct (Hwalk (size X)) as (l & Hl & Hin & Hs).
  destruct (decide (NoDup l)) as [Hnd|Hnd].
  - assert (size (list_to_set l : gset A) ≤ size X) as Hle by (apply subseteq_size; set_solver).
    rewrite size_list_to_set in Hle by done. lia.
  - assert (∃ i j x, i < j ∧ l !! i = Some x ∧ l !! j = Some x) as (i & j & x & Hij & Hi & Hj).
    { clear Hl Hin Hs. induction l as [|y l IH]; [by destruct Hnd; constructor|].
      destruct (decide (y ∈ l)) as [[j Hj]%list_elem_of_lookup|Hy].
      - exists 0, (S j), y. split_and!; [lia|done..].
      - destruct IH as (i & j & x & ? & ? & ?); [by intros H'; apply Hnd; constructor|].
        exists (S i), (S j), x. split_and!; [lia|done..]. }
    exists x. split; [apply Hin; by eapply list_elem_of_lookup_2|].
    exact (StronglySorted_lookup _ _ i j x x Hs Hij Hi Hj).
Qed.
