(* ===== verification/RustStr.v ===== *)
(** * The [str] and integer-parsing operations the code uses

    A Rust [str] is its UTF-8 bytes, a Rocq [string] is a list of bytes, so
    [str::len] is [String.length] and [Ord for str] is [String.compare].  This
    file defines the standard-library routines the modelled functions call
    ([strip_prefix], [split_once], [split], [parse], [format!] of integers) and
    the lemmas that the parsers' round trips use. *)

From S2P Require Import Prelude.

(** ** Bytes *)

Definition byte_val (c : ascii) : Z := Z.of_N (N_of_ascii c).

(** [char::to_digit(10)] on an ASCII byte, and its inverse. *)
Definition to_digit (c : ascii) : option Z :=
  if (48 <=? byte_val c)%Z && (byte_val c <=? 57)%Z then Some (byte_val c - 48)%Z else None.

Definition digit_char (d : Z) : ascii := ascii_of_N (Z.to_N (48 + d)).

(** [u8::is_ascii_digit]. *)
Definition is_ascii_digit (c : ascii) : bool :=
  (48 <=? byte_val c)%Z && (byte_val c <=? 57)%Z.

(** [bytes().all(f)] and [bytes().any(f)]. *)
Fixpoint all_bytes (f : ascii → bool) (s : string) : bool :=
  match s with
  | EmptyString => true
  | String c s => f c && all_bytes f s
  end.

Definition any_bytes (f : ascii → bool) (s : string) : bool :=
  negb (all_bytes (λ c, negb (f c)) s).

(** [str::is_empty]. *)
Definition is_empty (s : string) : bool :=
  match s with EmptyString => true | _ => false end.

(** ** Searching and splitting *)

(** [str::strip_prefix] with a string pattern. *)
Fixpoint strip_prefix (p s : string) : option string :=
  match p, s with
  | EmptyString, _ => Some s
  | String c p, String d s => if Ascii.eqb c d then strip_prefix p s else None
  | String _ _, EmptyString => None
  end.

Definition starts_with (p s : string) : bool :=
  match strip_prefix p s with Some _ => true | None => false end.

(** [str::strip_suffix] with a one-byte pattern. *)
Fixpoint strip_suffix_char (c : ascii) (s : string) : option string :=
  match s with
  | EmptyString => None
  | String d EmptyString => if Ascii.eqb c d then Some EmptyString else None
  | String d s => String d <$> strip_suffix_char c s
  end.

(** [str::split_once] with a one-byte pattern: at the first occurrence. *)
Fixpoint split_once (c : ascii) (s : string) : option (string * string) :=
  match s with
  | EmptyString => None
  | String d s =>
      if Ascii.eqb c d then Some (EmptyString, s)
      else '(a, b) ← split_once c s; Some (String d a, b)
  end.

(** [str::split] with a one-byte pattern: never empty. *)
Fixpoint split_char (c : ascii) (s : string) : list string :=
  match s with
  | EmptyString => [EmptyString]
  | String d s =>
      if Ascii.eqb c d then EmptyString :: split_char c s
      else match split_char c s with
           | [] => [String d EmptyString]
           | w :: ws => String d w :: ws
           end
  end.

(** [str::contains] with a one-byte pattern. *)
Fixpoint contains_char (c : ascii) (s : string) : bool :=
  match s with
  | EmptyString => false
  | String d s => Ascii.eqb c d || contains_char c s
  end.

(** [&s[..n]] for [n] at most the length. *)
Fixpoint str_take (n : nat) (s : string) : string :=
  match n, s with
  | S n, String c s => String c (str_take n s)
  | _, _ => EmptyString
  end.

(** [&s[n..]]. *)
Fixpoint str_drop (n : nat) (s : string) : string :=
  match n, s with
  | S n, String _ s => str_drop n s
  | _, _ => s
  end.

(** ** Integers *)

Definition i64_min : Z := -9223372036854775808.
Definition i64_max : Z := 9223372036854775807.
Definition u32_max : Z := 4294967295.
Definition u64_max : Z := 18446744073709551615.

Inductive IntErrorKind := IntEmpty | InvalidDigit | PosOverflow | NegOverflow.

(** [Display for ParseIntError]. *)
Definition int_error_display (e : IntErrorKind) : string :=
  match e with
  | IntEmpty => "cannot parse integer from empty string"
  | InvalidDigit => "invalid digit found in string"
  | PosOverflow => "number too large to fit in target type"
  | NegOverflow => "number too small to fit in target type"
  end.

(** The digit loops of [from_str_radix(_, 10)]: the digit is checked before the
    accumulated value is range-checked. *)
Fixpoint parse_pos (hi acc : Z) (s : string) : Result IntErrorKind Z :=
  match s with
  | EmptyString => Ok acc
  | String c s =>
      match to_digit c with
      | None => Err InvalidDigit
      | Some d =>
          if (acc * 10 + d <=? hi)%Z then parse_pos hi (acc * 10 + d)%Z s
          else Err PosOverflow
      end
  end.

Fixpoint parse_neg (lo acc : Z) (s : string) : Result IntErrorKind Z :=
  match s with
  | EmptyString => Ok acc
  | String c s =>
      match to_digit c with
      | None => Err InvalidDigit
      | Some d =>
          if (lo <=? acc * 10 - d)%Z then parse_neg lo (acc * 10 - d)%Z s
          else Err NegOverflow
      end
  end.

Definition parse_unsigned (hi : Z) (s : string) : Result IntErrorKind Z :=
  match s with
  | EmptyString => Err IntEmpty
  | String "+" EmptyString | String "-" EmptyString => Err InvalidDigit
  | String "+" s => parse_pos hi 0 s
  | _ => parse_pos hi 0 s
  end.

Definition parse_signed (lo hi : Z) (s : string) : Result IntErrorKind Z :=
  match s with
  | EmptyString => Err IntEmpty
  | String "+" EmptyString | String "-" EmptyString => Err InvalidDigit
  | String "+" s => parse_pos hi 0 s
  | String "-" s => parse_neg lo 0 s
  | _ => parse_pos hi 0 s
  end.

(** [Result::ok]. *)
Definition ok {E A} (r : Result E A) : option A :=
  match r with Ok a => Some a | Err _ => None end.

Definition parse_i64 (s : string) : option Z := ok (parse_signed i64_min i64_max s).

(** ** Formatting *)

(** Decimal digits of a non-negative integer. *)
Fixpoint dec_digits (fuel : nat) (n : Z) : string :=
  match fuel with
  | O => String (digit_char n) EmptyString
  | S fuel =>
      if (n <? 10)%Z then String (digit_char n) EmptyString
      else dec_digits fuel (n / 10) +:+ String (digit_char (n mod 10)) EmptyString
  end.

Definition dec_nonneg (n : Z) : string := dec_digits (Z.to_nat (Z.log2 n)) n.

(** [Display] of an integer. *)
Definition dec (n : Z) : string :=
  if (n <? 0)%Z then String "-" (dec_nonneg (- n)) else dec_nonneg n.

Fixpoint zeros (n : nat) : string :=
  match n with O => EmptyString | S n => String "0" (zeros n) end.

(** [format!("{n:0w}")]: zeros go between the sign and the digits, and the width
    counts the sign. *)
Definition pad (w : nat) (n : Z) : string :=
  if (n <? 0)%Z then
    let s := dec_nonneg (- n) in
    String "-" (zeros (w - S (String.length s)) +:+ s)
  else
    let s := dec_nonneg n in
    zeros (w - String.length s) +:+ s.

(** ** Laws of append, search and split *)

Lemma append_nil_r s : s +:+ EmptyString = s.
Proof. induction s as [|c s IH]; cbn; [done|by rewrite IH]. Qed.

Lemma append_assoc s1 s2 s3 : (s1 +:+ s2) +:+ s3 = s1 +:+ (s2 +:+ s3).
Proof. induction s1 as [|c s1 IH]; cbn; [done|by rewrite IH]. Qed.

Lemma append_cons_l c s t : String c s +:+ t = String c (s +:+ t).
Proof. done. Qed.

Lemma length_append s t : String.length (s +:+ t) = String.length s + String.length t.
Proof. induction s as [|c s IH]; cbn; [done|by rewrite IH]. Qed.

Lemma append_inj_l s t u : s +:+ t = s +:+ u → t = u.
Proof. induction s as [|c s IH]; cbn; [done|]. intros [= H]. by apply IH. Qed.

(** Strings of equal length split uniquely. *)
Lemma append_inj_len s1 s2 t1 t2 :
  String.length s1 = String.length t1 → s1 +:+ s2 = t1 +:+ t2 → s1 = t1 ∧ s2 = t2.
Proof.
  revert t1; induction s1 as [|c s1 IH]; intros [|d t1]; cbn; try done.
  intros [= Hl] [= -> H]. by apply IH in H as [-> ->].
Qed.

Lemma strip_prefix_Some p s r : strip_prefix p s = Some r ↔ s = p +:+ r.
Proof.
  revert s; induction p as [|c p IH]; intros s; cbn.
  { split; [by intros [= ->]|by intros ->]. }
  destruct s as [|d s]; [done|].
  destruct (Ascii.eqb_spec c d) as [->|Hne].
  - rewrite IH. split; [by intros ->|by intros [= ->]].
  - split; [done|]. intros [= ? ?]; congruence.
Qed.

Lemma strip_prefix_append p r : strip_prefix p (p +:+ r) = Some r.
Proof. by apply strip_prefix_Some. Qed.

Lemma starts_with_append p r : starts_with p (p +:+ r) = true.
Proof. unfold starts_with. by rewrite strip_prefix_append. Qed.

Lemma starts_with_true p s : starts_with p s = true ↔ ∃ r, s = p +:+ r.
Proof.
  unfold starts_with. destruct (strip_prefix p s) as [r|] eqn:E.
  - apply strip_prefix_Some in E. naive_solver.
  - split; [done|]. intros [r ->]. by rewrite strip_prefix_append in E.
Qed.

Lemma strip_suffix_char_append c s :
  strip_suffix_char c (s +:+ String c EmptyString) = Some s.
Proof.
  induction s as [|d s IH]; cbn; [by rewrite Ascii.eqb_refl|].
  destruct (s +:+ String c EmptyString) eqn:E; [by destruct s|]. by rewrite IH.
Qed.

Lemma strip_suffix_char_Some c s r :
  strip_suffix_char c s = Some r → s = r +:+ String c EmptyString.
Proof.
  revert r; induction s as [|d s IH]; intros r; cbn; [done|].
  destruct s as [|d' s].
  - destruct (Ascii.eqb_spec c d) as [->|]; [by intros [= <-]|done].
  - intros (r' & Hr & ->)%fmap_Some. cbn. by rewrite <- (IH r' Hr).
Qed.

Lemma split_once_append c a b :
  contains_char c a = false → split_once c (a +:+ String c b) = Some (a, b).
Proof.
  induction a as [|d a IH]; cbn; [by rewrite Ascii.eqb_refl|].
  intros [-> Ha]%orb_false_iff. by rewrite IH.
Qed.

Lemma split_once_Some c s a b :
  split_once c s = Some (a, b) → s = a +:+ String c b ∧ contains_char c a = false.
Proof.
  revert a; induction s as [|d s IH]; intros a; cbn; [done|].
  destruct (Ascii.eqb_spec c d) as [->|Hne]; [by intros [= <- <-]|].
  destruct (split_once c s) as [[a' b']|]; cbn; [|done]. intros [= <- <-].
  destruct (IH a' eq_refl) as [-> Ha]. cbn. split; [done|].
  by rewrite (proj2 (Ascii.eqb_neq c d) Hne).
Qed.

Lemma split_once_None c s : contains_char c s = false ↔ split_once c s = None.
Proof.
  induction s as [|d s IH]; cbn; [done|]. destruct (Ascii.eqb c d); cbn; [done|].
  rewrite IH. by destruct (split_once c s) as [[]|].
Qed.

Lemma split_char_single c a : contains_char c a = false → split_char c a = [a].
Proof.
  induction a as [|d a IH]; cbn; [done|]. intros [-> Ha]%orb_false_iff. by rewrite IH.
Qed.

Lemma split_char_append c a b :
  contains_char c a = false → split_char c (a +:+ String c b) = a :: split_char c b.
Proof.
  induction a as [|d a IH]; cbn; [by rewrite Ascii.eqb_refl|].
  intros [-> Ha]%orb_false_iff. by rewrite IH.
Qed.

Lemma contains_char_append c a b :
  contains_char c (a +:+ b) = contains_char c a || contains_char c b.
Proof. induction a as [|d a IH]; cbn; [done|]. by rewrite IH, orb_assoc. Qed.

Lemma all_bytes_append f a b : all_bytes f (a +:+ b) = all_bytes f a && all_bytes f b.
Proof. induction a as [|d a IH]; cbn; [done|]. by rewrite IH, andb_assoc. Qed.

(** A string of bytes satisfying [f] does not contain a byte that does not. *)
Lemma all_bytes_contains f c s :
  all_bytes f s = true → f c = false → contains_char c s = false.
Proof.
  intros Hs Hc. induction s as [|d s IH]; cbn in *; [done|].
  apply andb_true_iff in Hs as [Hd Hs]. rewrite IH by done.
  destruct (Ascii.eqb_spec c d) as [->|]; [congruence|done].
Qed.

Lemma length_str_take_min n s : String.length (str_take n s) = Nat.min n (String.length s).
Proof. revert s. induction n as [|n IH]; intros [|c s]; cbn; [done..|]. by rewrite IH. Qed.

Lemma length_str_take n s : n ≤ String.length s → String.length (str_take n s) = n.
Proof. rewrite length_str_take_min. lia. Qed.

Lemma str_take_drop n s : str_take n s +:+ str_drop n s = s.
Proof. revert s; induction n as [|n IH]; intros [|c s]; cbn; [done..|by rewrite IH]. Qed.

(** ** Digits *)

Lemma to_digit_char d : (0 ≤ d < 10)%Z → to_digit (digit_char d) = Some d.
Proof.
  intros Hd. assert (d = 0 ∨ d = 1 ∨ d = 2 ∨ d = 3 ∨ d = 4 ∨ d = 5 ∨ d = 6 ∨ d = 7
    ∨ d = 8 ∨ d = 9)%Z as Hcases by lia. by destruct_or! Hcases; subst.
Qed.

Lemma digit_char_is_digit d : (0 ≤ d < 10)%Z → is_ascii_digit (digit_char d) = true.
Proof.
  intros Hd%to_digit_char. unfold to_digit, is_ascii_digit in *.
  by destruct (_ && _).
Qed.

Lemma to_digit_range c d : to_digit c = Some d → (0 ≤ d < 10)%Z.
Proof. unfold to_digit. case_match eqn:E; [|done]. intros [= <-]. lia. Qed.

(** The value of a digit string read on top of [acc], without a range check. *)
Fixpoint digits_value (acc : Z) (s : string) : option Z :=
  match s with
  | EmptyString => Some acc
  | String c s => d ← to_digit c; digits_value (acc * 10 + d) s
  end.

Lemma digits_value_append acc s t :
  digits_value acc (s +:+ t) = (v ← digits_value acc s; digits_value v t).
Proof.
  revert acc; induction s as [|c s IH]; intros acc; cbn; [done|].
  destruct (to_digit c); cbn; [apply IH|done].
Qed.

Lemma digits_value_ge acc s v : (0 ≤ acc)%Z → digits_value acc s = Some v → (acc ≤ v)%Z.
Proof.
  revert acc; induction s as [|c s IH]; intros acc Hacc; cbn; [intros [= ->]; lia|].
  intros (d & Hd%to_digit_range & Hv)%bind_Some. apply IH in Hv; lia.
Qed.

Lemma digits_value_all acc s v :
  digits_value acc s = Some v → all_bytes is_ascii_digit s = true.
Proof.
  revert acc; induction s as [|c s IH]; intros acc; cbn; [done|].
  intros (d & Hd & ->%IH)%bind_Some. unfold to_digit in Hd.
  by destruct (is_ascii_digit c) eqn:E; unfold is_ascii_digit in E; rewrite E in Hd.
Qed.

Lemma parse_pos_value hi acc s v :
  (0 ≤ acc)%Z → digits_value acc s = Some v → (v ≤ hi)%Z → parse_pos hi acc s = Ok v.
Proof.
  revert acc; induction s as [|c s IH]; intros acc Hacc; cbn; [by intros [= ->]|].
  intros (d & Hd & Hv)%bind_Some Hhi. rewrite Hd.
  pose proof (to_digit_range _ _ Hd). 
  assert (acc * 10 + d ≤ v)%Z by (eapply digits_value_ge; [|exact Hv]; lia).
  rewrite (proj2 (Z.leb_le _ _)) by lia. apply IH; [lia|done..].
Qed.

Lemma parse_pos_Ok hi acc s v :
  parse_pos hi acc s = Ok v → digits_value acc s = Some v.
Proof.
  revert acc; induction s as [|c s IH]; intros acc; cbn; [by intros [= ->]|].
  destruct (to_digit c); cbn; [|done]. case_match; [apply IH|done].
Qed.

(** An all-digit string of length at least one parses to its value. *)
Lemma parse_i64_digits s v :
  s ≠ EmptyString → digits_value 0 s = Some v → (v ≤ i64_max)%Z → parse_i64 s = Some v.
Proof.
  intros Hne Hv Hmax. pose proof (parse_pos_value i64_max 0 s v ltac:(lia) Hv Hmax) as Hp.
  unfold parse_i64, parse_signed. destruct s as [|c s]; [done|].
  apply digits_value_all in Hv as [Hc _]%andb_true_iff.
  destruct (decide (c = "+"%char)) as [->|]; [done|].
  destruct (decide (c = "-"%char)) as [->|]; [done|].
  repeat (case_match; try done); by rewrite Hp.
Qed.

(** ** Printing then reading an integer *)

Lemma dec_digits_value fuel n :
  (0 ≤ n)%Z → (Z.to_nat (Z.log2 n) ≤ fuel) → digits_value 0 (dec_digits fuel n) = Some n.
Proof.
  revert n; induction fuel as [|fuel IH]; intros n Hn Hf; cbn.
  - assert (n < 2)%Z.
    { destruct (Z.lt_ge_cases n 2) as [|H]; [done|].
      pose proof (Z.log2_le_mono 2 n H). change (Z.log2 2) with 1%Z in *. lia. }
    by rewrite to_digit_char by lia.
  - destruct (Z.ltb_spec n 10).
    { cbn. by rewrite to_digit_char by lia. }
    rewrite digits_value_append, IH.
    + cbn. rewrite to_digit_char by (apply Z.mod_pos_bound; lia). cbn.
      f_equal. pose proof (Z.div_mod n 10). lia.
    + apply Z.div_pos; lia.
    + assert (n / 10 ≤ Z.shiftr n 1)%Z as Hle%Z.log2_le_mono.
      { rewrite Z.shiftr_div_pow2 by lia. change (2 ^ 1)%Z with 2%Z.
        apply Z.div_le_compat_l; lia. }
      rewrite Z.log2_shiftr in Hle by lia. lia.
Qed.

Lemma dec_nonneg_value n : (0 ≤ n)%Z → digits_value 0 (dec_nonneg n) = Some n.
Proof. intros. by apply dec_digits_value. Qed.

Lemma dec_digits_length fuel n w :
  (0 ≤ n < 10 ^ Z.of_nat w)%Z → w ≠ 0 → String.length (dec_digits fuel n) ≤ w.
Proof.
  revert n w; induction fuel as [|fuel IH]; intros n w Hn Hw; cbn; [lia|].
  destruct (Z.ltb_spec n 10); [cbn; lia|].
  destruct w as [|w]; [done|]. rewrite Nat2Z.inj_succ, Z.pow_succ_r in Hn by lia.
  rewrite length_append. cbn.
  assert (w ≠ 0) by (intros ->; cbn in Hn; lia).
  enough (String.length (dec_digits fuel (n / 10)) ≤ w) by lia.
  apply IH; [|done]. split; [apply Z.div_pos; lia|apply Z.div_lt_upper_bound; lia].
Qed.

Lemma length_zeros n : String.length (zeros n) = n.
Proof. induction n; cbn; lia. Qed.

Lemma digits_value_zeros n s : digits_value 0 (zeros n +:+ s) = digits_value 0 s.
Proof. induction n; cbn; [done|]. done. Qed.

Section pad.
Context (w : nat) (n : Z) (Hn : (0 ≤ n < 10 ^ Z.of_nat w)%Z) (Hw : w ≠ 0).

Lemma pad_nonneg : pad w n = zeros (w - String.length (dec_nonneg n)) +:+ dec_nonneg n.
Proof. unfold pad. destruct (Z.ltb_spec n 0); [lia|done]. Qed.

(** A value that fits is printed at exactly the width. *)
Lemma length_pad : String.length (pad w n) = w.
Proof.
  rewrite pad_nonneg, length_append, length_zeros.
  pose proof (dec_digits_length (Z.to_nat (Z.log2 n)) n w Hn Hw).
  unfold dec_nonneg. lia.
Qed.

Lemma pad_value : digits_value 0 (pad w n) = Some n.
Proof. rewrite pad_nonneg, digits_value_zeros. apply dec_nonneg_value; lia. Qed.

Lemma pad_all_digits : all_bytes is_ascii_digit (pad w n) = true.
Proof. eapply digits_value_all, pad_value. Qed.

Lemma pad_contains c : is_ascii_digit c = false → contains_char c (pad w n) = false.
Proof. intros. by eapply all_bytes_contains; [apply pad_all_digits|]. Qed.
End pad.

#[export] Hint Rewrite append_assoc append_nil_r append_cons_l : append.
#[export] Hint Resolve pad_contains : pb.

(** ** Lexicographic order *)

Lemma compare_append_len s1 s2 t1 t2 :
  String.length s1 = String.length t1 →
  String.compare (s1 +:+ s2) (t1 +:+ t2) =
  then_with (String.compare s1 t1) (String.compare s2 t2).
Proof.
  revert t1; induction s1 as [|c s1 IH]; intros [|d t1]; cbn; try done.
  intros [= Hl]. rewrite IH by done. by destruct (Ascii.compare c d).
Qed.

Lemma compare_cons_same c s t :
  String.compare (String c s) (String c t) = String.compare s t.
Proof.
  cbn. assert (Ascii.compare c c = Eq) as ->; [|done].
  unfold Ascii.compare. apply N.compare_refl.
Qed.

Lemma digits_value_lt s t a b v w :
  String.length s = String.length t → (a < b)%Z →
  digits_value a s = Some v → digits_value b t = Some w → (v < w)%Z.
Proof.
  revert t a b; induction s as [|c s IH]; intros [|d t] a b Hl Hab; cbn; try done.
  { intros [= ->] [= ->]. lia. }
  intros (x & Hx%to_digit_range & Hv)%bind_Some (y & Hy%to_digit_range & Hw)%bind_Some.
  eapply (IH t); [by injection Hl| |exact Hv|exact Hw]. lia.
Qed.

(** Equal-length digit strings compare as their values. *)
Lemma digits_value_compare s t a v w :
  String.length s = String.length t →
  digits_value a s = Some v → digits_value a t = Some w →
  String.compare s t = Z.compare v w.
Proof.
  revert t a; induction s as [|c s IH]; intros [|d t] a Hl; cbn; try done.
  { intros [= ->] [= ->]. by rewrite Z.compare_refl. }
  intros (x & Hx & Hv)%bind_Some (y & Hy & Hw)%bind_Some. injection Hl as Hl.
  unfold Ascii.compare. unfold to_digit in Hx, Hy.
  destruct (_ && _) in Hx; [|done]. destruct (_ && _) in Hy; [|done].
  injection Hx as Hx. injection Hy as Hy. unfold byte_val in Hx, Hy.
  destruct (N.compare_spec (N_of_ascii c) (N_of_ascii d)) as [E|E|E].
  - assert (x = y) as <- by lia. by eapply IH.
  - symmetry. apply Z.compare_lt_iff. eapply digits_value_lt; [exact Hl| |done..]. lia.
  - symmetry. apply Z.compare_gt_iff. eapply digits_value_lt; [symmetry; exact Hl| |done..]. lia.
Qed.

Lemma compare_pad w n m :
  w ≠ 0 → (0 ≤ n < 10 ^ Z.of_nat w)%Z → (0 ≤ m < 10 ^ Z.of_nat w)%Z →
  String.compare (pad w n) (pad w m) = Z.compare n m.
Proof.
  intros Hw Hn Hm. eapply digits_value_compare; [by rewrite !length_pad|by apply pad_value..].
Qed.

(** ** Trimming

    [str::trim] removes the characters of the Unicode property White_Space; the
    number of bytes of the white-space character a byte sequence starts with, and
    the same reading the sequence backwards. *)
Definition ws_len (s : string) : nat :=
  match s with
  | EmptyString => 0
  | String a s =>
      let a := byte_val a in
      if ((9 <=? a) && (a <=? 13))%Z || (a =? 32)%Z then 1 else
      match s with
      | EmptyString => 0
      | String b s =>
          let b := byte_val b in
          if (a =? 194)%Z && ((b =? 133)%Z || (b =? 160)%Z) then 2 else
          match s with
          | EmptyString => 0
          | String c _ =>
              let c := byte_val c in
              if ((a =? 225) && (b =? 154) && (c =? 128))%Z
                 || ((a =? 226) && (b =? 128) && (((128 <=? c) && (c <=? 138))
                      || (c =? 168) || (c =? 169) || (c =? 175)))%Z
                 || ((a =? 226) && (b =? 129) && (c =? 159))%Z
                 || ((a =? 227) && (b =? 128) && (c =? 128))%Z
              then 3 else 0
          end
      end
  end.

Fixpoint str_rev_onto (acc s : string) : string :=
  match s with
  | EmptyString => acc
  | String c s => str_rev_onto (String c acc) s
  end.

Definition str_rev : string → string := str_rev_onto EmptyString.

(** [s] is read backwards: the last character's bytes come first, reversed. *)
Definition ws_len_rev (s : string) : nat :=
  let try n := ws_len (str_rev (str_take n s)) =? n in
  if try 1 && negb (is_empty s) then 1
  else if try 2 && (2 <=? String.length s) then 2
  else if try 3 && (3 <=? String.length s) then 3 else 0.

Fixpoint trim_with (ws : string → nat) (fuel : nat) (s : string) : string :=
  match fuel with
  | O => s
  | S fuel => match ws s with O => s | n => trim_with ws fuel (str_drop n s) end
  end.

Definition trim_start (s : string) : string := trim_with ws_len (String.length s) s.

Definition trim_end (s : string) : string :=
  str_rev (trim_with ws_len_rev (String.length s) (str_rev s)).

Definition trim (s : string) : string := trim_end (trim_start s).

(** [Iterator::rev] on the bytes is an involution. *)
Lemma str_rev_onto_spec acc s : str_rev_onto acc s = str_rev_onto EmptyString s +:+ acc.
Proof.
  revert acc; induction s as [|c s IH]; intros acc; cbn; [done|].
  rewrite (IH (String c acc)), (IH (String c EmptyString)), append_assoc. done.
Qed.

Lemma str_rev_cons c s : str_rev (String c s) = str_rev s +:+ String c EmptyString.
Proof. exact (str_rev_onto_spec (String c EmptyString) s). Qed.

Lemma str_rev_append s t : str_rev (s +:+ t) = str_rev t +:+ str_rev s.
Proof.
  induction s as [|c s IH]; cbn [String.append]; [by rewrite append_nil_r|].
  by rewrite !str_rev_cons, IH, append_assoc.
Qed.

Lemma str_rev_involutive s : str_rev (str_rev s) = s.
Proof. induction s as [|c s IH]; [done|]. by rewrite str_rev_cons, str_rev_append, IH. Qed.

(** ** [slice::partition_point]

    On a slice whose elements satisfying [p] form a prefix, the length of that
    prefix. *)
Fixpoint partition_point {A} (p : A → bool) (l : list A) : nat :=
  match l with
  | x :: l => if p x then S (partition_point p l) else 0
  | [] => 0
  end.

Lemma partition_point_app {A} (p : A → bool) l1 l2 :
  Forall (λ x, p x = true) l1 → Forall (λ x, p x = false) l2 →
  partition_point p (l1 ++ l2) = length l1.
Proof.
  intros H1 H2. induction H1 as [|x l1 Hx _ IH]; cbn.
  - destruct l2 as [|y l2]; [done|]. cbn; apply Forall_cons in H2 as [-> _]. done.
  - by rewrite Hx, IH.
Qed.

(** ** Lines and words *)

Definition newline : ascii := "010"%char.
Definition carriage_return : ascii := "013"%char.

Definition strip_cr (s : string) : string :=
  match strip_suffix_char carriage_return s with Some t => t | None => s end.

(** [str::lines]: terminated by a newline, a carriage return before it dropped. *)
Fixpoint lines_from (cur s : string) : list string :=
  match s with
  | EmptyString => if is_empty cur then [] else [cur]
  | String c s =>
      if Ascii.eqb c newline then strip_cr cur :: lines_from EmptyString s
      else lines_from (cur +:+ String c EmptyString) s
  end.

Definition str_lines (s : string) : list string := lines_from EmptyString s.

Definition unlines (ls : list string) : string :=
  foldr (λ l acc, l +:+ String newline acc) EmptyString ls.

(** A line that [str::lines] gives back as it is. *)
Definition clean_line (s : string) : bool :=
  negb (contains_char newline s) &&
  match strip_suffix_char carriage_return s with Some _ => false | None => true end.

Lemma lines_from_line cur l s :
  contains_char newline l = false →
  lines_from cur (l +:+ String newline s) = strip_cr (cur +:+ l) :: str_lines s.
Proof.
  revert cur; induction l as [|c l IH]; intros cur;
    cbn [lines_from String.append contains_char].
  { intros _. by rewrite Ascii.eqb_refl, append_nil_r. }
  intros [Hc Hl]%orb_false_iff. rewrite Ascii.eqb_sym, Hc, IH by done.
  by rewrite append_assoc.
Qed.

Lemma str_lines_unlines ls :
  Forall (λ l, clean_line l = true) ls → str_lines (unlines ls) = ls.
Proof.
  induction 1 as [|l ls Hl _ IH]; [done|]. unfold str_lines. cbn [unlines foldr].
  unfold clean_line in Hl. apply andb_true_iff in Hl as [Hn%negb_true_iff Hc].
  rewrite lines_from_line by done. fold (unlines ls). rewrite IH. cbn. unfold strip_cr.
  by destruct (strip_suffix_char carriage_return l).
Qed.

(** [str::split_whitespace]; [skip] bytes of a white-space character remain. *)
Fixpoint words_from (skip : nat) (cur s : string) : list string :=
  let flush := if is_empty cur then [] else [cur] in
  match s with
  | EmptyString => flush
  | String c s' =>
      match skip with
      | S k => words_from k cur s'
      | O =>
          match ws_len s with
          | O => words_from 0 (cur +:+ String c EmptyString) s'
          | S k => flush ++ words_from k EmptyString s'
          end
      end
  end.

Definition split_whitespace (s : string) : list string := words_from 0 EmptyString s.

(** [trim_start_matches] and [trim_end_matches] with a one-byte pattern. *)
Fixpoint trim_start_matches (c : ascii) (s : string) : string :=
  match s with
  | String d s' => if Ascii.eqb c d then trim_start_matches c s' else s
  | EmptyString => EmptyString
  end.

Definition trim_end_matches (c : ascii) (s : string) : string :=
  str_rev (trim_start_matches c (str_rev s)).

(** [str::split_once] with a string pattern. *)
Fixpoint split_once_str (p s : string) : option (string * string) :=
  match strip_prefix p s with
  | Some rest => Some (EmptyString, rest)
  | None =>
      match s with
      | EmptyString => None
      | String c s => '(a, b) ← split_once_str p s; Some (String c a, b)
      end
  end.

(** ** UTF-8 validity ([std::str::from_utf8])

    Number of bytes of the well-formed sequence at the front, or the error length
    of [Utf8Error]: [None] for input that ends inside a sequence. *)
Definition in_range (lo hi : Z) (c : ascii) : bool :=
  (lo <=? byte_val c)%Z && (byte_val c <=? hi)%Z.

Inductive utf8_step := U8Valid (n : nat) | U8Error (error_len : option nat).

(** Continuation bytes after a lead byte: [k] still expected, [seen] consumed. *)
Fixpoint utf8_tail (k seen : nat) (s : string) : utf8_step :=
  match k with
  | O => U8Valid seen
  | S k =>
      match s with
      | EmptyString => U8Error None
      | String c s => if in_range 128 191 c then utf8_tail k (S seen) s
                      else U8Error (Some seen)
      end
  end.

(** The second byte has a lead-specific range. *)
Definition utf8_second (lo hi : Z) (k : nat) (s : string) : utf8_step :=
  match s with
  | EmptyString => U8Error None
  | String c s => if in_range lo hi c then utf8_tail k 2 s else U8Error (Some 1)
  end.

Definition utf8_char (s : string) : utf8_step :=
  match s with
  | EmptyString => U8Valid 0
  | String c s =>
      if in_range 0 127 c then U8Valid 1
      else if in_range 194 223 c then utf8_second 128 191 0 s
      else if in_range 224 224 c then utf8_second 160 191 1 s
      else if in_range 225 236 c || in_range 238 239 c then utf8_second 128 191 1 s
      else if in_range 237 237 c then utf8_second 128 159 1 s
      else if in_range 240 240 c then utf8_second 144 191 2 s
      else if in_range 241 243 c then utf8_second 128 191 2 s
      else if in_range 244 244 c then utf8_second 128 143 2 s
      else U8Error (Some 1)
  end.

(** The scan from offset [pos]; [skip] bytes of the current character remain. *)
Fixpoint utf8_scan (skip pos : nat) (s : string) : Result (nat * option nat) unit :=
  match s with
  | EmptyString => Ok ()
  | String _ s' =>
      match skip with
      | S k => utf8_scan k (S pos) s'
      | O =>
          match utf8_char s with
          | U8Valid n => utf8_scan (n - 1) (S pos) s'
          | U8Error e => Err (pos, e)
          end
      end
  end.

(** [Display for Utf8Error]. *)
Definition utf8_error_display (e : nat * option nat) : string :=
  match e with
  | (valid_up_to, Some n) =>
      "invalid utf-8 sequence of " +:+ dec (Z.of_nat n) +:+ " bytes from index "
      +:+ dec (Z.of_nat valid_up_to)
  | (valid_up_to, None) =>
      "incomplete utf-8 byte sequence from index " +:+ dec (Z.of_nat valid_up_to)
  end.

Definition from_utf8 (s : string) : Result (nat * option nat) string :=
  let? _ := utf8_scan 0 0 s in Ok s.

(** ASCII text is valid UTF-8. *)
Lemma from_utf8_ascii s : all_bytes (in_range 0 127) s = true → from_utf8 s = Ok s.
Proof.
  unfold from_utf8. intros Hs. assert (∀ pos, utf8_scan 0 pos s = Ok ()) as ->; [|done].
  induction s as [|c s IH]; intros pos; [done|]. cbn in Hs |- *.
  apply andb_true_iff in Hs as [-> Hs]. by apply IH.
Qed.

(** ** Words of printed headers *)

Definition is_graph (c : ascii) : bool := in_range 33 127 c.

Lemma ws_len_graph c s : is_graph c = true → ws_len (String c s) = 0.
Proof.
  unfold is_graph, in_range. intros [H1%Z.leb_le H2%Z.leb_le]%andb_true_iff.
  cbn -[Z.leb Z.eqb byte_val]. set (b := byte_val c) in *.
  assert ((b =? 32)%Z = false ∧ (b <=? 13)%Z = false ∧ (b =? 194)%Z = false ∧
    (b =? 225)%Z = false ∧ (b =? 226)%Z = false ∧ (b =? 227)%Z = false)
    as (-> & -> & -> & -> & -> & ->) by (split_and!; lia).
  rewrite andb_false_r. cbn [andb orb]. by destruct s as [|? [|]].
Qed.

Lemma words_from_graph cur w s :
  all_bytes is_graph w = true → words_from 0 cur (w +:+ s) = words_from 0 (cur +:+ w) s.
Proof.
  revert cur; induction w as [|c w IH]; intros cur; cbn [all_bytes String.append].
  { by rewrite append_nil_r. }
  intros [Hc Hw]%andb_true_iff. cbn [words_from]. rewrite ws_len_graph by done.
  rewrite IH by done. by rewrite append_assoc.
Qed.

Lemma split_whitespace_word w s :
  all_bytes is_graph w = true → w ≠ EmptyString →
  split_whitespace (w +:+ String " " s) = w :: split_whitespace s.
Proof.
  intros Hw Hne. unfold split_whitespace. rewrite words_from_graph by done.
  cbn. destruct w; [done|]. done.
Qed.

Lemma split_whitespace_last w :
  all_bytes is_graph w = true → w ≠ EmptyString → split_whitespace w = [w].
Proof.
  intros Hw Hne. unfold split_whitespace. rewrite <- (append_nil_r w) at 1.
  rewrite words_from_graph by done. cbn. by destruct w.
Qed.

Lemma all_bytes_impl (f g : ascii → bool) s :
  (∀ c, f c = true → g c = true) → all_bytes f s = true → all_bytes g s = true.
Proof.
  intros H. induction s as [|c s IH]; cbn; [done|].
  intros [Hc Hs]%andb_true_iff. by rewrite H, IH.
Qed.

Lemma is_ascii_digit_graph c : is_ascii_digit c = true → is_graph c = true.
Proof. unfold is_ascii_digit, is_graph, in_range. rewrite !andb_true_iff. lia. Qed.

Lemma parse_unsigned_digits hi s v :
  s ≠ EmptyString → digits_value 0 s = Some v → (v ≤ hi)%Z → parse_unsigned hi s = Ok v.
Proof.
  intros Hne Hv Hmax. pose proof (parse_pos_value hi 0 s v ltac:(lia) Hv Hmax) as Hp.
  unfold parse_unsigned. destruct s as [|c s]; [done|].
  apply digits_value_all in Hv as [Hc _]%andb_true_iff.
  destruct (decide (c = "+"%char)) as [->|]; [done|].
  destruct (decide (c = "-"%char)) as [->|]; [done|].
  repeat (case_match; try done).
Qed.

Lemma dec_nonneg_nonempty n : dec_nonneg n ≠ EmptyString.
Proof.
  unfold dec_nonneg. destruct (Z.to_nat (Z.log2 n)); cbn; [done|]. case_match; [done|].
  by destruct (dec_digits _ _).
Qed.

Lemma dec_nonneg_digits n : (0 ≤ n)%Z → all_bytes is_ascii_digit (dec_nonneg n) = true.
Proof. intros H. eapply digits_value_all, dec_nonneg_value, H. Qed.

Lemma parse_unsigned_dec hi n :
  (0 ≤ n ≤ hi)%Z → parse_unsigned hi (dec_nonneg n) = Ok n.
Proof.
  intros [H1 H2]. apply parse_unsigned_digits; [apply dec_nonneg_nonempty| |done].
  by apply dec_nonneg_value.
Qed.

Lemma all_bytes_rev f s : all_bytes f (str_rev s) = all_bytes f s.
Proof.
  induction s as [|c s IH]; [done|]. rewrite str_rev_cons, all_bytes_append, IH. cbn.
  by rewrite andb_true_r, andb_comm.
Qed.

Lemma trim_start_matches_absent c s : contains_char c s = false → trim_start_matches c s = s.
Proof. destruct s as [|d s]; cbn; [done|]. by intros [-> _]%orb_false_iff. Qed.

Lemma trim_end_matches_one c s :
  contains_char c (str_rev s) = false → trim_end_matches c (s +:+ String c EmptyString) = s.
Proof.
  intros H. unfold trim_end_matches. rewrite str_rev_append. cbn [str_rev str_rev_onto].
  change (str_rev (String c EmptyString)) with (String c EmptyString).
  cbn [String.append trim_start_matches].
  rewrite Ascii.eqb_refl, trim_start_matches_absent by done. apply str_rev_involutive.
Qed.

Lemma strip_suffix_char_app c s t :
  t ≠ EmptyString → strip_suffix_char c (s +:+ t) = String.append s <$> strip_suffix_char c t.
Proof.
  intros Ht. induction s as [|d s IH]; cbn [String.append].
  { by destruct (strip_suffix_char c t). }
  cbn [strip_suffix_char]. destruct (s +:+ t) eqn:E; [by destruct s|].
  rewrite IH. by destruct (strip_suffix_char c t).
Qed.

(** A clean line stays clean behind newline-free text. *)
Lemma clean_line_append s t :
  contains_char newline s = false → clean_line t = true → t ≠ EmptyString →
  clean_line (s +:+ t) = true.
Proof.
  unfold clean_line. intros Hs [Ht Hc]%andb_true_iff Hne.
  rewrite contains_char_append, Hs, strip_suffix_char_app by done. cbn.
  apply andb_true_iff. split; [done|]. by destruct (strip_suffix_char carriage_return t).
Qed.

Lemma clean_line_newline s : clean_line s = true → contains_char newline s = false.
Proof. unfold clean_line. by intros [?%negb_true_iff _]%andb_true_iff. Qed.

(** [String::from_utf8_lossy]: each maximal ill-formed sequence becomes U+FFFD.
    [copy] bytes of the current character, or [skip] bytes of an error, remain. *)
Definition replacement_char : string :=
  String (ascii_of_N 239) (String (ascii_of_N 191) (String (ascii_of_N 189) EmptyString)).

Fixpoint lossy_from (copy skip : nat) (s : string) : string :=
  match s with
  | EmptyString => EmptyString
  | String c s' =>
      match copy, skip with
      | S k, _ => String c (lossy_from k 0 s')
      | O, S k => lossy_from 0 k s'
      | O, O =>
          match utf8_char s with
          | U8Valid n => String c (lossy_from (n - 1) 0 s')
          | U8Error (Some n) => replacement_char +:+ lossy_from 0 (n - 1) s'
          | U8Error None => replacement_char
          end
      end
  end.

Definition from_utf8_lossy (s : string) : string := lossy_from 0 0 s.

(** Valid UTF-8 is left alone. *)
Lemma from_utf8_lossy_valid s : is_ok (from_utf8 s) = true → from_utf8_lossy s = s.
Proof.
  unfold from_utf8, from_utf8_lossy. intros H.
  assert (∀ k pos, utf8_scan k pos s = Ok () → lossy_from k 0 s = s) as Hs.
  { clear H. induction s as [|c s IH]; intros k pos; [done|].
    cbn [utf8_scan lossy_from]. destruct k as [|k].
    - destruct (utf8_char (String c s)); [|done]. intros Hs. by erewrite IH.
    - intros Hs. by erewrite IH. }
  destruct (utf8_scan 0 0 s) as [[]|] eqn:E; [|done]. by eapply Hs.
Qed.

(** ** Paths

    [Path] on Unix: [display], [is_absolute], [join], [file_name], [extension]. *)
Definition path_display (path : string) : string := from_utf8_lossy path.

Definition path_is_absolute (path : string) : bool := starts_with "/" path.

Definition path_join (root path : string) : string :=
  if path_is_absolute path then path
  else if is_empty root || match strip_suffix_char "/" root with Some _ => true | None => false end
  then root +:+ path else root +:+ "/" +:+ path.

Definition path_file_name (path : string) : option string :=
  name ← last (List.filter (λ part, negb (is_empty part || String.eqb part "."))
    (split_char "/" path));
  if String.eqb name ".." then None else Some name.

Definition path_extension (path : string) : option string :=
  name ← path_file_name path;
  match rev (split_char "." name) with
  | after :: _ :: _ =>
      if String.length name =? S (String.length after) then None else Some after
  | _ => None
  end.

(** ** Characters of a [str] *)

(** [str::is_char_boundary]. *)
Definition is_char_boundary (s : string) (i : nat) : bool :=
  (i =? 0) ||
  match String.get i s with
  | Some c => negb (in_range 128 191 c)
  | None => i =? String.length s
  end.

(** [&s[start..end]]; [None] is the panic. *)
Definition str_slice (s : string) (start end_ : nat) : option string :=
  if (start <=? end_) && is_char_boundary s start && is_char_boundary s end_
  then Some (str_take (end_ - start) (str_drop start s)) else None.

(** [str::char_indices]: the offset and the bytes of each character. *)
Fixpoint char_indices_from (skip pos : nat) (s : string) : list (nat * string) :=
  match s with
  | EmptyString => []
  | String _ s' =>
      match skip with
      | S k => char_indices_from k (S pos) s'
      | O => let n := match utf8_char s with U8Valid n => n | U8Error _ => 1 end in
             (pos, str_take n s) :: char_indices_from (n - 1) (S pos) s'
      end
  end.

Definition char_indices (s : string) : list (nat * string) := char_indices_from 0 0 s.
