(* ===== verification/BTree.v ===== *)
(** * Ordered maps and sets

    A [BTreeMap] ([BTreeSet]) is a [gmap] ([gset]): equality of the code's values
    is extensional equality.  Iteration is in key order; [iter_set] and [iter_map]
    give the sequence a [for] loop over the collection sees. *)

From S2P Require Import Prelude.

(** The [Ord] a key type derives. *)
Class Ord (K : Type) := ord_cmp : K → K → comparison.
Class OrdLaws (K : Type) `{Ord K} := ord_strict :: StrictCmp (ord_cmp (K:=K)).

#[export] Instance string_Ord : Ord string := String.compare.
#[export] Instance string_OrdLaws : OrdLaws string := string_compare_strict.
#[export] Instance nat_Ord : Ord nat := Nat.compare.
#[export] Instance nat_OrdLaws : OrdLaws nat := nat_compare_strict.
#[export] Instance Z_Ord : Ord Z := Z.compare.
#[export] Instance Z_OrdLaws : OrdLaws Z := Z_compare_strict.
#[export] Instance pair_Ord {A B} `{Ord A, Ord B} : Ord (A * B) := pair_cmp ord_cmp ord_cmp.
#[export] Instance pair_OrdLaws {A B} `{OrdLaws A, OrdLaws B} : OrdLaws (A * B).
Proof. apply pair_cmp_strict; apply _. Qed.
#[export] Instance option_Ord {A} `{Ord A} : Ord (option A) := option_cmp ord_cmp.
#[export] Instance option_OrdLaws {A} `{OrdLaws A} : OrdLaws (option A).
Proof. apply option_cmp_strict; apply _. Qed.

Section iteration.
Context {K : Type} `{Countable K} `{!Ord K}.

Definition iter_set (X : gset K) : list K := sort_by ord_cmp (elements X).

Definition iter_map {V} (m : gmap K V) : list (K * V) :=
  sort_by (λ p q, ord_cmp p.1 q.1) (map_to_list m).

(** [BTreeMap::keys] and [BTreeMap::values]. *)
Definition map_keys {V} (m : gmap K V) : list K := (iter_map m).*1.
Definition map_values {V} (m : gmap K V) : list V := (iter_map m).*2.

Lemma elem_of_iter_set x X : x ∈ iter_set X ↔ x ∈ X.
Proof. unfold iter_set. by rewrite elem_of_sort_by, elem_of_elements. Qed.

Lemma NoDup_iter_set X : NoDup (iter_set X).
Proof. unfold iter_set. rewrite sort_by_Permutation. apply NoDup_elements. Qed.

Lemma length_iter_set X : length (iter_set X) = size X.
Proof. unfold iter_set. by rewrite length_sort_by. Qed.

Lemma iter_set_empty : iter_set ∅ = [].
Proof. unfold iter_set. by rewrite elements_empty. Qed.

Lemma elem_of_iter_map {V} (m : gmap K V) k v : (k, v) ∈ iter_map m ↔ m !! k = Some v.
Proof. unfold iter_map. by rewrite elem_of_sort_by, elem_of_map_to_list. Qed.

Lemma NoDup_map_keys {V} (m : gmap K V) : NoDup (map_keys m).
Proof.
  unfold map_keys, iter_map. rewrite sort_by_Permutation. apply NoDup_fst_map_to_list.
Qed.

Lemma elem_of_map_keys {V} (m : gmap K V) k : k ∈ map_keys m ↔ is_Some (m !! k).
Proof.
  unfold map_keys. rewrite list_elem_of_fmap. split.
  - intros ([k' v] & -> & Hk%elem_of_iter_map). by exists v.
  - intros [v Hv]. exists (k, v). by rewrite elem_of_iter_map.
Qed.

Context `{!OrdLaws K}.

Lemma iter_set_sorted X : StronglySorted (cmp_lt ord_cmp) (iter_set X).
Proof.
  unfold iter_set. pose proof (sort_by_sorted ord_cmp (elements X)) as Hs.
  pose proof (NoDup_iter_set X) as Hnd. unfold iter_set in Hnd.
  induction Hs as [|x l Hl IH Hx]; constructor.
  - apply IH. by apply NoDup_cons in Hnd as [_ ?].
  - apply Forall_forall. intros y Hy. eapply Forall_forall in Hx; [|exact Hy].
    unfold cmp_le, cmp_lt in *. destruct (ord_cmp x y) eqn:E; [|done..].
    apply (cmp_eq ord_cmp) in E as ->. by apply NoDup_cons in Hnd as [? _].
Qed.

(** The iteration order is determined by the elements alone. *)
Lemma iter_set_unique X l :
  StronglySorted (cmp_lt ord_cmp) l → (∀ x, x ∈ l ↔ x ∈ X) → l = iter_set X.
Proof.
  intros Hl Hx. apply (StronglySorted_unique_strong (cmp_lt ord_cmp)); [|done|apply iter_set_sorted|].
  - intros x y _ _. unfold cmp_lt. intros H1 H2. rewrite (cmp_opp ord_cmp x y), H1 in H2. done.
  - apply NoDup_Permutation; [|apply NoDup_iter_set|].
    + clear Hx. induction Hl as [|x l Hl IH Hx]; constructor; [|done]. intros Hin.
      eapply Forall_forall in Hx; [|exact Hin]. unfold cmp_lt in Hx.
      by rewrite (cmp_refl ord_cmp) in Hx.
    + intros x. by rewrite elem_of_iter_set.
Qed.
End iteration.

(** [BTreeSet::extend] and collecting an iterator into a set or map (the last
    entry of a key wins). *)
Definition set_of_list {K} `{Countable K} (l : list K) : gset K := list_to_set l.

Definition map_of_list {K V} `{Countable K} (l : list (K * V)) : gmap K V :=
  foldl (λ m p, <[p.1 := p.2]> m) ∅ l.

Lemma map_of_list_app {K V} `{Countable K} (l1 l2 : list (K * V)) k :
  map_of_list (l1 ++ l2) !! k =
  match map_of_list l2 !! k with Some v => Some v | None => map_of_list l1 !! k end.
Proof.
  unfold map_of_list. rewrite foldl_app.
  assert (∀ (m : gmap K V), foldl (λ m p, <[p.1:=p.2]> m) m l2 !! k =
    match foldl (λ m p, <[p.1:=p.2]> m) (∅ : gmap K V) l2 !! k with Some v => Some v | None => m !! k end)
    as Hm; [|apply Hm].
  induction l2 as [|[k' v'] l2 IH] using rev_ind; intros m; cbn; [done|].
  rewrite !foldl_app. cbn. destruct (decide (k = k')) as [->|Hne].
  - by rewrite !lookup_insert_eq.
  - rewrite !lookup_insert_ne by done. apply IH.
Qed.

(** [entry(k).or_default()] on a map of sets, then [insert]/[extend]. *)
Definition entry_extend {K A} `{Countable K, Countable A} (m : gmap K (gset A)) (k : K)
    (X : gset A) : gmap K (gset A) :=
  <[k := default ∅ (m !! k) ∪ X]> m.

Lemma lookup_entry_extend {K A} `{Countable K, Countable A} (m : gmap K (gset A)) k X j :
  entry_extend m k X !! j =
  if decide (j = k) then Some (default ∅ (m !! k) ∪ X) else m !! j.
Proof.
  unfold entry_extend. case_decide as E; [subst; apply lookup_insert_eq|].
  by apply lookup_insert_ne.
Qed.
