(* ===== verification/Instant.v ===== *)
(** * Event instants ([src/src/session/identity/instant.rs])

    The hand-written RFC 3339 parser and printer, the civil-calendar arithmetic
    under them, and the comparator that orders event timestamps.  An [i64] is a
    [Z]; every intermediate value of these functions is bounded by the input's
    magnitude (four-digit years when parsing, [i64] milliseconds divided by
    86,400,000 when printing), so no operation wraps. *)

From S2P Require Import Prelude RustStr.

#[local] Open Scope Z_scope.

(** ** Definitions *)

Definition parse_fixed_digits (value : string) (width : nat) : option Z :=
  if negb (String.length value =? width)%nat || negb (all_bytes is_ascii_digit value)
  then None
  else parse_i64 value.

Definition parse_fraction_millis (fraction : string) : option Z :=
  if is_empty fraction || negb (all_bytes is_ascii_digit fraction) then None
  else
    let k := Nat.min (String.length fraction) 3 in
    let millis_digits := str_take k fraction +:+ str_drop k "000" in
    parse_i64 millis_digits.

Definition is_leap_year (year : Z) : bool :=
  ((Z.rem year 4 =? 0) && negb (Z.rem year 100 =? 0)) || (Z.rem year 400 =? 0).

Definition days_in_month (year month : Z) : option Z :=
  match month with
  | 1 | 3 | 5 | 7 | 8 | 10 | 12 => Some 31
  | 4 | 6 | 9 | 11 => Some 30
  | 2 => if is_leap_year year then Some 29 else Some 28
  | _ => None
  end.

(** Rust's [/] on [i64] truncates. *)
Definition days_from_civil (year month day : Z) : Z :=
  let year := year - (if month <=? 2 then 1 else 0) in
  let era := Z.quot (if 0 <=? year then year else year - 399) 400 in
  let year_of_era := year - era * 400 in
  let day_of_year :=
    Z.quot (153 * (if 2 <? month then month - 3 else month + 9) + 2) 5 + day - 1 in
  let day_of_era :=
    year_of_era * 365 + Z.quot year_of_era 4 - Z.quot year_of_era 100 + day_of_year in
  era * 146097 + day_of_era - 719468.

Definition civil_from_days (z : Z) : Z * Z * Z :=
  let z := z + 719468 in
  let era := Z.quot (if 0 <=? z then z else z - 146096) 146097 in
  let doe := z - era * 146097 in
  let yoe := Z.quot (doe - Z.quot doe 1460 + Z.quot doe 36524 - Z.quot doe 146096) 365 in
  let y := yoe + era * 400 in
  let doy := doe - (365 * yoe + Z.quot yoe 4 - Z.quot yoe 100) in
  let mp := Z.quot (5 * doy + 2) 153 in
  let d := doy - Z.quot (153 * mp + 2) 5 + 1 in
  let m := if mp <? 10 then mp + 3 else mp - 9 in
  (if m <=? 2 then y + 1 else y, m, d).

Definition parse_rfc3339_utc_millis (value : string) : option Z :=
  body ← strip_suffix_char "Z" value;
  '(date, time) ← split_once "T" body;
  '(year, month, day) ←
    match split_char "-" date with
    | y :: rest =>
        year ← parse_fixed_digits y 4;
        match rest with
        | m :: rest =>
            month ← parse_fixed_digits m 2;
            match rest with
            | d :: rest =>
                day ← parse_fixed_digits d 2;
                match rest with [] => Some (year, month, day) | _ => None end
            | [] => None
            end
        | [] => None
        end
    | [] => None
    end;
  if negb ((1 <=? month) && (month <=? 12)) then None else
  dim ← days_in_month year month;
  if negb ((1 <=? day) && (day <=? dim)) then None else
  '(clock, fraction_millis) ←
    match split_once "." time with
    | Some (clock, fraction) => f ← parse_fraction_millis fraction; Some (clock, f)
    | None => Some (time, 0)
    end;
  '(hour, minute, second) ←
    match split_char ":" clock with
    | h :: rest =>
        hour ← parse_fixed_digits h 2;
        match rest with
        | m :: rest =>
            minute ← parse_fixed_digits m 2;
            match rest with
            | s :: rest =>
                second ← parse_fixed_digits s 2;
                match rest with [] => Some (hour, minute, second) | _ => None end
            | [] => None
            end
        | [] => None
        end
    | [] => None
    end;
  if (23 <? hour) || (59 <? minute) || (60 <? second) then None else
  let days := days_from_civil year month day in
  let seconds := ((days * 24 + hour) * 60 + minute) * 60 + second in
  Some (seconds * 1000 + fraction_millis).

Definition parse_event_instant (value : string) : option Z :=
  match strip_prefix "unix-ms:" value with
  | Some millis => if is_empty millis then None else parse_i64 millis
  | None => parse_rfc3339_utc_millis value
  end.

Definition compare_event_instants (left right : string) : comparison :=
  match parse_event_instant left, parse_event_instant right with
  | Some l, Some r => Z.compare l r
  | None, None => String.compare left right
  | None, Some _ => Lt
  | Some _, None => Gt
  end.

(** [div_euclid]/[rem_euclid] by a positive constant are the flooring ones. *)
Definition format_rfc3339_utc_millis (millis : Z) : string :=
  let total_seconds := millis / 1000 in
  let millis_of_second := millis mod 1000 in
  let days := total_seconds / 86400 in
  let secs_of_day := total_seconds mod 86400 in
  let '(year, month, day) := civil_from_days days in
  let hour := Z.quot secs_of_day 3600 in
  let minute := Z.quot (Z.rem secs_of_day 3600) 60 in
  let second := Z.rem secs_of_day 60 in
  pad 4 year +:+ "-" +:+ pad 2 month +:+ "-" +:+ pad 2 day +:+ "T" +:+
  pad 2 hour +:+ ":" +:+ pad 2 minute +:+ ":" +:+ pad 2 second +:+ "." +:+
  pad 3 millis_of_second +:+ "Z".

Definition normalize_instant_to_iso_millis (value : string) : option string :=
  format_rfc3339_utc_millis <$> parse_event_instant value.

(** ** The calendar *)

(** A date the proleptic Gregorian calendar has. *)
Definition valid_date (y m d : Z) : Prop :=
  1 ≤ m ≤ 12 ∧ 1 ≤ d ∧ ∃ dim, days_in_month y m = Some dim ∧ d ≤ dim.

(** Day of the March-based year at which month [mp] (0 is March) starts. *)
Definition month_start (mp : Z) : Z := (153 * mp + 2) / 5.

(** The era-relative day number of a March-based date. *)
Definition day_of_era (yoe doy : Z) : Z := yoe * 365 + yoe / 4 - yoe / 100 + doy.

Definition leap_of_era (yoe : Z) : Prop :=
  (yoe mod 4 = 3 ∧ yoe mod 100 ≠ 99) ∨ yoe = 399.

Ltac div_lia := Z.to_euclidean_division_equations; lia.

(** The year-of-era formula inverts [day_of_era]. *)
Lemma yoe_of_doe yoe doy :
  0 ≤ yoe ≤ 399 → 0 ≤ doy ≤ 365 → (doy = 365 → leap_of_era yoe) →
  let doe := day_of_era yoe doy in
  (doe - doe / 1460 + doe / 36524 - doe / 146096) / 365 = yoe.
Proof.
  unfold leap_of_era, day_of_era. intros Hy Hd Hl. cbn zeta.
  assert (∃ c y1, yoe = 100 * c + y1 ∧ 0 ≤ c ≤ 3 ∧ 0 ≤ y1 ≤ 99) as (c & y1 & -> & Hc & Hy1).
  { exists (yoe / 100), (yoe mod 100). div_lia. }
  assert (∃ q r, y1 = 4 * q + r ∧ 0 ≤ q ≤ 24 ∧ 0 ≤ r ≤ 3) as (q & r & -> & Hq & Hr).
  { exists (y1 / 4), (y1 mod 4). div_lia. }
  replace ((100 * c + (4 * q + r)) / 4) with (25 * c + q) by div_lia.
  replace ((100 * c + (4 * q + r)) / 100) with c by div_lia.
  assert (doy = 365 → r = 3 ∧ (q = 24 → c = 3)) as Hleap.
  { intros H. specialize (Hl H). div_lia. }
  clear Hl.
  set (doe := _ + doy).
  assert (doe = 36524 * c + 1461 * q + 365 * r + doy) as Hdoe by (subst doe; lia).
  clearbody doe.
  assert (0 ≤ 1461 * q + 365 * r + doy ≤ 36524) by lia.
  assert (c = 0 ∨ c = 1 ∨ c = 2 ∨ c = 3) as Hcs by lia.
  destruct_or! Hcs; subst c; div_lia.
Qed.

(** Every day of an era has a year of the era and a day of that year. *)
Lemma doe_split doe :
  0 ≤ doe < 146097 →
  ∃ yoe doy, doe = day_of_era yoe doy ∧ 0 ≤ yoe ≤ 399 ∧ 0 ≤ doy ≤ 365 ∧
    (doy = 365 → leap_of_era yoe).
Proof.
  intros Hdoe. unfold day_of_era, leap_of_era.
  assert (∃ c e, doe = 36524 * c + e ∧ 0 ≤ c ≤ 3 ∧ 0 ≤ e ≤ 36524 ∧ (e = 36524 → c = 3))
    as (c & e & -> & Hc & He & Hce).
  { exists (Z.min 3 (doe / 36524)), (doe - 36524 * Z.min 3 (doe / 36524)). div_lia. }
  assert (∃ q f, e = 1461 * q + f ∧ 0 ≤ q ≤ 24 ∧ 0 ≤ f ≤ 1460 ∧ (q = 24 → f = 1460 → c = 3))
    as (q & f & -> & Hq & Hf & Hqf).
  { exists (e / 1461), (e mod 1461). div_lia. }
  assert (∃ r g, f = 365 * r + g ∧ 0 ≤ r ≤ 3 ∧ 0 ≤ g ≤ 365 ∧ (g = 365 → r = 3))
    as (r & g & -> & Hr & Hg & Hrg).
  { exists (Z.min 3 (f / 365)), (f - 365 * Z.min 3 (f / 365)). div_lia. }
  exists (100 * c + (4 * q + r)), g.
  replace ((100 * c + (4 * q + r)) / 4) with (25 * c + q) by div_lia.
  replace ((100 * c + (4 * q + r)) / 100) with c by div_lia.
  repeat split; try lia. intros ->.
  assert (r = 3) as -> by lia.
  destruct (decide (q = 24)) as [->|]; [right; lia|left; div_lia].
Qed.

(** The March-based month index and day of month of a day of the year. *)
Lemma mp_of_doy mp d :
  0 ≤ mp ≤ 11 → 1 ≤ d → month_start mp + d ≤ month_start (mp + 1) →
  (5 * (month_start mp + d - 1) + 2) / 153 = mp.
Proof. unfold month_start. div_lia. Qed.

Lemma doy_split doy :
  0 ≤ doy ≤ 365 →
  ∃ mp d, doy = month_start mp + d - 1 ∧ 0 ≤ mp ≤ 11 ∧ 1 ≤ d ∧
    month_start mp + d ≤ month_start (mp + 1).
Proof.
  intros H. exists ((5 * doy + 2) / 153), (doy - month_start ((5 * doy + 2) / 153) + 1).
  unfold month_start. div_lia.
Qed.

(** Calendar month of a March-based index, and back. *)
Definition month_of_mp (mp : Z) : Z := if mp <? 10 then mp + 3 else mp - 9.

(** A date in March-based coordinates. *)
Definition march_date (era yoe mp d : Z) : Prop :=
  0 ≤ yoe ≤ 399 ∧ 0 ≤ mp ≤ 11 ∧ 1 ≤ d ∧ month_start mp + d ≤ month_start (mp + 1) ∧
  (month_start mp + d = 366 → leap_of_era yoe) ∧ month_start mp + d ≤ 366.

Definition civil_year (era yoe mp : Z) : Z :=
  era * 400 + yoe + (if 10 <=? mp then 1 else 0).

(** The truncating era computations are floor divisions. *)
Lemma era_quot k e r :
  0 < k → 0 ≤ r < k →
  Z.quot (if 0 <=? e * k + r then e * k + r else e * k + r - (k - 1)) k = e.
Proof.
  intros Hk Hr. symmetry. destruct (Z.leb_spec 0 (e * k + r)).
  - apply (Z.quot_unique _ _ _ r); nia.
  - rewrite <- (Z.opp_involutive (e * k + r - (k - 1))), Z.quot_opp_l by lia.
    rewrite Z.quot_div_nonneg by nia. rewrite <- (Z.div_unique _ k (- e) (k - 1 - r)); nia.
Qed.

Lemma days_from_civil_march era yoe mp d :
  march_date era yoe mp d →
  days_from_civil (civil_year era yoe mp) (month_of_mp mp) d =
  era * 146097 + day_of_era yoe (month_start mp + d - 1) - 719468.
Proof.
  intros (Hy & Hmp & Hd & Hm & _ & _). unfold days_from_civil.
  assert (civil_year era yoe mp - (if month_of_mp mp <=? 2 then 1 else 0) = era * 400 + yoe)
    as ->.
  { unfold civil_year, month_of_mp. destruct (Z.ltb_spec mp 10), (Z.leb_spec 10 mp);
      try lia; destruct (Z.leb_spec (mp + 3) 2), (Z.leb_spec (mp - 9) 2); lia. }
  assert ((if 2 <? month_of_mp mp then month_of_mp mp - 3 else month_of_mp mp + 9) = mp)
    as ->.
  { unfold month_of_mp. destruct (Z.ltb_spec mp 10);
      destruct (Z.ltb_spec 2 (mp + 3)), (Z.ltb_spec 2 (mp - 9)); lia. }
  rewrite (era_quot 400) by lia. unfold day_of_era, month_start.
  replace (era * 400 + yoe - era * 400) with yoe by lia.
  rewrite !(Z.quot_div_nonneg yoe), (Z.quot_div_nonneg (153 * mp + 2)) by lia. lia.
Qed.

Lemma civil_from_days_march era yoe mp d :
  march_date era yoe mp d →
  civil_from_days (era * 146097 + day_of_era yoe (month_start mp + d - 1) - 719468) =
  (civil_year era yoe mp, month_of_mp mp, d).
Proof.
  intros (Hy & Hmp & Hd & Hm & Hl & H366). unfold civil_from_days.
  set (doy := month_start mp + d - 1).
  assert (0 ≤ doy ≤ 365) as Hdoy by (unfold doy, month_start in *; div_lia).
  assert (doy = 365 → leap_of_era yoe) as Hleap by (intros; apply Hl; lia).
  pose proof (yoe_of_doe yoe doy Hy Hdoy Hleap) as Hyoe. cbn zeta in Hyoe.
  assert (0 ≤ day_of_era yoe doy < 146097) as Hdoe.
  { unfold day_of_era, leap_of_era in *. div_lia. }
  set (doe := day_of_era yoe doy) in *.
  replace (era * 146097 + doe - 719468 + 719468) with (era * 146097 + doe) by lia.
  rewrite (era_quot 146097) by lia.
  replace (era * 146097 + doe - era * 146097) with doe by lia.
  rewrite !(Z.quot_div_nonneg doe) by lia.
  rewrite (Z.quot_div_nonneg (doe - _ + _ - _)) by div_lia.
  rewrite Hyoe, !(Z.quot_div_nonneg yoe) by lia.
  assert (doe - (365 * yoe + yoe / 4 - yoe / 100) = doy) as ->
    by (unfold doe, day_of_era; lia).
  rewrite (Z.quot_div_nonneg (5 * doy + 2)) by lia.
  assert ((5 * doy + 2) / 153 = mp) as -> by (by apply mp_of_doy).
  rewrite (Z.quot_div_nonneg (153 * mp + 2)) by lia. fold (month_start mp).
  unfold doy, month_of_mp, civil_year. clear - Hmp.
  destruct (Z.ltb_spec mp 10), (Z.leb_spec 10 mp); try lia;
    destruct (Z.leb_spec (mp + 3) 2), (Z.leb_spec (mp - 9) 2); try lia;
    (f_equal; [f_equal|]; lia).
Qed.

(** February of a March-based year belongs to the next calendar year. *)
Lemma leap_of_era_year era yoe :
  0 ≤ yoe ≤ 399 → leap_of_era yoe ↔ is_leap_year (era * 400 + yoe + 1) = true.
Proof.
  intros Hy. unfold is_leap_year, leap_of_era.
  rewrite orb_true_iff, andb_true_iff, negb_true_iff, !Z.eqb_eq, Z.eqb_neq.
  rewrite !Z.rem_divide by lia.
  assert (∀ k, 0 < k → (400 mod k = 0) → (k | era * 400 + yoe + 1) ↔ yoe mod k = k - 1) as Hk.
  { intros k Hk H400. rewrite <- Z.mod_divide by lia.
    rewrite (Z.div_mod 400 k), H400 by lia.
    replace (era * (k * (400 / k) + 0) + yoe + 1) with ((yoe + 1) + (era * (400 / k)) * k) by lia.
    rewrite Z_mod_plus_full. split; intros H.
    - pose proof (Z.mod_pos_bound yoe k Hk). rewrite <- Z.add_mod_idemp_l in H by lia.
      destruct (decide (yoe mod k = k - 1)); [done|]. rewrite Z.mod_small in H; lia.
    - rewrite <- Z.add_mod_idemp_l, H by lia.
      replace (k - 1 + 1) with k by lia. apply Z_mod_same_full. }
  rewrite !Hk by (done || lia). rewrite (Z.mod_small yoe 400) by lia. done.
Qed.

Ltac month_cases m :=
  let H := fresh in
  assert (m = 0 ∨ m = 1 ∨ m = 2 ∨ m = 3 ∨ m = 4 ∨ m = 5 ∨ m = 6 ∨ m = 7 ∨ m = 8 ∨ m = 9 ∨
    m = 10 ∨ m = 11 ∨ m = 12) as H by lia; destruct_or! H; subst m.

(** Decide the closed tests of the goal. *)
Ltac eval_ifs :=
  repeat match goal with
  | |- context [if ?b then _ else _] =>
      let v := eval vm_compute in b in
      lazymatch v with true => idtac | false => idtac end;
      change b with v; cbv iota
  end;
  try match goal with
  | |- context [days_in_month _ ?m] => let v := eval vm_compute in m in change m with v
  end.

(** The code's calendar dates are exactly the March-based ones. *)
Lemma valid_date_march y m d :
  valid_date y m d ↔
  ∃ era yoe mp, march_date era yoe mp d ∧ y = civil_year era yoe mp ∧ m = month_of_mp mp.
Proof.
  unfold valid_date, march_date, civil_year, month_of_mp. split.
  - intros (Hm & Hd & dim & Hdim & Hle).
    set (Y := y - (if m <=? 2 then 1 else 0)).
    exists (Y / 400), (Y mod 400), (if 2 <? m then m - 3 else m + 9).
    pose proof (leap_of_era_year (Y / 400) (Y mod 400) ltac:(div_lia)) as Hleap.
    replace (Y / 400 * 400 + Y mod 400 + 1) with (Y + 1) in Hleap by div_lia.
    month_cases m; try lia; cbn in Hdim, Y |- *; eval_ifs; subst Y;
      try (injection Hdim as <-; unfold month_start; repeat split; div_lia).
    replace (y - 1 + 1) with y in Hleap by lia. unfold month_start.
    destruct (is_leap_year y); injection Hdim as <-; split_and!; try div_lia.
    intros _. by apply Hleap.
  - intros (era & yoe & mp & (Hy & Hmp & Hd & Hm & Hl & H366) & -> & ->).
    pose proof (leap_of_era_year era yoe Hy) as Hleap.
    month_cases mp; try lia; eval_ifs; cbn in *; split_and!; try lia;
      try (eexists; split; [done|unfold month_start in *; div_lia]).
    rewrite Hleap in Hl. unfold month_start in *. cbn in *.
    destruct (is_leap_year _); (eexists; split; [done|]); [div_lia|].
    destruct (decide (d = 29)) as [->|]; [by discriminate Hl|div_lia].
Qed.

(** ** Reading back what was printed *)

Lemma parse_fixed_digits_pad w n :
  (0 < w ≤ 4)%nat → 0 ≤ n < 10 ^ Z.of_nat w → parse_fixed_digits (pad w n) w = Some n.
Proof.
  intros Hw Hn. unfold parse_fixed_digits.
  rewrite length_pad, pad_all_digits, Nat.eqb_refl by (done || lia). cbn.
  apply parse_i64_digits; [|by apply pad_value; [done|lia]|].
  - intros H. apply (f_equal String.length) in H. rewrite length_pad in H by (done || lia).
    cbn in H. lia.
  - assert (10 ^ Z.of_nat w ≤ 10 ^ 4) by (apply Z.pow_le_mono_r; lia). unfold i64_max. lia.
Qed.

Lemma str_take_length s : str_take (String.length s) s = s.
Proof. induction s as [|c s IH]; cbn; [done|by rewrite IH]. Qed.

Lemma parse_fraction_millis_pad n :
  0 ≤ n < 1000 → parse_fraction_millis (pad 3 n) = Some n.
Proof.
  intros Hn. unfold parse_fraction_millis.
  assert (0 ≤ n < 10 ^ Z.of_nat 3) as Hn' by done.
  rewrite pad_all_digits, length_pad by done. cbn [Nat.min].
  destruct (is_empty (pad 3 n)) eqn:He.
  { pose proof (length_pad 3 n Hn' ltac:(done)). by destruct (pad 3 n). }
  cbn [orb negb]. rewrite <- (length_pad 3 n Hn' ltac:(done)) at 1.
  rewrite str_take_length. cbn [str_drop]. rewrite append_nil_r.
  apply parse_i64_digits; [by intros E; rewrite E in He|by apply pad_value|unfold i64_max; lia].
Qed.

(** The text of a date and time, in the association the parser consumes. *)
Definition rfc3339 (y m d h mi s ms : Z) : string :=
  ((pad 4 y +:+ String "-" (pad 2 m +:+ String "-" (pad 2 d))) +:+
   String "T" ((pad 2 h +:+ String ":" (pad 2 mi +:+ String ":" (pad 2 s))) +:+
   String "." (pad 3 ms))) +:+ "Z".

Lemma parse_rfc3339_text y m d h mi s ms :
  0 ≤ y ≤ 9999 → valid_date y m d → 0 ≤ h ≤ 23 → 0 ≤ mi ≤ 59 → 0 ≤ s ≤ 60 → 0 ≤ ms < 1000 →
  parse_rfc3339_utc_millis (rfc3339 y m d h mi s ms) =
  Some ((((days_from_civil y m d * 24 + h) * 60 + mi) * 60 + s) * 1000 + ms).
Proof.
  intros Hy (Hm & Hd & dim & Hdim & Hle) Hh Hmi Hs Hms.
  assert (dim ≤ 31) as Hdim31.
  { unfold days_in_month in Hdim. repeat case_match; simplify_eq; lia. }
  assert (∀ n c, 0 ≤ n < 100 → is_ascii_digit c = false → contains_char c (pad 2 n) = false)
    as Hc2 by (intros; by apply pad_contains).
  unfold parse_rfc3339_utc_millis, rfc3339.
  rewrite strip_suffix_char_append. cbn [mbind option_bind].
  rewrite split_once_append.
  2:{ rewrite !contains_char_append; cbn [contains_char]. rewrite !contains_char_append.
      cbn [contains_char]. rewrite pad_contains, !Hc2 by (done || lia). done. }
  cbn [mbind option_bind].
  rewrite split_char_append, split_char_append, split_char_single
    by (apply pad_contains; done || lia).
  rewrite !parse_fixed_digits_pad by (cbn; lia). cbn [mbind option_bind].
  rewrite (proj2 (Z.leb_le 1 m)), (proj2 (Z.leb_le m 12)) by lia. cbn [andb negb].
  rewrite Hdim. cbn [mbind option_bind].
  rewrite (proj2 (Z.leb_le 1 d)), (proj2 (Z.leb_le d dim)) by lia. cbn [andb negb].
  rewrite split_once_append.
  2:{ rewrite !contains_char_append; cbn [contains_char]. rewrite !contains_char_append.
      cbn [contains_char]. rewrite !Hc2 by (done || lia). done. }
  rewrite parse_fraction_millis_pad by done. cbn [mbind option_bind].
  rewrite split_char_append, split_char_append, split_char_single
    by (apply pad_contains; done || lia).
  rewrite !parse_fixed_digits_pad by (cbn; lia). cbn [mbind option_bind].
  rewrite (proj2 (Z.ltb_ge 23 h)), (proj2 (Z.ltb_ge 59 mi)), (proj2 (Z.ltb_ge 60 s)) by lia.
  done.
Qed.

(** Lexicographic order of dates is the order of their day numbers. *)
Lemma days_from_civil_lt y m d y' m' d' :
  valid_date y m d → valid_date y' m' d' →
  (y < y' ∨ y = y' ∧ (m < m' ∨ m = m' ∧ d < d')) →
  days_from_civil y m d < days_from_civil y' m' d'.
Proof.
  intros (e & o & p & H1 & -> & ->)%valid_date_march
    (e' & o' & p' & H2 & -> & ->)%valid_date_march Hlt.
  rewrite !days_from_civil_march by done.
  destruct H1 as (Ho & Hp & Hd & Hpd & Hl & H366), H2 as (Ho' & Hp' & Hd' & Hpd' & Hl' & H366').
  assert (month_start (p + 1) ≤ month_start p' ∨ p' < p ∨ p = p') as Hms
    by (unfold month_start; div_lia).
  assert (0 ≤ month_start p ∧ 0 ≤ month_start p') as [] by (unfold month_start; div_lia).
  unfold civil_year, month_of_mp in Hlt.
  assert ((e * 400 + o < e' * 400 + o') ∨
    (e = e' ∧ o = o' ∧ (p < p' ∨ p = p' ∧ d < d'))) as [HY|(<- & <- & Hlex)].
  { destruct (Z.ltb_spec p 10), (Z.ltb_spec p' 10), (Z.leb_spec 10 p), (Z.leb_spec 10 p');
      div_lia. }
  - unfold day_of_era, leap_of_era in *.
    clear Hms Hpd Hpd' Hl' Hlt H366'.
    set (a := month_start p) in *. set (b := month_start p') in *. clearbody a b. div_lia.
  - unfold day_of_era. destruct Hlex as [|[<- ?]]; [|lia].
    assert (month_start (p + 1) ≤ month_start p') by (unfold month_start; div_lia). lia.
Qed.

Lemma days_from_civil_compare y m d y' m' d' :
  valid_date y m d → valid_date y' m' d' →
  Z.compare (days_from_civil y m d) (days_from_civil y' m' d') =
  then_with (Z.compare y y') (then_with (Z.compare m m') (Z.compare d d')).
Proof.
  intros H H'.
  pose proof (days_from_civil_lt y m d y' m' d' H H') as Hlt.
  pose proof (days_from_civil_lt y' m' d' y m d H' H) as Hgt.
  destruct (Z.compare_spec y y') as [<-|Hy|Hy]; cbn.
  2: by apply Z.compare_lt_iff, Hlt; left.
  2: by apply Z.compare_gt_iff, Hgt; left.
  destruct (Z.compare_spec m m') as [<-|Hm|Hm]; cbn.
  2: by apply Z.compare_lt_iff, Hlt; right; split; [|left].
  2: by apply Z.compare_gt_iff, Hgt; right; split; [|left].
  destruct (Z.compare_spec d d') as [<-|Hd|Hd].
  - apply Z.compare_refl.
  - apply Z.compare_lt_iff, Hlt. lia.
  - apply Z.compare_gt_iff, Hgt. lia.
Qed.

Lemma civil_from_days_valid z :
  ∃ y m d, civil_from_days z = (y, m, d) ∧ valid_date y m d ∧ days_from_civil y m d = z.
Proof.
  destruct (doe_split ((z + 719468) mod 146097)) as (yoe & doy & Hdoe & Hy & Hdoy & Hl);
    [apply Z.mod_pos_bound; lia|].
  destruct (doy_split doy Hdoy) as (mp & d & -> & Hmp & Hd & Hm).
  set (era := (z + 719468) / 146097).
  assert (march_date era yoe mp d) as Hmd by (repeat split; (lia || (intros; apply Hl; lia))).
  assert (z = era * 146097 + day_of_era yoe (month_start mp + d - 1) - 719468) as Hz.
  { rewrite <- Hdoe. unfold era. div_lia. }
  clearbody era. subst z.
  exists (civil_year era yoe mp), (month_of_mp mp), d.
  split; [by apply civil_from_days_march|]. split; [|by apply days_from_civil_march].
  apply valid_date_march. by exists era, yoe, mp.
Qed.

(** The instants whose year has four digits. *)
Definition four_digit_year (millis : Z) : Prop := -62167219200000 ≤ millis ≤ 253402300799999.

(** Every field the printer shows is in range. *)
Lemma format_fields millis :
  four_digit_year millis →
  ∃ y m d h mi s ms,
    format_rfc3339_utc_millis millis = rfc3339 y m d h mi s ms ∧
    0 ≤ y ≤ 9999 ∧ valid_date y m d ∧ 0 ≤ h ≤ 23 ∧ 0 ≤ mi ≤ 59 ∧ 0 ≤ s ≤ 59 ∧
    0 ≤ ms < 1000 ∧
    millis = (((days_from_civil y m d * 24 + h) * 60 + mi) * 60 + s) * 1000 + ms.
Proof.
  unfold four_digit_year. intros Hm. unfold format_rfc3339_utc_millis.
  set (days := millis / 1000 / 86400). set (sod := (millis / 1000) mod 86400).
  destruct (civil_from_days_valid days) as (y & m & d & -> & Hv & Hdays).
  assert (0 ≤ sod < 86400) as Hsod by (apply Z.mod_pos_bound; lia).
  assert (0 ≤ y ≤ 9999) as Hy.
  { assert (valid_date 0 1 1) as H0 by (split_and!; [lia..|eexists; split; [done|lia]]).
    assert (valid_date 9999 12 31) as H1 by (split_and!; [lia..|eexists; split; [done|lia]]).
    pose proof (days_from_civil_lt y m d 0 1 1 Hv H0) as Hlo.
    pose proof (days_from_civil_lt 9999 12 31 y m d H1 Hv) as Hhi.
    change (days_from_civil 0 1 1) with (-719528) in Hlo.
    change (days_from_civil 9999 12 31) with 2932896 in Hhi.
    assert (-719528 ≤ days ≤ 2932896) by (unfold days; div_lia). lia. }
  exists y, m, d, (Z.quot sod 3600), (Z.quot (Z.rem sod 3600) 60), (Z.rem sod 60),
    (millis mod 1000).
  split_and!; try done; try (clear -Hsod Hy; div_lia).
  - unfold rfc3339. repeat (rewrite ?append_assoc, ?append_cons_l; cbn [String.append]).
    done.
  - rewrite Hdays. unfold days, sod. div_lia.
Qed.

(** Printing an instant whose year has four digits and parsing the text gives
    the instant back, through the RFC 3339 parser and through the event-timestamp
    entry point. *)
Theorem parse_format_roundtrip (millis : Z) :
  four_digit_year millis →
  parse_rfc3339_utc_millis (format_rfc3339_utc_millis millis) = Some millis ∧
  parse_event_instant (format_rfc3339_utc_millis millis) = Some millis.
Proof.
  intros (y & m & d & h & mi & s & ms & -> & Hy & Hv & Hh & Hmi & Hs & Hms & ->)%format_fields.
  pose proof (parse_rfc3339_text y m d h mi s ms Hy Hv Hh Hmi ltac:(lia) Hms) as Hp.
  split; [done|]. unfold parse_event_instant.
  destruct (strip_prefix "unix-ms:" _) eqn:E; [|done]. exfalso.
  apply strip_prefix_Some in E. unfold rfc3339 in E.
  pose proof (pad_all_digits 4 y ltac:(cbn; lia) ltac:(done)) as Hd.
  pose proof (length_pad 4 y ltac:(cbn; lia) ltac:(done)) as Hl.
  destruct (pad 4 y) as [|c w]; [done|]. cbn in E. injection E as -> _. done.
Qed.

Lemma parse_format_roundtrip_witness :
  four_digit_year 951782400123 ∧
  parse_rfc3339_utc_millis "2000-02-29T00:00:00.123Z" = Some 951782400123.
Proof.
  assert (four_digit_year 951782400123) as H by (unfold four_digit_year; lia).
  split; [exact H|exact (proj1 (parse_format_roundtrip 951782400123 H))].
Defined.

(** The two calendar routines are inverse: every day number maps to a date the
    calendar has and back, and every date the calendar has maps to its day number
    and back; dates in lexicographic order have day numbers in order. *)
Lemma civil_days_bijection :
  (∀ z, ∃ y m d, civil_from_days z = (y, m, d) ∧ valid_date y m d ∧
    days_from_civil y m d = z) ∧
  (∀ y m d, valid_date y m d → civil_from_days (days_from_civil y m d) = (y, m, d)) ∧
  (∀ y m d y' m' d', valid_date y m d → valid_date y' m' d' →
    Z.compare (days_from_civil y m d) (days_from_civil y' m' d') =
    then_with (Z.compare y y') (then_with (Z.compare m m') (Z.compare d d'))).
Proof.
  split; [apply civil_from_days_valid|]. split; [|apply days_from_civil_compare].
  intros y m d (era & yoe & mp & Hmd & -> & ->)%valid_date_march.
  by rewrite days_from_civil_march, civil_from_days_march.
Qed.

Lemma compare_mul_add a b k r s :
  0 ≤ r < k → 0 ≤ s < k →
  Z.compare (a * k + r) (b * k + s) = then_with (Z.compare a b) (Z.compare r s).
Proof.
  intros Hr Hs. destruct (Z.compare_spec a b) as [->|H|H]; cbn.
  - destruct (Z.compare_spec r s);
      rewrite ?Z.compare_eq_iff, ?Z.compare_lt_iff, ?Z.compare_gt_iff; lia.
  - apply Z.compare_lt_iff. nia.
  - apply Z.compare_gt_iff. nia.
Qed.

(** On instants whose year has four digits the printed form is fixed-width and
    its byte order is the order of the instants, which is what the normalised
    form's lexical range comparison relies on. *)
Lemma format_lexical_order (a b : Z) :
  four_digit_year a → four_digit_year b →
  String.length (format_rfc3339_utc_millis a) = 24%nat ∧
  String.compare (format_rfc3339_utc_millis a) (format_rfc3339_utc_millis b) = Z.compare a b.
Proof.
  intros (y & m & d & h & mi & s & ms & -> & Hy & Hv & Hh & Hmi & Hs & Hms & ->)%format_fields
    (y' & m' & d' & h' & mi' & s' & ms' & -> & Hy' & Hv' & Hh' & Hmi' & Hs' & Hms' & ->)
    %format_fields.
  assert (∀ y m d, valid_date y m d → 0 ≤ m < 100 ∧ 0 ≤ d < 100) as Hvd.
  { intros y0 m0 d0 (? & ? & dim & Hdim & ?). unfold days_in_month in Hdim.
    repeat case_match; simplify_eq; lia. }
  destruct (Hvd _ _ _ Hv), (Hvd _ _ _ Hv'). unfold rfc3339.
  repeat (rewrite ?append_assoc, ?append_cons_l; cbn [String.append]). split.
  { rewrite !length_append. cbn [String.length].
    repeat (rewrite !length_append || (progress cbn [String.length])).
    rewrite !length_pad by (cbn; lia). done. }
  repeat (rewrite compare_append_len by (rewrite !length_pad by (cbn; lia); done);
    rewrite ?compare_cons_same).
  rewrite !compare_pad by (cbn; lia). change (String.compare "" "") with Eq.
  rewrite !compare_mul_add, days_from_civil_compare by (done || lia).
  by destruct (Z.compare y y'), (Z.compare m m'), (Z.compare d d'), (Z.compare h h'),
    (Z.compare mi mi'), (Z.compare s s'), (Z.compare ms ms').
Qed.

Lemma format_lexical_order_witness :
  String.compare (format_rfc3339_utc_millis (-1)) (format_rfc3339_utc_millis 0) = Lt.
Proof.
  refine (proj2 (format_lexical_order (-1) 0 _ _)); unfold four_digit_year; lia.
Defined.

(** The entry point also accepts instants outside that range, where the order of
    the printed forms is not the order of the instants. *)
Lemma normalize_not_lexical :
  ∃ a b ta tb, parse_event_instant a = Some ta ∧ parse_event_instant b = Some tb ∧
    ta < tb ∧ ∃ sa sb, normalize_instant_to_iso_millis a = Some sa ∧
    normalize_instant_to_iso_millis b = Some sb ∧ String.compare sa sb = Gt.
Proof.
  exists "9999-12-31T23:59:59.999Z"%string, "unix-ms:253402300800000"%string.
  do 2 eexists. split_and!; [vm_compute; reflexivity..|done|].
  do 2 eexists. split_and!; vm_compute; reflexivity.
Qed.

(** ** The comparator *)

#[export] Instance compare_event_instants_total : TotalCmp compare_event_instants.
Proof.
  unfold compare_event_instants. split.
  - intros x. destruct (parse_event_instant x); [apply Z.compare_refl|apply cmp_refl, _].
  - intros x y. destruct (parse_event_instant x), (parse_event_instant y); try done.
    + apply Z.compare_antisym.
    + apply (cmp_opp String.compare).
  - intros x y z. destruct (parse_event_instant x), (parse_event_instant y),
      (parse_event_instant z); try done.
    + apply (cmp_le_trans Z.compare).
    + apply (cmp_le_trans String.compare).
Qed.

(** The instant comparator is a total preorder on all timestamp texts; it
    orders parseable texts by instant, puts unparseable ones first in byte order,
    and says [Eq] exactly when both texts denote one instant or are the same
    unparseable text. *)
Lemma compare_event_instants_order :
  TotalCmp compare_event_instants ∧
  (∀ a b, compare_event_instants a b = Eq ↔
    (∃ t, parse_event_instant a = Some t ∧ parse_event_instant b = Some t) ∨
    (parse_event_instant a = None ∧ a = b)) ∧
  (∀ a b t, parse_event_instant a = None → parse_event_instant b = Some t →
    compare_event_instants a b = Lt).
Proof.
  split; [apply _|]. split.
  - intros a b. unfold compare_event_instants.
    destruct (parse_event_instant a) eqn:Ea, (parse_event_instant b) eqn:Eb.
    + rewrite Z.compare_eq_iff. naive_solver.
    + naive_solver.
    + naive_solver.
    + split; [intros ->%(cmp_eq String.compare); by right|].
      intros [(? & ? & ?)|[_ ->]]; [done|apply cmp_refl, _].
  - intros a b t Ha Hb. unfold compare_event_instants. by rewrite Ha, Hb.
Qed.
