(* ===== verification/Model.v ===== *)
(** * Identifiers and shared model types ([src/src/model])

    Every id type of [model/ids.rs] is a transparent newtype over [String] whose
    derived order is the string's, so ids are strings here.  The enumerations
    and records below are the ones several components share. *)

From S2P Require Import Prelude RustStr.

Abbreviation EventId := string (only parsing).
Abbreviation RevisionId := string (only parsing).
Abbreviation ObjectId := string (only parsing).
Abbreviation ChangeId := string (only parsing).
Abbreviation ActorId := string (only parsing).
Abbreviation TrackId := string (only parsing).
Abbreviation ObservationId := string (only parsing).
Abbreviation InputRequestId := string (only parsing).
Abbreviation AssessmentId := string (only parsing).
Abbreviation JournalId := string (only parsing).
Abbreviation ChangeDeclarationClaimId := string (only parsing).
Abbreviation ChangeMembershipClaimId := string (only parsing).
Abbreviation ChangeMembershipWithdrawalId := string (only parsing).
Abbreviation ChangeLinkClaimId := string (only parsing).
Abbreviation ChangeRevisionRelationClaimId := string (only parsing).
Abbreviation ChangeRevisionRelationWithdrawalId := string (only parsing).
Abbreviation RevisionRelationAttestationId := string (only parsing).
Abbreviation ReviewFactPortId := string (only parsing).
Abbreviation CommitAssociationId := string (only parsing).
Abbreviation RefAssociationId := string (only parsing).
Abbreviation InputRequestResponseId := string (only parsing).
Abbreviation WorkObjectId := string (only parsing).
Abbreviation CheckpointId := string (only parsing).
Abbreviation EngagementId := string (only parsing).

(** [u8::is_ascii_hexdigit] and not upper case. *)
Definition is_lower_hex (c : ascii) : bool :=
  is_ascii_digit c || ((97 <=? byte_val c)%Z && (byte_val c <=? 102)%Z).

Definition is_prefixed_sha256 (value : string) : bool :=
  match strip_prefix "sha256:" value with
  | Some hex => (String.length hex =? 64) && all_bytes is_lower_hex hex
  | None => false
  end.

Record RevisionRefV1 := {
  rr_revision_id : RevisionId;
  rr_object_artifact_content_hash : string
}.

#[export] Instance RevisionRefV1_eq_dec : EqDecision RevisionRefV1.
Proof. solve_decision. Defined.

#[export] Instance RevisionRefV1_countable : Countable RevisionRefV1.
Proof.
  apply (inj_countable' (λ r, (rr_revision_id r, rr_object_artifact_content_hash r))
    (λ p, {| rr_revision_id := p.1; rr_object_artifact_content_hash := p.2 |})).
  by intros [].
Defined.

Definition RevisionRefV1_new (revision_id : RevisionId) (hash : string) : result RevisionRefV1 :=
  if negb (starts_with "rev:" revision_id) then
    Err (Message "RevisionRefV1 requires a rev: RevisionId")
  else if negb (is_prefixed_sha256 hash) then
    Err (Message "RevisionRefV1 requires a lowercase sha256 object artifact hash")
  else Ok {| rr_revision_id := revision_id; rr_object_artifact_content_hash := hash |}.

(** [session/projection/change.rs]. *)
Inductive ChangeLifecycleV1 := LIncomplete | LConflicted | LInProgress | LAccepted.

Inductive ChangeTopologyV1 :=
| TInitial
| TReplacement
| TReplacementDivergent
| TConsolidation
| TParallelCurrent
| TMixed
| TIncomplete
| TCycleConflicted.

#[export] Instance ChangeLifecycleV1_eq_dec : EqDecision ChangeLifecycleV1.
Proof. solve_decision. Defined.
#[export] Instance ChangeTopologyV1_eq_dec : EqDecision ChangeTopologyV1.
Proof. solve_decision. Defined.
