(* ===== verification/ChangeOrder.v ===== *)
(** * Presentation order of Changes ([src/src/session/change_order.rs])

    The order vocabulary, the one comparator every Change list uses, the page
    keys a continuation carries and the strictness check. *)

From S2P Require Import Prelude RustStr Instant.

Inductive ChangeListOrderV1 := ChangeIdAsc | ActivityDesc | AttentionWait.

#[export] Instance ChangeListOrderV1_eq_dec : EqDecision ChangeListOrderV1.
Proof. solve_decision. Defined.

Definition order_as_str (o : ChangeListOrderV1) : string :=
  match o with
  | ChangeIdAsc => "change_id_asc"
  | ActivityDesc => "activity_desc"
  | AttentionWait => "attention_wait"
  end.

Definition order_parse (value : string) : option ChangeListOrderV1 :=
  if String.eqb value "change_id_asc" then Some ChangeIdAsc
  else if String.eqb value "activity_desc" then Some ActivityDesc
  else if String.eqb value "attention_wait" then Some AttentionWait
  else None.

Definition admitted_on_attention_lens (o : ChangeListOrderV1) : bool := true.

Definition admitted_on_changes_lens (o : ChangeListOrderV1) : bool :=
  match o with AttentionWait => false | _ => true end.

Definition default_for_changes : ChangeListOrderV1 := ActivityDesc.
Definition default_for_attention : ChangeListOrderV1 := AttentionWait.

Record AttentionWaitKeyV1 := {
  awk_tier_rank : Z;
  awk_oldest_observed_at : string
}.

Record ChangeOrderKey := {
  cok_change_id : string;
  cok_activity_at : option string;
  cok_tier_rank : option Z;
  cok_oldest_observed_at : option string
}.

(** [Option::zip]. *)
Definition option_zip {A B} (x : option A) (y : option B) : option (A * B) :=
  match x, y with Some a, Some b => Some (a, b) | _, _ => None end.

Definition compare_change_order (order : ChangeListOrderV1)
    (left right : ChangeOrderKey) : comparison :=
  let by_id := String.compare (cok_change_id left) (cok_change_id right) in
  match order with
  | ChangeIdAsc => by_id
  | ActivityDesc =>
      then_with
        (match cok_activity_at left, cok_activity_at right with
         | Some left_at, Some right_at => compare_event_instants right_at left_at
         | Some _, None => Lt
         | None, Some _ => Gt
         | None, None => Eq
         end) by_id
  | AttentionWait =>
      then_with
        (match option_zip (cok_tier_rank left) (cok_oldest_observed_at left),
               option_zip (cok_tier_rank right) (cok_oldest_observed_at right) with
         | Some (left_tier, left_at), Some (right_tier, right_at) =>
             then_with (Z.compare left_tier right_tier)
               (compare_event_instants left_at right_at)
         | Some _, None => Lt
         | None, Some _ => Gt
         | None, None => Eq
         end) by_id
  end.

Inductive ChangePageKeyV1 :=
| KeyChangeIdAsc (change_id : string)
| KeyActivityDesc (activity_at : option string) (change_id : string)
| KeyAttentionWait (tier_rank : option Z) (oldest_observed_at : option string)
    (change_id : string).

Definition from_order_key (order : ChangeListOrderV1) (key : ChangeOrderKey)
    : ChangePageKeyV1 :=
  match order with
  | ChangeIdAsc => KeyChangeIdAsc (cok_change_id key)
  | ActivityDesc => KeyActivityDesc (cok_activity_at key) (cok_change_id key)
  | AttentionWait =>
      KeyAttentionWait (cok_tier_rank key) (cok_oldest_observed_at key) (cok_change_id key)
  end.

Definition page_key_order (k : ChangePageKeyV1) : ChangeListOrderV1 :=
  match k with
  | KeyChangeIdAsc _ => ChangeIdAsc
  | KeyActivityDesc _ _ => ActivityDesc
  | KeyAttentionWait _ _ _ => AttentionWait
  end.

Definition page_key_change_id (k : ChangePageKeyV1) : string :=
  match k with
  | KeyChangeIdAsc c | KeyActivityDesc _ c | KeyAttentionWait _ _ c => c
  end.

Definition order_key (k : ChangePageKeyV1) : ChangeOrderKey :=
  match k with
  | KeyChangeIdAsc c =>
      {| cok_change_id := c; cok_activity_at := None; cok_tier_rank := None;
         cok_oldest_observed_at := None |}
  | KeyActivityDesc a c =>
      {| cok_change_id := c; cok_activity_at := a; cok_tier_rank := None;
         cok_oldest_observed_at := None |}
  | KeyAttentionWait t o c =>
      {| cok_change_id := c; cok_activity_at := None; cok_tier_rank := t;
         cok_oldest_observed_at := o |}
  end.

(** The loop of [is_strictly_ordered], with [previous] as its state. *)
Fixpoint is_strictly_ordered_from (order : ChangeListOrderV1)
    (previous : option ChangeOrderKey) (keys : list ChangeOrderKey) : bool :=
  match keys with
  | [] => true
  | key :: keys =>
      match previous with
      | Some last =>
          match compare_change_order order last key with
          | Lt => is_strictly_ordered_from order (Some key) keys
          | _ => false
          end
      | None => is_strictly_ordered_from order (Some key) keys
      end
  end.

Definition is_strictly_ordered (order : ChangeListOrderV1) (keys : list ChangeOrderKey) : bool :=
  is_strictly_ordered_from order None keys.

(** ** The comparator is a total order on Changes *)

(** A comparator on optional values that puts the absent ones last. *)
Definition absent_last {A} (c : A → A → comparison) (x y : option A) : comparison :=
  match x, y with
  | Some x, Some y => c x y
  | Some _, None => Lt
  | None, Some _ => Gt
  | None, None => Eq
  end.

Lemma absent_last_total {A} (c : A → A → comparison) :
  TotalCmp c → TotalCmp (absent_last c).
Proof.
  intros Hc. split.
  - intros [x|]; [apply (cmp_refl c)|done].
  - intros [x|] [y|]; cbn; [apply (cmp_opp c)|done..].
  - intros [x|] [y|] [z|]; cbn; try done. apply (cmp_le_trans c).
Qed.

Lemma cmp_flip_total {A} (c : A → A → comparison) : TotalCmp c → TotalCmp (λ x y, c y x).
Proof.
  intros Hc. split; intros *; [apply (cmp_refl c)|apply (cmp_opp c)|].
  intros H1 H2. by apply (cmp_le_trans c z y x).
Qed.

#[export] Instance compare_change_order_total order : TotalCmp (compare_change_order order).
Proof.
  assert (TotalCmp (λ l r, String.compare (cok_change_id l) (cok_change_id r))) as Hid.
  { apply cmp_pullback, _. }
  destruct order; [exact Hid| |]; refine (cmp_then _ _ _ Hid).
  - apply (cmp_pullback cok_activity_at (absent_last (λ x y, compare_event_instants y x))).
    apply absent_last_total, cmp_flip_total, _.
  - assert (TotalCmp (λ p q : Z * string, then_with (Z.compare p.1 q.1)
      (compare_event_instants p.2 q.2))) as Hp by (apply cmp_then; apply cmp_pullback, _).
    apply (absent_last_total _) in Hp.
    apply (cmp_pullback (λ k, option_zip (cok_tier_rank k) (cok_oldest_observed_at k))) in Hp.
    destruct Hp as [Hr Ho Ht]. split; intros x.
    + specialize (Hr x). cbn in *. by destruct (option_zip _ _) as [[]|].
    + intros y. specialize (Ho x y). cbn in *.
      by destruct (option_zip (cok_tier_rank x) _) as [[]|], (option_zip _ _) as [[]|].
    + intros y z. specialize (Ht x y z). cbn in *.
      by destruct (option_zip (cok_tier_rank x) _) as [[]|],
        (option_zip (cok_tier_rank y) _) as [[]|], (option_zip _ _) as [[]|].
Qed.

Lemma then_with_Eq c d : then_with c d = Eq ↔ c = Eq ∧ d = Eq.
Proof. destruct c; naive_solver. Qed.

Lemma compare_change_order_Eq_id order l r :
  compare_change_order order l r = Eq → cok_change_id l = cok_change_id r.
Proof.
  destruct order; cbn; rewrite ?then_with_Eq.
  - apply (cmp_eq String.compare).
  - intros [_ H]. by apply (cmp_eq String.compare).
  - intros [_ H]. by apply (cmp_eq String.compare).
Qed.

(** Under every order the Change comparator is a total order that separates
    distinct Changes: it is a total preorder, equality of two keys forces equal
    Change ids, and a key whose activity instant (or attention wait) is absent
    comes after every key that has one. *)
Lemma compare_change_order_spec :
  (∀ order, TotalCmp (compare_change_order order)) ∧
  (∀ order l r, compare_change_order order l r = Eq → cok_change_id l = cok_change_id r) ∧
  (∀ l r, cok_activity_at l ≠ None → cok_activity_at r = None →
    compare_change_order ActivityDesc l r = Lt) ∧
  (∀ l r, cok_tier_rank l ≠ None → cok_oldest_observed_at l ≠ None →
    (cok_tier_rank r = None ∨ cok_oldest_observed_at r = None) →
    compare_change_order AttentionWait l r = Lt).
Proof.
  split_and!.
  - apply _.
  - apply compare_change_order_Eq_id.
  - intros l r Hl Hr. cbn. rewrite Hr. by destruct (cok_activity_at l).
  - intros l r Hl1 Hl2 Hr. cbn.
    destruct (cok_tier_rank l), (cok_oldest_observed_at l); try done. cbn.
    destruct Hr as [-> | ->]; cbn; [done|]. by destruct (cok_tier_rank r).
Qed.

(** ** Page keys and strictness *)

(** A page key keeps exactly the components its order compares. *)
Lemma compare_page_key_r order x k :
  compare_change_order order x (order_key (from_order_key order k)) =
  compare_change_order order x k.
Proof. by destruct order. Qed.

Lemma compare_page_key_l order x k :
  compare_change_order order (order_key (from_order_key order k)) x =
  compare_change_order order k x.
Proof. by destruct order. Qed.

Lemma page_key_order_from order k : page_key_order (from_order_key order k) = order.
Proof. by destruct order. Qed.

Abbreviation key_lt order := (λ a b, compare_change_order order a b = Lt).

Lemma is_strictly_ordered_from_spec order p keys :
  is_strictly_ordered_from order (Some p) keys = true ↔
  StronglySorted (key_lt order) (p :: keys).
Proof.
  revert p; induction keys as [|k keys IH]; intros p; cbn.
  { split; [by repeat constructor|done]. }
  destruct (compare_change_order order p k) eqn:E.
  2:{ rewrite IH. split.
      - intros Hs. constructor; [done|]. constructor; [done|].
        apply StronglySorted_inv in Hs as [_ Hk].
        eapply Forall_impl; [exact Hk|]. intros x Hx. by apply (cmp_lt_trans _ p k x).
      - by intros [Hs _]%StronglySorted_inv. }
  all: split; [done|]; intros [_ [? _]%Forall_cons]%StronglySorted_inv; congruence.
Qed.

Lemma is_strictly_ordered_spec order keys :
  is_strictly_ordered order keys = true ↔ StronglySorted (key_lt order) keys.
Proof.
  unfold is_strictly_ordered. destruct keys as [|k keys]; cbn.
  { split; [constructor|done]. }
  apply is_strictly_ordered_from_spec.
Qed.

(** The strictness guard of a page, which only compares neighbours, accepts
    exactly the key sequences in which every earlier key is strictly less than
    every later one; such a sequence never repeats a Change when ordered by id,
    and the wire spelling of each order parses back to it. *)
Lemma is_strictly_ordered_correct :
  (∀ order keys, is_strictly_ordered order keys = true ↔
    ∀ i j a b, i < j → keys !! i = Some a → keys !! j = Some b →
      compare_change_order order a b = Lt) ∧
  (∀ keys, is_strictly_ordered ChangeIdAsc keys = true → NoDup (cok_change_id <$> keys)) ∧
  (∀ value order, order_parse value = Some order ↔ value = order_as_str order).
Proof.
  split_and!.
  - intros order keys. rewrite is_strictly_ordered_spec. split.
    + intros Hs i j a b Hij Hi Hj. by apply (StronglySorted_lookup (key_lt order) keys i j).
    + intros H. by apply StronglySorted_of_lookup.
  - intros keys Hs%is_strictly_ordered_spec. induction Hs as [|x l Hl IH Hx]; cbn; constructor.
    + intros (y & Hy & Hin)%list_elem_of_fmap. eapply Forall_forall in Hx; [|done].
      cbn in Hx. rewrite Hy, (cmp_refl String.compare) in Hx. done.
    + done.
  - intros value order. unfold order_parse.
    destruct (String.eqb_spec value "change_id_asc") as [->|];
      [by destruct order|].
    destruct (String.eqb_spec value "activity_desc") as [->|]; [by destruct order|].
    destruct (String.eqb_spec value "attention_wait") as [->|]; [by destruct order|].
    split; [done|]. by destruct order.
Qed.
