(* ===== verification/ChangePage.v ===== *)
(** * Paging through the Change list
    ([src/src/session/derived_access/changes.rs], [src/src/documents/change.rs])

    The pure step that orders, filters and windows the Change summaries of one
    projection.  A page is requested with the boundary key of the row before it;
    the window it returns carries the boundaries of its neighbours. *)

From S2P Require Import Prelude RustStr Instant Model ChangeOrder.

(** ** Data *)

Inductive ChangeDeclarationStateV1 := DAuthoritative | DIncomplete | DConflicted.

Record ChangeSummaryV1 := {
  cs_change_id : ChangeId;
  cs_declaration_state : ChangeDeclarationStateV1;
  cs_title_assertions : list string;
  cs_member_count : nat;
  cs_current_revision_refs : list RevisionRefV1;
  cs_topology : ChangeTopologyV1;
  cs_lifecycle : ChangeLifecycleV1;
  cs_attention_summary : string;
  cs_availability_summary : string;
  cs_diagnostics : list string;
  cs_projection_stamp : string;
  cs_activity_at : option string;
  cs_attention_wait_at : option AttentionWaitKeyV1
}.

Definition change_summary_order_key (summary : ChangeSummaryV1) : ChangeOrderKey :=
  {| cok_change_id := cs_change_id summary;
     cok_activity_at := cs_activity_at summary;
     cok_tier_rank := awk_tier_rank <$> cs_attention_wait_at summary;
     cok_oldest_observed_at := awk_oldest_observed_at <$> cs_attention_wait_at summary |}.

Inductive DerivedChangeAttentionFilterV1 := AClear | AInProgress | AIncomplete | AConflicted.
Inductive DerivedChangeAvailabilityFilterV1 := VAvailable | VIncomplete.

Definition attention_filter_name (f : DerivedChangeAttentionFilterV1) : string :=
  match f with
  | AClear => "clear"
  | AInProgress => "in_progress"
  | AIncomplete => "incomplete"
  | AConflicted => "conflicted"
  end.

Definition availability_filter_name (f : DerivedChangeAvailabilityFilterV1) : string :=
  match f with VAvailable => "available" | VIncomplete => "incomplete" end.

(** [DerivedChangePageBoundaryV1]: the key of the row before the page. *)
Record DerivedChangePageBoundaryV1 := { last_key : option ChangePageKeyV1 }.

Definition page_one : DerivedChangePageBoundaryV1 := {| last_key := None |}.
Definition boundary_after (k : ChangePageKeyV1) : DerivedChangePageBoundaryV1 :=
  {| last_key := Some k |}.

Record DerivedChangePageContinuationV1 := {
  expected_projection_stamp : string;
  boundary : DerivedChangePageBoundaryV1
}.

Definition continuation_new (stamp : string) (b : DerivedChangePageBoundaryV1)
    : result DerivedChangePageContinuationV1 :=
  if is_empty stamp then Err (Message "derived Change continuation has no projection stamp")
  else Ok {| expected_projection_stamp := stamp; boundary := b |}.

Record DerivedChangePageSelectionV1 := {
  sel_limit : nat;
  sel_after : option DerivedChangePageContinuationV1;
  sel_summary_query : option string;
  sel_topology : option ChangeTopologyV1;
  sel_lifecycle : option ChangeLifecycleV1;
  sel_attention : option DerivedChangeAttentionFilterV1;
  sel_availability : option DerivedChangeAvailabilityFilterV1;
  sel_order : option ChangeListOrderV1
}.

Definition DEFAULT_PAGE_LIMIT : nat := 50.
Definition MAXIMUM_PAGE_LIMIT : nat := 100.
Definition MAXIMUM_SUMMARY_QUERY_BYTES : nat := 256.

(** [to_lowercase] stands for the standard library's Unicode table lookup. *)
Definition selection_new (to_lowercase : string → string) (limit : nat)
    (after : option DerivedChangePageContinuationV1) (summary_query : option string)
    (topology : option ChangeTopologyV1) (lifecycle : option ChangeLifecycleV1)
    (attention : option DerivedChangeAttentionFilterV1)
    (availability : option DerivedChangeAvailabilityFilterV1)
    : result DerivedChangePageSelectionV1 :=
  if negb ((1 <=? limit) && (limit <=? MAXIMUM_PAGE_LIMIT)) then
    Err (Message "derived Change page limit must be between 1 and 100")
  else
    let? query :=
      match summary_query with
      | None => Ok None
      | Some query =>
          let query := trim query in
          if is_empty query then Err (Message "derived Change summary query is empty")
          else if MAXIMUM_SUMMARY_QUERY_BYTES <? String.length query then
            Err (Message "derived Change summary query exceeds 256 bytes")
          else Ok (Some (to_lowercase query))
      end in
    Ok {| sel_limit := limit; sel_after := after; sel_summary_query := query;
          sel_topology := topology; sel_lifecycle := lifecycle; sel_attention := attention;
          sel_availability := availability; sel_order := None |}.

Definition default_page : DerivedChangePageSelectionV1 :=
  {| sel_limit := DEFAULT_PAGE_LIMIT; sel_after := None; sel_summary_query := None;
     sel_topology := None; sel_lifecycle := None; sel_attention := None;
     sel_availability := None; sel_order := None |}.

Definition with_order (s : DerivedChangePageSelectionV1) (order : ChangeListOrderV1)
    : DerivedChangePageSelectionV1 :=
  {| sel_limit := sel_limit s; sel_after := sel_after s;
     sel_summary_query := sel_summary_query s; sel_topology := sel_topology s;
     sel_lifecycle := sel_lifecycle s; sel_attention := sel_attention s;
     sel_availability := sel_availability s; sel_order := Some order |}.

Inductive DerivedChangePageRequestV1 :=
| Bare
| Bounded (selection : DerivedChangePageSelectionV1).

Record DerivedChangePageWindowV1 := {
  win_projection_stamp : string;
  win_previous : option DerivedChangePageBoundaryV1;
  win_next : option DerivedChangePageBoundaryV1;
  win_last : option DerivedChangePageBoundaryV1
}.

Record BodylessChangePageSelection := {
  change_ids : list ChangeId;
  window : option DerivedChangePageWindowV1
}.

Inductive ChangePageLens := LensChanges | LensAttention.

Definition default_order (lens : ChangePageLens) : ChangeListOrderV1 :=
  match lens with LensChanges => default_for_changes | LensAttention => default_for_attention end.

Definition lens_admits (lens : ChangePageLens) (order : ChangeListOrderV1) : bool :=
  match lens with
  | LensChanges => admitted_on_changes_lens order
  | LensAttention => admitted_on_attention_lens order
  end.

Definition require_admitted_order (lens : ChangePageLens) (order : ChangeListOrderV1)
    : result unit :=
  if lens_admits lens order then Ok ()
  else Err (Message ("Change page order " +:+ order_as_str order +:+
                     " is not admitted on this lens")).

Definition order_for (r : DerivedChangePageRequestV1) (lens : ChangePageLens)
    : ChangeListOrderV1 :=
  let explicit := match r with Bare => None | Bounded selection => sel_order selection end in
  match explicit with Some o => o | None => default_order lens end.

(** ** Candidates *)

(** [Option::is_none_or] with an equality test. *)
Definition none_or_eq {A} `{!EqDecision A} (o : option A) (x : A) : bool :=
  match o with None => true | Some y => bool_decide (x = y) end.

Definition selection_matches (selection : DerivedChangePageSelectionV1)
    (summary : ChangeSummaryV1) : bool :=
  none_or_eq (sel_topology selection) (cs_topology summary)
  && none_or_eq (sel_lifecycle selection) (cs_lifecycle summary)
  && none_or_eq (attention_filter_name <$> sel_attention selection)
       (cs_attention_summary summary)
  && none_or_eq (availability_filter_name <$> sel_availability selection)
       (cs_availability_summary summary).

Definition lens_keeps (lens : ChangePageLens) (summary : ChangeSummaryV1) : bool :=
  match lens with
  | LensChanges => true
  | LensAttention => bool_decide (cs_lifecycle summary ≠ LAccepted)
  end.

(** [Vec::retain]. *)
Definition retain {A} (p : A → bool) (l : list A) : list A := filter (λ x, p x = true) l.

Definition select_bodyless_change_candidates (lens : ChangePageLens)
    (summaries : list ChangeSummaryV1) (projection_stamp : string)
    (request : DerivedChangePageRequestV1) (order : ChangeListOrderV1)
    : result (list ChangeId) :=
  let? _ := require_admitted_order lens order in
  let? _ := match request with
      | Bounded selection =>
          match sel_order selection with
          | Some requested =>
              if bool_decide (requested ≠ order) then
                Err (Message "derived Change selection order disagrees with the page order")
              else Ok ()
          | None => Ok ()
          end
      | Bare => Ok ()
      end in
  if negb (bool_decide (NoDup (cs_change_id <$> summaries))) then
    Err (Message "bodyless Change selection contains a duplicate Change identity")
  else
    let candidates := sort_by (λ l r, compare_change_order order
      (change_summary_order_key l) (change_summary_order_key r)) summaries in
    let candidates := match lens with
      | LensAttention => retain (lens_keeps LensAttention) candidates
      | LensChanges => candidates
      end in
    let? candidates :=
      match request with
      | Bounded selection =>
          match sel_after selection with
          | Some continuation =>
              if bool_decide (expected_projection_stamp continuation ≠ projection_stamp) then
                Err (Message "derived Change continuation belongs to a different projection")
              else Ok (retain (selection_matches selection) candidates)
          | None => Ok (retain (selection_matches selection) candidates)
          end
      | Bare => Ok candidates
      end in
    Ok (cs_change_id <$> candidates).

(** ** Windowing *)

Definition keys_by_id (summaries : list ChangeSummaryV1) : gmap ChangeId ChangeOrderKey :=
  foldl (λ m s, <[cs_change_id s := change_summary_order_key s]> m) ∅ summaries.

Definition key_of (summaries : list ChangeSummaryV1) (change_id : ChangeId)
    : result ChangeOrderKey :=
  ok_or (keys_by_id summaries !! change_id)
    (Message ("bodyless Change candidate " +:+ change_id +:+ " has no summary")).

(** [cmp(..).is_le()]. *)
Definition is_le (c : comparison) : bool := match c with Gt => false | _ => true end.

Definition boundary_before (order : ChangeListOrderV1) (keys : list ChangeOrderKey)
    (page_start : nat) : DerivedChangePageBoundaryV1 :=
  if page_start =? 0 then page_one
  else match keys !! (page_start - 1) with
       | Some key => boundary_after (from_order_key order key)
       | None => page_one
       end.

(** The [usize] additions are bounded by the number of candidates, so saturation
    does not show; [limit] is at least one by [selection_new]. *)
Definition page_window (candidates : list ChangeId) (keys : list ChangeOrderKey)
    (projection_stamp : string) (limit : nat) (order : ChangeListOrderV1) (start : nat)
    : BodylessChangePageSelection :=
  let len := length candidates in
  let end_ := Nat.min (start + limit) len in
  let last_page_start := if len =? 0 then 0 else ((len - 1) / limit) * limit in
  {| change_ids := take (end_ - start) (drop start candidates);
     window := Some
       {| win_projection_stamp := projection_stamp;
          win_previous := if 0 <? start then Some (boundary_before order keys (start - limit))
                          else None;
          win_next := if end_ <? len then Some (boundary_before order keys end_) else None;
          win_last := if negb (last_page_start =? start)
                      then Some (boundary_before order keys last_page_start) else None |} |}.

Definition paginate_bodyless_change_candidates (candidates : list ChangeId)
    (summaries : list ChangeSummaryV1) (projection_stamp : string)
    (request : DerivedChangePageRequestV1) (order : ChangeListOrderV1)
    : result BodylessChangePageSelection :=
  let? keys := mapM (key_of summaries) candidates in
  if negb (is_strictly_ordered order keys) then
    Err (Message "bodyless Change candidates are not strictly ordered")
  else
    match request with
    | Bare => Ok {| change_ids := candidates; window := None |}
    | Bounded selection =>
        let? start :=
          match sel_after selection ≫= (λ c, last_key (boundary c)) with
          | None => Ok 0
          | Some b =>
              if bool_decide (page_key_order b ≠ order) then
                Err (Message "derived Change continuation was issued under a different order")
              else
                let boundary_key := order_key b in
                Ok (partition_point
                      (λ key, is_le (compare_change_order order key boundary_key)) keys)
          end in
        Ok (page_window candidates keys projection_stamp (sel_limit selection) order start)
    end.

Definition select_bodyless_change_page (lens : ChangePageLens)
    (summaries : list ChangeSummaryV1) (projection_stamp : string)
    (request : DerivedChangePageRequestV1) (order : ChangeListOrderV1)
    : result BodylessChangePageSelection :=
  let? candidates :=
    select_bodyless_change_candidates lens summaries projection_stamp request order in
  match request with
  | Bounded {| sel_summary_query := Some _ |} =>
      Err (Message "derived Change summary query requires exhaustive proposal selection")
  | _ =>
      paginate_bodyless_change_candidates candidates summaries projection_stamp request order
  end.

(** ** Correctness *)

Lemma StronglySorted_retain {A} (R : A → A → Prop) (p : A → bool) l :
  StronglySorted R l → StronglySorted R (retain p l).
Proof.
  unfold retain. induction 1 as [|x l Hl IH Hx]; [constructor|].
  rewrite filter_cons. case_decide; [|done]. constructor; [done|].
  apply Forall_forall. intros y [_ Hy]%list_elem_of_filter. by eapply Forall_forall in Hx.
Qed.

(** The continuation that reopens the same selection at a boundary. *)
Definition with_after (s : DerivedChangePageSelectionV1)
    (c : option DerivedChangePageContinuationV1) : DerivedChangePageSelectionV1 :=
  {| sel_limit := sel_limit s; sel_after := c;
     sel_summary_query := sel_summary_query s; sel_topology := sel_topology s;
     sel_lifecycle := sel_lifecycle s; sel_attention := sel_attention s;
     sel_availability := sel_availability s; sel_order := sel_order s |}.

Section paging.
Context (lens : ChangePageLens) (summaries : list ChangeSummaryV1) (stamp : string).
Context (order : ChangeListOrderV1) (sel : DerivedChangePageSelectionV1).

(** A bounded request the page step admits. *)
Definition admissible : Prop :=
  NoDup (cs_change_id <$> summaries) ∧ lens_admits lens order = true ∧
  (sel_order sel = None ∨ sel_order sel = Some order) ∧
  sel_summary_query sel = None ∧ 1 ≤ sel_limit sel.

(** The rows the request selects, in order: the reference the pages are cut from. *)
Definition selected_rows : list ChangeSummaryV1 :=
  retain (selection_matches sel) (retain (lens_keeps lens)
    (sort_by (λ l r, compare_change_order order
      (change_summary_order_key l) (change_summary_order_key r)) summaries)).

Abbreviation rows := selected_rows.
Abbreviation keys := (change_summary_order_key <$> selected_rows).
Abbreviation ids := (cs_change_id <$> selected_rows).

Lemma elem_of_rows s :
  s ∈ rows ↔ s ∈ summaries ∧ lens_keeps lens s = true ∧ selection_matches sel s = true.
Proof.
  unfold selected_rows, retain. rewrite !list_elem_of_filter, elem_of_sort_by. naive_solver.
Qed.

Lemma lens_keeps_changes l : lens = LensChanges → retain (lens_keeps lens) l = l.
Proof.
  intros ->. unfold retain. induction l as [|x l IH]; [done|].
  rewrite filter_cons_True by done. by rewrite IH.
Qed.

Hypothesis Hadm : admissible.

Lemma rows_NoDup : NoDup ids.
Proof.
  destruct Hadm as [Hnd _]. unfold selected_rows, retain.
  assert (∀ (p : ChangeSummaryV1 → bool) l, NoDup (cs_change_id <$> l) →
    NoDup (cs_change_id <$> filter (λ x, p x = true) l)) as Hf.
  { intros p l H. eapply sublist_NoDup; [done|]. apply fmap_sublist, sublist_filter. }
  apply Hf, Hf. by rewrite sort_by_Permutation.
Qed.

Lemma keys_sorted : StronglySorted (key_lt order) keys.
Proof.
  destruct Hadm as [Hnd _]. apply StronglySorted_fmap.
  unfold selected_rows. do 2 apply StronglySorted_retain.
  set (cmp := λ l r, compare_change_order order (change_summary_order_key l)
    (change_summary_order_key r)).
  assert (TotalCmp cmp) as Hcmp by (apply cmp_pullback, _).
  assert (NoDup (cs_change_id <$> sort_by cmp summaries)) as Hnd'
    by (by rewrite sort_by_Permutation).
  pose proof (sort_by_sorted cmp summaries) as Hs.
  induction Hs as [|x l Hl IH Hx]; constructor.
  - apply IH. cbn in Hnd'. by apply NoDup_cons in Hnd' as [_ ?].
  - apply Forall_forall. intros y Hy. eapply Forall_forall in Hx; [|exact Hy].
    unfold cmp_le in Hx. change (cmp x y = Lt).
    destruct (cmp x y) eqn:E; [|done..]. exfalso.
    apply compare_change_order_Eq_id in E. cbn in E, Hnd'.
    apply NoDup_cons in Hnd' as [Hnin _]. apply Hnin. rewrite E.
    apply list_elem_of_fmap. by exists y.
Qed.

Lemma keys_by_id_lookup s :
  s ∈ summaries → keys_by_id summaries !! cs_change_id s = Some (change_summary_order_key s).
Proof.
  destruct Hadm as [Hnd _]. unfold keys_by_id. generalize (∅ : gmap ChangeId ChangeOrderKey).
  induction summaries as [|x l IH]; intros m Hs; [by apply elem_of_nil in Hs|]. cbn in *.
  apply NoDup_cons in Hnd as [Hnin Hnd].
  apply elem_of_cons in Hs as [->|Hs]; [|by apply IH].
  assert (∀ (l : list ChangeSummaryV1) (m : gmap ChangeId ChangeOrderKey) k,
    k ∉ cs_change_id <$> l →
    foldl (λ m s, <[cs_change_id s:=change_summary_order_key s]> m) m l !! k = m !! k) as Hk.
  { clear. intros l. induction l as [|y l IH]; intros m k Hk; [done|]. cbn in *.
    rewrite IH by set_solver. apply lookup_insert_ne. set_solver. }
  rewrite Hk by done. apply lookup_insert_eq.
Qed.

Lemma rows_keys : mapM (key_of summaries) ids = Ok keys.
Proof.
  apply mapM_Ok, Forall2_fmap_2, Forall_Forall2_diag, Forall_forall. intros s Hs.
  unfold key_of. rewrite keys_by_id_lookup; [done|]. by apply elem_of_rows in Hs as [? _].
Qed.

Lemma candidates_ok after :
  (∀ c, after = Some c → expected_projection_stamp c = stamp) →
  select_bodyless_change_candidates lens summaries stamp (Bounded (with_after sel after)) order
  = Ok ids.
Proof.
  intros Hafter. destruct Hadm as (Hnd & Hlens & Hord & Hq & Hlim).
  unfold select_bodyless_change_candidates, require_admitted_order. rewrite Hlens. cbn [rbind].
  rewrite (bool_decide_eq_true_2 (NoDup _)) by done. cbn [negb sel_order with_after].
  assert (∀ l, retain (selection_matches (with_after sel after)) l =
               retain (selection_matches sel) l) as Hm by done.
  assert ((match lens with
     | LensChanges => sort_by (λ l r, compare_change_order order
          (change_summary_order_key l) (change_summary_order_key r)) summaries
     | LensAttention => retain (lens_keeps LensAttention)
          (sort_by (λ l r, compare_change_order order
          (change_summary_order_key l) (change_summary_order_key r)) summaries)
     end) = retain (lens_keeps lens) (sort_by (λ l r, compare_change_order order
          (change_summary_order_key l) (change_summary_order_key r)) summaries)) as ->.
  { pose proof (lens_keeps_changes (sort_by (λ l r, compare_change_order order
          (change_summary_order_key l) (change_summary_order_key r)) summaries)) as H.
    destruct lens; [by rewrite H|done]. }
  cbn [sel_after with_after].
  destruct Hord as [-> | ->]; rewrite ?(bool_decide_eq_false_2 (order ≠ order)) by naive_solver;
    cbn [rbind]; (destruct after as [c|];
      [rewrite (bool_decide_eq_false_2 (expected_projection_stamp c ≠ stamp))
        by (rewrite (Hafter c eq_refl); naive_solver)|]); cbn [rbind]; by rewrite Hm.
Qed.

(** A boundary cut before position [k] reopens the list at position [k]. *)
Lemma partition_point_boundary k key :
  keys !! k = Some key →
  partition_point (λ x, is_le (compare_change_order order x
    (order_key (from_order_key order key)))) keys = S k.
Proof.
  intros Hk. pose proof keys_sorted as Hs.
  rewrite <- (take_drop (S k) keys) at 1. rewrite partition_point_app.
  - rewrite length_take. apply lookup_lt_Some in Hk. lia.
  - apply Forall_lookup. intros i x [Hx Hi]%lookup_take_Some.
    rewrite compare_page_key_r. destruct (decide (i = k)) as [->|Hne].
    + assert (x = key) as -> by congruence. by rewrite (cmp_refl _).
    + assert (compare_change_order order x key = Lt) as ->; [|done].
      eapply (StronglySorted_lookup (key_lt order) _ i k); [exact Hs|lia|done..].
  - apply Forall_lookup. intros i x Hi. rewrite lookup_drop in Hi.
    rewrite compare_page_key_r.
    assert (compare_change_order order key x = Lt) as Hlt.
    { eapply (StronglySorted_lookup (key_lt order) _ k (S k + i)); [exact Hs|lia|done..]. }
    rewrite (cmp_opp _ key x), Hlt. done.
Qed.

Abbreviation page_at k := (page_window ids keys stamp (sel_limit sel) order k).
Abbreviation boundary_at k := (boundary_before order keys k).

Lemma page_ok k :
  k ≤ length rows →
  select_bodyless_change_page lens summaries stamp
    (Bounded (with_after sel (Some {| expected_projection_stamp := stamp;
                                      boundary := boundary_at k |}))) order
  = Ok (page_at k).
Proof.
  intros Hk. unfold select_bodyless_change_page.
  rewrite candidates_ok by (intros c [= <-]; done). cbn [rbind].
  destruct Hadm as (_ & _ & _ & Hq & _). cbn [with_after sel_summary_query]. rewrite Hq.
  unfold paginate_bodyless_change_candidates. rewrite rows_keys. cbn [rbind].
  rewrite (proj2 (is_strictly_ordered_spec order keys) keys_sorted). cbn [negb].
  cbn [with_after sel_after mbind option_bind boundary sel_limit]. unfold boundary_before.
  destruct (Nat.eqb_spec k 0) as [->|Hk0]; [done|].
  destruct (keys !! (k - 1)) as [key|] eqn:E.
  - cbn [boundary_after last_key]. rewrite bool_decide_eq_false_2
      by (rewrite page_key_order_from; naive_solver).
    rewrite (partition_point_boundary (k - 1)) by done. cbn [rbind].
    by replace (S (k - 1)) with k by lia.
  - apply lookup_ge_None in E. rewrite length_fmap in E. lia.
Qed.

Lemma first_page_ok :
  select_bodyless_change_page lens summaries stamp (Bounded (with_after sel None)) order
  = Ok (page_at 0).
Proof.
  unfold select_bodyless_change_page. rewrite candidates_ok by done. cbn [rbind].
  destruct Hadm as (_ & _ & _ & Hq & _). cbn [with_after sel_summary_query]. rewrite Hq.
  unfold paginate_bodyless_change_candidates. rewrite rows_keys. cbn [rbind].
  by rewrite (proj2 (is_strictly_ordered_spec order keys) keys_sorted).
Qed.
End paging.

(** A client that opens the first page and follows [next] until it is absent.
    [fuel] bounds the number of [next] links followed. *)
Fixpoint walk_pages (fuel : nat) (lens : ChangePageLens) (summaries : list ChangeSummaryV1)
    (stamp : string) (order : ChangeListOrderV1) (sel : DerivedChangePageSelectionV1)
    (after : option DerivedChangePageContinuationV1) : result (list (list ChangeId)) :=
  let? page := select_bodyless_change_page lens summaries stamp
                 (Bounded (with_after sel after)) order in
  match window page ≫= win_next with
  | None => Ok [change_ids page]
  | Some b =>
      match fuel with
      | O => Err (Message "out of fuel")
      | S fuel =>
          let? c := continuation_new stamp b in
          let? rest := walk_pages fuel lens summaries stamp order sel (Some c) in
          Ok (change_ids page :: rest)
      end
  end.

Lemma walk_pages_from lens summaries stamp order sel fuel after k :
  admissible lens summaries order sel → stamp ≠ EmptyString →
  let ids := cs_change_id <$> selected_rows lens summaries order sel in
  k ≤ length ids → length ids ≤ fuel + k →
  select_bodyless_change_page lens summaries stamp (Bounded (with_after sel after)) order =
    Ok (page_window ids (change_summary_order_key <$> selected_rows lens summaries order sel)
          stamp (sel_limit sel) order k) →
  ∃ pages, walk_pages fuel lens summaries stamp order sel after = Ok pages ∧
    concat pages = drop k ids ∧ Forall (λ p, length p ≤ sel_limit sel) pages.
Proof.
  intros Hadm Hst ids. revert after k. induction fuel as [|fuel IH]; intros after k Hk Hf Hsel.
  all: cbn [walk_pages]; rewrite Hsel; cbn [rbind].
  all: unfold page_window; cbn [window mbind option_bind win_next change_ids].
  - rewrite (proj2 (Nat.ltb_ge _ _)) by lia. eexists. split; [done|]. cbn. split.
    + rewrite app_nil_r. apply take_ge. rewrite length_drop. lia.
    + constructor; [|done]. rewrite length_take. lia.
  - destruct (Nat.ltb_spec (Nat.min (k + sel_limit sel) (length ids)) (length ids)).
    + assert (1 ≤ sel_limit sel) as Hlim by apply Hadm.
      set (k' := Nat.min (k + sel_limit sel) (length ids)) in *.
      unfold continuation_new. destruct stamp as [|c0 st] eqn:Est; [done|].
      cbn [is_empty rbind]. rewrite <- Est in *.
      edestruct (IH (Some {| expected_projection_stamp := stamp; boundary :=
         boundary_before order (change_summary_order_key <$> selected_rows lens summaries
         order sel) k' |}) k') as (pages & -> & Hc & Hl); [lia|lia| |].
      { apply page_ok; [done|]. unfold ids in H. rewrite length_fmap in H. lia. }
      cbn [rbind]. eexists. split; [done|]. cbn [concat]. split.
      * rewrite Hc. etrans; [|apply (take_drop (k' - k))]. f_equal. rewrite drop_drop.
        f_equal. lia.
      * constructor; [|done]. rewrite length_take. lia.
    + eexists. split; [done|]. cbn. split.
      * rewrite app_nil_r. apply take_ge. rewrite length_drop. lia.
      * constructor; [|done]. rewrite length_take. lia.
Qed.

(** C33. Following [next] from the first page ends, reports no error, and shows
    every selected Change exactly once: the pages, each at most [limit] long,
    concatenate to the Changes the lens and filters keep, sorted by the one
    comparator, without repetition or omission. *)
Theorem paging_visits_all lens summaries stamp order sel :
  admissible lens summaries order sel → stamp ≠ EmptyString →
  ∃ pages,
    walk_pages (length summaries) lens summaries stamp order sel None = Ok pages ∧
    concat pages = cs_change_id <$> selected_rows lens summaries order sel ∧
    Forall (λ p, length p ≤ sel_limit sel) pages ∧
    NoDup (concat pages) ∧
    (∀ s, s ∈ summaries → (cs_change_id s ∈ concat pages ↔
       lens_keeps lens s = true ∧ selection_matches sel s = true)) ∧
    StronglySorted (key_lt order)
      (change_summary_order_key <$> selected_rows lens summaries order sel).
Proof.
  intros Hadm Hst.
  destruct (walk_pages_from lens summaries stamp order sel (length summaries) None 0 Hadm Hst)
    as (pages & Hw & Hc & Hl); [lia| |by apply first_page_ok|].
  { rewrite Nat.add_0_r, length_fmap. unfold selected_rows, retain.
    rewrite <- (length_sort_by (λ l r, compare_change_order order
      (change_summary_order_key l) (change_summary_order_key r)) summaries).
    etrans; [apply length_filter|apply length_filter]. }
  rewrite drop_0 in Hc. exists pages. rewrite Hc. split_and!; [done..|by eapply rows_NoDup| |].
  - intros s Hs. rewrite list_elem_of_fmap. split.
    + intros (s' & Heq & [Hs' Hk]%elem_of_rows). destruct Hadm as [Hnd _].
      assert (s = s') as ->; [|done].
      apply list_elem_of_lookup in Hs as [i Hi]. apply list_elem_of_lookup in Hs' as [j Hj].
      assert (i = j) as ->; [|congruence].
      apply (NoDup_lookup (cs_change_id <$> summaries) i j (cs_change_id s)); [done|..].
      * by rewrite list_lookup_fmap, Hi.
      * by rewrite list_lookup_fmap, Hj, Heq.
    + intros Hk. exists s. split; [done|]. by apply elem_of_rows.
  - by apply keys_sorted.
Qed.

(** The boundaries a page issues reopen the list where they were cut: [next] at
    the row after the page, [previous] one [limit] back, [last] at the start of
    the last full stride; [previous] is issued exactly when rows precede the
    page and [next] exactly when rows follow it. *)
Lemma page_boundaries_land lens summaries stamp order sel k :
  admissible lens summaries order sel →
  let ids := cs_change_id <$> selected_rows lens summaries order sel in
  let keys := change_summary_order_key <$> selected_rows lens summaries order sel in
  let page n := page_window ids keys stamp (sel_limit sel) order n in
  let open b := select_bodyless_change_page lens summaries stamp
    (Bounded (with_after sel (Some {| expected_projection_stamp := stamp;
                                      boundary := b |}))) order in
  k ≤ length ids →
  ∃ w, window (page k) = Some w ∧
    (win_previous w ≠ None ↔ 0 < k) ∧ (win_next w ≠ None ↔ k + sel_limit sel < length ids) ∧
    (∀ b, win_previous w = Some b → open b = Ok (page (k - sel_limit sel))) ∧
    (∀ b, win_next w = Some b → open b = Ok (page (k + sel_limit sel))) ∧
    (∀ b, win_last w = Some b →
      open b = Ok (page (((length ids - 1) / sel_limit sel) * sel_limit sel))).
Proof.
  intros Hadm ids keys page open Hk.
  assert (∀ n, n ≤ length ids → open (boundary_before order keys n) = Ok (page n)) as Hopen.
  { intros n Hn. apply page_ok; [done|]. unfold ids in Hn. by rewrite length_fmap in Hn. }
  destruct Hadm as (_ & _ & _ & _ & Hlim).
  eexists. split; [done|]. cbn [win_previous win_next win_last]. split_and!.
  - destruct (Nat.ltb_spec 0 k); naive_solver lia.
  - destruct (Nat.ltb_spec (Nat.min (k + sel_limit sel) (length ids)) (length ids));
      split; try done; lia.
  - intros b. destruct (Nat.ltb_spec 0 k); [|done]. intros [= <-]. apply Hopen. lia.
  - intros b. destruct (Nat.ltb_spec (Nat.min (k + sel_limit sel) (length ids)) (length ids));
      [|done]. intros [= <-]. rewrite Hopen by lia. do 2 f_equal. lia.
  - intros b. destruct (Nat.eqb_spec (length ids) 0) as [H0|H0].
    + destruct (Nat.eqb_spec 0 k); [done|lia].
    + destruct (Nat.eqb_spec ((length ids - 1) / sel_limit sel * sel_limit sel) k); [done|].
      intros [= <-]. apply Hopen. rewrite Nat.mul_comm.
      pose proof (Nat.Div0.mul_div_le (length ids - 1) (sel_limit sel)). lia.
Qed.

(** A continuation is never reinterpreted: one that carries another
    projection's stamp, and one whose boundary was issued under another order,
    make the page fail. *)
Lemma foreign_continuation_rejected lens summaries stamp order sel c :
  admissible lens summaries order sel →
  (expected_projection_stamp c ≠ stamp →
    ∃ m, select_bodyless_change_page lens summaries stamp
           (Bounded (with_after sel (Some c))) order = Err (Message m)) ∧
  (∀ k, expected_projection_stamp c = stamp → last_key (boundary c) = Some k →
    page_key_order k ≠ order →
    ∃ m, select_bodyless_change_page lens summaries stamp
           (Bounded (with_after sel (Some c))) order = Err (Message m)).
Proof.
  intros Hadm. split.
  - intros Hst. destruct Hadm as (Hnd & Hlens & Hord & Hq & Hlim).
    unfold select_bodyless_change_page, select_bodyless_change_candidates,
      require_admitted_order. rewrite Hlens. cbn [rbind sel_order with_after sel_after].
    rewrite (bool_decide_eq_true_2 (NoDup _)) by done. cbn [negb].
    rewrite (bool_decide_eq_true_2 (expected_projection_stamp c ≠ stamp)) by done.
    destruct Hord as [-> | ->]; rewrite ?(bool_decide_eq_false_2 (order ≠ order))
      by naive_solver; by eexists.
  - intros k Hst Hk Hne. unfold select_bodyless_change_page.
    rewrite (candidates_ok _ _ _ _ _ Hadm) by (intros ? [= <-]; done). cbn [rbind].
    pose proof Hadm as (_ & _ & _ & Hq & _). cbn [with_after sel_summary_query]. rewrite Hq.
    unfold paginate_bodyless_change_candidates. rewrite rows_keys by done. cbn [rbind].
    rewrite (proj2 (is_strictly_ordered_spec order _) (keys_sorted _ _ _ _ Hadm)).
    cbn [negb with_after sel_after mbind option_bind]. rewrite Hk.
    rewrite bool_decide_eq_true_2 by done. by eexists.
Qed.

(** *** Witnesses on a three-row list *)

Definition example_summary (id : string) (activity : option string) : ChangeSummaryV1 :=
  {| cs_change_id := id; cs_declaration_state := DAuthoritative; cs_title_assertions := [];
     cs_member_count := 1; cs_current_revision_refs := []; cs_topology := TInitial;
     cs_lifecycle := LInProgress; cs_attention_summary := "in_progress";
     cs_availability_summary := "available"; cs_diagnostics := [];
     cs_projection_stamp := "p"; cs_activity_at := activity; cs_attention_wait_at := None |}.

Definition example_summaries : list ChangeSummaryV1 :=
  [example_summary "a" (Some "unix-ms:5"); example_summary "b" None;
   example_summary "c" (Some "1970-01-01T00:00:01Z")].

Definition example_selection : DerivedChangePageSelectionV1 :=
  {| sel_limit := 2; sel_after := None; sel_summary_query := None; sel_topology := None;
     sel_lifecycle := None; sel_attention := None; sel_availability := None;
     sel_order := None |}.

Lemma example_admissible :
  admissible LensChanges example_summaries ActivityDesc example_selection.
Proof.
  split_and!; [refine (bool_decide_unpack _ _); vm_compute; exact I|done|by left|done|cbn; lia].
Qed.

Lemma paging_visits_all_witness :
  walk_pages 3 LensChanges example_summaries "p" ActivityDesc example_selection None =
  Ok [["c"; "a"]; ["b"]].
Proof.
  destruct (paging_visits_all LensChanges example_summaries "p" ActivityDesc
    example_selection example_admissible ltac:(done)) as (pages & H & _).
  change (length example_summaries) with 3 in H. rewrite H. vm_compute in H. by injection H as <-.
Defined.

Lemma page_boundaries_land_witness :
  ∃ w, window (page_window ["c"; "a"; "b"] (change_summary_order_key <$>
    selected_rows LensChanges example_summaries ActivityDesc example_selection)
    "p" 2 ActivityDesc 2) = Some w ∧ win_previous w ≠ None.
Proof.
  destruct (page_boundaries_land LensChanges example_summaries "p" ActivityDesc
    example_selection 2 example_admissible ltac:(vm_compute; lia)) as (w & Hw & Hp & _).
  exists w. split; [exact Hw|]. apply Hp. lia.
Defined.

Lemma foreign_continuation_rejected_witness :
  ∃ m, select_bodyless_change_page LensChanges example_summaries "p"
    (Bounded (with_after example_selection (Some {| expected_projection_stamp := "q";
      boundary := page_one |}))) ActivityDesc = Err (Message m).
Proof.
  apply (foreign_continuation_rejected LensChanges example_summaries "p" ActivityDesc
    example_selection {| expected_projection_stamp := "q"; boundary := page_one |}
    example_admissible). done.
Defined.
