(* ===== verification/Acknowledgement.v ===== *)
(** * Write acknowledgements ([src/src/session/acknowledgement.rs])

    What one completed write reports, and the aggregate of the reports of a
    multi-event operation.  [expect] is modelled as [None]: the aggregate's
    theorems show it is never reached from the constructors. *)

From S2P Require Import Prelude.

#[local] Open Scope Z_scope.

(** [ProjectionDiagnostic] of [session/projection/state.rs]. *)
Record ProjectionDiagnostic := { pd_code : string; pd_message : string }.

(** [EventWriteOutcome] of [session/store/event_store.rs]. *)
Inductive EventWriteOutcome := Created | Existing | ExistingDivergentSignature.

Definition EventWriteOutcome_as_str (o : EventWriteOutcome) : string :=
  match o with
  | Created => "created"
  | Existing => "existing"
  | ExistingDivergentSignature => "existing_divergent_signature"
  end.

#[export] Instance EventWriteOutcome_eq_dec : EqDecision EventWriteOutcome.
Proof. solve_decision. Defined.

Inductive AuthorityWriteOutcomeV1 := ACreated | AExisting | AMixed | AUnchanged.

Definition from_counts (created existing : nat) : AuthorityWriteOutcomeV1 :=
  match (0 <? created)%nat, (0 <? existing)%nat with
  | true, false => ACreated
  | false, true => AExisting
  | true, true => AMixed
  | false, false => AUnchanged
  end.

Inductive DerivedWriteAvailabilityV1 := Off | Current | CatchingUp | Unavailable | NotObserved.

Record DerivedVisibilityTokenV1 := {
  generation_id : string;
  epoch : Z;
  head_sequence : Z
}.

Record DerivedWriteAcknowledgementV1 := {
  availability : DerivedWriteAvailabilityV1;
  token : option DerivedVisibilityTokenV1
}.

(** [matches!(availability, Current | CatchingUp)]. *)
Definition has_token (a : DerivedWriteAvailabilityV1) : bool :=
  match a with Current | CatchingUp => true | _ => false end.

Definition ack_off : DerivedWriteAcknowledgementV1 := {| availability := Off; token := None |}.
Definition ack_not_observed : DerivedWriteAcknowledgementV1 :=
  {| availability := NotObserved; token := None |}.
Definition ack_unavailable : DerivedWriteAcknowledgementV1 :=
  {| availability := Unavailable; token := None |}.
Definition ack_current (t : DerivedVisibilityTokenV1) : DerivedWriteAcknowledgementV1 :=
  {| availability := Current; token := Some t |}.
Definition ack_catching_up (t : DerivedVisibilityTokenV1) : DerivedWriteAcknowledgementV1 :=
  {| availability := CatchingUp; token := Some t |}.

Definition ack_new (a : DerivedWriteAvailabilityV1) (t : option DerivedVisibilityTokenV1)
    : Result string DerivedWriteAcknowledgementV1 :=
  if negb (Bool.eqb (has_token a) (bool_decide (is_Some t))) then
    Err "only current and catching_up require a derived token"
  else Ok {| availability := a; token := t |}.

Inductive LegacyProjectionStateV1 := Refreshed | RefreshFailed | NotAttempted.

Inductive OperationReceiptStateV1 := RRecorded | RExisting | RNotRecorded.

#[export] Instance OperationReceiptStateV1_eq_dec : EqDecision OperationReceiptStateV1.
Proof. solve_decision. Defined.

Record OperationReceiptAcknowledgementV1 := {
  receipt_state : OperationReceiptStateV1;
  receipt_id : option string
}.

Definition receipt_not_recorded : OperationReceiptAcknowledgementV1 :=
  {| receipt_state := RNotRecorded; receipt_id := None |}.

Definition receipt_new (state : OperationReceiptStateV1) (id : option string)
    : Result string OperationReceiptAcknowledgementV1 :=
  if negb (Bool.eqb (bool_decide (state ≠ RNotRecorded)) (bool_decide (is_Some id))) then
    Err "only recorded and existing require a receipt ID"
  else Ok {| receipt_state := state; receipt_id := id |}.

Record WriteAcknowledgementV1 := {
  authority_outcome : AuthorityWriteOutcomeV1;
  wa_derived : DerivedWriteAcknowledgementV1;
  legacy_projection_state : LegacyProjectionStateV1;
  operation_receipt : OperationReceiptAcknowledgementV1
}.

Definition wa_unchanged : WriteAcknowledgementV1 :=
  {| authority_outcome := AUnchanged; wa_derived := ack_not_observed;
     legacy_projection_state := NotAttempted; operation_receipt := receipt_not_recorded |}.

Record DerivedWriteAggregate := {
  derived : DerivedWriteAcknowledgementV1;
  diagnostics : list ProjectionDiagnostic;
  observed_token : option DerivedVisibilityTokenV1
}.

Definition aggregate_default : DerivedWriteAggregate :=
  {| derived := ack_not_observed; diagnostics := []; observed_token := None |}.

Definition rank (a : DerivedWriteAvailabilityV1) : Z :=
  match a with
  | NotObserved => 0
  | Off => 1
  | Current => 2
  | CatchingUp => 3
  | Unavailable => 4
  end.

(** [push_diagnostic]: at most one diagnostic per code, the first. *)
Definition push_diagnostic (ds : list ProjectionDiagnostic) (d : ProjectionDiagnostic)
    : list ProjectionDiagnostic :=
  if existsb (λ p, String.eqb (pd_code p) (pd_code d)) ds then ds else ds ++ [d].

Definition token_conflict_diagnostic : ProjectionDiagnostic :=
  {| pd_code := "derived_write_token_conflict";
     pd_message := "write observations refer to different derived generations or epochs" |}.

(** [previous.generation_id != token.generation_id || previous.epoch != token.epoch]. *)
Definition token_differs (previous t : DerivedVisibilityTokenV1) : bool :=
  negb (String.eqb (generation_id previous) (generation_id t))
  || negb (epoch previous =? epoch t).

Definition add (self : DerivedWriteAggregate) (d : DerivedWriteAcknowledgementV1)
    (ds : list ProjectionDiagnostic) : option DerivedWriteAggregate :=
  let diags := foldl push_diagnostic (diagnostics self) ds in
  let '(conflict, observed) :=
    match token d with
    | Some t =>
        match observed_token self with
        | Some previous =>
            if token_differs previous t then (true, observed_token self)
            else (false, Some {| generation_id := generation_id previous;
                                 epoch := epoch previous;
                                 head_sequence := Z.max (head_sequence previous)
                                                        (head_sequence t) |})
        | None => (false, Some t)
        end
    | None => (false, observed_token self)
    end in
  let '(avail, diags) :=
    if conflict : bool then (Unavailable, push_diagnostic diags token_conflict_diagnostic)
    else if rank (availability (derived self)) <? rank (availability d)
    then (availability d, diags)
    else (availability (derived self), diags) in
  let tok := if has_token avail then observed else None in
  match ack_new avail tok with
  | Ok ack => Some {| derived := ack; diagnostics := diags; observed_token := observed |}
  | Err _ => None
  end.

Record EventWriteAcknowledgement := {
  ewa_outcome : EventWriteOutcome;
  ewa_derived : DerivedWriteAcknowledgementV1;
  ewa_diagnostics : list ProjectionDiagnostic
}.

Definition ewa_new (outcome : EventWriteOutcome) (a : DerivedWriteAvailabilityV1)
    (t : option DerivedVisibilityTokenV1) (ds : list ProjectionDiagnostic)
    : option EventWriteAcknowledgement :=
  match ack_new a t with
  | Ok ack => Some {| ewa_outcome := outcome; ewa_derived := ack; ewa_diagnostics := ds |}
  | Err _ => None
  end.

Definition ewa_off (outcome : EventWriteOutcome) : option EventWriteAcknowledgement :=
  ewa_new outcome Off None [].

Definition record (self : DerivedWriteAggregate) (a : EventWriteAcknowledgement)
    : option (DerivedWriteAggregate * EventWriteOutcome) :=
  self' ← add self (ewa_derived a) (ewa_diagnostics a); Some (self', ewa_outcome a).

(** Returns the acknowledgement and the caller's diagnostics after the call. *)
Definition finish (self : DerivedWriteAggregate) (created existing : nat)
    (ds : list ProjectionDiagnostic) : WriteAcknowledgementV1 * list ProjectionDiagnostic :=
  ({| authority_outcome := from_counts created existing;
      wa_derived := derived self;
      legacy_projection_state := NotAttempted;
      operation_receipt := receipt_not_recorded |},
   foldl push_diagnostic ds (diagnostics self)).

(** ** Specification of the aggregate *)

(** What the constructors guarantee. *)
Definition ack_wf (a : DerivedWriteAcknowledgementV1) : Prop :=
  has_token (availability a) = bool_decide (is_Some (token a)).

(** The writes of one operation, recorded in turn. *)
Fixpoint record_all (self : DerivedWriteAggregate) (l : list EventWriteAcknowledgement)
    : option DerivedWriteAggregate :=
  match l with
  | [] => Some self
  | a :: l => '(self, _) ← record self a; record_all self l
  end.

Definition tokens (l : list EventWriteAcknowledgement) : list DerivedVisibilityTokenV1 :=
  omap (λ a, token (ewa_derived a)) l.

(** All tokens of the operation are of one generation and epoch. *)
Definition consistent (l : list EventWriteAcknowledgement) : bool :=
  match tokens l with
  | [] => true
  | t :: ts => forallb (λ t', negb (token_differs t t')) ts
  end.

Definition worse (a b : DerivedWriteAvailabilityV1) : DerivedWriteAvailabilityV1 :=
  if rank a <? rank b then b else a.

(** The availability of highest rank among the writes. *)
Definition worst (l : list EventWriteAcknowledgement) : DerivedWriteAvailabilityV1 :=
  foldl (λ a x, worse a (availability (ewa_derived x))) NotObserved l.

(** The token seen first, advanced over the tokens it is comparable with. *)
Definition merged_token (l : list EventWriteAcknowledgement)
    : option DerivedVisibilityTokenV1 :=
  match tokens l with
  | [] => None
  | t :: ts => Some {| generation_id := generation_id t; epoch := epoch t;
      head_sequence := foldl (λ h t', if token_differs t t' then h
                                      else Z.max h (head_sequence t'))
                             (head_sequence t) ts |}
  end.

Record aggregate_of (l : list EventWriteAcknowledgement) (agg : DerivedWriteAggregate)
    : Prop := {
  agg_observed : observed_token agg = merged_token l;
  agg_availability : availability (derived agg) =
    if consistent l then worst l else Unavailable;
  agg_token : token (derived agg) =
    if has_token (availability (derived agg)) then observed_token agg else None;
  agg_live : has_token (availability (derived agg)) = true → is_Some (observed_token agg);
  agg_conflict : consistent l = false →
    Exists (λ d, pd_code d = "derived_write_token_conflict") (diagnostics agg)
}.

Lemma push_diagnostic_keeps ds d x : x ∈ ds → x ∈ push_diagnostic ds d.
Proof. unfold push_diagnostic. case_match; set_solver. Qed.

Lemma push_diagnostics_keep ds ds' x : x ∈ ds → x ∈ foldl push_diagnostic ds ds'.
Proof.
  revert ds; induction ds' as [|d ds' IH]; intros ds Hx; cbn; [done|].
  by apply IH, push_diagnostic_keeps.
Qed.

Lemma push_diagnostic_code ds d :
  Exists (λ x, pd_code x = pd_code d) (push_diagnostic ds d).
Proof.
  unfold push_diagnostic. destruct (existsb _ ds) eqn:E.
  - apply existsb_exists in E as (x & Hx & He%String.eqb_eq).
    apply Exists_exists. exists x. by rewrite list_elem_of_In.
  - apply Exists_app. right. by constructor.
Qed.

Lemma worst_snoc l x : worst (l ++ [x]) = worse (worst l) (availability (ewa_derived x)).
Proof. unfold worst. by rewrite foldl_app. Qed.

Lemma tokens_snoc l x :
  tokens (l ++ [x]) = tokens l ++ match token (ewa_derived x) with Some t => [t] | None => [] end.
Proof.
  unfold tokens. rewrite omap_app. cbn. by destruct (token (ewa_derived x)).
Qed.

Lemma ack_new_ok a t :
  has_token a = bool_decide (is_Some t) → ack_new a t = Ok {| availability := a; token := t |}.
Proof. intros H. unfold ack_new. rewrite H, eqb_reflx. done. Qed.

(** Whether the next token conflicts with the merged one. *)
Lemma merged_conflict l t p :
  merged_token l = Some p →
  ∃ t0 ts, tokens l = t0 :: ts ∧ token_differs p t = token_differs t0 t ∧
    generation_id p = generation_id t0 ∧ epoch p = epoch t0.
Proof.
  unfold merged_token. destruct (tokens l) as [|t0 ts]; [done|]. intros [= <-].
  by exists t0, ts.
Qed.

Lemma worse_unavailable a : worse Unavailable a = Unavailable.
Proof. by destruct a. Qed.

Lemma has_token_worse a b : has_token (worse a b) = true → has_token a = true ∨ has_token b = true.
Proof. unfold worse. case_match; auto. Qed.

Lemma aggregate_observed_None l agg :
  aggregate_of l agg → observed_token agg = None → tokens l = [].
Proof.
  intros Ha H. rewrite (agg_observed _ _ Ha) in H. unfold merged_token in H.
  by destruct (tokens l).
Qed.

(** The tail of [add], once the observed token and the conflict are known. *)
Lemma aggregate_of_intro l x agg ds observed :
  aggregate_of l agg → ack_wf (ewa_derived x) →
  observed = merged_token (l ++ [x]) →
  consistent (l ++ [x]) = consistent l →
  (is_Some (observed_token agg) → is_Some observed) →
  (is_Some (token (ewa_derived x)) → is_Some observed) →
  (∀ d, d ∈ diagnostics agg → d ∈ ds) →
  let avail := worse (availability (derived agg)) (availability (ewa_derived x)) in
  ∃ agg', match ack_new avail (if has_token avail then observed else None) with
    | Ok ack => Some {| derived := ack; diagnostics := ds; observed_token := observed |}
    | Err _ => None
    end = Some agg' ∧ aggregate_of (l ++ [x]) agg'.
Proof.
  intros Ha Hwf Hobs Hcon Hmono Htok Hds avail.
  assert (has_token avail = true → is_Some observed) as Hlive.
  { intros [H|H]%has_token_worse; [by apply Hmono, (agg_live _ _ Ha)|].
    apply Htok. unfold ack_wf in Hwf. rewrite H in Hwf. symmetry in Hwf.
    by apply bool_decide_eq_true_1 in Hwf. }
  rewrite ack_new_ok.
  2:{ destruct (has_token avail); [|done]. symmetry. apply bool_decide_eq_true_2. auto. }
  eexists. split; [done|]. split; cbn; try done.
  - subst avail. rewrite (agg_availability _ _ Ha), Hcon.
    destruct (consistent l); [by rewrite worst_snoc|apply worse_unavailable].
  - rewrite Hcon. intros Hc. pose proof (agg_conflict _ _ Ha Hc) as He.
    apply Exists_exists in He as (d & Hd & Hcode). apply Exists_exists. eauto.
Qed.

Lemma add_preserves l agg x :
  aggregate_of l agg → ack_wf (ewa_derived x) →
  ∃ agg', add agg (ewa_derived x) (ewa_diagnostics x) = Some agg' ∧
    aggregate_of (l ++ [x]) agg'.
Proof.
  intros Ha Hwf. unfold add.
  set (ds := foldl push_diagnostic (diagnostics agg) (ewa_diagnostics x)).
  assert (∀ d, d ∈ diagnostics agg → d ∈ ds) as Hds by (intros; by apply push_diagnostics_keep).
  fold (worse (availability (derived agg)) (availability (ewa_derived x))).
  assert (∀ (b : bool) (u v : DerivedWriteAvailabilityV1), (if b then (u, ds) else (v, ds)) =
    ((if b then u else v), ds)) as Hpair by (by intros []).
  pose proof (tokens_snoc l x) as Hts.
  destruct (token (ewa_derived x)) as [t|] eqn:Et.
  - destruct (observed_token agg) as [p|] eqn:Ep.
    + pose proof Ep as Ep'. rewrite (agg_observed _ _ Ha) in Ep'.
      destruct (merged_conflict l t p Ep') as (t0 & ts & Hl & Hdiff & Hg & He).
      assert (consistent (l ++ [x]) = consistent l && negb (token_differs p t)) as Hcon.
      { unfold consistent. rewrite Hts, Hl. cbn. rewrite forallb_app. cbn. by rewrite Hdiff, andb_true_r. }
      destruct (token_differs p t) eqn:Ed.
      * rewrite andb_false_r in Hcon. cbn. eexists. split; [done|]. split; cbn; try done.
        -- rewrite <- Ep'. unfold merged_token. rewrite Hts, Hl. cbn.
           by rewrite foldl_app; cbn; rewrite <- Hdiff.
        -- by rewrite Hcon.
        -- intros _. exact (push_diagnostic_code ds token_conflict_diagnostic).
      * rewrite andb_true_r in Hcon. rewrite Hpair.
        apply (aggregate_of_intro l x agg ds); try done.
        unfold merged_token in *. rewrite Hts. rewrite Hl in Ep' |- *. cbn.
        injection Ep' as <-. cbn in *. rewrite foldl_app. cbn. by rewrite <- Hdiff.
    + pose proof (aggregate_observed_None _ _ Ha Ep) as Hl. rewrite Hpair.
      apply (aggregate_of_intro l x agg ds); try done.
      * unfold merged_token. rewrite Hts, Hl. cbn. by destruct t.
      * unfold consistent. by rewrite Hts, Hl.
  - rewrite app_nil_r in Hts. rewrite Hpair.
    apply (aggregate_of_intro l x agg ds); try done.
    + rewrite (agg_observed _ _ Ha). unfold merged_token. by rewrite Hts.
    + unfold consistent. by rewrite Hts.
    + intros Hs. rewrite Et in Hs. by destruct Hs.
Qed.

Lemma record_all_preserves l0 agg l :
  aggregate_of l0 agg → Forall (λ x, ack_wf (ewa_derived x)) l →
  ∃ agg', record_all agg l = Some agg' ∧ aggregate_of (l0 ++ l) agg'.
Proof.
  intros Ha Hl. revert l0 agg Ha. induction Hl as [|x l Hx Hl IH]; intros l0 agg Ha; cbn.
  { exists agg. by rewrite app_nil_r. }
  destruct (add_preserves l0 agg x Ha Hx) as (agg' & Hadd & Ha').
  unfold record. rewrite Hadd. cbn. destruct (IH _ _ Ha') as (agg'' & ? & H).
  exists agg''. by rewrite <- app_assoc in H.
Qed.

(** Recording any sequence of acknowledgements built by the constructors never
    reaches the [expect] in [add].  When all tokens are of one generation and
    epoch, the aggregate reports the availability of highest rank and the
    token advanced to the largest head sequence; otherwise it reports
    [Unavailable], without a token, and carries the conflict diagnostic. *)
Theorem aggregate_correct (l : list EventWriteAcknowledgement) :
  Forall (λ x, ack_wf (ewa_derived x)) l →
  ∃ agg, record_all aggregate_default l = Some agg ∧
    availability (derived agg) = (if consistent l then worst l else Unavailable) ∧
    token (derived agg) =
      (if has_token (availability (derived agg)) then merged_token l else None) ∧
    ack_wf (derived agg) ∧
    (consistent l = false →
      Exists (λ d, pd_code d = "derived_write_token_conflict") (diagnostics agg)).
Proof.
  intros Hl. assert (aggregate_of [] aggregate_default) as H0 by by split.
  destruct (record_all_preserves [] _ l H0 Hl) as (agg & Hr & Ha). cbn [app] in Ha.
  exists agg. split_and!; [done|apply Ha| |..|apply Ha].
  - rewrite (agg_token _ _ Ha). by rewrite (agg_observed _ _ Ha).
  - unfold ack_wf. rewrite (agg_token _ _ Ha).
    destruct (has_token _) eqn:E; [|done]. symmetry.
    by apply bool_decide_eq_true_2, (agg_live _ _ Ha).
Qed.

Definition example_token (h : Z) : DerivedVisibilityTokenV1 :=
  {| generation_id := "g"; epoch := 1; head_sequence := h |}.

Definition example_ack (d : DerivedWriteAcknowledgementV1) : EventWriteAcknowledgement :=
  {| ewa_outcome := Created; ewa_derived := d; ewa_diagnostics := [] |}.

Lemma aggregate_correct_witness :
  ∃ agg, record_all aggregate_default
    [example_ack (ack_current (example_token 7));
     example_ack (ack_catching_up (example_token 4))] = Some agg ∧
    availability (derived agg) = CatchingUp ∧
    token (derived agg) = Some (example_token 7).
Proof.
  destruct (aggregate_correct
    [example_ack (ack_current (example_token 7));
     example_ack (ack_catching_up (example_token 4))]) as (agg & H & Ha & Ht & _).
  { by repeat constructor. }
  exists agg. rewrite Ha in Ht. split; [exact H|]. split; [exact Ha|exact Ht].
Defined.
