(* ===== verification/GitRaw.v ===== *)
(** * [git diff --raw -z] output ([src/src/git/raw.rs], [src/src/model/file.rs])

    The parser of the NUL-separated raw diff and the reference printer it inverts. *)

From S2P Require Import Prelude RustStr.

(** ** Definitions *)

Inductive FileStatus := Modified | Added | Deleted | Renamed | Copied.

#[export] Instance FileStatus_eq_dec : EqDecision FileStatus.
Proof. solve_decision. Defined.

Record RawFile := {
  rf_status : FileStatus;
  rf_type_change : bool;
  rf_old_mode : option string;
  rf_new_mode : option string;
  rf_old_oid : option string;
  rf_new_oid : option string;
  rf_similarity : option Z;
  rf_old_path : option string;
  rf_new_path : option string
}.

(** [expect] on the path is a panic. *)
Definition RawFile_key (f : RawFile) : result string :=
  match rf_new_path f with
  | Some p => Ok p
  | None => ok_or (rf_old_path f) (Panicked "raw file has at least one path")
  end.

Definition is_submodule (f : RawFile) : bool :=
  bool_decide (rf_old_mode f = Some "160000") || bool_decide (rf_new_mode f = Some "160000").

Definition has_mode_change (f : RawFile) : bool :=
  bool_decide (rf_status f = Modified)
  && bool_decide (rf_old_mode f ≠ rf_new_mode f)
  && negb (is_submodule f).

Record RawHeader := {
  rh_old_mode : string;
  rh_new_mode : string;
  rh_old_oid : string;
  rh_new_oid : string;
  rh_status : FileStatus;
  rh_type_change : bool;
  rh_similarity : option Z
}.

Definition u16_max : Z := 65535.

(** The first character of the status field; every accepted one is ASCII. *)
Definition status_of_char (c : ascii) : option FileStatus :=
  if Ascii.eqb c "M" then Some Modified
  else if Ascii.eqb c "A" then Some Added
  else if Ascii.eqb c "D" then Some Deleted
  else if Ascii.eqb c "R" then Some Renamed
  else if Ascii.eqb c "C" then Some Copied
  else if Ascii.eqb c "T" then Some Modified
  else None.

Definition parse_header (header : string) : result RawHeader :=
  match split_whitespace header with
  | [old_mode; new_mode; old_oid; new_oid; status] =>
      let? file_status :=
        match status with
        | EmptyString => Err (Message ("unsupported raw status " +:+ status))
        | String c _ =>
            ok_or (status_of_char c) (Message ("unsupported raw status " +:+ status))
        end in
      let score := str_drop 1 status in
      let? similarity :=
        if is_empty score then Ok None
        else
          let? n := map_err (λ e, Message ("invalid similarity " +:+ score +:+ ": " +:+
                                           int_error_display e))
                      (parse_unsigned u16_max score) in
          Ok (Some n) in
      Ok {| rh_old_mode := trim_start_matches ":" old_mode;
            rh_new_mode := new_mode;
            rh_old_oid := old_oid;
            rh_new_oid := new_oid;
            rh_status := file_status;
            rh_type_change := starts_with "T" status;
            rh_similarity := similarity |}
  | parts =>
      Err (Message ("expected 5 raw header fields, got " +:+ dec (Z.of_nat (length parts)) +:+
                    " in " +:+ header))
  end.

Definition mode (m : string) : option string :=
  if String.eqb m "000000" then None else Some m.

Definition oid (o : string) : option string :=
  if all_bytes (Ascii.eqb "0") o then None else Some o.

Definition raw_file_of (h : RawHeader) (path : string) (second_path : option string) : RawFile :=
  let '(old_path, new_path) :=
    match rh_status h with
    | Modified => (Some path, Some path)
    | Added => (None, Some path)
    | Deleted => (Some path, None)
    | Renamed | Copied => (Some path, second_path)
    end in
  {| rf_status := rh_status h;
     rf_type_change := rh_type_change h;
     rf_old_mode := mode (rh_old_mode h);
     rf_new_mode := mode (rh_new_mode h);
     rf_old_oid := oid (rh_old_oid h);
     rf_new_oid := oid (rh_new_oid h);
     rf_similarity := rh_similarity h;
     rf_old_path := old_path;
     rf_new_path := new_path |}.

Definition has_second_path (s : FileStatus) : bool :=
  match s with Renamed | Copied => true | _ => false end.

(** The [while] loop of [parse_raw]: [fields] is the part not yet consumed. *)
Fixpoint parse_raw_fields (fields : list string) : result (list RawFile) :=
  match fields with
  | [] => Ok []
  | header :: fields =>
      let? parsed_header := parse_header header in
      match fields with
      | [] => Err (Message ("missing path for raw header " +:+ header))
      | path :: fields =>
          if has_second_path (rh_status parsed_header) then
            match fields with
            | [] => Err (Message ("missing second path for raw header " +:+ header))
            | second_path :: fields =>
                let? files := parse_raw_fields fields in
                Ok (raw_file_of parsed_header path (Some second_path) :: files)
            end
          else
            let? files := parse_raw_fields fields in
            Ok (raw_file_of parsed_header path None :: files)
      end
  end.

Definition raw_field (field : string) : result string :=
  map_err (λ e, Message ("git raw output is not utf-8: " +:+ utf8_error_display e))
    (from_utf8 field).

Definition parse_raw (raw : string) : result (list RawFile) :=
  let? fields := mapM raw_field
    (filter (λ f, is_empty f = false) (split_char "000" raw)) in
  parse_raw_fields fields.

(** ** What the parser guarantees *)

(** The shape of an entry, by its status. *)
Definition raw_wf (f : RawFile) : Prop :=
  match rf_status f with
  | Modified => is_Some (rf_old_path f) ∧ rf_new_path f = rf_old_path f
  | Added => rf_old_path f = None ∧ is_Some (rf_new_path f)
  | Deleted => is_Some (rf_old_path f) ∧ rf_new_path f = None
  | Renamed | Copied => is_Some (rf_old_path f) ∧ is_Some (rf_new_path f)
  end.

Lemma raw_file_of_wf h p s :
  (has_second_path (rh_status h) = true → is_Some s) → raw_wf (raw_file_of h p s).
Proof. unfold raw_wf, raw_file_of. destruct (rh_status h); cbn; naive_solver. Qed.

(** Induction over the fields an iteration consumes. *)
Lemma raw_fields_ind (P : list string → Prop) :
  P [] → (∀ h, P [h]) → (∀ h p l, P l → (∀ s l', l = s :: l' → P l') → P (h :: p :: l)) →
  ∀ l, P l.
Proof.
  intros H0 H1 H2.
  assert (∀ n l, length l ≤ n → P l) as Hn.
  { intros n; induction n as [|n IH]; intros [|h [|p l]] Hl; cbn in Hl; try done; try lia.
    apply H2; [apply IH; lia|]. intros s l' ->. apply IH. cbn in Hl. lia. }
  intros l. by apply (Hn (length l)).
Qed.

Lemma parse_raw_fields_wf fields files :
  parse_raw_fields fields = Ok files → Forall raw_wf files.
Proof.
  revert files. induction fields as [|h|h p l IHl IHs] using raw_fields_ind; intros files.
  - cbn. intros [= <-]. constructor.
  - cbn. intros (hd & _ & ?)%bind_Ok. done.
  - cbn [parse_raw_fields]. intros (hd & _ & Hf)%bind_Ok.
    destruct (has_second_path (rh_status hd)) eqn:Hs.
    + destruct l as [|s l]; [done|]. apply bind_Ok in Hf as (fs & Hfs & [= <-]).
      constructor; [by apply raw_file_of_wf|]. by eapply IHs.
    + apply bind_Ok in Hf as (fs & Hfs & [= <-]). constructor; [|by apply IHl].
      apply raw_file_of_wf. by rewrite Hs.
Qed.

Lemma raw_wf_key f : raw_wf f → ∃ k, RawFile_key f = Ok k ∧
  (rf_new_path f = Some k ∨ rf_new_path f = None ∧ rf_old_path f = Some k).
Proof.
  unfold raw_wf, RawFile_key.
  destruct (rf_status f), (rf_old_path f) as [o|], (rf_new_path f) as [n|]; cbn; intros H;
    try (by exists n; auto); try (by exists o; auto);
    destruct_and?; simplify_eq; by repeat match goal with H : is_Some None |- _ => destruct H end.
Qed.

(** ** The printer the parser inverts *)

Definition status_char (f : RawFile) : string :=
  if rf_type_change f then "T" else
  match rf_status f with
  | Modified => "M" | Added => "A" | Deleted => "D" | Renamed => "R" | Copied => "C"
  end.

Definition zero_oid : string := "0000000000000000000000000000000000000000".

Definition print_raw_header (f : RawFile) : string :=
  ":" +:+ default "000000" (rf_old_mode f) +:+ " " +:+ default "000000" (rf_new_mode f)
  +:+ " " +:+ default zero_oid (rf_old_oid f) +:+ " " +:+ default zero_oid (rf_new_oid f)
  +:+ " " +:+ status_char f +:+
  match rf_similarity f with Some n => dec_nonneg n | None => EmptyString end.

Definition print_raw_fields (f : RawFile) : list string :=
  print_raw_header f ::
  match rf_old_path f, rf_new_path f with
  | Some o, Some n => if has_second_path (rf_status f) then [o; n] else [n]
  | Some o, None => [o]
  | None, Some n => [n]
  | None, None => []
  end.

(** Fields terminated by NUL, as [git diff --raw -z] prints them. *)
Definition print_raw (files : list RawFile) : string :=
  foldr (λ f acc, f +:+ String "000" acc) EmptyString (files ≫= print_raw_fields).

(** A header field: non-empty, lower-case hexadecimal digits. *)
Definition plain_field (s : string) : bool :=
  negb (is_empty s) &&
  all_bytes (λ c, is_ascii_digit c || in_range 97 102 c) s.

Definition plain_path (s : string) : bool :=
  negb (is_empty s) && negb (contains_char "000" s) && is_ok (from_utf8 s).

(** Entries as git reports them. *)
Record raw_printable (f : RawFile) : Prop := {
  rp_wf : raw_wf f;
  rp_old_mode : ∀ m, rf_old_mode f = Some m → plain_field m = true ∧ m ≠ "000000";
  rp_new_mode : ∀ m, rf_new_mode f = Some m → plain_field m = true ∧ m ≠ "000000";
  rp_old_oid : ∀ o, rf_old_oid f = Some o → plain_field o = true ∧ oid o = Some o;
  rp_new_oid : ∀ o, rf_new_oid f = Some o → plain_field o = true ∧ oid o = Some o;
  rp_similarity : ∀ n, rf_similarity f = Some n → (0 ≤ n ≤ u16_max)%Z;
  rp_type_change : rf_type_change f = true → rf_status f = Modified;
  rp_old_path : ∀ p, rf_old_path f = Some p → plain_path p = true;
  rp_new_path : ∀ p, rf_new_path f = Some p → plain_path p = true
}.

Lemma plain_field_graph s : plain_field s = true → all_bytes is_graph s = true ∧ s ≠ EmptyString.
Proof.
  unfold plain_field. intros [He Ha]%andb_true_iff. split; [|by intros ->].
  eapply all_bytes_impl; [|exact Ha]. intros c. unfold is_graph, is_ascii_digit, in_range.
  rewrite orb_true_iff, !andb_true_iff. lia.
Qed.

Lemma plain_field_colon s : plain_field s = true → trim_start_matches ":" (":" +:+ s) = s.
Proof.
  intros H. destruct s as [|c s]; [done|].
  cbn [trim_start_matches String.append]. rewrite Ascii.eqb_refl.
  destruct (Ascii.eqb_spec ":" c) as [<-|]; [by vm_compute in H|done].
Qed.

Lemma graph_colon s : all_bytes is_graph s = true → all_bytes is_graph (":" +:+ s) = true.
Proof. done. Qed.

Lemma default_plain (o : option string) d :
  plain_field d = true → (∀ m, o = Some m → plain_field m = true) →
  plain_field (default d o) = true.
Proof. destruct o; cbn; auto. Qed.

Section header.
Context (f : RawFile) (Hp : raw_printable f).

Abbreviation om := (default "000000" (rf_old_mode f)).
Abbreviation nm := (default "000000" (rf_new_mode f)).
Abbreviation oo := (default zero_oid (rf_old_oid f)).
Abbreviation no := (default zero_oid (rf_new_oid f)).
Abbreviation score :=
  (match rf_similarity f with Some n => dec_nonneg n | None => EmptyString end).

Lemma header_fields_plain :
  plain_field om = true ∧ plain_field nm = true ∧ plain_field oo = true ∧ plain_field no = true.
Proof.
  split_and!; apply default_plain; try done; intros m Hm; by apply Hp in Hm as [? _].
Qed.

Lemma status_char_graph : all_bytes is_graph (status_char f) = true.
Proof. unfold status_char. by destruct (rf_type_change f), (rf_status f). Qed.

Lemma score_graph : all_bytes is_graph score = true.
Proof.
  destruct (rf_similarity f) as [n|] eqn:E; [|done].
  eapply all_bytes_impl; [apply is_ascii_digit_graph|]. apply dec_nonneg_digits.
  apply (rp_similarity _ Hp) in E. lia.
Qed.

Lemma split_print_header :
  split_whitespace (print_raw_header f) = [":" +:+ om; nm; oo; no; status_char f +:+ score].
Proof.
  destruct header_fields_plain as (H1 & H2 & H3 & H4).
  apply plain_field_graph in H1 as [H1 _], H2 as [H2 N2], H3 as [H3 N3], H4 as [H4 N4].
  unfold print_raw_header. rewrite <- append_assoc.
  change (" " +:+ ?x) with (String " " x).
  change (split_whitespace ((":" +:+ om) +:+ String " " (nm +:+ String " " (oo +:+
    String " " (no +:+ String " " (status_char f +:+ score))))) =
    [":" +:+ om; nm; oo; no; status_char f +:+ score]).
  rewrite split_whitespace_word by (done || by apply graph_colon).
  rewrite !split_whitespace_word by done.
  rewrite split_whitespace_last; [done| |].
  - by rewrite all_bytes_append, status_char_graph, score_graph.
  - unfold status_char. by destruct (rf_type_change f), (rf_status f).
Qed.

Lemma parse_print_header :
  parse_header (print_raw_header f) =
  Ok {| rh_old_mode := om; rh_new_mode := nm; rh_old_oid := oo; rh_new_oid := no;
        rh_status := rf_status f; rh_type_change := rf_type_change f;
        rh_similarity := rf_similarity f |}.
Proof.
  unfold parse_header. rewrite split_print_header.
  destruct header_fields_plain as (H1 & _). rewrite plain_field_colon by done.
  assert (∃ c, status_char f = String c EmptyString ∧ status_of_char c = Some (rf_status f) ∧
    Ascii.eqb "T" c = rf_type_change f) as (c & -> & Hc & HT).
  { unfold status_char. destruct (rf_type_change f) eqn:E.
    - eexists. split; [done|]. by rewrite (rp_type_change _ Hp E).
    - destruct (rf_status f); eexists; by split. }
  cbn [String.append]. rewrite Hc. cbn [ok_or rbind str_drop].
  replace (starts_with "T" (String c score)) with (rf_type_change f).
  2:{ unfold starts_with. cbn [strip_prefix]. rewrite HT. by destruct (rf_type_change f). }
  destruct (rf_similarity f) as [n|] eqn:E; [|done].
  destruct (is_empty (dec_nonneg n)) eqn:Hd.
  { pose proof (dec_nonneg_nonempty n). by destruct (dec_nonneg n). }
  rewrite parse_unsigned_dec by (by apply (rp_similarity _ Hp)). done.
Qed.

Lemma mode_default (o : option string) :
  (∀ m, o = Some m → m ≠ "000000") → mode (default "000000" o) = o.
Proof.
  intros H. destruct o as [m|]; [|done]. cbn. unfold mode.
  destruct (String.eqb_spec m "000000"); [|done]. naive_solver.
Qed.

Lemma oid_default (o : option string) :
  (∀ m, o = Some m → oid m = Some m) → oid (default zero_oid o) = o.
Proof. destruct o as [m|]; cbn; [auto|done]. Qed.

Lemma parse_print_fields rest :
  parse_raw_fields (print_raw_fields f ++ rest) =
  (let? files := parse_raw_fields rest in Ok (f :: files)).
Proof.
  unfold print_raw_fields. cbn [app parse_raw_fields]. rewrite parse_print_header.
  cbn [rbind rh_status].
  assert (∀ p s, match rf_status f with
      | Modified => rf_old_path f = Some p ∧ rf_new_path f = Some p
      | Added => rf_old_path f = None ∧ rf_new_path f = Some p
      | Deleted => rf_old_path f = Some p ∧ rf_new_path f = None
      | Renamed | Copied => rf_old_path f = Some p ∧ rf_new_path f = s
      end → raw_file_of {| rh_old_mode := om; rh_new_mode := nm; rh_old_oid := oo;
        rh_new_oid := no; rh_status := rf_status f; rh_type_change := rf_type_change f;
        rh_similarity := rf_similarity f |} p s = f) as Hof.
  { intros p s Hs. unfold raw_file_of. cbn.
    rewrite !mode_default, !oid_default by (intros m Hm; by apply Hp in Hm as [_ ?]).
    destruct f as [st ? ? ? ? ? ? op np]; cbn in *. destruct st, Hs as [-> ->]; done. }
  pose proof (rp_wf _ Hp) as Hwf. unfold raw_wf in Hwf.
  destruct (rf_status f) eqn:Es, Hwf as [Ho Hn]; cbn [has_second_path] in *;
    repeat match goal with H : is_Some _ |- _ => destruct H as [? H] end;
    rewrite ?Ho, ?Hn in *; cbn [app]; try rewrite Ho; cbn [app];
    (erewrite Hof; [done|]); by rewrite ?Ho, ?Hn.
Qed.
End header.

(** The fields git prints are non-empty, NUL-free and valid UTF-8. *)
Definition field_ok (s : string) : Prop :=
  s ≠ EmptyString ∧ contains_char "000" s = false ∧ raw_field s = Ok s.

Lemma graph_field_ok s : all_bytes is_graph s = true → s ≠ EmptyString → field_ok s.
Proof.
  intros Hg Hne. split_and!; [done| |].
  - by eapply all_bytes_contains; [exact Hg|].
  - unfold raw_field. rewrite from_utf8_ascii; [done|].
    eapply all_bytes_impl; [|exact Hg]. intros c. unfold is_graph, in_range.
    rewrite !andb_true_iff. lia.
Qed.

Lemma plain_path_ok s : plain_path s = true → field_ok s.
Proof.
  unfold plain_path. intros [[He Hc%negb_true_iff]%andb_true_iff Hu]%andb_true_iff.
  split_and!; [by intros ->|done|]. unfold raw_field.
  destruct (from_utf8 s) as [t|] eqn:E; [|done]. cbn. unfold from_utf8 in E.
  destruct (utf8_scan 0 0 s); cbn in E; [|done]. by injection E as ->.
Qed.

Lemma split_fields (l : list string) :
  Forall field_ok l →
  mapM raw_field (filter (λ f, is_empty f = false)
    (split_char "000" (foldr (λ f acc, f +:+ String "000" acc) EmptyString l))) = Ok l.
Proof.
  induction 1 as [|s l (Hne & Hc & Hu) _ IH]; [done|]. cbn [foldr].
  rewrite split_char_append by done. rewrite filter_cons_True by (by destruct s).
  apply mapM_Ok. apply mapM_Ok in IH. by constructor.
Qed.

Lemma print_raw_header_ok f : raw_printable f → field_ok (print_raw_header f).
Proof.
  intros Hp. destruct (header_fields_plain f Hp) as (H1 & H2 & H3 & H4).
  apply plain_field_graph in H1 as [H1 _], H2 as [H2 _], H3 as [H3 _], H4 as [H4 _].
  assert (all_bytes (λ c, is_graph c || Ascii.eqb c " ") (print_raw_header f) = true) as Ha.
  { assert (∀ s, all_bytes is_graph s = true →
      all_bytes (λ c, is_graph c || Ascii.eqb c " ") s = true) as Hg.
    { intros s. apply all_bytes_impl. intros c Hc. by rewrite Hc. }
    unfold print_raw_header. rewrite !all_bytes_append.
    rewrite (Hg _ H1), (Hg _ H2), (Hg _ H3), (Hg _ H4), (Hg _ (status_char_graph f)),
      (Hg _ (score_graph f Hp)). done. }
  split_and!; [done| |].
  - by eapply all_bytes_contains; [exact Ha|].
  - unfold raw_field. rewrite from_utf8_ascii; [done|].
    eapply all_bytes_impl; [|exact Ha]. intros c. unfold is_graph, in_range.
    rewrite orb_true_iff, Ascii.eqb_eq, !andb_true_iff. intros [H|H]; [lia|by subst].
Qed.

(** Reading back the raw diff of any list of entries, printed the way
    [git diff --raw -z] prints them, gives those entries: modes, object ids,
    similarity, type changes and both paths of renames and copies. *)
Theorem parse_raw_print_raw (files : list RawFile) :
  Forall raw_printable files → parse_raw (print_raw files) = Ok files.
Proof.
  intros Hf. unfold parse_raw, print_raw. rewrite split_fields.
  - cbn [rbind]. induction Hf as [|f files Hp Hf IH]; [done|]. cbn [mbind list_bind].
    rewrite parse_print_fields by done. by rewrite IH.
  - apply Forall_bind. eapply Forall_impl; [exact Hf|]. intros f Hp. cbn.
    unfold print_raw_fields. constructor; [by apply print_raw_header_ok|].
    pose proof (rp_old_path _ Hp) as Ho. pose proof (rp_new_path _ Hp) as Hn.
    destruct (rf_old_path f) as [o|], (rf_new_path f) as [n|]; try case_match;
      repeat constructor; apply plain_path_ok; auto.
Qed.

(** Every entry the raw parser returns has the paths its status calls for, so
    taking the key of a parsed entry never panics, and the key is the new path,
    or the old path of a deletion. *)
Lemma parse_raw_entries_keyed raw files :
  parse_raw raw = Ok files →
  Forall (λ f, raw_wf f ∧ ∃ k, RawFile_key f = Ok k ∧
    (rf_new_path f = Some k ∨ rf_new_path f = None ∧ rf_old_path f = Some k)) files.
Proof.
  unfold parse_raw. intros (fields & _ & Hf%parse_raw_fields_wf)%bind_Ok.
  eapply Forall_impl; [exact Hf|]. intros f Hw. split; [done|by apply raw_wf_key].
Qed.

Definition example_raw : list RawFile :=
  [{| rf_status := Renamed; rf_type_change := false; rf_old_mode := Some "100644";
      rf_new_mode := Some "100755"; rf_old_oid := Some "12ab"; rf_new_oid := None;
      rf_similarity := Some 87%Z; rf_old_path := Some "a b.txt"; rf_new_path := Some "c" |};
   {| rf_status := Modified; rf_type_change := true; rf_old_mode := Some "100644";
      rf_new_mode := Some "120000"; rf_old_oid := Some "12ab"; rf_new_oid := Some "1";
      rf_similarity := None; rf_old_path := Some "x"; rf_new_path := Some "x" |}].

Lemma example_raw_printable : Forall raw_printable example_raw.
Proof.
  apply Forall_cons; split; [|apply Forall_cons; split; [|done]];
    (split; cbn; try (intros ? [= <-]); try done; try (unfold u16_max; lia);
     by split_and!; try eexists).
Qed.

Lemma parse_raw_print_raw_witness : parse_raw (print_raw example_raw) = Ok example_raw.
Proof. exact (parse_raw_print_raw example_raw example_raw_printable). Defined.

Lemma parse_raw_entries_keyed_witness :
  Forall (λ f, raw_wf f ∧ ∃ k, RawFile_key f = Ok k ∧
    (rf_new_path f = Some k ∨ rf_new_path f = None ∧ rf_old_path f = Some k)) example_raw.
Proof.
  refine (parse_raw_entries_keyed (print_raw example_raw) example_raw _).
  vm_compute. reflexivity.
Defined.
