(* ===== verification/GitPatch.v ===== *)
(** * Unified diffs ([src/src/git/patch.rs], [src/src/model/row.rs],
      [src/src/model/hunk.rs])

    The line-by-line parser of [git diff --patch] output as a state machine over
    lines, and the reference printer it inverts.  Line numbers are [u32] and wrap. *)

From S2P Require Import Prelude RustStr.

(** ** Data *)

Inductive DiffRowKind := RContext | RAdded | RRemoved.

#[export] Instance DiffRowKind_eq_dec : EqDecision DiffRowKind.
Proof. solve_decision. Defined.

Record DiffRow := {
  row_kind : DiffRowKind;
  row_old_line : option Z;
  row_new_line : option Z;
  row_text : string
}.

Record ReviewHunk := {
  hunk_id : string;
  hunk_header : string;
  hunk_old_start : Z;
  hunk_old_lines : Z;
  hunk_new_start : Z;
  hunk_new_lines : Z;
  hunk_rows : list DiffRow
}.

Record PatchFile := {
  pf_old_path : option string;
  pf_new_path : option string;
  pf_old_mode : option string;
  pf_new_mode : option string;
  pf_similarity : option Z;
  pf_is_binary : bool;
  pf_hunks : list ReviewHunk
}.

Definition PatchFile_key (f : PatchFile) : result string :=
  match pf_new_path f with
  | Some p => Ok p
  | None => ok_or (pf_old_path f) (Panicked "patch file has at least one path")
  end.

Definition set_old_path (p : option string) (f : PatchFile) : PatchFile :=
  {| pf_old_path := p; pf_new_path := pf_new_path f; pf_old_mode := pf_old_mode f;
     pf_new_mode := pf_new_mode f; pf_similarity := pf_similarity f;
     pf_is_binary := pf_is_binary f; pf_hunks := pf_hunks f |}.
Definition set_new_path (p : option string) (f : PatchFile) : PatchFile :=
  {| pf_old_path := pf_old_path f; pf_new_path := p; pf_old_mode := pf_old_mode f;
     pf_new_mode := pf_new_mode f; pf_similarity := pf_similarity f;
     pf_is_binary := pf_is_binary f; pf_hunks := pf_hunks f |}.
Definition set_old_mode (m : option string) (f : PatchFile) : PatchFile :=
  {| pf_old_path := pf_old_path f; pf_new_path := pf_new_path f; pf_old_mode := m;
     pf_new_mode := pf_new_mode f; pf_similarity := pf_similarity f;
     pf_is_binary := pf_is_binary f; pf_hunks := pf_hunks f |}.
Definition set_new_mode (m : option string) (f : PatchFile) : PatchFile :=
  {| pf_old_path := pf_old_path f; pf_new_path := pf_new_path f;
     pf_old_mode := pf_old_mode f; pf_new_mode := m; pf_similarity := pf_similarity f;
     pf_is_binary := pf_is_binary f; pf_hunks := pf_hunks f |}.
Definition set_similarity (n : option Z) (f : PatchFile) : PatchFile :=
  {| pf_old_path := pf_old_path f; pf_new_path := pf_new_path f;
     pf_old_mode := pf_old_mode f; pf_new_mode := pf_new_mode f; pf_similarity := n;
     pf_is_binary := pf_is_binary f; pf_hunks := pf_hunks f |}.
Definition set_binary (b : bool) (f : PatchFile) : PatchFile :=
  {| pf_old_path := pf_old_path f; pf_new_path := pf_new_path f;
     pf_old_mode := pf_old_mode f; pf_new_mode := pf_new_mode f;
     pf_similarity := pf_similarity f; pf_is_binary := b; pf_hunks := pf_hunks f |}.
Definition set_hunks (hs : list ReviewHunk) (f : PatchFile) : PatchFile :=
  {| pf_old_path := pf_old_path f; pf_new_path := pf_new_path f;
     pf_old_mode := pf_old_mode f; pf_new_mode := pf_new_mode f;
     pf_similarity := pf_similarity f; pf_is_binary := pf_is_binary f; pf_hunks := hs |}.

(** ** Paths and hunk headers *)

Definition parse_patch_path (path : string) : option string :=
  if String.eqb path "/dev/null" then None
  else match strip_prefix "a/" path with
       | Some p => Some p
       | None => match strip_prefix "b/" path with Some p => Some p | None => Some path end
       end.

Definition diff_git_path_a (line : string) : option string :=
  tail ← strip_prefix "diff --git a/" line; fst <$> split_once_str " b/" tail.

Definition diff_git_path_b (line : string) : option string :=
  snd <$> split_once_str " b/" line.

Record HunkRange := {
  hr_old_start : Z;
  hr_old_lines : Z;
  hr_new_start : Z;
  hr_new_lines : Z
}.

Definition parse_range (range : string) (prefix : ascii) : result (Z * Z) :=
  let? range' := ok_or (strip_prefix (String prefix EmptyString) range)
    (Message ("range " +:+ range +:+ " missing prefix " +:+ String prefix EmptyString)) in
  let '(start, lines) :=
    match split_once "," range' with Some p => p | None => (range', "1") end in
  let? s := map_err (λ e, Message ("invalid range start " +:+ start +:+ ": " +:+
                                   int_error_display e)) (parse_unsigned u32_max start) in
  let? l := map_err (λ e, Message ("invalid range length " +:+ lines +:+ ": " +:+
                                   int_error_display e)) (parse_unsigned u32_max lines) in
  Ok (s, l).

Definition parse_hunk_header (header : string) : result HunkRange :=
  let parts := drop 1 (split_whitespace header) in
  let? old := ok_or (parts !! 0) (Message ("missing old range in hunk header " +:+ header)) in
  let? new := ok_or (parts !! 1) (Message ("missing new range in hunk header " +:+ header)) in
  let? o := parse_range old "-" in
  let? n := parse_range new "+" in
  Ok {| hr_old_start := o.1; hr_old_lines := o.2; hr_new_start := n.1; hr_new_lines := n.2 |}.

(** ** The line loop *)

Record PatchState := {
  ps_files : list PatchFile;
  ps_file : option PatchFile;
  ps_hunk : option ReviewHunk;
  ps_old_line : Z;
  ps_new_line : Z
}.

Definition init_state : PatchState :=
  {| ps_files := []; ps_file := None; ps_hunk := None; ps_old_line := 0; ps_new_line := 0 |}.

(** [finish_hunk]: [hunk.take()] happens whether or not there is a file. *)
Definition finish_hunk (s : PatchState) : PatchState :=
  {| ps_files := ps_files s;
     ps_file := match ps_file s, ps_hunk s with
                | Some f, Some h => Some (set_hunks (pf_hunks f ++ [h]) f)
                | f, _ => f
                end;
     ps_hunk := None;
     ps_old_line := ps_old_line s;
     ps_new_line := ps_new_line s |}.

(** Move the current file, if any, to the finished ones. *)
Definition push_file (s : PatchState) (next : option PatchFile) : PatchState :=
  {| ps_files := ps_files s ++ match ps_file s with Some f => [f] | None => [] end;
     ps_file := next;
     ps_hunk := ps_hunk s;
     ps_old_line := ps_old_line s;
     ps_new_line := ps_new_line s |}.

Definition update_file (s : PatchState) (u : PatchFile → PatchFile) : PatchState :=
  {| ps_files := ps_files s; ps_file := u <$> ps_file s; ps_hunk := ps_hunk s;
     ps_old_line := ps_old_line s; ps_new_line := ps_new_line s |}.

(** [+= 1] on a [u32], in a build without overflow checks such as the release profile; a
    build with them panics after the last line number. *)
Definition u32_succ (n : Z) : Z := ((n + 1) mod 4294967296)%Z.

Definition push_row (h : ReviewHunk) (r : DiffRow) : ReviewHunk :=
  {| hunk_id := hunk_id h; hunk_header := hunk_header h; hunk_old_start := hunk_old_start h;
     hunk_old_lines := hunk_old_lines h; hunk_new_start := hunk_new_start h;
     hunk_new_lines := hunk_new_lines h; hunk_rows := hunk_rows h ++ [r] |}.

(** A line of a hunk body: the row is appended and the counters advance. *)
Definition body_row (s : PatchState) (h : ReviewHunk) (k : DiffRowKind) (text : string)
    : PatchState :=
  let o := ps_old_line s in
  let n := ps_new_line s in
  let old := match k with RAdded => None | _ => Some o end in
  let new := match k with RRemoved => None | _ => Some n end in
  {| ps_files := ps_files s; ps_file := ps_file s;
     ps_hunk := Some (push_row h {| row_kind := k; row_old_line := old; row_new_line := new;
                                    row_text := text |});
     ps_old_line := match k with RAdded => o | _ => u32_succ o end;
     ps_new_line := match k with RRemoved => n | _ => u32_succ n end |}.

(** [&line[1..]] panics unless byte 1 starts a character. *)
Definition slice_from_1 (line : string) : result string :=
  match line with
  | String _ (String c _ as rest) =>
      if in_range 128 191 c then Err (Panicked "byte index 1 is not a char boundary")
      else Ok rest
  | String _ EmptyString => Ok EmptyString
  | EmptyString => Err (Panicked "byte index 1 is out of bounds")
  end.

Definition body_line (s : PatchState) (line : string) : result PatchState :=
  match ps_hunk s with
  | None => Ok s
  | Some h =>
      match line with
      | EmptyString => Ok s
      | String marker _ =>
          if Ascii.eqb marker "\" then Ok s
          else
            let? text := slice_from_1 line in
            Ok (if Ascii.eqb marker " " then body_row s h RContext text
                else if Ascii.eqb marker "+" then body_row s h RAdded text
                else if Ascii.eqb marker "-" then body_row s h RRemoved text
                else s)
      end
  end.

Definition open_hunk (s : PatchState) (f : PatchFile) (line : string) : result PatchState :=
  let? file_key := PatchFile_key f in
  let? range := parse_hunk_header line in
  Ok {| ps_files := ps_files s; ps_file := ps_file s;
        ps_hunk := Some
          {| hunk_id := file_key +:+ ":" +:+ dec (hr_old_start range) +:+ ":" +:+
                        dec (hr_new_start range);
             hunk_header := line;
             hunk_old_start := hr_old_start range;
             hunk_old_lines := hr_old_lines range;
             hunk_new_start := hr_new_start range;
             hunk_new_lines := hr_new_lines range;
             hunk_rows := [] |};
        ps_old_line := hr_old_start range;
        ps_new_line := hr_new_start range |}.

(** A line while a file is current, tested against the prefixes in source order. *)
Definition file_line (s : PatchState) (line : string) : result PatchState :=
  match strip_prefix "--- " line with
  | Some path => Ok (update_file s (set_old_path (parse_patch_path path)))
  | None =>
  match strip_prefix "+++ " line with
  | Some path => Ok (update_file s (set_new_path (parse_patch_path path)))
  | None =>
  match strip_prefix "old mode " line with
  | Some mode => Ok (update_file s (set_old_mode (Some mode)))
  | None =>
  match strip_prefix "new mode " line with
  | Some mode => Ok (update_file s (set_new_mode (Some mode)))
  | None =>
  match strip_prefix "new file mode " line with
  | Some mode => Ok (update_file s (set_new_mode (Some mode)))
  | None =>
  match strip_prefix "deleted file mode " line with
  | Some mode => Ok (update_file s (set_old_mode (Some mode)))
  | None =>
  match strip_prefix "similarity index " line with
  | Some index =>
      let? n := map_err (λ e, Message ("invalid similarity index " +:+ index +:+ ": " +:+
                                       int_error_display e))
                  (parse_unsigned 65535 (trim_end_matches "%" index)) in
      Ok (update_file s (set_similarity (Some n)))
  | None =>
  match strip_prefix "rename from " line with
  | Some path => Ok (update_file s (set_old_path (Some path)))
  | None =>
  match strip_prefix "rename to " line with
  | Some path => Ok (update_file s (set_new_path (Some path)))
  | None =>
  if starts_with "Binary files " line || String.eqb line "GIT binary patch" then
    Ok (update_file s (set_binary true))
  else if starts_with "@@ " line then
    let s := finish_hunk s in
    match ps_file s with Some f => open_hunk s f line | None => Ok s end
  else body_line s line
  end end end end end end end end end.

Definition new_patch_file (line : string) : PatchFile :=
  {| pf_old_path := diff_git_path_a line; pf_new_path := diff_git_path_b line;
     pf_old_mode := None; pf_new_mode := None; pf_similarity := None;
     pf_is_binary := false; pf_hunks := [] |}.

Definition patch_line (s : PatchState) (line : string) : result PatchState :=
  if starts_with "diff --git " line then
    Ok (push_file (finish_hunk s) (Some (new_patch_file line)))
  else
    match ps_file s with
    | None => Ok s
    | Some _ => file_line s line
    end.

Definition parse_patch (patch : string) : result (list PatchFile) :=
  let? s := try_fold patch_line init_state (str_lines patch) in
  Ok (ps_files (push_file (finish_hunk s) None)).

(** ** The printer the parser inverts *)

Definition row_marker (k : DiffRowKind) : ascii :=
  match k with RContext => " " | RAdded => "+" | RRemoved => "-" end.

Definition print_row (r : DiffRow) : string := String (row_marker (row_kind r)) (row_text r).

Definition print_hunk (h : ReviewHunk) : list string := hunk_header h :: (print_row <$> hunk_rows h).

Definition print_side (marker side : string) (p : option string) : string :=
  marker +:+ match p with Some p => side +:+ p | None => "/dev/null" end.

Definition print_rename (f : PatchFile) : list string :=
  match pf_similarity f, pf_old_path f, pf_new_path f with
  | Some n, Some o, Some w =>
      ["similarity index " +:+ dec_nonneg n +:+ "%"; "rename from " +:+ o; "rename to " +:+ w]
  | Some n, _, _ => ["similarity index " +:+ dec_nonneg n +:+ "%"]
  | None, _, _ => []
  end.

Definition print_file_header (f : PatchFile) (key : string) : list string :=
  ["diff --git a/" +:+ default key (pf_old_path f) +:+ " b/" +:+ default key (pf_new_path f)]
  ++ match pf_old_mode f with Some m => ["old mode " +:+ m] | None => [] end
  ++ match pf_new_mode f with Some m => ["new mode " +:+ m] | None => [] end
  ++ print_rename f
  ++ [print_side "--- " "a/" (pf_old_path f); print_side "+++ " "b/" (pf_new_path f)].

Definition print_file (f : PatchFile) : list string :=
  match PatchFile_key f with
  | Ok key => print_file_header f key ++ (pf_hunks f ≫= print_hunk)
  | Err _ => []
  end.

Definition print_patch (files : list PatchFile) : string := unlines (files ≫= print_file).

(** ** Printable patches *)

(** A text whose first byte starts a character. *)
Definition starts_char (s : string) : bool :=
  match s with EmptyString => true | String c _ => negb (in_range 128 191 c) end.

(** A row whose line cannot be taken for a path header: see
    [removed_sql_comment_lost] for what happens otherwise. *)
Definition row_printable (r : DiffRow) : Prop :=
  clean_line (row_text r) = true ∧ starts_char (row_text r) = true ∧
  match row_kind r with
  | RContext => True
  | RAdded => starts_with "++ " (row_text r) = false
  | RRemoved => starts_with "-- " (row_text r) = false
  end.

(** Rows numbered from the given counters. *)
Fixpoint rows_numbered (o n : Z) (rows : list DiffRow) : Prop :=
  match rows with
  | [] => True
  | r :: rows =>
      match row_kind r with
      | RContext => row_old_line r = Some o ∧ row_new_line r = Some n ∧
          rows_numbered (u32_succ o) (u32_succ n) rows
      | RAdded => row_old_line r = None ∧ row_new_line r = Some n ∧
          rows_numbered o (u32_succ n) rows
      | RRemoved => row_old_line r = Some o ∧ row_new_line r = None ∧
          rows_numbered (u32_succ o) n rows
      end
  end.

(** Rows counted from the given line numbers. *)
Fixpoint rows_counted (o n : Z) (rows : list DiffRow) : Prop :=
  match rows with
  | [] => True
  | r :: rows =>
      match row_kind r with
      | RContext => row_old_line r = Some o ∧ row_new_line r = Some n ∧
          rows_counted (o + 1) (n + 1) rows
      | RAdded => row_old_line r = None ∧ row_new_line r = Some n ∧ rows_counted o (n + 1) rows
      | RRemoved => row_old_line r = Some o ∧ row_new_line r = None ∧ rows_counted (o + 1) n rows
      end
  end.

(** The text of a range: its start and length, or its start alone for one line. *)
Definition range_text (start lines : Z) (t : string) : Prop :=
  t = dec_nonneg start +:+ "," +:+ dec_nonneg lines ∨ lines = 1%Z ∧ t = dec_nonneg start.

(** The header of a hunk: the two ranges, then any section text. *)
Definition header_text (h : ReviewHunk) (t : string) : Prop :=
  ∃ old new section, range_text (hunk_old_start h) (hunk_old_lines h) old ∧
    range_text (hunk_new_start h) (hunk_new_lines h) new ∧
    t = "@@ -" +:+ old +:+ " +" +:+ new +:+ " @@" +:+ section.

(** A number of the header, with room for as many lines as there are rows. *)
Definition fits (n rows : Z) : Prop := (0 ≤ n ∧ n + rows ≤ u32_max)%Z.

Record hunk_printable (key : string) (h : ReviewHunk) : Prop := {
  hp_id : hunk_id h = key +:+ ":" +:+ dec (hunk_old_start h) +:+ ":" +:+ dec (hunk_new_start h);
  hp_clean : clean_line (hunk_header h) = true;
  hp_header : header_text h (hunk_header h);
  hp_old_start : fits (hunk_old_start h) (Z.of_nat (length (hunk_rows h)));
  hp_new_start : fits (hunk_new_start h) (Z.of_nat (length (hunk_rows h)));
  hp_old_lines : fits (hunk_old_lines h) 0;
  hp_new_lines : fits (hunk_new_lines h) 0;
  hp_counted : rows_counted (hunk_old_start h) (hunk_new_start h) (hunk_rows h);
  hp_rows : Forall row_printable (hunk_rows h)
}.

Record patch_printable (f : PatchFile) : Prop := {
  pp_key : is_ok (PatchFile_key f) = true;
  pp_old_path : ∀ p, pf_old_path f = Some p → clean_line p = true ∧ p ≠ EmptyString;
  pp_new_path : ∀ p, pf_new_path f = Some p → clean_line p = true ∧ p ≠ EmptyString;
  pp_old_mode : ∀ m, pf_old_mode f = Some m → clean_line m = true ∧ m ≠ EmptyString;
  pp_new_mode : ∀ m, pf_new_mode f = Some m → clean_line m = true ∧ m ≠ EmptyString;
  pp_similarity : ∀ n, pf_similarity f = Some n → (0 ≤ n ≤ 65535)%Z;
  pp_text : pf_is_binary f = false;
  pp_hunks : ∀ key, PatchFile_key f = Ok key → Forall (hunk_printable key) (pf_hunks f)
}.

(** ** Reading hunk headers *)

Lemma dec_graph n : (0 ≤ n)%Z → all_bytes is_graph (dec_nonneg n) = true.
Proof. intros Hn. eapply all_bytes_impl; [apply is_ascii_digit_graph|by apply dec_nonneg_digits]. Qed.

Lemma range_graph start lines t :
  (0 ≤ start)%Z → (0 ≤ lines)%Z → range_text start lines t → all_bytes is_graph t = true.
Proof.
  intros Hs Hl [->|[_ ->]]; [|by apply dec_graph].
  rewrite !all_bytes_append, !dec_graph by done. done.
Qed.

Lemma parse_range_text start lines t c :
  fits start 0 → fits lines 0 → range_text start lines t →
  parse_range (String c t) c = Ok (start, lines).
Proof.
  intros [Hs Hs'] [Hl Hl'] Ht. unfold parse_range. cbn [strip_prefix]. rewrite Ascii.eqb_refl.
  cbn [ok_or rbind].
  assert (contains_char "," (dec_nonneg start) = false) as Hc.
  { eapply (all_bytes_contains is_ascii_digit); [|done]. by apply dec_nonneg_digits. }
  destruct Ht as [->|[-> ->]].
  - change ("," +:+ dec_nonneg lines) with (String "," (dec_nonneg lines)).
    rewrite (split_once_append "," (dec_nonneg start) (dec_nonneg lines)) by done.
    rewrite !parse_unsigned_dec by lia. done.
  - rewrite (proj1 (split_once_None _ _) Hc), parse_unsigned_dec by lia. done.
Qed.

Lemma parse_header_text h t :
  header_text h t → fits (hunk_old_start h) 0 → fits (hunk_old_lines h) 0 →
  fits (hunk_new_start h) 0 → fits (hunk_new_lines h) 0 →
  parse_hunk_header t =
    Ok {| hr_old_start := hunk_old_start h; hr_old_lines := hunk_old_lines h;
          hr_new_start := hunk_new_start h; hr_new_lines := hunk_new_lines h |}.
Proof.
  intros (old & new & section & Ho & Hn & ->) Hos Hol Hns Hnl. unfold parse_hunk_header.
  change ("@@ -" +:+ old +:+ " +" +:+ new +:+ " @@" +:+ section) with
    ("@@" +:+ String " " (String "-" old +:+ String " " (String "+" new +:+
      String " " ("@@" +:+ section)))).
  assert (∀ c start lines r, is_graph c = true → fits start 0 → fits lines 0 →
    range_text start lines r → all_bytes is_graph (String c r) = true) as Hg.
  { intros c start lines r Hc [??] [??] Hr. cbn [all_bytes]. by rewrite Hc, (range_graph start lines r). }
  rewrite split_whitespace_word by done.
  rewrite split_whitespace_word
    by (done || by apply (Hg "-"%char (hunk_old_start h) (hunk_old_lines h))).
  rewrite split_whitespace_word
    by (done || by apply (Hg "+"%char (hunk_new_start h) (hunk_new_lines h))).
  cbn [drop lookup list_lookup ok_or rbind].
  by rewrite (parse_range_text (hunk_old_start h) (hunk_old_lines h)),
    (parse_range_text (hunk_new_start h) (hunk_new_lines h)) by done.
Qed.

Lemma counted_numbered o n rows :
  fits o (Z.of_nat (length rows)) → fits n (Z.of_nat (length rows)) →
  rows_counted o n rows → rows_numbered o n rows.
Proof.
  revert o n. induction rows as [|r rows IH]; intros o n; cbn [rows_counted rows_numbered length]; [done|].
  unfold fits, u32_max. intros Ho Hn. assert (u32_succ o = o + 1 ∧ u32_succ n = n + 1)%Z as [-> ->].
  { unfold u32_succ. by rewrite !Z.mod_small by lia. }
  destruct (row_kind r); intros (? & ? & ?); split_and!; try done; apply IH; unfold fits, u32_max;
    try done; lia.
Qed.

(** ** Reading rows and hunks *)

Lemma file_line_body s k t :
  strip_prefix "--- " (String (row_marker k) t) = None →
  strip_prefix "+++ " (String (row_marker k) t) = None →
  file_line s (String (row_marker k) t) = body_line s (String (row_marker k) t).
Proof. intros H1 H2. unfold file_line. rewrite H1, H2. by destruct k. Qed.

Lemma patch_line_row s f h r :
  ps_file s = Some f → ps_hunk s = Some h → row_printable r →
  patch_line s (print_row r) = Ok (body_row s h (row_kind r) (row_text r)).
Proof.
  intros Hf Hh (_ & Hc & Hk). unfold patch_line, print_row.
  assert (slice_from_1 (String (row_marker (row_kind r)) (row_text r)) = Ok (row_text r)) as Hs.
  { unfold slice_from_1. destruct (row_text r) as [|c t]; [done|].
    cbn in Hc. apply negb_true_iff in Hc. by rewrite Hc. }
  assert (starts_with "diff --git " (String (row_marker (row_kind r)) (row_text r)) = false)
    as -> by (by destruct (row_kind r)).
  rewrite Hf, file_line_body.
  2,3: destruct (row_kind r); cbn [row_marker]; try done;
    unfold starts_with in Hk; by destruct (strip_prefix _ (row_text r)) eqn:E; cbn.
  unfold body_line. rewrite Hh, Hs. by destruct (row_kind r).
Qed.

Definition with_rows (h : ReviewHunk) (rows : list DiffRow) : ReviewHunk :=
  {| hunk_id := hunk_id h; hunk_header := hunk_header h; hunk_old_start := hunk_old_start h;
     hunk_old_lines := hunk_old_lines h; hunk_new_start := hunk_new_start h;
     hunk_new_lines := hunk_new_lines h; hunk_rows := rows |}.

Lemma body_row_numbered s h r rows :
  rows_numbered (ps_old_line s) (ps_new_line s) (r :: rows) →
  ps_hunk (body_row s h (row_kind r) (row_text r)) = Some (push_row h r) ∧
  rows_numbered (ps_old_line (body_row s h (row_kind r) (row_text r)))
    (ps_new_line (body_row s h (row_kind r) (row_text r))) rows.
Proof.
  destruct r as [k o n t]; cbn. destruct k; intros (Ho & Hn & Hr); cbn in *; by subst.
Qed.

Lemma patch_rows s f h rows :
  ps_file s = Some f → ps_hunk s = Some h → Forall row_printable rows →
  rows_numbered (ps_old_line s) (ps_new_line s) rows →
  ∃ s', try_fold patch_line s (print_row <$> rows) = Ok s' ∧
    ps_files s' = ps_files s ∧ ps_file s' = Some f ∧
    ps_hunk s' = Some (with_rows h (hunk_rows h ++ rows)).
Proof.
  intros Hf Hh Hr. revert s h Hf Hh. induction Hr as [|r rows Hr _ IH]; intros s h Hf Hh Hn; cbn.
  { exists s. rewrite app_nil_r. by destruct h. }
  rewrite (patch_line_row s f h r) by done. cbn [rbind].
  destruct (body_row_numbered s h r rows Hn) as [Hh' Hn'].
  destruct (IH (body_row s h (row_kind r) (row_text r)) (push_row h r)) as (s' & H1 & H2 & H3 & H4);
    [done..|]. exists s'. split_and!; [done..|]. rewrite H4. cbn.
  by rewrite <- app_assoc.
Qed.

(** The lines of a hunk start with none of the tested prefixes but "@@ ". *)
Lemma patch_line_at s f line :
  ps_file s = Some f → starts_with "@@ " line = true →
  patch_line s line =
  match ps_file (finish_hunk s) with
  | Some f => open_hunk (finish_hunk s) f line
  | None => Ok (finish_hunk s)
  end.
Proof.
  intros Hf (r & ->)%starts_with_true. unfold patch_line. cbn. rewrite Hf.
  unfold file_line. cbn. done.
Qed.

Lemma header_at h t : header_text h t → starts_with "@@ " t = true.
Proof. intros (? & ? & ? & _ & _ & ->). done. Qed.

Lemma fits_zero n k : fits n (Z.of_nat k) → fits n 0.
Proof. unfold fits. lia. Qed.

Lemma patch_hunk s f key h :
  ps_file (finish_hunk s) = Some f → PatchFile_key f = Ok key → hunk_printable key h →
  ∃ s', try_fold patch_line s (print_hunk h) = Ok s' ∧ ps_files s' = ps_files s ∧
    ps_file (finish_hunk s') = Some (set_hunks (pf_hunks f ++ [h]) f).
Proof.
  intros Hf Hk Hh. unfold print_hunk. cbn [try_fold].
  assert (∃ f0, ps_file s = Some f0) as [f0 Hf0].
  { cbn in Hf. destruct (ps_file s); [by eexists|done]. }
  rewrite (patch_line_at s f0) by (done || by apply header_at with h, Hh). rewrite Hf.
  unfold open_hunk. rewrite Hk, (parse_header_text h) by (apply Hh || by eapply fits_zero, Hh). cbn [rbind hr_old_start hr_new_start].
  edestruct (patch_rows {| ps_files := ps_files s; ps_file := ps_file (finish_hunk s);
    ps_hunk := Some (with_rows h []); ps_old_line := hunk_old_start h;
    ps_new_line := hunk_new_start h |} f (with_rows h []) (hunk_rows h))
    as (s' & H1 & H2 & H3 & H4); [done..|apply Hh|apply counted_numbered; apply Hh|].
  exists s'. split_and!; [|done|].
  - rewrite <- H1. f_equal. cbn. unfold with_rows. by rewrite (hp_id _ _ Hh).
  - cbn. rewrite H3, H4. cbn. do 3 f_equal. by destruct h.
Qed.

Lemma set_hunks_key hs f : PatchFile_key (set_hunks hs f) = PatchFile_key f.
Proof. done. Qed.

Lemma patch_hunks s f key hs :
  ps_file (finish_hunk s) = Some f → PatchFile_key f = Ok key →
  Forall (hunk_printable key) hs →
  ∃ s', try_fold patch_line s (hs ≫= print_hunk) = Ok s' ∧ ps_files s' = ps_files s ∧
    ps_file (finish_hunk s') = Some (set_hunks (pf_hunks f ++ hs) f).
Proof.
  intros Hf Hk Hhs. revert s f Hf Hk. induction Hhs as [|h hs Hh _ IH]; intros s f Hf Hk.
  { exists s. cbn [mbind list_bind try_fold]. rewrite app_nil_r, Hf. by destruct f. }
  cbn [mbind list_bind]. rewrite try_fold_app.
  destruct (patch_hunk s f key h Hf Hk Hh) as (s1 & -> & Hfs & Hf1). cbn [rbind].
  destruct (IH s1 _ Hf1 Hk) as (s2 & H1 & H2 & H3). exists s2. split_and!; [done| |].
  - by rewrite H2.
  - rewrite H3. cbn. by rewrite <- app_assoc.
Qed.

(** ** Reading file headers *)

Section header_lines.
Context (s : PatchState) (f : PatchFile) (Hf : ps_file s = Some f).

Ltac header_line := unfold patch_line; cbn; rewrite Hf; reflexivity.

Lemma patch_line_old_mode m :
  patch_line s ("old mode " +:+ m) = Ok (update_file s (set_old_mode (Some m))).
Proof. header_line. Qed.
Lemma patch_line_new_mode m :
  patch_line s ("new mode " +:+ m) = Ok (update_file s (set_new_mode (Some m))).
Proof. header_line. Qed.
Lemma patch_line_rename_from p :
  patch_line s ("rename from " +:+ p) = Ok (update_file s (set_old_path (Some p))).
Proof. header_line. Qed.
Lemma patch_line_rename_to p :
  patch_line s ("rename to " +:+ p) = Ok (update_file s (set_new_path (Some p))).
Proof. header_line. Qed.

Lemma patch_line_side_old p :
  patch_line s (print_side "--- " "a/" p) = Ok (update_file s (set_old_path p)).
Proof. destruct p as [p|]; header_line. Qed.
Lemma patch_line_side_new p :
  patch_line s (print_side "+++ " "b/" p) = Ok (update_file s (set_new_path p)).
Proof. destruct p as [p|]; header_line. Qed.

Lemma patch_line_similarity n :
  (0 ≤ n ≤ 65535)%Z →
  patch_line s ("similarity index " +:+ dec_nonneg n +:+ "%") =
  Ok (update_file s (set_similarity (Some n))).
Proof.
  intros Hn. unfold patch_line. cbn -[parse_unsigned trim_end_matches dec_nonneg].
  rewrite Hf. unfold file_line. cbn -[parse_unsigned trim_end_matches dec_nonneg].
  rewrite trim_end_matches_one, parse_unsigned_dec; [done|done|].
  eapply (all_bytes_contains is_ascii_digit); [|done].
  rewrite all_bytes_rev. apply dec_nonneg_digits. lia.
Qed.
End header_lines.

Lemma update_file_Some s f u : ps_file s = Some f → ps_file (update_file s u) = Some (u f).
Proof. cbn. by intros ->. Qed.

(** The header lines of a printable file rebuild everything but its hunks. *)
Lemma patch_file_header s f key :
  patch_printable f → PatchFile_key f = Ok key →
  ∃ s', try_fold patch_line s (print_file_header f key) = Ok s' ∧
    ps_files s' = ps_files (push_file (finish_hunk s) None) ∧ ps_hunk s' = None ∧
    ps_file s' = Some (set_hunks [] f).
Proof.
  intros Hp Hk. unfold print_file_header. rewrite try_fold_app. cbn [try_fold].
  set (line := "diff --git a/" +:+ _). set (s0 := push_file (finish_hunk s)
    (Some (new_patch_file line))).
  assert (patch_line s line = Ok s0) as -> by done. cbn [rbind]. rewrite try_fold_app.
  assert (ps_file s0 = Some (new_patch_file line)) as H0 by done.
  assert (∃ s1, try_fold patch_line s0
    match pf_old_mode f with Some m => ["old mode " +:+ m] | None => [] end = Ok s1 ∧
    ps_files s1 = ps_files s0 ∧ ps_hunk s1 = None ∧
    ps_file s1 = Some (set_old_mode (pf_old_mode f) (new_patch_file line)))
    as (s1 & -> & Hs1 & Hh1 & Hf1).
  { destruct (pf_old_mode f) as [m|]; cbn [try_fold]; [|by eexists].
    rewrite (patch_line_old_mode s0 _ H0). by eexists. }
  cbn [rbind]. rewrite try_fold_app.
  assert (∃ s2, try_fold patch_line s1
    match pf_new_mode f with Some m => ["new mode " +:+ m] | None => [] end = Ok s2 ∧
    ps_files s2 = ps_files s0 ∧ ps_hunk s2 = None ∧
    ps_file s2 = Some (set_new_mode (pf_new_mode f) (set_old_mode (pf_old_mode f)
      (new_patch_file line)))) as (s2 & -> & Hs2 & Hh2 & Hf2).
  { destruct (pf_new_mode f) as [m|]; cbn [try_fold].
    - rewrite (patch_line_new_mode s1 _ Hf1). eexists. split_and!; [done..|].
      by apply update_file_Some.
    - exists s1. by rewrite Hf1. }
  cbn [rbind]. rewrite try_fold_app.
  assert (∃ s3 f3, try_fold patch_line s2 (print_rename f) = Ok s3 ∧
    ps_files s3 = ps_files s0 ∧ ps_hunk s3 = None ∧ ps_file s3 = Some f3 ∧
    pf_old_mode f3 = pf_old_mode f ∧ pf_new_mode f3 = pf_new_mode f ∧
    pf_similarity f3 = pf_similarity f ∧ pf_is_binary f3 = false ∧ pf_hunks f3 = [])
    as (s3 & f3 & -> & Hs3 & Hh3 & Hf3 & Hrest).
  { unfold print_rename. pose proof (pp_similarity _ Hp) as Hsim.
    destruct (pf_similarity f) as [n|] eqn:En; [|by exists s2; eexists].
    destruct (pf_old_path f) as [o|], (pf_new_path f) as [w|]; cbn [try_fold];
      rewrite (patch_line_similarity s2 _ Hf2 n) by (by apply Hsim); cbn [rbind];
      try (do 2 eexists; split_and!; [done|done|done|by apply update_file_Some|done..]).
    pose proof (update_file_Some _ _ (set_similarity (Some n)) Hf2) as Ha.
    rewrite (patch_line_rename_from _ _ Ha). cbn [rbind].
    pose proof (update_file_Some _ _ (set_old_path (Some o)) Ha) as Hb.
    rewrite (patch_line_rename_to _ _ Hb). cbn [rbind].
    pose proof (update_file_Some _ _ (set_new_path (Some w)) Hb) as Hc.
    do 2 eexists. split_and!; [done|done|done|exact Hc|done..]. }
  cbn [rbind try_fold]. rewrite (patch_line_side_old _ _ Hf3). cbn [rbind].
  pose proof (update_file_Some _ _ (set_old_path (pf_old_path f)) Hf3) as Ha.
  rewrite (patch_line_side_new _ _ Ha). cbn [rbind].
  eexists. split_and!; [done|by cbn; rewrite Hs3|done|].
  rewrite (update_file_Some _ _ _ Ha). f_equal.
  destruct f, f3; cbn in *. unfold set_new_path, set_hunks; cbn.
  destruct_and!. pose proof (pp_text _ Hp). cbn in *. by subst.
Qed.

Lemma patch_file s f :
  patch_printable f →
  ∃ s', try_fold patch_line s (print_file f) = Ok s' ∧
    ps_files (push_file (finish_hunk s') None) =
    ps_files (push_file (finish_hunk s) None) ++ [f].
Proof.
  intros Hp. unfold print_file. pose proof (pp_key _ Hp) as Hk.
  destruct (PatchFile_key f) as [key|] eqn:Ek; [|done].
  rewrite try_fold_app.
  destruct (patch_file_header s f key Hp Ek) as (s1 & -> & Hs1 & Hh1 & Hf1). cbn [rbind].
  destruct (patch_hunks s1 (set_hunks [] f) key (pf_hunks f)) as (s2 & -> & Hs2 & Hf2).
  - cbn. by rewrite Hf1, Hh1.
  - done.
  - by apply (pp_hunks _ Hp).
  - exists s2. split; [done|]. unfold push_file at 1. cbn [ps_files]. rewrite Hf2.
    change (ps_files (finish_hunk s2)) with (ps_files s2). rewrite Hs2, Hs1.
    do 2 f_equal. by destruct f.
Qed.

(** ** Clean lines *)

Ltac clean := apply clean_line_append; [done| |]; (done || naive_solver).

Lemma print_row_clean r : row_printable r → clean_line (print_row r) = true.
Proof.
  intros (Hc & _ & _). unfold print_row.
  destruct (row_text r) as [|c t] eqn:E; [by destruct (row_kind r)|].
  change (clean_line (String (row_marker (row_kind r)) EmptyString +:+ String c t) = true).
  apply clean_line_append; [by destruct (row_kind r)|done|done].
Qed.

Lemma print_file_clean f :
  patch_printable f → Forall (λ l, clean_line l = true) (print_file f).
Proof.
  intros Hp. unfold print_file. destruct (PatchFile_key f) as [key|] eqn:Ek; [|constructor].
  assert (clean_line key = true ∧ key ≠ EmptyString) as [Hkc Hkn].
  { unfold PatchFile_key in Ek. pose proof (pp_new_path _ Hp). pose proof (pp_old_path _ Hp).
    destruct (pf_new_path f); [injection Ek as ->; auto|].
    destruct (pf_old_path f); [injection Ek as ->; auto|done]. }
  assert (∀ o, (∀ p, o = Some p → clean_line p = true ∧ p ≠ EmptyString) →
    clean_line (default key o) = true ∧ default key o ≠ EmptyString) as Hdef.
  { intros [p|] H; cbn; auto. }
  apply Forall_app. split; [unfold print_file_header; rewrite !Forall_app; split_and!|].
  - constructor; [|done]. destruct (Hdef _ (pp_old_path _ Hp)) as [Ho _],
      (Hdef _ (pp_new_path _ Hp)) as [Hn Hn'].
    rewrite <- !append_assoc. apply clean_line_append; [|done..].
    rewrite !contains_char_append. rewrite (clean_line_newline _ Ho). done.
  - pose proof (pp_old_mode _ Hp). destruct (pf_old_mode f); constructor; [|done]. clean.
  - pose proof (pp_new_mode _ Hp). destruct (pf_new_mode f); constructor; [|done]. clean.
  - unfold print_rename. pose proof (pp_old_path _ Hp). pose proof (pp_new_path _ Hp).
    pose proof (pp_similarity _ Hp) as Hs.
    destruct (pf_similarity f) as [n|]; [|constructor].
    assert (clean_line ("similarity index " +:+ dec_nonneg n +:+ "%") = true) as Hsim.
    { rewrite <- append_assoc. apply clean_line_append; [|done..].
      rewrite contains_char_append. apply orb_false_iff. split; [done|].
      eapply (all_bytes_contains is_ascii_digit); [|done]. apply dec_nonneg_digits.
      specialize (Hs n eq_refl). lia. }
    destruct (pf_old_path f), (pf_new_path f); repeat (constructor; [done || clean|]); done.
  - pose proof (pp_old_path _ Hp). pose proof (pp_new_path _ Hp). unfold print_side.
    destruct (pf_old_path f), (pf_new_path f);
      repeat (constructor; [rewrite <- ?append_assoc; done || clean|]); done.
  - apply Forall_bind. eapply Forall_impl; [by apply (pp_hunks _ Hp)|].
    intros h Hh. constructor; [apply Hh|]. apply Forall_fmap.
    eapply Forall_impl; [apply Hh|]. intros r. apply print_row_clean.
Qed.


Definition example_patch : list PatchFile :=
  [{| pf_old_path := Some "src/a.rs"; pf_new_path := Some "src/b.rs"; pf_old_mode := None;
      pf_new_mode := None; pf_similarity := Some 90%Z; pf_is_binary := false;
      pf_hunks :=
        [{| hunk_id := "src/b.rs:3:4"; hunk_header := "@@ -3,2 +4,2 @@ fn main() {";
            hunk_old_start := 3; hunk_old_lines := 2; hunk_new_start := 4;
            hunk_new_lines := 2;
            hunk_rows :=
              [{| row_kind := RContext; row_old_line := Some 3%Z; row_new_line := Some 4%Z;
                  row_text := "" |};
               {| row_kind := RRemoved; row_old_line := Some 4%Z; row_new_line := None;
                  row_text := "x" |};
               {| row_kind := RAdded; row_old_line := None; row_new_line := Some 5%Z;
                  row_text := "y" |}] |}] |}].


(** ** Line numbers of arbitrary input *)

(** The counters after a run of rows. *)
Fixpoint rows_end (o n : Z) (rows : list DiffRow) : Z * Z :=
  match rows with
  | [] => (o, n)
  | r :: rows =>
      match row_kind r with
      | RContext => rows_end (u32_succ o) (u32_succ n) rows
      | RAdded => rows_end o (u32_succ n) rows
      | RRemoved => rows_end (u32_succ o) n rows
      end
  end.

Definition hunk_numbered (h : ReviewHunk) : Prop :=
  rows_numbered (hunk_old_start h) (hunk_new_start h) (hunk_rows h) ∧
  parse_hunk_header (hunk_header h) =
    Ok {| hr_old_start := hunk_old_start h; hr_old_lines := hunk_old_lines h;
          hr_new_start := hunk_new_start h; hr_new_lines := hunk_new_lines h |}.

Definition file_numbered (f : PatchFile) : Prop := Forall hunk_numbered (pf_hunks f).

Record state_numbered (s : PatchState) : Prop := {
  sn_files : Forall file_numbered (ps_files s);
  sn_file : ∀ f, ps_file s = Some f → file_numbered f;
  sn_hunk : ∀ h, ps_hunk s = Some h → hunk_numbered h ∧
    rows_end (hunk_old_start h) (hunk_new_start h) (hunk_rows h) =
      (ps_old_line s, ps_new_line s)
}.

Lemma rows_numbered_snoc o n rows r :
  rows_numbered o n (rows ++ [r]) ↔
  rows_numbered o n rows ∧ rows_numbered (rows_end o n rows).1 (rows_end o n rows).2 [r].
Proof.
  revert o n; induction rows as [|x rows IH]; intros o n; cbn; [naive_solver|].
  destruct (row_kind x); rewrite IH; naive_solver.
Qed.

Lemma rows_end_snoc o n rows r :
  rows_end o n (rows ++ [r]) = rows_end (rows_end o n rows).1 (rows_end o n rows).2 [r].
Proof.
  revert o n; induction rows as [|x rows IH]; intros o n; cbn; [done|].
  destruct (row_kind x); apply IH.
Qed.

Lemma body_row_sound s h k t :
  state_numbered s → ps_hunk s = Some h → state_numbered (body_row s h k t).
Proof.
  intros [H1 H2 H3] Hh. destruct (H3 h Hh) as [[Hn Hp] He].
  split; [done|done|]. cbn. intros h' [= <-]. cbn.
  rewrite rows_end_snoc, He. cbn. split; [|by destruct k].
  split; [|done]. cbn. apply rows_numbered_snoc. rewrite He. split; [done|].
  by destruct k.
Qed.

Lemma finish_hunk_sound s : state_numbered s → state_numbered (finish_hunk s).
Proof.
  intros [H1 H2 H3]. split; cbn; [done| |done].
  intros f. destruct (ps_file s) as [f0|]; [|done].
  destruct (ps_hunk s) as [h|]; intros [= <-]; [|by apply H2].
  apply Forall_app. split; [by apply H2|]. constructor; [|done]. by apply H3.
Qed.

Lemma push_file_sound s f :
  state_numbered s → (∀ f', f = Some f' → file_numbered f') → state_numbered (push_file s f).
Proof.
  intros [H1 H2 H3] Hf. split; cbn; [|done|done].
  apply Forall_app. split; [done|]. destruct (ps_file s); constructor; [by apply H2|done].
Qed.

Lemma update_file_sound s u :
  (∀ f, pf_hunks (u f) = pf_hunks f) → state_numbered s → state_numbered (update_file s u).
Proof.
  intros Hu [H1 H2 H3]. split; cbn; [done| |done].
  intros f (f0 & Hf0 & ->)%fmap_Some. unfold file_numbered. rewrite Hu. by apply H2.
Qed.

Lemma body_line_sound s line s' : state_numbered s → body_line s line = Ok s' → state_numbered s'.
Proof.
  intros Hs. unfold body_line. destruct (ps_hunk s) as [h|] eqn:Eh; [|by intros [= <-]].
  destruct line as [|m t]; [by intros [= <-]|]. case_match; [by intros [= <-]|].
  intros (text & _ & [= <-])%bind_Ok.
  repeat case_match; by (apply body_row_sound || idtac).
Qed.

Lemma open_hunk_sound s f line s' :
  state_numbered s → open_hunk s f line = Ok s' → state_numbered s'.
Proof.
  intros [H1 H2 H3] (k & _ & (r & Hr & [= <-])%bind_Ok)%bind_Ok.
  split; cbn; [done|done|]. intros h [= <-]. cbn. split; [|done].
  split; cbn; [done|]. by destruct r.
Qed.

Lemma patch_line_sound s line s' :
  state_numbered s → patch_line s line = Ok s' → state_numbered s'.
Proof.
  intros Hs. unfold patch_line. case_match.
  { intros [= <-]. apply push_file_sound; [by apply finish_hunk_sound|].
    intros f' [= <-]. constructor. }
  destruct (ps_file s); [|by intros [= <-]]. unfold file_line.
  repeat (case_match; [by intros [= <-]; apply update_file_sound|] ||
    (case_match; [by intros (n & _ & [= <-])%bind_Ok; apply update_file_sound|])).
  pose proof (finish_hunk_sound _ Hs) as Hfin.
  case_match; [|by apply body_line_sound].
  case_match; [by apply open_hunk_sound|by intros [= <-]].
Qed.

(** Whatever text the patch parser accepts, every hunk it returns carries the
    ranges its own header states, and its rows are numbered consecutively from
    them on the sides they belong to: context on both, removals on the old side
    only, additions on the new side only. *)
Lemma parse_patch_numbered patch files :
  parse_patch patch = Ok files → Forall file_numbered files.
Proof.
  unfold parse_patch. intros (s & Hs & [= <-])%bind_Ok.
  assert (∀ l s0, state_numbered s0 → try_fold patch_line s0 l = Ok s → state_numbered s) as H.
  { intros l. induction l as [|x l IH]; intros s0 H0; [by intros [= <-]|].
    cbn [try_fold]. intros (s1 & H1 & H2)%bind_Ok. eapply IH; [|exact H2].
    by eapply patch_line_sound. }
  apply H in Hs; [|split; cbn; by try constructor].
  apply finish_hunk_sound in Hs. apply (push_file_sound _ None) in Hs; [|done]. apply Hs.
Qed.

Definition sql_patch : string := unlines
  ["diff --git a/q.sql b/q.sql"; "--- a/q.sql"; "+++ b/q.sql"; "@@ -1,2 +1,2 @@";
   " select 1;"; "--- drop table t"; "+++ note"].

Lemma parse_patch_numbered_witness :
  ∃ files, parse_patch sql_patch = Ok files ∧ Forall file_numbered files.
Proof.
  destruct (parse_patch sql_patch) as [files|] eqn:E; [|by vm_compute in E].
  exists files. split; [done|exact (parse_patch_numbered sql_patch files E)].
Defined.

(** A removed row whose text starts with "-- " and an added row whose text starts
    with "++ " are read as path headers: both rows are lost, and the file's
    paths are overwritten with their text. *)
Lemma removed_sql_comment_lost :
  ∃ f h, parse_patch sql_patch = Ok [f] ∧
    pf_old_path f = Some "drop table t" ∧ pf_new_path f = Some "note" ∧
    pf_hunks f = [h] ∧ hunk_old_lines h = 2%Z ∧ hunk_new_lines h = 2%Z ∧
    hunk_rows h = [{| row_kind := RContext; row_old_line := Some 1%Z;
                      row_new_line := Some 1%Z; row_text := "select 1;" |}].
Proof. do 2 eexists. split; [vm_compute; reflexivity|]. by vm_compute. Qed.
