(* ===== verification/GitDiff.v ===== *)
(** * Assembling the captured diff ([src/src/git/ingest.rs])

    The pure part of diff ingestion: the raw diff gives the files and their order,
    the patch gives their hunks, and the two are joined by path.  Running git and
    hashing worktree files is outside; the two outputs are arguments. *)

From S2P Require Import Prelude RustStr GitRaw GitPatch.

(** ** Data ([src/src/model/file.rs], [src/src/model/row.rs]) *)

Inductive FileMetadataKind := BinarySummary | ModeChange | RenameSummary | SubmoduleSummary.

Record FileMetadataRow := { fm_kind : FileMetadataKind; fm_text : string }.

Record DiffFile := {
  df_id : string;
  df_status : FileStatus;
  df_old_path : option string;
  df_new_path : option string;
  df_old_mode : option string;
  df_new_mode : option string;
  df_old_oid : option string;
  df_new_oid : option string;
  df_similarity : option Z;
  df_is_binary : bool;
  df_is_submodule : bool;
  df_is_mode_only : bool;
  df_synthetic : bool;
  df_metadata_rows : list FileMetadataRow;
  df_hunks : list ReviewHunk
}.

(** ** Joining *)

Definition fill_missing {T} (current next : option T) : option T :=
  match current with None => next | Some _ => current end.

Definition merge_patch_file (existing next : PatchFile) : PatchFile :=
  {| pf_old_path := fill_missing (pf_old_path existing) (pf_old_path next);
     pf_new_path := fill_missing (pf_new_path existing) (pf_new_path next);
     pf_old_mode := fill_missing (pf_old_mode existing) (pf_old_mode next);
     pf_new_mode := fill_missing (pf_new_mode existing) (pf_new_mode next);
     pf_similarity := fill_missing (pf_similarity existing) (pf_similarity next);
     pf_is_binary := pf_is_binary existing || pf_is_binary next;
     pf_hunks := pf_hunks existing ++ pf_hunks next |}.

Definition insert_patch_file (by_key : gmap string PatchFile) (file : PatchFile)
    : result (gmap string PatchFile) :=
  let? key := PatchFile_key file in
  Ok (match by_key !! key with
      | None => <[key := file]> by_key
      | Some entry => <[key := merge_patch_file entry file]> by_key
      end).

Definition patch_files_by_key (files : list PatchFile) : result (gmap string PatchFile) :=
  try_fold insert_patch_file ∅ files.

Definition is_mode_only (raw_file : RawFile) (patch_file : PatchFile) : bool :=
  has_mode_change raw_file
  && negb (rf_type_change raw_file)
  && negb (pf_is_binary patch_file)
  && match pf_hunks patch_file with [] => true | _ => false end.

Definition metadata_rows (raw_file : RawFile) (patch_file : PatchFile) : list FileMetadataRow :=
  (if has_second_path (rf_status raw_file) then
     [{| fm_kind := RenameSummary;
         fm_text := match rf_old_path raw_file, rf_new_path raw_file,
                          rf_similarity raw_file with
                    | Some old, Some new, Some similarity =>
                        "renamed " +:+ old +:+ " -> " +:+ new +:+ " (" +:+ dec similarity
                        +:+ "%)"
                    | Some old, Some new, None => "renamed " +:+ old +:+ " -> " +:+ new
                    | _, _, _ => "renamed file"
                    end |}]
   else [])
  ++ (if pf_is_binary patch_file then
        [{| fm_kind := BinarySummary; fm_text := "binary files differ" |}]
      else [])
  ++ (if has_mode_change raw_file then
        [{| fm_kind := ModeChange;
            fm_text := match rf_old_mode raw_file, rf_new_mode raw_file with
                       | Some old, Some new => "mode changed " +:+ old +:+ " -> " +:+ new
                       | _, _ => "mode changed"
                       end |}]
      else [])
  ++ (if is_submodule raw_file then
        [{| fm_kind := SubmoduleSummary;
            fm_text := match rf_old_oid raw_file, rf_new_oid raw_file with
                       | Some old, Some new => "submodule changed " +:+ old +:+ " -> " +:+ new
                       | _, _ => "submodule changed"
                       end |}]
      else []).

(** [Option::or]. *)
Definition opt_or {A} (x y : option A) : option A :=
  match x with Some _ => x | None => y end.

Definition diff_file (raw_file : RawFile) (patch_file : PatchFile) (synthetic : bool)
    : result DiffFile :=
  let submodule := is_submodule raw_file in
  let binary := pf_is_binary patch_file in
  let mode_only := is_mode_only raw_file patch_file in
  let omit_hunks := binary || submodule || mode_only in
  let? id := RawFile_key raw_file in
  Ok {| df_id := id;
        df_status := rf_status raw_file;
        df_old_path := rf_old_path raw_file;
        df_new_path := rf_new_path raw_file;
        df_old_mode := opt_or (rf_old_mode raw_file) (pf_old_mode patch_file);
        df_new_mode := opt_or (rf_new_mode raw_file) (pf_new_mode patch_file);
        df_old_oid := rf_old_oid raw_file;
        df_new_oid := rf_new_oid raw_file;
        df_similarity := opt_or (rf_similarity raw_file) (pf_similarity patch_file);
        df_is_binary := binary;
        df_is_submodule := submodule;
        df_is_mode_only := mode_only;
        df_synthetic := synthetic;
        df_metadata_rows := metadata_rows raw_file patch_file;
        df_hunks := if omit_hunks then [] else pf_hunks patch_file |}.

Definition join_raw_file (patch_files : gmap string PatchFile) (raw_file : RawFile)
    : result DiffFile :=
  let? key := RawFile_key raw_file in
  let? patch_file := ok_or (patch_files !! key)
    (Message ("missing patch entry for " +:+ key)) in
  diff_file raw_file patch_file false.

(** [diff_files_for_args_with_policy] after the two git runs. *)
Definition diff_files (raw_stdout patch_stdout : string) : result (list DiffFile) :=
  let? raw_files := parse_raw raw_stdout in
  let? patches := parse_patch (from_utf8_lossy patch_stdout) in
  let? patch_files := patch_files_by_key patches in
  mapM (join_raw_file patch_files) raw_files.

(** The raw entry an untracked file stands for. *)
Definition untracked_raw_file (path : string) (patch_file : PatchFile) : RawFile :=
  {| rf_status := GitRaw.Added; rf_type_change := false; rf_old_mode := None;
     rf_new_mode := pf_new_mode patch_file; rf_old_oid := None; rf_new_oid := None;
     rf_similarity := None; rf_old_path := None; rf_new_path := Some path |}.

(** [synthesize_untracked_file] after the no-index diff. *)
Definition synthesize_untracked_file (path patch_stdout : string) : result DiffFile :=
  let? patches := parse_patch (from_utf8_lossy patch_stdout) in
  let? patch_file := ok_or (head patches) (Message ("missing no-index patch for " +:+ path)) in
  diff_file (untracked_raw_file path patch_file) patch_file true.

(** ** The join is complete and keeps the order *)

(** The patch entries of one key, in order. *)
Definition entries_of (key : string) (files : list PatchFile) : list PatchFile :=
  filter (λ f, PatchFile_key f = Ok key) files.

Definition merge_all (f : PatchFile) (fs : list PatchFile) : PatchFile :=
  foldl merge_patch_file f fs.

Lemma patch_files_by_key_spec m files :
  Forall (λ f, is_ok (PatchFile_key f) = true) files →
  ∃ m', try_fold insert_patch_file m files = Ok m' ∧
    ∀ key, m' !! key =
      match m !! key, entries_of key files with
      | Some e, es => Some (merge_all e es)
      | None, e :: es => Some (merge_all e es)
      | None, [] => None
      end.
Proof.
  intros Hf. revert m. induction Hf as [|f files Hk _ IH]; intros m.
  { exists m. split; [done|]. intros key. by destruct (m !! key). }
  destruct (PatchFile_key f) as [k|] eqn:Ek; [|done]. cbn [try_fold].
  unfold insert_patch_file at 1. rewrite Ek. cbn [rbind].
  set (m1 := match m !! k with None => <[k:=f]> m
                             | Some e => <[k:=merge_patch_file e f]> m end).
  destruct (IH m1) as (m' & Hm' & Hl). exists m'. split; [done|]. intros key. rewrite Hl.
  unfold entries_of. rewrite filter_cons. destruct (decide (key = k)) as [->|Hne].
  - rewrite decide_True by done. subst m1.
    destruct (m !! k) as [e|]; rewrite lookup_insert_eq; done.
  - rewrite decide_False by congruence. subst m1.
    destruct (m !! k) as [e|]; rewrite lookup_insert_ne by done; done.
Qed.

Lemma merge_all_hunks f fs : pf_hunks (merge_all f fs) = pf_hunks f ++ (fs ≫= pf_hunks).
Proof.
  revert f; induction fs as [|g fs IH]; intros f; cbn; [by rewrite app_nil_r|].
  unfold merge_all in IH. rewrite IH. cbn. by rewrite <- app_assoc.
Qed.

Lemma merge_all_binary f fs :
  pf_is_binary (merge_all f fs) = existsb pf_is_binary (f :: fs).
Proof.
  revert f; induction fs as [|g fs IH]; intros f; cbn; [by rewrite orb_false_r|].
  unfold merge_all in IH. rewrite IH. cbn. by rewrite orb_assoc.
Qed.

(** When every raw entry has a patch entry of its path, the assembled diff lists
    the files of the raw diff in its order, with the raw diff's status, paths
    and object ids; each file carries the hunks of all patch entries of its
    path, in patch order, except that binary files, submodules and mode-only
    changes carry none. *)
Lemma diff_files_join raw_stdout patch_stdout raws patches :
  parse_raw raw_stdout = Ok raws →
  parse_patch (from_utf8_lossy patch_stdout) = Ok patches →
  Forall (λ f, is_ok (PatchFile_key f) = true) patches →
  (∀ r k, r ∈ raws → RawFile_key r = Ok k → entries_of k patches ≠ []) →
  ∃ files, diff_files raw_stdout patch_stdout = Ok files ∧
    Forall2 (λ r f, RawFile_key r = Ok (df_id f) ∧
      df_status f = rf_status r ∧ df_old_path f = rf_old_path r ∧
      df_new_path f = rf_new_path r ∧ df_old_oid f = rf_old_oid r ∧
      df_new_oid f = rf_new_oid r ∧
      df_is_binary f = existsb pf_is_binary (entries_of (df_id f) patches) ∧
      df_hunks f = if df_is_binary f || df_is_submodule f || df_is_mode_only f then []
                   else entries_of (df_id f) patches ≫= pf_hunks) raws files.
Proof.
  intros Hraw Hpatch Hkeys Hjoin. unfold diff_files. rewrite Hraw, Hpatch. cbn [rbind].
  destruct (patch_files_by_key_spec ∅ patches Hkeys) as (m & Hm & Hl).
  unfold patch_files_by_key. rewrite Hm. cbn [rbind].
  assert (Forall (λ r, raw_wf r) raws) as Hwf.
  { unfold parse_raw in Hraw. apply bind_Ok in Hraw as (fs & _ & H).
    by eapply parse_raw_fields_wf. }
  clear Hraw Hpatch Hm.
  induction Hwf as [|r raws Hr _ IH]; [by exists []|].
  destruct IH as (files & Hfiles & H2); [intros r' k Hin; apply Hjoin; set_solver|].
  destruct (raw_wf_key r Hr) as (k & Hk & _).
  pose proof (Hjoin r k ltac:(set_solver) Hk) as Hne.
  destruct (entries_of k patches) as [|e es] eqn:Ees; [done|].
  assert (m !! k = Some (merge_all e es)) as Hlk by (by rewrite Hl, lookup_empty, Ees).
  destruct (diff_file r (merge_all e es) false) as [f|] eqn:Ef.
  2:{ unfold diff_file in Ef. by rewrite Hk in Ef. }
  exists (f :: files). split.
  - apply mapM_Ok. apply mapM_Ok in Hfiles. constructor; [|done].
    unfold join_raw_file. rewrite Hk. cbn [rbind]. by rewrite Hlk.
  - constructor; [|done]. unfold diff_file in Ef. rewrite Hk in Ef. cbn [rbind] in Ef.
    injection Ef as <-. cbn. rewrite Hk, Ees. split_and!; try done.
    + apply merge_all_binary.
    + by rewrite merge_all_hunks.
Qed.

Definition example_diff_raw : list RawFile :=
  [{| rf_status := Renamed; rf_type_change := false; rf_old_mode := Some "100644";
      rf_new_mode := Some "100644"; rf_old_oid := Some "12ab"; rf_new_oid := Some "9f";
      rf_similarity := Some 90%Z; rf_old_path := Some "src/a.rs";
      rf_new_path := Some "src/b.rs" |}].

Lemma diff_files_join_witness :
  ∃ files, diff_files (print_raw example_diff_raw) (print_patch example_patch) = Ok files ∧
    df_id <$> files = ["src/b.rs"].
Proof.
  destruct (diff_files_join (print_raw example_diff_raw) (print_patch example_patch)
    example_diff_raw example_patch) as (files & Hf & H2).
  - vm_compute. reflexivity.
  - vm_compute. reflexivity.
  - by repeat constructor.
  - intros r k [->|Hin]%elem_of_cons; [|by apply elem_of_nil in Hin].
    intros [= <-]. by vm_compute.
  - exists files. split; [exact Hf|].
    apply Forall2_cons_inv_l in H2 as (f & fs & (Hid & _) & Hfs & ->).
    apply Forall2_nil_inv_l in Hfs as ->. cbn. by injection Hid as <-.
Defined.

Definition sql_raw : list RawFile :=
  [{| rf_status := GitRaw.Modified; rf_type_change := false; rf_old_mode := Some "100644";
      rf_new_mode := Some "100644"; rf_old_oid := Some "12ab"; rf_new_oid := Some "9f";
      rf_similarity := None; rf_old_path := Some "q.sql"; rf_new_path := Some "q.sql" |}].

(** An added line whose text starts with "++ " renames the patch entry, so the join
    finds no entry for the file and the whole capture fails. *)
Lemma added_plus_line_fails_capture :
  diff_files (print_raw sql_raw) sql_patch = Err (Message "missing patch entry for q.sql").
Proof. vm_compute. reflexivity. Qed.
