(* ===== verification/Highlight.v ===== *)
(** * Read-time highlighting ([src/src/highlight])

    The syntax channel ([syntax.rs], [tokenize.rs], [mod.rs]), the intraline emphasis
    channel ([intraline.rs]) and the sweep that merges the two ([segment.rs]).  The
    parser of the syntax library, the sequence diff, the display width and the part of
    the alphanumeric table beyond ASCII are parameters.  Offsets are byte offsets; a
    slice that would panic is [None]. *)

From Stdlib Require Import SpecFloat.
From S2P Require Import Prelude RustStr GitRaw GitPatch GitDiff.

(** ** Spans *)

Inductive TokenKind :=
| Keyword | KString | Comment | Number | KType | KFunction | Constant | Operator | Punctuation
| KVariable | Plain.

#[export] Instance TokenKind_eq_dec : EqDecision TokenKind.
Proof. solve_decision. Defined.

Definition TokenKind_as_str (kind : TokenKind) : string :=
  match kind with
  | Keyword => "keyword"
  | KString => "string"
  | Comment => "comment"
  | Number => "number"
  | KType => "type"
  | KFunction => "function"
  | Constant => "constant"
  | Operator => "operator"
  | Punctuation => "punctuation"
  | KVariable => "variable"
  | Plain => "plain"
  end.

Record TokenSpan := { tk_start : nat; tk_end : nat; tk_kind : TokenKind }.
Record EmphSpan := { es_start : nat; es_end : nat }.

Definition RowKey : Type := nat * nat.

(** ** The sweep ([segment.rs]) *)

Record AttributedSegment := {
  sg_start : nat;
  sg_end : nat;
  sg_kind : option TokenKind;
  sg_emphasized : bool
}.

Definition valid_span (text : string) (start end_ : nat) : bool :=
  (start <? end_) && (end_ <=? String.length text) &&
  is_char_boundary text start && is_char_boundary text end_.

(** [Vec::dedup]: consecutive equal elements are one. *)
Fixpoint dedup (l : list nat) : list nat :=
  match l with
  | x :: ((y :: _) as l') => if x =? y then dedup l' else x :: dedup l'
  | l => l
  end.

(** [slice::windows(2)]. *)
Fixpoint windows2 {A} (l : list A) : list (A * A) :=
  match l with
  | x :: ((y :: _) as l') => (x, y) :: windows2 l'
  | _ => []
  end.

Definition token_covers (i : nat) (t : TokenSpan) : bool := (tk_start t <=? i) && (i <? tk_end t).
Definition emph_covers (i : nat) (e : EmphSpan) : bool := (es_start e <=? i) && (i <? es_end e).

Definition segment_points (len : nat) (toks : list TokenSpan) (emph : list EmphSpan) : list nat :=
  dedup (sort_by Nat.compare ([0; len] ++
    concat ((λ t, [tk_start t; tk_end t]) <$> toks) ++
    concat ((λ e, [es_start e; es_end e]) <$> emph))).

Definition segment_of (toks : list TokenSpan) (emph : list EmphSpan) (window : nat * nat)
    : list AttributedSegment :=
  let '(a, b) := window in
  if b <=? a then [] else
  [{| sg_start := a; sg_end := b;
      sg_kind := tk_kind <$> List.find (token_covers a) toks;
      sg_emphasized := existsb (emph_covers a) emph |}].

Definition attributed_segments (text : string) (tokens : list TokenSpan) (emphasis : list EmphSpan)
    : list AttributedSegment :=
  let toks := filter (λ t, valid_span text (tk_start t) (tk_end t) = true) tokens in
  let emph := filter (λ e, valid_span text (es_start e) (es_end e) = true) emphasis in
  concat (segment_of toks emph <$> windows2 (segment_points (String.length text) toks emph)).

(** ** Language detection and the line tokenizer ([syntax.rs], [tokenize.rs]) *)

(** What the syntax library provides. [parse_line] gives the operations of a line, or
    nothing on a parse error, and the next parse state; [stack_apply] is the stack an
    operation leaves, also when it fails. *)
Class Syntect := {
  SyntaxReference : Type;
  ParseState : Type;
  ScopeStack : Type;
  ScopeStackOp : Type;
  Scope : Type;
  find_syntax_by_extension : string → option SyntaxReference;
  ParseState_new : SyntaxReference → ParseState;
  parse_line : ParseState → string → option (list (nat * ScopeStackOp)) * ParseState;
  ScopeStack_new : ScopeStack;
  stack_apply : ScopeStack → ScopeStackOp → ScopeStack;
  as_slice : ScopeStack → list Scope;
  Scope_new : string → Scope;
  is_prefix_of : Scope → Scope → bool
}.

Section syntax.
Context `{Syntect}.

Definition syntax_for_path (path : string) : option SyntaxReference :=
  match path_extension path ≫= find_syntax_by_extension with
  | Some syntax => Some syntax
  | None => path_file_name path ≫= find_syntax_by_extension
  end.

Definition syntax_for_paths (new_path old_path : option string) : option SyntaxReference :=
  match new_path ≫= syntax_for_path with
  | Some syntax => Some syntax
  | None => old_path ≫= syntax_for_path
  end.

Definition classifier : list (Scope * TokenKind) := [
  (Scope_new "comment", Comment);
  (Scope_new "string", KString);
  (Scope_new "constant.numeric", Number);
  (Scope_new "constant", Constant);
  (Scope_new "keyword.operator", Operator);
  (Scope_new "keyword", Keyword);
  (Scope_new "storage", Keyword);
  (Scope_new "entity.name.function", KFunction);
  (Scope_new "support.function", KFunction);
  (Scope_new "entity.name.type", KType);
  (Scope_new "support.type", KType);
  (Scope_new "entity.name.tag", KType);
  (Scope_new "variable", KVariable);
  (Scope_new "entity.other.attribute-name", KVariable);
  (Scope_new "punctuation", Punctuation)].

Fixpoint classify_scopes (scopes : list Scope) : TokenKind :=
  match scopes with
  | [] => Plain
  | scope :: scopes =>
      match List.find (λ entry, is_prefix_of entry.1 scope) classifier with
      | Some (_, kind) => kind
      | None => classify_scopes scopes
      end
  end.

Definition classify (stack : ScopeStack) : TokenKind := classify_scopes (rev (as_slice stack)).

Definition push_span (spans : list TokenSpan) (start end_ : nat) (kind : TokenKind) : list TokenSpan :=
  if end_ <=? start then spans
  else spans ++ [{| tk_start := start; tk_end := end_; tk_kind := kind |}].

(** [out] is kept reversed: its head is the last span pushed. *)
Definition coalesce_step (out : list TokenSpan) (span : TokenSpan) : list TokenSpan :=
  if bool_decide (tk_kind span = Plain) then out else
  match out with
  | last :: rest =>
      if bool_decide (tk_kind last = tk_kind span) && (tk_end last =? tk_start span)
      then {| tk_start := tk_start last; tk_end := tk_end span; tk_kind := tk_kind last |} :: rest
      else span :: out
  | [] => [span]
  end.

Definition coalesce_drop_plain (spans : list TokenSpan) : list TokenSpan :=
  rev (foldl coalesce_step [] spans).

Record LineTokenizer := { lt_parse : ParseState; lt_stack : ScopeStack }.

Definition LineTokenizer_new (syntax : SyntaxReference) : LineTokenizer :=
  {| lt_parse := ParseState_new syntax; lt_stack := ScopeStack_new |}.

Record LineLoop := { ll_spans : list TokenSpan; ll_last : nat; ll_stack : ScopeStack }.

Definition line_step (len : nat) (s : LineLoop) (p : nat * ScopeStackOp) : LineLoop :=
  let '(offset, op) := p in
  {| ll_spans := push_span (ll_spans s) (ll_last s) (Nat.min offset len) (classify (ll_stack s));
     ll_last := offset;
     ll_stack := stack_apply (ll_stack s) op |}.

Definition next_line (tokenizer : LineTokenizer) (raw : string) : list TokenSpan * LineTokenizer :=
  let with_nl := raw +:+ String newline EmptyString in
  let '(parsed, parse) := parse_line (lt_parse tokenizer) with_nl in
  match parsed with
  | None => ([], {| lt_parse := parse; lt_stack := lt_stack tokenizer |})
  | Some ops =>
      let len := String.length raw in
      let s := foldl (line_step len)
        {| ll_spans := []; ll_last := 0; ll_stack := lt_stack tokenizer |} ops in
      (coalesce_drop_plain
        (push_span (ll_spans s) (Nat.min (ll_last s) len) len (classify (ll_stack s))),
       {| lt_parse := parse; lt_stack := ll_stack s |})
  end.

(** ** A file ([mod.rs]) *)

Record FileLoop := {
  fl_old : LineTokenizer;
  fl_new : LineTokenizer;
  fl_out : gmap RowKey (list TokenSpan)
}.

Definition highlight_row (h : nat) (s : FileLoop) (p : nat * DiffRow) : FileLoop :=
  let '(r, row) := p in
  let '(spans, old, new) :=
    match row_kind row with
    | RContext =>
        let '(_, old) := next_line (fl_old s) (row_text row) in
        let '(spans, new) := next_line (fl_new s) (row_text row) in (spans, old, new)
    | RRemoved => let '(spans, old) := next_line (fl_old s) (row_text row) in (spans, old, fl_new s)
    | RAdded => let '(spans, new) := next_line (fl_new s) (row_text row) in (spans, fl_old s, new)
    end in
  {| fl_old := old; fl_new := new;
     fl_out := match spans with [] => fl_out s | _ => <[(h, r) := spans]> (fl_out s) end |}.

Definition enumerate {A} (l : list A) : list (nat * A) := zip (seq 0 (length l)) l.

Definition highlight_hunk (syntax : SyntaxReference) (out : gmap RowKey (list TokenSpan))
    (p : nat * ReviewHunk) : gmap RowKey (list TokenSpan) :=
  let '(h, hunk) := p in
  fl_out (foldl (highlight_row h)
    {| fl_old := LineTokenizer_new syntax; fl_new := LineTokenizer_new syntax; fl_out := out |}
    (enumerate (hunk_rows hunk))).

Definition highlight_file (file : DiffFile) : gmap RowKey (list TokenSpan) :=
  if df_is_binary file || df_is_submodule file || df_is_mode_only file then ∅ else
  match syntax_for_paths (df_new_path file) (df_old_path file) with
  | None => ∅
  | Some syntax => foldl (highlight_hunk syntax) ∅ (enumerate (df_hunks file))
  end.
End syntax.

(** ** Intraline emphasis ([intraline.rs]) *)

(** The alphanumeric characters beyond ASCII and the display width of a text. *)
Class Unicode := {
  unicode_alphanumeric : string → bool;
  display_width : string → nat
}.

Inductive DiffOp :=
| OpEqual (old_index new_index len : nat)
| OpDelete (old_index old_len new_index : nat)
| OpInsert (old_index new_index new_len : nat)
| OpReplace (old_index old_len new_index new_len : nat).

Class Similar := { capture_diff_slices : list string → list string → list DiffOp }.

(** ** Double-precision division, as the distance guard uses it *)

Definition f64_of_nat (n : nat) : spec_float := binary_normalize 53 1024 (Z.of_nat n) 0 false.
Definition f64_div (n d : nat) : spec_float := SFdiv 53 1024 (f64_of_nat n) (f64_of_nat d).

(** The literal [0.6]. *)
Definition MAX_LINE_DISTANCE : spec_float := S754_finite false 5404319552844595 (-53).

Section emphasis.
Context `{Unicode} `{Similar}.

Definition is_alphanumeric (c : string) : bool :=
  match c with
  | String a EmptyString => in_range 48 57 a || in_range 65 90 a || in_range 97 122 a
  | _ => unicode_alphanumeric c
  end.

Definition is_word (c : string) : bool := is_alphanumeric c || String.eqb c "_".

Definition tokenize_step (s : list (nat * nat) * option nat) (p : nat * string)
    : list (nat * nat) * option nat :=
  let '(out, word_start) := s in
  let '(i, c) := p in
  if is_word c then (out, Some (default i word_start))
  else
    let out := match word_start with Some ws => out ++ [(ws, i)] | None => out end in
    (out ++ [(i, i + String.length c)], None).

Definition tokenize (line : string) : list (nat * nat) :=
  let '(out, word_start) := foldl tokenize_step ([], None) (char_indices line) in
  match word_start with
  | Some ws => out ++ [(ws, String.length line)]
  | None => out
  end.

Definition section_width (line : string) (start end_ : nat) : option nat :=
  (λ s, display_width (trim s)) <$> str_slice line start end_.

(** [out] is kept reversed. *)
Definition coalesce_emph_step (out : list EmphSpan) (s : EmphSpan) : list EmphSpan :=
  match out with
  | last :: rest =>
      if es_start s <=? es_end last
      then {| es_start := es_start last; es_end := Nat.max (es_end last) (es_end s) |} :: rest
      else s :: out
  | [] => [s]
  end.

Definition coalesce (spans : list EmphSpan) : list EmphSpan :=
  rev (foldl coalesce_emph_step []
    (sort_by (λ l r, Nat.compare (es_start l) (es_start r)) spans)).

(** The byte range of the tokens [i, i + len). *)
Definition token_range (ranges : list (nat * nat)) (i len : nat) : option (nat * nat) :=
  first ← ranges !! i;
  match i + len with
  | O => None
  | S k => last ← ranges !! k; Some (first.1, last.2)
  end.

Record PairLoop := {
  pl_del : list EmphSpan;
  pl_ins : list EmphSpan;
  pl_numer : nat;
  pl_denom : nat
}.

(** A changed section: its width counts, and it is a span unless it is blank. *)
Definition changed_section (line : string) (ranges : list (nat * nat)) (i len : nat)
    (spans : list EmphSpan) : option (list EmphSpan * nat) :=
  range ← token_range ranges i len;
  w ← section_width line range.1 range.2;
  Some (if 0 <? w then spans ++ [{| es_start := range.1; es_end := range.2 |}] else spans, w).

Definition pair_step (minus plus : string) (mt pt : list (nat * nat)) (s : PairLoop) (op : DiffOp)
    : option PairLoop :=
  match op with
  | OpEqual old_index _ len =>
      range ← token_range mt old_index len;
      w ← section_width minus range.1 range.2;
      Some {| pl_del := pl_del s; pl_ins := pl_ins s; pl_numer := pl_numer s;
              pl_denom := pl_denom s + 2 * w |}
  | OpDelete old_index old_len _ =>
      d ← changed_section minus mt old_index old_len (pl_del s);
      Some {| pl_del := d.1; pl_ins := pl_ins s; pl_numer := pl_numer s + d.2;
              pl_denom := pl_denom s + d.2 |}
  | OpInsert _ new_index new_len =>
      i ← changed_section plus pt new_index new_len (pl_ins s);
      Some {| pl_del := pl_del s; pl_ins := i.1; pl_numer := pl_numer s + i.2;
              pl_denom := pl_denom s + i.2 |}
  | OpReplace old_index old_len new_index new_len =>
      d ← changed_section minus mt old_index old_len (pl_del s);
      i ← changed_section plus pt new_index new_len (pl_ins s);
      Some {| pl_del := d.1; pl_ins := i.1; pl_numer := pl_numer s + d.2 + i.2;
              pl_denom := pl_denom s + d.2 + i.2 |}
  end.

(** A loop that may panic. *)
Fixpoint foldM {A S} (f : S → A → option S) (s : S) (l : list A) : option S :=
  match l with [] => Some s | x :: l => s' ← f s x; foldM f s' l end.

Definition diff_pair (minus plus : string) : option (list EmphSpan * list EmphSpan * spec_float) :=
  let mt := tokenize minus in
  let pt := tokenize plus in
  ms ← mapM (λ p, str_slice minus p.1 p.2) mt;
  ps ← mapM (λ p, str_slice plus p.1 p.2) pt;
  s ← foldM (pair_step minus plus mt pt)
    {| pl_del := []; pl_ins := []; pl_numer := 0; pl_denom := 0 |} (capture_diff_slices ms ps);
  let distance := if 0 <? pl_denom s then f64_div (pl_numer s) (pl_denom s) else S754_zero false in
  Some (coalesce (pl_del s), coalesce (pl_ins s), distance).

Abbreviation emph_map := (gmap RowKey (list EmphSpan)).

(** [out.insert] of a non-empty list. *)
Definition insert_spans (key : RowKey) (spans : list EmphSpan) (out : emph_map) : emph_map :=
  match spans with [] => out | _ => <[key := spans]> out end.

(** The first plus line within the guard, with the number of lines rejected before it. *)
Fixpoint find_homolog (mline : string) (considered : nat) (plus : list (nat * string))
    : option (option (nat * nat * list EmphSpan * list EmphSpan)) :=
  match plus with
  | [] => Some None
  | (pr, pline) :: plus =>
      d ← diff_pair mline pline;
      let '(del, ins, dist) := d in
      if SFleb dist MAX_LINE_DISTANCE then Some (Some (considered, pr, del, ins))
      else find_homolog mline (S considered) plus
  end.

Definition flush_step (h : nat) (plus : list (nat * string)) (s : nat * emph_map)
    (p : nat * string) : option (nat * emph_map) :=
  let '(plus_index, out) := s in
  let '(mr, mline) := p in
  found ← find_homolog mline 0 (drop plus_index plus);
  Some (match found with
        | None => (plus_index, out)
        | Some (considered, pr, del, ins) =>
            (plus_index + considered + 1,
             insert_spans (h, pr) ins (insert_spans (h, mr) del out))
        end).

Definition flush_block (h : nat) (minus plus : list (nat * string)) (out : emph_map)
    : option emph_map :=
  snd <$> foldM (flush_step h plus) (0, out) minus.

Record BlockLoop := {
  bl_minus : list (nat * string);
  bl_plus : list (nat * string);
  bl_out : emph_map
}.

Definition emphasis_row (h : nat) (s : BlockLoop) (p : nat * DiffRow) : option BlockLoop :=
  let '(r, row) := p in
  match row_kind row with
  | RRemoved =>
      match bl_plus s with
      | [] => Some {| bl_minus := bl_minus s ++ [(r, row_text row)]; bl_plus := []; bl_out := bl_out s |}
      | plus =>
          out ← flush_block h (bl_minus s) plus (bl_out s);
          Some {| bl_minus := [(r, row_text row)]; bl_plus := []; bl_out := out |}
      end
  | RAdded =>
      Some {| bl_minus := bl_minus s; bl_plus := bl_plus s ++ [(r, row_text row)]; bl_out := bl_out s |}
  | RContext =>
      out ← flush_block h (bl_minus s) (bl_plus s) (bl_out s);
      Some {| bl_minus := []; bl_plus := []; bl_out := out |}
  end.

Definition emphasis_hunk (out : emph_map) (p : nat * ReviewHunk) : option emph_map :=
  let '(h, hunk) := p in
  s ← foldM (emphasis_row h) {| bl_minus := []; bl_plus := []; bl_out := out |}
    (enumerate (hunk_rows hunk));
  flush_block h (bl_minus s) (bl_plus s) (bl_out s).

Definition emphasis_file (file : DiffFile) : option emph_map :=
  if df_is_binary file || df_is_submodule file || df_is_mode_only file then Some ∅
  else foldM emphasis_hunk ∅ (enumerate (df_hunks file)).
End emphasis.
