(* ===== verification/HighlightProofs.v ===== *)
(** * Highlighting covers every row exactly

    The segments of a row tile its text and carry the attributes of every byte in them;
    a line's tokens say of every byte what the scope stack at it says; the two sides of
    a hunk are tokenized as separate streams; intraline emphasis never fails on valid
    text and marks only what the diff of a pair within the guard marks. *)

From Stdlib Require Import SpecFloat.
From S2P Require Import Prelude RustStr GitRaw GitPatch GitDiff Highlight.

(** ** Slices *)

Lemma str_drop_drop n m s : str_drop m (str_drop n s) = str_drop (n + m) s.
Proof. revert s. induction n as [|n IH]; intros [|c s]; cbn; [done..| |by apply IH]. by destruct m. Qed.

Lemma str_drop_length n s : String.length (str_drop n s) = String.length s - n.
Proof. revert s. induction n as [|n IH]; intros [|c s]; cbn; [done..|]. apply IH. Qed.

Lemma str_drop_all s : str_drop (String.length s) s = EmptyString.
Proof. induction s; [done|]. by cbn. Qed.

Lemma get_length i s c : String.get i s = Some c → i < String.length s.
Proof. revert i. induction s as [|c' s IH]; intros [|i]; cbn; [done..|lia|]. intros ?%IH. lia. Qed.

Lemma boundary_length s i : is_char_boundary s i = true → i ≤ String.length s.
Proof.
  unfold is_char_boundary. rewrite orb_true_iff, Nat.eqb_eq. intros [->|Hi]; [lia|].
  destruct (String.get i s) eqn:E; [apply get_length in E; lia|]. apply Nat.eqb_eq in Hi. lia.
Qed.

Lemma get_end s : String.get (String.length s) s = None.
Proof. induction s; [done|]. by cbn. Qed.

Lemma boundary_end s : is_char_boundary s (String.length s) = true.
Proof. unfold is_char_boundary. rewrite get_end, Nat.eqb_refl. apply orb_true_r. Qed.

(** ** The sweep *)

Lemma elem_of_dedup x l : x ∈ dedup l ↔ x ∈ l.
Proof.
  induction l as [|y l IH]; [done|]. destruct l as [|z l]; [done|].
  change (dedup (y :: z :: l)) with (if y =? z then dedup (z :: l) else y :: dedup (z :: l)).
  destruct (Nat.eqb_spec y z) as [->|]; rewrite ?elem_of_cons, IH, ?elem_of_cons; tauto.
Qed.

Lemma dedup_sorted l : StronglySorted le l → StronglySorted lt (dedup l).
Proof.
  induction 1 as [|y l Hl IH Hy]; [constructor|]. destruct l as [|z l]; [by repeat constructor|].
  change (dedup (y :: z :: l)) with (if y =? z then dedup (z :: l) else y :: dedup (z :: l)).
  destruct (Nat.eqb_spec y z) as [->|Hne]; [done|]. constructor; [done|].
  apply Forall_forall. intros x Hx. rewrite elem_of_dedup in Hx. apply Forall_cons in Hy as [Hyz Hy].
  apply elem_of_cons in Hx as [->|Hx]; [lia|]. inversion Hl as [|? ? _ Hz]; subst.
  eapply Forall_forall in Hz; [|done]. lia.
Qed.

Section windows.
Context (a : nat) (l : list nat) (Hs : StronglySorted lt (a :: l)).

Lemma windows2_spec x y :
  (x, y) ∈ windows2 (a :: l) →
  x < y ∧ x ∈ a :: l ∧ y ∈ a :: l ∧ ∀ z, z ∈ a :: l → z ≤ x ∨ y ≤ z.
Proof.
  revert a Hs. induction l as [|b l' IH]; intros a' Hs' Hin; [by apply elem_of_nil in Hin|].
  cbn [windows2] in Hin. inversion Hs' as [|? ? Hs2 Ha]; subst.
  assert (∀ z, z ∈ b :: l' → a' < z) as Ha' by (intros z Hz; by eapply Forall_forall in Ha).
  assert (∀ z, z ∈ b :: l' → b ≤ z) as Hb.
  { intros z [->|Hz]%elem_of_cons; [lia|]. inversion Hs2 as [|? ? _ Hb]; subst.
    eapply Forall_forall in Hb; [|done]. lia. }
  apply elem_of_cons in Hin as [[= -> ->]|Hin].
  - split_and!; [apply Ha'; by left|by left|right; by left|]. intros z [->|Hz]%elem_of_cons; [lia|].
    right. by apply Hb.
  - apply IH in Hin as (Hxy & Hx & Hy & Hz); [|done]. split_and!; [done|by right|by right|].
    intros z [->|?]%elem_of_cons; [|auto]. left. apply Ha' in Hx. lia.
Qed.
End windows.

(** The segments tile [a, b). *)
Fixpoint tiles (a : nat) (segments : list AttributedSegment) (b : nat) : Prop :=
  match segments with
  | [] => a = b
  | s :: segments => sg_start s = a ∧ sg_start s < sg_end s ∧ tiles (sg_end s) segments b
  end.

Lemma windows2_tile toks emph a l b :
  StronglySorted lt (a :: l) → last (a :: l) = Some b →
  tiles a (concat (segment_of toks emph <$> windows2 (a :: l))) b.
Proof.
  revert a. induction l as [|c l IH]; intros a Hs Hl; [by injection Hl|].
  inversion Hs as [|? ? Hs2 Ha]; subst. apply Forall_cons in Ha as [Hac _].
  change (windows2 (a :: c :: l)) with ((a, c) :: windows2 (c :: l)). cbn [fmap list_fmap concat].
  unfold segment_of at 1. rewrite (proj2 (Nat.leb_gt _ _)) by done. cbn. split_and!; [done..|].
  by apply IH.
Qed.

Lemma tiles_concat text segments a :
  tiles a segments (String.length text) →
  (∀ s, s ∈ segments → is_char_boundary text (sg_start s) = true ∧
    is_char_boundary text (sg_end s) = true) →
  ∃ pieces, mapM (λ s, str_slice text (sg_start s) (sg_end s)) segments = Some pieces ∧
    String.concat "" pieces = str_drop a text.
Proof.
  revert a. induction segments as [|s segments IH]; intros a Ht Hb.
  { cbn in Ht. subst. exists []. split; [done|]. by rewrite str_drop_all. }
  destruct Ht as (<- & Hlt & Ht). destruct (IH _ Ht) as (pieces & Hp & Hc).
  { intros x Hx. apply Hb. by right. }
  destruct (Hb s) as [Hs He]; [by left|].
  exists (str_take (sg_end s - sg_start s) (str_drop (sg_start s) text) :: pieces). split.
  { apply mapM_Some in Hp. apply mapM_Some. constructor; [|done]. unfold str_slice.
    by rewrite Hs, He, (proj2 (Nat.leb_le _ _)) by lia. }
  assert (∀ x l, String.concat "" (x :: l) = x +:+ String.concat "" l) as Hcons.
  { intros x [|y l]; cbn; [by rewrite append_nil_r|done]. }
  rewrite Hcons, Hc. replace (sg_end s) with (sg_start s + (sg_end s - sg_start s)) at 2 by lia.
  rewrite <- str_drop_drop. apply str_take_drop.
Qed.

Definition valid_tokens (text : string) (tokens : list TokenSpan) : list TokenSpan :=
  filter (λ t, valid_span text (tk_start t) (tk_end t) = true) tokens.
Definition valid_emphasis (text : string) (emphasis : list EmphSpan) : list EmphSpan :=
  filter (λ e, valid_span text (es_start e) (es_end e) = true) emphasis.

Lemma valid_span_spec text a b :
  valid_span text a b = true ↔
  a < b ∧ is_char_boundary text a = true ∧ is_char_boundary text b = true.
Proof.
  unfold valid_span. rewrite !andb_true_iff, Nat.ltb_lt, Nat.leb_le. split; [tauto|].
  intros (? & ? & Hb). split_and!; auto. by apply boundary_length.
Qed.

(** The end points: those of the row and of its valid spans. *)
Definition end_point (text : string) (tokens : list TokenSpan) (emphasis : list EmphSpan) (p : nat)
    : Prop :=
  p = 0 ∨ p = String.length text ∨
  (∃ t, t ∈ valid_tokens text tokens ∧ (p = tk_start t ∨ p = tk_end t)) ∨
  ∃ e, e ∈ valid_emphasis text emphasis ∧ (p = es_start e ∨ p = es_end e).

Section sweep.
Context (text : string) (tokens : list TokenSpan) (emphasis : list EmphSpan).
Abbreviation toks := (valid_tokens text tokens).
Abbreviation emph := (valid_emphasis text emphasis).
Abbreviation points := (segment_points (String.length text) toks emph).

Lemma elem_of_points p : p ∈ points ↔ end_point text tokens emphasis p.
Proof.
  unfold segment_points, end_point. rewrite elem_of_dedup, elem_of_sort_by, !elem_of_app.
  rewrite !elem_of_concat_fmap. setoid_rewrite elem_of_cons. setoid_rewrite elem_of_cons.
  setoid_rewrite elem_of_nil. naive_solver.
Qed.

Lemma points_boundary p : p ∈ points → is_char_boundary text p = true.
Proof.
  rewrite elem_of_points. intros [->|[->|[(t & Ht & Hp)|(e & He & Hp)]]].
  - done.
  - apply boundary_end.
  - apply list_elem_of_filter in Ht as [Ht%valid_span_spec _]. destruct Hp as [->| ->]; tauto.
  - apply list_elem_of_filter in He as [He%valid_span_spec _]. destruct Hp as [->| ->]; tauto.
Qed.

Lemma points_sorted : StronglySorted lt points.
Proof.
  apply dedup_sorted. generalize (sort_by_sorted Nat.compare ([0; String.length text] ++
    concat ((λ t, [tk_start t; tk_end t]) <$> toks) ++
    concat ((λ e, [es_start e; es_end e]) <$> emph))).
  induction 1 as [|x l _ IH Hx]; constructor; [done|]. eapply Forall_impl; [exact Hx|].
  intros y. unfold cmp_le. rewrite Nat.compare_gt_iff. lia.
Qed.

(** The points run from the start of the row to its end. *)
Lemma points_ends : ∃ l, points = 0 :: l ∧ last points = Some (String.length text).
Proof.
  assert (0 ∈ points ∧ String.length text ∈ points) as [H0 Hl] by (rewrite !elem_of_points; unfold end_point; auto).
  assert (∀ p, p ∈ points → p ≤ String.length text) as Hle.
  { intros p Hp. by apply boundary_length, points_boundary. }
  pose proof points_sorted as Hs. destruct points as [|x l]; [by apply elem_of_nil in H0|].
  assert (x = 0) as ->.
  { apply elem_of_cons in H0 as [->|H0]; [done|]. inversion Hs as [|? ? _ Hx]; subst.
    eapply Forall_forall in Hx; [|done]. lia. }
  exists l. split; [done|]. revert Hs Hl Hle. generalize (0 :: l). clear.
  induction l as [|x l IH]; [by intros _ ?%elem_of_nil|]. intros Hs Hl Hle. destruct l as [|y l].
  { by apply list_elem_of_singleton in Hl as ->. }
  change (last (x :: y :: l)) with (last (y :: l)). inversion Hs as [|? ? Hs' Hx]; subst.
  apply IH; [done| |]; [|intros p Hp; apply Hle; by right].
  apply elem_of_cons in Hl as [Hl|Hl]; [|done]. exfalso.
  apply Forall_cons in Hx as [Hxy _]. assert (y ≤ String.length text) by (apply Hle; right; by left). lia.
Qed.

(** Between two points nothing changes. *)
Lemma cover_same a b i :
  (a, b) ∈ windows2 points → a ≤ i < b →
  List.find (token_covers a) toks = List.find (token_covers i) toks ∧
  existsb (emph_covers a) emph = existsb (emph_covers i) emph.
Proof.
  destruct points_ends as (l & Hp & _). intros Hw Hi.
  assert (∀ p, p ∈ points → p ≤ a ∨ b ≤ p) as Hbetween.
  { intros p. pose proof points_sorted as Hs. rewrite Hp in *. by apply (windows2_spec 0 l Hs a b). }
  assert (∀ s e, s ∈ points → e ∈ points → (s <=? a) && (a <? e) = (s <=? i) && (i <? e)) as Hsame.
  { intros s e [?|?]%Hbetween [?|?]%Hbetween; apply eq_true_iff_eq;
      rewrite !andb_true_iff, !Nat.leb_le, !Nat.ltb_lt; lia. }
  split.
  - assert (∀ t, t ∈ toks → token_covers a t = token_covers i t) as Ht.
    { intros t Ht. apply Hsame; apply elem_of_points; unfold end_point; eauto 10. }
    revert Ht. generalize toks. induction l0 as [|t l0 IH]; intros Ht; [done|]. cbn.
    rewrite (Ht t), IH by set_solver. done.
  - assert (∀ e, e ∈ emph → emph_covers a e = emph_covers i e) as He.
    { intros e He. apply Hsame; apply elem_of_points; unfold end_point; eauto 10. }
    revert He. generalize emph. induction l0 as [|t l0 IH]; intros Ht; [done|]. cbn.
    rewrite (Ht t), IH by set_solver. done.
Qed.

Lemma elem_of_segments s :
  s ∈ attributed_segments text tokens emphasis →
  ∃ a b, (a, b) ∈ windows2 points ∧ s = {| sg_start := a; sg_end := b;
    sg_kind := tk_kind <$> List.find (token_covers a) toks;
    sg_emphasized := existsb (emph_covers a) emph |}.
Proof.
  unfold attributed_segments. rewrite elem_of_concat_fmap. intros ([a b] & Hw & Hs).
  unfold segment_of in Hs. destruct (b <=? a); [by apply elem_of_nil in Hs|].
  apply list_elem_of_singleton in Hs as ->. eauto.
Qed.

Lemma segments_facts s :
  s ∈ attributed_segments text tokens emphasis →
  sg_start s ∈ points ∧ sg_end s ∈ points ∧
  ∀ i, sg_start s ≤ i < sg_end s →
    sg_kind s = tk_kind <$> List.find (token_covers i) toks ∧
    sg_emphasized s = existsb (emph_covers i) emph.
Proof.
  intros (a & b & Hw & ->)%elem_of_segments. cbn [sg_start sg_end sg_kind sg_emphasized].
  destruct points_ends as (l & Hp & _).
  pose proof points_sorted as Hs. split_and!.
  1,2: rewrite Hp in *; by apply (windows2_spec 0 l Hs a b).
  intros i Hi. by destruct (cover_same a b i Hw Hi) as [-> ->].
Qed.
End sweep.

(** C28. The segments of a row are exact. They tile its text from the first byte to the
    last without gap, overlap or empty piece, so that slicing the row at them succeeds
    and gives the row back; each carries, for every byte in it, the kind of the first
    valid token over the byte and whether a valid emphasis span covers it; and they are
    cut only at the ends of valid spans. Spans that are reversed, out of range or off a
    character boundary have no effect. *)
Theorem attributed_segments_exact text tokens emphasis :
  let segments := attributed_segments text tokens emphasis in
  tiles 0 segments (String.length text) ∧
  (∃ pieces, mapM (λ s, str_slice text (sg_start s) (sg_end s)) segments = Some pieces ∧
    String.concat "" pieces = text) ∧
  ∀ s, s ∈ segments →
    end_point text tokens emphasis (sg_start s) ∧ end_point text tokens emphasis (sg_end s) ∧
    ∀ i, sg_start s ≤ i < sg_end s →
      sg_kind s = tk_kind <$> List.find (token_covers i) (valid_tokens text tokens) ∧
      sg_emphasized s = existsb (emph_covers i) (valid_emphasis text emphasis).
Proof.
  cbn zeta. assert (tiles 0 (attributed_segments text tokens emphasis) (String.length text)) as Ht.
  { destruct (points_ends text tokens emphasis) as (l & Hp & Hl).
    pose proof (points_sorted text tokens emphasis) as Hs. unfold attributed_segments.
    fold (valid_tokens text tokens) (valid_emphasis text emphasis). rewrite Hp in *.
    by apply windows2_tile. }
  split; [done|]. split.
  - apply tiles_concat in Ht; [done|]. intros s (Ha & Hb & _)%segments_facts.
    split; by eapply points_boundary.
  - intros s (Ha & Hb & Hi)%segments_facts. by rewrite <- !elem_of_points.
Qed.

(** ** A line's tokens *)

(** Some span over byte [i] has kind [k]. *)
Definition has_kind (l : list TokenSpan) (i : nat) (k : TokenKind) : Prop :=
  ∃ t, t ∈ l ∧ token_covers i t = true ∧ tk_kind t = k.

Lemma has_kind_cons t l i k :
  has_kind (t :: l) i k ↔ (token_covers i t = true ∧ tk_kind t = k) ∨ has_kind l i k.
Proof.
  unfold has_kind. setoid_rewrite elem_of_cons. split.
  - intros (x & [->|?] & ? & ?); [by left|right; eauto].
  - intros [[? ?]|(x & ? & ? & ?)]; eauto.
Qed.

Lemma has_kind_perm l l' i k : l ≡ₚ l' → has_kind l i k ↔ has_kind l' i k.
Proof. intros Hp. unfold has_kind. by setoid_rewrite Hp. Qed.

Lemma token_covers_spec i t : token_covers i t = true ↔ tk_start t ≤ i < tk_end t.
Proof. unfold token_covers. by rewrite andb_true_iff, Nat.leb_le, Nat.ltb_lt. Qed.

(** Spans that follow one another from [a] to [b] without a gap. *)
Fixpoint chain (a : nat) (l : list TokenSpan) (b : nat) : Prop :=
  match l with
  | [] => a = b
  | t :: l => tk_start t = a ∧ a < tk_end t ∧ chain (tk_end t) l b
  end.

Lemma chain_snoc a l t b :
  chain a (l ++ [t]) b ↔ chain a l (tk_start t) ∧ tk_start t < tk_end t ∧ tk_end t = b.
Proof.
  revert a. induction l as [|x l IH]; intros a; cbn; [|rewrite IH; tauto].
  split; [intros (<- & ? & ?)|intros (-> & ? & ?)]; auto.
Qed.

(** What [coalesce_drop_plain] keeps, last span first. *)
Record coalesced (l out : list TokenSpan) (b : nat) : Prop := {
  co_order : StronglySorted (λ x y, tk_end y ≤ tk_start x) out;
  co_span t : t ∈ out → tk_start t < tk_end t ∧ tk_end t ≤ b ∧ tk_kind t ≠ Plain;
  co_maximal x y : x ∈ out → y ∈ out → tk_end y = tk_start x → tk_kind x ≠ tk_kind y;
  co_kind i k : k ≠ Plain → has_kind out i k ↔ has_kind l i k;
  co_ends (P : nat → Prop) : (∀ t, t ∈ l → P (tk_start t) ∧ P (tk_end t)) →
    ∀ t, t ∈ out → P (tk_start t) ∧ P (tk_end t)
}.

(** One step, over a span that starts where the list ends. *)
Section coalesce_step.
Context (l out : list TokenSpan) (t : TokenSpan).
Context (Hc : coalesced l out (tk_start t)) (Ht : tk_start t < tk_end t).

Lemma kind_snoc i k : has_kind (l ++ [t]) i k ↔ (token_covers i t = true ∧ tk_kind t = k) ∨ has_kind l i k.
Proof. rewrite (has_kind_perm _ (t :: l)) by (by rewrite Permutation_app_comm). apply has_kind_cons. Qed.

Lemma coalesce_plain : tk_kind t = Plain → coalesced (l ++ [t]) out (tk_end t).
Proof using Hc Ht.
  destruct Hc as [Ho Hs Hm Hk He]. intros Hp. split; [done| |done| |].
  - intros x (? & ? & ?)%Hs. split_and!; [done|lia|done].
  - intros i k Hn. rewrite kind_snoc, Hk by done. split; [by right|]. intros [[_ ?]|?]; [congruence|done].
  - intros P HP. apply He. intros x Hx. apply HP, elem_of_app. by left.
Qed.

Lemma coalesce_push :
  tk_kind t ≠ Plain → (∀ x, x ∈ out → tk_end x = tk_start t → tk_kind t ≠ tk_kind x) →
  coalesced (l ++ [t]) (t :: out) (tk_end t).
Proof using Hc Ht.
  destruct Hc as [Ho Hs Hm Hk He]. intros Hp Hnew. split.
  - constructor; [done|]. apply Forall_forall. intros x Hx. by apply Hs.
  - intros x [->|(? & ? & ?)%Hs]%elem_of_cons; [done|]. split_and!; [done|lia|done].
  - intros x y [->|Hx]%elem_of_cons [->|Hy]%elem_of_cons Heq; [lia|by apply Hnew| |by apply Hm].
    apply Hs in Hx. lia.
  - intros i k Hn. by rewrite has_kind_cons, kind_snoc, Hk.
  - intros P HP x [->|Hx]%elem_of_cons; [apply HP, elem_of_app; right; by left|].
    eapply He; [|done]. intros y Hy. apply HP, elem_of_app. by left.
Qed.

Lemma coalesce_merge last rest :
  out = last :: rest → tk_kind last = tk_kind t → tk_end last = tk_start t → tk_kind t ≠ Plain →
  coalesced (l ++ [t])
    ({| tk_start := tk_start last; tk_end := tk_end t; tk_kind := tk_kind last |} :: rest) (tk_end t).
Proof using Hc Ht.
  intros -> Hkind Heq Hp. destruct Hc as [Ho Hs Hm Hk He].
  inversion Ho as [|? ? Ho' Hlast]; subst. rewrite Forall_forall in Hlast.
  destruct (Hs last) as (Hl1 & Hl2 & Hl3); [by left|].
  assert (∀ x, x ∈ rest → tk_start x < tk_end x ∧ tk_end x ≤ tk_start last ∧ tk_kind x ≠ Plain) as Hrest.
  { intros x Hx. destruct (Hs x) as (? & ? & ?); [by right|]. split_and!; auto. }
  split.
  - constructor; [done|]. apply Forall_forall. intros x Hx. cbn. by apply Hrest.
  - intros x [->|(? & ? & ?)%Hrest]%elem_of_cons; cbn; split_and!; try done; lia.
  - intros x y [->|Hx]%elem_of_cons [->|Hy]%elem_of_cons; cbn; intros Hxy.
    + lia.
    + apply Hm; [by left|by right|done].
    + apply Hrest in Hx. lia.
    + apply Hm; [by right|by right|done].
  - intros i k Hn. rewrite kind_snoc, <- (Hk i k Hn), !has_kind_cons, !token_covers_spec. cbn.
    rewrite <- Hkind. split; [intros [[? ?]|?]|intros [[? ?]|[[? ?]|?]]];
      try (by right; right); try (by right); try (left; split; [lia|done]).
    destruct (decide (i < tk_start t)); [right; left; split; [lia|done]|left; split; [lia|done]].
  - intros P HP.
    assert (∀ x, x ∈ last :: rest → P (tk_start x) ∧ P (tk_end x)) as Hold.
    { apply He. intros y Hy. apply HP, elem_of_app. by left. }
    intros x [->|Hx]%elem_of_cons; [|apply Hold; by right]. cbn. split.
    + apply Hold. by left.
    + apply HP, elem_of_app. right. by left.
Qed.

End coalesce_step.

Lemma coalesce_step_ok l out t :
  coalesced l out (tk_start t) → tk_start t < tk_end t →
  coalesced (l ++ [t]) (coalesce_step out t) (tk_end t).
Proof.
  intros Hc Ht. unfold coalesce_step. case_bool_decide as Hp; [by apply coalesce_plain|].
  destruct out as [|last rest]; [by apply coalesce_push; [..|intros ? ?%elem_of_nil]|].
  destruct (bool_decide _ && _) eqn:Em.
  - apply andb_true_iff in Em as [Hk%bool_decide_eq_true He%Nat.eqb_eq].
    by apply (coalesce_merge l (last :: rest) t Hc Ht last rest).
  - apply coalesce_push; [done..|]. intros x Hx Hend Hkind. destruct Hc as [Ho Hs _ _ _].
    inversion Ho as [|? ? _ Hlast]; subst. rewrite Forall_forall in Hlast.
    apply elem_of_cons in Hx as [->|Hx].
    + rewrite Hend, Nat.eqb_refl, bool_decide_true in Em by done. done.
    + apply Hlast in Hx. destruct (Hs last) as (? & ? & _); [by left|]. lia.
Qed.

Lemma coalesce_ok a l b : chain a l b → coalesced l (foldl coalesce_step [] l) b.
Proof.
  revert b. induction l as [|t l IH] using rev_ind; intros b Hl.
  { split; [constructor|by intros ? ?%elem_of_nil|by intros ? ? ?%elem_of_nil|done|].
    by intros P _ ? ?%elem_of_nil. }
  apply chain_snoc in Hl as (Hl & Ht & <-). rewrite foldl_app. cbn [foldl].
  apply coalesce_step_ok; [by apply IH|done].
Qed.

Section line.
Context `{Syntect}.

(** The scope stack at byte [i]. *)
Definition stack_at (stack : ScopeStack) (ops : list (nat * ScopeStackOp)) (i : nat) : ScopeStack :=
  foldl (λ s p, stack_apply s p.2) stack (filter (λ p, p.1 ≤ i) ops).

Lemma stack_at_before stack ops i :
  (∀ p, p ∈ ops → i < p.1) → stack_at stack ops i = stack.
Proof.
  intros Hi. unfold stack_at. replace (filter (λ p, p.1 ≤ i) ops) with ([] : list (nat * ScopeStackOp));
    [done|]. symmetry. induction ops as [|p ops IH]; [done|]. rewrite filter_cons.
  rewrite decide_False by (specialize (Hi p (list_elem_of_here _ _)); lia).
  apply IH. intros q Hq. apply Hi. by right.
Qed.

Definition final_spans (len : nat) (s : LineLoop) : list TokenSpan :=
  push_span (ll_spans s) (Nat.min (ll_last s) len) len (classify (ll_stack s)).

Lemma push_span_app spans a b k : push_span spans a b k = spans ++ push_span [] a b k.
Proof. unfold push_span. destruct (b <=? a); [by rewrite app_nil_r|done]. Qed.

(** The rest of the loop appends a chain to the end of the line. *)
Lemma line_loop len (P : nat → Prop) ops s :
  StronglySorted le (ll_last s :: (fst <$> ops)) → P len →
  (∀ n, n ∈ ll_last s :: (fst <$> ops) → P (Nat.min n len)) →
  ∃ more, final_spans len (foldl (line_step len) s ops) = ll_spans s ++ more ∧
    chain (Nat.min (ll_last s) len) more len ∧
    (∀ t, t ∈ more → P (tk_start t) ∧ P (tk_end t)) ∧
    ∀ i k, Nat.min (ll_last s) len ≤ i < len →
      has_kind more i k ↔ classify (stack_at (ll_stack s) ops i) = k.
Proof.
  revert s. induction ops as [|[o op] ops IH]; intros s Hs Hlen HP.
  { cbn [foldl]. exists (push_span [] (Nat.min (ll_last s) len) len (classify (ll_stack s))).
    unfold final_spans. rewrite push_span_app. split; [done|]. unfold push_span.
    destruct (len <=? Nat.min (ll_last s) len) eqn:El; [apply Nat.leb_le in El|apply Nat.leb_gt in El].
    - split_and!; [cbn; lia|by intros ? ?%elem_of_nil|]. intros; lia.
    - cbn [app chain]. split_and!; [done..|by intros t ->%list_elem_of_singleton; split; [apply HP; left|]|].
      intros i k Hi. rewrite has_kind_cons, token_covers_spec. cbn.
      split; [intros [[_ ?]|(? & ?%elem_of_nil & _)]; done|]. intros <-. by left. }
  inversion Hs as [|? ? Hs' Hlast]; subst. cbn [fmap list_fmap] in Hs'. apply Forall_cons in Hlast as [Hlo _].
  cbn [fst] in Hlo. destruct (IH (line_step len s (o, op))) as (more & Hm & Hc & He & Hk); clear IH.
  { exact Hs'. } { done. } { intros n Hn. apply HP. by right. }
  cbn [line_step ll_spans ll_last ll_stack] in Hc, Hk.
  exists (push_span [] (ll_last s) (Nat.min o len) (classify (ll_stack s)) ++ more).
  cbn [foldl]. rewrite Hm. cbn [line_step ll_spans]. rewrite push_span_app, <- app_assoc. split; [done|].
  assert (∀ i, i < o → stack_at (ll_stack s) ((o, op) :: ops) i = ll_stack s) as Hbefore.
  { intros i Hi. apply stack_at_before. intros p [->|Hp]%elem_of_cons; [done|].
    inversion Hs' as [|? ? _ Ho]; subst. eapply Forall_forall in Ho; [|by apply list_elem_of_fmap_2]. lia. }
  assert (∀ i, o ≤ i → stack_at (ll_stack s) ((o, op) :: ops) i = stack_at (stack_apply (ll_stack s) op) ops i)
    as Hafter.
  { intros i Hi. unfold stack_at. by rewrite filter_cons, decide_True by done. }
  unfold push_span. destruct (Nat.min o len <=? ll_last s) eqn:El;
    [apply Nat.leb_le in El|apply Nat.leb_gt in El]; cbn [app].
  - assert (Nat.min o len = Nat.min (ll_last s) len) as Heq by lia. rewrite Heq in Hc, Hk.
    split_and!; [done..|]. intros i k Hi. rewrite Hafter by lia. by apply Hk.
  - replace (Nat.min (ll_last s) len) with (ll_last s) by lia. cbn [chain tk_start tk_end].
    split_and!; [done|lia|done| |].
    + intros t [->|Ht]%elem_of_cons; [|by apply He]. cbn. split; [|apply HP; right; by left].
      replace (ll_last s) with (Nat.min (ll_last s) len) by lia. apply HP. by left.
    + intros i k Hi. rewrite has_kind_cons, token_covers_spec. cbn [tk_start tk_end tk_kind].
      destruct (decide (i < Nat.min o len)) as [Hlt|Hge].
      * rewrite Hbefore by lia. split; [|intros <-; left; split; [lia|done]].
        intros [[_ ?]|(t & Ht & Hcov%token_covers_spec & _)]; [done|]. exfalso.
        assert (∀ a l b x, chain a l b → x ∈ l → a ≤ tk_start x) as Hstart.
        { clear. intros a l. revert a. induction l as [|y l IH]; intros a b x; [by intros _ ?%elem_of_nil|].
          intros (<- & ? & Hc) [->|Hx]%elem_of_cons; [done|]. eapply IH in Hc; [|done]. lia. }
        apply (Hstart _ _ _ _ Hc) in Ht. lia.
      * rewrite Hafter, <- Hk by lia. split; [|by right]. intros [[? _]|?]; [lia|done].
Qed.

(** What the syntax library documents of a parsed line: the offsets of its operations
    are in order and on character boundaries of the line. *)
Class SyntectLaws : Prop := {
  parse_offsets state line ops state' :
    parse_line state line = (Some ops, state') →
    StronglySorted le (fst <$> ops) ∧ ∀ p, p ∈ ops → is_char_boundary line p.1 = true
}.

(** The tokens of a row whose bytes have the kinds [kind_of]. *)
Record row_tokens (text : string) (kind_of : nat → TokenKind) (spans : list TokenSpan) : Prop := {
  rt_order : StronglySorted (λ x y, tk_end x ≤ tk_start y) spans;
  rt_span t : t ∈ spans → valid_span text (tk_start t) (tk_end t) = true ∧ tk_kind t ≠ Plain;
  rt_maximal x y : x ∈ spans → y ∈ spans → tk_end x = tk_start y → tk_kind x ≠ tk_kind y;
  rt_kind i k : i < String.length text → k ≠ Plain → has_kind spans i k ↔ kind_of i = k
}.

(** The kind of byte [i] of a line: that of the scope stack at it, and plain text when
    the line does not parse. *)
Definition line_kind (tokenizer : LineTokenizer) (raw : string) (i : nat) : TokenKind :=
  match (parse_line (lt_parse tokenizer) (raw +:+ String newline EmptyString)).1 with
  | Some ops => classify (stack_at (lt_stack tokenizer) ops i)
  | None => Plain
  end.

Lemma boundary_before_newline raw i :
  is_char_boundary (raw +:+ String newline EmptyString) i = true →
  is_char_boundary raw (Nat.min i (String.length raw)) = true.
Proof using.
  intros Hi. destruct (decide (i < String.length raw)) as [Hlt|Hge].
  2:{ rewrite Nat.min_r by lia. apply boundary_end. }
  rewrite Nat.min_l by lia. revert Hi. unfold is_char_boundary. rewrite !orb_true_iff.
  intros [?|Hi]; [by left|]. right. revert i Hi Hlt.
  induction raw as [|c raw IH]; intros i Hi Hlt; cbn in Hlt; [lia|].
  destruct i as [|i]; [done|]. cbn in Hi |- *. apply IH; [|lia]. done.
Qed.

Lemma sorted_rev {A} (R : relation A) l : StronglySorted R l → StronglySorted (flip R) (rev l).
Proof using.
  induction 1 as [|x l _ IH Hx]; [constructor|]. cbn. revert IH.
  assert (∀ y, y ∈ rev l → R x y) as Hall.
  { intros y Hy%list_elem_of_In%in_rev%list_elem_of_In. by eapply Forall_forall in Hx. }
  induction (rev l) as [|y k IHk]; cbn; intros Hk; [by repeat constructor|].
  inversion Hk as [|? ? Hk' Hy]; subst. constructor.
  - apply IHk; [|done]. intros z Hz. apply Hall. by right.
  - apply Forall_app. split; [done|]. constructor; [|done]. apply Hall. by left.
Qed.

Lemma next_line_spec `{!SyntectLaws} tokenizer raw :
  row_tokens raw (line_kind tokenizer raw) (next_line tokenizer raw).1.
Proof.
  unfold next_line, line_kind.
  destruct (parse_line _ _) as [[ops|] state] eqn:Ep; cbn [fst].
  2:{ split; [constructor|by intros ? ?%elem_of_nil|by intros ? ? ?%elem_of_nil|].
      intros i k _ Hk. split; [by intros (? & ?%elem_of_nil & _)|]. by intros <-. }
  destruct (parse_offsets _ _ _ _ Ep) as [Hs Hb]. set (len := String.length raw).
  destruct (line_loop len (λ n, is_char_boundary raw n = true) ops
    {| ll_spans := []; ll_last := 0; ll_stack := lt_stack tokenizer |}) as (more & Hm & Hc & He & Hk).
  { constructor; [done|]. apply Forall_forall. cbn; intros; lia. }
  { apply boundary_end. }
  { intros n [->|Hn]%elem_of_cons; [done|]. apply list_elem_of_fmap in Hn as (p & -> & Hp).
    apply boundary_before_newline. by apply Hb. }
  cbn [ll_spans ll_last ll_stack app] in *. unfold final_spans in Hm. rewrite Hm.
  unfold coalesce_drop_plain. apply coalesce_ok in Hc as [Ho Hsp Hmax Hkind Hends].
  assert (∀ t, t ∈ rev (foldl coalesce_step [] more) ↔ t ∈ foldl coalesce_step [] more) as Hrev.
  { intros t. by rewrite !list_elem_of_In, <- in_rev. }
  split.
  - by apply (sorted_rev (λ x y, tk_end y ≤ tk_start x)).
  - intros t Ht%Hrev. destruct (Hsp t Ht) as (? & ? & ?).
    destruct (Hends (λ n, is_char_boundary raw n = true) He t Ht). by rewrite valid_span_spec.
  - intros x y Hx%Hrev Hy%Hrev Hxy Hk'. by apply (Hmax y x Hy Hx Hxy).
  - intros i k Hi Hn. rewrite <- Hk by lia. rewrite <- Hkind by done. unfold has_kind.
    by setoid_rewrite Hrev.
Qed.

(** ** A file *)

Lemma enumerate_snoc {A} (l : list A) x : enumerate (l ++ [x]) = enumerate l ++ [(length l, x)].
Proof using.
  unfold enumerate. rewrite length_app, seq_app. cbn. by rewrite zip_with_app by by rewrite length_seq.
Qed.

(** The rows of one side of a hunk: the old side has no added row, the new side no
    removed one. *)
Definition side_rows (absent : DiffRowKind) (rows : list DiffRow) : list DiffRow :=
  filter (λ row, row_kind row ≠ absent) rows.

Definition feed (tokenizer : LineTokenizer) (rows : list DiffRow) : LineTokenizer :=
  foldl (λ tokenizer row, (next_line tokenizer (row_text row)).2) tokenizer rows.

(** The tokenizer that reaches a row: a removed row is read on the old side, the others
    on the new side, after the rows of that side before it in the hunk. *)
Definition tokenizer_at (syntax : SyntaxReference) (rows : list DiffRow) (r : nat) (row : DiffRow)
    : LineTokenizer :=
  feed (LineTokenizer_new syntax)
    (side_rows (if decide (row_kind row = RRemoved) then RAdded else RRemoved) (take r rows)).

Definition nonempty {A} (l : list A) : option (list A) := match l with [] => None | _ => Some l end.

Definition rows_spans (syntax : SyntaxReference) (rows : list DiffRow) (r : nat)
    : option (list TokenSpan) :=
  row ← rows !! r; nonempty (next_line (tokenizer_at syntax rows r row) (row_text row)).1.

(** One row, without the case on its kind. *)
Lemma highlight_row_eq h s r row :
  highlight_row h s (r, row) =
  {| fl_old := if decide (row_kind row = RAdded) then fl_old s
               else (next_line (fl_old s) (row_text row)).2;
     fl_new := if decide (row_kind row = RRemoved) then fl_new s
               else (next_line (fl_new s) (row_text row)).2;
     fl_out := match nonempty (next_line (if decide (row_kind row = RRemoved) then fl_old s else fl_new s)
                 (row_text row)).1 with
               | Some spans => <[(h, r) := spans]> (fl_out s)
               | None => fl_out s
               end |}.
Proof.
  unfold highlight_row. destruct (row_kind row); cbn [decide decide_rel].
  - rewrite !decide_False by done. destruct (next_line (fl_old s) _), (next_line (fl_new s) _) as [[|? ?] ?]; done.
  - rewrite decide_True, !decide_False by done. destruct (next_line (fl_new s) _) as [[|? ?] ?]; done.
  - rewrite decide_False, !decide_True by done. destruct (next_line (fl_old s) _) as [[|? ?] ?]; done.
Qed.

Lemma feed_snoc syntax absent rows row :
  feed (LineTokenizer_new syntax) (side_rows absent (rows ++ [row])) =
  if decide (row_kind row = absent) then feed (LineTokenizer_new syntax) (side_rows absent rows)
  else (next_line (feed (LineTokenizer_new syntax) (side_rows absent rows)) (row_text row)).2.
Proof.
  unfold side_rows, feed. rewrite filter_app, filter_cons, filter_nil, foldl_app.
  destruct (decide (row_kind row = absent)), (decide (row_kind row ≠ absent)); by try congruence.
Qed.

Lemma rows_spans_snoc syntax rows row r :
  rows_spans syntax (rows ++ [row]) r =
  if decide (r = length rows) then nonempty (next_line (feed (LineTokenizer_new syntax)
    (side_rows (if decide (row_kind row = RRemoved) then RAdded else RRemoved) rows)) (row_text row)).1
  else rows_spans syntax rows r.
Proof.
  unfold rows_spans, tokenizer_at. case_decide as E.
  - subst. rewrite list_lookup_middle by done. cbn. by rewrite take_app_length.
  - destruct (decide (r < length rows)).
    + rewrite lookup_app_l by done. destruct (rows !! r) as [x|]; [|done]. cbn.
      by rewrite take_app_le by lia.
    + rewrite !lookup_ge_None_2; [done|lia|]. rewrite length_app. cbn. lia.
Qed.

(** The loop over the rows of a hunk. *)
Lemma highlight_rows (h : nat) (syntax : SyntaxReference) (out : gmap RowKey (list TokenSpan))
    (rows : list DiffRow) :
  (∀ r : nat, out !! ((h, r) : RowKey) = None) →
  let s := foldl (highlight_row h)
    {| fl_old := LineTokenizer_new syntax; fl_new := LineTokenizer_new syntax; fl_out := out |}
    (enumerate rows) in
  fl_old s = feed (LineTokenizer_new syntax) (side_rows RAdded rows) ∧
  fl_new s = feed (LineTokenizer_new syntax) (side_rows RRemoved rows) ∧
  ∀ h' r, fl_out s !! ((h', r) : RowKey) =
    if decide (h' = h) then rows_spans syntax rows r else out !! ((h', r) : RowKey).
Proof.
  intros Hout. cbn zeta. induction rows as [|row rows (IHo & IHn & IH)] using rev_ind.
  { cbn. split_and!; [done..|]. intros h' r. case_decide as E; [|done]. subst. apply Hout. }
  rewrite enumerate_snoc, foldl_app. cbn [foldl]. rewrite highlight_row_eq. cbn [fl_old fl_new fl_out].
  rewrite !feed_snoc, IHo, IHn. split_and!; [done..|]. intros h' r. specialize (IH h' r).
  rewrite rows_spans_snoc.
  replace (if decide (row_kind row = RRemoved) then feed (LineTokenizer_new syntax) (side_rows RAdded rows)
    else feed (LineTokenizer_new syntax) (side_rows RRemoved rows)) with
    (feed (LineTokenizer_new syntax)
      (side_rows (if decide (row_kind row = RRemoved) then RAdded else RRemoved) rows))
    by (by destruct (decide (row_kind row = RRemoved))).
  destruct (nonempty _) as [spans|] eqn:En.
  - destruct (decide ((h, length rows) = (h', r))) as [[= <- <-]|Hne].
    + rewrite lookup_insert_eq. by do 2 (rewrite decide_True by done).
    + rewrite lookup_insert_ne, IH by done. destruct (decide (h' = h)) as [->|]; [|done].
      by destruct (decide (r = length rows)) as [->|].
  - rewrite IH. destruct (decide (h' = h)) as [->|]; [|done].
    destruct (decide (r = length rows)) as [->|]; [|done]. unfold rows_spans.
    by rewrite lookup_ge_None_2.
Qed.

Lemma highlight_hunks syntax hunks h r :
  foldl (highlight_hunk syntax) ∅ (enumerate hunks) !! (h, r) =
  hunk ← hunks !! h; rows_spans syntax (hunk_rows hunk) r.
Proof.
  revert h r. induction hunks as [|hunk hunks IH] using rev_ind; intros h r; [done|].
  rewrite enumerate_snoc, foldl_app. cbn [foldl highlight_hunk].
  destruct (highlight_rows (length hunks) syntax (foldl (highlight_hunk syntax) ∅ (enumerate hunks))
    (hunk_rows hunk)) as (_ & _ & ->).
  { intros r'. by rewrite IH, lookup_ge_None_2. }
  rewrite IH. case_decide as E; [subst; by rewrite list_lookup_middle|].
  destruct (decide (h < length hunks)); [by rewrite lookup_app_l|].
  rewrite !lookup_ge_None_2; [done|..]; rewrite ?length_app; cbn; lia.
Qed.
End line.

(** Highlighting a file is exact, side by side: a row of a hunk has tokens exactly
    when its line does, read on its own side of the hunk (the old side for a removed
    row, the new side otherwise) after the rows of that side before it; no other key has
    any. The tokens of a row are in order, disjoint, valid spans of its text, never
    plain, never two adjacent of one kind; and they give every byte the kind of the
    scope stack at it. *)
Theorem highlight_file_exact `{Syntect} `{!SyntectLaws} file syntax
    (Hrows : df_is_binary file || df_is_submodule file || df_is_mode_only file = false)
    (Hsyntax : syntax_for_paths (df_new_path file) (df_old_path file) = Some syntax) h r :
  match hunk ← df_hunks file !! h; row ← hunk_rows hunk !! r; Some (hunk_rows hunk, row) with
  | None => highlight_file file !! (h, r) = None
  | Some (rows, row) =>
      let tokenizer := tokenizer_at syntax rows r row in
      let spans := (next_line tokenizer (row_text row)).1 in
      highlight_file file !! (h, r) = nonempty spans ∧
      row_tokens (row_text row) (line_kind tokenizer (row_text row)) spans
  end.
Proof.
  unfold highlight_file. rewrite Hrows, Hsyntax, highlight_hunks.
  destruct (df_hunks file !! h) as [hunk|]; cbn; [|done]. unfold rows_spans.
  destruct (hunk_rows hunk !! r) as [row|]; cbn; [|done]. split; [done|]. apply next_line_spec.
Qed.

(** ** Characters and words *)

Definition valid_text (s : string) : Prop := is_ok (from_utf8 s) = true.

Lemma utf8_tail_valid k seen s n :
  utf8_tail k seen s = U8Valid n → n = seen + k ∧ k ≤ String.length s.
Proof.
  revert seen s. induction k as [|k IH]; intros seen s; cbn; [intros [= <-]; lia|].
  destruct s as [|c s]; [done|]. destruct (in_range 128 191 c); [|done]. intros [-> ?]%IH. cbn. lia.
Qed.

Lemma utf8_second_valid lo hi k s n :
  utf8_second lo hi k s = U8Valid n → n = 2 + k ∧ S k ≤ String.length s.
Proof.
  unfold utf8_second. destruct s as [|c s]; [done|]. destruct (in_range lo hi c); [|done].
  intros [-> ?]%utf8_tail_valid. cbn. lia.
Qed.

(** A character starts with no continuation byte and lies within the text. *)
Lemma utf8_char_valid c s n :
  utf8_char (String c s) = U8Valid n →
  1 ≤ n ≤ S (String.length s) ∧ in_range 128 191 c = false.
Proof.
  cbn [utf8_char].
  repeat (match goal with |- context [if ?b then _ else _] => destruct b eqn:? end);
    intros Hn; try done.
  1: injection Hn as <-; split; [lia|].
  all: try (apply utf8_second_valid in Hn as [-> ?]; split; [lia|]).
  all: unfold in_range in *; lia.
Qed.

(** Characters that follow one another from [a] to [b]. *)
Fixpoint chars_chain (a : nat) (l : list (nat * string)) (b : nat) : Prop :=
  match l with
  | [] => a = b
  | (i, c) :: l => i = a ∧ 0 < String.length c ∧ chars_chain (a + String.length c) l b
  end.

Lemma char_indices_chain s k pos start :
  utf8_scan k start s = Ok () → k ≤ String.length s →
  chars_chain (pos + k) (char_indices_from k pos s) (pos + String.length s) ∧
  ∀ i c, (i, c) ∈ char_indices_from k pos s →
    ∃ j b, i = pos + j ∧ String.get j s = Some b ∧ in_range 128 191 b = false.
Proof.
  revert k pos start. induction s as [|c s IH]; intros k pos start.
  { cbn. intros _ Hk. split; [lia|]. by intros ? ? ?%elem_of_nil. }
  assert (∀ i, (∃ j b, i = S pos + j ∧ String.get j s = Some b ∧ in_range 128 191 b = false) →
    ∃ j b, i = pos + j ∧ String.get j (String c s) = Some b ∧ in_range 128 191 b = false) as Hshift.
  { intros i (j & b & -> & ? & ?). exists (S j), b. cbn. split_and!; [lia|done|done]. }
  destruct k as [|k]; cbn [utf8_scan char_indices_from].
  - destruct (utf8_char (String c s)) as [n|] eqn:Ec; [|done]. intros Hs _. cbn zeta.
    apply utf8_char_valid in Ec as [Hn Hc]. destruct (IH (n - 1) (S pos) (S start)) as [Hch Hb]; [done|lia|].
    cbn [chars_chain]. rewrite length_str_take_min. cbn [String.length]. split_and!; [lia|lia| |].
    + replace (pos + 0 + Nat.min n (S (String.length s))) with (S pos + (n - 1)) by lia.
      by replace (pos + S (String.length s)) with (S pos + String.length s) by lia.
    + intros i x [[= -> ->]|Hin]%elem_of_cons; [|by eapply Hshift, Hb].
      exists 0, c. split_and!; [lia|done|done].
  - intros Hs Hk. cbn in Hk. destruct (IH k (S pos) (S start)) as [Hch Hb]; [done|lia|].
    cbn [String.length]. split.
    + replace (pos + S k) with (S pos + k) by lia.
      by replace (pos + S (String.length s)) with (S pos + String.length s) by lia.
    + intros i x Hin. by eapply Hshift, Hb.
Qed.

Lemma char_indices_spec s :
  valid_text s →
  chars_chain 0 (char_indices s) (String.length s) ∧
  ∀ i c, (i, c) ∈ char_indices s → is_char_boundary s i = true.
Proof.
  unfold valid_text, from_utf8. destruct (utf8_scan 0 0 s) as [[]|] eqn:Es; [|done]. intros _.
  destruct (char_indices_chain s 0 0 0 Es) as [Hc Hb]; [lia|]. split; [done|].
  intros i c Hin. destruct (Hb i c Hin) as (j & b & -> & Hg & Hr). unfold is_char_boundary.
  change (0 + j) with j. rewrite Hg, Hr. apply orb_true_r.
Qed.

(** Ranges that follow one another. *)
Fixpoint ranges_chain (a : nat) (l : list (nat * nat)) (b : nat) : Prop :=
  match l with
  | [] => a = b
  | (s, e) :: l => s = a ∧ s < e ∧ ranges_chain e l b
  end.

Lemma ranges_chain_snoc a l s e b :
  ranges_chain a (l ++ [(s, e)]) b ↔ ranges_chain a l s ∧ s < e ∧ e = b.
Proof.
  revert a. induction l as [|[s' e'] l IH]; intros a; cbn; [|rewrite IH; tauto].
  split; [intros (-> & ? & ?)|intros (-> & ? & ?)]; auto.
Qed.

Lemma ranges_lookup a l b i j p q :
  ranges_chain a l b → l !! i = Some p → l !! j = Some q → i ≤ j →
  a ≤ p.1 ∧ p.1 < q.2 ∧ q.2 ≤ b.
Proof.
  revert a i j p. induction l as [|[s e] l IH]; intros a i j p; cbn [ranges_chain]; [done|].
  intros (<- & Hse & Hl) Hp Hq Hij.
  assert (e ≤ b) as Heb.
  { clear -Hl. revert e Hl. induction l as [|[s' e'] l IH]; cbn; intros e; [lia|].
    intros (<- & ? & ?%IH). lia. }
  destruct j as [|j].
  - assert (i = 0) as -> by lia. cbn in Hp, Hq. simplify_eq. cbn. lia.
  - cbn in Hq. destruct i as [|i]; cbn in Hp.
    + simplify_eq. cbn. destruct l as [|x l]; [done|].
      destruct (IH e 0 j x Hl) as (? & ? & ?); [done|done|lia|lia].
    + destruct (IH e i j p Hl Hp Hq) as (? & ? & ?); [lia|]. lia.
Qed.

Section words.
Context `{Unicode}.

Definition words_inv (P : nat → Prop) (n : nat) (s : list (nat * nat) * option nat) : Prop :=
  match s.2 with
  | Some ws => ranges_chain 0 s.1 ws ∧ ws < n ∧ P ws
  | None => ranges_chain 0 s.1 n
  end ∧ ∀ p, p ∈ s.1 → P p.1 ∧ P p.2.

Lemma tokenize_loop P l a b s :
  chars_chain a l b → (∀ i c, (i, c) ∈ l → P i) → P b → words_inv P a s →
  words_inv P b (foldl tokenize_step s l).
Proof.
  revert a s. induction l as [|[i c] l IH]; intros a s Hl HP Hb Hs; [by cbn in *; subst|].
  destruct Hl as (-> & Hc & Hl). cbn [foldl]. apply (IH (a + String.length c)); [done| |done|].
  { intros i x Hx. eapply HP. by right. }
  assert (P a) as Ha by (eapply HP; by left).
  assert (P (a + String.length c)) as Hn.
  { destruct l as [|[i x] l]; [by cbn in Hl; subst|]. destruct Hl as (-> & _). eapply HP. right. by left. }
  destruct s as [out w]. unfold tokenize_step. destruct Hs as [Hw Hp]. cbn in Hw, Hp. destruct (is_word c).
  - split; cbn; [|done]. destruct w as [ws|]; cbn.
    + destruct Hw as (? & ? & ?). split_and!; [done|lia|done].
    + split_and!; [done|lia|done].
  - assert (ranges_chain 0 (match w with Some ws => out ++ [(ws, a)] | None => out end) a ∧
      ∀ p, p ∈ match w with Some ws => out ++ [(ws, a)] | None => out end → P p.1 ∧ P p.2) as [Hc1 Hc2].
    { destruct w as [ws|]; [|done]. destruct Hw as (? & ? & ?). split; [by apply ranges_chain_snoc|].
      intros p [?| ->%list_elem_of_singleton]%elem_of_app; [by apply Hp|done]. }
    split; cbn.
    + apply ranges_chain_snoc. split_and!; [done|lia|done].
    + intros p [?| ->%list_elem_of_singleton]%elem_of_app; [by apply Hc2|done].
Qed.

Lemma tokenize_spec line :
  valid_text line →
  ranges_chain 0 (tokenize line) (String.length line) ∧
  ∀ p, p ∈ tokenize line → is_char_boundary line p.1 = true ∧ is_char_boundary line p.2 = true.
Proof.
  intros [Hc Hb]%char_indices_spec.
  pose proof (tokenize_loop (λ n, is_char_boundary line n = true) _ 0 _ ([], None) Hc Hb
    (boundary_end line)) as Hl. unfold tokenize.
  destruct (foldl tokenize_step ([], None) (char_indices line)) as [out w].
  destruct Hl as [Hw Hp]; [split; [done|by intros ? ?%elem_of_nil]|]. cbn in Hw, Hp.
  destruct w as [ws|]; [|done]. destruct Hw as (Hr & Hlt & Hws). split; [by apply ranges_chain_snoc|].
  intros p [?| ->%list_elem_of_singleton]%elem_of_app; [by apply Hp|]. split; [done|]. apply boundary_end.
Qed.
End words.

(** ** Coalescing *)

(** Emphasis spans of a row: valid, in order, and apart. *)
Record emph_row (text : string) (spans : list EmphSpan) : Prop := {
  er_apart : StronglySorted (λ x y, es_end x < es_start y) spans;
  er_valid e : e ∈ spans → valid_span text (es_start e) (es_end e) = true
}.

Lemma coalesce_loop (P : nat → Prop) l out :
  StronglySorted (λ x y, es_start x ≤ es_start y) l →
  (∀ x y, x ∈ out → y ∈ l → es_start x ≤ es_start y) →
  (∀ x, x ∈ l ∨ x ∈ out → es_start x < es_end x ∧ P (es_start x) ∧ P (es_end x)) →
  StronglySorted (λ x y, es_end y < es_start x) out →
  let out' := foldl coalesce_emph_step out l in
  StronglySorted (λ x y, es_end y < es_start x) out' ∧
  ∀ x, x ∈ out' → es_start x < es_end x ∧ P (es_start x) ∧ P (es_end x).
Proof.
  revert out. induction l as [|s l IH]; intros out Hl Hle Hx Hout; cbn zeta; [by auto|].
  inversion Hl as [|? ? Hl' Hs]; subst. rewrite Forall_forall in Hs. cbn [foldl].
  destruct (Hx s) as (Hs1 & Hs2 & Hs3); [left; by left|].
  unfold coalesce_emph_step at 2 4. destruct out as [|last rest].
  { apply IH; [done| | |by repeat constructor].
    - intros x y ->%list_elem_of_singleton Hy. by apply Hs.
    - intros x [?| ->%list_elem_of_singleton]; [|done]. apply Hx. left. by right. }
  inversion Hout as [|? ? Hrest Hlast]; subst. rewrite Forall_forall in Hlast.
  destruct (Hx last) as (Hl1 & Hl2 & Hl3); [right; by left|].
  assert (∀ y, y ∈ l → es_start last ≤ es_start y) as Hlasty by (intros y Hy; apply Hle; [by left|by right]).
  assert (∀ x, x ∈ rest → es_start x < es_end x ∧ P (es_start x) ∧ P (es_end x)) as Hrx
    by (intros x ?; apply Hx; right; by right).
  assert (∀ x, x ∈ l → es_start x < es_end x ∧ P (es_start x) ∧ P (es_end x)) as Hlx
    by (intros x ?; apply Hx; left; by right).
  destruct (es_start s <=? es_end last) eqn:E; [apply Nat.leb_le in E|apply Nat.leb_gt in E].
  - apply IH; [done| | |].
    + intros x y [->|Hr]%elem_of_cons Hy; cbn; [by apply Hlasty|]. apply Hle; by right.
    + intros x [?|[->|?]%elem_of_cons]; [by apply Hlx| |by apply Hrx]. cbn. split_and!; [lia|done|].
      destruct (Nat.max_spec (es_end last) (es_end s)) as [[_ ->]|[_ ->]]; done.
    + constructor; [done|]. apply Forall_forall. intros x Hr. by apply Hlast.
  - apply IH; [done| | |].
    + intros x y [->|Hr]%elem_of_cons Hy; [by apply Hs|]. apply Hle; [done|by right].
    + intros x [?|[->|?]%elem_of_cons]; [by apply Hlx|done|by apply Hx; right].
    + constructor; [done|]. apply Forall_forall. intros x [->|Hr]%elem_of_cons; [done|].
      apply Hlast in Hr. lia.
Qed.

Lemma coalesce_spec text spans :
  (∀ e, e ∈ spans → valid_span text (es_start e) (es_end e) = true) → emph_row text (coalesce spans).
Proof.
  intros Hv. unfold coalesce. set (cmp := λ l r, Nat.compare (es_start l) (es_start r)).
  assert (TotalCmp cmp) as Hcmp by (apply (cmp_pullback es_start Nat.compare), _).
  destruct (coalesce_loop (λ n, is_char_boundary text n = true) (sort_by cmp spans) []) as [Hs Hx].
  - generalize (sort_by_sorted cmp spans). induction 1 as [|x l _ IH Hx]; constructor; [done|].
    eapply Forall_impl; [exact Hx|]. intros y. unfold cmp_le, cmp. rewrite Nat.compare_gt_iff. lia.
  - by intros ? ? ?%elem_of_nil.
  - intros x [Hx|?%elem_of_nil]; [|done]. rewrite elem_of_sort_by in Hx.
    by apply Hv, valid_span_spec in Hx.
  - constructor.
  - split; [by apply (sorted_rev (λ x y, es_end y < es_start x))|].
    intros e He%list_elem_of_In%in_rev%list_elem_of_In. by apply valid_span_spec, Hx.
Qed.

(** ** A pair of lines *)

(** What the sequence diff documents: its operations are not empty and cover both
    sequences in order. *)
Fixpoint op_tiles (i j : nat) (ops : list DiffOp) (n m : nat) : Prop :=
  match ops with
  | [] => i = n ∧ j = m
  | OpEqual old_index new_index len :: ops =>
      old_index = i ∧ new_index = j ∧ 0 < len ∧ op_tiles (i + len) (j + len) ops n m
  | OpDelete old_index old_len _ :: ops =>
      old_index = i ∧ 0 < old_len ∧ op_tiles (i + old_len) j ops n m
  | OpInsert _ new_index new_len :: ops =>
      new_index = j ∧ 0 < new_len ∧ op_tiles i (j + new_len) ops n m
  | OpReplace old_index old_len new_index new_len :: ops =>
      old_index = i ∧ 0 < old_len ∧ new_index = j ∧ 0 < new_len ∧
      op_tiles (i + old_len) (j + new_len) ops n m
  end.

Class SimilarLaws `{Similar} : Prop := {
  diff_tiles old new : op_tiles 0 0 (capture_diff_slices old new) (length old) (length new)
}.

Lemma op_tiles_le i j ops n m : op_tiles i j ops n m → i ≤ n ∧ j ≤ m.
Proof.
  revert i j. induction ops as [|[] ops IH]; intros i j; cbn [op_tiles]; [lia|..].
  - intros (_ & _ & _ & ?%IH). lia.
  - intros (_ & _ & ?%IH). lia.
  - intros (_ & _ & ?%IH). lia.
  - intros (_ & _ & _ & _ & ?%IH). lia.
Qed.

Section pairs.
Context `{Unicode}.

Definition spans_ok (text : string) (spans : list EmphSpan) : Prop :=
  ∀ e, e ∈ spans → valid_span text (es_start e) (es_end e) = true.

(** A run of tokens is a valid section. *)
Lemma token_range_ok line i len :
  valid_text line → 0 < len → i + len ≤ length (tokenize line) →
  ∃ a b, token_range (tokenize line) i len = Some (a, b) ∧ valid_span line a b = true.
Proof using.
  intros [Hr Hb]%tokenize_spec Hl Hi. unfold token_range.
  destruct (lookup_lt_is_Some_2 (tokenize line) i) as [p Hp]; [lia|]. rewrite Hp. cbn.
  destruct (i + len) as [|k] eqn:Ek; [lia|].
  destruct (lookup_lt_is_Some_2 (tokenize line) k) as [q Hq]; [lia|]. rewrite Hq. cbn.
  exists p.1, q.2. split; [done|]. apply valid_span_spec.
  destruct (ranges_lookup _ _ _ _ _ _ _ Hr Hp Hq) as (_ & ? & _); [lia|].
  split_and!; [done|apply Hb; by eapply list_elem_of_lookup_2..].
Qed.

Lemma section_width_ok line a b :
  valid_span line a b = true → ∃ w, section_width line a b = Some w.
Proof using.
  intros (Hab & Ha & Hb)%valid_span_spec. unfold section_width, str_slice.
  rewrite Ha, Hb, (proj2 (Nat.leb_le _ _)) by lia. cbn. eauto.
Qed.

Lemma changed_section_ok line i len spans :
  valid_text line → 0 < len → i + len ≤ length (tokenize line) → spans_ok line spans →
  ∃ d, changed_section line (tokenize line) i len spans = Some d ∧ spans_ok line d.1.
Proof using.
  intros Hv Hl Hi Hs. destruct (token_range_ok line i len Hv Hl Hi) as (a & b & Hr & Hab).
  destruct (section_width_ok line a b Hab) as [w Hw]. unfold changed_section. rewrite Hr.
  cbn [mbind option_bind fst snd]. rewrite Hw. cbn [mbind option_bind]. eexists. split; [reflexivity|].
  cbn [fst]. destruct (0 <? w); [|done].
  intros e [?| ->%list_elem_of_singleton]%elem_of_app; [by apply Hs|done].
Qed.

Lemma pair_loop minus plus ops i j s :
  valid_text minus → valid_text plus →
  op_tiles i j ops (length (tokenize minus)) (length (tokenize plus)) →
  spans_ok minus (pl_del s) → spans_ok plus (pl_ins s) →
  ∃ s', foldM (pair_step minus plus (tokenize minus) (tokenize plus)) s ops = Some s' ∧
    spans_ok minus (pl_del s') ∧ spans_ok plus (pl_ins s').
Proof using.
  intros Hm Hp. revert i j s. induction ops as [|op ops IH]; intros i j s Ht Hd Hi; [by eauto|].
  cbn [foldM]. destruct op as [oi ni len|oi ol ni|oi ni nl|oi ol ni nl]; cbn [op_tiles] in Ht; cbn [pair_step].
  - destruct Ht as (-> & -> & Hl & Ht). pose proof (op_tiles_le _ _ _ _ _ Ht) as [? ?].
    destruct (token_range_ok minus i len Hm Hl) as (a & b & Hr & Hab); [done|].
    destruct (section_width_ok _ _ _ Hab) as [w Hw]. rewrite Hr. cbn. rewrite Hw. cbn.
    by eapply IH; [exact Ht|..].
  - destruct Ht as (-> & Hl & Ht). pose proof (op_tiles_le _ _ _ _ _ Ht) as [? ?].
    destruct (changed_section_ok minus i ol (pl_del s) Hm Hl) as (d & -> & Hd'); [done..|]. cbn.
    by eapply IH; [exact Ht|..].
  - destruct Ht as (-> & Hl & Ht). pose proof (op_tiles_le _ _ _ _ _ Ht) as [? ?].
    destruct (changed_section_ok plus j nl (pl_ins s) Hp Hl) as (d & -> & Hd'); [done..|]. cbn.
    by eapply IH; [exact Ht|..].
  - destruct Ht as (-> & Hl & -> & Hl' & Ht). pose proof (op_tiles_le _ _ _ _ _ Ht) as [? ?].
    destruct (changed_section_ok minus i ol (pl_del s) Hm Hl) as (d & -> & Hd'); [done..|]. cbn.
    destruct (changed_section_ok plus j nl (pl_ins s) Hp Hl') as (d' & -> & Hd''); [done..|]. cbn.
    by eapply IH; [exact Ht|..].
Qed.

Lemma slices_ok line :
  valid_text line →
  ∃ l, mapM (λ p, str_slice line p.1 p.2) (tokenize line) = Some l ∧ length l = length (tokenize line).
Proof using.
  intros [Hr Hb]%tokenize_spec.
  assert (is_Some (mapM (λ p, str_slice line p.1 p.2) (tokenize line))) as [l Hl].
  { apply mapM_is_Some. apply Forall_forall. intros p Hp. destruct (Hb p Hp) as [H1 H2].
    apply list_elem_of_lookup in Hp as [i Hi]. unfold compose, str_slice. rewrite H1, H2.
    destruct (ranges_lookup _ _ _ _ _ _ _ Hr Hi Hi) as (_ & ? & _); [done|].
    rewrite (proj2 (Nat.leb_le _ _)) by lia. cbn. eauto. }
  exists l. split; [done|]. symmetry. by eapply length_mapM.
Qed.

Lemma diff_pair_ok `{Similar} `{!SimilarLaws} minus plus :
  valid_text minus → valid_text plus →
  ∃ del ins d, diff_pair minus plus = Some (del, ins, d) ∧ emph_row minus del ∧ emph_row plus ins.
Proof.
  intros Hm Hp. unfold diff_pair. cbn zeta.
  destruct (slices_ok minus Hm) as (ms & -> & Hml). destruct (slices_ok plus Hp) as (ps & -> & Hpl). cbn.
  pose proof (diff_tiles ms ps) as Ht. rewrite Hml, Hpl in Ht.
  destruct (pair_loop minus plus _ 0 0 {| pl_del := []; pl_ins := []; pl_numer := 0; pl_denom := 0 |}
    Hm Hp Ht) as (s & -> & Hd & Hi); [by intros ? ?%elem_of_nil..|]. cbn.
  eexists _, _, _. split; [reflexivity|]. split; by apply coalesce_spec.
Qed.
End pairs.

(** ** Blocks *)

Section blocks.
Context `{Unicode} `{Similar} `{!SimilarLaws}.

(** [spans] are a row's side of the diff of a removed and an added row of one change
    block, with no context row between them, within the distance guard. *)
Definition emphasised (rows : list DiffRow) (r : nat) (spans : list EmphSpan) : Prop :=
  ∃ mr pr minus plus del ins d,
    rows !! mr = Some minus ∧ row_kind minus = RRemoved ∧
    rows !! pr = Some plus ∧ row_kind plus = RAdded ∧ mr < pr ∧
    (∀ k row, mr ≤ k ≤ pr → rows !! k = Some row → row_kind row ≠ RContext) ∧
    diff_pair (row_text minus) (row_text plus) = Some (del, ins, d) ∧
    SFleb d MAX_LINE_DISTANCE = true ∧
    spans ≠ [] ∧ (r = mr ∧ spans = del ∨ r = pr ∧ spans = ins).

(** The buffers hold the removed and the added rows of the block that starts at [a]. *)
Record in_block (rows : list DiffRow) (n : nat) (minus plus : list (nat * string)) : Prop := {
  ib_start : ∃ a, (∀ k row, a ≤ k < n → rows !! k = Some row → row_kind row ≠ RContext) ∧
    ∀ i text, (i, text) ∈ minus ++ plus → a ≤ i < n;
  ib_minus i text : (i, text) ∈ minus →
    ∃ row, rows !! i = Some row ∧ row_kind row = RRemoved ∧ row_text row = text;
  ib_plus i text : (i, text) ∈ plus →
    ∃ row, rows !! i = Some row ∧ row_kind row = RAdded ∧ row_text row = text;
  ib_order m p : m ∈ minus → p ∈ plus → m.1 < p.1
}.

Lemma find_homolog_ok mline plus considered :
  valid_text mline → (∀ p, p ∈ plus → valid_text p.2) →
  ∃ found, find_homolog mline considered plus = Some found ∧
    ∀ c pr del ins, found = Some (c, pr, del, ins) →
      ∃ pline d, (pr, pline) ∈ plus ∧ diff_pair mline pline = Some (del, ins, d) ∧
        SFleb d MAX_LINE_DISTANCE = true.
Proof.
  intros Hm. revert considered. induction plus as [|[pr pline] plus IH]; intros considered Hp.
  { exists None. by split. }
  cbn [find_homolog]. destruct (diff_pair_ok mline pline Hm) as (del & ins & d & Hd & _).
  { apply (Hp (pr, pline)). by left. }
  rewrite Hd. cbn [mbind option_bind]. destruct (SFleb d MAX_LINE_DISTANCE) eqn:El.
  - eexists. split; [reflexivity|]. intros c r x y [= -> -> -> ->]. exists pline, d. by rewrite elem_of_cons; auto.
  - destruct (IH (S considered)) as (found & -> & Hf); [intros p ?; apply Hp; by right|].
    eexists. split; [reflexivity|]. intros c r x y Hxy. destruct (Hf _ _ _ _ Hxy) as (pl & d' & ? & ? & ?).
    exists pl, d'. rewrite elem_of_cons. auto.
Qed.

(** Where the entries of a map come from. *)
Definition adds (h : nat) (rows : list DiffRow) (out out' : gmap RowKey (list EmphSpan)) : Prop :=
  ∀ key spans, out' !! key = Some spans →
    out !! key = Some spans ∨ ∃ r, key = (h, r) ∧ emphasised rows r spans.

Lemma insert_spans_lookup (key : RowKey) (spans : list EmphSpan) (out : gmap RowKey (list EmphSpan))
    (k : RowKey) (x : list EmphSpan) :
  insert_spans key spans out !! k = Some x → out !! k = Some x ∨ (k = key ∧ x = spans ∧ spans ≠ []).
Proof using.
  unfold insert_spans. destruct spans as [|s spans]; [by left|].
  rewrite lookup_insert_Some. intros [[-> <-]|[_ ?]]; [right; auto|by left].
Qed.

Lemma elem_of_dropped {A} k (l : list A) x : x ∈ drop k l → x ∈ l.
Proof using. intros Hx. rewrite <- (take_drop k l), elem_of_app. by right. Qed.

(** A pair found in a block is emphasised. *)
Lemma paired_emphasised rows n minus plus mr pr mline pline del ins d r spans :
  in_block rows n minus plus → (mr, mline) ∈ minus → (pr, pline) ∈ plus →
  diff_pair mline pline = Some (del, ins, d) → SFleb d MAX_LINE_DISTANCE = true →
  spans ≠ [] → r = mr ∧ spans = del ∨ r = pr ∧ spans = ins → emphasised rows r spans.
Proof using.
  intros [(a & Ha & Hin) Hm Hp Ho] Hmin Hpin Hd Hg Hne Hr.
  destruct (Hm mr mline Hmin) as (minus_row & Hmr & Hmk & <-).
  destruct (Hp pr pline Hpin) as (plus_row & Hpr & Hpk & <-).
  exists mr, pr, minus_row, plus_row, del, ins, d. split_and!; try done.
  - exact (Ho _ _ Hmin Hpin).
  - assert (a ≤ mr < n) by (eapply Hin, elem_of_app; by left).
    assert (a ≤ pr < n) by (eapply Hin, elem_of_app; by right).
    intros i row Hi. apply Ha. lia.
Qed.

Lemma flush_step_ok h rows n minus plus s m :
  (∀ row, row ∈ rows → valid_text (row_text row)) → in_block rows n minus plus → m ∈ minus →
  ∃ s', flush_step h plus s m = Some s' ∧ adds h rows s.2 s'.2.
Proof.
  intros Hv Hb Hin. destruct s as [k o], m as [mr mline]. unfold flush_step.
  destruct (find_homolog_ok mline (drop k plus) 0) as (found & -> & Hf).
  { destruct (ib_minus _ _ _ _ Hb mr mline Hin) as (row & Hr & _ & <-).
    apply Hv. by eapply list_elem_of_lookup_2. }
  { intros [pr pline] Hp%elem_of_dropped. destruct (ib_plus _ _ _ _ Hb pr pline Hp) as (row & Hr & _ & <-).
    apply Hv. by eapply list_elem_of_lookup_2. }
  cbn [mbind option_bind]. eexists. split; [reflexivity|].
  destruct found as [[[[c pr] del] ins]|]; cbn [snd]; [|by intros ? ? ?; left].
  destruct (Hf _ _ _ _ eq_refl) as (pline & d & Hpin%elem_of_dropped & Hd & Hg).
  pose proof (λ r spans, paired_emphasised rows n minus plus mr pr mline pline del ins d r spans
    Hb Hin Hpin Hd Hg) as Hem.
  intros key spans Hk. apply insert_spans_lookup in Hk as [Hk|(-> & -> & ?)]; [|right; eauto 10].
  apply insert_spans_lookup in Hk as [?|(-> & -> & ?)]; [by left|right; eauto 10].
Qed.

Lemma adds_trans h rows o1 o2 o3 : adds h rows o1 o2 → adds h rows o2 o3 → adds h rows o1 o3.
Proof using. intros H1' H2' key spans [?|?]%H2'; [by apply H1'|by right]. Qed.

Lemma flush_block_ok h rows n minus plus out :
  (∀ row, row ∈ rows → valid_text (row_text row)) → in_block rows n minus plus →
  ∃ out', flush_block h minus plus out = Some out' ∧ adds h rows out out'.
Proof.
  intros Hv Hb. unfold flush_block.
  assert (∀ ms s, (∀ m, m ∈ ms → m ∈ minus) →
    ∃ s', foldM (flush_step h plus) s ms = Some s' ∧ adds h rows s.2 s'.2) as Hloop.
  { induction ms as [|m ms IH]; intros s Hms; [exists s; split; [done|by intros ? ? ?; left]|].
    cbn [foldM]. destruct (flush_step_ok h rows n minus plus s m) as (s1 & -> & H1'); [done..|apply Hms; by left|].
    destruct (IH s1) as (s2 & Hs2 & H2'); [intros; apply Hms; by right|].
    exists s2. split; [done|]. by eapply adds_trans. }
  destruct (Hloop minus (0, out)) as (s & -> & Hs); [done|]. exists s.2. by split.
Qed.

Lemma in_block_empty rows n : in_block rows n [] [].
Proof using.
  split; [|by intros ? ? ?%elem_of_nil..|by intros ? ? ?%elem_of_nil].
  exists n. split; [intros; lia|by intros ? ? ?%elem_of_nil].
Qed.

(** A removed or an added row joins the block; a fresh block has one removed row. *)
Lemma in_block_removed rows n row minus :
  rows !! n = Some row → row_kind row = RRemoved → in_block rows n minus [] →
  in_block rows (S n) (minus ++ [(n, row_text row)]) [].
Proof using.
  intros Hr Hk [(a & Ha & Hin) Hm Hp Ho]. rewrite app_nil_r in Hin.
  split; [|..|by intros ? ? _ ?%elem_of_nil].
  - exists (Nat.min a n). rewrite app_nil_r. split.
    + intros k x Hk' Hx. destruct (decide (k = n)) as [->|]; [congruence|].
      destruct (decide (a ≤ k)); [apply (Ha k); [lia|done]|]. lia.
    + intros i text [Hi%Hin|[= -> ->]%list_elem_of_singleton]%elem_of_app; lia.
  - intros i text [Hi|[= -> ->]%list_elem_of_singleton]%elem_of_app; [by apply Hm|eauto].
  - by intros ? ? ?%elem_of_nil.
Qed.

Lemma in_block_added rows n row minus plus :
  rows !! n = Some row → row_kind row = RAdded → in_block rows n minus plus →
  in_block rows (S n) minus (plus ++ [(n, row_text row)]).
Proof using.
  intros Hr Hk [(a & Ha & Hin) Hm Hp Ho]. split.
  - exists (Nat.min a n). split.
    + intros k x Hk' Hx. destruct (decide (k = n)) as [->|]; [congruence|].
      destruct (decide (a ≤ k)); [apply (Ha k); [lia|done]|]. lia.
    + intros i text. rewrite app_assoc, elem_of_app, list_elem_of_singleton.
      intros [Hi%Hin|[= -> ->]]; lia.
  - done.
  - intros i text [Hi|[= -> ->]%list_elem_of_singleton]%elem_of_app; [by apply Hp|eauto].
  - intros m p Hm' [Hp'| ->%list_elem_of_singleton]%elem_of_app; [by apply Ho|].
    destruct m as [i text]. cbn. eapply (Hin i text), elem_of_app. by left.
Qed.

Lemma emphasis_row_ok h rows n row s :
  (∀ row, row ∈ rows → valid_text (row_text row)) → rows !! n = Some row →
  in_block rows n (bl_minus s) (bl_plus s) →
  ∃ s', emphasis_row h s (n, row) = Some s' ∧ in_block rows (S n) (bl_minus s') (bl_plus s') ∧
    adds h rows (bl_out s) (bl_out s').
Proof.
  intros Hv Hr Hb. unfold emphasis_row.
  destruct (flush_block_ok h rows n (bl_minus s) (bl_plus s) (bl_out s) Hv Hb) as (out & Ho & Ha).
  destruct (row_kind row) eqn:Ek.
  - rewrite Ho. cbn. eexists. split; [reflexivity|]. split; [apply in_block_empty|done].
  - eexists. split; [reflexivity|]. cbn. split; [by apply in_block_added|by intros ? ? ?; left].
  - destruct (bl_plus s) as [|p plus] eqn:Ep.
    + eexists. split; [reflexivity|]. cbn. split; [by apply in_block_removed|by intros ? ? ?; left].
    + rewrite Ho. cbn. eexists. split; [reflexivity|]. split; [|done].
      apply (in_block_removed rows n row []); [done..|]. apply in_block_empty.
Qed.

Lemma emphasis_hunk_ok out h hunk :
  (∀ row, row ∈ hunk_rows hunk → valid_text (row_text row)) →
  ∃ out', emphasis_hunk out (h, hunk) = Some out' ∧ adds h (hunk_rows hunk) out out'.
Proof.
  intros Hv. unfold emphasis_hunk. set (rows := hunk_rows hunk) in *.
  assert (∀ l n s, drop n rows = l → in_block rows n (bl_minus s) (bl_plus s) →
    ∃ s', foldM (emphasis_row h) s (zip (seq n (length l)) l) = Some s' ∧
      in_block rows (n + length l) (bl_minus s') (bl_plus s') ∧
      adds h rows (bl_out s) (bl_out s')) as Hloop.
  { induction l as [|row l IH]; intros n s Hd Hb.
    { exists s. cbn. rewrite Nat.add_0_r. split_and!; [done..|by intros ? ? ?; left]. }
    assert (rows !! n = Some row) as Hr.
    { rewrite <- (Nat.add_0_r n), <- lookup_drop, Hd. done. }
    cbn [length seq zip zip_with foldM].
    destruct (emphasis_row_ok h rows n row s Hv Hr Hb) as (s1 & -> & Hb1 & Ha1). cbn [mbind option_bind].
    destruct (IH (S n) s1) as (s2 & Hs2 & Hb2 & Ha2); [|done|].
    { rewrite <- Nat.add_1_r, <- drop_drop, Hd. done. }
    exists s2. split; [done|]. rewrite Nat.add_succ_r. split; [done|]. by eapply adds_trans. }
  destruct (Hloop rows 0 {| bl_minus := []; bl_plus := []; bl_out := out |}) as (s & Hs & Hb & Ha);
    [done|apply in_block_empty|]. unfold enumerate. rewrite Hs. cbn [mbind option_bind].
  destruct (flush_block_ok h rows _ _ _ (bl_out s) Hv Hb) as (out' & -> & Ha').
  exists out'. split; [done|]. by eapply adds_trans.
Qed.

Lemma emphasis_hunks_ok hunks :
  (∀ hunk row, hunk ∈ hunks → row ∈ hunk_rows hunk → valid_text (row_text row)) →
  ∃ out, foldM emphasis_hunk ∅ (enumerate hunks) = Some out ∧
    ∀ h r spans, out !! (h, r) = Some spans →
      ∃ hunk, hunks !! h = Some hunk ∧ emphasised (hunk_rows hunk) r spans.
Proof.
  induction hunks as [|hunk hunks IH] using rev_ind; intros Hv.
  { exists ∅. split; [done|]. intros h r spans. by rewrite lookup_empty. }
  destruct IH as (out & Ho & Hin); [intros; eapply Hv; [apply elem_of_app; by left|done]|].
  destruct (emphasis_hunk_ok out (length hunks) hunk) as (out' & Ho' & Ha).
  { intros row Hr. eapply Hv; [|done]. apply elem_of_app. right. by left. }
  exists out'. rewrite enumerate_snoc. split.
  - assert (∀ A S (f : S → A → option S) l x s, foldM f s (l ++ [x]) = s' ← foldM f s l; f s' x) as Hsnoc.
    { clear. intros A S f l x. induction l as [|y l IH]; intros s; cbn; [by destruct (f s x)|].
      destruct (f s y); [|done]. apply IH. }
    by rewrite Hsnoc, Ho.
  - intros h r spans [Hk|(r' & [= -> ->] & He)]%Ha.
    + destruct (Hin h r spans Hk) as (x & Hx & He). exists x. split; [|done].
      by apply lookup_app_l_Some.
    + exists hunk. split; [|done]. by apply list_lookup_middle.
Qed.
End blocks.

(** C29. Intraline emphasis never fails and never overreaches. On a file whose rows are
    text no index or slice is out of range, whatever the sequence diff answers within
    its contract; every emphasised row is a removed or an added row of its hunk whose
    partner is a row of the other side in the same change block, with no context row
    between them and a width distance within the guard; and its spans are that row's
    side of the diff of the pair: valid spans of its text, in order, separated, so that
    the sweep drops none of them. *)
Theorem emphasis_file_sound `{Unicode} `{Similar} `{!SimilarLaws} file
    (Htext : ∀ hunk row, hunk ∈ df_hunks file → row ∈ hunk_rows hunk → valid_text (row_text row)) :
  ∃ out, emphasis_file file = Some out ∧
    ∀ h r spans, out !! (h, r) = Some spans →
      ∃ hunk row, df_hunks file !! h = Some hunk ∧ hunk_rows hunk !! r = Some row ∧
        emphasised (hunk_rows hunk) r spans ∧ emph_row (row_text row) spans ∧
        valid_emphasis (row_text row) spans = spans.
Proof.
  unfold emphasis_file. destruct (_ || _ || _).
  { exists ∅. split; [done|]. intros h r spans. by rewrite lookup_empty. }
  destruct (emphasis_hunks_ok (df_hunks file) Htext) as (out & Ho & Hin). exists out. split; [done|].
  intros h r spans (hunk & Hh & He)%Hin. exists hunk.
  pose proof He as (mr & pr & minus & plus & del & ins & d & Hm & _ & Hp & _ & _ & _ & Hd & _ & _ & Hr).
  assert (∀ i row, hunk_rows hunk !! i = Some row → valid_text (row_text row)) as Hrow.
  { intros i row Hi. eapply Htext; eapply list_elem_of_lookup_2; done. }
  destruct (diff_pair_ok (row_text minus) (row_text plus)) as (x & y & z & Hx & Hm' & Hp'); [eauto..|].
  assert (∃ row, hunk_rows hunk !! r = Some row ∧ emph_row (row_text row) spans) as (row & Hrow' & Hemph).
  { rewrite Hd in Hx. simplify_eq. destruct Hr as [[-> ->]|[-> ->]]; eauto. }
  exists row. split_and!; [done..|]. unfold valid_emphasis. destruct Hemph as [_ Hval].
  clear -Hval. induction spans as [|e spans IH]; [done|]. rewrite filter_cons, decide_True.
  - f_equal. apply IH. intros. apply Hval. by right.
  - apply Hval. by left.
Qed.

(** *** Witnesses: a hunk with a context row and an edited line *)

Module Toy.
(** A syntax in which a line is one comment, and a diff that finds the common front. *)
#[local] Instance syntect : Syntect := {|
  SyntaxReference := unit; ParseState := unit; ScopeStack := list string;
  ScopeStackOp := option string; Scope := string;
  find_syntax_by_extension := λ ext, if String.eqb ext "rs" then Some () else None;
  ParseState_new := λ _, ();
  parse_line := λ _ line, (Some [(0, Some "comment.line"); (String.length line, None)], ());
  ScopeStack_new := [];
  stack_apply := λ stack op, match op with Some scope => stack ++ [scope] | None => removelast stack end;
  as_slice := λ stack, stack; Scope_new := λ s, s; is_prefix_of := λ p s, String.prefix p s
|}.

#[local] Instance syntect_laws : SyntectLaws.
Proof.
  split. intros state line ops state' [= <- _]. split.
  - cbn. repeat constructor. lia.
  - intros p [->|[->|?%elem_of_nil]%elem_of_cons]%elem_of_cons; [done| |done]. apply boundary_end.
Qed.

#[local] Instance unicode : Unicode := {|
  unicode_alphanumeric := λ _, false; display_width := String.length
|}.

Fixpoint common (old new : list string) : nat :=
  match old, new with
  | x :: old, y :: new => if String.eqb x y then S (common old new) else 0
  | _, _ => 0
  end.

Lemma common_le old new : common old new ≤ length old ∧ common old new ≤ length new.
Proof.
  revert new. induction old as [|x old IH]; intros [|y new]; cbn; try lia.
  destruct (String.eqb x y); [|lia]. specialize (IH new). lia.
Qed.

Definition toy_diff (old new : list string) : list DiffOp :=
  let n := common old new in
  (if n =? 0 then [] else [OpEqual 0 0 n]) ++
  match length old - n, length new - n with
  | O, O => []
  | S k, O => [OpDelete n (S k) n]
  | O, S k => [OpInsert n n (S k)]
  | S k, S j => [OpReplace n (S k) n (S j)]
  end.

#[local] Instance similar : Similar := {| capture_diff_slices := toy_diff |}.

#[local] Instance similar_laws : SimilarLaws.
Proof.
  split. intros old new. cbn [capture_diff_slices similar]. unfold toy_diff. cbn zeta.
  pose proof (common_le old new) as [Ho Hn]. set (n := common old new) in *.
  assert (op_tiles n n match length old - n, length new - n with
    | O, O => [] | S k, O => [OpDelete n (S k) n] | O, S k => [OpInsert n n (S k)]
    | S k, S j => [OpReplace n (S k) n (S j)] end (length old) (length new)) as Ht.
  { destruct (length old - n) eqn:E1, (length new - n) eqn:E2; cbn; lia. }
  destruct (Nat.eqb_spec n 0) as [E|E]; [by rewrite E in *|]. cbn [app op_tiles]. split_and!; [done..|lia|done].
Qed.

Definition row (kind : DiffRowKind) (text : string) : DiffRow :=
  {| row_kind := kind; row_old_line := None; row_new_line := None; row_text := text |}.

Definition file : DiffFile := {|
  df_id := "f"; df_status := Modified; df_old_path := Some "a.rs"; df_new_path := Some "a.rs";
  df_old_mode := None; df_new_mode := None; df_old_oid := None; df_new_oid := None;
  df_similarity := None; df_is_binary := false; df_is_submodule := false; df_is_mode_only := false;
  df_synthetic := false; df_metadata_rows := [];
  df_hunks := [{| hunk_id := "h"; hunk_header := ""; hunk_old_start := 1; hunk_old_lines := 2;
    hunk_new_start := 1; hunk_new_lines := 2;
    hunk_rows := [row RContext "fn a"; row RRemoved "let x = 1;"; row RAdded "let x = 22;"] |}] |}.

Lemma highlight_file_exact_witness :
  highlight_file file !! (0, 1) = Some [{| tk_start := 0; tk_end := 10; tk_kind := Comment |}].
Proof.
  destruct (highlight_file_exact file (() : SyntaxReference (Syntect:=syntect)) eq_refl eq_refl 0 1) as [Hf _]. rewrite Hf.
  vm_compute. reflexivity.
Defined.

Lemma emphasis_file_sound_witness :
  ∃ out, emphasis_file file = Some out ∧
    out !! (0, 1) = Some [{| es_start := 8; es_end := 10 |}] ∧
    emph_row "let x = 1;" [{| es_start := 8; es_end := 10 |}].
Proof.
  destruct (emphasis_file_sound file) as (out & Ho & Hin).
  { intros hunk r ->%list_elem_of_singleton Hr. cbn in Hr.
    repeat (apply elem_of_cons in Hr as [->|Hr]; [vm_compute; reflexivity|]). by apply elem_of_nil in Hr. }
  exists out. assert (out !! (0, 1) = Some [{| es_start := 8; es_end := 10 |}]) as Hk.
  { assert ((emphasis_file file ≫= λ out, out !! ((0, 1) : RowKey)) =
      Some [{| es_start := 8; es_end := 10 |}]) as He by (vm_compute; reflexivity).
    by rewrite Ho in He. }
  split_and!; [done|done|]. destruct (Hin 0 1 _ Hk) as (hunk & x & [= <-] & [= <-] & _ & He & _). exact He.
Defined.
End Toy.
