(* ===== verification/UnionFind.v ===== *)
(** * Union-find with path halving ([find] and the loops of [connected_components]
      in [src/src/session/projection/supersession.rs])

    The parent vector is a [list nat]; [find] carries fuel.  The forest theory
    shows the fuel the callers pass is enough, that path halving keeps every root,
    and that after any sequence of unions two indices have one root exactly when
    the edges connect them. *)

From S2P Require Import Prelude.

(** ** Definitions *)

(** The [while] loop of [find]; indexing out of range would panic and is left as a
    no-op, which the theorems exclude. *)
Fixpoint find (fuel : nat) (parent : list nat) (node : nat) : list nat * nat :=
  match fuel with
  | O => (parent, node)
  | S fuel =>
      match parent !! node with
      | None => (parent, node)
      | Some p =>
          if p =? node then (parent, node)
          else match parent !! p with
               | None => (parent, node)
               | Some g => find fuel (<[node := g]> parent) g
               end
      end
  end.

Definition find_root (parent : list nat) (node : nat) : list nat * nat :=
  find (S (length parent)) parent node.

(** One edge of the union loop. *)
Definition union_edge (parent : list nat) (e : nat * nat) : list nat :=
  let '(parent, ra) := find_root parent e.1 in
  let '(parent, rb) := find_root parent e.2 in
  if ra =? rb then parent else <[ra := rb]> parent.

(** ** Forests *)

(** [rooted p i r k]: following parents from [i] reaches the root [r] in [k] steps. *)
Inductive rooted (p : list nat) : nat → nat → nat → Prop :=
| rooted_here i : p !! i = Some i → rooted p i i 0
| rooted_step i j r k : p !! i = Some j → j ≠ i → rooted p j r k → rooted p i r (S k).

Definition forest (p : list nat) : Prop := ∀ i, i < length p → ∃ r k, rooted p i r k.

Definition root_of (p : list nat) (i r : nat) : Prop := ∃ k, rooted p i r k.

#[local] Hint Constructors rooted : core.

Lemma rooted_det p i r k r' k' : rooted p i r k → rooted p i r' k' → r = r' ∧ k = k'.
Proof.
  intros H; revert r' k'. induction H as [i Hi|i j r k Hi Hne H IH]; intros r' k' H';
    inversion H'; simplify_eq; [done..|].
  edestruct IH as [-> ->]; done.
Qed.

Lemma rooted_root p i r k : rooted p i r k → p !! r = Some r.
Proof. by induction 1. Qed.

Lemma rooted_lt p i r k : rooted p i r k → i < length p.
Proof. destruct 1; by eapply lookup_lt_Some. Qed.

(** The nodes on the way to the root are distinct, so the way is short. *)
Lemma rooted_short p i r k : rooted p i r k → k < length p.
Proof.
  intros H.
  assert (∃ l, length l = S k ∧ NoDup l ∧
    ∀ x, x ∈ l → x < length p ∧ ∃ k', k' ≤ k ∧ rooted p x r k') as (l & Hl & Hnd & Hin).
  { induction H as [i Hi|i j r k Hi Hne H IH].
    - exists [i]. split_and!; [done|apply NoDup_singleton|].
      intros x ->%list_elem_of_singleton. split; [by eapply lookup_lt_Some|].
      exists 0. auto.
    - destruct IH as (l & Hl & Hnd & Hin). exists (i :: l). split_and!.
      + cbn. lia.
      + constructor; [|done]. intros (Hlt & k' & Hk' & Hr)%Hin.
        assert (k' = S k) by (eapply rooted_det; eauto). lia.
      + intros x [->|Hx]%elem_of_cons.
        * split; [by eapply lookup_lt_Some|]. exists (S k). eauto.
        * destruct (Hin x Hx) as (? & k' & ? & ?). split; [done|]. exists k'. split; [lia|done]. }
  assert (l ⊆+ seq 0 (length p)) as Hsub.
  { apply NoDup_submseteq; [done|]. intros x Hx%Hin. apply elem_of_seq. lia. }
  apply submseteq_length in Hsub. rewrite length_seq in Hsub. lia.
Qed.

(** ** Path halving *)

Section halve.
Context (p : list nat) (i j g : nat).
Context (Hi : p !! i = Some j) (Hne : j ≠ i) (Hj : p !! j = Some g).

Abbreviation p' := (<[i := g]> p).

Lemma halve_rooted x r k : rooted p x r k → ∃ k', k' ≤ k ∧ rooted p' x r k'.
Proof.
  revert x r. induction k as [k IH] using lt_wf_ind. intros x r Hr.
  destruct (decide (x = i)) as [->|Hx].
  - inversion Hr as [? Hi'|? j' ? k1 Hi' _ Hr1]; simplify_eq.
    assert (i < length p) as Hlt by by eapply lookup_lt_Some.
    inversion Hr1 as [? Hj'|? g' ? k2 Hj' Hgj Hr2]; simplify_eq.
    + exists 1. split; [lia|]. eapply rooted_step; [by apply list_lookup_insert_eq|done|].
      apply rooted_here. by rewrite list_lookup_insert_ne.
    + assert (g ≠ i) as Hgi.
      { intros ->. assert (k2 = S (S k2)) by (eapply rooted_det; eauto). lia. }
      destruct (IH k2 ltac:(lia) g r Hr2) as (k' & Hk' & Hr').
      exists (S k'). split; [lia|].
      eapply rooted_step; [by apply list_lookup_insert_eq|done|done].
  - inversion Hr as [? Hx'|? y ? k1 Hx' Hy Hr1]; simplify_eq.
    + exists 0. split; [lia|]. apply rooted_here. by rewrite list_lookup_insert_ne.
    + destruct (IH k1 ltac:(lia) y r Hr1) as (k' & Hk' & Hr'). exists (S k').
      split; [lia|]. eapply rooted_step; [by rewrite list_lookup_insert_ne|done|done].
Qed.

Lemma halve_grandparent r k :
  rooted p i r k → ∃ k', k' < k ∧ rooted p' g r k'.
Proof.
  intros Hr. pose proof halve_rooted as Hhalve.
  assert (∃ k2, k2 < k ∧ rooted p g r k2) as (k2 & Hk2 & Hr2).
  { inversion Hr as [? Hi'|? j' ? k1 Hi' _ Hr1]; subst; [congruence|].
    assert (j' = j) as -> by congruence.
    inversion Hr1 as [? Hj'|? g' ? k2 Hj' Hgj Hr2]; subst.
    - exists 0. assert (g = r) as -> by congruence. auto with lia.
    - exists k2. assert (g' = g) as -> by congruence. auto with lia. }
  destruct (Hhalve g r k2 Hr2) as (k' & ? & ?). exists k'. split; [lia|done].
Qed.
End halve.

(** Two forests on the same indices with the same roots. *)
Definition same_roots (p q : list nat) : Prop :=
  length p = length q ∧ ∀ x r, root_of p x r → root_of q x r.

Lemma same_roots_forest p q : forest p → same_roots p q → forest q.
Proof.
  intros Hp [Hl Hr] i Hi. rewrite <- Hl in Hi. destruct (Hp i Hi) as (r & k & H).
  destruct (Hr i r) as [k' Hk']; [by exists k|]. by exists r, k'.
Qed.

#[export] Instance same_roots_preorder : PreOrder same_roots.
Proof. split; [by split|]. intros p q r [H1 H2] [H3 H4]. split; [congruence|auto]. Qed.

Lemma root_of_det p x r r' : root_of p x r → root_of p x r' → r = r'.
Proof. intros [k H] [k' H']. by destruct (rooted_det _ _ _ _ _ _ H H'). Qed.

Lemma find_spec fuel p i r k :
  rooted p i r k → k < fuel →
  ∃ p', find fuel p i = (p', r) ∧ same_roots p p'.
Proof.
  revert p i k. induction fuel as [|fuel IH]; intros p i k Hr Hk; [lia|]. cbn [find].
  inversion Hr as [? Hi|? j ? k1 Hi Hne Hr1]; subst.
  - rewrite Hi, Nat.eqb_refl. by exists p.
  - rewrite Hi, (proj2 (Nat.eqb_neq _ _)) by done.
    pose proof (rooted_lt _ _ _ _ Hr1) as [g Hj]%lookup_lt_is_Some. rewrite Hj.
    destruct (halve_grandparent p i j g Hi Hne Hj r (S k1) Hr) as (k' & Hk' & Hr').
    destruct (IH _ g k' Hr' ltac:(lia)) as (p' & Hf & Hs). exists p'. split; [done|].
    etrans; [|exact Hs]. split; [by rewrite length_insert|].
    intros x r' [kx Hx]. destruct (halve_rooted p i j g Hi Hne Hj x r' kx Hx) as (k2 & _ & ?).
    by exists k2.
Qed.

Lemma find_root_spec p i r :
  root_of p i r → ∃ p', find_root p i = (p', r) ∧ same_roots p p'.
Proof.
  intros [k Hk]. eapply find_spec; [exact Hk|]. apply rooted_short in Hk. lia.
Qed.

(** ** Linking two roots *)

Lemma link_rooted p ra rb x r k :
  p !! ra = Some ra → p !! rb = Some rb → ra ≠ rb → rooted p x r k →
  root_of (<[ra := rb]> p) x (if decide (r = ra) then rb else r).
Proof.
  intros Ha Hb Hne Hr. assert (ra < length p) as Hlt by by eapply lookup_lt_Some.
  assert (rooted (<[ra := rb]> p) rb rb 0) as Hrb.
  { apply rooted_here. by rewrite list_lookup_insert_ne. }
  induction Hr as [i Hi|i j r k Hi Hji Hr IH].
  - destruct (decide (i = ra)) as [->|Hia].
    + exists 1. eapply rooted_step; [by apply list_lookup_insert_eq|done|done].
    + exists 0. apply rooted_here. by rewrite list_lookup_insert_ne.
  - destruct IH as [k' IH]. assert (i ≠ ra) by congruence.
    exists (S k'). eapply rooted_step; [by rewrite list_lookup_insert_ne|done|done].
Qed.

(** ** Roots and connectivity *)

(** [i] and [j] are connected by the edges, ignoring direction. *)
Definition connected (E : list (nat * nat)) : relation nat := rtsc (λ x y, (x, y) ∈ E).

Lemma connected_snoc E a b x y :
  connected (E ++ [(a, b)]) x y ↔
  connected E x y ∨ (connected E x a ∧ connected E b y) ∨ (connected E x b ∧ connected E a y).
Proof.
  assert (∀ u v, connected E u v → connected (E ++ [(a, b)]) u v) as Hmono.
  { intros u v. apply rtc_subrel. intros u' v' [H|H]; [left|right]; set_solver. }
  assert (connected (E ++ [(a, b)]) a b) as Hab by (apply rtsc_lr, elem_of_app; set_solver).
  assert (connected (E ++ [(a, b)]) b a) as Hba by (apply rtsc_rl, elem_of_app; set_solver).
  assert (∀ u v, connected E u v → connected E v u) as Hsym by (intros; by apply rtsc_equivalence).
  split.
  - intros H. induction H as [x|x z y Hxz _ IH]; [left; reflexivity|].
    assert (connected E x z ∨ (x = a ∧ z = b) ∨ (x = b ∧ z = a)) as Hstep.
    { destruct Hxz as [[H|H]%elem_of_app|[H|H]%elem_of_app].
      - left. by apply rtsc_lr.
      - set_solver.
      - left. by apply rtsc_rl.
      - set_solver. }
    destruct Hstep as [Hxz'|[[-> ->]|[-> ->]]].
    + destruct IH as [?|[[? ?]|[? ?]]].
      * left. by etrans.
      * right; left. split; [by etrans|done].
      * right; right. split; [by etrans|done].
    + destruct IH as [?|[[? ?]|[? ?]]].
      * right; left. split; [reflexivity|done].
      * right; left. split; [reflexivity|done].
      * left. done.
    + destruct IH as [?|[[? ?]|[? ?]]].
      * right; right. split; [reflexivity|done].
      * left. done.
      * right; right. split; [reflexivity|done].
  - intros [H|[[H1 H2]|[H1 H2]]]; [by apply Hmono|..].
    + etrans; [by apply Hmono|]. etrans; [exact Hab|by apply Hmono].
    + etrans; [by apply Hmono|]. etrans; [exact Hba|by apply Hmono].
Qed.

(** The invariant of the union loop. *)
Record uf_inv (n : nat) (E : list (nat * nat)) (p : list nat) : Prop := {
  uf_length : length p = n;
  uf_forest : forest p;
  uf_roots : ∀ i j ri rj, root_of p i ri → root_of p j rj → (ri = rj ↔ connected E i j)
}.

Lemma uf_inv_init n : uf_inv n [] (seq 0 n).
Proof.
  assert (∀ i, i < n → rooted (seq 0 n) i i 0) as Hr.
  { intros i Hi. apply rooted_here. apply lookup_seq. lia. }
  split.
  - apply length_seq.
  - intros i Hi. rewrite length_seq in Hi. exists i, 0. auto.
  - intros i j ri rj [ki Hi] [kj Hj].
    pose proof (rooted_lt _ _ _ _ Hi) as Li. pose proof (rooted_lt _ _ _ _ Hj) as Lj.
    rewrite length_seq in Li, Lj.
    destruct (rooted_det _ _ _ _ _ _ (Hr i Li) Hi) as [<- _].
    destruct (rooted_det _ _ _ _ _ _ (Hr j Lj) Hj) as [<- _].
    split; [intros ->; reflexivity|]. intros H. inversion H as [|? ? ? [Hx|Hx] _]; [done|..];
      by apply elem_of_nil in Hx.
Qed.

Lemma uf_inv_same_roots n E p q : uf_inv n E p → same_roots p q → uf_inv n E q.
Proof.
  intros [Hl Hf Hr] Hs. pose proof (same_roots_forest _ _ Hf Hs) as Hq.
  destruct Hs as [Hlen Hroots]. split; [congruence|done|].
  assert (∀ i ri, root_of q i ri → root_of p i ri) as Hback.
  { intros i ri [k Hk]. pose proof (rooted_lt _ _ _ _ Hk) as Hi. rewrite <- Hlen in Hi.
    destruct (Hf i Hi) as (r & k' & Hp). assert (root_of p i r) as Hpi by by exists k'.
    pose proof (Hroots _ _ Hpi) as Hqi. by rewrite (root_of_det q i ri r (ex_intro _ k Hk) Hqi). }
  intros i j ri rj Hi Hj. apply Hr; auto.
Qed.

Lemma find_root_inv n E p i :
  uf_inv n E p → i < n → ∃ p' r, find_root p i = (p', r) ∧ uf_inv n E p' ∧ root_of p' i r.
Proof.
  intros Hp Hi. destruct (uf_forest _ _ _ Hp i) as (r & k & Hr); [by rewrite (uf_length _ _ _ Hp)|].
  destruct (find_root_spec p i r) as (p' & Hf & Hs); [by exists k|].
  exists p', r. split_and!; [done|by eapply uf_inv_same_roots|]. apply Hs. by exists k.
Qed.

Lemma union_edge_inv n E p a b :
  uf_inv n E p → a < n → b < n → uf_inv n (E ++ [(a, b)]) (union_edge p (a, b)).
Proof.
  intros Hp Ha Hb. unfold union_edge. cbn [fst snd].
  destruct (find_root_inv n E p a Hp Ha) as (p1 & ra & -> & H1 & Hra).
  destruct (find_root_inv n E p1 b H1 Hb) as (p2 & rb & Hf2 & H2 & Hrb). rewrite Hf2.
  assert (root_of p2 a ra) as Hra2.
  { destruct (uf_forest _ _ _ H1 b) as (r & k & Hr); [by rewrite (uf_length _ _ _ H1)|].
    destruct (find_root_spec p1 b r) as (p2' & Hf & Hs); [by exists k|].
    rewrite Hf2 in Hf. simplify_eq. by apply Hs. }
  assert (∀ u v w, connected E u v → connected E v w → connected E u w) as Htr
    by (intros; by etrans).
  assert (∀ u v, connected E u v → connected E v u) as Hsym by (intros; by apply rtsc_equivalence).
  destruct (Nat.eqb_spec ra rb) as [<-|Hne].
  - assert (connected E a b) as Hab by by apply (uf_roots _ _ _ H2 a b ra ra).
    split; [apply H2|apply H2|]. intros i j ri rj Hi Hj.
    rewrite (uf_roots _ _ _ H2 i j ri rj Hi Hj), connected_snoc. naive_solver.
  - assert (p2 !! ra = Some ra) as Hroota by (destruct Hra2; by eapply rooted_root).
    assert (p2 !! rb = Some rb) as Hrootb by (destruct Hrb; by eapply rooted_root).
    assert (∀ x r, root_of p2 x r →
      root_of (<[ra:=rb]> p2) x (if decide (r = ra) then rb else r)) as Hlink.
    { intros x r [k Hk]. by eapply link_rooted. }
    assert (∀ x, x < n → ∃ r, root_of p2 x r) as Htot.
    { intros x Hx. destruct (uf_forest _ _ _ H2 x) as (r & k & ?);
        [by rewrite (uf_length _ _ _ H2)|]. exists r. by exists k. }
    split.
    + rewrite length_insert. apply H2.
    + intros i Hi. rewrite length_insert, (uf_length _ _ _ H2) in Hi.
      destruct (Htot i Hi) as (r & Hr). apply Hlink in Hr as [k Hk]. eauto.
    + intros i j ri rj Hi Hj.
      assert (i < n ∧ j < n) as [Hin Hjn].
      { destruct Hi as [? Hi%rooted_lt], Hj as [? Hj%rooted_lt].
        rewrite length_insert, (uf_length _ _ _ H2) in Hi, Hj. done. }
      destruct (Htot i Hin) as [si Hsi], (Htot j Hjn) as [sj Hsj].
      rewrite (root_of_det _ _ _ _ Hi (Hlink _ _ Hsi)), (root_of_det _ _ _ _ Hj (Hlink _ _ Hsj)).
      rewrite connected_snoc.
      rewrite <- (uf_roots _ _ _ H2 i j si sj Hsi Hsj),
        <- (uf_roots _ _ _ H2 i a si ra Hsi Hra2), <- (uf_roots _ _ _ H2 b j rb sj Hrb Hsj),
        <- (uf_roots _ _ _ H2 i b si rb Hsi Hrb), <- (uf_roots _ _ _ H2 a j ra sj Hra2 Hsj).
      repeat case_decide; subst; naive_solver.
Qed.

Lemma union_edges_inv n E p es :
  uf_inv n E p → Forall (λ e, e.1 < n ∧ e.2 < n) es →
  uf_inv n (E ++ es) (foldl union_edge p es).
Proof.
  intros Hp Hes. revert E p Hp. induction Hes as [|[a b] es [Ha Hb] _ IH]; intros E p Hp.
  { by rewrite app_nil_r. }
  cbn [foldl]. change ((a, b) :: es) with ([(a, b)] ++ es). rewrite app_assoc.
  apply IH. by apply union_edge_inv.
Qed.
