(* ===== verification/Tarjan.v ===== *)
(** * Iterative Tarjan ([directed_cycles] in
      [src/src/session/projection/supersession.rs])

    The explicit-stack strongly-connected-components search, one definition per
    part of the loop body, and its total correctness: the fuel is enough and the
    emitted lists are exactly the strongly connected components. *)

From S2P Require Import Prelude.

(** ** Definitions *)

Record TarjanState := {
  tj_index : list (option nat);
  tj_lowlink : list nat;
  tj_on_stack : list bool;
  tj_stack : list nat;
  tj_next_index : nat;
  tj_sccs : list (list nat)
}.

Definition tarjan_init (n : nat) : TarjanState :=
  {| tj_index := replicate n None; tj_lowlink := replicate n 0;
     tj_on_stack := replicate n false; tj_stack := []; tj_next_index := 0; tj_sccs := [] |}.

Definition tj_index_of (s : TarjanState) (v : nat) : option nat := mjoin (tj_index s !! v).
Definition tj_low (s : TarjanState) (v : nat) : nat := default 0 (tj_lowlink s !! v).
Definition tj_is_on_stack (s : TarjanState) (v : nat) : bool :=
  default false (tj_on_stack s !! v).

(** First visit of a frame: [cursor == 0]. *)
Definition tarjan_enter (s : TarjanState) (node : nat) : TarjanState :=
  {| tj_index := <[node := Some (tj_next_index s)]> (tj_index s);
     tj_lowlink := <[node := tj_next_index s]> (tj_lowlink s);
     tj_on_stack := <[node := true]> (tj_on_stack s);
     tj_stack := node :: tj_stack s;
     tj_next_index := S (tj_next_index s);
     tj_sccs := tj_sccs s |}.

Definition tarjan_lower (s : TarjanState) (v : nat) (k : nat) : TarjanState :=
  {| tj_index := tj_index s; tj_lowlink := <[v := Nat.min (tj_low s v) k]> (tj_lowlink s);
     tj_on_stack := tj_on_stack s; tj_stack := tj_stack s;
     tj_next_index := tj_next_index s; tj_sccs := tj_sccs s |}.

(** The pop loop: the stack (top first) down to and including [node].  The source panics if
    the stack runs out first; it never does, since a node that is finished is on the stack
    ([finish_stack]). *)
Fixpoint pop_scc (node : nat) (stack : list nat) : list nat * list nat :=
  match stack with
  | [] => ([], [])
  | popped :: stack =>
      if popped =? node then ([popped], stack)
      else let '(scc, rest) := pop_scc node stack in (popped :: scc, rest)
  end.

Definition tarjan_emit (s : TarjanState) (node : nat) : TarjanState :=
  let '(scc, rest) := pop_scc node (tj_stack s) in
  {| tj_index := tj_index s; tj_lowlink := tj_lowlink s;
     tj_on_stack := foldl (λ b v, <[v := false]> b) (tj_on_stack s) scc;
     tj_stack := rest; tj_next_index := tj_next_index s; tj_sccs := tj_sccs s ++ [scc] |}.

(** The part of an iteration after the first-visit bookkeeping: look at the next
    edge, or finish the node.  The call stack is a list, top first. *)
Definition tarjan_body (adjacency : list (list nat)) (s : TarjanState)
    (node cursor : nat) (frames : list (nat * nat)) : TarjanState * list (nat * nat) :=
  match default [] (adjacency !! node) !! cursor with
  | Some child =>
      let frames := (node, S cursor) :: frames in
      match tj_index_of s child with
      | None => (s, (child, 0) :: frames)
      | Some i =>
          (if tj_is_on_stack s child then tarjan_lower s node i else s, frames)
      end
  | None =>
      let s := if bool_decide (tj_index_of s node = Some (tj_low s node))
               then tarjan_emit s node else s in
      (match frames with
       | (parent, _) :: _ => tarjan_lower s parent (tj_low s node)
       | [] => s
       end, frames)
  end.

(** One iteration of [while let Some(&(node, cursor)) = call_stack.last()]. *)
Definition tarjan_step (adjacency : list (list nat)) (s : TarjanState)
    (node cursor : nat) (frames : list (nat * nat)) : TarjanState * list (nat * nat) :=
  tarjan_body adjacency (if cursor =? 0 then tarjan_enter s node else s) node cursor frames.

Fixpoint tarjan_loop (fuel : nat) (adjacency : list (list nat)) (s : TarjanState)
    (call_stack : list (nat * nat)) : TarjanState :=
  match fuel, call_stack with
  | S fuel, (node, cursor) :: frames =>
      let '(s, call_stack) := tarjan_step adjacency s node cursor frames in
      tarjan_loop fuel adjacency s call_stack
  | _, _ => s
  end.

(** Every iteration consumes one adjacency entry or one frame. *)
Definition tarjan_fuel (adjacency : list (list nat)) : nat :=
  sum_list_with (λ a, S (length a)) adjacency.

Definition tarjan (adjacency : list (list nat)) : TarjanState :=
  let n := length adjacency in
  foldl (λ s start,
    match tj_index_of s start with
    | Some _ => s
    | None => tarjan_loop (tarjan_fuel adjacency) adjacency s [(start, 0)]
    end) (tarjan_init n) (seq 0 n).

Definition is_cycle_scc (adjacency : list (list nat)) (scc : list nat) : bool :=
  (1 <? length scc)
  || match scc with
     | [v] => bool_decide (v ∈ default [] (adjacency !! v))
     | _ => false
     end.

(** ** Correctness *)

Section tarjan.
Context (adj : list (list nat)).

Abbreviation n := (length adj).

Definition edge (u w : nat) : Prop := ∃ l, adj !! u = Some l ∧ w ∈ l.

(** The edges a frame has looked at. *)
Definition edge_upto (u c w : nat) : Prop := ∃ l j, adj !! u = Some l ∧ j < c ∧ l !! j = Some w.

Definition degree (u : nat) : nat := length (default [] (adj !! u)).

Hypothesis adj_ok : ∀ u w, edge u w → w < n.

(** An entered frame: its node, its cursor, and the finished nodes above it on the
    Tarjan stack that belong to it. *)
Record frame := { fr_node : nat; fr_cursor : nat; fr_above : list nat }.

Definition segment (f : frame) : list nat := fr_above f ++ [fr_node f].
Definition stack_of (F : list frame) : list nat := F ≫= segment.

Definition emitted (s : TarjanState) : list nat := concat (tj_sccs s).

(** [y] accounts for a processed edge out of a frame with low link [low]. *)
Definition edge_done (s : TarjanState) (pending : option nat) (low y : nat) : Prop :=
  y ∈ emitted s ∨ pending = Some y ∨
  (y ∈ tj_stack s ∧ ∃ i, tj_index_of s y = Some i ∧ low ≤ i).

Definition index_gt (s : TarjanState) (u w : nat) : Prop :=
  ∃ i j, tj_index_of s u = Some i ∧ tj_index_of s w = Some j ∧ j < i.

(** Each frame's node has an edge to the node of the frame it called. *)
Fixpoint frames_path (F : list frame) (callee : option nat) : Prop :=
  match F with
  | [] => True
  | f :: F =>
      match callee with Some v => edge (fr_node f) v | None => True end ∧
      frames_path F (Some (fr_node f))
  end.

(** The loop invariant; [pending] is a child pushed but not yet entered. *)
Record inv (s : TarjanState) (F : list frame) (pending : option nat) : Prop := {
  i_index_len : length (tj_index s) = n;
  i_low_len : length (tj_lowlink s) = n;
  i_on_len : length (tj_on_stack s) = n;
  i_stack : tj_stack s = stack_of F;
  i_nodup : NoDup (tj_stack s ++ emitted s);
  i_visited : ∀ v, is_Some (tj_index_of s v) ↔ v ∈ tj_stack s ∨ v ∈ emitted s;
  i_on_stack : ∀ v, tj_is_on_stack s v = true ↔ v ∈ tj_stack s;
  i_index_lt : ∀ v i, tj_index_of s v = Some i → i < tj_next_index s;
  i_sorted : StronglySorted (index_gt s) (tj_stack s);
  i_path : frames_path F pending;
  i_conn : ∀ f u, f ∈ F → u ∈ segment f → rtc edge u (fr_node f) ∧ rtc edge (fr_node f) u;
  i_low : ∀ f, f ∈ F → ∃ x, x ∈ tj_stack s ∧ tj_index_of s x = Some (tj_low s (fr_node f)) ∧
    rtc edge (fr_node f) x;
  i_low_le : ∀ f i, f ∈ F → tj_index_of s (fr_node f) = Some i → tj_low s (fr_node f) ≤ i;
  i_edges : ∀ f u y, f ∈ F → u ∈ segment f →
    (u ≠ fr_node f ∧ edge u y ∨ u = fr_node f ∧ edge_upto u (fr_cursor f) y) →
    edge_done s pending (tj_low s (fr_node f)) y;
  i_closed : ∀ u y, u ∈ emitted s → edge u y → y ∈ emitted s;
  i_scc : ∀ C, C ∈ tj_sccs s → C ≠ [] ∧
    ∀ u y, u ∈ C → (y ∈ C ↔ rtc edge u y ∧ rtc edge y u);
  i_pending : ∀ v, pending = Some v → v < n ∧ tj_index_of s v = None
}.

Lemma i_lt s F pending v : inv s F pending → is_Some (tj_index_of s v) → v < n.
Proof.
  intros Hi [i Hv]. rewrite <- (i_index_len _ _ _ Hi). unfold tj_index_of in Hv.
  destruct (tj_index s !! v) eqn:E; [|done]. by eapply lookup_lt_Some.
Qed.

Lemma frame_on_stack s F pending f u :
  inv s F pending → f ∈ F → u ∈ segment f → u ∈ tj_stack s.
Proof.
  intros Hi Hf Hu. rewrite (i_stack _ _ _ Hi). apply list_elem_of_bind. eauto.
Qed.

Lemma node_in_segment f : fr_node f ∈ segment f.
Proof. unfold segment. set_solver. Qed.

Lemma stack_index s F pending v :
  inv s F pending → v ∈ tj_stack s → ∃ i, tj_index_of s v = Some i.
Proof. intros Hi Hv. apply (i_visited _ _ _ Hi). by left. Qed.

(** *** Entering a node *)

Lemma tj_index_enter s v w :
  v < length (tj_index s) →
  tj_index_of (tarjan_enter s v) w =
  if decide (w = v) then Some (tj_next_index s) else tj_index_of s w.
Proof.
  intros Hv. unfold tj_index_of, tarjan_enter. cbn. case_decide as E.
  - subst. by rewrite list_lookup_insert_eq.
  - by rewrite list_lookup_insert_ne.
Qed.

Lemma tj_low_enter s v w :
  v < length (tj_lowlink s) →
  tj_low (tarjan_enter s v) w = if decide (w = v) then tj_next_index s else tj_low s w.
Proof.
  intros Hv. unfold tj_low, tarjan_enter. cbn. case_decide as E.
  - subst. by rewrite list_lookup_insert_eq.
  - by rewrite list_lookup_insert_ne.
Qed.

Lemma tj_on_enter s v w :
  v < length (tj_on_stack s) →
  tj_is_on_stack (tarjan_enter s v) w = if decide (w = v) then true else tj_is_on_stack s w.
Proof.
  intros Hv. unfold tj_is_on_stack, tarjan_enter. cbn. case_decide as E.
  - subst. by rewrite list_lookup_insert_eq.
  - by rewrite list_lookup_insert_ne.
Qed.

Lemma enter_inv s F v :
  inv s F (Some v) → inv (tarjan_enter s v) ({| fr_node := v; fr_cursor := 0; fr_above := [] |} :: F) None.
Proof.
  intros Hi. destruct (i_pending _ _ _ Hi v eq_refl) as [Hv Hvn].
  pose proof (i_index_len _ _ _ Hi) as L1. pose proof (i_low_len _ _ _ Hi) as L2.
  pose proof (i_on_len _ _ _ Hi) as L3.
  assert (v ∉ tj_stack s ∧ v ∉ emitted s) as [Hvs Hve].
  { split; intros H; assert (is_Some (tj_index_of s v)) as [? ?]
      by (apply (i_visited _ _ _ Hi); auto); congruence. }
  assert (∀ w, w ∈ tj_stack s → w ≠ v) as Hw by (by intros w H ->).
  assert (∀ w, tj_index_of (tarjan_enter s v) w =
    if decide (w = v) then Some (tj_next_index s) else tj_index_of s w) as Hidx
    by (intros; apply tj_index_enter; lia).
  assert (∀ w, tj_low (tarjan_enter s v) w =
    if decide (w = v) then tj_next_index s else tj_low s w) as Hlow
    by (intros; apply tj_low_enter; lia).
  assert (∀ f, f ∈ F → fr_node f ≠ v) as Hfn.
  { intros f Hf. apply Hw. eapply frame_on_stack; [done..|]. apply node_in_segment. }
  split.
  - cbn. by rewrite length_insert.
  - cbn. by rewrite length_insert.
  - cbn. by rewrite length_insert.
  - cbn. by rewrite (i_stack _ _ _ Hi).
  - cbn. constructor; [|apply Hi]. set_solver.
  - intros w. rewrite Hidx. cbn [tj_stack tarjan_enter emitted tj_sccs]. fold (emitted s).
    case_decide as E; [subst; set_solver|]. rewrite (i_visited _ _ _ Hi). set_solver.
  - intros w. rewrite tj_on_enter by lia. cbn [tj_stack tarjan_enter].
    case_decide as E; [subst; set_solver|]. rewrite (i_on_stack _ _ _ Hi). set_solver.
  - intros w i. rewrite Hidx. cbn [tj_next_index tarjan_enter]. case_decide as E.
    + intros [= <-]. lia.
    + intros H%(i_index_lt _ _ _ Hi). lia.
  - cbn [tj_stack tarjan_enter]. constructor.
    + eapply StronglySorted_impl_elem; [exact (i_sorted _ _ _ Hi)|].
      intros x y Hx%Hw Hy%Hw (i & j & H). exists i, j. by rewrite !Hidx, !decide_False.
    + apply Forall_forall. intros x Hx. destruct (stack_index _ _ _ _ Hi Hx) as [i Hxi].
      exists (tj_next_index s), i. rewrite !Hidx, decide_True, decide_False by auto.
      split_and!; [done..|]. by eapply i_index_lt.
  - cbn. split; [done|]. apply Hi.
  - intros f u [->|Hf]%elem_of_cons Hu; [|by apply (i_conn _ _ _ Hi)].
    cbn in Hu. apply list_elem_of_singleton in Hu as ->. done.
  - intros f [->|Hf]%elem_of_cons.
    + exists v. cbn [fr_node]. rewrite Hidx, Hlow, !decide_True by done. cbn. set_solver.
    + destruct (i_low _ _ _ Hi f Hf) as (x & Hx & Hxi & Hr). exists x.
      rewrite Hidx, Hlow, !decide_False by auto. split_and!; [cbn; set_solver|done..].
  - intros f i [->|Hf]%elem_of_cons.
    + cbn [fr_node]. rewrite Hidx, Hlow, !decide_True by done. by intros [= <-].
    + rewrite Hidx, Hlow, !decide_False by auto. by apply (i_low_le _ _ _ Hi).
  - intros f u y [->|Hf]%elem_of_cons Hu Huy.
    + cbn in Hu, Huy. apply list_elem_of_singleton in Hu as ->.
      destruct Huy as [[? _]|[_ (l & j & _ & Hj & _)]]; [done|lia].
    + rewrite Hlow, decide_False by auto.
      destruct (i_edges _ _ _ Hi f u y Hf Hu Huy) as [H|[[= <-]|(Hy & i & Hyi & Hle)]].
      * left. done.
      * right; right. split; [cbn; set_solver|]. exists (tj_next_index s).
        rewrite Hidx, decide_True by done. split; [done|].
        destruct (i_low _ _ _ Hi f Hf) as (x & _ & Hxi & _).
        apply (i_index_lt _ _ _ Hi) in Hxi. lia.
      * right; right. split; [cbn; set_solver|]. exists i. by rewrite Hidx, decide_False by auto.
  - apply Hi.
  - apply Hi.
  - done.
Qed.

(** *** Looking at an edge *)

Lemma edge_upto_S v c child y :
  default [] (adj !! v) !! c = Some child →
  edge_upto v (S c) y → edge_upto v c y ∨ y = child.
Proof.
  intros Hc (l & j & Hl & Hj & Hy). rewrite Hl in Hc. cbn in Hc.
  destruct (decide (j = c)) as [->|]; [right; congruence|].
  left. exists l, j. split_and!; [done|lia|done].
Qed.

Lemma edge_of_lookup v c child : default [] (adj !! v) !! c = Some child → edge v child.
Proof.
  destruct (adj !! v) as [l|] eqn:E; [|done]. cbn. intros Hc. exists l.
  split; [done|]. by eapply list_elem_of_lookup_2.
Qed.

Section look.
Context (s : TarjanState) (v c child : nat) (l : list nat) (F : list frame).
Context (Hi : inv s ({| fr_node := v; fr_cursor := c; fr_above := l |} :: F) None).
Context (Hc : default [] (adj !! v) !! c = Some child).

Abbreviation F' := ({| fr_node := v; fr_cursor := S c; fr_above := l |} :: F).

(** Frames are the same up to the cursor of the top one. *)
Lemma look_frame f : f ∈ F' → ∃ f0, f0 ∈ {| fr_node := v; fr_cursor := c; fr_above := l |} :: F ∧
  fr_node f0 = fr_node f ∧ segment f0 = segment f.
Proof.
  intros [->|Hf]%elem_of_cons; [eexists; split; [left|done]|].
  exists f. split; [by right|done].
Qed.

Lemma look_edges pending f u y :
  (pending = Some child ∨ edge_done s None (tj_low s v) child) →
  f ∈ F' → u ∈ segment f →
  (u ≠ fr_node f ∧ edge u y ∨ u = fr_node f ∧ edge_upto u (fr_cursor f) y) →
  edge_done s pending (tj_low s (fr_node f)) y.
Proof.
  intros Hch Hf Hu Huy.
  assert (∀ low z, edge_done s None low z → edge_done s pending low z) as Hweak.
  { intros low z [?|[?|?]]; [by left|done|by right; right]. }
  apply elem_of_cons in Hf as [->|Hf]; cbn [fr_node fr_cursor] in *.
  - destruct Huy as [Huy|[-> [Huy| ->]%(edge_upto_S v c child)]]; [| | |done].
    + apply Hweak, (i_edges _ _ _ Hi _ u y (list_elem_of_here _ _) Hu). by left.
    + apply Hweak, (i_edges _ _ _ Hi _ v y (list_elem_of_here _ _) Hu). by right.
    + destruct Hch as [->|Hch]; [by right; left|by apply Hweak].
  - apply Hweak, (i_edges _ _ _ Hi f u y); [by right|done..].
Qed.

Lemma look_push : tj_index_of s child = None → inv s F' (Some child).
Proof.
  intros Hn. pose proof (edge_of_lookup _ _ _ Hc) as He.
  split; try apply Hi.
  - split; [done|apply Hi].
  - intros f u (f0 & Hf0 & <- & <-)%look_frame. by apply (i_conn _ _ _ Hi).
  - intros f (f0 & Hf0 & <- & _)%look_frame. by apply (i_low _ _ _ Hi).
  - intros f i (f0 & Hf0 & <- & _)%look_frame. by apply (i_low_le _ _ _ Hi).
  - intros f u y. apply look_edges. by left.
  - intros w [= <-]. split; [by eapply adj_ok|done].
Qed.

Lemma look_cross :
  is_Some (tj_index_of s child) → tj_is_on_stack s child = false → inv s F' None.
Proof.
  intros Hv Hon. split; try apply Hi.
  - intros f u (f0 & Hf0 & <- & <-)%look_frame. by apply (i_conn _ _ _ Hi).
  - intros f (f0 & Hf0 & <- & _)%look_frame. by apply (i_low _ _ _ Hi).
  - intros f i (f0 & Hf0 & <- & _)%look_frame. by apply (i_low_le _ _ _ Hi).
  - intros f u y. apply look_edges. right. left.
    apply (i_visited _ _ _ Hi) in Hv as [Hs|?]; [|done].
    apply (i_on_stack _ _ _ Hi) in Hs. congruence.
Qed.
End look.

(** *** Lowering a low link *)

Lemma tj_low_lower s v k w :
  v < length (tj_lowlink s) →
  tj_low (tarjan_lower s v k) w = if decide (w = v) then Nat.min (tj_low s v) k else tj_low s w.
Proof.
  intros Hv. unfold tj_low at 1, tarjan_lower. cbn. case_decide as E.
  - subst. by rewrite list_lookup_insert_eq.
  - by rewrite list_lookup_insert_ne.
Qed.

(** A frame's low link may be lowered to the index of a stack node it reaches. *)
Lemma lower_inv s F pending v k x :
  inv s F pending → v < n → x ∈ tj_stack s → tj_index_of s x = Some k → rtc edge v x →
  inv (tarjan_lower s v k) F pending.
Proof.
  intros Hi Hv Hx Hxk Hr. pose proof (i_low_len _ _ _ Hi) as L2.
  assert (∀ w, tj_low (tarjan_lower s v k) w =
    if decide (w = v) then Nat.min (tj_low s v) k else tj_low s w) as Hlow
    by (intros; apply tj_low_lower; lia).
  assert (∀ w, tj_low (tarjan_lower s v k) w ≤ tj_low s w) as Hle.
  { intros w. rewrite Hlow. case_decide; [subst; lia|done]. }
  split; try apply Hi.
  - cbn. by rewrite length_insert, L2.
  - intros f Hf. destruct (i_low _ _ _ Hi f Hf) as (z & Hz & Hzi & Hzr). rewrite Hlow.
    case_decide as E; [|by exists z]. rewrite <- E.
    destruct (Nat.min_spec (tj_low s (fr_node f)) k) as [[_ ->]|[_ ->]]; [by exists z|].
    exists x. by rewrite E.
  - intros f i Hf Hfi. etrans; [apply Hle|]. by apply (i_low_le _ _ _ Hi).
  - intros f u y Hf Hu Huy.
    destruct (i_edges _ _ _ Hi f u y Hf Hu Huy) as [H|[H|(Hy & i & Hyi & Hyl)]];
      [by left|by right; left|].
    right; right. split; [done|]. exists i. split; [done|]. etrans; [apply Hle|done].
Qed.

(** The low link is now below everything it was below, and below [k]. *)
Lemma look_back s v c child l F i :
  inv s ({| fr_node := v; fr_cursor := c; fr_above := l |} :: F) None →
  default [] (adj !! v) !! c = Some child →
  tj_index_of s child = Some i → tj_is_on_stack s child = true →
  inv (tarjan_lower s v i) ({| fr_node := v; fr_cursor := S c; fr_above := l |} :: F) None.
Proof.
  intros Hi Hc Hch Hon.
  assert (child ∈ tj_stack s) as Hcs by by apply (i_on_stack _ _ _ Hi).
  assert (v < n) as Hv.
  { eapply i_lt; [exact Hi|]. apply (i_visited _ _ _ Hi). left.
    eapply frame_on_stack; [done|left|]. apply (node_in_segment {| fr_node := v |}). }
  pose proof (lower_inv s _ None v i child Hi Hv Hcs Hch) as Hi'.
  specialize (Hi' (rtc_once _ _ (edge_of_lookup _ _ _ Hc))).
  split; try apply Hi'.
  - intros f u (f0 & Hf0 & <- & <-)%(look_frame v c l F). by apply (i_conn _ _ _ Hi').
  - intros f (f0 & Hf0 & <- & _)%(look_frame v c l F). by apply (i_low _ _ _ Hi').
  - intros f j (f0 & Hf0 & <- & _)%(look_frame v c l F). by apply (i_low_le _ _ _ Hi').
  - intros f u y. eapply (look_edges (tarjan_lower s v i) v c child l F); [done..|].
    right. right; right. split; [done|]. exists i. split; [done|].
    rewrite tj_low_lower, decide_True by (rewrite ?(i_low_len _ _ _ Hi); done). lia.
Qed.

(** *** Finishing a node *)

Lemma pop_scc_segment v l rest : v ∉ l → pop_scc v ((l ++ [v]) ++ rest) = (l ++ [v], rest).
Proof.
  induction l as [|u l IH]; intros Hv; cbn.
  - by rewrite Nat.eqb_refl.
  - rewrite (proj2 (Nat.eqb_neq u v)) by set_solver. rewrite IH by set_solver. done.
Qed.

Lemma clear_flags (b : list bool) vs w :
  default false (foldl (λ b v, <[v := false]> b) b vs !! w) =
  if decide (w ∈ vs) then false else default false (b !! w).
Proof.
  revert b. induction vs as [|v vs IH]; intros b; cbn.
  { by rewrite decide_False by set_solver. }
  rewrite IH. destruct (decide (w = v)) as [->|Hne].
  - rewrite (decide_True (P:=v ∈ v :: vs)) by set_solver. case_decide; [done|].
    destruct (decide (v < length b)) as [Hlt|Hge].
    + by rewrite list_lookup_insert_eq.
    + rewrite list_insert_ge by lia. rewrite lookup_ge_None_2 by lia. done.
  - rewrite list_lookup_insert_ne by done.
    destruct (decide (w ∈ vs)) as [H|H]; [by rewrite decide_True by set_solver|].
    by rewrite decide_False by set_solver.
Qed.

Lemma length_clear_flags (b : list bool) vs :
  length (foldl (λ b v, <[v := false]> b) b vs) = length b.
Proof. revert b; induction vs as [|v vs IH]; intros b; cbn; [done|]. by rewrite IH, length_insert. Qed.

Lemma frames_path_weaken F callee : frames_path F callee → frames_path F None.
Proof. destruct F; cbn; naive_solver. Qed.

(** Frames lower on the call stack reach the ones above them. *)
Lemma frames_path_rtc p F callee g :
  frames_path (p :: F) callee → g ∈ p :: F → rtc edge (fr_node g) (fr_node p).
Proof.
  revert p callee. induction F as [|q F IH]; intros p callee Hp Hg.
  { apply list_elem_of_singleton in Hg as ->. done. }
  apply elem_of_cons in Hg as [->|Hg]; [done|].
  destruct Hp as [_ Hq]. etrans; [by eapply IH|]. destruct Hq as [? _]. by apply rtc_once.
Qed.

Lemma closed_rtc (X : list nat) u y :
  (∀ u y, u ∈ X → edge u y → y ∈ X) → u ∈ X → rtc edge u y → y ∈ X.
Proof. intros Hc Hu. induction 1; [done|]. eauto. Qed.

Section finish.
Context (s : TarjanState) (v c : nat) (l : list nat) (F : list frame).
Abbreviation f := ({| fr_node := v; fr_cursor := c; fr_above := l |}).
Context (Hi : inv s (f :: F) None).
Context (Hdone : default [] (adj !! v) !! c = None).

Lemma finish_edges u y : u ∈ segment f → edge u y → edge_done s None (tj_low s v) y.
Proof.
  intros Hu He. apply (i_edges _ _ _ Hi f u y); [left|done|]. cbn [fr_node fr_cursor].
  destruct (decide (u = v)) as [->|]; [right|by left]. split; [done|].
  destruct He as (vs & Hvs & [j Hj]%list_elem_of_lookup). exists vs, j.
  split_and!; [done| |done]. rewrite Hvs in Hdone. cbn in Hdone.
  apply lookup_ge_None in Hdone. apply lookup_lt_Some in Hj. lia.
Qed.

Lemma finish_stack : tj_stack s = segment f ++ stack_of F.
Proof. apply Hi. Qed.

Lemma finish_node_lt : v < n.
Proof.
  eapply i_lt; [exact Hi|]. apply (i_visited _ _ _ Hi). left.
  eapply frame_on_stack; [done|left|]. apply (node_in_segment f).
Qed.

(** Everything below the segment has a smaller index. *)
Lemma below_index u w i j :
  u ∈ segment f → w ∈ stack_of F → tj_index_of s u = Some i → tj_index_of s w = Some j → j < i.
Proof.
  intros Hu Hw Hui Hwj. pose proof (i_sorted _ _ _ Hi) as Hs. rewrite finish_stack in Hs.
  destruct (StronglySorted_app_elem _ _ _ u w Hs Hu Hw) as (i' & j' & ? & ? & ?). congruence.
Qed.

(** The node itself has the least index of its segment. *)
Lemma segment_index u i j :
  u ∈ segment f → tj_index_of s u = Some i → tj_index_of s v = Some j → j ≤ i.
Proof.
  intros Hu Hui Hvj. pose proof (i_sorted _ _ _ Hi) as Hs. rewrite finish_stack in Hs.
  unfold segment in Hs, Hu. cbn in Hs, Hu. rewrite <- app_assoc in Hs.
  apply elem_of_app in Hu as [Hu| ->%list_elem_of_singleton]; [|simplify_eq; lia].
  destruct (StronglySorted_app_elem _ _ _ u v Hs Hu ltac:(set_solver)) as (i' & j' & ? & ? & ?).
  simplify_eq. lia.
Qed.

Lemma finish_nodup :
  v ∉ l ∧ NoDup (stack_of F) ∧ ∀ u, u ∈ segment f → u ∉ stack_of F ∧ u ∉ emitted s.
Proof.
  pose proof (i_nodup _ _ _ Hi) as Hnd. rewrite finish_stack in Hnd.
  apply NoDup_app in Hnd as (H1 & H2 & _).
  apply NoDup_app in H1 as (H3 & H4 & H5). unfold segment in H3. cbn in H3.
  apply NoDup_app in H3 as (_ & H6 & _). split_and!; [|done|].
  - intros Hv. by apply (H6 v Hv), list_elem_of_singleton.
  - intros u Hu. split; [by apply H4|]. apply H2. by apply elem_of_app; left.
Qed.

Hypothesis Hroot : tj_index_of s v = Some (tj_low s v).

Lemma emit_sccs : tj_sccs (tarjan_emit s v) = tj_sccs s ++ [segment f] ∧
  tj_stack (tarjan_emit s v) = stack_of F.
Proof.
  unfold tarjan_emit. rewrite finish_stack. change (segment f) with (l ++ [v]).
  by rewrite pop_scc_segment by apply finish_nodup.
Qed.

Lemma emit_emitted : emitted (tarjan_emit s v) = emitted s ++ segment f.
Proof.
  unfold emitted. rewrite (proj1 emit_sccs), concat_app. cbn. by rewrite app_nil_r.
Qed.

Lemma emit_on_stack w :
  tj_is_on_stack (tarjan_emit s v) w =
  if decide (w ∈ segment f) then false else tj_is_on_stack s w.
Proof.
  unfold tj_is_on_stack, tarjan_emit. rewrite finish_stack.
  change (segment f) with (l ++ [v]).
  rewrite pop_scc_segment by apply finish_nodup. apply clear_flags.
Qed.

Lemma emit_same :
  tj_index (tarjan_emit s v) = tj_index s ∧ tj_lowlink (tarjan_emit s v) = tj_lowlink s ∧
  tj_next_index (tarjan_emit s v) = tj_next_index s ∧
  length (tj_on_stack (tarjan_emit s v)) = length (tj_on_stack s).
Proof.
  unfold tarjan_emit. destruct (pop_scc v (tj_stack s)). cbn. by rewrite length_clear_flags.
Qed.

(** The emitted nodes stay closed: the root's segment has no edge below it. *)
Lemma emit_closed u y :
  u ∈ emitted s ++ segment f → edge u y → y ∈ emitted s ++ segment f.
Proof.
  intros [Hu|Hu]%elem_of_app He; apply elem_of_app.
  { left. by eapply (i_closed _ _ _ Hi). }
  destruct (finish_edges u y Hu He) as [?|[?|(Hy & i & Hyi & Hle)]]; [by left|done|].
  right. rewrite finish_stack in Hy. apply elem_of_app in Hy as [?|Hy]; [done|]. exfalso.
  pose proof (below_index v y _ i (node_in_segment f) Hy Hroot Hyi). lia.
Qed.

Lemma emit_is_scc u y :
  u ∈ segment f → (y ∈ segment f ↔ rtc edge u y ∧ rtc edge y u).
Proof.
  intros Hu. pose proof (i_conn _ _ _ Hi f u (list_elem_of_here _ _) Hu) as [Huv Hvu].
  split.
  - intros Hy. destruct (i_conn _ _ _ Hi f y (list_elem_of_here _ _) Hy). split; by etrans.
  - intros [Huy Hyu].
    assert (y ∈ emitted s ++ segment f) as [Hy|Hy]%elem_of_app; [|exfalso|done].
    { eapply closed_rtc; [apply emit_closed| |exact Huy]. by apply elem_of_app; right. }
    assert (u ∈ emitted s) as Hue by (eapply closed_rtc; [apply Hi|exact Hy|exact Hyu]).
    by apply finish_nodup in Hu as [_ ?].
Qed.

Lemma emit_inv : inv (tarjan_emit s v) F None.
Proof.
  destruct emit_same as (E1 & E2 & E3 & E4). destruct emit_sccs as [Es Est].
  assert (∀ w, tj_index_of (tarjan_emit s v) w = tj_index_of s w) as Hidx
    by (intros; unfold tj_index_of; by rewrite E1).
  assert (∀ w, tj_low (tarjan_emit s v) w = tj_low s w) as Hlow
    by (intros; unfold tj_low; by rewrite E2).
  pose proof finish_stack as Hst. destruct finish_nodup as (_ & Hnd & Hseg).
  split.
  - rewrite E1. apply Hi.
  - rewrite E2. apply Hi.
  - rewrite E4. apply Hi.
  - done.
  - rewrite Est, emit_emitted. pose proof (i_nodup _ _ _ Hi) as H. rewrite Hst in H.
    by rewrite app_assoc, (Permutation_app_comm _ (segment f)), app_assoc.
  - intros w. rewrite Hidx, (i_visited _ _ _ Hi), Hst, Est, emit_emitted. set_solver.
  - intros w. rewrite emit_on_stack, Est. pose proof (i_on_stack _ _ _ Hi w) as Hw.
    rewrite Hst in Hw. case_decide as E.
    + split; [done|]. intros Hin. by apply Hseg in E as [? _].
    + rewrite Hw. set_solver.
  - intros w i. rewrite Hidx, E3. apply Hi.
  - rewrite Est. eapply StronglySorted_impl_elem.
    + eapply StronglySorted_app_r. rewrite <- Hst. apply Hi.
    + intros x y _ _ (i & j & ?). exists i, j. by rewrite !Hidx.
  - eapply frames_path_weaken. pose proof (i_path _ _ _ Hi) as [_ Hp]. exact Hp.
  - intros g u Hg. apply (i_conn _ _ _ Hi). by right.
  - intros g Hg. destruct (i_low _ _ _ Hi g ltac:(by right)) as (x & Hx & Hxi & Hr).
    exists x. rewrite Hidx, Hlow, Est. split_and!; [|done..].
    rewrite Hst in Hx. apply elem_of_app in Hx as [Hx|?]; [exfalso|done].
    assert (fr_node g ∈ stack_of F) as Hgs.
    { apply list_elem_of_bind. exists g. split; [apply node_in_segment|done]. }
    destruct (stack_index s _ None (fr_node g) Hi) as [j Hj]; [rewrite Hst; set_solver|].
    pose proof (below_index x (fr_node g) _ j Hx Hgs Hxi Hj).
    pose proof (i_low_le _ _ _ Hi g j ltac:(by right) Hj). lia.
  - intros g i Hg. rewrite Hidx, Hlow. apply (i_low_le _ _ _ Hi). by right.
  - intros g u y Hg Hu Huy. rewrite Hlow.
    destruct (i_edges _ _ _ Hi g u y ltac:(by right) Hu Huy) as [?|[?|(Hy & i & ? & ?)]]; [|done|].
    + left. rewrite emit_emitted. set_solver.
    + rewrite Hst in Hy. apply elem_of_app in Hy as [Hy|Hy].
      * left. rewrite emit_emitted. set_solver.
      * right; right. rewrite Est, Hidx. eauto.
  - intros u y. rewrite emit_emitted. apply emit_closed.
  - intros C. rewrite Es. intros [HC| ->%list_elem_of_singleton]%elem_of_app;
      [by apply (i_scc _ _ _ Hi)|]. split; [by destruct l|]. apply emit_is_scc.
  - done.
Qed.
End finish.

(** A node that is not a root folds its segment into its caller's. *)
Lemma merge_inv s v c l F :
  inv s ({| fr_node := v; fr_cursor := c; fr_above := l |} :: F) None →
  default [] (adj !! v) !! c = None → tj_index_of s v ≠ Some (tj_low s v) →
  ∃ p F', F = p :: F' ∧
    inv (tarjan_lower s (fr_node p) (tj_low s v))
      ({| fr_node := fr_node p; fr_cursor := fr_cursor p;
          fr_above := (l ++ [v]) ++ fr_above p |} :: F') None.
Proof.
  intros Hi Hdone Hnr.
  set (f := {| fr_node := v; fr_cursor := c; fr_above := l |}) in *.
  destruct (i_low _ _ _ Hi f (list_elem_of_here _ _)) as (x & Hx & Hxi & Hvx).
  destruct (stack_index s _ _ v Hi) as [iv Hiv].
  { eapply frame_on_stack; [done|left|apply (node_in_segment f)]. }
  pose proof (i_low_le _ _ _ Hi f iv (list_elem_of_here _ _) Hiv) as Hle. cbn in Hxi, Hvx, Hle.
  assert (tj_low s v < iv) as Hlt.
  { destruct (decide (tj_low s v = iv)); [congruence|lia]. }
  rewrite (finish_stack _ _ _ _ _ Hi) in Hx.
  apply elem_of_app in Hx as [Hx|Hx].
  { pose proof (segment_index _ _ _ _ _ Hi Hdone x _ iv Hx Hxi Hiv). lia. }
  apply list_elem_of_bind in Hx as (g & Hxg & Hg).
  destruct F as [|p F']; [by apply elem_of_nil in Hg|]. exists p, F'. split; [done|].
  pose proof (i_path _ _ _ Hi) as [_ Hpath]. pose proof Hpath as [Hpv _].
  assert (x ∈ tj_stack s) as Hxs.
  { rewrite (finish_stack _ _ _ _ _ Hi). apply elem_of_app. right.
    apply list_elem_of_bind. eauto. }
  assert (rtc edge v (fr_node p)) as Hvp.
  { etrans; [exact Hvx|]. etrans; [by apply (i_conn _ _ _ Hi g x); [right|]|].
    by eapply frames_path_rtc. }
  assert (p ∈ f :: p :: F') as Hpin by (right; left).
  assert (fr_node p < n) as Hpn.
  { eapply i_lt; [exact Hi|]. apply (i_visited _ _ _ Hi). left.
    eapply frame_on_stack; [done|exact Hpin|apply node_in_segment]. }
  assert (rtc edge (fr_node p) x) as Hpx by (etrans; [by apply rtc_once|done]).
  pose proof (lower_inv s _ None (fr_node p) (tj_low s v) x Hi Hpn Hxs Hxi Hpx) as Hi'.
  set (s' := tarjan_lower s (fr_node p) (tj_low s v)) in *.
  assert (fr_node p ≠ v) as Hpv'.
  { intros E. destruct (finish_nodup _ _ _ _ _ Hi) as (_ & _ & Hseg).
    apply (proj1 (Hseg v (node_in_segment f))). apply list_elem_of_bind.
    exists p. split; [rewrite <- E; apply node_in_segment|left]. }
  assert (tj_low s' (fr_node p) ≤ tj_low s' v) as Hlow.
  { unfold s'. rewrite !tj_low_lower by (rewrite (i_low_len _ _ _ Hi); done).
    rewrite decide_True, decide_False by done. lia. }
  assert (∀ u y, u ∈ segment f → edge u y → edge_done s' None (tj_low s' (fr_node p)) y) as Hed.
  { intros u y Hu He. destruct (finish_edges s' v c l (p :: F') Hi' Hdone u y Hu He)
      as [?|[?|(? & i & ? & ?)]]; [by left|done|]. right; right. split; [done|].
    exists i. split; [done|lia]. }
  set (m := {| fr_node := fr_node p; fr_cursor := fr_cursor p;
               fr_above := (l ++ [v]) ++ fr_above p |}).
  assert (segment m = segment f ++ segment p) as Hseg.
  { unfold segment. cbn. by rewrite <- !app_assoc. }
  split; try apply Hi'.
  - rewrite (i_stack _ _ _ Hi'). unfold stack_of. cbn [mbind list_bind].
    by rewrite Hseg, <- app_assoc.
  - pose proof Hpath as [_ Hpath']. by split.
  - intros g' u [->|Hg']%elem_of_cons Hu; [|by apply (i_conn _ _ _ Hi'); [right; right|]].
    cbn [fr_node m]. rewrite Hseg in Hu. apply elem_of_app in Hu as [Hu|Hu].
    + destruct (i_conn _ _ _ Hi' f u (list_elem_of_here _ _) Hu) as [H1 H2]. cbn in H1, H2.
      split; [by etrans|]. etrans; [by apply rtc_once|done].
    + by apply (i_conn _ _ _ Hi' p u).
  - intros g' [->|Hg']%elem_of_cons.
    + by apply (i_low _ _ _ Hi' p).
    + apply (i_low _ _ _ Hi'). by right; right.
  - intros g' i [->|Hg']%elem_of_cons.
    + by apply (i_low_le _ _ _ Hi' p).
    + apply (i_low_le _ _ _ Hi'). by right; right.
  - intros g' u y [->|Hg']%elem_of_cons Hu Huy;
      [|by apply (i_edges _ _ _ Hi' g' u y); [right; right|..]].
    cbn [fr_node fr_cursor m] in *. rewrite Hseg in Hu. apply elem_of_app in Hu as [Hu|Hu].
    + destruct Huy as [[_ He]|[-> (vs & j & Hvs & _ & Hj)]]; [by eapply Hed|].
      eapply Hed; [exact Hu|]. exists vs. split; [done|]. by eapply list_elem_of_lookup_2.
    + by apply (i_edges _ _ _ Hi' p u y).
Qed.

Lemma lower_id s v k : v < length (tj_lowlink s) → tj_low s v ≤ k → tarjan_lower s v k = s.
Proof.
  intros Hv Hk. unfold tarjan_lower. rewrite Nat.min_l by done.
  rewrite list_insert_id; [by destruct s|]. unfold tj_low.
  destruct (tj_lowlink s !! v) eqn:E; [done|]. apply lookup_ge_None in E. lia.
Qed.

(** *** The loop *)

Definition calls (F : list frame) (pending : option nat) : list (nat * nat) :=
  match pending with Some v => [(v, 0)] | None => [] end ++
  ((λ f, (fr_node f, fr_cursor f)) <$> F).

Definition cursor_ok (f : frame) : Prop := 1 ≤ fr_cursor f ≤ degree (fr_node f).

(** Iterations left: one per unseen edge and per unfinished node. *)
Definition unvisited (s : TarjanState) : nat :=
  sum_list_with (λ v, if tj_index_of s v then 0 else S (degree v)) (seq 0 n).
Definition work (F : list frame) : nat :=
  sum_list_with (λ f, S (degree (fr_node f)) - fr_cursor f) F.

Lemma body_step s v c l F :
  inv s ({| fr_node := v; fr_cursor := c; fr_above := l |} :: F) None → c ≤ degree v →
  Forall cursor_ok F →
  ∃ s' F' pending',
    tarjan_body adj s v c (calls F None) = (s', calls F' pending') ∧ inv s' F' pending' ∧
    Forall cursor_ok F' ∧ (∀ w, tj_index_of s' w = tj_index_of s w) ∧
    work F' < work ({| fr_node := v; fr_cursor := c; fr_above := l |} :: F).
Proof.
  intros Hi Hcd HF. unfold tarjan_body.
  destruct (default [] (adj !! v) !! c) as [child|] eqn:Ech.
  - assert (c < degree v) as Hcl by (by eapply lookup_lt_Some).
    assert (cursor_ok {| fr_node := v; fr_cursor := S c; fr_above := l |}) as Hok
      by (unfold cursor_ok; cbn; lia).
    destruct (tj_index_of s child) as [i|] eqn:Ei.
    + destruct (tj_is_on_stack s child) eqn:Eon.
      * eexists _, ({| fr_node := v; fr_cursor := S c; fr_above := l |} :: F), None.
        split_and!; [done|by eapply look_back|by constructor|done|]. unfold work; cbn [sum_list_with fr_node fr_cursor]; lia.
      * eexists _, ({| fr_node := v; fr_cursor := S c; fr_above := l |} :: F), None.
        split_and!; [done|by eapply look_cross|by constructor|done|]. unfold work; cbn [sum_list_with fr_node fr_cursor]; lia.
    + eexists _, ({| fr_node := v; fr_cursor := S c; fr_above := l |} :: F), (Some child).
      split_and!; [done|by eapply look_push|by constructor|done|]. unfold work; cbn [sum_list_with fr_node fr_cursor]; lia.
  - case_bool_decide as Hroot.
    + pose proof (emit_inv s v c l F Hi Ech Hroot) as Hi'.
      destruct (emit_same s v) as (E1 & E2 & _).
      assert (match calls F None with
        | (parent, _) :: _ => tarjan_lower (tarjan_emit s v) parent (tj_low (tarjan_emit s v) v)
        | [] => tarjan_emit s v end = tarjan_emit s v) as ->.
      { destruct F as [|p F']; [done|]. cbn.
        assert (p ∈ {| fr_node := v; fr_cursor := c; fr_above := l |} :: p :: F') as Hp
          by (right; left).
        pose proof (frame_on_stack _ _ _ p _ Hi Hp (node_in_segment p)) as Hps.
        destruct (stack_index _ _ _ _ Hi Hps) as [ip Hip].
        apply lower_id.
        - rewrite E2, (i_low_len _ _ _ Hi). eapply i_lt; [exact Hi|by eexists].
        - unfold tj_low. rewrite E2. fold (tj_low s (fr_node p)) (tj_low s v).
          pose proof (i_low_le _ _ _ Hi p ip Hp Hip).
          assert (fr_node p ∈ stack_of (p :: F')) as Hpst.
          { apply list_elem_of_bind. exists p. split; [apply node_in_segment|left]. }
          pose proof (below_index _ _ _ _ _ Hi v (fr_node p) _ ip
            (node_in_segment {| fr_node := v; fr_cursor := c; fr_above := l |})
            Hpst Hroot Hip). lia. }
      eexists _, F, None. split_and!; [done..| |].
      * intros w. unfold tj_index_of. by rewrite E1.
      * unfold work; cbn [sum_list_with fr_node fr_cursor]; lia.
    + destruct (merge_inv s v c l F Hi Ech Hroot) as (p & F' & -> & Hi').
      eexists _, ({| fr_node := fr_node p; fr_cursor := fr_cursor p;
        fr_above := (l ++ [v]) ++ fr_above p |} :: F'), None.
      split_and!; [done|exact Hi'| |done|].
      * apply Forall_cons in HF as [Hp HF]. by constructor.
      * unfold work; cbn [sum_list_with fr_node fr_cursor]; lia.
Qed.

Lemma sum_list_with_update (g h : nat → nat) v l :
  NoDup l → v ∈ l → (∀ w, w ≠ v → g w = h w) →
  sum_list_with g l + h v = sum_list_with h l + g v.
Proof.
  intros Hnd Hv Heq. induction Hnd as [|x l Hx Hnd IH]; [by apply elem_of_nil in Hv|].
  cbn. apply elem_of_cons in Hv as [->|Hv].
  - assert (sum_list_with g l = sum_list_with h l) as ->; [|lia].
    clear IH. induction l as [|y l IHl]; [done|]. cbn. apply NoDup_cons in Hnd as [_ Hnd].
    rewrite Heq, IHl by set_solver. done.
  - rewrite (Heq x) by set_solver. specialize (IH Hv). lia.
Qed.

Lemma unvisited_enter s F v :
  inv s F (Some v) → unvisited (tarjan_enter s v) + S (degree v) = unvisited s.
Proof.
  intros Hi. destruct (i_pending _ _ _ Hi v eq_refl) as [Hv Hn].
  unfold unvisited.
  pose proof (sum_list_with_update
    (λ w, if tj_index_of (tarjan_enter s v) w then 0 else S (degree w))
    (λ w, if tj_index_of s w then 0 else S (degree w)) v (seq 0 n)) as H.
  cbv beta in H. rewrite Hn in H. rewrite tj_index_enter, decide_True in H
    by (rewrite ?(i_index_len _ _ _ Hi); done).
  rewrite Nat.add_0_r in H. apply H; [apply NoDup_seq|apply elem_of_seq; lia|].
  intros w Hw. rewrite tj_index_enter, decide_False by (rewrite ?(i_index_len _ _ _ Hi); done).
  done.
Qed.

Lemma unvisited_ext s s' :
  (∀ w, tj_index_of s' w = tj_index_of s w) → unvisited s' = unvisited s.
Proof.
  intros H. unfold unvisited. induction (seq 0 n) as [|x l IH]; [done|]. cbn.
  by rewrite H, IH.
Qed.

Lemma loop_step s F pending :
  inv s F pending → Forall cursor_ok F → calls F pending ≠ [] →
  ∃ node cursor frames s' F' pending', calls F pending = (node, cursor) :: frames ∧
    tarjan_step adj s node cursor frames = (s', calls F' pending') ∧ inv s' F' pending' ∧
    Forall cursor_ok F' ∧
    (∀ w, is_Some (tj_index_of s w) ∨ pending = Some w → is_Some (tj_index_of s' w)) ∧
    unvisited s' + work F' < unvisited s + work F.
Proof.
  intros Hi HF Hne. destruct pending as [v|].
  - pose proof (enter_inv s F v Hi) as Hi1. pose proof (unvisited_enter s F v Hi) as Hu.
    destruct (body_step _ v 0 [] F Hi1 ltac:(lia) HF) as (s' & F' & p' & Hb & Hi' & HF' & Hx & Hw).
    eexists v, 0, _, s', F', p'. split_and!; [done|exact Hb|done|done| |].
    + intros w. rewrite Hx, tj_index_enter.
      2:{ rewrite (i_index_len _ _ _ Hi). by apply (i_pending _ _ _ Hi v). }
      case_decide as E; [by eexists|]. intros [?|[= <-]]; [done|congruence].
    + assert (unvisited s' = unvisited (tarjan_enter s v)) as ->.
      { by apply unvisited_ext. }
      unfold work in Hw |- *. cbn [sum_list_with fr_node fr_cursor] in Hw. lia.
  - destruct F as [|[v c l] F]; [done|]. apply Forall_cons in HF as [Hc HF].
    unfold cursor_ok in Hc. cbn in Hc.
    destruct (body_step s v c l F Hi ltac:(lia) HF) as (s' & F' & p' & Hb & Hi' & HF' & Hx & Hw).
    eexists v, c, _, s', F', p'. split_and!; [done| |done|done| |].
    + unfold tarjan_step. rewrite (proj2 (Nat.eqb_neq c 0)) by lia. exact Hb.
    + intros w. rewrite Hx. by intros [?|?].
    + rewrite (unvisited_ext s s') by done. lia.
Qed.

Lemma loop_inv fuel s F pending :
  inv s F pending → Forall cursor_ok F → unvisited s + work F ≤ fuel →
  inv (tarjan_loop fuel adj s (calls F pending)) [] None ∧
  ∀ w, is_Some (tj_index_of s w) ∨ pending = Some w →
    is_Some (tj_index_of (tarjan_loop fuel adj s (calls F pending)) w).
Proof.
  revert s F pending. induction fuel as [|fuel IH]; intros s F pending Hi HF Hfuel.
  all: destruct (decide (calls F pending = [])) as [Hc|Hc];
    [destruct pending; [done|]; destruct F; [|done]; cbn; split; [done|naive_solver]|].
  all: destruct (loop_step s F pending Hi HF Hc)
    as (node & cursor & frames & s' & F' & p' & -> & Hs & Hi' & HF' & Hv & Hm).
  { lia. }
  cbn [tarjan_loop]. rewrite Hs.
  destruct (IH s' F' p' Hi' HF' ltac:(lia)) as [H1 H2]. split; [done|]. auto.
Qed.

Lemma init_inv : inv (tarjan_init n) [] None.
Proof.
  assert (∀ v, tj_index_of (tarjan_init n) v = None) as Hn.
  { intros v. unfold tj_index_of, tarjan_init. cbn.
    destruct (replicate n None !! v) as [x|] eqn:E; [|done].
    by apply lookup_replicate in E as [-> _]. }
  split; cbn; try (by rewrite length_replicate); try done.
  - constructor.
  - intros v. rewrite Hn. split; [by intros [? ?]|]. set_solver.
  - intros v. unfold tj_is_on_stack, tarjan_init. cbn. split; [|set_solver].
    destruct (replicate n false !! v) as [x|] eqn:E; [|done].
    by apply lookup_replicate in E as [-> _].
  - intros v i. by rewrite Hn.
  - constructor.
  - set_solver.
  - set_solver.
  - set_solver.
  - set_solver.
  - intros u y Hu. by apply elem_of_nil in Hu.
  - set_solver.
Qed.

Lemma unvisited_le s : unvisited s ≤ tarjan_fuel adj.
Proof.
  assert (∀ l k (A : list (list nat)), (∀ i, i < length A → A !! i = adj !! (k + i)) →
    l = seq k (length A) →
    sum_list_with (λ v, if tj_index_of s v then 0 else S (degree v)) l ≤
    sum_list_with (λ a, S (length a)) A) as H.
  { intros l k A; revert l k. induction A as [|a A IH]; intros l k HA ->; [done|].
    assert (∀ i, i < length A → A !! i = adj !! (S k + i)) as HA'.
    { intros i Hi. replace (S k + i) with (k + S i) by lia.
      rewrite <- (HA (S i)) by (cbn; lia). done. }
    cbn. specialize (IH _ (S k) HA' eq_refl).
    assert (degree k = length a) as Hd.
    { unfold degree. specialize (HA 0 ltac:(cbn; lia)). rewrite Nat.add_0_r in HA.
      cbn in HA. by rewrite <- HA. }
    destruct (tj_index_of s k); rewrite ?Hd; lia. }
  apply (H _ 0); [done|done].
Qed.

(** The searches from the given starts, one after the other. *)
Definition searches (s : TarjanState) (starts : list nat) : TarjanState :=
  foldl (λ s start, match tj_index_of s start with
    | Some _ => s
    | None => tarjan_loop (tarjan_fuel adj) adj s [(start, 0)] end) s starts.

Lemma start_inv s v : inv s [] None → v < n → tj_index_of s v = None → inv s [] (Some v).
Proof.
  intros Hi Hv E. split; try apply Hi; [intros f u y Hf; by apply elem_of_nil in Hf|].
  intros w [= <-]. done.
Qed.

Lemma searches_inv l s : inv s [] None → (∀ w, w ∈ l → w < n) →
  inv (searches s l) [] None ∧
  ∀ w, is_Some (tj_index_of s w) ∨ w ∈ l → is_Some (tj_index_of (searches s l) w).
Proof.
  unfold searches. revert s. induction l as [|v l IH]; intros s Hi Hl; cbn [foldl].
  { split; [done|]. intros w [?|?%elem_of_nil]; done. }
  destruct (tj_index_of s v) as [i|] eqn:E.
  - destruct (IH s Hi ltac:(set_solver)) as [H1 H2]. split; [done|].
    intros w [?|[->|?]%elem_of_cons]; apply H2; [by left|left; by eexists|by right].
  - assert (inv s [] (Some v)) as Hi1 by (apply start_inv; [done|set_solver|done]).
    destruct (loop_inv (tarjan_fuel adj) s [] (Some v) Hi1 ltac:(constructor))
      as [H1 H2]; [cbn; pose proof (unvisited_le s); lia|]. cbn in H1, H2.
    destruct (IH _ H1 ltac:(set_solver)) as [H3 H4]. split; [done|].
    intros w [?|[->|?]%elem_of_cons]; apply H4; [left; apply H2; by left| |by right].
    left. apply H2. by right.
Qed.

Lemma tarjan_inv_all : inv (tarjan adj) [] None ∧ ∀ w, w < n → is_Some (tj_index_of (tarjan adj) w).
Proof.
  destruct (searches_inv (seq 0 n) (tarjan_init n) init_inv) as [H1 H2].
  { intros w Hw%elem_of_seq. lia. }
  split; [done|]. intros w Hw. apply H2. right. apply elem_of_seq. lia.
Qed.

(** The loop itself, without fuel: [k] iterations and an empty call stack. *)
Inductive runs : nat → TarjanState → list (nat * nat) → TarjanState → Prop :=
| runs_done s : runs 0 s [] s
| runs_step k s node cursor frames s1 stack s2 :
    tarjan_step adj s node cursor frames = (s1, stack) → runs k s1 stack s2 →
    runs (S k) s ((node, cursor) :: frames) s2.

Lemma loop_runs fuel s F pending :
  inv s F pending → Forall cursor_ok F → unvisited s + work F ≤ fuel →
  ∃ k, k ≤ fuel ∧ runs k s (calls F pending) (tarjan_loop fuel adj s (calls F pending)).
Proof.
  revert s F pending. induction fuel as [|fuel IH]; intros s F pending Hi HF Hfuel.
  all: destruct (decide (calls F pending = [])) as [Hc|Hc];
    [rewrite Hc; exists 0; split; [lia|constructor]|].
  all: destruct (loop_step s F pending Hi HF Hc)
    as (node & cursor & frames & s' & F' & p' & -> & Hs & Hi' & HF' & Hv & Hm).
  { lia. }
  cbn [tarjan_loop]. rewrite Hs. destruct (IH s' F' p' Hi' HF' ltac:(lia)) as (k & Hk & Hr).
  exists (S k). split; [lia|]. by econstructor.
Qed.

Lemma tarjan_partition :
  NoDup (concat (tj_sccs (tarjan adj))) ∧
  (∀ v, v ∈ concat (tj_sccs (tarjan adj)) ↔ v < n) ∧
  ∀ C, C ∈ tj_sccs (tarjan adj) → C ≠ [] ∧
    ∀ u y, u ∈ C → (y ∈ C ↔ rtc edge u y ∧ rtc edge y u).
Proof.
  destruct tarjan_inv_all as [Hi Hall].
  assert (tj_stack (tarjan adj) = []) as Hst by apply Hi. split_and!.
  - pose proof (i_nodup _ _ _ Hi) as H. by rewrite Hst in H.
  - intros v. split.
    + intros Hv. eapply i_lt; [exact Hi|]. apply (i_visited _ _ _ Hi). by right.
    + intros Hv%Hall. apply (i_visited _ _ _ Hi) in Hv as [Hv|?]; [|done].
      rewrite Hst in Hv. by apply elem_of_nil in Hv.
  - apply Hi.
Qed.

(** A node lies on a directed cycle exactly when its component is one the code
    reports as a cycle. *)
Lemma cycle_scc_spec C v :
  C ∈ tj_sccs (tarjan adj) → v ∈ C → (is_cycle_scc adj C = true ↔ tc edge v v).
Proof.
  destruct tarjan_partition as (Hnd & _ & Hscc). intros HC Hv.
  destruct (Hscc C HC) as [Hne Hiff].
  assert (NoDup C) as HndC.
  { apply list_elem_of_lookup in HC as [i Hi].
    rewrite <- (take_drop_middle _ _ _ Hi), concat_app in Hnd. cbn in Hnd.
    apply NoDup_app in Hnd as (_ & _ & H). by apply NoDup_app in H as [? _]. }
  unfold is_cycle_scc. rewrite orb_true_iff, Nat.ltb_lt. split.
  - intros [Hlen|Hself].
    + assert (∃ w, w ∈ C ∧ w ≠ v) as (w & Hw & Hwv).
      { destruct C as [|a [|b C]]; cbn in Hlen; [lia|lia|].
        destruct (decide (a = v)) as [->|]; [|exists a; set_solver].
        exists b. split; [set_solver|]. intros ->. by apply NoDup_cons in HndC as [? _]; set_solver. }
      destruct (proj1 (Hiff v w Hv) Hw) as [H1 H2].
      apply rtc_tc in H1 as [?|H1]; [congruence|]. by eapply tc_rtc_r.
    + destruct C as [|a [|b C]]; try done. apply list_elem_of_singleton in Hv as ->.
      apply bool_decide_eq_true_1 in Hself. apply tc_once.
      destruct (adj !! a) as [l|] eqn:E; [|by apply elem_of_nil in Hself]. by exists l.
  - intros Htc. destruct (decide (1 < length C)) as [|Hlen]; [by left|right].
    destruct C as [|a [|b C]]; [done| |cbn in Hlen; lia].
    apply list_elem_of_singleton in Hv as ->.
    assert (∃ w, edge a w ∧ rtc edge w a) as (w & Haw & Hwa).
    { inversion Htc as [? ? H|? w ? H Hr]; subst; [exists a; split; [done|reflexivity]|].
      exists w. split; [done|]. by apply tc_rtc. }
    assert (w = a) as ->.
    { assert (w ∈ [a]) as Hw by (apply (Hiff a w (list_elem_of_here _ _)); split;
        [by apply rtc_once|done]). by apply list_elem_of_singleton in Hw. }
    apply bool_decide_eq_true_2. destruct Haw as (l & Hl & Hin). by rewrite Hl.
Qed.
(** C39. The cycle search terminates.  Whenever the outer loop reaches a node not visited by
    the searches before it, the inner loop, which has no bound in the code, empties its
    call stack after at most one iteration per edge and per node of the graph; the state it
    ends in is the one the bounded loop of the model returns, so the bound is never what
    stops it.  The whole search is these searches in turn, and visits every node. *)
Theorem cycle_search_terminates :
  (∀ i, i < n → tj_index_of (searches (tarjan_init n) (seq 0 i)) i = None →
    ∃ k s', k ≤ tarjan_fuel adj ∧
      runs k (searches (tarjan_init n) (seq 0 i)) [(i, 0)] s' ∧
      s' = tarjan_loop (tarjan_fuel adj) adj (searches (tarjan_init n) (seq 0 i)) [(i, 0)]) ∧
  tarjan adj = searches (tarjan_init n) (seq 0 n) ∧
  ∀ w, w < n → is_Some (tj_index_of (tarjan adj) w).
Proof.
  split_and!; [|done|apply tarjan_inv_all].
  intros i Hi Hnone. destruct (searches_inv (seq 0 i) (tarjan_init n) init_inv) as [Hs _].
  { intros w Hw%elem_of_seq. lia. }
  destruct (loop_runs (tarjan_fuel adj) _ [] (Some i) (start_inv _ i Hs Hi Hnone) ltac:(constructor))
    as (k & Hk & Hr); [cbn; pose proof (unvisited_le (searches (tarjan_init n) (seq 0 i))); lia|].
  by exists k, (tarjan_loop (tarjan_fuel adj) adj (searches (tarjan_init n) (seq 0 i)) [(i, 0)]).
Qed.
End tarjan.

(** Two nodes that supersede each other, and one outside. *)
Definition example_graph : list (list nat) := [[1]; [0]; [0]].

Lemma example_graph_ok u w : edge example_graph u w → w < 3.
Proof.
  intros (l & Hl & Hw). destruct u as [|[|[|u]]]; cbn in Hl; try done; injection Hl as <-;
    apply list_elem_of_singleton in Hw as ->; lia.
Qed.

Lemma cycle_search_terminates_witness : ∃ k s', k ≤ 6 ∧
  runs example_graph k (tarjan_init 3) [(0, 0)] s'.
Proof.
  destruct (cycle_search_terminates example_graph example_graph_ok) as [Hrun _].
  destruct (Hrun 0) as (k & s' & Hk & Hr & _); [cbn; lia|reflexivity|].
  exists k, s'. split; [exact Hk|exact Hr].
Defined.
