(* ===== verification/Supersession.v ===== *)
(** * The supersession view ([src/src/session/projection/supersession.rs])

    The view over revisions and the revisions they supersede: heads, threads
    (connected components by union-find), directed cycles (iterative Tarjan), the
    per-revision classification and the reads of a view.  The constructors
    that read the declared edges from events are in [Replacement]. *)

From S2P Require Import Prelude BTree Model Acknowledgement UnionFind Tarjan.

(** ** Data *)

Record SupersessionView := {
  sv_heads : gset RevisionId;
  sv_superseded : gset RevisionId;
  sv_supersedes : gmap RevisionId (gset RevisionId);
  sv_superseded_by : gmap RevisionId (gset RevisionId);
  sv_components : list (gset RevisionId);
  sv_cycle_revisions : gset RevisionId;
  sv_diagnostics : list ProjectionDiagnostic
}.

Definition SUPERSESSION_TARGET_MISSING_CODE : string := "supersession_target_missing".
Definition SUPERSESSION_CYCLE_CODE : string := "supersession_cycle".

Record RevisionClassificationFacet := { facet_state : string; facet_competing : bool }.

(** ** Connected components *)

(** The position of each node in the sorted node list. *)
Definition index_map (nodes : list RevisionId) : gmap RevisionId nat :=
  map_of_list (zip nodes (seq 0 (length nodes))).

Definition union_targets (index_of : gmap RevisionId nat) (parent : list nat)
    (entry : RevisionId * gset RevisionId) : list nat :=
  match index_of !! entry.1 with
  | None => parent
  | Some a =>
      foldl (λ parent target,
        match index_of !! target with
        | Some b => union_edge parent (a, b)
        | None => parent
        end) parent (iter_set entry.2)
  end.

Definition group_node (s : list nat * gmap nat (gset RevisionId)) (node : nat * RevisionId)
    : list nat * gmap nat (gset RevisionId) :=
  let '(parent, groups) := s in
  let '(parent, root) := find_root parent node.1 in
  (parent, entry_extend groups root {[node.2]}).

Definition connected_components (known : gset RevisionId)
    (declared : gmap RevisionId (gset RevisionId)) : list (gset RevisionId) :=
  let nodes := iter_set known in
  let index_of := index_map nodes in
  let parent := seq 0 (length nodes) in
  let parent := foldl (union_targets index_of) parent (iter_map declared) in
  let '(_, groups) := foldl group_node (parent, ∅) (zip (seq 0 (length nodes)) nodes) in
  map_values groups.

(** ** Directed cycles *)

Definition directed_cycles (known : gset RevisionId)
    (declared : gmap RevisionId (gset RevisionId)) : list (gset RevisionId) :=
  let nodes := iter_set known in
  let index_of := index_map nodes in
  let adjacency := (λ revision,
    omap (λ target, index_of !! target) (iter_set (default ∅ (declared !! revision))))
    <$> nodes in
  let sccs := filter (λ scc, is_cycle_scc adjacency scc = true) (tj_sccs (tarjan adjacency)) in
  (λ scc, set_of_list (omap (λ i, nodes !! i) scc)) <$> sccs.

(** ** Building the view *)

Definition declare_edges (edges : list (RevisionId * list RevisionId))
    : gmap RevisionId (gset RevisionId) :=
  foldl (λ m e, entry_extend m e.1 (set_of_list e.2)) ∅ edges.

(** The loop over [declared]: superseded targets, reverse map, diagnostics. *)
Record EdgeFold := {
  ef_superseded : gset RevisionId;
  ef_supersedes : gmap RevisionId (gset RevisionId);
  ef_superseded_by : gmap RevisionId (gset RevisionId);
  ef_diagnostics : list ProjectionDiagnostic
}.

Definition missing_target_diagnostic (revision target : RevisionId) : ProjectionDiagnostic :=
  {| pd_code := SUPERSESSION_TARGET_MISSING_CODE;
     pd_message := "revision " +:+ revision +:+ " supersedes unknown revision " +:+ target |}.

Definition fold_target (known : gset RevisionId) (revision : RevisionId) (s : EdgeFold)
    (target : RevisionId) : EdgeFold :=
  if bool_decide (target ∈ known) then
    {| ef_superseded := ef_superseded s ∪ {[target]};
       ef_supersedes := ef_supersedes s;
       ef_superseded_by := entry_extend (ef_superseded_by s) target {[revision]};
       ef_diagnostics := ef_diagnostics s |}
  else
    {| ef_superseded := ef_superseded s;
       ef_supersedes := ef_supersedes s;
       ef_superseded_by := ef_superseded_by s;
       ef_diagnostics := ef_diagnostics s ++ [missing_target_diagnostic revision target] |}.

Definition fold_declared (known : gset RevisionId) (s : EdgeFold)
    (entry : RevisionId * gset RevisionId) : EdgeFold :=
  let '(revision, targets) := entry in
  let s := if bool_decide (targets = ∅) then s else
    {| ef_superseded := ef_superseded s;
       ef_supersedes := <[revision := targets]> (ef_supersedes s);
       ef_superseded_by := ef_superseded_by s;
       ef_diagnostics := ef_diagnostics s |} in
  foldl (fold_target known revision) s (iter_set targets).

(** [Vec::join]. *)
Fixpoint join (sep : string) (l : list string) : string :=
  match l with
  | [] => EmptyString
  | [x] => x
  | x :: l => x +:+ sep +:+ join sep l
  end.

Definition cycle_diagnostic (cycle : gset RevisionId) : ProjectionDiagnostic :=
  {| pd_code := SUPERSESSION_CYCLE_CODE;
     pd_message := "revisions form a supersession cycle: " +:+ join ", " (iter_set cycle) |}.

Definition from_edges (edges : list (RevisionId * list RevisionId)) : SupersessionView :=
  let declared := declare_edges edges in
  let known := dom declared in
  let s := foldl (fold_declared known)
    {| ef_superseded := ∅; ef_supersedes := ∅; ef_superseded_by := ∅; ef_diagnostics := [] |}
    (iter_map declared) in
  let heads := known ∖ ef_superseded s in
  let components := connected_components known declared in
  let cycles := directed_cycles known declared in
  {| sv_heads := heads;
     sv_superseded := ef_superseded s;
     sv_supersedes := ef_supersedes s;
     sv_superseded_by := ef_superseded_by s;
     sv_components := components;
     sv_cycle_revisions := foldl (λ X cycle, X ∪ cycle) ∅ cycles;
     sv_diagnostics := ef_diagnostics s ++ (cycle_diagnostic <$> cycles) |}.

(** ** Reading a view *)

Definition classify_revision (view : SupersessionView) (competing : bool)
    (revision : RevisionId) : RevisionClassificationFacet :=
  {| facet_state :=
       if bool_decide (revision ∈ sv_superseded view) then "superseded"
       else if bool_decide (is_Some (sv_supersedes view !! revision)) then "head"
       else "isolated";
     facet_competing := competing |}.

Definition classify_component (view : SupersessionView)
    (m : gmap RevisionId RevisionClassificationFacet) (component : gset RevisionId)
    : gmap RevisionId RevisionClassificationFacet :=
  let competing := 1 <? size (component ∩ sv_heads view) in
  foldl (λ m revision, <[revision := classify_revision view competing revision]> m) m
    (iter_set component).

Definition revision_supersession_classification (view : SupersessionView)
    : gmap RevisionId RevisionClassificationFacet :=
  foldl (classify_component view) ∅ (sv_components view).

Definition threads_containing (view : SupersessionView) (scope : gset RevisionId)
    : SupersessionView :=
  let components := filter (λ c, ¬ c ## scope) (sv_components view) in
  let kept := ⋃ components in
  let keep_set (X : gset RevisionId) := X ∩ kept in
  let keep_map (m : gmap RevisionId (gset RevisionId)) :=
    filter (λ kv, kv.1 ∈ kept) m in
  {| sv_heads := keep_set (sv_heads view);
     sv_superseded := keep_set (sv_superseded view);
     sv_supersedes := keep_map (sv_supersedes view);
     sv_superseded_by := keep_map (sv_superseded_by view);
     sv_components := components;
     sv_cycle_revisions := keep_set (sv_cycle_revisions view);
     sv_diagnostics := sv_diagnostics view |}.

Definition component_of (view : SupersessionView) (revision : RevisionId)
    : option (gset RevisionId) :=
  List.find (λ component, bool_decide (revision ∈ component)) (sv_components view).

Definition heads_for (view : SupersessionView) (revision : RevisionId) : gset RevisionId :=
  match component_of view revision with
  | Some component => component ∩ sv_heads view
  | None => ∅
  end.

Definition stale_by_superseding_revision (view : SupersessionView) (revision : RevisionId)
    : gset RevisionId :=
  default ∅ (sv_superseded_by view !! revision).

(** ** Threads are the connected components *)

Lemma index_map_lookup (nodes : list RevisionId) x i :
  NoDup nodes → index_map nodes !! x = Some i ↔ nodes !! i = Some x.
Proof.
  unfold index_map. induction nodes as [|y nodes IH] using rev_ind; intros Hnd.
  { cbn. by rewrite lookup_nil, lookup_empty. }
  apply NoDup_app in Hnd as (Hnd & Hy & _).
  rewrite length_app, seq_app. cbn [length plus seq].
  rewrite zip_with_app by (by rewrite length_seq). rewrite map_of_list_app. cbn.
  destruct (decide (x = y)) as [->|Hne].
  - rewrite lookup_insert_eq. split.
    + intros [= <-]. by rewrite lookup_app_r, Nat.sub_diag.
    + intros Hi. f_equal. destruct (decide (i < length nodes)) as [Hlt|Hge].
      * rewrite lookup_app_l in Hi by done. exfalso. apply (Hy y); [|set_solver].
        by eapply list_elem_of_lookup_2.
      * rewrite lookup_app_r in Hi by lia. apply lookup_lt_Some in Hi. cbn in Hi. lia.
  - rewrite lookup_insert_ne, lookup_empty by done. rewrite IH by done. split.
    + intros Hi. rewrite lookup_app_l; [done|by eapply lookup_lt_Some].
    + intros Hi. destruct (decide (i < length nodes)) as [Hlt|Hge].
      * by rewrite lookup_app_l in Hi.
      * rewrite lookup_app_r in Hi by lia. destruct (i - length nodes) as [|k] eqn:E; cbn in Hi.
        -- by injection Hi as ->.
        -- done.
Qed.

Section components.
Context (known : gset RevisionId) (declared : gmap RevisionId (gset RevisionId)).

(** An edge of the thread graph: a declared target between known revisions. *)
Definition thread_edge (x y : RevisionId) : Prop :=
  ∃ targets, declared !! x = Some targets ∧ y ∈ targets ∧ x ∈ known ∧ y ∈ known.

Abbreviation nodes := (iter_set known).
Abbreviation index_of := (index_map (iter_set known)).

Definition entry_edges (entry : RevisionId * gset RevisionId) : list (nat * nat) :=
  match index_of !! entry.1 with
  | None => []
  | Some a => omap (λ target, (a,.) <$> index_of !! target) (iter_set entry.2)
  end.

Definition edge_list : list (nat * nat) := iter_map declared ≫= entry_edges.

Lemma union_targets_edges parent entry :
  union_targets index_of parent entry = foldl union_edge parent (entry_edges entry).
Proof.
  unfold union_targets, entry_edges. destruct (index_of !! entry.1) as [a|]; [|done].
  revert parent. induction (iter_set entry.2) as [|t l IH]; intros parent; [done|].
  cbn [foldl omap list_omap]. destruct (index_of !! t) as [b|]; cbn; apply IH.
Qed.

Lemma union_all parent :
  foldl (union_targets index_of) parent (iter_map declared) = foldl union_edge parent edge_list.
Proof.
  unfold edge_list. revert parent.
  induction (iter_map declared) as [|e l IH]; intros parent; [done|].
  cbn [foldl mbind list_bind]. by rewrite foldl_app, IH, union_targets_edges.
Qed.

Lemma elem_of_edge_list a b :
  (a, b) ∈ edge_list ↔ ∃ x y, nodes !! a = Some x ∧ nodes !! b = Some y ∧ thread_edge x y.
Proof.
  pose proof (λ x i, index_map_lookup nodes x i (NoDup_iter_set known)) as Hidx.
  assert (∀ i x, nodes !! i = Some x → x ∈ known) as Hkn.
  { intros i x Hi%list_elem_of_lookup_2. by apply elem_of_iter_set. }
  unfold edge_list. rewrite list_elem_of_bind. split.
  - intros ([x targets] & He & Hd%elem_of_iter_map). unfold entry_edges in He. cbn in He.
    destruct (index_of !! x) as [a'|] eqn:Ea; [|by apply elem_of_nil in He].
    apply list_elem_of_omap in He as (y & Hy%elem_of_iter_set & (b' & Eb & [= <- <-])%fmap_Some).
    apply Hidx in Ea, Eb. exists x, y. split_and!; [done..|].
    exists targets. split_and!; eauto.
  - intros (x & y & Ha & Hb & targets & Hd & Hy & Hx & _). exists (x, targets).
    split; [|by apply elem_of_iter_map]. unfold entry_edges. cbn.
    apply Hidx in Ha, Hb. rewrite Ha. apply list_elem_of_omap. exists y.
    split; [by apply elem_of_iter_set|]. by rewrite Hb.
Qed.

Lemma connected_threads a b x y :
  nodes !! a = Some x → nodes !! b = Some y →
  connected edge_list a b ↔ rtsc thread_edge x y.
Proof.
  intros Ha Hb. split.
  - intros H. revert x Ha. induction H as [a|a c b Hac _ IH]; intros x Ha.
    { rewrite Ha in Hb. by injection Hb as ->. }
    destruct Hac as [(x' & z & Ha' & Hc & Hxz)%elem_of_edge_list|
      (z & x' & Hc & Ha' & Hxz)%elem_of_edge_list]; rewrite Ha in Ha'; injection Ha' as <-;
      (etrans; [|by apply (IH Hb)]); [by apply rtsc_lr|by apply rtsc_rl].
  - assert (∀ u v, thread_edge u v → u ∈ known ∧ v ∈ known) as Hk.
    { by intros u v (? & _ & _ & ? & ?). }
    assert (∀ u, u ∈ known → ∃ i, nodes !! i = Some u) as Hnode.
    { intros u Hu. by apply list_elem_of_lookup, elem_of_iter_set. }
    intros H. revert a Ha. induction H as [x|x z y Hxz _ IH]; intros a Ha.
    { assert (a = b) as ->; [|reflexivity].
      eapply NoDup_lookup; [apply (NoDup_iter_set known)|done..]. }
    assert (z ∈ known) as [c Hc]%Hnode by (destruct Hxz as [H|H]; by apply Hk in H as []).
    etrans; [|by apply (IH Hb)].
    destruct Hxz as [H|H]; [apply rtsc_lr|apply rtsc_rl]; apply elem_of_edge_list; eauto.
Qed.

(** The grouping loop collects the nodes of each root. *)
Lemma group_nodes_spec n p0 (l : list (nat * RevisionId)) p groups :
  uf_inv n edge_list p0 → same_roots p0 p → Forall (λ e, e.1 < n) l →
  (∀ r X, groups !! r = Some X → X ≠ ∅) →
  ∃ p' groups', foldl group_node (p, groups) l = (p', groups') ∧
    (∀ r X, groups' !! r = Some X → X ≠ ∅) ∧
    ∀ r x, (∃ X, groups' !! r = Some X ∧ x ∈ X) ↔
      (∃ X, groups !! r = Some X ∧ x ∈ X) ∨ ∃ i, (i, x) ∈ l ∧ root_of p0 i r.
Proof.
  intros Hinv Hs Hl. revert p groups Hs.
  induction Hl as [|[i y] l Hi Hl IH]; intros p groups Hs Hne.
  { exists p, groups. split_and!; [done..|]. intros r x. split; [by left|].
    intros [?|(i & Hin & _)]; [done|]. by apply elem_of_nil in Hin. }
  cbn in Hi. cbn [foldl group_node fst snd].
  destruct (uf_forest _ _ _ Hinv i) as (r0 & k & Hr0); [by rewrite (uf_length _ _ _ Hinv)|].
  assert (root_of p0 i r0) as Hroot by by exists k.
  destruct (find_root_spec p i r0) as (p1 & -> & Hs1); [by apply Hs|].
  destruct (IH p1 (entry_extend groups r0 {[y]})) as (p' & groups' & Hf & Hne' & Hg).
  { by etrans. }
  { intros r X. rewrite lookup_entry_extend. case_decide; [|apply Hne].
    intros [= <-]. set_solver. }
  exists p', groups'. split_and!; [done..|]. intros r x. rewrite Hg. clear Hg Hf.
  split.
  - intros [(X & HX & Hx)|(j & Hj & Hjr)]; [|right; exists j; set_solver].
    rewrite lookup_entry_extend in HX. case_decide as E; [|left; eauto]. subst r.
    injection HX as <-. apply elem_of_union in Hx as [Hx|Hx%elem_of_singleton].
    + destruct (groups !! r0) as [X|] eqn:E; cbn in Hx; [left; eauto|set_solver].
    + subst x. right. exists i. split; [set_solver|done].
  - intros [(X & HX & Hx)|(j & [Hj|Hj]%elem_of_cons & Hjr)]; [| |right; eauto].
    + left. rewrite lookup_entry_extend. case_decide as E; [subst r|eauto].
      rewrite HX. cbn. eexists. split; [done|set_solver].
    + injection Hj as -> ->. left. rewrite (root_of_det _ _ _ _ Hjr Hroot).
      rewrite lookup_entry_extend, decide_True by done. eexists. split; [done|set_solver].
Qed.

Lemma components_spec :
  ∃ (p : list nat) (groups : gmap nat (gset RevisionId)),
    connected_components known declared = map_values groups ∧
    uf_inv (length nodes) edge_list p ∧
    (∀ r X, groups !! r = Some X → X ≠ ∅) ∧
    ∀ r x, (∃ X, groups !! r = Some X ∧ x ∈ X) ↔ ∃ i, nodes !! i = Some x ∧ root_of p i r.
Proof.
  unfold connected_components. rewrite union_all.
  pose proof (uf_inv_init (length nodes)) as H0.
  eapply (union_edges_inv _ _ _ edge_list) in H0.
  2:{ apply Forall_forall. intros [a b] (x & y & Ha & Hb & _)%elem_of_edge_list. cbn.
      split; by eapply lookup_lt_Some. }
  cbn [app] in H0. set (p0 := foldl union_edge _ edge_list) in *.
  destruct (group_nodes_spec (length nodes) p0 (zip (seq 0 (length nodes)) nodes) p0 ∅)
    as (p' & groups & -> & Hne & Hg); [done|done| |done|].
  { apply Forall_forall. intros [i x] Hin%elem_of_zip_l. apply elem_of_seq in Hin. cbn. lia. }
  exists p0, groups. split_and!; [done..|]. intros r x. rewrite Hg. split.
  - intros [(X & HX & _)|(i & Hi & Hr)]; [by rewrite lookup_empty in HX|].
    exists i. split; [|done]. apply list_elem_of_lookup in Hi as [k Hk].
    apply lookup_zip_Some in Hk as [Hk1 Hk2]. apply lookup_seq in Hk1 as [-> _]. done.
  - intros (i & Hi & Hr). right. exists i. split; [|done].
    apply list_elem_of_lookup. exists i. apply lookup_zip_Some. split; [|done].
    apply lookup_seq. split; [lia|]. by eapply lookup_lt_Some.
Qed.

Lemma elem_of_map_values {V} (m : gmap nat V) X : X ∈ map_values m ↔ ∃ k, m !! k = Some X.
Proof.
  unfold map_values. rewrite list_elem_of_fmap. split.
  - intros ([k X'] & -> & H%elem_of_iter_map). by exists k.
  - intros [k Hk]. exists (k, X). by rewrite elem_of_iter_map.
Qed.

Lemma components_partition :
  (∀ C, C ∈ connected_components known declared → C ≠ ∅ ∧ C ⊆ known) ∧
  (∀ x, x ∈ known → ∃ C, C ∈ connected_components known declared ∧ x ∈ C) ∧
  (∀ C D x, C ∈ connected_components known declared → D ∈ connected_components known declared →
    x ∈ C → x ∈ D → C = D) ∧
  (∀ C x y, C ∈ connected_components known declared → x ∈ C →
    (y ∈ C ↔ y ∈ known ∧ rtsc thread_edge x y)).
Proof.
  destruct components_spec as (p & groups & -> & Hinv & Hne & Hg).
  assert (∀ x, x ∈ known ↔ ∃ i, nodes !! i = Some x) as Hnode.
  { intros x. by rewrite <- (elem_of_iter_set x known), list_elem_of_lookup. }
  assert (∀ i, i < length nodes → ∃ r, root_of p i r) as Htot.
  { intros i Hi. destruct (uf_forest _ _ _ Hinv i) as (r & k & ?);
      [by rewrite (uf_length _ _ _ Hinv)|]. exists r. by exists k. }
  assert (∀ r X x, groups !! r = Some X → x ∈ X → ∃ i, nodes !! i = Some x ∧ root_of p i r)
    as Hin by (intros r X x HX Hx; apply Hg; eauto).
  assert (∀ r r' X Y x, groups !! r = Some X → groups !! r' = Some Y → x ∈ X → x ∈ Y → r = r')
    as Hsame.
  { intros r r' X Y x HX HY Hx Hy. destruct (Hin _ _ _ HX Hx) as (i & Hi & Hr),
      (Hin _ _ _ HY Hy) as (j & Hj & Hr').
    assert (i = j) as -> by (eapply NoDup_lookup; [apply (NoDup_iter_set known)|done..]).
    by eapply root_of_det. }
  split_and!.
  - intros C [r HC]%elem_of_map_values. split; [by eapply Hne|]. intros x Hx.
    destruct (Hin _ _ _ HC Hx) as (i & Hi & _). apply Hnode. eauto.
  - intros x (i & Hi)%Hnode. destruct (Htot i) as [r Hr]; [by eapply lookup_lt_Some|].
    destruct (proj2 (Hg r x)) as (X & HX & Hx); [eauto|].
    exists X. split; [|done]. apply elem_of_map_values. eauto.
  - intros C D x [r HC]%elem_of_map_values [r' HD]%elem_of_map_values Hx Hx'.
    assert (r = r') as -> by (by eapply Hsame). congruence.
  - intros C x y [r HC]%elem_of_map_values Hx.
    destruct (Hin _ _ _ HC Hx) as (i & Hi & Hri). split.
    + intros Hy. destruct (Hin _ _ _ HC Hy) as (j & Hj & Hrj). split; [apply Hnode; eauto|].
      eapply connected_threads; [done..|]. by apply (uf_roots _ _ _ Hinv i j r r).
    + intros [(j & Hj)%Hnode Hxy]. destruct (Htot j) as [r' Hr']; [by eapply lookup_lt_Some|].
      assert (r = r') as <-.
      { apply (uf_roots _ _ _ Hinv i j r r' Hri Hr'). by eapply connected_threads. }
      destruct (proj2 (Hg r y)) as (X & HX & Hxx); [eauto|]. by simplify_eq.
Qed.
End components.

(** ** Directed cycles *)

Section cycles.
Context (known : gset RevisionId) (declared : gmap RevisionId (gset RevisionId)).

Abbreviation nodes := (iter_set known).
Abbreviation index_of := (index_map (iter_set known)).

Definition adjacency : list (list nat) :=
  (λ revision, omap (λ target, index_of !! target)
    (iter_set (default ∅ (declared !! revision)))) <$> nodes.

Lemma adjacency_edge a b :
  edge adjacency a b ↔
  ∃ x y, nodes !! a = Some x ∧ nodes !! b = Some y ∧ thread_edge known declared x y.
Proof.
  pose proof (λ x i, index_map_lookup nodes x i (NoDup_iter_set known)) as Hidx.
  assert (∀ i x, nodes !! i = Some x → x ∈ known) as Hkn.
  { intros i x Hi%list_elem_of_lookup_2. by apply elem_of_iter_set. }
  unfold edge, adjacency. split.
  - intros (l & Hl & Hb). rewrite list_lookup_fmap in Hl.
    apply fmap_Some in Hl as (x & Hx & ->).
    apply list_elem_of_omap in Hb as (y & Hy%elem_of_iter_set & Hyb%Hidx).
    exists x, y. split_and!; [done..|].
    destruct (declared !! x) as [T|] eqn:E; [|cbn in Hy; set_solver].
    exists T. split_and!; eauto.
  - intros (x & y & Ha & Hb & T & HT & Hy & _ & _). rewrite list_lookup_fmap, Ha. cbn.
    eexists. split; [done|]. apply list_elem_of_omap. exists y. rewrite HT. cbn.
    split; [by apply elem_of_iter_set|by apply Hidx].
Qed.

Lemma adjacency_ok u w : edge adjacency u w → w < length adjacency.
Proof.
  intros (x & y & _ & Hw & _)%adjacency_edge. unfold adjacency. rewrite length_fmap.
  by eapply lookup_lt_Some.
Qed.

Lemma adjacency_tc a b x y :
  nodes !! a = Some x → nodes !! b = Some y →
  tc (edge adjacency) a b ↔ tc (thread_edge known declared) x y.
Proof.
  intros Ha Hb. split.
  - intros H. revert x Ha. induction H as [a b H|a c b H _ IH]; intros x Ha;
      apply adjacency_edge in H as (x' & z & Ha' & Hz & He); simplify_eq.
    + by apply tc_once.
    + eapply tc_l; [exact He|]. by apply IH.
  - intros H. revert a Ha. induction H as [x y H|x z y H _ IH]; intros a Ha.
    + apply tc_once, adjacency_edge. eauto.
    + assert (∃ c, nodes !! c = Some z) as [c Hc].
      { apply list_elem_of_lookup, elem_of_iter_set. by destruct H as (? & _ & _ & _ & ?). }
      eapply tc_l; [apply adjacency_edge; eauto|]. by apply IH.
Qed.

Lemma elem_of_directed_cycles x :
  x ∈ known → (∃ C, C ∈ directed_cycles known declared ∧ x ∈ C) ↔
  tc (thread_edge known declared) x x.
Proof.
  intros Hx. assert (∃ a, nodes !! a = Some x) as [a Ha].
  { by apply list_elem_of_lookup, elem_of_iter_set. }
  destruct (tarjan_partition adjacency adjacency_ok) as (_ & Hall & _).
  rewrite <- (adjacency_tc a a x x Ha Ha).
  unfold directed_cycles. fold adjacency. split.
  - intros (C & (scc & -> & [Hc Hscc]%list_elem_of_filter)%list_elem_of_fmap & Hin).
    unfold set_of_list in Hin. apply elem_of_list_to_set in Hin.
    apply list_elem_of_omap in Hin as (i & Hi & Hix).
    assert (i = a) as -> by (eapply NoDup_lookup; [apply (NoDup_iter_set known)|done..]).
    by apply (cycle_scc_spec adjacency adjacency_ok scc a Hscc Hi).
  - intros Htc. assert (a ∈ concat (tj_sccs (tarjan adjacency))) as Hin.
    { apply Hall. unfold adjacency. rewrite length_fmap. by eapply lookup_lt_Some. }
    apply elem_of_concat in Hin as (scc & Hai & Hscc).
    eexists. split.
    + apply list_elem_of_fmap. exists scc. split; [done|]. apply list_elem_of_filter.
      split; [|done]. by apply (cycle_scc_spec adjacency adjacency_ok scc a).
    + unfold set_of_list. apply elem_of_list_to_set, list_elem_of_omap. eauto.
Qed.
End cycles.

(** ** The view as a whole *)

Section view.
Context (edges : list (RevisionId * list RevisionId)).

Definition knows (r : RevisionId) : Prop := ∃ ts, (r, ts) ∈ edges.
Definition declares (r t : RevisionId) : Prop := ∃ ts, (r, ts) ∈ edges ∧ t ∈ ts.
End view.

Lemma declare_edges_spec edges r :
  (is_Some (declare_edges edges !! r) ↔ knows edges r) ∧
  ∀ t, t ∈ default ∅ (declare_edges edges !! r) ↔ declares edges r t.
Proof.
  unfold declare_edges, knows, declares.
  induction edges as [|[r' ts] edges [IH1 IH2]] using rev_ind.
  { cbn. rewrite lookup_empty. split; [|cbn; set_solver].
    split; [by intros [? ?]|]. intros (? & []%elem_of_nil). }
  rewrite foldl_app. cbn [foldl fst snd]. rewrite !lookup_entry_extend. unfold set_of_list.
  case_decide as E.
  - subst. cbn. split.
    + split; [|by eexists]. intros _. exists ts. set_solver.
    + intros t. rewrite elem_of_union, IH2, elem_of_list_to_set. split.
      * intros [(ts' & H1 & H2)|Ht]; [exists ts'; set_solver|exists ts; set_solver].
      * intros (ts' & [H| [= ->]%list_elem_of_singleton]%elem_of_app & Ht);
          [left; eauto|by right].
  - split.
    + rewrite IH1. split; intros (ts' & H); exists ts'; set_solver.
    + intros t. rewrite IH2. split; intros (ts' & H & Ht); exists ts'; set_solver.
Qed.

Lemma dom_declare_edges edges r : r ∈ dom (declare_edges edges) ↔ knows edges r.
Proof. rewrite elem_of_dom. apply declare_edges_spec. Qed.

Lemma thread_edge_declares edges x y :
  thread_edge (dom (declare_edges edges)) (declare_edges edges) x y ↔
  declares edges x y ∧ knows edges y.
Proof.
  unfold thread_edge. setoid_rewrite dom_declare_edges. split.
  - intros (T & HT & Hy & _ & Hk). split; [|done]. apply declare_edges_spec. by rewrite HT.
  - intros [Hd Hk]. apply declare_edges_spec in Hd.
    destruct (declare_edges edges !! x) as [T|] eqn:E; [|cbn in Hd; set_solver].
    exists T. split_and!; [done..| |done]. apply declare_edges_spec. rewrite E. by eexists.
Qed.

(** The fold over the declared entries. *)
Record fold_spec (known : gset RevisionId) (l : list (RevisionId * gset RevisionId))
    (s0 s : EdgeFold) : Prop := {
  fs_superseded : ∀ t, t ∈ ef_superseded s ↔
    t ∈ ef_superseded s0 ∨ t ∈ known ∧ ∃ r T, (r, T) ∈ l ∧ t ∈ T;
  fs_superseded_by : ∀ t r, r ∈ default ∅ (ef_superseded_by s !! t) ↔
    r ∈ default ∅ (ef_superseded_by s0 !! t) ∨ t ∈ known ∧ ∃ T, (r, T) ∈ l ∧ t ∈ T;
  fs_diagnostics : ∀ d, d ∈ ef_diagnostics s ↔
    d ∈ ef_diagnostics s0 ∨ ∃ r T t, (r, T) ∈ l ∧ t ∈ T ∧ t ∉ known ∧
      d = missing_target_diagnostic r t
}.

Lemma fold_targets_spec known r s0 s' ts :
  ef_superseded s0 = ef_superseded s' → ef_superseded_by s0 = ef_superseded_by s' →
  ef_diagnostics s0 = ef_diagnostics s' →
  let s := foldl (fold_target known r) s' ts in
  (∀ t, t ∈ ef_superseded s ↔ t ∈ ef_superseded s0 ∨ t ∈ known ∧ t ∈ ts) ∧
  (∀ t q, q ∈ default ∅ (ef_superseded_by s !! t) ↔
    q ∈ default ∅ (ef_superseded_by s0 !! t) ∨ t ∈ known ∧ q = r ∧ t ∈ ts) ∧
  (∀ d, d ∈ ef_diagnostics s ↔ d ∈ ef_diagnostics s0 ∨
    ∃ t, t ∈ ts ∧ t ∉ known ∧ d = missing_target_diagnostic r t).
Proof.
  intros -> -> ->. cbn zeta. induction ts as [|t0 ts (IH1 & IH2 & IH3)] using rev_ind.
  { cbn. split_and!; intros; setoid_rewrite elem_of_nil; naive_solver. }
  rewrite foldl_app. cbn [foldl].
  set (s1 := foldl (fold_target known r) s' ts) in *. unfold fold_target.
  setoid_rewrite elem_of_app. setoid_rewrite list_elem_of_singleton.
  case_bool_decide as Hk; cbn [ef_superseded ef_superseded_by ef_diagnostics]; split_and!.
  - intros t. rewrite elem_of_union, IH1, elem_of_singleton. clear IH1 IH2 IH3. naive_solver.
  - intros t q. rewrite lookup_entry_extend. case_decide as E.
    + subst. cbn. rewrite elem_of_union, IH2, elem_of_singleton. clear IH1 IH2 IH3. naive_solver.
    + rewrite IH2. clear IH1 IH2 IH3. naive_solver.
  - intros d. rewrite IH3. clear IH1 IH2 IH3. naive_solver.
  - intros t. rewrite IH1. clear IH1 IH2 IH3. naive_solver.
  - intros t q. rewrite IH2. clear IH1 IH2 IH3. naive_solver.
  - intros d. rewrite elem_of_app, list_elem_of_singleton, IH3. clear IH1 IH2 IH3. naive_solver.
Qed.

Lemma fold_declared_spec known l s0 :
  fold_spec known l s0 (foldl (fold_declared known) s0 l).
Proof.
  induction l as [|[r T] l IH] using rev_ind.
  { split; cbn; intros; setoid_rewrite elem_of_nil; naive_solver. }
  rewrite foldl_app. cbn [foldl]. set (s1 := foldl (fold_declared known) s0 l) in *.
  unfold fold_declared.
  edestruct (fold_targets_spec known r s1 (if bool_decide (T = ∅) then s1 else
    {| ef_superseded := ef_superseded s1; ef_supersedes := <[r:=T]> (ef_supersedes s1);
       ef_superseded_by := ef_superseded_by s1; ef_diagnostics := ef_diagnostics s1 |})
    (iter_set T)) as (H1 & H2 & H3); [by case_bool_decide..|].
  destruct IH as [I1 I2 I3]. setoid_rewrite elem_of_iter_set in H1.
  setoid_rewrite elem_of_iter_set in H2. setoid_rewrite elem_of_iter_set in H3.
  split; setoid_rewrite elem_of_app; setoid_rewrite list_elem_of_singleton.
  - intros t. rewrite H1, I1. clear. split.
    + intros [[?|(? & ? & ? & ? & ?)]|[? ?]]; eauto 10.
    + intros [?|(? & ? & ? & [?|[= -> ->]] & ?)]; eauto 10.
  - intros t q. rewrite H2, I2. clear. split.
    + intros [[?|(? & ? & ? & ?)]|(? & -> & ?)]; eauto 10.
    + intros [?|(? & ? & [?|[= -> ->]] & ?)]; eauto 10.
  - intros d. rewrite H3, I3. clear. split.
    + intros [[?|(? & ? & ? & ? & ? & ? & ?)]|(? & ? & ? & ?)]; eauto 12.
    + intros [?|(? & ? & ? & [?|[= -> ->]] & ? & ? & ?)]; eauto 12.
Qed.

Lemma iter_declared edges r t :
  (∃ T, (r, T) ∈ iter_map (declare_edges edges) ∧ t ∈ T) ↔ declares edges r t.
Proof.
  setoid_rewrite elem_of_iter_map. split.
  - intros (T & HT & Ht). apply declare_edges_spec. by rewrite HT.
  - intros Hd%declare_edges_spec.
    destruct (declare_edges edges !! r) as [T|]; [by exists T|cbn in Hd; set_solver].
Qed.

Lemma from_edges_superseded edges t :
  t ∈ sv_superseded (from_edges edges) ↔ knows edges t ∧ ∃ r, declares edges r t.
Proof.
  unfold from_edges. cbn [sv_superseded].
  rewrite (fs_superseded _ _ _ _ (fold_declared_spec _ _ _)), dom_declare_edges. cbn.
  setoid_rewrite iter_declared. set_solver.
Qed.

Lemma from_edges_heads edges r :
  r ∈ sv_heads (from_edges edges) ↔ knows edges r ∧ ∀ q, ¬ declares edges q r.
Proof.
  pose proof (from_edges_superseded edges r) as Hs. cbn [sv_heads from_edges].
  rewrite elem_of_difference, dom_declare_edges.
  change (ef_superseded _) with (sv_superseded (from_edges edges)). rewrite Hs. naive_solver.
Qed.

Lemma from_edges_stale_by edges r q :
  q ∈ stale_by_superseding_revision (from_edges edges) r ↔ knows edges r ∧ declares edges q r.
Proof.
  unfold stale_by_superseding_revision, from_edges. cbn [sv_superseded_by].
  rewrite (fs_superseded_by _ _ _ _ (fold_declared_spec _ _ _)), dom_declare_edges.
  rewrite iter_declared. cbn [ef_superseded_by]. rewrite lookup_empty. cbn. set_solver.
Qed.

(** C32. The supersession view reads its edges right: a known revision is a head
    exactly when no revision declares that it supersedes it, heads and
    superseded revisions split the known ones, the stale-by set of a revision
    is exactly its direct superseders, and each declared target that is not a
    known revision, and nothing else, is reported as missing. *)
Theorem from_edges_correct edges :
  let view := from_edges edges in
  (∀ r, r ∈ sv_heads view ↔ knows edges r ∧ ∀ q, ¬ declares edges q r) ∧
  (∀ r, knows edges r ↔ r ∈ sv_heads view ∨ r ∈ sv_superseded view) ∧
  sv_heads view ## sv_superseded view ∧
  (∀ r q, q ∈ stale_by_superseding_revision view r ↔ knows edges r ∧ declares edges q r) ∧
  (∀ r t, declares edges r t → ¬ knows edges t →
    missing_target_diagnostic r t ∈ sv_diagnostics view) ∧
  (∀ d, d ∈ sv_diagnostics view → pd_code d = SUPERSESSION_TARGET_MISSING_CODE →
    ∃ r t, declares edges r t ∧ ¬ knows edges t ∧ d = missing_target_diagnostic r t).
Proof.
  cbn zeta. split_and!.
  - apply from_edges_heads.
  - intros r. rewrite from_edges_heads, from_edges_superseded. split; [|naive_solver].
    intros Hk. destruct (decide (r ∈ sv_superseded (from_edges edges))) as [H|H];
      rewrite from_edges_superseded in H; [by right|left]. naive_solver.
  - intros r. rewrite from_edges_heads, from_edges_superseded. naive_solver.
  - apply from_edges_stale_by.
  - intros r t Hd Hk. cbn [sv_diagnostics from_edges]. apply elem_of_app. left.
    apply (fs_diagnostics _ _ _ _ (fold_declared_spec _ _ _)). right.
    apply iter_declared in Hd as (T & HT & Ht). exists r, T, t.
    split_and!; [done..| |done]. by rewrite dom_declare_edges.
  - intros d [Hd|Hd]%elem_of_app Hc.
    + apply (fs_diagnostics _ _ _ _ (fold_declared_spec _ _ _)) in Hd
        as [Hd|(r & T & t & HT & Ht & Hk & ->)]; [by apply elem_of_nil in Hd|].
      rewrite dom_declare_edges in Hk. exists r, t. split_and!; [|done..].
      apply iter_declared. eauto.
    + by apply list_elem_of_fmap in Hd as (C & -> & _).
Qed.

(** The relation threads are the components of. *)
Definition linked (edges : list (RevisionId * list RevisionId)) (x y : RevisionId) : Prop :=
  declares edges x y ∧ knows edges y.

Lemma rtsc_linked edges x y :
  rtsc (thread_edge (dom (declare_edges edges)) (declare_edges edges)) x y ↔
  rtsc (linked edges) x y.
Proof.
  split; apply rtc_subrel; intros u v [H|H]; [left|right|left|right];
    by apply thread_edge_declares in H.
Qed.

Lemma tc_linked edges x y :
  tc (thread_edge (dom (declare_edges edges)) (declare_edges edges)) x y ↔
  tc (linked edges) x y.
Proof. split; apply tc_mono; intros u v H; by apply thread_edge_declares. Qed.

(** What the components of a view are. *)
Lemma threads_spec edges :
  let view := from_edges edges in
  (∀ C, C ∈ sv_components view → C ≠ ∅ ∧ ∀ r, r ∈ C → knows edges r) ∧
  (∀ r, knows edges r → ∃ C, component_of view r = Some C ∧ r ∈ C) ∧
  (∀ r, ¬ knows edges r → component_of view r = None) ∧
  (∀ C D r, C ∈ sv_components view → D ∈ sv_components view → r ∈ C → r ∈ D → C = D) ∧
  (∀ C x y, C ∈ sv_components view → x ∈ C →
    (y ∈ C ↔ knows edges y ∧ rtsc (linked edges) x y)).
Proof.
  destruct (components_partition (dom (declare_edges edges)) (declare_edges edges))
    as (H1 & H2 & H3 & H4). cbn zeta. cbn [sv_components from_edges].
  assert (∀ r C, component_of (from_edges edges) r = Some C →
    C ∈ connected_components (dom (declare_edges edges)) (declare_edges edges) ∧ r ∈ C) as Hf.
  { intros r C Hc. apply find_some in Hc as [Hin Hr%bool_decide_eq_true_1].
    by rewrite <- list_elem_of_In in Hin. }
  split_and!.
  - intros C HC. destruct (H1 C HC) as [Hne Hsub]. split; [done|]. intros r Hr.
    apply dom_declare_edges. set_solver.
  - intros r Hk%dom_declare_edges. destruct (H2 r Hk) as (C & HC & Hr).
    destruct (component_of (from_edges edges) r) as [D|] eqn:E.
    + exists D. split; [done|]. by apply Hf.
    + exfalso. pose proof (find_none _ _ E C) as Hn. rewrite <- list_elem_of_In in Hn.
      apply Hn in HC. by rewrite bool_decide_eq_false in HC.
  - intros r Hk. destruct (component_of (from_edges edges) r) as [C|] eqn:E; [|done].
    apply Hf in E as [HC Hr]. destruct (H1 C HC) as [_ Hsub]. exfalso. apply Hk.
    apply dom_declare_edges. set_solver.
  - done.
  - intros C x y HC Hx. rewrite (H4 C x y HC Hx), dom_declare_edges, rtsc_linked. done.
Qed.

(** Threads are the connected components of the declared supersession graph over
    known revisions: the union-find result partitions the known revisions into
    non-empty sets, and two known revisions share a thread exactly when a chain
    of declared supersessions, in either direction, connects them. *)
Theorem threads_are_components edges :
  let view := from_edges edges in
  (∀ C, C ∈ sv_components view → C ≠ ∅ ∧ ∀ r, r ∈ C → knows edges r) ∧
  (∀ r, knows edges r → ∃ C, component_of view r = Some C ∧ r ∈ C) ∧
  (∀ r, ¬ knows edges r → component_of view r = None) ∧
  (∀ C D r, C ∈ sv_components view → D ∈ sv_components view → r ∈ C → r ∈ D → C = D) ∧
  (∀ C x y, C ∈ sv_components view → x ∈ C →
    (y ∈ C ↔ knows edges y ∧ rtsc (linked edges) x y)).
Proof. exact (threads_spec edges). Qed.

Lemma elem_of_union_fold (l : list (gset RevisionId)) X x :
  x ∈ foldl (λ X C, X ∪ C) X l ↔ x ∈ X ∨ ∃ C, C ∈ l ∧ x ∈ C.
Proof.
  revert X. induction l as [|C l IH]; intros X; cbn; [set_solver|].
  rewrite IH. set_solver.
Qed.

Lemma from_edges_cycles edges r :
  r ∈ sv_cycle_revisions (from_edges edges) ↔ tc (linked edges) r r.
Proof.
  cbn [sv_cycle_revisions from_edges]. rewrite elem_of_union_fold, <- tc_linked. split.
  - intros [?|(C & HC & Hr)]; [set_solver|].
    apply elem_of_directed_cycles; [|eauto].
    unfold directed_cycles in HC. apply list_elem_of_fmap in HC as (scc & -> & _).
    unfold set_of_list in Hr. apply elem_of_list_to_set, list_elem_of_omap in Hr
      as (i & _ & Hi%list_elem_of_lookup_2). by apply elem_of_iter_set in Hi.
  - intros Htc. right. apply elem_of_directed_cycles; [|done].
    inversion Htc as [? ? H|? ? ? H _]; subst; by destruct H as (? & _ & _ & ? & _).
Qed.

(** The cycle set is exact: a revision is reported as part of a supersession
    cycle exactly when a chain of declared supersessions leads from it back to
    itself, and a thread without a cycle has at least one current head. *)
Theorem cycle_revisions_exact edges :
  let view := from_edges edges in
  (∀ r, r ∈ sv_cycle_revisions view ↔ tc (linked edges) r r) ∧
  (∀ r, knows edges r → heads_for view r = ∅ →
    ∃ C q, component_of view r = Some C ∧ q ∈ C ∧ q ∈ sv_cycle_revisions view).
Proof.
  cbn zeta. split; [apply from_edges_cycles|]. intros r Hk Hh.
  destruct (components_partition (dom (declare_edges edges)) (declare_edges edges))
    as (H1 & H2 & H3 & H4).
  unfold heads_for in Hh.
  destruct (component_of (from_edges edges) r) as [C|] eqn:E.
  2:{ exfalso. destruct (H2 r) as (C & HC & Hr); [by apply dom_declare_edges|].
      pose proof (find_none _ _ E C) as Hn. rewrite <- list_elem_of_In in Hn.
      apply Hn in HC. by rewrite bool_decide_eq_false in HC. }
  apply find_some in E as [Hin Hr%bool_decide_eq_true_1]. rewrite <- list_elem_of_In in Hin.
  destruct (H1 C Hin) as [Hne Hsub].
  destruct (no_minimal_cycle (linked edges) C Hne) as (q & Hq & Htc).
  - intros x Hx. assert (knows edges x) as Hkx by (apply dom_declare_edges; set_solver).
    assert (x ∉ sv_heads (from_edges edges)) as Hnh by set_solver.
    rewrite from_edges_heads in Hnh.
    destruct (decide (x ∈ sv_superseded (from_edges edges))) as [Hs|Hs];
      rewrite from_edges_superseded in Hs; [|naive_solver].
    destruct Hs as (_ & y & Hy). exists y. split; [|by split].
    apply (H4 C x y Hin Hx). assert (linked edges y x) as Hl by by split.
    apply thread_edge_declares in Hl. split; [by destruct Hl as (? & _ & _ & ? & _)|].
    by apply rtsc_rl.
  - exists C, q. split_and!; [done..|]. by apply from_edges_cycles.
Qed.

(** The view depends only on which revisions are known and what they declare,
    not on the order, grouping or repetition of the edges it is built from. *)
Theorem from_edges_order_independent edges edges' :
  (∀ r, knows edges r ↔ knows edges' r) →
  (∀ r t, declares edges r t ↔ declares edges' r t) →
  from_edges edges = from_edges edges'.
Proof.
  intros Hk Hd. assert (declare_edges edges = declare_edges edges') as Heq.
  { apply map_eq. intros r.
    destruct (declare_edges_spec edges r) as [H1 H2], (declare_edges_spec edges' r) as [H3 H4].
    rewrite Hk in H1. setoid_rewrite Hd in H2.
    destruct (declare_edges edges !! r) as [T|], (declare_edges edges' !! r) as [T'|].
    - f_equal. apply set_eq. intros t. cbn in H2, H4. by rewrite H2, H4.
    - assert (is_Some (None : option (gset RevisionId))) as [? ?]; [|done]. apply H3, H1. by eexists.
    - assert (is_Some (None : option (gset RevisionId))) as [? ?]; [|done]. apply H1, H3. by eexists.
    - done. }
  unfold from_edges. by rewrite Heq.
Qed.

Lemma from_edges_order_independent_witness :
  from_edges [("b", ["a"]); ("a", []); ("b", ["c"])] =
  from_edges [("b", ["c"]); ("b", ["a"]); ("a", [])].
Proof.
  assert (∀ e : RevisionId * list RevisionId,
    e ∈ [("b", ["a"]); ("a", []); ("b", ["c"])] ↔ e ∈ [("b", ["c"]); ("b", ["a"]); ("a", [])])
    as He by (intros e; rewrite !elem_of_cons; tauto).
  apply from_edges_order_independent; unfold knows, declares; intros;
    split; intros (ts & H); exists ts; by rewrite He in *.
Defined.
