(* ===== verification/CanonicalHash.v ===== *)
(** * Canonical JSON and digests ([src/src/canonical_hash.rs])

    JSON values, the canonical form every hash is taken over, and the digest
    helpers.  SHA-256 and the JSON writer belong to other crates: they are the
    operations of the class [Digest], and what the code relies on is the class
    [DigestLaws]. *)

From stdpp Require Import pretty.
From S2P Require Import Prelude RustStr BTree Model.

(** ** JSON values *)

(** [serde_json::Value].  A number is kept by its printed literal, an object by its
    entries in iteration order. *)
Inductive json :=
| JNull
| JBool (b : bool)
| JNumber (literal : string)
| JString (s : string)
| JArray (values : list json)
| JObject (entries : list (string * json)).

(** [serde_json::json!(n)] for an unsigned number. *)
Definition json_uint (n : Z) : json := JNumber (dec_nonneg n).

(** [serde_json::Map::get], on a key that occurs once. *)
Fixpoint json_entry (entries : list (string * json)) (key : string) : option json :=
  match entries with
  | [] => None
  | (k, v) :: entries => if String.eqb k key then Some v else json_entry entries key
  end.

Definition json_get (value : json) (key : string) : option json :=
  match value with JObject entries => json_entry entries key | _ => None end.

(** The invariant of [serde_json::Map]: keys are distinct, at every depth. *)
Inductive json_wf : json → Prop :=
| wf_null : json_wf JNull
| wf_bool b : json_wf (JBool b)
| wf_number s : json_wf (JNumber s)
| wf_string s : json_wf (JString s)
| wf_array vs : Forall json_wf vs → json_wf (JArray vs)
| wf_object o : NoDup o.*1 → Forall json_wf o.*2 → json_wf (JObject o).

Definition key_cmp (p q : string * json) : comparison := String.compare p.1 q.1.

Fixpoint canonical_json_value (value : json) : json :=
  match value with
  | JArray values => JArray (List.map canonical_json_value values)
  | JObject entries =>
      JObject (sort_by key_cmp (List.map (λ p, (p.1, canonical_json_value p.2)) entries))
  | _ => value
  end.

(** ** Digests *)

Class Digest := {
  sha256 : string → string;
  json_text : json → string
}.

Class DigestLaws `{Digest} : Prop := {
  sha256_length : ∀ s, String.length (sha256 s) = 32;
  json_text_inj :: Inj (=) (=) json_text
}.

Definition HEX : list ascii :=
  ["0"; "1"; "2"; "3"; "4"; "5"; "6"; "7"; "8"; "9"; "a"; "b"; "c"; "d"; "e"; "f"]%char.

(** [HEX[i]]: an index below 16. *)
Definition hex_at (i : Z) : ascii := List.nth (Z.to_nat i) HEX "0"%char.

Fixpoint hex_lower (bytes : string) : string :=
  match bytes with
  | EmptyString => EmptyString
  | String byte bytes =>
      String (hex_at (Z.shiftr (byte_val byte) 4))
        (String (hex_at (Z.land (byte_val byte) 15)) (hex_lower bytes))
  end.

(** [u8::is_ascii_hexdigit]. *)
Definition is_ascii_hexdigit (c : ascii) : bool :=
  is_lower_hex c || ((65 <=? byte_val c)%Z && (byte_val c <=? 70)%Z).

Section digest.
Context `{Digest}.

Definition canonical_json_bytes (value : json) : result string :=
  Ok (json_text (canonical_json_value value)).

Definition sha256_bytes_hex (bytes : string) : string := hex_lower (sha256 bytes).

Definition sha256_json_hex (value : json) : result string :=
  let? bytes := canonical_json_bytes value in
  Ok (sha256_bytes_hex bytes).

Definition sha256_json_prefixed (value : json) : result string :=
  let? bytes := canonical_json_bytes value in
  Ok ("sha256:" +:+ sha256_bytes_hex bytes).

Definition portable_sha256_file_stem (identity : string) : string :=
  match strip_prefix "sha256:" identity with
  | Some stem =>
      if (String.length stem =? 64) && all_bytes is_ascii_hexdigit stem then stem
      else sha256_bytes_hex identity
  | None => sha256_bytes_hex identity
  end.

(** The digest of a value, as the total function it is. *)
Definition json_digest (value : json) : string :=
  "sha256:" +:+ sha256_bytes_hex (json_text (canonical_json_value value)).

(** Two given texts, or the canonical texts of two given documents, are different and
    have one digest.  Collisions exist, so the theorems below always name the pair
    that would have to collide. *)
Definition hash_collision (a b : string) : Prop := a ≠ b ∧ sha256 a = sha256 b.

Definition json_collision (v w : json) : Prop :=
  hash_collision (json_text (canonical_json_value v)) (json_text (canonical_json_value w)).

End digest.

(** ** Canonical form *)

(** Equality up to the order of object entries. *)
Inductive json_equiv : json → json → Prop :=
| equiv_refl v : json_equiv v v
| equiv_array vs ws : Forall2 json_equiv vs ws → json_equiv (JArray vs) (JArray ws)
| equiv_object o o' :
    (∀ k v, json_entry o k = Some v → ∃ w, json_entry o' k = Some w ∧ json_equiv v w) →
    (∀ k w, json_entry o' k = Some w → ∃ v, json_entry o k = Some v ∧ json_equiv v w) →
    json_equiv (JObject o) (JObject o').

Section json_induction.
Context (P : json → Prop)
  (Hnull : P JNull) (Hbool : ∀ b, P (JBool b)) (Hnumber : ∀ s, P (JNumber s))
  (Hstring : ∀ s, P (JString s)) (Harray : ∀ vs, Forall P vs → P (JArray vs))
  (Hobject : ∀ o, Forall (λ p, P p.2) o → P (JObject o)).

Fixpoint json_nested_ind (v : json) : P v :=
  match v with
  | JNull => Hnull
  | JBool b => Hbool b
  | JNumber s => Hnumber s
  | JString s => Hstring s
  | JArray vs =>
      Harray vs ((fix go vs : Forall P vs :=
        match vs with
        | [] => List.Forall_nil P
        | v :: vs => List.Forall_cons P v vs (json_nested_ind v) (go vs)
        end) vs)
  | JObject o =>
      Hobject o ((fix go o : Forall (λ p, P p.2) o :=
        match o with
        | [] => List.Forall_nil _
        | (k, v) :: o => List.Forall_cons _ (k, v) o (json_nested_ind v) (go o)
        end) o)
  end.
End json_induction.

Lemma json_entry_Some o k v : NoDup o.*1 → json_entry o k = Some v ↔ (k, v) ∈ o.
Proof.
  induction o as [|[k' v'] o IH]; cbn; intros Hnd; [split; [done|by intros ?%elem_of_nil]|].
  apply NoDup_cons in Hnd as [Hk Hnd]. rewrite elem_of_cons.
  destruct (String.eqb_spec k' k) as [->|Hne].
  - split; [intros [= ->]; by left|]. intros [[= ->]|Hin]; [done|]. exfalso. apply Hk.
    apply list_elem_of_fmap. by exists (k, v).
  - rewrite IH by done. naive_solver.
Qed.

Lemma canonical_entries_perm o o' :
  NoDup o.*1 → (∀ p, p ∈ o ↔ p ∈ o') → NoDup o'.*1 →
  sort_by key_cmp o = sort_by key_cmp o'.
Proof.
  intros Hnd Hin Hnd'. apply sort_by_canonical.
  - apply _.
  - intros [k v] [k' v'] Hx Hy Heq. apply (cmp_eq String.compare) in Heq. cbn in Heq. subst.
    apply json_entry_Some in Hx, Hy; [|done..]. congruence.
  - apply NoDup_Permutation; [by eapply NoDup_fmap_1..|done].
Qed.

(** The entries of an object with canonical values. *)
Definition canonical_entries (o : list (string * json)) : list (string * json) :=
  (λ p, (p.1, canonical_json_value p.2)) <$> o.

Lemma canonical_entries_keys o : (canonical_entries o).*1 = o.*1.
Proof. unfold canonical_entries. rewrite <- list_fmap_compose. by apply list_fmap_ext. Qed.

Lemma elem_of_canonical_entries o k c :
  (k, c) ∈ canonical_entries o ↔ ∃ v, (k, v) ∈ o ∧ c = canonical_json_value v.
Proof.
  unfold canonical_entries. rewrite list_elem_of_fmap. split.
  - intros ([k' v] & [= -> ->] & Hin). by exists v.
  - intros (v & Hin & ->). by exists (k, v).
Qed.

Lemma wf_entry (o : list (string * json)) k v : Forall json_wf o.*2 → (k, v) ∈ o → json_wf v.
Proof.
  intros Hf Hin. eapply Forall_forall; [exact Hf|]. apply list_elem_of_fmap. by exists (k, v).
Qed.

Lemma canonical_eq_equiv v : ∀ w, json_wf v → json_wf w →
  canonical_json_value v = canonical_json_value w → json_equiv v w.
Proof.
  induction v as [|b|s|s|vs IH|o IH] using json_nested_ind; intros w Hv Hw Heq;
    destruct w as [|b'|s'|s'|ws|o']; try discriminate Heq;
    try (injection Heq as ->; apply equiv_refl); try apply equiv_refl.
  - injection Heq as Heq. apply equiv_array. inversion Hv as [| | | |? Hvs|]; subst.
    inversion Hw as [| | | |? Hws|]; subst. clear Hv Hw. revert ws Heq Hws.
    induction vs as [|v vs IHv]; intros [|w ws] Heq Hws; try discriminate Heq; constructor;
      injection Heq as Hh Ht; apply Forall_cons in IH as [IHh IHt];
      apply Forall_cons in Hvs as [? ?]; apply Forall_cons in Hws as [? ?].
    + by apply IHh.
    + by apply IHv.
  - injection Heq as Heq. inversion Hv as [| | | | |? Hnd Hf]; subst.
    inversion Hw as [| | | | |? Hnd' Hf']; subst. clear Hv Hw.
    assert (∀ p, p ∈ canonical_entries o ↔ p ∈ canonical_entries o') as Hin.
    { intros p. rewrite <- (elem_of_sort_by key_cmp p (canonical_entries o)).
      rewrite <- (elem_of_sort_by key_cmp p (canonical_entries o')).
      change (sort_by key_cmp (canonical_entries o) = sort_by key_cmp (canonical_entries o')) in Heq.
      by rewrite Heq. }
    assert (∀ k v w, (k, v) ∈ o → (k, w) ∈ o' → canonical_json_value v = canonical_json_value w →
      json_equiv v w) as Hsub.
    { intros k v w H1 H2 H3. pose proof (proj1 (Forall_forall _ _) IH _ H1) as IH'. cbn in IH'.
      apply IH'; [exact (wf_entry _ _ _ Hf H1)|exact (wf_entry _ _ _ Hf' H2)|done]. }
    apply equiv_object.
    + intros k v Hk. apply json_entry_Some in Hk; [|done].
      destruct (proj1 (elem_of_canonical_entries o' k (canonical_json_value v))) as (w & Hw & Hc).
      { apply Hin, elem_of_canonical_entries. by exists v. }
      exists w. rewrite json_entry_Some by done. eauto.
    + intros k w Hk. apply json_entry_Some in Hk; [|done].
      destruct (proj1 (elem_of_canonical_entries o k (canonical_json_value w))) as (v & Hv & Hc).
      { apply Hin, elem_of_canonical_entries. by exists w. }
      exists v. rewrite json_entry_Some by done. eauto.
Qed.

Lemma equiv_canonical_eq v : ∀ w, json_wf v → json_wf w →
  json_equiv v w → canonical_json_value v = canonical_json_value w.
Proof.
  induction v as [|b|s|s|vs IH|o IH] using json_nested_ind; intros w Hv Hw Heq;
    inversion Heq as [|? ws Hall|? o' H1 H2]; subst; try done.
  - cbn. f_equal. inversion Hv as [| | | |? Hvs|]; subst. inversion Hw as [| | | |? Hws|]; subst.
    clear Heq Hv Hw. induction Hall as [|v w vs ws Hvw Hall IHall]; [done|]. cbn.
    apply Forall_cons in IH as [? ?]. apply Forall_cons in Hvs as [? ?].
    apply Forall_cons in Hws as [? ?]. f_equal; auto.
  - cbn. f_equal. inversion Hv as [| | | | |? Hnd Hf]; subst.
    inversion Hw as [| | | | |? Hnd' Hf']; subst. clear Heq Hv Hw.
    apply (canonical_entries_perm (canonical_entries o) (canonical_entries o'));
      [by rewrite canonical_entries_keys| |by rewrite canonical_entries_keys].
    intros [k c]. rewrite !elem_of_canonical_entries. split.
    + intros (v & Hin & ->). apply json_entry_Some in Hin as Hk; [|done].
      destruct (H1 k v Hk) as (w & Hw & Hvw). apply json_entry_Some in Hw; [|done].
      exists w. split; [done|]. pose proof (proj1 (Forall_forall _ _) IH _ Hin) as IH'. cbn in IH'.
      apply IH'; [exact (wf_entry _ _ _ Hf Hin)|exact (wf_entry _ _ _ Hf' Hw)|done].
    + intros (w & Hin & ->). apply json_entry_Some in Hin as Hk; [|done].
      destruct (H2 k w Hk) as (v & Hv & Hvw). apply json_entry_Some in Hv; [|done].
      exists v. split; [done|]. pose proof (proj1 (Forall_forall _ _) IH _ Hv) as IH'. cbn in IH'. symmetry.
      apply IH'; [exact (wf_entry _ _ _ Hf Hv)|exact (wf_entry _ _ _ Hf' Hin)|done].
Qed.

(** ** Serialisation

    [serde::Serialize], as far as identities rely on it: a value's document is well
    formed and determines the value. *)
Class Serialize (A : Type) := to_json : A → json.
Class SerializeLaws (A : Type) `{Serialize A} : Prop := {
  to_json_wf (a : A) : json_wf (to_json a);
  to_json_inj (a b : A) : json_equiv (to_json a) (to_json b) → a = b
}.
(** Types whose documents are never [null], so that [Option] can use it. *)
Class SerializeNonNull (A : Type) `{Serialize A} : Prop :=
  to_json_not_null (a : A) : to_json a ≠ JNull.

#[export] Instance string_Serialize : Serialize string := JString.
#[export] Instance string_SerializeLaws : SerializeLaws string.
Proof. split; [constructor|]. intros a b Heq. by inversion Heq. Qed.
#[export] Instance string_SerializeNonNull : SerializeNonNull string.
Proof. by intros a. Qed.

#[export] Instance option_Serialize {A} `{Serialize A} : Serialize (option A) := λ o,
  match o with Some a => to_json a | None => JNull end.
#[export] Instance option_SerializeLaws {A} `{SerializeLaws A, !SerializeNonNull A} :
  SerializeLaws (option A).
Proof.
  split.
  - intros [a|]; [exact (to_json_wf a)|constructor].
  - intros [a|] [b|] Heq; cbn in Heq.
    + f_equal. by apply to_json_inj.
    + pose proof (to_json_not_null a). inversion Heq; congruence.
    + pose proof (to_json_not_null b). inversion Heq; congruence.
    + done.
Qed.

#[export] Instance list_Serialize {A} `{Serialize A} : Serialize (list A) := λ l,
  JArray (to_json <$> l).
#[export] Instance list_SerializeLaws {A} `{SerializeLaws A} : SerializeLaws (list A).
Proof.
  split.
  - intros l. constructor. apply Forall_fmap, Forall_true. intros a. apply to_json_wf.
  - intros l k Heq. unfold to_json, list_Serialize in Heq.
    assert (Forall2 json_equiv (to_json <$> l) (to_json <$> k)) as Hall.
    { inversion Heq; subst; [|done]. apply Forall_Forall2_diag, Forall_true. constructor. }
    clear Heq. revert k Hall. induction l as [|a l IH]; intros [|b k] Hall;
      apply Forall2_length in Hall as Hlen; try discriminate Hlen; [done|].
    apply Forall2_cons in Hall as [Ha%to_json_inj Hall]. f_equal; auto.
Qed.

#[export] Instance RevisionRefV1_Serialize : Serialize RevisionRefV1 := λ r,
  JObject [("revisionId", to_json (rr_revision_id r));
           ("objectArtifactContentHash", to_json (rr_object_artifact_content_hash r))].

Lemma equiv_field o o' k v w :
  json_equiv (JObject o) (JObject o') → json_entry o k = Some v → json_entry o' k = Some w →
  json_equiv v w.
Proof.
  intros Heq Hv Hw. inversion Heq as [|?|? ? H1 H2]; subst.
  - rewrite Hv in Hw. injection Hw as ->. constructor.
  - destruct (H1 k v Hv) as (w' & Hw' & Hvw). rewrite Hw in Hw'. by injection Hw' as ->.
Qed.

(** [json_fields H]: what [H], an equivalence of two object literals, says of each
    field, through the injectivity of the field's serialisation where it has one. *)
Ltac json_fields H :=
  let rec go o o' l :=
    lazymatch l with
    | (?k, _) :: ?l' =>
        let E := fresh "Hfield" in
        pose proof (equiv_field o o' k _ _ H eq_refl eq_refl) as E;
        try apply to_json_inj in E; go o o' l'
    | _ => idtac
    end in
  lazymatch type of H with
  | json_equiv (JObject ?o) (JObject ?o') => go o o' o; clear H
  end.

(** [json_wf_literal]: an object literal with distinct constant keys is well formed. *)
Ltac json_wf_literal :=
  repeat match goal with
  | |- json_wf (JObject _) =>
      apply wf_object; [cbn; apply (bool_decide_unpack _); vm_compute; exact I|]
  | |- Forall _ _ => cbn; repeat (apply List.Forall_cons); [..|apply List.Forall_nil]
  | |- json_wf (to_json _) => apply to_json_wf
  | |- json_wf _ => constructor
  end.

#[export] Instance RevisionRefV1_SerializeLaws : SerializeLaws RevisionRefV1.
Proof.
  split.
  - intros r. unfold to_json, RevisionRefV1_Serialize. json_wf_literal.
  - intros [a b] [c d] Heq. unfold to_json at 1 2, RevisionRefV1_Serialize in Heq.
    cbn [rr_revision_id rr_object_artifact_content_hash] in Heq. json_fields Heq. by subst.
Qed.

(** ** Digests *)

Lemma byte_range b : (0 <= byte_val b < 256)%Z.
Proof.
  unfold byte_val. pose proof (N_ascii_bounded b). lia.
Qed.

Lemma byte_val_inj : Inj (=) (=) byte_val.
Proof.
  intros a b Hab. unfold byte_val in Hab. apply N2Z.inj in Hab.
  by rewrite <- (ascii_N_embedding a), Hab, ascii_N_embedding.
Qed.

Lemma hex_at_inj i j : (0 <= i < 16)%Z → (0 <= j < 16)%Z → hex_at i = hex_at j → i = j.
Proof.
  assert (∀ a b, a < 16 → b < 16 → List.nth a HEX "0"%char = List.nth b HEX "0"%char → a = b) as Hn.
  { intros a b Ha Hb. do 16 (destruct a as [|a]; [do 16 (destruct b as [|b]; [done|]); lia|]). lia. }
  unfold hex_at. intros Hi Hj Heq. apply Hn in Heq; lia.
Qed.

Lemma hex_at_lower i : (0 <= i < 16)%Z → is_lower_hex (hex_at i) = true.
Proof.
  intros Hi. unfold hex_at. assert (Z.to_nat i < 16) as Hn by lia.
  revert Hn. generalize (Z.to_nat i) as n. intros n Hn.
  do 16 (destruct n as [|n]; [done|]). lia.
Qed.

Lemma byte_nibbles b :
  let n := byte_val b in
  (0 <= Z.shiftr n 4 < 16)%Z ∧ (0 <= Z.land n 15 < 16)%Z ∧
  n = (16 * Z.shiftr n 4 + Z.land n 15)%Z.
Proof.
  pose proof (byte_range b) as Hb. cbn zeta.
  change 15%Z with (Z.ones 4). rewrite Z.land_ones, Z.shiftr_div_pow2 by lia.
  change (2 ^ 4)%Z with 16%Z. pose proof (Z.div_mod (byte_val b) 16). 
  pose proof (Z.mod_pos_bound (byte_val b) 16). lia.
Qed.

#[export] Instance hex_lower_inj : Inj (=) (=) hex_lower.
Proof.
  intros a. induction a as [|x a IH]; intros [|y b] Heq; try done. cbn in Heq.
  injection Heq as H1 H2 H3. destruct (byte_nibbles x) as (X1 & X2 & X3).
  destruct (byte_nibbles y) as (Y1 & Y2 & Y3).
  apply hex_at_inj in H1, H2; [|done..]. apply IH in H3 as ->. f_equal.
  apply byte_val_inj. lia.
Qed.

Lemma length_hex_lower s : String.length (hex_lower s) = 2 * String.length s.
Proof. induction s as [|c s IH]; cbn; [done|]. rewrite IH. lia. Qed.

Lemma hex_lower_digits s : all_bytes is_lower_hex (hex_lower s) = true.
Proof.
  induction s as [|c s IH]; [done|]. destruct (byte_nibbles c) as (H1 & H2 & _).
  cbn [hex_lower all_bytes]. by rewrite !hex_at_lower, IH.
Qed.

Section digest_laws.
Context `{DigestLaws}.

Lemma sha256_json_prefixed_Ok v : sha256_json_prefixed v = Ok (json_digest v).
Proof. done. Qed.

Lemma json_digest_prefixed v : is_prefixed_sha256 (json_digest v) = true.
Proof.
  unfold is_prefixed_sha256, json_digest. rewrite strip_prefix_append.
  unfold sha256_bytes_hex. by rewrite length_hex_lower, sha256_length, hex_lower_digits.
Qed.

(** Equal digests come from equivalent documents or from documents that collide. *)
Lemma json_digest_binding v w :
  json_wf v → json_wf w → json_digest v = json_digest w →
  json_equiv v w ∨ json_collision v w.
Proof.
  intros Hv Hw Heq. unfold json_digest in Heq. apply append_inj_l in Heq.
  apply hex_lower_inj in Heq.
  destruct (decide (json_text (canonical_json_value v) = json_text (canonical_json_value w)))
    as [Ht|Ht].
  - left. apply canonical_eq_equiv; [done..|]. by apply json_text_inj.
  - right. by split.
Qed.
End digest_laws.

(** ** A concrete digest

    An injective writer and a digest of the right width show that the laws can
    hold together. *)

Fixpoint json_tree (v : json) : gen_tree (string + bool) :=
  match v with
  | JNull => GenNode 0 []
  | JBool b => GenLeaf (inr b)
  | JNumber s => GenNode 1 [GenLeaf (inl s)]
  | JString s => GenLeaf (inl s)
  | JArray vs => GenNode 2 (List.map json_tree vs)
  | JObject o => GenNode 3 (List.map (λ p, GenNode 4 [GenLeaf (inl p.1); json_tree p.2]) o)
  end.

#[export] Instance json_tree_inj : Inj (=) (=) json_tree.
Proof.
  intros v. induction v as [|b|s|s|vs IH|o IH] using json_nested_ind;
    intros [|b'|s'|s'|ws|o'] Heq; try discriminate Heq; try (by injection Heq as ->); try done.
  - injection Heq as Heq. f_equal. revert ws Heq.
    induction vs as [|v vs IHv]; intros [|w ws] Heq; try discriminate Heq; [done|].
    apply Forall_cons in IH as [? ?]. injection Heq as H1 H2. f_equal; auto.
  - injection Heq as Heq. f_equal. revert o' Heq.
    induction o as [|[k v] o IHo]; intros [|[k' v'] o'] Heq; try discriminate Heq; [done|].
    apply Forall_cons in IH as [? ?]. injection Heq as -> H1 H2. f_equal; [f_equal|]; auto.
Qed.

#[export] Instance json_eq_dec : EqDecision json.
Proof.
  refine (λ v w, cast_if (decide (json_tree v = json_tree w))); [by apply (inj json_tree)|congruence].
Defined.

Fixpoint positive_bits (p : positive) : string :=
  match p with
  | xH => ""
  | xO p => String "0"%char (positive_bits p)
  | xI p => String "1"%char (positive_bits p)
  end.

#[export] Instance positive_bits_inj : Inj (=) (=) positive_bits.
Proof. intros p. induction p; intros []; cbn; intros Heq; try done; injection Heq; naive_solver. Qed.

Definition example_digest : Digest := {|
  sha256 := λ s, str_take 32 (s +:+ "................................");
  json_text := λ v, positive_bits (encode (json_tree v))
|}.

Lemma example_digest_laws : @DigestLaws example_digest.
Proof.
  split.
  - intros s. cbn [sha256 example_digest]. apply length_str_take. rewrite length_append. cbn. lia.
  - intros v w Heq. cbn in Heq. apply (inj positive_bits) in Heq.
    by apply (inj encode), (inj json_tree) in Heq.
Qed.

(** ** Properties *)

(** The canonical form is exact: two JSON documents have the same canonical
    form precisely when they are equal up to the order of the entries of their
    objects, at every depth. *)
Theorem canonical_json_exact v w (Hv : json_wf v) (Hw : json_wf w) :
  canonical_json_value v = canonical_json_value w ↔ json_equiv v w.
Proof. split; [by apply canonical_eq_equiv|by apply equiv_canonical_eq]. Qed.

Lemma canonical_json_exact_witness :
  json_equiv (JObject [("b", JNull); ("a", JArray [JString "x"])])
             (JObject [("a", JArray [JString "x"]); ("b", JNull)]).
Proof.
  apply (canonical_json_exact (JObject [("b", JNull); ("a", JArray [JString "x"])])
             (JObject [("a", JArray [JString "x"]); ("b", JNull)])).
  - constructor; [cbn; apply (bool_decide_unpack _); vm_compute; exact I|repeat constructor].
  - constructor; [cbn; apply (bool_decide_unpack _); vm_compute; exact I|repeat constructor].
  - vm_compute. reflexivity.
Defined.

Section stems.
Context `{DigestLaws}.

(** Every file stem is 64 hexadecimal digits, so it is a portable file name
    whatever the identity was; an identity that already is a prefixed digest keeps
    its digest, and two identities of any other kind share a stem only if they
    themselves collide under SHA-256. *)
Lemma portable_stem_safe identity :
  String.length (portable_sha256_file_stem identity) = 64 ∧
  all_bytes is_ascii_hexdigit (portable_sha256_file_stem identity) = true ∧
  (∀ stem, identity = "sha256:" +:+ stem → is_prefixed_sha256 identity = true →
    portable_sha256_file_stem identity = stem) ∧
  (∀ other, portable_sha256_file_stem identity = sha256_bytes_hex identity →
    portable_sha256_file_stem other = sha256_bytes_hex other →
    portable_sha256_file_stem identity = portable_sha256_file_stem other →
    identity = other ∨ hash_collision identity other).
Proof.
  assert (∀ s, all_bytes is_lower_hex s = true → all_bytes is_ascii_hexdigit s = true) as Hx.
  { intros s. apply all_bytes_impl. intros c Hc. unfold is_ascii_hexdigit. by rewrite Hc. }
  split_and!.
  - unfold portable_sha256_file_stem. destruct (strip_prefix _ _) as [stem|].
    + destruct (_ && _) eqn:E; [by apply andb_true_iff in E as [->%Nat.eqb_eq _]|].
      unfold sha256_bytes_hex. by rewrite length_hex_lower, sha256_length.
    + unfold sha256_bytes_hex. by rewrite length_hex_lower, sha256_length.
  - unfold portable_sha256_file_stem. destruct (strip_prefix _ _) as [stem|].
    + destruct (_ && _) eqn:E; [by apply andb_true_iff in E as [_ ->]|].
      apply Hx, hex_lower_digits.
    + apply Hx, hex_lower_digits.
  - intros stem -> Hp. unfold is_prefixed_sha256 in Hp. unfold portable_sha256_file_stem.
    rewrite strip_prefix_append in *. apply andb_true_iff in Hp as [-> Hd]. by rewrite Hx.
  - intros other -> ->. intros Heq%hex_lower_inj.
    destruct (decide (identity = other)); [by left|]. right. by split.
Qed.
End stems.

Lemma portable_stem_safe_witness :
  @portable_sha256_file_stem example_digest "key:a/b" ≠ "key:a/b" ∧
  String.length (@portable_sha256_file_stem example_digest "key:a/b") = 64.
Proof.
  split; [vm_compute; discriminate|].
  apply (@portable_stem_safe example_digest example_digest_laws "key:a/b").
Defined.
