(* ===== verification/ChangeClaims.v ===== *)
(** * Change identities and claim payloads
    ([src/src/model/change.rs], [src/src/session/event/change.rs])

    The identity descriptors of Changes and the six payload families that declare
    Changes, assert and withdraw membership, link Changes and relate Revisions: their
    builders, validators and content-derived claim ids. *)

From S2P Require Import Prelude RustStr BTree Model CanonicalHash.

(** ** Change identity *)

Inductive ChangeIdentityDescriptorV1 :=
| OpaqueNonce (schema nonce : string)
| RootRevision (schema : string) (revision_id : RevisionId).

#[export] Instance ChangeIdentityDescriptorV1_eq_dec : EqDecision ChangeIdentityDescriptorV1.
Proof. solve_decision. Defined.

#[export] Instance ChangeIdentityDescriptorV1_Serialize : Serialize ChangeIdentityDescriptorV1 := λ d,
  match d with
  | OpaqueNonce schema nonce =>
      JObject [("kind", to_json "opaque_nonce"); ("schema", to_json schema);
               ("nonce", to_json nonce)]
  | RootRevision schema revision_id =>
      JObject [("kind", to_json "root_revision"); ("schema", to_json schema);
               ("revision_id", to_json revision_id)]
  end.

Definition CHANGE_IDENTITY_SCHEMA_V1 : string := "pointbreak.change-identity.v1".

(** [format!("{byte:02x}")]: one lower-case digit. *)
Definition hex_digit (n : Z) : ascii :=
  if (n <? 10)%Z then digit_char n else ascii_of_N (Z.to_N (87 + n)).

Fixpoint lowercase_hex (bytes : string) : string :=
  match bytes with
  | EmptyString => EmptyString
  | String byte bytes =>
      String (hex_digit (byte_val byte / 16)) (String (hex_digit (byte_val byte mod 16))
        (lowercase_hex bytes))
  end.

Definition opaque_nonce (nonce : string) : ChangeIdentityDescriptorV1 :=
  OpaqueNonce CHANGE_IDENTITY_SCHEMA_V1 (lowercase_hex nonce).

Definition root_revision (revision_id : RevisionId) : ChangeIdentityDescriptorV1 :=
  RootRevision CHANGE_IDENTITY_SCHEMA_V1 revision_id.

Definition validate_schema (schema : string) : result unit :=
  if String.eqb schema CHANGE_IDENTITY_SCHEMA_V1 then Ok ()
  else Err (Message ("unsupported Change identity schema: " +:+ schema)).

Definition descriptor_validate (descriptor : ChangeIdentityDescriptorV1) : result unit :=
  match descriptor with
  | OpaqueNonce schema nonce =>
      let? _ := validate_schema schema in
      if negb (String.length nonce =? 64) || negb (all_bytes is_lower_hex nonce) then
        Err (Message "opaque Change nonce must be 32 lowercase-hex bytes")
      else Ok ()
  | RootRevision schema revision_id =>
      let? _ := validate_schema schema in
      if negb (starts_with "rev:" revision_id) then
        Err (Message "root Change rendezvous requires a rev: RevisionId")
      else Ok ()
  end.

(** [model/id_prefix.rs]. *)
Definition CHANGE : string := "change".
Definition CHANGE_DECLARATION : string := "change-declaration".
Definition CHANGE_MEMBERSHIP : string := "change-membership".
Definition CHANGE_MEMBERSHIP_WITHDRAWAL : string := "change-membership-withdrawal".
Definition CHANGE_LINK : string := "change-link".
Definition CHANGE_REVISION_RELATION : string := "change-revision-relation".
Definition CHANGE_REVISION_RELATION_WITHDRAWAL : string := "change-revision-relation-withdrawal".

(** ** Payloads *)

Definition CHANGE_DECLARED_SCHEMA_V1 : string := "pointbreak.change-declared".
Definition MEMBERSHIP_ASSERTED_SCHEMA_V1 : string := "pointbreak.change-membership-asserted".
Definition MEMBERSHIP_WITHDRAWN_SCHEMA_V1 : string := "pointbreak.change-membership-withdrawn".
Definition CHANGE_LINK_ASSERTED_SCHEMA_V1 : string := "pointbreak.change-link-asserted".
Definition REVISION_RELATION_ASSERTED_SCHEMA_V1 : string :=
  "pointbreak.change-revision-relation-asserted".
Definition REVISION_RELATION_WITHDRAWN_SCHEMA_V1 : string :=
  "pointbreak.change-revision-relation-withdrawn".

Record ChangeDeclaredPayload := {
  cd_schema : string;
  cd_version : Z;
  cd_declaration_claim_id : ChangeDeclarationClaimId;
  cd_change_id : ChangeId;
  cd_identity_descriptor : ChangeIdentityDescriptorV1;
  cd_claim_nonce : string
}.

Record ChangeMembershipAssertedPayload := {
  ma_schema : string;
  ma_version : Z;
  ma_membership_claim_id : ChangeMembershipClaimId;
  ma_change_id : ChangeId;
  ma_revision_id : RevisionId;
  ma_claim_nonce : string
}.

Record ChangeMembershipWithdrawnPayload := {
  mw_schema : string;
  mw_version : Z;
  mw_membership_withdrawal_id : ChangeMembershipWithdrawalId;
  mw_membership_claim_id : ChangeMembershipClaimId;
  mw_claim_nonce : string
}.

Inductive ChangeLinkRelationV1 := SameWork | RelatedWork.

#[export] Instance ChangeLinkRelationV1_eq_dec : EqDecision ChangeLinkRelationV1.
Proof. solve_decision. Defined.

#[export] Instance ChangeLinkRelationV1_Serialize : Serialize ChangeLinkRelationV1 := λ r,
  JString match r with SameWork => "same_work" | RelatedWork => "related_work" end.

Record ChangeLinkAssertedPayload := {
  la_schema : string;
  la_version : Z;
  la_link_claim_id : ChangeLinkClaimId;
  la_left_change_id : ChangeId;
  la_right_change_id : ChangeId;
  la_relation : ChangeLinkRelationV1;
  la_claim_nonce : string
}.

Inductive ChangeRevisionRelationV1 := Supersedes.

#[export] Instance ChangeRevisionRelationV1_Serialize : Serialize ChangeRevisionRelationV1 := λ _,
  JString "supersedes".

Record ChangeRevisionRelationAssertedPayload := {
  ra_schema : string;
  ra_version : Z;
  ra_relation_claim_id : ChangeRevisionRelationClaimId;
  ra_change_id : ChangeId;
  ra_successor : RevisionRefV1;
  ra_predecessor : RevisionRefV1;
  ra_relation : ChangeRevisionRelationV1;
  ra_claim_nonce : string
}.

Record ChangeRevisionRelationWithdrawnPayload := {
  rw_schema : string;
  rw_version : Z;
  rw_relation_withdrawal_id : ChangeRevisionRelationWithdrawalId;
  rw_relation_claim_id : ChangeRevisionRelationClaimId;
  rw_claim_nonce : string
}.

Definition invalid_change_payload {A} (message : string) : result A := Err (InvalidEvent message).

Definition validate_payload_header (schema : string) (version : Z) (expected_schema : string)
    : result unit :=
  if String.eqb schema expected_schema && (version =? 1)%Z then Ok ()
  else invalid_change_payload "unsupported Change payload schema/version".

Definition validate_claim_nonce (nonce : string) : result unit :=
  if (String.length nonce =? 64) && all_bytes is_lower_hex nonce then Ok ()
  else invalid_change_payload "Change claim nonce must be 32 lowercase-hex bytes".

Section claims.
Context `{Digest}.

Definition derive_change_id (descriptor : ChangeIdentityDescriptorV1) : result ChangeId :=
  let? _ := descriptor_validate descriptor in
  let? hash := sha256_json_prefixed (to_json descriptor) in
  Ok (CHANGE +:+ ":" +:+ hash).

(** The hashed document of a membership claim. *)
Definition membership_material (change_id : ChangeId) (revision_id : RevisionId)
    (claim_nonce : string) : json :=
  JObject [("family", to_json "change_membership_asserted_v1");
           ("changeId", to_json change_id); ("revisionId", to_json revision_id);
           ("claimNonce", to_json claim_nonce)].

Definition derive_membership_claim_id (change_id : ChangeId) (revision_id : RevisionId)
    (claim_nonce : string) : result ChangeMembershipClaimId :=
  let? hash := sha256_json_prefixed
    (membership_material change_id revision_id (lowercase_hex claim_nonce)) in
  Ok (CHANGE_MEMBERSHIP +:+ ":" +:+ hash).

(** The hashed document of a claim. *)
Definition claim_document (family : string) (coordinates : json) (claim_nonce : string) : json :=
  JObject [("family", to_json family); ("coordinates", coordinates);
           ("claimNonce", to_json claim_nonce)].

Definition prefixed_claim_id (prefix family : string) (coordinates : json) (claim_nonce : string)
    : result string :=
  let? hash := sha256_json_prefixed (claim_document family coordinates claim_nonce) in
  Ok (prefix +:+ ":" +:+ hash).

Definition declaration_coordinates (change_id : ChangeId) (d : ChangeIdentityDescriptorV1) : json :=
  JObject [("changeId", to_json change_id); ("identityDescriptor", to_json d)].

Definition declaration_claim_id (change_id : ChangeId) (d : ChangeIdentityDescriptorV1)
    (claim_nonce : string) : result ChangeDeclarationClaimId :=
  prefixed_claim_id CHANGE_DECLARATION "change_declared_v1"
    (declaration_coordinates change_id d) claim_nonce.

Definition cd_validate (p : ChangeDeclaredPayload) : result unit :=
  let? _ := validate_payload_header (cd_schema p) (cd_version p) CHANGE_DECLARED_SCHEMA_V1 in
  let? _ := validate_claim_nonce (cd_claim_nonce p) in
  let? derived := derive_change_id (cd_identity_descriptor p) in
  if negb (String.eqb derived (cd_change_id p)) then
    invalid_change_payload "Change declaration identity mismatch"
  else
    let? expected := declaration_claim_id (cd_change_id p) (cd_identity_descriptor p)
      (cd_claim_nonce p) in
    if negb (String.eqb expected (cd_declaration_claim_id p)) then
      invalid_change_payload "Change declaration claim id mismatch"
    else Ok ().

Definition ma_validate (p : ChangeMembershipAssertedPayload) : result unit :=
  let? _ := validate_payload_header (ma_schema p) (ma_version p) MEMBERSHIP_ASSERTED_SCHEMA_V1 in
  let? _ := validate_claim_nonce (ma_claim_nonce p) in
  let? hash := sha256_json_prefixed
    (membership_material (ma_change_id p) (ma_revision_id p) (ma_claim_nonce p)) in
  if negb (String.eqb (CHANGE_MEMBERSHIP +:+ ":" +:+ hash) (ma_membership_claim_id p)) then
    invalid_change_payload "Change membership claim id mismatch"
  else Ok ().

Definition membership_withdrawal_id (claim_id : ChangeMembershipClaimId) (claim_nonce : string)
    : result ChangeMembershipWithdrawalId :=
  prefixed_claim_id CHANGE_MEMBERSHIP_WITHDRAWAL "change_membership_withdrawn_v1"
    (JObject [("membershipClaimId", to_json claim_id)]) claim_nonce.

Definition mw_validate (p : ChangeMembershipWithdrawnPayload) : result unit :=
  let? _ := validate_payload_header (mw_schema p) (mw_version p) MEMBERSHIP_WITHDRAWN_SCHEMA_V1 in
  let? _ := validate_claim_nonce (mw_claim_nonce p) in
  let? expected := membership_withdrawal_id (mw_membership_claim_id p) (mw_claim_nonce p) in
  if negb (String.eqb expected (mw_membership_withdrawal_id p)) then
    invalid_change_payload "Change membership withdrawal id mismatch"
  else Ok ().

Definition link_coordinates (left right : ChangeId) (relation : ChangeLinkRelationV1) : json :=
  JObject [("leftChangeId", to_json left); ("rightChangeId", to_json right);
           ("relation", to_json relation)].

Definition link_claim_id (left right : ChangeId) (relation : ChangeLinkRelationV1)
    (claim_nonce : string) : result ChangeLinkClaimId :=
  prefixed_claim_id CHANGE_LINK "change_link_asserted_v1"
    (link_coordinates left right relation) claim_nonce.

Definition la_validate (p : ChangeLinkAssertedPayload) : result unit :=
  let? _ := validate_payload_header (la_schema p) (la_version p) CHANGE_LINK_ASSERTED_SCHEMA_V1 in
  let? _ := validate_claim_nonce (la_claim_nonce p) in
  match String.compare (la_left_change_id p) (la_right_change_id p) with
  | Eq | Gt => invalid_change_payload "Change links require a canonical distinct id pair"
  | Lt =>
      let? expected := link_claim_id (la_left_change_id p) (la_right_change_id p)
        (la_relation p) (la_claim_nonce p) in
      if negb (String.eqb expected (la_link_claim_id p)) then
        invalid_change_payload "Change link claim id mismatch"
      else Ok ()
  end.

Definition relation_coordinates (change_id : ChangeId) (successor predecessor : RevisionRefV1)
    (relation : ChangeRevisionRelationV1) : json :=
  JObject [("changeId", to_json change_id); ("successor", to_json successor);
           ("predecessor", to_json predecessor); ("relation", to_json relation)].

Definition relation_claim_id (change_id : ChangeId) (successor predecessor : RevisionRefV1)
    (relation : ChangeRevisionRelationV1) (claim_nonce : string)
    : result ChangeRevisionRelationClaimId :=
  prefixed_claim_id CHANGE_REVISION_RELATION "change_revision_relation_asserted_v1"
    (relation_coordinates change_id successor predecessor relation) claim_nonce.

Definition ra_validate (p : ChangeRevisionRelationAssertedPayload) : result unit :=
  let? _ := validate_payload_header (ra_schema p) (ra_version p)
    REVISION_RELATION_ASSERTED_SCHEMA_V1 in
  let? _ := validate_claim_nonce (ra_claim_nonce p) in
  let? expected := relation_claim_id (ra_change_id p) (ra_successor p) (ra_predecessor p)
    (ra_relation p) (ra_claim_nonce p) in
  if negb (String.eqb expected (ra_relation_claim_id p)) then
    invalid_change_payload "Change Revision-relation claim id mismatch"
  else Ok ().

Definition relation_withdrawal_id (claim_id : ChangeRevisionRelationClaimId) (claim_nonce : string)
    : result ChangeRevisionRelationWithdrawalId :=
  prefixed_claim_id CHANGE_REVISION_RELATION_WITHDRAWAL "change_revision_relation_withdrawn_v1"
    (JObject [("relationClaimId", to_json claim_id)]) claim_nonce.

Definition rw_validate (p : ChangeRevisionRelationWithdrawnPayload) : result unit :=
  let? _ := validate_payload_header (rw_schema p) (rw_version p)
    REVISION_RELATION_WITHDRAWN_SCHEMA_V1 in
  let? _ := validate_claim_nonce (rw_claim_nonce p) in
  let? expected := relation_withdrawal_id (rw_relation_claim_id p) (rw_claim_nonce p) in
  if negb (String.eqb expected (rw_relation_withdrawal_id p)) then
    invalid_change_payload "Change Revision-relation withdrawal id mismatch"
  else Ok ().

(** ** Builders *)

Definition build_change_declared (descriptor : ChangeIdentityDescriptorV1) (claim_nonce : string)
    : result ChangeDeclaredPayload :=
  let? change_id := derive_change_id descriptor in
  let claim_nonce := lowercase_hex claim_nonce in
  let? claim_id := declaration_claim_id change_id descriptor claim_nonce in
  Ok {| cd_schema := CHANGE_DECLARED_SCHEMA_V1; cd_version := 1;
        cd_declaration_claim_id := claim_id; cd_change_id := change_id;
        cd_identity_descriptor := descriptor; cd_claim_nonce := claim_nonce |}.

Definition build_membership_asserted (change_id : ChangeId) (revision_id : RevisionId)
    (claim_nonce : string) : result ChangeMembershipAssertedPayload :=
  let? claim_id := derive_membership_claim_id change_id revision_id claim_nonce in
  Ok {| ma_schema := MEMBERSHIP_ASSERTED_SCHEMA_V1; ma_version := 1;
        ma_membership_claim_id := claim_id; ma_change_id := change_id;
        ma_revision_id := revision_id; ma_claim_nonce := lowercase_hex claim_nonce |}.

Definition build_membership_withdrawn (claim_id : ChangeMembershipClaimId) (claim_nonce : string)
    : result ChangeMembershipWithdrawnPayload :=
  let claim_nonce := lowercase_hex claim_nonce in
  let? withdrawal_id := membership_withdrawal_id claim_id claim_nonce in
  Ok {| mw_schema := MEMBERSHIP_WITHDRAWN_SCHEMA_V1; mw_version := 1;
        mw_membership_withdrawal_id := withdrawal_id; mw_membership_claim_id := claim_id;
        mw_claim_nonce := claim_nonce |}.

Definition build_change_link_asserted (first second : ChangeId) (relation : ChangeLinkRelationV1)
    (claim_nonce : string) : result ChangeLinkAssertedPayload :=
  let '(left_id, right_id) :=
    match String.compare first second with Gt => (second, first) | _ => (first, second) end in
  let claim_nonce := lowercase_hex claim_nonce in
  let? claim_id := link_claim_id left_id right_id relation claim_nonce in
  let payload :=
    {| la_schema := CHANGE_LINK_ASSERTED_SCHEMA_V1; la_version := 1;
       la_link_claim_id := claim_id; la_left_change_id := left_id; la_right_change_id := right_id;
       la_relation := relation; la_claim_nonce := claim_nonce |} in
  let? _ := la_validate payload in
  Ok payload.

Definition build_revision_relation_asserted (change_id : ChangeId)
    (successor predecessor : RevisionRefV1) (claim_nonce : string)
    : result ChangeRevisionRelationAssertedPayload :=
  let claim_nonce := lowercase_hex claim_nonce in
  let relation := Supersedes in
  let? claim_id := relation_claim_id change_id successor predecessor relation claim_nonce in
  Ok {| ra_schema := REVISION_RELATION_ASSERTED_SCHEMA_V1; ra_version := 1;
        ra_relation_claim_id := claim_id; ra_change_id := change_id;
        ra_successor := successor; ra_predecessor := predecessor; ra_relation := relation;
        ra_claim_nonce := claim_nonce |}.

Definition build_revision_relation_withdrawn (claim_id : ChangeRevisionRelationClaimId)
    (claim_nonce : string) : result ChangeRevisionRelationWithdrawnPayload :=
  let claim_nonce := lowercase_hex claim_nonce in
  let? withdrawal_id := relation_withdrawal_id claim_id claim_nonce in
  Ok {| rw_schema := REVISION_RELATION_WITHDRAWN_SCHEMA_V1; rw_version := 1;
        rw_relation_withdrawal_id := withdrawal_id; rw_relation_claim_id := claim_id;
        rw_claim_nonce := claim_nonce |}.

End claims.

(** ** Nonces *)

Lemma hex_digit_at n : (0 <= n < 16)%Z → hex_digit n = hex_at n.
Proof.
  intros Hn. assert (∃ k, n = Z.of_nat k ∧ k < 16) as (k & -> & Hk).
  { exists (Z.to_nat n). lia. }
  do 16 (destruct k as [|k]; [done|]). lia.
Qed.

Lemma lowercase_hex_lower s : lowercase_hex s = hex_lower s.
Proof.
  induction s as [|c s IH]; [done|]. cbn [lowercase_hex hex_lower]. rewrite IH.
  destruct (byte_nibbles c) as (H1 & H2 & _). rewrite <- !hex_digit_at by done.
  change 15%Z with (Z.ones 4). rewrite Z.land_ones, Z.shiftr_div_pow2 by lia. done.
Qed.

Lemma validate_nonce_hex nonce :
  String.length nonce = 32 → validate_claim_nonce (lowercase_hex nonce) = Ok ().
Proof.
  intros Hlen. unfold validate_claim_nonce.
  by rewrite lowercase_hex_lower, length_hex_lower, Hlen, hex_lower_digits.
Qed.

(** ** Identity of claims *)

#[export] Instance ChangeIdentityDescriptorV1_SerializeLaws :
  SerializeLaws ChangeIdentityDescriptorV1.
Proof.
  split.
  - intros []; unfold to_json, ChangeIdentityDescriptorV1_Serialize; json_wf_literal.
  - intros [s n|s r] [s' n'|s' r'] Heq;
      unfold to_json at 1 2, ChangeIdentityDescriptorV1_Serialize in Heq.
    + json_fields Heq. by subst.
    + pose proof (equiv_field _ _ "kind" _ _ Heq eq_refl eq_refl) as E%to_json_inj. done.
    + pose proof (equiv_field _ _ "kind" _ _ Heq eq_refl eq_refl) as E%to_json_inj. done.
    + json_fields Heq. by subst.
Qed.

#[export] Instance ChangeLinkRelationV1_SerializeLaws : SerializeLaws ChangeLinkRelationV1.
Proof. split; [constructor|]. by intros [] [] Heq; inversion Heq. Qed.

#[export] Instance ChangeRevisionRelationV1_SerializeLaws : SerializeLaws ChangeRevisionRelationV1.
Proof. split; [constructor|]. by intros [] []. Qed.

Lemma if_negb_eqb {A} (a b : string) (r : result A) (e : ShoreError) x :
  (if negb (String.eqb a b) then Err e else r) = Ok x → a = b ∧ r = Ok x.
Proof. by destruct (String.eqb_spec a b). Qed.

Lemma link_coordinates_wf l r rel : json_wf (link_coordinates l r rel).
Proof. unfold link_coordinates. json_wf_literal. Qed.

Lemma relation_coordinates_wf c s p rel : json_wf (relation_coordinates c s p rel).
Proof. unfold relation_coordinates. json_wf_literal. Qed.

Lemma claim_document_wf family c n : json_wf c → json_wf (claim_document family c n).
Proof.
  intros Hc. unfold claim_document. apply wf_object;
    [cbn; apply (bool_decide_unpack _); vm_compute; exact I|]. cbn.
  repeat (apply List.Forall_cons); [apply to_json_wf|done|apply to_json_wf|constructor].
Qed.

(** The documents whose digests the claim ids are. *)
Definition link_document (l r : ChangeId) (rel : ChangeLinkRelationV1) (n : string) : json :=
  claim_document "change_link_asserted_v1" (link_coordinates l r rel) n.
Definition relation_document (c : ChangeId) (s p : RevisionRefV1) (rel : ChangeRevisionRelationV1)
    (n : string) : json :=
  claim_document "change_revision_relation_asserted_v1" (relation_coordinates c s p rel) n.
Definition ma_document (p : ChangeMembershipAssertedPayload) : json :=
  membership_material (ma_change_id p) (ma_revision_id p) (ma_claim_nonce p).
Definition la_document (p : ChangeLinkAssertedPayload) : json :=
  link_document (la_left_change_id p) (la_right_change_id p) (la_relation p) (la_claim_nonce p).
Definition ra_document (p : ChangeRevisionRelationAssertedPayload) : json :=
  relation_document (ra_change_id p) (ra_successor p) (ra_predecessor p) (ra_relation p)
    (ra_claim_nonce p).

Section binding.
Context `{DigestLaws}.

Lemma prefixed_id_inj prefix (a b : string) :
  @Ok ShoreError string (prefix +:+ ":" +:+ a) = Ok (prefix +:+ ":" +:+ b) → a = b.
Proof. intros [= Heq]. apply append_inj_l in Heq. by injection Heq. Qed.

Lemma prefixed_claim_id_binding prefix family c c' n n' id :
  json_wf c → json_wf c' →
  prefixed_claim_id prefix family c n = Ok id → prefixed_claim_id prefix family c' n' = Ok id →
  json_equiv c c' ∨ json_collision (claim_document family c n) (claim_document family c' n').
Proof.
  unfold prefixed_claim_id. rewrite !sha256_json_prefixed_Ok. cbn [rbind].
  intros Hc Hc' H1 H2. rewrite <- H2 in H1. apply prefixed_id_inj in H1 as Heq.
  apply json_digest_binding in Heq as [Heq|?]; [|by right|by apply claim_document_wf..].
  left. exact (equiv_field _ _ "coordinates" _ _ Heq eq_refl eq_refl).
Qed.

Lemma derive_change_id_binding d d' id :
  derive_change_id d = Ok id → derive_change_id d' = Ok id →
  d = d' ∨ json_collision (to_json d) (to_json d').
Proof.
  unfold derive_change_id. rewrite !sha256_json_prefixed_Ok.
  intros (? & _ & H1)%bind_Ok (? & _ & H2)%bind_Ok. cbn [rbind] in H1, H2.
  rewrite <- H2 in H1. apply prefixed_id_inj in H1 as Heq.
  apply json_digest_binding in Heq as [Heq|?]; [|by right|apply to_json_wf..].
  left. by apply to_json_inj.
Qed.

Lemma membership_binding c r n c' r' n' :
  json_digest (membership_material c r n) = json_digest (membership_material c' r' n') →
  (c = c' ∧ r = r') ∨
  json_collision (membership_material c r n) (membership_material c' r' n').
Proof.
  intros Heq. apply json_digest_binding in Heq as [Heq|?];
    [|by right|unfold membership_material; json_wf_literal..].
  unfold membership_material in Heq. left. json_fields Heq. done.
Qed.

Lemma link_binding l r rel n l' r' rel' n' id :
  link_claim_id l r rel n = Ok id → link_claim_id l' r' rel' n' = Ok id →
  (l = l' ∧ r = r' ∧ rel = rel') ∨
  json_collision (link_document l r rel n) (link_document l' r' rel' n').
Proof.
  intros H1 H2. unfold link_claim_id in *.
  destruct (prefixed_claim_id_binding _ _ _ _ _ _ _ (link_coordinates_wf _ _ _)
    (link_coordinates_wf _ _ _) H1 H2) as [Heq|?]; [|by right].
  unfold link_coordinates in Heq. left. json_fields Heq. done.
Qed.

Lemma relation_binding c s p rel n c' s' p' rel' n' id :
  relation_claim_id c s p rel n = Ok id → relation_claim_id c' s' p' rel' n' = Ok id →
  (c = c' ∧ s = s' ∧ p = p') ∨
  json_collision (relation_document c s p rel n) (relation_document c' s' p' rel' n').
Proof.
  intros H1 H2. unfold relation_claim_id in *.
  destruct (prefixed_claim_id_binding _ _ _ _ _ _ _ (relation_coordinates_wf _ _ _ _)
    (relation_coordinates_wf _ _ _ _) H1 H2) as [Heq|?]; [|by right].
  unfold relation_coordinates in Heq. left. json_fields Heq. done.
Qed.
End binding.

(** ** Properties *)

Lemma eqb_self_guard {A} (a : string) (e r : A) : (if negb (String.eqb a a) then e else r) = r.
Proof. by rewrite String.eqb_refl. Qed.

Lemma validate_header_ok schema : validate_payload_header schema 1 schema = Ok ().
Proof. unfold validate_payload_header. by rewrite String.eqb_refl. Qed.

Definition claim_text `{Digest} (prefix family : string) (coordinates : json) (nonce : string)
    : string :=
  prefix +:+ ":" +:+ json_digest (claim_document family coordinates nonce).

Lemma prefixed_claim_id_Ok `{Digest} prefix family c n :
  prefixed_claim_id prefix family c n = Ok (claim_text prefix family c n).
Proof. done. Qed.

Section inversions.
Context `{Digest}.

Lemma cd_validate_inv p :
  cd_validate p = Ok () → derive_change_id (cd_identity_descriptor p) = Ok (cd_change_id p).
Proof.
  unfold cd_validate. intros Hp. apply bind_Ok in Hp as (? & _ & Hp).
  apply bind_Ok in Hp as (? & _ & Hp). apply bind_Ok in Hp as (c & Hc & Hp).
  by apply if_negb_eqb in Hp as [<- _].
Qed.

Lemma ma_validate_inv p :
  ma_validate p = Ok () →
  @Ok ShoreError string (CHANGE_MEMBERSHIP +:+ ":" +:+
    json_digest (membership_material (ma_change_id p) (ma_revision_id p) (ma_claim_nonce p))) =
  Ok (ma_membership_claim_id p).
Proof.
  unfold ma_validate. intros Hp. apply bind_Ok in Hp as (? & _ & Hp).
  apply bind_Ok in Hp as (? & _ & Hp). apply bind_Ok in Hp as (h & Hh & Hp).
  apply if_negb_eqb in Hp as [<- _]. by injection Hh as <-.
Qed.

Lemma la_validate_inv p :
  la_validate p = Ok () →
  String.compare (la_left_change_id p) (la_right_change_id p) = Lt ∧
  link_claim_id (la_left_change_id p) (la_right_change_id p) (la_relation p) (la_claim_nonce p) =
  Ok (la_link_claim_id p).
Proof.
  unfold la_validate. intros Hp. apply bind_Ok in Hp as (? & _ & Hp).
  apply bind_Ok in Hp as (? & _ & Hp). destruct (String.compare _ _); [done| |done].
  apply bind_Ok in Hp as (id & Hid & Hp). by apply if_negb_eqb in Hp as [<- _].
Qed.

Lemma ra_validate_inv p :
  ra_validate p = Ok () →
  relation_claim_id (ra_change_id p) (ra_successor p) (ra_predecessor p) (ra_relation p)
    (ra_claim_nonce p) = Ok (ra_relation_claim_id p).
Proof.
  unfold ra_validate. intros Hp. apply bind_Ok in Hp as (? & _ & Hp).
  apply bind_Ok in Hp as (? & _ & Hp). apply bind_Ok in Hp as (id & Hid & Hp).
  by apply if_negb_eqb in Hp as [<- _].
Qed.
End inversions.

(** [run_validator]: evaluate a validator on a payload literal whose ids match. *)
Ltac payload_fields :=
  cbn [cd_schema cd_version cd_declaration_claim_id cd_change_id cd_identity_descriptor
    cd_claim_nonce ma_schema ma_version ma_membership_claim_id ma_change_id ma_revision_id
    ma_claim_nonce mw_schema mw_version mw_membership_withdrawal_id mw_membership_claim_id
    mw_claim_nonce la_schema la_version la_link_claim_id la_left_change_id la_right_change_id
    la_relation la_claim_nonce ra_schema ra_version ra_relation_claim_id ra_change_id
    ra_successor ra_predecessor ra_relation ra_claim_nonce rw_schema rw_version
    rw_relation_withdrawal_id rw_relation_claim_id rw_claim_nonce].
Ltac run_validator :=
  payload_fields;
  repeat first
    [ rewrite validate_header_ok | rewrite validate_nonce_hex by done
    | rewrite prefixed_claim_id_Ok | rewrite sha256_json_prefixed_Ok
    | rewrite eqb_self_guard | progress cbn [rbind] ].

Lemma build_link_Ok `{Digest} a b l r rel nonce :
  String.length nonce = 32 → String.compare l r = Lt →
  (a = l ∧ b = r) ∨ (a = r ∧ b = l) →
  let p := {| la_schema := CHANGE_LINK_ASSERTED_SCHEMA_V1; la_version := 1;
    la_link_claim_id := claim_text CHANGE_LINK "change_link_asserted_v1"
      (link_coordinates l r rel) (lowercase_hex nonce);
    la_left_change_id := l; la_right_change_id := r;
    la_relation := rel; la_claim_nonce := lowercase_hex nonce |} in
  la_validate p = Ok () ∧ build_change_link_asserted a b rel nonce = Ok p.
Proof.
  intros Hlen Hlt Hab p. assert (la_validate p = Ok ()) as Hp.
  { unfold la_validate, p, link_claim_id. run_validator. rewrite Hlt. by run_validator. }
  split; [done|]. unfold build_change_link_asserted, link_claim_id.
  destruct Hab as [[-> ->]|[-> ->]].
  - rewrite Hlt. run_validator. fold p. by rewrite Hp.
  - rewrite (cmp_opp String.compare l r), Hlt. cbn [CompOpp]. run_validator. fold p. by rewrite Hp.
Qed.

Section properties.
Context `{DigestLaws}.

(** Builders and validators agree: with a 32-byte nonce every builder returns
    a payload its own validator accepts (the declaration builder exactly for valid
    descriptors); a link comes out the same whichever end is named first, and a
    link of a Change to itself is refused. *)
Lemma builders_validate nonce (Hlen : String.length nonce = 32) :
  (∀ d, descriptor_validate d = Ok () →
    ∃ p, build_change_declared d nonce = Ok p ∧ cd_validate p = Ok ()) ∧
  (∀ c r, ∃ p, build_membership_asserted c r nonce = Ok p ∧ ma_validate p = Ok ()) ∧
  (∀ m, ∃ p, build_membership_withdrawn m nonce = Ok p ∧ mw_validate p = Ok ()) ∧
  (∀ c s r, ∃ p, build_revision_relation_asserted c s r nonce = Ok p ∧ ra_validate p = Ok ()) ∧
  (∀ m, ∃ p, build_revision_relation_withdrawn m nonce = Ok p ∧ rw_validate p = Ok ()) ∧
  (∀ a b rel, a ≠ b → ∃ p, build_change_link_asserted a b rel nonce = Ok p ∧
    build_change_link_asserted b a rel nonce = Ok p ∧ la_validate p = Ok ()) ∧
  (∀ a rel, build_change_link_asserted a a rel nonce =
    Err (InvalidEvent "Change links require a canonical distinct id pair")).
Proof.
  split_and!.
  - intros d Hd. unfold build_change_declared, declaration_claim_id.
    destruct (derive_change_id d) as [c|e] eqn:Hc;
      [|unfold derive_change_id in Hc; rewrite Hd in Hc; discriminate Hc].
    run_validator. eexists. split; [reflexivity|]. unfold cd_validate, declaration_claim_id.
    run_validator. rewrite Hc. by run_validator.
  - intros c r. unfold build_membership_asserted, derive_membership_claim_id. run_validator.
    eexists. split; [reflexivity|]. unfold ma_validate. by run_validator.
  - intros m. unfold build_membership_withdrawn, membership_withdrawal_id. run_validator.
    eexists. split; [reflexivity|]. unfold mw_validate, membership_withdrawal_id. by run_validator.
  - intros c s r. unfold build_revision_relation_asserted, relation_claim_id. run_validator.
    eexists. split; [reflexivity|]. unfold ra_validate, relation_claim_id. by run_validator.
  - intros m. unfold build_revision_relation_withdrawn, relation_withdrawal_id. run_validator.
    eexists. split; [reflexivity|]. unfold rw_validate, relation_withdrawal_id. by run_validator.
  - intros a b rel Hab. destruct (String.compare a b) eqn:Hc.
    + by apply (cmp_eq String.compare) in Hc.
    + eexists. split_and!; [apply (build_link_Ok a b a b); auto|
        apply (build_link_Ok b a a b); auto|apply (build_link_Ok a b a b); auto].
    + apply (cmp_gt_lt String.compare) in Hc. eexists.
      split_and!; [apply (build_link_Ok a b b a); auto|
        apply (build_link_Ok b a b a); auto|apply (build_link_Ok a b b a); auto].
  - intros a rel. unfold build_change_link_asserted, link_claim_id.
    rewrite (cmp_refl String.compare). run_validator. unfold la_validate. run_validator.
    by rewrite (cmp_refl String.compare).
Qed.

(** Valid payloads with one claim id make one claim, or their documents collide. *)
Lemma ma_binding p q :
  ma_validate p = Ok () → ma_validate q = Ok () →
  ma_membership_claim_id p = ma_membership_claim_id q →
  (ma_change_id p = ma_change_id q ∧ ma_revision_id p = ma_revision_id q) ∨
  json_collision (ma_document p) (ma_document q).
Proof.
  intros Hp Hq Heq. apply ma_validate_inv in Hp, Hq. rewrite Heq, <- Hq in Hp.
  by apply prefixed_id_inj, membership_binding in Hp.
Qed.

Lemma la_binding p q :
  la_validate p = Ok () → la_validate q = Ok () → la_link_claim_id p = la_link_claim_id q →
  (la_left_change_id p = la_left_change_id q ∧ la_right_change_id p = la_right_change_id q ∧
   la_relation p = la_relation q) ∨ json_collision (la_document p) (la_document q).
Proof.
  intros Hp Hq Heq. apply la_validate_inv in Hp as [_ Hp], Hq as [_ Hq]. rewrite Heq in Hp.
  by eapply link_binding.
Qed.

Lemma ra_binding p q :
  ra_validate p = Ok () → ra_validate q = Ok () →
  ra_relation_claim_id p = ra_relation_claim_id q →
  (ra_change_id p = ra_change_id q ∧ ra_successor p = ra_successor q ∧
   ra_predecessor p = ra_predecessor q) ∨ json_collision (ra_document p) (ra_document q).
Proof.
  intros Hp Hq Heq. apply ra_validate_inv in Hp, Hq. rewrite Heq in Hp.
  by eapply relation_binding.
Qed.

(** Claim ids bind their coordinates: two payloads that pass validation and
    carry the same claim id make the same claim (the same Change and Revision, the
    same pair of Changes, the same replacement), and two declarations of one Change
    carry the same descriptor, unless the two hashed documents collide. *)
Theorem claim_ids_bind :
  (∀ p q, cd_validate p = Ok () → cd_validate q = Ok () → cd_change_id p = cd_change_id q →
    cd_identity_descriptor p = cd_identity_descriptor q ∨
    json_collision (to_json (cd_identity_descriptor p)) (to_json (cd_identity_descriptor q))) ∧
  (∀ p q, ma_validate p = Ok () → ma_validate q = Ok () →
    ma_membership_claim_id p = ma_membership_claim_id q →
    (ma_change_id p = ma_change_id q ∧ ma_revision_id p = ma_revision_id q) ∨
    json_collision (ma_document p) (ma_document q)) ∧
  (∀ p q, la_validate p = Ok () → la_validate q = Ok () →
    la_link_claim_id p = la_link_claim_id q →
    (la_left_change_id p = la_left_change_id q ∧ la_right_change_id p = la_right_change_id q ∧
     la_relation p = la_relation q) ∨ json_collision (la_document p) (la_document q)) ∧
  (∀ p q, ra_validate p = Ok () → ra_validate q = Ok () →
    ra_relation_claim_id p = ra_relation_claim_id q →
    (ra_change_id p = ra_change_id q ∧ ra_successor p = ra_successor q ∧
     ra_predecessor p = ra_predecessor q) ∨ json_collision (ra_document p) (ra_document q)).
Proof.
  split_and!; [|apply ma_binding|apply la_binding|apply ra_binding]. intros p q Hp Hq Heq.
  apply cd_validate_inv in Hp, Hq. rewrite Heq in Hp. by eapply derive_change_id_binding.
Qed.
End properties.

Lemma builders_validate_witness :
  ∃ p, @build_membership_asserted example_digest "change:c" "rev:r"
         "0123456789abcdef0123456789abcdef" = Ok p ∧
       @ma_validate example_digest p = Ok ().
Proof.
  exact (proj1 (proj2 (@builders_validate example_digest
    "0123456789abcdef0123456789abcdef" eq_refl)) "change:c" "rev:r").
Defined.

Definition example_membership (revision_id : RevisionId) : ChangeMembershipAssertedPayload :=
  match @build_membership_asserted example_digest "change:c" revision_id
    "0123456789abcdef0123456789abcdef" with
  | Ok p => p
  | Err _ => {| ma_schema := ""; ma_version := 0; ma_membership_claim_id := "";
      ma_change_id := ""; ma_revision_id := ""; ma_claim_nonce := "" |}
  end.

Lemma claim_ids_bind_witness :
  @ma_validate example_digest (example_membership "rev:r") = Ok () ∧
  (ma_change_id (example_membership "rev:r") = "change:c" ∧
   ma_revision_id (example_membership "rev:r") = "rev:r" ∨
   @json_collision example_digest (ma_document (example_membership "rev:r"))
     (ma_document (example_membership "rev:r"))).
Proof.
  assert (@ma_validate example_digest (example_membership "rev:r") = Ok ()) as Hv by by vm_compute.
  split; [exact Hv|].
  exact (proj1 (proj2 (@claim_ids_bind example_digest example_digest_laws))
    (example_membership "rev:r") (example_membership "rev:r") Hv Hv eq_refl).
Defined.
