(* ===== verification/Relations.v ===== *)
(** * Relation attestations and fact ports ([src/src/session/event/relation.rs])

    The payload that relates a captured Revision to a commit with a proof status, and
    the payload that ports a fact from one Revision to another: validation, builders
    and the identity of both. *)

From S2P Require Import Prelude RustStr BTree Model CanonicalHash.

Inductive SemanticRevisionRelationV1 :=
| ExactMaterialization
| EquivalentRewrite
| ContentPreservingExtension
| LandingProvenance
| RelatedProvenance
| UnknownRelation.

Inductive RelationProofStatusV1 := Verified | Asserted | Unverified | Indeterminate | Refuted.

#[export] Instance SemanticRevisionRelationV1_eq_dec : EqDecision SemanticRevisionRelationV1.
Proof. solve_decision. Defined.
#[export] Instance RelationProofStatusV1_eq_dec : EqDecision RelationProofStatusV1.
Proof. solve_decision. Defined.

#[export] Instance SemanticRevisionRelationV1_Serialize : Serialize SemanticRevisionRelationV1 := λ r,
  JString match r with
  | ExactMaterialization => "exact_materialization"
  | EquivalentRewrite => "equivalent_rewrite"
  | ContentPreservingExtension => "content_preserving_extension"
  | LandingProvenance => "landing_provenance"
  | RelatedProvenance => "related_provenance"
  | UnknownRelation => "unknown"
  end.

#[export] Instance RelationProofStatusV1_Serialize : Serialize RelationProofStatusV1 := λ s,
  JString match s with
  | Verified => "verified"
  | Asserted => "asserted"
  | Unverified => "unverified"
  | Indeterminate => "indeterminate"
  | Refuted => "refuted"
  end.

Definition RELATION_ATTESTED_SCHEMA_V1 : string := "pointbreak.revision-relation-attested".
Definition FACT_PORTED_SCHEMA_V1 : string := "pointbreak.review-fact-ported".
Definition REVISION_RELATION_ATTESTATION : string := "relation-attestation".
Definition REVIEW_FACT_PORT : string := "fact-port".

Record RevisionRelationAttestedPayload := {
  at_schema : string;
  at_version : Z;
  at_relation_attestation_id : RevisionRelationAttestationId;
  at_revision : RevisionRefV1;
  at_commit_association_id : CommitAssociationId;
  at_semantic_relation : SemanticRevisionRelationV1;
  at_proof_status : RelationProofStatusV1;
  at_proof_method : string;
  at_proof_algorithm_version : string;
  at_capture_scope : list string;
  at_comparison_base_or_parent : option string;
  at_endpoint_oids : list string;
  at_evidence_content_hash : option string;
  at_result_digest : string
}.

Record RevisionRelationAttestationDraftV1 := {
  ad_revision : RevisionRefV1;
  ad_commit_association_id : CommitAssociationId;
  ad_semantic_relation : SemanticRevisionRelationV1;
  ad_proof_status : RelationProofStatusV1;
  ad_proof_method : string;
  ad_proof_algorithm_version : string;
  ad_capture_scope : list string;
  ad_comparison_base_or_parent : option string;
  ad_endpoint_oids : list string;
  ad_evidence_content_hash : option string;
  ad_result_digest : string
}.

Inductive FactPortRelationV1 := ContextOnly | ReanchoredAs | CarriedOpenAs | ResolvedBy.

#[export] Instance FactPortRelationV1_eq_dec : EqDecision FactPortRelationV1.
Proof. solve_decision. Defined.

#[export] Instance FactPortRelationV1_Serialize : Serialize FactPortRelationV1 := λ r,
  JString match r with
  | ContextOnly => "context_only"
  | ReanchoredAs => "reanchored_as"
  | CarriedOpenAs => "carried_open_as"
  | ResolvedBy => "resolved_by"
  end.

Inductive FactRefV1 :=
| FactObservation (observation_id : ObservationId)
| FactInputRequest (input_request_id : InputRequestId).

#[export] Instance FactRefV1_eq_dec : EqDecision FactRefV1.
Proof. solve_decision. Defined.

#[export] Instance FactRefV1_Serialize : Serialize FactRefV1 := λ f,
  match f with
  | FactObservation id =>
      JObject [("kind", to_json "observation"); ("observationId", to_json id)]
  | FactInputRequest id =>
      JObject [("kind", to_json "input_request"); ("inputRequestId", to_json id)]
  end.

Record ReviewFactPortedPayload := {
  fp_schema : string;
  fp_version : Z;
  fp_port_id : ReviewFactPortId;
  fp_origin_revision : RevisionRefV1;
  fp_origin_fact : FactRefV1;
  fp_target_revision : RevisionRefV1;
  fp_relation : FactPortRelationV1;
  fp_target_fact : option FactRefV1;
  fp_rationale_content_hash : option string;
  fp_context_change_id : option ChangeId
}.

#[export] Instance ReviewFactPortedPayload_eq_dec : EqDecision ReviewFactPortedPayload.
Proof. solve_decision. Defined.

Record ReviewFactPortDraftV1 := {
  fd_origin_revision : RevisionRefV1;
  fd_origin_fact : FactRefV1;
  fd_target_revision : RevisionRefV1;
  fd_relation : FactPortRelationV1;
  fd_target_fact : option FactRefV1;
  fd_rationale_content_hash : option string;
  fd_context_change_id : option ChangeId
}.

Definition invalid_relation_payload {A} (message : string) : result A := Err (InvalidEvent message).

(** [values.windows(2).all(|pair| pair[0] < pair[1])]. *)
Fixpoint is_sorted_unique_from (x : string) (values : list string) : bool :=
  match values with
  | [] => true
  | y :: values =>
      match String.compare x y with Lt => is_sorted_unique_from y values | _ => false end
  end.

Definition is_sorted_unique (values : list string) : bool :=
  match values with [] => true | x :: values => is_sorted_unique_from x values end.

(** [Vec::dedup]: drop consecutive repeats. *)
Fixpoint dedup_from (x : string) (values : list string) : list string :=
  match values with
  | [] => [x]
  | y :: values => if String.eqb x y then dedup_from x values else x :: dedup_from y values
  end.

Definition dedup (values : list string) : list string :=
  match values with [] => [] | x :: values => dedup_from x values end.

Definition sorted_dedup (values : list string) : list string :=
  dedup (sort_by String.compare values).

(** [payload_without_attestation_id], serialised. *)
Definition attestation_material (p : RevisionRelationAttestedPayload) : json :=
  JObject [("schema", to_json (at_schema p)); ("version", json_uint (at_version p));
    ("revision", to_json (at_revision p));
    ("commitAssociationId", to_json (at_commit_association_id p));
    ("semanticRelation", to_json (at_semantic_relation p));
    ("proofStatus", to_json (at_proof_status p));
    ("proofMethod", to_json (at_proof_method p));
    ("proofAlgorithmVersion", to_json (at_proof_algorithm_version p));
    ("captureScope", to_json (at_capture_scope p));
    ("comparisonBaseOrParent", to_json (at_comparison_base_or_parent p));
    ("endpointOids", to_json (at_endpoint_oids p));
    ("evidenceContentHash", to_json (at_evidence_content_hash p));
    ("resultDigest", to_json (at_result_digest p))].

(** [payload_without_port_id], serialised. *)
Definition port_material (p : ReviewFactPortedPayload) : json :=
  JObject [("schema", to_json (fp_schema p)); ("version", json_uint (fp_version p));
    ("originRevision", to_json (fp_origin_revision p));
    ("originFact", to_json (fp_origin_fact p));
    ("targetRevision", to_json (fp_target_revision p));
    ("relation", to_json (fp_relation p)); ("targetFact", to_json (fp_target_fact p));
    ("rationaleContentHash", to_json (fp_rationale_content_hash p));
    ("contextChangeId", to_json (fp_context_change_id p))].

Definition is_blank (s : string) : bool := String.eqb (trim s) EmptyString.

(** [hash.as_deref().is_some_and(|hash| !is_prefixed_sha256(hash))]. *)
Definition bad_hash (o : option string) : bool :=
  match o with Some hash => negb (is_prefixed_sha256 hash) | None => false end.

Definition is_content_relation (r : SemanticRevisionRelationV1) : bool :=
  match r with
  | ExactMaterialization | EquivalentRewrite | ContentPreservingExtension => true
  | _ => false
  end.

Definition is_input_request (f : FactRefV1) : bool :=
  match f with FactInputRequest _ => true | _ => false end.

Definition validate_fact_port (p : ReviewFactPortedPayload) : result unit :=
  if String.eqb (rr_revision_id (fp_origin_revision p)) (rr_revision_id (fp_target_revision p)) then
    invalid_relation_payload "fact ports require distinct origin and target Revisions"
  else if bad_hash (fp_rationale_content_hash p) then
    invalid_relation_payload "fact-port rationale hash is not a prefixed SHA-256"
  else
    let target_required :=
      match fp_relation p with ReanchoredAs | CarriedOpenAs => true | _ => false end in
    let target_present := match fp_target_fact p with Some _ => true | None => false end in
    if negb (Bool.eqb target_required target_present) then
      Err (Message
        "fact-port targetFact must be present exactly for reanchored_as or carried_open_as")
    else if match fp_relation p with CarriedOpenAs => true | _ => false end &&
        (negb (is_input_request (fp_origin_fact p)) ||
         negb match fp_target_fact p with Some f => is_input_request f | None => false end) then
      Err (Message "carried_open_as requires an input-request origin")
    else if match fp_relation p with ReanchoredAs => true | _ => false end &&
        negb match fp_origin_fact p, fp_target_fact p with
             | FactObservation _, Some (FactObservation _) => true
             | _, _ => false
             end then
      invalid_relation_payload "reanchored_as requires observation facts at both endpoints"
    else Ok ().

Definition fp_validate (p : ReviewFactPortedPayload) : result unit :=
  if negb (String.eqb (fp_schema p) FACT_PORTED_SCHEMA_V1) || negb (fp_version p =? 1)%Z then
    invalid_relation_payload "unsupported fact-port schema/version"
  else validate_fact_port p.

Section relations.
Context `{Digest}.

Definition attestation_id (p : RevisionRelationAttestedPayload)
    : result RevisionRelationAttestationId :=
  let? hash := sha256_json_prefixed (attestation_material p) in
  Ok (REVISION_RELATION_ATTESTATION +:+ ":" +:+ hash).

Definition at_validate (p : RevisionRelationAttestedPayload) : result unit :=
  if negb (String.eqb (at_schema p) RELATION_ATTESTED_SCHEMA_V1) || negb (at_version p =? 1)%Z then
    invalid_relation_payload "unsupported relation-attestation schema/version"
  else if is_blank (at_proof_method p) || is_blank (at_proof_algorithm_version p)
      || negb (is_sorted_unique (at_capture_scope p))
      || negb (is_sorted_unique (at_endpoint_oids p))
      || negb (is_prefixed_sha256 (at_result_digest p))
      || bad_hash (at_evidence_content_hash p) then
    invalid_relation_payload
      "relation-attestation proof metadata is not canonical or integrity-qualified"
  else
    let? expected := attestation_id p in
    if negb (String.eqb expected (at_relation_attestation_id p)) then
      invalid_relation_payload "relation-attestation identity mismatch"
    else if match at_proof_status p with Verified => true | _ => false end
        && is_content_relation (at_semantic_relation p)
        && match at_evidence_content_hash p with None => true | Some _ => false end then
      invalid_relation_payload "verified content relation requires an evidence content hash"
    else Ok ().

(** [payload.relation_attestation_id = id]. *)
Definition with_attestation_id (id : RevisionRelationAttestationId)
    (p : RevisionRelationAttestedPayload) : RevisionRelationAttestedPayload :=
  {| at_schema := at_schema p; at_version := at_version p; at_relation_attestation_id := id;
     at_revision := at_revision p; at_commit_association_id := at_commit_association_id p;
     at_semantic_relation := at_semantic_relation p; at_proof_status := at_proof_status p;
     at_proof_method := at_proof_method p;
     at_proof_algorithm_version := at_proof_algorithm_version p;
     at_capture_scope := at_capture_scope p;
     at_comparison_base_or_parent := at_comparison_base_or_parent p;
     at_endpoint_oids := at_endpoint_oids p;
     at_evidence_content_hash := at_evidence_content_hash p;
     at_result_digest := at_result_digest p |}.

Definition pending_attestation (d : RevisionRelationAttestationDraftV1)
    : RevisionRelationAttestedPayload :=
  {| at_schema := RELATION_ATTESTED_SCHEMA_V1; at_version := 1;
     at_relation_attestation_id := "pending";
     at_revision := ad_revision d; at_commit_association_id := ad_commit_association_id d;
     at_semantic_relation := ad_semantic_relation d; at_proof_status := ad_proof_status d;
     at_proof_method := ad_proof_method d;
     at_proof_algorithm_version := ad_proof_algorithm_version d;
     at_capture_scope := sorted_dedup (ad_capture_scope d);
     at_comparison_base_or_parent := ad_comparison_base_or_parent d;
     at_endpoint_oids := sorted_dedup (ad_endpoint_oids d);
     at_evidence_content_hash := ad_evidence_content_hash d;
     at_result_digest := ad_result_digest d |}.

Definition build_revision_relation_attested (d : RevisionRelationAttestationDraftV1)
    : result RevisionRelationAttestedPayload :=
  let payload := pending_attestation d in
  let? id := attestation_id payload in
  let payload := with_attestation_id id payload in
  let? _ := at_validate payload in
  Ok payload.

Definition port_document (p : ReviewFactPortedPayload) (actor_id : ActorId) (track_id : TrackId)
    : json :=
  JObject [("payload", port_material p); ("actorId", to_json actor_id);
           ("trackId", to_json track_id)].

Definition port_id (p : ReviewFactPortedPayload) (actor_id : ActorId) (track_id : TrackId)
    : result ReviewFactPortId :=
  let? hash := sha256_json_prefixed (port_document p actor_id track_id) in
  Ok (REVIEW_FACT_PORT +:+ ":" +:+ hash).

Definition validate_attribution (p : ReviewFactPortedPayload) (actor_id : ActorId)
    (track_id : TrackId) : result unit :=
  let? _ := fp_validate p in
  let? expected := port_id p actor_id track_id in
  if String.eqb expected (fp_port_id p) then Ok ()
  else invalid_relation_payload "fact-port identity or attribution mismatch".

(** [payload.port_id = id]. *)
Definition with_port_id (id : ReviewFactPortId) (p : ReviewFactPortedPayload)
    : ReviewFactPortedPayload :=
  {| fp_schema := fp_schema p; fp_version := fp_version p; fp_port_id := id;
     fp_origin_revision := fp_origin_revision p; fp_origin_fact := fp_origin_fact p;
     fp_target_revision := fp_target_revision p; fp_relation := fp_relation p;
     fp_target_fact := fp_target_fact p;
     fp_rationale_content_hash := fp_rationale_content_hash p;
     fp_context_change_id := fp_context_change_id p |}.

Definition pending_port (d : ReviewFactPortDraftV1) : ReviewFactPortedPayload :=
  {| fp_schema := FACT_PORTED_SCHEMA_V1; fp_version := 1; fp_port_id := "pending";
     fp_origin_revision := fd_origin_revision d; fp_origin_fact := fd_origin_fact d;
     fp_target_revision := fd_target_revision d; fp_relation := fd_relation d;
     fp_target_fact := fd_target_fact d;
     fp_rationale_content_hash := fd_rationale_content_hash d;
     fp_context_change_id := fd_context_change_id d |}.

Definition build_review_fact_ported (d : ReviewFactPortDraftV1) (actor_id : ActorId)
    (track_id : TrackId) : result ReviewFactPortedPayload :=
  let payload := pending_port d in
  let? _ := validate_fact_port payload in
  let? id := port_id payload actor_id track_id in
  let payload := with_port_id id payload in
  let? _ := fp_validate payload in
  Ok payload.

End relations.

(** ** Serialisation *)

#[export] Instance SemanticRevisionRelationV1_SerializeLaws :
  SerializeLaws SemanticRevisionRelationV1.
Proof. split; [constructor|]. by intros [] [] Heq; inversion Heq. Qed.

#[export] Instance RelationProofStatusV1_SerializeLaws : SerializeLaws RelationProofStatusV1.
Proof. split; [constructor|]. by intros [] [] Heq; inversion Heq. Qed.

#[export] Instance FactPortRelationV1_SerializeLaws : SerializeLaws FactPortRelationV1.
Proof. split; [constructor|]. by intros [] [] Heq; inversion Heq. Qed.

#[export] Instance FactRefV1_SerializeNonNull : SerializeNonNull FactRefV1.
Proof. by intros []. Qed.

#[export] Instance FactRefV1_SerializeLaws : SerializeLaws FactRefV1.
Proof.
  split.
  - intros []; unfold to_json, FactRefV1_Serialize; json_wf_literal.
  - intros [a|a] [b|b] Heq; unfold to_json at 1 2, FactRefV1_Serialize in Heq.
    + json_fields Heq. by subst.
    + by pose proof (equiv_field _ _ "kind" _ _ Heq eq_refl eq_refl) as E%to_json_inj.
    + by pose proof (equiv_field _ _ "kind" _ _ Heq eq_refl eq_refl) as E%to_json_inj.
    + json_fields Heq. by subst.
Qed.

Lemma attestation_material_wf p : json_wf (attestation_material p).
Proof. unfold attestation_material. json_wf_literal. Qed.

Lemma port_material_wf p : json_wf (port_material p).
Proof. unfold port_material. json_wf_literal. Qed.

Lemma port_document_wf p a t : json_wf (port_document p a t).
Proof.
  unfold port_document. apply wf_object;
    [cbn; apply (bool_decide_unpack _); vm_compute; exact I|]. cbn.
  repeat (apply List.Forall_cons); [apply port_material_wf|apply to_json_wf..|constructor].
Qed.

(** ** Canonical lists *)

Lemma dedup_from_spec x l :
  StronglySorted (cmp_le String.compare) (x :: l) →
  StronglySorted (cmp_lt String.compare) (dedup_from x l) ∧
  (∀ y, y ∈ dedup_from x l ↔ y ∈ x :: l).
Proof.
  revert x. induction l as [|z l IH]; intros x Hs; cbn [dedup_from].
  { split; [by repeat constructor|done]. }
  apply StronglySorted_inv in Hs as [Hs Hx]. destruct (String.eqb_spec x z) as [->|Hne].
  - destruct (IH z Hs) as [IH1 IH2]. split; [done|]. intros y. rewrite IH2. set_solver.
  - destruct (IH z Hs) as [IH1 IH2]. split.
    + constructor; [done|]. apply Forall_forall. intros y [->|Hy]%IH2%elem_of_cons.
      * apply Forall_cons in Hx as [Hx _]. unfold cmp_le, cmp_lt in *.
        destruct (String.compare x z) eqn:E; [|done..]. by apply (cmp_eq String.compare) in E.
      * apply Forall_cons in Hx as [Hx _]. apply StronglySorted_inv in Hs as [_ Hz].
        eapply Forall_forall in Hz; [|exact Hy]. unfold cmp_le, cmp_lt in *.
        eapply (cmp_lt_le_trans String.compare); [|exact Hz].
        destruct (String.compare x z) eqn:E; [|done..]. by apply (cmp_eq String.compare) in E.
    + intros y. rewrite !elem_of_cons, IH2, elem_of_cons. done.
Qed.

(** Sorting and deduplicating a list lists its elements as a set. *)
Lemma sorted_dedup_iter l : sorted_dedup l = iter_set (set_of_list l).
Proof.
  apply iter_set_unique; unfold sorted_dedup, set_of_list.
  - pose proof (sort_by_sorted String.compare l) as Hs.
    destruct (sort_by String.compare l) as [|x k]; [constructor|]. by apply dedup_from_spec.
  - intros y. rewrite elem_of_list_to_set, <- (elem_of_sort_by String.compare y l).
    pose proof (sort_by_sorted String.compare l) as Hs.
    destruct (sort_by String.compare l) as [|x k]; [done|]. by apply dedup_from_spec.
Qed.

Lemma is_sorted_unique_spec l :
  is_sorted_unique l = true ↔ StronglySorted (cmp_lt String.compare) l.
Proof.
  destruct l as [|x l]; [split; [constructor|done]|]. cbn [is_sorted_unique]. revert x.
  induction l as [|y l IH]; intros x; cbn [is_sorted_unique_from].
  { split; [by repeat constructor|done]. }
  destruct (String.compare x y) eqn:E.
  - split; [done|]. intros [_ [Hxy _]%Forall_cons]%StronglySorted_inv. unfold cmp_lt in Hxy. congruence.
  - rewrite IH. split; [|by intros [? _]%StronglySorted_inv].
    intros Hs. constructor; [done|]. constructor; [done|].
    apply StronglySorted_inv in Hs as [_ Hy]. eapply Forall_impl; [exact Hy|].
    intros z Hz. by eapply (cmp_lt_trans String.compare).
  - split; [done|]. intros [_ [Hxy _]%Forall_cons]%StronglySorted_inv. unfold cmp_lt in Hxy. congruence.
Qed.

Lemma sorted_dedup_unique l : is_sorted_unique (sorted_dedup l) = true.
Proof. rewrite sorted_dedup_iter. apply is_sorted_unique_spec, iter_set_sorted. Qed.

(** ** Fact ports *)

Lemma validate_fact_port_kinds p :
  validate_fact_port p = Ok () →
  rr_revision_id (fp_origin_revision p) ≠ rr_revision_id (fp_target_revision p) ∧
  match fp_relation p with
  | CarriedOpenAs => ∃ o t, fp_origin_fact p = FactInputRequest o ∧
      fp_target_fact p = Some (FactInputRequest t)
  | ReanchoredAs => ∃ o t, fp_origin_fact p = FactObservation o ∧
      fp_target_fact p = Some (FactObservation t)
  | ContextOnly | ResolvedBy => fp_target_fact p = None
  end.
Proof.
  unfold validate_fact_port. destruct (String.eqb_spec (rr_revision_id (fp_origin_revision p))
    (rr_revision_id (fp_target_revision p))); [done|].
  destruct (bad_hash _); [done|]. intros Hv. split; [done|].
  destruct (fp_relation p), (fp_target_fact p) as [[]|], (fp_origin_fact p);
    cbn in Hv; try discriminate Hv; eauto.
Qed.

Lemma validate_fact_port_id id p : validate_fact_port (with_port_id id p) = validate_fact_port p.
Proof. done. Qed.

Section ports.
Context `{DigestLaws}.

Lemma port_id_Ok p a t :
  port_id p a t = Ok (REVIEW_FACT_PORT +:+ ":" +:+ json_digest (port_document p a t)).
Proof. done. Qed.

Lemma validate_attribution_id p a t :
  validate_attribution p a t = Ok () →
  fp_port_id p = REVIEW_FACT_PORT +:+ ":" +:+ json_digest (port_document p a t).
Proof.
  unfold validate_attribution. rewrite port_id_Ok. intros (? & _ & Hv)%bind_Ok.
  cbn [rbind] in Hv. by destruct (String.eqb_spec (REVIEW_FACT_PORT +:+ ":" +:+
    json_digest (port_document p a t)) (fp_port_id p)) as [<-|].
Qed.

(** A built fact port is attributed to its author: the builder succeeds
    exactly when the port is well formed, its result passes the attribution check
    for the actor and track it was built for, it passes for no other actor or track
    unless the two attributed documents collide, and it ports between distinct Revisions facts of the
    kinds its relation allows. *)
Theorem fact_port_attributed d actor track :
  (validate_fact_port (pending_port d) = Ok () ↔
    ∃ p, build_review_fact_ported d actor track = Ok p) ∧
  ∀ p, build_review_fact_ported d actor track = Ok p →
    validate_attribution p actor track = Ok () ∧
    (∀ actor' track', validate_attribution p actor' track' = Ok () →
      (actor' = actor ∧ track' = track) ∨
      json_collision (port_document p actor' track') (port_document p actor track)) ∧
    rr_revision_id (fp_origin_revision p) ≠ rr_revision_id (fp_target_revision p) ∧
    match fp_relation p with
    | CarriedOpenAs => ∃ o t, fp_origin_fact p = FactInputRequest o ∧
        fp_target_fact p = Some (FactInputRequest t)
    | ReanchoredAs => ∃ o t, fp_origin_fact p = FactObservation o ∧
        fp_target_fact p = Some (FactObservation t)
    | ContextOnly | ResolvedBy => fp_target_fact p = None
    end.
Proof.
  unfold build_review_fact_ported. rewrite port_id_Ok. split.
  { split.
    - intros Hv. rewrite Hv. cbn [rbind]. unfold fp_validate at 1. cbn [fp_schema with_port_id pending_port
        fp_version]. rewrite String.eqb_refl, validate_fact_port_id, Hv. by eexists.
    - by intros (p & ([] & Hv & _)%bind_Ok). }
  intros p ([] & Hv & Hp)%bind_Ok. cbn [rbind] in Hp. apply bind_Ok in Hp as ([] & Hf & [= <-]).
  set (q := with_port_id _ _) in *. split_and!.
  - unfold validate_attribution. rewrite Hf, port_id_Ok. cbn [rbind].
    change (port_document q actor track) with (port_document (pending_port d) actor track).
    unfold q at 1. cbn [fp_port_id with_port_id]. by rewrite String.eqb_refl.
  - intros a' t' Hv'%validate_attribution_id. unfold q at 1 in Hv'. cbn [fp_port_id with_port_id] in Hv'.
    do 2 apply append_inj_l in Hv'. symmetry in Hv'.
    apply json_digest_binding in Hv' as [Heq|?]; [|by right|..].
    + left. unfold port_document in Heq. json_fields Heq. done.
    + apply port_document_wf.
    + apply port_document_wf.
  - by apply (validate_fact_port_kinds (pending_port d)).
  - by apply (validate_fact_port_kinds (pending_port d)).
Qed.
End ports.

Definition example_port : ReviewFactPortDraftV1 := {|
  fd_origin_revision := {| rr_revision_id := "rev:a"; rr_object_artifact_content_hash := "sha256:0" |};
  fd_origin_fact := FactInputRequest "input-request:1";
  fd_target_revision := {| rr_revision_id := "rev:b"; rr_object_artifact_content_hash := "sha256:1" |};
  fd_relation := CarriedOpenAs;
  fd_target_fact := Some (FactInputRequest "input-request:2");
  fd_rationale_content_hash := None;
  fd_context_change_id := None
|}.

Lemma fact_port_attributed_witness :
  ∃ p, @build_review_fact_ported example_digest example_port "actor:a" "track:t" = Ok p ∧
    @validate_attribution example_digest p "actor:a" "track:t" = Ok ().
Proof.
  destruct (@fact_port_attributed example_digest example_digest_laws example_port "actor:a" "track:t")
    as [[Hb _] Hp].
  destruct (Hb eq_refl) as (p & Hok). exists p. split; [exact Hok|]. apply (Hp p Hok).
Defined.

Section attestations.
Context `{DigestLaws}.

Lemma attestation_id_Ok p :
  attestation_id p = Ok (REVISION_RELATION_ATTESTATION +:+ ":" +:+
    json_digest (attestation_material p)).
Proof. done. Qed.

Lemma at_validate_id p :
  at_validate p = Ok () →
  at_schema p = RELATION_ATTESTED_SCHEMA_V1 ∧ at_version p = 1%Z ∧
  at_relation_attestation_id p =
    REVISION_RELATION_ATTESTATION +:+ ":" +:+ json_digest (attestation_material p).
Proof.
  unfold at_validate. rewrite attestation_id_Ok.
  destruct (String.eqb_spec (at_schema p) RELATION_ATTESTED_SCHEMA_V1); [|done].
  destruct (Z.eqb_spec (at_version p) 1); [|done]. cbn [negb orb rbind].
  destruct (_ || _); [done|].
  destruct (String.eqb_spec (REVISION_RELATION_ATTESTATION +:+ ":" +:+
    json_digest (attestation_material p)) (at_relation_attestation_id p)) as [<-|]; [|done].
  done.
Qed.

(** Attestations are canonical and bound to their id: what the builder returns
    passes validation, with each list field strictly sorted and holding exactly the
    draft's values; drafts that differ only in the order and repetition of those
    values give the same attestation; and two valid attestations with one id are
    the same attestation, unless their hashed documents collide. *)
Lemma attestation_canonical :
  (∀ d p, build_revision_relation_attested d = Ok p →
    at_validate p = Ok () ∧
    StronglySorted (cmp_lt String.compare) (at_capture_scope p) ∧
    (∀ x, x ∈ at_capture_scope p ↔ x ∈ ad_capture_scope d) ∧
    StronglySorted (cmp_lt String.compare) (at_endpoint_oids p) ∧
    (∀ x, x ∈ at_endpoint_oids p ↔ x ∈ ad_endpoint_oids d)) ∧
  (∀ d scope oids, set_of_list (ad_capture_scope d) = set_of_list scope →
    set_of_list (ad_endpoint_oids d) = set_of_list oids →
    build_revision_relation_attested d = build_revision_relation_attested
      {| ad_revision := ad_revision d; ad_commit_association_id := ad_commit_association_id d;
         ad_semantic_relation := ad_semantic_relation d; ad_proof_status := ad_proof_status d;
         ad_proof_method := ad_proof_method d;
         ad_proof_algorithm_version := ad_proof_algorithm_version d; ad_capture_scope := scope;
         ad_comparison_base_or_parent := ad_comparison_base_or_parent d;
         ad_endpoint_oids := oids; ad_evidence_content_hash := ad_evidence_content_hash d;
         ad_result_digest := ad_result_digest d |}) ∧
  (∀ p q, at_validate p = Ok () → at_validate q = Ok () →
    at_relation_attestation_id p = at_relation_attestation_id q →
    p = q ∨ json_collision (attestation_material p) (attestation_material q)).
Proof.
  split_and!.
  - intros d p. unfold build_revision_relation_attested. rewrite attestation_id_Ok. cbn [rbind].
    intros ([] & Hv & [= <-])%bind_Ok. split; [done|]. clear Hv.
    cbn [at_capture_scope at_endpoint_oids with_attestation_id pending_attestation].
    rewrite !sorted_dedup_iter. split_and!; try apply iter_set_sorted;
      intros x; rewrite elem_of_iter_set; apply elem_of_list_to_set.
  - intros d scope oids Hs Ho. unfold build_revision_relation_attested, pending_attestation.
    cbn [ad_revision ad_commit_association_id ad_semantic_relation ad_proof_status ad_proof_method
      ad_proof_algorithm_version ad_capture_scope ad_comparison_base_or_parent ad_endpoint_oids
      ad_evidence_content_hash ad_result_digest].
    by rewrite !sorted_dedup_iter, Hs, Ho.
  - intros p q Hp%at_validate_id Hq%at_validate_id Heq.
    destruct Hp as (P1 & P2 & P3), Hq as (Q1 & Q2 & Q3). pose proof Heq as Hid.
    rewrite P3, Q3 in Heq. do 2 apply append_inj_l in Heq.
    apply json_digest_binding in Heq as [Heq|?]; [|by right|apply attestation_material_wf..].
    left. unfold attestation_material in Heq. json_fields Heq.
    clear P3 Q3. destruct p, q; cbn in *; subst; f_equal; congruence.
Qed.
End attestations.

Definition example_attestation : RevisionRelationAttestationDraftV1 := {|
  ad_revision := {| rr_revision_id := "rev:a"; rr_object_artifact_content_hash := "sha256:0" |};
  ad_commit_association_id := "assoc-commit:1";
  ad_semantic_relation := LandingProvenance; ad_proof_status := Asserted;
  ad_proof_method := "manual"; ad_proof_algorithm_version := "1";
  ad_capture_scope := ["b"; "a"; "b"]; ad_comparison_base_or_parent := None;
  ad_endpoint_oids := []; ad_evidence_content_hash := None;
  ad_result_digest :=
    "sha256:0123456789abcdef0123456789abcdef0123456789abcdef0123456789abcdef"
|}.

Lemma attestation_canonical_witness :
  @build_revision_relation_attested example_digest example_attestation =
  @build_revision_relation_attested example_digest
    {| ad_revision := ad_revision example_attestation;
       ad_commit_association_id := "assoc-commit:1";
       ad_semantic_relation := LandingProvenance; ad_proof_status := Asserted;
       ad_proof_method := "manual"; ad_proof_algorithm_version := "1";
       ad_capture_scope := ["a"; "b"]; ad_comparison_base_or_parent := None;
       ad_endpoint_oids := []; ad_evidence_content_hash := None;
       ad_result_digest := ad_result_digest example_attestation |} ∧
  is_ok (@build_revision_relation_attested example_digest example_attestation) = true.
Proof.
  split; [|vm_compute; reflexivity].
  apply (proj1 (proj2 (@attestation_canonical example_digest example_digest_laws))
    example_attestation ["a"; "b"] []); vm_compute; reflexivity.
Defined.
