(* ===== verification/Crypto.v ===== *)
(** * Signer identities and signature checks ([src/src/crypto])

    [did:key] signer ids over Ed25519 public keys and the strict signature check.
    Base58, Base64 and the curve arithmetic belong to other crates: they are the
    operations of the class [Primitives]. *)

From S2P Require Import Prelude RustStr BTree Model.

Class Primitives := {
  bs58_encode : string → string;
  bs58_decode : string → option string;
  base64_encode : string → string;
  base64_decode : string → option string;
  (** [VerifyingKey::from_bytes(..).is_ok()]. *)
  verifying_key_ok : string → bool;
  (** [Signature::from_slice(..).is_ok()]. *)
  signature_ok : string → bool;
  (** [verifying_key.verify_strict(message, signature).is_ok()]. *)
  verify_strict : string → string → string → bool
}.

Class PrimitivesLaws `{Primitives} : Prop := {
  bs58_roundtrip s : bs58_decode (bs58_encode s) = Some s;
  bs58_nonempty s : s ≠ EmptyString → bs58_encode s ≠ EmptyString;
  base64_roundtrip s : base64_decode (base64_encode s) = Some s
}.

Abbreviation SignerId := string (only parsing).
Abbreviation EventSignatureBytes := string (only parsing).

Definition EventVerificationStatus_as_str (s : EventVerificationStatus) : string :=
  match s with
  | Valid => "valid"
  | Invalid => "invalid"
  | UntrustedKey => "untrusted_key"
  | Unsigned => "unsigned"
  end.

Definition DID_KEY_PREFIX : string := "did:key:".
Definition BASE58_BTC_PREFIX : string := "z".
Definition ED25519_MULTICODEC_PREFIX : string :=
  String (ascii_of_N 237) (String (ascii_of_N 1) EmptyString).
Definition ED25519_PUBLIC_KEY_LEN : nat := 32.
Definition ED25519_DID_KEY_BYTES_LEN : nat :=
  String.length ED25519_MULTICODEC_PREFIX + ED25519_PUBLIC_KEY_LEN.

Definition invalid_did_key (message : string) : ShoreError :=
  WorkflowInputInvalid ("invalid Ed25519 did:key: " +:+ message).

Section signers.
Context `{Primitives}.

Definition decode_ed25519_public_key (value : string) : result string :=
  let? encoded := ok_or (strip_prefix DID_KEY_PREFIX value)
    (invalid_did_key "unsupported DID method") in
  let? multibase := ok_or (strip_prefix BASE58_BTC_PREFIX encoded)
    (invalid_did_key "missing base58btc multibase prefix") in
  if String.eqb multibase EmptyString then Err (invalid_did_key "empty base58btc payload")
  else
    let? decoded := ok_or (bs58_decode multibase)
      (invalid_did_key "malformed base58btc payload") in
    if negb (String.length decoded =? ED25519_DID_KEY_BYTES_LEN) then
      Err (invalid_did_key "unexpected Ed25519 did:key byte length")
    else
      match strip_prefix ED25519_MULTICODEC_PREFIX decoded with
      | None => Err (invalid_did_key "unsupported did:key multicodec")
      | Some key => Ok key
      end.

Definition SignerId_parse (value : string) : result SignerId :=
  let? _ := decode_ed25519_public_key value in
  Ok value.

Definition from_ed25519_public_key (bytes : string) : SignerId :=
  DID_KEY_PREFIX +:+ BASE58_BTC_PREFIX +:+ bs58_encode (ED25519_MULTICODEC_PREFIX +:+ bytes).

Definition ed25519_public_key (signer : SignerId) : result string :=
  decode_ed25519_public_key signer.

Definition EventSignatureBytes_from_bytes (bytes : string) : EventSignatureBytes :=
  base64_encode bytes.

Definition is_base64 (sig : EventSignatureBytes) : bool :=
  match base64_decode sig with Some _ => true | None => false end.

Definition verify_ed25519_strict (signer : SignerId) (message signature : string)
    : result EventVerificationStatus :=
  match ed25519_public_key signer with
  | Err _ => Ok Invalid
  | Ok public_key =>
      if negb (verifying_key_ok public_key) then Ok Invalid
      else match base64_decode signature with
      | None => Ok Invalid
      | Some signature_bytes =>
          if negb (signature_ok signature_bytes) then Ok Invalid
          else if verify_strict public_key message signature_bytes then Ok Valid
          else Ok Invalid
      end
  end.
End signers.

(** ** Properties *)

Section properties.
Context `{PrimitivesLaws}.

Lemma decode_from_public_key key :
  String.length key = ED25519_PUBLIC_KEY_LEN →
  decode_ed25519_public_key (from_ed25519_public_key key) = Ok key.
Proof.
  intros Hlen. unfold decode_ed25519_public_key, from_ed25519_public_key.
  rewrite strip_prefix_append. cbn [ok_or rbind]. rewrite strip_prefix_append. cbn [ok_or rbind].
  destruct (String.eqb_spec (bs58_encode (ED25519_MULTICODEC_PREFIX +:+ key)) EmptyString) as [E|_].
  { by apply bs58_nonempty in E. }
  rewrite bs58_roundtrip. cbn [ok_or rbind]. rewrite length_append, Hlen, Nat.eqb_refl.
  cbn [negb]. by rewrite strip_prefix_append.
Qed.

Lemma decode_length value key :
  decode_ed25519_public_key value = Ok key → String.length key = ED25519_PUBLIC_KEY_LEN.
Proof.
  unfold decode_ed25519_public_key. intros (? & _ & Hd)%bind_Ok.
  apply bind_Ok in Hd as (? & _ & Hd). destruct (String.eqb _ _); [done|].
  apply bind_Ok in Hd as (b & _ & Hd).
  destruct (String.length b =? ED25519_DID_KEY_BYTES_LEN) eqn:E; [|done]. cbn [negb] in Hd.
  destruct (strip_prefix _ b) as [k|] eqn:Hk; [|done]. injection Hd as ->.
  apply strip_prefix_Some in Hk as ->. apply Nat.eqb_eq in E. rewrite length_append in E.
  unfold ED25519_DID_KEY_BYTES_LEN in E. lia.
Qed.

(** Signer ids are exactly the encodings of 32-byte keys: the id of a key parses
    and gives back the key, distinct keys have distinct ids, a parsed id names a
    32-byte key, and a signature is reported valid only after the strict check of
    that key on that message succeeded. *)
Theorem signer_id_roundtrip :
  (∀ key, String.length key = ED25519_PUBLIC_KEY_LEN →
    SignerId_parse (from_ed25519_public_key key) = Ok (from_ed25519_public_key key) ∧
    ed25519_public_key (from_ed25519_public_key key) = Ok key) ∧
  (∀ k1 k2, String.length k1 = ED25519_PUBLIC_KEY_LEN →
    String.length k2 = ED25519_PUBLIC_KEY_LEN →
    from_ed25519_public_key k1 = from_ed25519_public_key k2 → k1 = k2) ∧
  (∀ value signer, SignerId_parse value = Ok signer →
    signer = value ∧ ∃ key, ed25519_public_key signer = Ok key ∧
      String.length key = ED25519_PUBLIC_KEY_LEN) ∧
  (∀ signer message sig, verify_ed25519_strict signer message sig = Ok Valid ↔
    ∃ key bytes, ed25519_public_key signer = Ok key ∧ verifying_key_ok key = true ∧
      base64_decode sig = Some bytes ∧ signature_ok bytes = true ∧
      verify_strict key message bytes = true).
Proof.
  split_and!.
  - intros key Hlen. unfold SignerId_parse, ed25519_public_key.
    by rewrite decode_from_public_key by done.
  - intros k1 k2 H1 H2 Heq. pose proof (decode_from_public_key k1 H1) as E.
    rewrite Heq, (decode_from_public_key k2 H2) in E. by injection E.
  - intros value signer. unfold SignerId_parse, ed25519_public_key.
    intros (key & Hk & [= <-])%bind_Ok. split; [done|]. exists key. eauto using decode_length.
  - intros signer message sig. unfold verify_ed25519_strict.
    destruct (ed25519_public_key signer) as [key|e]; [|split; [done|intros (? & ? & ? & ? & ? & ? & ?); simplify_eq; congruence]].
    destruct (verifying_key_ok key) eqn:E1; cbn [negb]; [|split; [done|intros (? & ? & ? & ? & ? & ? & ?); simplify_eq; congruence]].
    destruct (base64_decode sig) as [bytes|]; [|split; [done|intros (? & ? & ? & ? & ? & ? & ?); simplify_eq; congruence]].
    destruct (signature_ok bytes) eqn:E2; cbn [negb]; [|split; [done|intros (? & ? & ? & ? & ? & ? & ?); simplify_eq; congruence]].
    destruct (verify_strict key message bytes) eqn:E3; [|split; [done|intros (? & ? & ? & ? & ? & ? & ?); simplify_eq; congruence]].
    split; [|done]. intros _. by exists key, bytes.
Qed.
End properties.

(** A codec that satisfies the laws. *)
Definition example_primitives : Primitives := {|
  bs58_encode := λ s, s; bs58_decode := Some; base64_encode := λ s, s; base64_decode := Some;
  verifying_key_ok := λ _, true; signature_ok := λ s, String.length s =? 64;
  verify_strict := λ k m s, String.eqb s (str_take 64 (k +:+ m))
|}.

Lemma example_primitives_laws : @PrimitivesLaws example_primitives.
Proof. by split. Qed.

Lemma signer_id_roundtrip_witness :
  @ed25519_public_key example_primitives
    (@from_ed25519_public_key example_primitives "0123456789abcdef0123456789abcdef") =
  Ok "0123456789abcdef0123456789abcdef".
Proof.
  exact (proj2 (proj1 (@signer_id_roundtrip example_primitives example_primitives_laws)
    "0123456789abcdef0123456789abcdef" eq_refl)).
Defined.
