(* ===== verification/Events.v ===== *)
(** * The event envelope ([src/src/session/event], [src/src/model])

    Event families and their frozen codes, subjects and targets, the stored event,
    its record hash and the view a producer signs. *)

From S2P Require Import Prelude RustStr BTree Model CanonicalHash Crypto.

(** ** Event families ([kind.rs], [type_code.rs]) *)

Inductive EventType :=
| ReviewInitialized
| WorkObjectProposed
| ReviewObservationRecorded
| ReviewAssessmentRecorded
| InputRequestOpened
| InputRequestResponded
| ReviewNoteImported
| RevisionRefAssociated
| RevisionRefWithdrawn
| RevisionCommitAssociated
| RevisionCommitWithdrawn
| ValidationCheckRecorded
| TaskCheckpointCaptured
| TaskObservationRecorded
| EventSignatureRecorded
| ArtifactRemoved
| ChangeDeclared
| ChangeMembershipAsserted
| ChangeMembershipWithdrawn
| ChangeLinkAsserted
| ChangeRevisionRelationAsserted
| ChangeRevisionRelationWithdrawn
| RevisionRelationAttested
| ReviewFactPorted.

#[export] Instance EventType_eq_dec : EqDecision EventType.
Proof. solve_decision. Defined.

Definition EventType_as_str (ty : EventType) : string :=
  match ty with
  | ReviewInitialized => "review_initialized"
  | WorkObjectProposed => "work_object_proposed"
  | ReviewObservationRecorded => "review_observation_recorded"
  | ReviewAssessmentRecorded => "review_assessment_recorded"
  | InputRequestOpened => "input_request_opened"
  | InputRequestResponded => "input_request_responded"
  | ReviewNoteImported => "review_note_imported"
  | RevisionRefAssociated => "revision_ref_associated"
  | RevisionRefWithdrawn => "revision_ref_withdrawn"
  | RevisionCommitAssociated => "revision_commit_associated"
  | RevisionCommitWithdrawn => "revision_commit_withdrawn"
  | ValidationCheckRecorded => "validation_check_recorded"
  | TaskCheckpointCaptured => "task_checkpoint_captured"
  | TaskObservationRecorded => "task_observation_recorded"
  | EventSignatureRecorded => "event_signature_recorded"
  | ArtifactRemoved => "artifact_removed"
  | ChangeDeclared => "change_declared"
  | ChangeMembershipAsserted => "change_membership_asserted"
  | ChangeMembershipWithdrawn => "change_membership_withdrawn"
  | ChangeLinkAsserted => "change_link_asserted"
  | ChangeRevisionRelationAsserted => "change_revision_relation_asserted"
  | ChangeRevisionRelationWithdrawn => "change_revision_relation_withdrawn"
  | RevisionRelationAttested => "revision_relation_attested"
  | ReviewFactPorted => "review_fact_ported"
  end.

(** The derived [Debug] form: the variant's name. *)
Definition EventType_debug (ty : EventType) : string :=
  match ty with
  | ReviewInitialized => "ReviewInitialized"
  | WorkObjectProposed => "WorkObjectProposed"
  | ReviewObservationRecorded => "ReviewObservationRecorded"
  | ReviewAssessmentRecorded => "ReviewAssessmentRecorded"
  | InputRequestOpened => "InputRequestOpened"
  | InputRequestResponded => "InputRequestResponded"
  | ReviewNoteImported => "ReviewNoteImported"
  | RevisionRefAssociated => "RevisionRefAssociated"
  | RevisionRefWithdrawn => "RevisionRefWithdrawn"
  | RevisionCommitAssociated => "RevisionCommitAssociated"
  | RevisionCommitWithdrawn => "RevisionCommitWithdrawn"
  | ValidationCheckRecorded => "ValidationCheckRecorded"
  | TaskCheckpointCaptured => "TaskCheckpointCaptured"
  | TaskObservationRecorded => "TaskObservationRecorded"
  | EventSignatureRecorded => "EventSignatureRecorded"
  | ArtifactRemoved => "ArtifactRemoved"
  | ChangeDeclared => "ChangeDeclared"
  | ChangeMembershipAsserted => "ChangeMembershipAsserted"
  | ChangeMembershipWithdrawn => "ChangeMembershipWithdrawn"
  | ChangeLinkAsserted => "ChangeLinkAsserted"
  | ChangeRevisionRelationAsserted => "ChangeRevisionRelationAsserted"
  | ChangeRevisionRelationWithdrawn => "ChangeRevisionRelationWithdrawn"
  | RevisionRelationAttested => "RevisionRelationAttested"
  | ReviewFactPorted => "ReviewFactPorted"
  end.

Definition REGISTRY : list (EventType * string) :=
  [(ReviewInitialized, "t:01"); (WorkObjectProposed, "t:02");
   (ReviewObservationRecorded, "t:03"); (ReviewAssessmentRecorded, "t:04");
   (InputRequestOpened, "t:05"); (InputRequestResponded, "t:06");
   (ReviewNoteImported, "t:07"); (RevisionRefAssociated, "t:08");
   (RevisionRefWithdrawn, "t:09"); (RevisionCommitAssociated, "t:10");
   (RevisionCommitWithdrawn, "t:11"); (ValidationCheckRecorded, "t:12");
   (TaskCheckpointCaptured, "t:13"); (TaskObservationRecorded, "t:14");
   (EventSignatureRecorded, "t:15"); (ArtifactRemoved, "t:16");
   (ChangeDeclared, "t:17"); (ChangeMembershipAsserted, "t:18");
   (ChangeMembershipWithdrawn, "t:19"); (ChangeLinkAsserted, "t:20");
   (ChangeRevisionRelationAsserted, "t:21"); (ChangeRevisionRelationWithdrawn, "t:22");
   (RevisionRelationAttested, "t:23"); (ReviewFactPorted, "t:24")].

(** [iter().find_map(..)]. *)
Fixpoint find_map {A B} (f : A → option B) (l : list A) : option B :=
  match l with
  | [] => None
  | a :: l => match f a with Some b => Some b | None => find_map f l end
  end.

(** The [expect] of [type_code] is on a registry without gaps; [C30] shows it. *)
Definition type_code_opt (ty : EventType) : option string :=
  find_map (λ e, if bool_decide (e.1 = ty) then Some e.2 else None) REGISTRY.

Definition type_code (ty : EventType) : string := default EmptyString (type_code_opt ty).

Definition event_type_from_code (code : string) : option EventType :=
  find_map (λ e, if String.eqb e.2 code then Some e.1 else None) REGISTRY.

(** ** Subjects ([model/revision.rs], [model/work_object.rs], [subject_id.rs]) *)

Inductive Side := Old | New.

Inductive ReviewTargetRef :=
| TRevision (revision_id : RevisionId)
| TFile (revision_id : RevisionId) (file_path : string)
| TRange (revision_id : RevisionId) (file_path : string) (side : Side) (start_line end_line : N)
| TObservation (revision_id : RevisionId) (observation_id : ObservationId)
| TInputRequest (revision_id : RevisionId) (input_request_id : InputRequestId)
| TAssessment (revision_id : RevisionId) (assessment_id : AssessmentId)
| TEvent (revision_id : RevisionId) (event_id : EventId).

Inductive WorkObjectType := WRevision | WTaskAttempt.
Inductive EngagementType := EReview | ETask.

Inductive TaskTargetRef :=
| TaskAttempt (task_attempt_id : WorkObjectId)
| Checkpoint (checkpoint_id : CheckpointId).

Inductive TargetRef :=
| TargetJournal
| TargetReview (review : ReviewTargetRef)
| TargetTask (task : TaskTargetRef).

#[export] Instance Side_eq_dec : EqDecision Side.
Proof. solve_decision. Defined.
#[export] Instance ReviewTargetRef_eq_dec : EqDecision ReviewTargetRef.
Proof. solve_decision. Defined.
#[export] Instance EngagementType_eq_dec : EqDecision EngagementType.
Proof. solve_decision. Defined.
#[export] Instance TaskTargetRef_eq_dec : EqDecision TaskTargetRef.
Proof. solve_decision. Defined.

Definition engagement_type_of_subject (subject : TargetRef) : option EngagementType :=
  match subject with
  | TargetJournal => None
  | TargetReview _ => Some EReview
  | TargetTask _ => Some ETask
  end.

Definition work_object_type_of_subject (subject : TargetRef) : option WorkObjectType :=
  match subject with
  | TargetJournal => None
  | TargetReview _ => Some WRevision
  | TargetTask _ => Some WTaskAttempt
  end.

(** [projection/change.rs] has the same match. *)
Definition review_target_revision (target : ReviewTargetRef) : RevisionId :=
  match target with
  | TRevision r | TFile r _ | TRange r _ _ _ _ | TObservation r _ | TInputRequest r _
  | TAssessment r _ | TEvent r _ => r
  end.

Definition subject_revision_id (subject : TargetRef) : option RevisionId :=
  match subject with
  | TargetReview review => Some (review_target_revision review)
  | TargetTask _ | TargetJournal => None
  end.

#[export] Instance Side_Serialize : Serialize Side := λ s,
  JString match s with Old => "old" | New => "new" end.
#[export] Instance N_Serialize : Serialize N := λ n, json_uint (Z.of_N n).

#[export] Instance ReviewTargetRef_Serialize : Serialize ReviewTargetRef := λ t,
  match t with
  | TRevision r => JObject [("kind", to_json "revision"); ("revisionId", to_json r)]
  | TFile r p =>
      JObject [("kind", to_json "file"); ("revisionId", to_json r); ("filePath", to_json p)]
  | TRange r p s a b =>
      JObject [("kind", to_json "range"); ("revisionId", to_json r); ("filePath", to_json p);
               ("side", to_json s); ("startLine", to_json a); ("endLine", to_json b)]
  | TObservation r o =>
      JObject [("kind", to_json "observation"); ("revisionId", to_json r);
               ("observationId", to_json o)]
  | TInputRequest r i =>
      JObject [("kind", to_json "input_request"); ("revisionId", to_json r);
               ("inputRequestId", to_json i)]
  | TAssessment r a =>
      JObject [("kind", to_json "assessment"); ("revisionId", to_json r);
               ("assessmentId", to_json a)]
  | TEvent r e =>
      JObject [("kind", to_json "event"); ("revisionId", to_json r); ("eventId", to_json e)]
  end.

#[export] Instance TaskTargetRef_Serialize : Serialize TaskTargetRef := λ t,
  match t with
  | TaskAttempt id =>
      JObject [("kind", to_json "task_attempt"); ("taskAttemptId", to_json id)]
  | Checkpoint id =>
      JObject [("kind", to_json "checkpoint"); ("checkpointId", to_json id)]
  end.

(** [object.remove(key)] where the value is an object. *)
Definition json_remove (key : string) (v : json) : json :=
  match v with
  | JObject o => JObject (List.filter (λ p, negb (String.eqb p.1 key)) o)
  | _ => v
  end.

(** The digested material of a subject, without the kind tag. *)
Definition subject_material (subject : TargetRef) : option json :=
  match subject with
  | TargetJournal => None
  | TargetReview review => Some (json_remove "kind" (to_json review))
  | TargetTask task => Some (json_remove "kind" (to_json task))
  end.

Definition SUBJECT : string := "subject".
Definition EVENT : string := "evt".

Section subjects.
Context `{Digest}.

Definition subject_id (subject : TargetRef) : result (option string) :=
  match subject_material subject with
  | None => Ok None
  | Some material =>
      let? digest := sha256_json_prefixed material in
      Ok (Some (SUBJECT +:+ ":" +:+ digest))
  end.

Definition review_subject_id (target : ReviewTargetRef) : result string :=
  let? id := subject_id (TargetReview target) in
  ok_or id (Message "a review subject must have an opaque subject id").
End subjects.

(** ** Targets ([target.rs]) *)

Record EventTarget := {
  et_journal_id : JournalId;
  et_subject_id : option string;
  et_track_id : option TrackId
}.

#[export] Instance EventTarget_eq_dec : EqDecision EventTarget.
Proof. solve_decision. Defined.

(** A field with [skip_serializing_if = "Option::is_none"]. *)
Definition opt_field {A} `{Serialize A} (key : string) (o : option A) : list (string * json) :=
  match o with Some a => [(key, to_json a)] | None => [] end.

#[export] Instance EventTarget_Serialize : Serialize EventTarget := λ t,
  JObject (("journalId", to_json (et_journal_id t)) ::
    opt_field "subjectId" (et_subject_id t) ++ opt_field "trackId" (et_track_id t)).

Definition EngagementType_debug (e : EngagementType) : string :=
  match e with EReview => "Review" | ETask => "Task" end.

Definition option_debug (o : option string) : string :=
  match o with Some s => "Some(" +:+ s +:+ ")" | None => "None" end.

Section targets.
Context `{Digest}.

Definition for_subject (journal_id : JournalId) (subject : TargetRef) (track_id : option TrackId)
    : result EventTarget :=
  let? subject_id := subject_id subject in
  Ok {| et_journal_id := journal_id; et_subject_id := subject_id; et_track_id := track_id |}.

Definition for_journal (journal_id : JournalId) : EventTarget :=
  {| et_journal_id := journal_id; et_subject_id := None; et_track_id := None |}.

Definition for_generative_move (journal_id : JournalId) (engagement_type : EngagementType)
    (subject : TargetRef) (track_id : option TrackId) : result EventTarget :=
  let other := engagement_type_of_subject subject in
  if bool_decide (other = Some engagement_type) then for_subject journal_id subject track_id
  else Err (Message ("generative move domain mismatch: a " +:+
    EngagementType_debug engagement_type +:+ " engagement cannot address a " +:+
    option_debug (EngagementType_debug <$> other) +:+ " subject")).

Definition for_revision (journal_id : JournalId) (revision_id : RevisionId)
    (track_id : option TrackId) : result EventTarget :=
  for_subject journal_id (TargetReview (TRevision revision_id)) track_id.
End targets.

(** ** The envelope ([mod.rs], [writer.rs], [assertion.rs], [provenance.rs], [source.rs],
    [signature.rs]) *)

Inductive AssertionMode := Advisory | Operative.

#[export] Instance AssertionMode_eq_dec : EqDecision AssertionMode.
Proof. solve_decision. Defined.

#[export] Instance AssertionMode_Serialize : Serialize AssertionMode := λ m,
  JString match m with Advisory => "advisory" | Operative => "operative" end.

Record WriterProducer := { wp_name : string; wp_version : string }.
Record Writer := { w_actor_id : ActorId; w_producer : WriterProducer }.

#[export] Instance WriterProducer_Serialize : Serialize WriterProducer := λ p,
  JObject [("name", to_json (wp_name p)); ("version", to_json (wp_version p))].
#[export] Instance Writer_Serialize : Serialize Writer := λ w,
  JObject [("actorId", to_json (w_actor_id w)); ("producer", to_json (w_producer w))].

Definition shore_local (version : string) : Writer :=
  {| w_actor_id := "actor:local"; w_producer := {| wp_name := "shore"; wp_version := version |} |}.

Record EventSignature := {
  es_alg : string;
  es_sig_version : N;
  es_sig : EventSignatureBytes
}.

Definition ED25519_SIGNATURE_ALG : string := "ed25519".
Definition EVENT_SIGNATURE_VERSION_V1 : N := 1.

Definition ed25519_v1 (sig : EventSignatureBytes) : EventSignature :=
  {| es_alg := ED25519_SIGNATURE_ALG; es_sig_version := EVENT_SIGNATURE_VERSION_V1;
     es_sig := sig |}.

Record SourceRef := { sr_source_system : string; sr_source_id : string }.

Inductive IngestVia := IngestEvents | BundleApply.
Record IngestProvenance := { ip_via : IngestVia; ip_received_at : string }.

Record ShoreEvent := {
  ev_schema : string;
  ev_version : N;
  ev_event_id : EventId;
  ev_event_type : EventType;
  ev_idempotency_key : string;
  ev_target : EventTarget;
  ev_writer : Writer;
  ev_occurred_at : string;
  ev_payload_hash : string;
  ev_assertion_mode : AssertionMode;
  ev_signer : option SignerId;
  ev_signature : option EventSignature;
  ev_source_ref : option SourceRef;
  ev_ingest : option IngestProvenance;
  ev_content_encoding : list string;
  ev_payload_version : N;
  ev_payload : json
}.

Definition EVENT_SCHEMA : string := "shore.event".
Definition EVENT_VERSION : N := 1.

Definition default_assertion_mode (ty : EventType) : AssertionMode :=
  match ty with ReviewAssessmentRecorded => Operative | _ => Advisory end.

Definition default_payload_version : N := 1.

(** [ShoreEvent::with_assertion_mode]. *)
Definition with_assertion_mode (mode : AssertionMode) (e : ShoreEvent) : ShoreEvent :=
  {| ev_schema := ev_schema e; ev_version := ev_version e; ev_event_id := ev_event_id e;
     ev_event_type := ev_event_type e; ev_idempotency_key := ev_idempotency_key e;
     ev_target := ev_target e; ev_writer := ev_writer e; ev_occurred_at := ev_occurred_at e;
     ev_payload_hash := ev_payload_hash e; ev_assertion_mode := mode; ev_signer := ev_signer e;
     ev_signature := ev_signature e; ev_source_ref := ev_source_ref e; ev_ingest := ev_ingest e;
     ev_content_encoding := ev_content_encoding e; ev_payload_version := ev_payload_version e;
     ev_payload := ev_payload e |}.

(** [event.ingest = Some(provenance)]. *)
Definition with_ingest (p : IngestProvenance) (e : ShoreEvent) : ShoreEvent :=
  {| ev_schema := ev_schema e; ev_version := ev_version e; ev_event_id := ev_event_id e;
     ev_event_type := ev_event_type e; ev_idempotency_key := ev_idempotency_key e;
     ev_target := ev_target e; ev_writer := ev_writer e; ev_occurred_at := ev_occurred_at e;
     ev_payload_hash := ev_payload_hash e; ev_assertion_mode := ev_assertion_mode e;
     ev_signer := ev_signer e; ev_signature := ev_signature e; ev_source_ref := ev_source_ref e;
     ev_ingest := Some p; ev_content_encoding := ev_content_encoding e;
     ev_payload_version := ev_payload_version e; ev_payload := ev_payload e |}.

Definition stamp_ingest_provenance (events : list ShoreEvent) (via : IngestVia)
    (received_at : string) : list ShoreEvent :=
  with_ingest {| ip_via := via; ip_received_at := received_at |} <$> events.

Definition validate_schema_version (e : ShoreEvent) : result unit :=
  if String.eqb (ev_schema e) EVENT_SCHEMA && (ev_version e =? EVENT_VERSION)%N then Ok ()
  else Err (UnsupportedEventSchemaVersion (ev_schema e) (Z.of_N (ev_version e))).

Section envelope.
Context `{Digest}.

Definition event_id_for_idempotency_key (idempotency_key : string) : EventId :=
  EVENT +:+ ":sha256:" +:+ sha256_bytes_hex idempotency_key.

(** [ShoreEvent::new]; the payload is its event type and its document. *)
Definition ShoreEvent_new (event_type : EventType) (idempotency_key : string)
    (target : EventTarget) (writer : Writer) (payload_type : EventType) (payload : json)
    (occurred_at : string) : result ShoreEvent :=
  if negb (bool_decide (event_type = payload_type)) then
    Err (InvalidEvent ("payload type " +:+ EventType_debug payload_type +:+
      " does not match event type " +:+ EventType_debug event_type))
  else if String.eqb (trim idempotency_key) EmptyString then
    Err (InvalidEvent "idempotencyKey cannot be empty")
  else
    let? payload_hash := sha256_json_prefixed payload in
    Ok {| ev_schema := EVENT_SCHEMA; ev_version := EVENT_VERSION;
          ev_event_id := event_id_for_idempotency_key idempotency_key;
          ev_event_type := event_type; ev_idempotency_key := idempotency_key;
          ev_target := target; ev_writer := writer; ev_occurred_at := occurred_at;
          ev_payload_hash := payload_hash; ev_assertion_mode := default_assertion_mode event_type;
          ev_signer := None; ev_signature := None; ev_source_ref := None; ev_ingest := None;
          ev_content_encoding := []; ev_payload_version := default_payload_version;
          ev_payload := payload |}.
End envelope.

(** ** Record hash and signing view ([record_hash.rs], [tbs.rs]) *)

(** [EventRecordView::from_event], serialised. *)
Definition record_view (e : ShoreEvent) : json :=
  JObject [("schema", to_json (ev_schema e)); ("version", to_json (ev_version e));
    ("eventId", to_json (ev_event_id e)); ("eventType", to_json (type_code (ev_event_type e)));
    ("idempotencyKey", to_json (ev_idempotency_key e)); ("target", to_json (ev_target e));
    ("writer", to_json (ev_writer e)); ("occurredAt", to_json (ev_occurred_at e));
    ("payloadHash", to_json (ev_payload_hash e));
    ("assertionMode", to_json (ev_assertion_mode e)); ("payload", ev_payload e)].

Record EventToBeSigned := {
  tbs_schema : string;
  tbs_version : N;
  tbs_event_type : string;
  tbs_event_id : string;
  tbs_payload_hash : string;
  tbs_target : EventTarget;
  tbs_actor_id : string;
  tbs_signer : SignerId;
  tbs_occurred_at : string;
  tbs_assertion_mode : AssertionMode
}.

#[export] Instance EventToBeSigned_Serialize : Serialize EventToBeSigned := λ t,
  JObject [("schema", to_json (tbs_schema t)); ("version", to_json (tbs_version t));
    ("eventType", to_json (tbs_event_type t)); ("eventId", to_json (tbs_event_id t));
    ("payloadHash", to_json (tbs_payload_hash t)); ("target", to_json (tbs_target t));
    ("actorId", to_json (tbs_actor_id t)); ("signer", to_json (tbs_signer t));
    ("occurredAt", to_json (tbs_occurred_at t));
    ("assertionMode", to_json (tbs_assertion_mode t))].

Definition tbs_from_event (e : ShoreEvent) (signer : SignerId) : result EventToBeSigned :=
  let? _ := validate_schema_version e in
  Ok {| tbs_schema := ev_schema e; tbs_version := ev_version e;
        tbs_event_type := type_code (ev_event_type e); tbs_event_id := ev_event_id e;
        tbs_payload_hash := ev_payload_hash e; tbs_target := ev_target e;
        tbs_actor_id := w_actor_id (ev_writer e); tbs_signer := signer;
        tbs_occurred_at := ev_occurred_at e; tbs_assertion_mode := ev_assertion_mode e |}.

Definition EVENT_TO_BE_SIGNED_V1_PAYLOAD_TYPE : string :=
  "application/vnd.shore.event-tbs.v1+json".

(** [usize::to_string]. *)
Definition len_text (s : string) : string := dec_nonneg (Z.of_nat (String.length s)).

Definition pre_authentication_encoding (payload_type body : string) : string :=
  "DSSEv1 " +:+ len_text payload_type +:+ " " +:+ payload_type +:+ " " +:+ len_text body +:+
  " " +:+ body.

Section signing.
Context `{Digest}.

Definition event_record_hash (e : ShoreEvent) : result string :=
  sha256_json_prefixed (record_view e).

Definition tbs_canonical_bytes (t : EventToBeSigned) : result string :=
  canonical_json_bytes (to_json t).

Definition event_signature_pre_authentication_encoding (t : EventToBeSigned) : result string :=
  let? bytes := tbs_canonical_bytes t in
  Ok (pre_authentication_encoding EVENT_TO_BE_SIGNED_V1_PAYLOAD_TYPE bytes).
End signing.

Record EffectiveSignerError := { ese_status : EventVerificationStatus; ese_reason : string }.

Definition signer_unsigned (reason : string) : EffectiveSignerError :=
  {| ese_status := Unsigned; ese_reason := reason |}.
Definition signer_invalid (reason : string) : EffectiveSignerError :=
  {| ese_status := Invalid; ese_reason := reason |}.

(** [Display] of the errors ([src/src/error.rs]). *)
Definition SchemaBreakRecord_display (r : SchemaBreakRecord) : string :=
  retired r +:+ " is no longer supported (broken at " +:+ broken_at r +:+ "); see " +:+ anchor r.

Definition JournalUnavailable_display (j : JournalUnavailable) : string :=
  "journal_unavailable: the NTFS change journal is not active on volume " +:+ ju_volume j +:+
  " (os error " +:+ dec (ju_os_error j) +:+
  "), so derived access cannot prove authority on it; an administrator can create one with `fsutil usn createjournal m=<size> a=<delta> " +:+
  ju_volume j +:+
  "`, or set POINTBREAK_DERIVED_ACCESS=off to use authoritative reads (slower but correct); Pointbreak never creates a journal".

Definition ShoreError_display (e : ShoreError) : string :=
  match e with
  | Message m => m
  | Json m => "json parse failed: " +:+ m
  | GitCommand command status stdout stderr =>
      let nl := String "010"%char EmptyString in
      "git command failed: " +:+ command +:+ nl +:+ "status: " +:+ status +:+ nl +:+ "stdout:" +:+
      nl +:+ stdout +:+ nl +:+ "stderr:" +:+ nl +:+ stderr
  | InvalidEvent message => "invalid event: " +:+ message
  | UnsupportedEventSchemaVersion schema version =>
      "unsupported event schema/version: " +:+ schema +:+ " v" +:+ dec version
  | UnsupportedEventType r => "unsupported event type: " +:+ SchemaBreakRecord_display r
  | UnsupportedEventEnvelope r => "unsupported event envelope: " +:+ SchemaBreakRecord_display r
  | UnsupportedStateSchemaVersion schema version =>
      "unsupported state schema/version: " +:+ schema +:+ " v" +:+ dec version
  | WorkflowInputInvalid reason => reason
  | CaptureProposalConflict revision_id =>
      "capture proposal for revision " +:+ revision_id +:+
      " conflicts with the proposal already visible to this writer; create a genuinely new content state before retrying with different capture metadata"
  | EventVerificationRejected event_id status =>
      "event signature verification rejected event " +:+ event_id +:+ " with status " +:+
      EventVerificationStatus_as_str status
  | UnknownClaudeSessionLineType line kind =>
      "unknown claude code session line type `" +:+ kind +:+ "` at line " +:+ dec line
  | JournalUnavailableError journal => JournalUnavailable_display journal
  | Panicked message => message
  end.

Section effective_signer.
Context `{Primitives}.

Definition resolve_effective_signer (e : ShoreEvent) : Result EffectiveSignerError SignerId :=
  match ev_signature e with
  | None => Err (signer_unsigned "event is unsigned")
  | Some _ =>
      match ev_signer e with
      | Some signer => Ok signer
      | None =>
          map_err (λ _, signer_invalid "signed friendly actor event is missing signer")
            (SignerId_parse (w_actor_id (ev_writer e)))
      end
  end.

Definition event_to_be_signed (e : ShoreEvent) : Result EffectiveSignerError EventToBeSigned :=
  let? signer := resolve_effective_signer e in
  map_err (λ error, signer_invalid (ShoreError_display error)) (tbs_from_event e signer).
End effective_signer.

(** ** Serialisation *)

Lemma json_uint_inj a b : (0 <= a)%Z → (0 <= b)%Z → json_uint a = json_uint b → a = b.
Proof.
  intros Ha Hb [= Heq]. apply dec_nonneg_value in Ha, Hb. congruence.
Qed.

Lemma number_equiv a b : json_equiv (JNumber a) (JNumber b) → a = b.
Proof. intros Heq. by inversion Heq. Qed.

#[export] Instance N_SerializeLaws : SerializeLaws N.
Proof.
  split; [intros n; apply wf_number|]. intros a b Heq. unfold to_json, N_Serialize in Heq.
  apply number_equiv in Heq. apply N2Z.inj, json_uint_inj; [lia..|]. unfold json_uint. congruence.
Qed.

#[export] Instance Side_SerializeLaws : SerializeLaws Side.
Proof. split; [constructor|]. by intros [] [] Heq; inversion Heq. Qed.

#[export] Instance AssertionMode_SerializeLaws : SerializeLaws AssertionMode.
Proof. split; [constructor|]. by intros [] [] Heq; inversion Heq. Qed.

#[export] Instance WriterProducer_SerializeLaws : SerializeLaws WriterProducer.
Proof.
  split.
  - intros p. unfold to_json, WriterProducer_Serialize. json_wf_literal.
  - intros [a b] [c d] Heq. unfold to_json at 1 2, WriterProducer_Serialize in Heq.
    cbn [wp_name wp_version] in Heq. json_fields Heq. by subst.
Qed.

#[export] Instance Writer_SerializeLaws : SerializeLaws Writer.
Proof.
  split.
  - intros p. unfold to_json, Writer_Serialize. json_wf_literal.
  - intros [a b] [c d] Heq. unfold to_json at 1 2, Writer_Serialize in Heq.
    cbn [w_actor_id w_producer] in Heq. json_fields Heq. by subst.
Qed.

(** An optional field is present on both sides or on neither. *)
Lemma equiv_opt_field {A} `{SerializeLaws A} o o' k (a b : option A) :
  json_equiv (JObject o) (JObject o') → json_entry o k = to_json <$> a →
  json_entry o' k = to_json <$> b → a = b.
Proof.
  intros Heq Ha Hb. destruct a as [a|], b as [b|]; cbn in Ha, Hb; [| | |done].
  - f_equal. eapply to_json_inj, equiv_field; done.
  - inversion Heq as [|?|? ? H1 H2]; subst; [congruence|].
    destruct (H1 k _ Ha) as (? & ? & _). congruence.
  - inversion Heq as [|?|? ? H1 H2]; subst; [congruence|].
    destruct (H2 k _ Hb) as (? & ? & _). congruence.
Qed.

#[export] Instance EventTarget_SerializeLaws : SerializeLaws EventTarget.
Proof.
  split.
  - intros [j [s|] [t|]]; unfold to_json, EventTarget_Serialize;
      cbn [et_journal_id et_subject_id et_track_id opt_field app]; json_wf_literal.
  - intros [j s t] [j' s' t'] Heq. unfold to_json at 1 2, EventTarget_Serialize in Heq.
    cbn [et_journal_id et_subject_id et_track_id] in Heq.
    assert (∀ k (x y : option string), json_entry (opt_field "subjectId" x ++ opt_field "trackId" y) k =
      (if String.eqb "subjectId" k then to_json <$> x else None) ∪
      (if String.eqb "trackId" k then to_json <$> y else None)) as Hent.
    { intros k [x|] [y|]; cbn [opt_field app json_entry fmap option_fmap option_map];
        repeat (destruct (String.eqb _ k); try done). }
    f_equal.
    + by pose proof (equiv_field _ _ "journalId" _ _ Heq eq_refl eq_refl) as E%to_json_inj.
    + eapply (equiv_opt_field _ _ "subjectId"); [exact Heq| |];
        cbn [json_entry]; rewrite Hent; cbn; by destruct (_ <$> _).
    + eapply (equiv_opt_field _ _ "trackId"); [exact Heq| |];
        cbn [json_entry]; rewrite Hent; cbn; by destruct (_ <$> _).
Qed.

#[export] Instance EventToBeSigned_SerializeLaws : SerializeLaws EventToBeSigned.
Proof.
  split.
  - intros t. unfold to_json, EventToBeSigned_Serialize. json_wf_literal.
  - intros t t' Heq. unfold to_json at 1 2, EventToBeSigned_Serialize in Heq. json_fields Heq.
    destruct t, t'; cbn in *; congruence.
Qed.

(** ** Properties *)

(** The code registry is a bijection: every family has a code (the lookup never
    panics), decoding a family's code gives the family back, and no other string
    decodes to it. *)
Theorem type_codes_bijective :
  (∀ ty, type_code_opt ty = Some (type_code ty) ∧ event_type_from_code (type_code ty) = Some ty) ∧
  (∀ code ty, event_type_from_code code = Some ty → code = type_code ty).
Proof.
  split; [by intros []|]. intros code ty. unfold event_type_from_code, REGISTRY.
  cbn [find_map fst snd].
  repeat match goal with
  | |- context [String.eqb ?c code] =>
      destruct (String.eqb_spec c code) as [<-|_]; [by intros [= <-]|]
  end.
  done.
Qed.

Lemma len_text_no_space s : contains_char " " (len_text s) = false.
Proof.
  unfold len_text. eapply all_bytes_contains; [apply dec_nonneg_digits; lia|done].
Qed.

Lemma len_text_inj s t : len_text s = len_text t → String.length s = String.length t.
Proof.
  unfold len_text. intros Heq.
  pose proof (dec_nonneg_value (Z.of_nat (String.length s)) ltac:(lia)) as Hs.
  pose proof (dec_nonneg_value (Z.of_nat (String.length t)) ltac:(lia)) as Ht.
  rewrite Heq in Hs. rewrite Ht in Hs. injection Hs. lia.
Qed.

(** A length, a space and a text of that length in front of a rest are read back. *)
Lemma framed_inj s t r r' :
  len_text s +:+ " " +:+ s +:+ r = len_text t +:+ " " +:+ t +:+ r' → s = t ∧ r = r'.
Proof.
  intros Heq. pose proof (split_once_append " " (len_text s) (s +:+ r) (len_text_no_space s)) as Hs.
  pose proof (split_once_append " " (len_text t) (t +:+ r') (len_text_no_space t)) as Ht.
  cbn [String.append] in Heq. rewrite Heq, Ht in Hs. injection Hs as Hl Hr.
  symmetry in Hl. apply len_text_inj in Hl. by apply append_inj_len in Hr as [-> ->].
Qed.

Lemma Ok_eq {E A} (a b : A) : @Ok E A a = Ok b → a = b.
Proof. congruence. Qed.

Lemma pae_inj t b t' b' :
  pre_authentication_encoding t b = pre_authentication_encoding t' b' → t = t' ∧ b = b'.
Proof.
  unfold pre_authentication_encoding. intros Heq%append_inj_l.
  apply framed_inj in Heq as [-> Heq]. apply append_inj_l in Heq.
  split; [done|]. apply (framed_inj b b' EmptyString EmptyString). by rewrite !append_nil_r.
Qed.

(** The pre-authentication encoding is injective: the signed bytes determine
    both the payload type and the body. *)
Theorem pre_authentication_encoding_injective t b t' b' :
  pre_authentication_encoding t b = pre_authentication_encoding t' b' → t = t' ∧ b = b'.
Proof. apply pae_inj. Qed.

Lemma pre_authentication_encoding_injective_witness :
  "a" = "a" ∧ "x y" = "x y".
Proof. apply (pre_authentication_encoding_injective "a" "x y" "a" "x y"). reflexivity. Defined.

Section signing_properties.
Context `{DigestLaws}.

Lemma canonical_bytes_inj t t' :
  tbs_canonical_bytes t = tbs_canonical_bytes t' → t = t'.
Proof.
  unfold tbs_canonical_bytes, canonical_json_bytes.
  set (d := to_json t). set (d' := to_json t'). intros Heq.
  assert (json_text (canonical_json_value d) = json_text (canonical_json_value d')) as E by congruence.
  apply json_text_inj, canonical_eq_equiv in E; [by apply to_json_inj|apply to_json_wf..].
Qed.

Lemma type_code_inj a b : type_code a = type_code b → a = b.
Proof.
  intros Heq. assert (∀ ty, event_type_from_code (type_code ty) = Some ty) as H1 by by intros [].
  pose proof (H1 a) as Ha. rewrite Heq, H1 in Ha. by injection Ha.
Qed.

(** C36. A producer signature covers what it should: when the bytes signed for two
    events agree, the events have the same id, family, payload hash, target, actor,
    signer, time and assertion mode; and if both payload hashes are genuine, also
    the same payload up to the order of object entries, or the two payloads collide. *)
Theorem signed_bytes_bind_event e e' signer signer' t t' :
  tbs_from_event e signer = Ok t → tbs_from_event e' signer' = Ok t' →
  event_signature_pre_authentication_encoding t = event_signature_pre_authentication_encoding t' →
  (ev_event_id e = ev_event_id e' ∧ ev_event_type e = ev_event_type e' ∧
   ev_payload_hash e = ev_payload_hash e' ∧ ev_target e = ev_target e' ∧
   w_actor_id (ev_writer e) = w_actor_id (ev_writer e') ∧ signer = signer' ∧
   ev_occurred_at e = ev_occurred_at e' ∧ ev_assertion_mode e = ev_assertion_mode e') ∧
  (json_wf (ev_payload e) → json_wf (ev_payload e') →
   sha256_json_prefixed (ev_payload e) = Ok (ev_payload_hash e) →
   sha256_json_prefixed (ev_payload e') = Ok (ev_payload_hash e') →
   json_equiv (ev_payload e) (ev_payload e') ∨ json_collision (ev_payload e) (ev_payload e')).
Proof.
  intros (? & _ & Ht)%bind_Ok (? & _ & Ht')%bind_Ok Hpae.
  assert (t = t') as Htt.
  { apply canonical_bytes_inj. unfold event_signature_pre_authentication_encoding in Hpae.
    unfold tbs_canonical_bytes, canonical_json_bytes in *. cbn [rbind] in Hpae.
    apply Ok_eq, pae_inj in Hpae as [_ E]. by rewrite E. }
  subst t'. rewrite <- Ht in Ht'.
  injection Ht' as E1 E2 E3 E4 E5 E6 E7 E8 E9 E10. apply type_code_inj in E3.
  split; [done|]. intros Hw Hw' Hh Hh'. rewrite sha256_json_prefixed_Ok in Hh, Hh'.
  apply json_digest_binding; [done..|]. congruence.
Qed.

Lemma record_view_wf e : json_wf (ev_payload e) → json_wf (record_view e).
Proof.
  intros Hp. unfold record_view. apply wf_object;
    [cbn; apply (bool_decide_unpack _); vm_compute; exact I|]. cbn.
  repeat (apply List.Forall_cons); [apply to_json_wf..|done|constructor].
Qed.

(** The facts an event states, apart from its signature and its storage. *)
Definition same_fact (e e' : ShoreEvent) : Prop :=
  ev_schema e = ev_schema e' ∧ ev_version e = ev_version e' ∧ ev_event_id e = ev_event_id e' ∧
  ev_event_type e = ev_event_type e' ∧ ev_idempotency_key e = ev_idempotency_key e' ∧
  ev_target e = ev_target e' ∧ ev_writer e = ev_writer e' ∧
  ev_occurred_at e = ev_occurred_at e' ∧ ev_payload_hash e = ev_payload_hash e' ∧
  ev_assertion_mode e = ev_assertion_mode e' ∧ json_equiv (ev_payload e) (ev_payload e').

Lemma same_fact_view e e' : same_fact e e' → json_equiv (record_view e) (record_view e').
Proof.
  intros (E1 & E2 & E3 & E4 & E5 & E6 & E7 & E8 & E9 & E10 & E11). unfold record_view.
  rewrite E1, E2, E3, E4, E5, E6, E7, E8, E9, E10.
  apply equiv_object; intros k v; cbn [json_entry];
    repeat (destruct (String.eqb _ k); [intros [= <-]; eexists; split; [reflexivity|];
      first [exact E11|apply equiv_refl]|]); done.
Qed.

(** The record hash is the identity of the fact: it is the same for events that
    state the same fact, whatever their signature, source, ingest stamp and storage
    encoding, so stamping an import never changes it; and events with one record
    hash state the same fact, unless their record documents collide. *)
Theorem record_hash_identifies e e' (Hw : json_wf (ev_payload e)) (Hw' : json_wf (ev_payload e')) :
  (same_fact e e' → event_record_hash e = event_record_hash e') ∧
  (event_record_hash e = event_record_hash e' →
    same_fact e e' ∨ json_collision (record_view e) (record_view e')) ∧
  (∀ via at_, event_record_hash <$> stamp_ingest_provenance [e; e'] via at_ =
    [event_record_hash e; event_record_hash e']).
Proof.
  pose proof (record_view_wf e Hw) as W. pose proof (record_view_wf e' Hw') as W'.
  unfold event_record_hash. rewrite !sha256_json_prefixed_Ok. split_and!.
  - intros Hs%same_fact_view. f_equal. unfold json_digest.
    by rewrite (equiv_canonical_eq _ _ W W' Hs).
  - intros Hd%Ok_eq.
    apply json_digest_binding in Hd as [Hv|?]; [|by right|done..]. left.
    unfold record_view in Hv. json_fields Hv. unfold same_fact.
    split_and!; try done. by apply type_code_inj.
  - done.
Qed.
End signing_properties.

(** ** Subject identity *)

Definition has_key (o : list (string * json)) (k : string) : bool :=
  match json_entry o k with Some _ => true | None => false end.

Lemma equiv_has_key o o' k :
  json_equiv (JObject o) (JObject o') → has_key o k = has_key o' k.
Proof.
  intros Heq. unfold has_key. inversion Heq as [|?|? ? H1 H2]; subst; [done|].
  destruct (json_entry o k) eqn:E, (json_entry o' k) eqn:E'; try done.
  - destruct (H1 k _ E) as (? & ? & _). congruence.
  - destruct (H2 k _ E') as (? & ? & _). congruence.
Qed.

(** The keys that tell the kinds of subjects apart once the tag is gone. *)
Definition subject_keys : list string :=
  ["filePath"; "side"; "observationId"; "inputRequestId"; "assessmentId"; "eventId";
   "taskAttemptId"; "checkpointId"].

Lemma equiv_shape o o' :
  json_equiv (JObject o) (JObject o') → has_key o <$> subject_keys = has_key o' <$> subject_keys.
Proof. intros Heq. apply list_fmap_ext. intros i k _. by apply equiv_has_key. Qed.

Lemma subject_material_inj s s' m m' :
  subject_material s = Some m → subject_material s' = Some m' →
  json_wf m ∧ json_wf m' ∧ (json_equiv m m' → s = s').
Proof.
  intros Hs Hs'.
  assert (∀ s m, subject_material s = Some m → json_wf m) as Hwf.
  { intros u n Hu. destruct u as [|[]|[]]; [done|..]; injection Hu as <-;
      unfold json_remove, to_json at 1; cbn [List.filter negb String.eqb]; json_wf_literal. }
  split_and!; [eauto..|]. intros Heq.
  destruct s as [|[]|[]], s' as [|[]|[]]; cbn in Hs, Hs'; try discriminate;
    injection Hs as <-; injection Hs' as <-;
    first [discriminate (equiv_shape _ _ Heq)|json_fields Heq; by subst].
Qed.

Section subject_properties.
Context `{DigestLaws}.

(** Dropping the kind tag merges no subjects: two subjects with the same opaque
    id are the same subject, kind included, unless their hashed documents collide;
    only the journal carrier has no id. *)
Lemma subject_id_identifies s s' :
  (subject_id s = Ok None ↔ s = TargetJournal) ∧
  (∀ id, subject_id s = Ok (Some id) → subject_id s' = Ok (Some id) → s = s' ∨
    ∃ m m', subject_material s = Some m ∧ subject_material s' = Some m' ∧ json_collision m m').
Proof.
  unfold subject_id. split.
  - destruct s; split; try done.
  - intros id Hs Hs'. destruct (subject_material s) as [m|] eqn:E; [|done].
    destruct (subject_material s') as [m'|] eqn:E'; [|done].
    rewrite sha256_json_prefixed_Ok in Hs, Hs'. cbn [rbind] in Hs, Hs'.
    rewrite <- Hs' in Hs. apply Ok_eq in Hs.
    assert (SUBJECT +:+ ":" +:+ json_digest m = SUBJECT +:+ ":" +:+ json_digest m') as Hd.
    { set (a := SUBJECT +:+ ":" +:+ json_digest m) in *.
      set (b := SUBJECT +:+ ":" +:+ json_digest m') in *. congruence. }
    do 2 apply append_inj_l in Hd.
    destruct (subject_material_inj s s' m m' E E') as (W & W' & Hinj).
    apply json_digest_binding in Hd as [Hd|?]; [left; auto|right; eauto|done..].
Qed.
End subject_properties.

(** ** Witnesses *)

Definition example_event : ShoreEvent := {|
  ev_schema := EVENT_SCHEMA; ev_version := EVENT_VERSION; ev_event_id := "evt:sha256:0";
  ev_event_type := ReviewInitialized; ev_idempotency_key := "t:01:journal:default";
  ev_target := for_journal "journal:default"; ev_writer := shore_local "0.1";
  ev_occurred_at := "2025-01-01T00:00:00.000Z"; ev_payload_hash := "sha256:0";
  ev_assertion_mode := Advisory; ev_signer := Some "did:key:z1"; ev_signature := None;
  ev_source_ref := None; ev_ingest := None; ev_content_encoding := []; ev_payload_version := 1;
  ev_payload := JObject [] |}.

Lemma signed_bytes_bind_event_witness :
  ∃ t, tbs_from_event example_event "did:key:z1" = Ok t ∧
    ev_event_type example_event = ReviewInitialized ∧
    ev_payload_hash example_event = ev_payload_hash example_event.
Proof.
  eexists. split; [reflexivity|].
  pose proof (@signed_bytes_bind_event example_digest example_digest_laws example_event
    (with_ingest {| ip_via := BundleApply; ip_received_at := "now" |} example_event)
    "did:key:z1" "did:key:z1" _ _ eq_refl eq_refl eq_refl) as [(E1 & E2 & E3 & _) _].
  split; [exact E2|exact E3].
Defined.

Lemma record_hash_identifies_witness :
  @event_record_hash example_digest example_event =
  @event_record_hash example_digest
    (with_ingest {| ip_via := BundleApply; ip_received_at := "now" |} example_event).
Proof.
  apply (@record_hash_identifies example_digest example_digest_laws example_event
    (with_ingest {| ip_via := BundleApply; ip_received_at := "now" |} example_event)).
  - apply wf_object; constructor.
  - apply wf_object; constructor.
  - unfold same_fact. cbn. repeat (split; [reflexivity|]). apply equiv_refl.
Defined.

Lemma subject_id_identifies_witness :
  @subject_id example_digest TargetJournal = Ok None ∧
  @subject_id example_digest (TargetReview (TFile "rev:a" "src/lib.rs")) ≠ Ok None.
Proof.
  split; [reflexivity|]. intros E.
  apply (@subject_id_identifies example_digest example_digest_laws
    (TargetReview (TFile "rev:a" "src/lib.rs")) TargetJournal) in E. discriminate E.
Defined.
