(* ===== verification/Payloads.v ===== *)
(** * Event payloads ([src/src/session/event], [src/src/model/revision.rs])

    The payload records the projections read, and the decoder interface: turning an
    event's JSON payload into a record is generated code, so it is the class
    [Decoders]. *)

From S2P Require Import Prelude RustStr BTree Model CanonicalHash Crypto Events ChangeClaims Relations.

(** ** Revisions and work objects *)

Inductive ReviewEndpoint :=
| GitCommit (commit_oid tree_oid : string)
| GitTree (tree_oid : string)
| GitIndex (tree_oid : string)
| GitWorkingTree (worktree_root : string).

Inductive WorktreeCaptureMode := CombinedHeadToWorkingTree.
Inductive CommitRangeCaptureMode := BaseTreeToTargetTree.
Inductive RootCommitCaptureMode := EmptyTreeToTargetTree.
Inductive StagedCaptureMode := BaseTreeToIndexTree.
Inductive UnstagedCaptureMode := IndexTreeToWorkingTree.

Inductive RevisionSource :=
| GitWorktree (mode : WorktreeCaptureMode) (include_untracked : bool) (pathspecs : list string)
| GitCommitRange (mode : CommitRangeCaptureMode) (pathspecs : list string)
| GitRootCommit (mode : RootCommitCaptureMode) (pathspecs : list string)
| GitStaged (mode : StagedCaptureMode) (pathspecs : list string)
| GitUnstaged (mode : UnstagedCaptureMode) (include_untracked : bool) (pathspecs : list string).

Record GitProvenance := {
  gp_source : RevisionSource;
  gp_base : ReviewEndpoint;
  gp_target : ReviewEndpoint
}.

Record Revision := {
  rv_id : RevisionId;
  rv_object_id : ObjectId;
  rv_git_provenance : option GitProvenance
}.

Inductive SourceSpeaker := SpeakerUser | SpeakerAgent.

Inductive WorkObjectProposal :=
| ProposeRevision (revision : Revision) (summary : option string)
    (object_artifact_content_hash : string) (supersedes : list RevisionId)
| ProposeTaskAttempt (task_attempt_id : WorkObjectId)
    (project_path claude_session_uuid initial_prompt_hash : string)
    (predecessor : option WorkObjectId) (base_state_fingerprint : option string)
    (source_speaker : option SourceSpeaker).

Record WorkObjectProposedPayload := {
  wo_engagement_id : EngagementId;
  wo_work_object : WorkObjectProposal
}.

(** ** Assessments and input requests *)

Inductive BodyContentType := TextPlain | TextMarkdown.

Inductive ReviewAssessment := Accepted | AcceptedWithFollowUp | NeedsChanges | NeedsClarification.

#[export] Instance ReviewAssessment_eq_dec : EqDecision ReviewAssessment.
Proof. solve_decision. Defined.

Record ReviewAssessmentRecordedPayload := {
  ap_assessment_id : AssessmentId;
  ap_target : ReviewTargetRef;
  ap_assessment : ReviewAssessment;
  ap_summary : option string;
  ap_summary_content_type : BodyContentType;
  ap_summary_artifact_path : option string;
  ap_summary_byte_size : option N;
  ap_summary_content_hash : option string;
  ap_replaces_assessment_ids : list AssessmentId;
  ap_related_observation_ids : list ObservationId;
  ap_related_input_request_ids : list InputRequestId
}.

Inductive InputRequestReasonCode :=
| AmbiguousState | UnsafeAction | StaleRevision | FailedGate | ExternalSideEffect
| ConflictingEvent | MissingPermission | ManualDecisionRequired | InsufficientEvidence.

Inductive InputRequestResponseOutcome :=
| OApproved | ORejected | ODismissed | OSuperseded | OAbandoned.

Record InputRequestOpenedPayload := {
  io_input_request_id : InputRequestId;
  io_target : ReviewTargetRef;
  io_task_target : option TaskTargetRef;
  io_reason_code : InputRequestReasonCode;
  io_title : string;
  io_body : option string;
  io_body_content_type : BodyContentType;
  io_body_artifact_path : option string;
  io_body_byte_size : option N;
  io_body_content_hash : option string;
  io_target_fingerprint : option string
}.

Record InputRequestRespondedPayload := {
  ir_input_request_response_id : InputRequestResponseId;
  ir_input_request_id : InputRequestId;
  ir_revision_id : option RevisionId;
  ir_task_target : option TaskTargetRef;
  ir_outcome : InputRequestResponseOutcome;
  ir_reason : option string;
  ir_reason_content_type : BodyContentType;
  ir_reason_artifact_path : option string;
  ir_reason_byte_size : option N;
  ir_reason_content_hash : option string;
  ir_target_fingerprint : option string
}.

(** ** Decoding *)

(** [serde_json::from_value] at each payload type. *)
Class Decoders := {
  from_work_object_proposed : json → result WorkObjectProposedPayload;
  from_change_declared : json → result ChangeDeclaredPayload;
  from_membership_asserted : json → result ChangeMembershipAssertedPayload;
  from_membership_withdrawn : json → result ChangeMembershipWithdrawnPayload;
  from_relation_asserted : json → result ChangeRevisionRelationAssertedPayload;
  from_relation_withdrawn : json → result ChangeRevisionRelationWithdrawnPayload;
  from_link_asserted : json → result ChangeLinkAssertedPayload;
  from_assessment_recorded : json → result ReviewAssessmentRecordedPayload;
  from_input_request_opened : json → result InputRequestOpenedPayload;
  from_input_request_responded : json → result InputRequestRespondedPayload;
  from_fact_ported : json → result ReviewFactPortedPayload
}.

Definition decode_input_request_opened_payload `{Decoders} (value : json)
    : result InputRequestOpenedPayload :=
  match json_get value "mode" with
  | Some _ =>
      Err (InvalidEvent
        "input_request_opened payload mode is no longer supported; use envelope assertionMode")
  | None => from_input_request_opened value
  end.
