(* ===== verification/ChangeGraph.v ===== *)
(** * The replacement graph of one Change ([src/src/model/change.rs])

    Current revisions, the depth-first cycle test and the divergence test over the
    effective (successor, predecessor) edges of a Change. *)

From S2P Require Import Prelude RustStr BTree Model.

(** ** Definitions *)

Abbreviation edges_t := (gset (RevisionId * RevisionId)) (only parsing).

Definition current_revisions (members : gset RevisionId) (supersedes : edges_t)
    : gset RevisionId :=
  let replaced : gset RevisionId := set_map snd supersedes in
  filter (λ member, member ∉ replaced) members.

(** [supersedes.iter().filter(|(successor, _)| successor == node)], predecessors. *)
Definition predecessors (supersedes : edges_t) (node : RevisionId) : list RevisionId :=
  snd <$> filter (λ e, e.1 = node) (iter_set supersedes).

(** [Iterator::any] over a predicate that threads the [visited] set. *)
Fixpoint any_visit (visit : gset RevisionId → RevisionId → bool * gset RevisionId)
    (visited : gset RevisionId) (nodes : list RevisionId) : bool * gset RevisionId :=
  match nodes with
  | [] => (false, visited)
  | p :: nodes =>
      match visit visited p with
      | (true, visited) => (true, visited)
      | (false, visited) => any_visit visit visited nodes
      end
  end.

(** [visit]: the recursion of [revision_graph_has_cycle].  [visiting] is restored
    when a call returns, so it is an argument; [visited] is threaded. *)
Fixpoint visit (fuel : nat) (supersedes : edges_t) (visiting visited : gset RevisionId)
    (node : RevisionId) : bool * gset RevisionId :=
  match fuel with
  | O => (false, visited)
  | S fuel =>
      if bool_decide (node ∈ visiting) then (true, visited)
      else if bool_decide (node ∈ visited) then (false, visited)
      else any_visit (visit fuel supersedes (visiting ∪ {[node]})) (visited ∪ {[node]})
             (predecessors supersedes node)
  end.

(** A call nests at most once per revision that occurs in an edge, plus the root. *)
Definition visit_fuel (supersedes : edges_t) : nat := 2 * size supersedes + 3.

Definition revision_graph_has_cycle (members : gset RevisionId) (supersedes : edges_t) : bool :=
  (any_visit (visit (visit_fuel supersedes) supersedes ∅) ∅ (iter_set members)).1.

(** The worklist of [replacement_heads_diverge]: [pending] is a stack, top first. *)
Definition push_predecessors (s : gset RevisionId * list RevisionId) (preds : list RevisionId)
    : gset RevisionId * list RevisionId :=
  foldl (λ s p, if bool_decide (p ∈ s.1) then s else (s.1 ∪ {[p]}, p :: s.2)) s preds.

Fixpoint ancestors_loop (fuel : nat) (supersedes : edges_t) (found : gset RevisionId)
    (pending : list RevisionId) : gset RevisionId :=
  match fuel, pending with
  | S fuel, node :: pending =>
      let '(found, pending) := push_predecessors (found, pending) (predecessors supersedes node) in
      ancestors_loop fuel supersedes found pending
  | _, _ => found
  end.

(** Each revision is pushed at most once, and only as the predecessor of an edge. *)
Definition ancestors (supersedes : edges_t) (head : RevisionId) : gset RevisionId :=
  ancestors_loop (size supersedes + 1) supersedes ∅ [head].

(** Some two positions hold sets that meet. *)
Fixpoint some_pair_meets (l : list (gset RevisionId)) : bool :=
  match l with
  | [] => false
  | x :: l => existsb (λ y, negb (bool_decide (x ## y))) l || some_pair_meets l
  end.

Definition replacement_heads_diverge (current : gset RevisionId) (supersedes : edges_t) : bool :=
  some_pair_meets (ancestors supersedes <$> iter_set current).

(** ** The cycle test *)

Section graph.
Context (supersedes : edges_t).

Definition replaces (x y : RevisionId) : Prop := (x, y) ∈ supersedes.

Lemma elem_of_predecessors x y : y ∈ predecessors supersedes x ↔ replaces x y.
Proof.
  unfold predecessors, replaces. rewrite list_elem_of_fmap. split.
  - intros ([a b] & -> & [Ha Hin]%list_elem_of_filter). cbn in Ha. subst.
    by apply elem_of_iter_set in Hin.
  - intros H. exists (x, y). split; [done|]. apply list_elem_of_filter.
    split; [done|]. by apply elem_of_iter_set.
Qed.

(** Black nodes: visited and no longer on the path. *)
Record black_ok (black : gset RevisionId) : Prop := {
  black_closed : ∀ x y, x ∈ black → replaces x y → y ∈ black;
  black_acyclic : ∀ x, x ∈ black → ¬ tc replaces x x
}.

Lemma black_rtc black x y : black_ok black → x ∈ black → rtc replaces x y → y ∈ black.
Proof. intros Hb Hx. induction 1; [done|]. eauto using black_closed. Qed.

(** Revisions that occur in an edge. *)
Definition touched : gset RevisionId := set_map fst supersedes ∪ set_map snd supersedes.

Definition path_ok (visiting : gset RevisionId) (node : RevisionId) : Prop :=
  ∀ v, v ∈ visiting → tc replaces v node.

(** What a call establishes, and what a run of calls over [preds] does. *)
Definition visit_post (visiting visited : gset RevisionId) (nodes : list RevisionId)
    (r : bool * gset RevisionId) : Prop :=
  if r.1 then ∃ n x, n ∈ nodes ∧ rtc replaces n x ∧ tc replaces x x
  else visited ⊆ r.2 ∧ black_ok (r.2 ∖ visiting) ∧ ∀ n, n ∈ nodes → n ∈ r.2 ∖ visiting.

Lemma any_visit_spec (f : gset RevisionId → RevisionId → bool * gset RevisionId) visiting nodes visited :
  (∀ visited' n, visited ⊆ visited' → n ∈ nodes → black_ok (visited' ∖ visiting) →
    visit_post visiting visited' [n] (f visited' n)) →
  black_ok (visited ∖ visiting) →
  visit_post visiting visited nodes (any_visit f visited nodes).
Proof.
  revert visited. induction nodes as [|p nodes IH]; intros visited Hf Hb; cbn.
  { split_and!; [done|done|]. intros n Hn. by apply elem_of_nil in Hn. }
  pose proof (Hf visited p ltac:(done) ltac:(left) Hb) as Hp.
  destruct (f visited p) as [[|] visited']; unfold visit_post in Hp; cbn in Hp.
  { destruct Hp as (n & x & ->%list_elem_of_singleton & Hx). exists p, x. split; [left|done]. }
  destruct Hp as (Hsub & Hb' & Hin).
  assert (visit_post visiting visited' nodes (any_visit f visited' nodes)) as Hrest.
  { apply IH; [|done]. intros v n Hv Hn. apply Hf; [by etrans|by right]. }
  revert Hrest. unfold visit_post. destruct (any_visit f visited' nodes) as [[|] r]; cbn.
  - intros (n & x & Hn & Hx). exists n, x. split; [by right|done].
  - intros (Hs & Hbr & Hr). split_and!; [by etrans|done|].
    intros n [->|Hn]%elem_of_cons; [|by apply Hr].
    specialize (Hin p ltac:(left)). apply elem_of_difference in Hin as [H1 H2].
    apply elem_of_difference. split; [by apply Hs|done].
Qed.

Lemma measure_decr visited visited' node p :
  node ∉ visited → visited ∪ {[node]} ⊆ visited' → replaces node p →
  size ((touched ∪ {[p]}) ∖ visited') < size ((touched ∪ {[node]}) ∖ visited).
Proof.
  intros Hn Hsub Hr. apply subset_size.
  assert (p ∈ touched) as Hp.
  { apply elem_of_union_r, elem_of_map. exists (node, p). done. }
  split; [clear Hr; set_solver|]. intros Hc. specialize (Hc node). set_solver.
Qed.

(** A finished node joins the black ones: its predecessors are black. *)
Lemma black_finish visiting r node :
  node ∉ visiting → node ∈ r → black_ok (r ∖ (visiting ∪ {[node]})) →
  (∀ p, replaces node p → p ∈ r ∖ (visiting ∪ {[node]})) → black_ok (r ∖ visiting).
Proof.
  intros Hnv Hnr Hb Hp. set (B := r ∖ (visiting ∪ {[node]})) in *.
  assert (∀ x, x ∈ r ∖ visiting ↔ x ∈ B ∨ x = node) as HB.
  { intros x. unfold B. clear Hb Hp. destruct (decide (x = node)); set_solver. }
  assert (node ∉ B) as HnB by (unfold B; clear Hb Hp HB; set_solver).
  split.
  - intros x y [Hx| ->]%HB Hxy; apply HB; left; [by eapply black_closed|by apply Hp].
  - intros x [Hx| ->]%HB Hc; [by eapply black_acyclic|].
    apply HnB. apply tc_step in Hc as (p & Hp1 & Hp2).
    eapply black_rtc; [done|by apply Hp|done].
Qed.

Lemma visit_spec fuel visiting visited node :
  visiting ⊆ visited → black_ok (visited ∖ visiting) → path_ok visiting node →
  size ((touched ∪ {[node]}) ∖ visited) < fuel →
  visit_post visiting visited [node] (visit fuel supersedes visiting visited node).
Proof.
  revert visiting visited node. induction fuel as [|fuel IH];
    intros visiting visited node Hsub Hb Hp Hf; [lia|]. cbn [visit].
  case_bool_decide as Hv.
  { exists node, node. split_and!; [left|done|by apply Hp]. }
  case_bool_decide as Hvd.
  { split_and!; cbn; [done|done|]. intros n ->%list_elem_of_singleton.
    by apply elem_of_difference. }
  set (V := visiting ∪ {[node]}).
  assert ((visited ∪ {[node]}) ∖ V = visited ∖ visiting) as HV.
  { unfold V. clear IH Hb Hp Hf. set_solver. }
  assert (visit_post V (visited ∪ {[node]}) (predecessors supersedes node)
    (any_visit (visit fuel supersedes V) (visited ∪ {[node]}) (predecessors supersedes node)))
    as Hany.
  { apply any_visit_spec; [|by rewrite HV].
    intros visited' p Hs Hpr%elem_of_predecessors Hb'. apply IH; [|done| |].
    - unfold V. clear IH Hb Hp Hf Hb'. set_solver.
    - intros v [Hvv| ->%elem_of_singleton]%elem_of_union; [|by apply tc_once].
      eapply tc_r; [by apply Hp|done].
    - pose proof (measure_decr visited visited' node p Hvd Hs Hpr). lia. }
  destruct (any_visit _ _ _) as [[|] r]; unfold visit_post in *; cbn in Hany |- *.
  - destruct Hany as (n & x & Hn%elem_of_predecessors & Hx & Hc).
    exists node, x. split_and!; [left|by eapply rtc_l|done].
  - destruct Hany as (Hs & Hbr & Hin).
    assert (node ∈ r) as Hnr by (apply Hs; set_solver).
    split_and!; [by etrans; [|exact Hs]; apply union_subseteq_l| |].
    + apply (black_finish visiting r node Hv Hnr Hbr).
      intros p Hp'. by apply Hin, elem_of_predecessors.
    + intros n ->%list_elem_of_singleton. by apply elem_of_difference.
Qed.

Lemma size_touched : size touched ≤ 2 * size supersedes.
Proof.
  unfold touched. etrans; [apply size_union_alt_le|].
  pose proof (size_set_map_le fst supersedes). pose proof (size_set_map_le snd supersedes). lia.
Qed.

Lemma black_empty : black_ok ∅.
Proof. by split; intros x; [intros y|]; intros []%not_elem_of_empty. Qed.

Lemma has_cycle_post members :
  visit_post ∅ ∅ (iter_set members)
    (any_visit (visit (visit_fuel supersedes) supersedes ∅) ∅ (iter_set members)).
Proof.
  apply any_visit_spec; [|rewrite difference_diag_L; apply black_empty].
  intros visited n _ _ Hb. apply visit_spec; [apply empty_subseteq|done|by intros v []%not_elem_of_empty|].
  eapply Nat.le_lt_trans; [apply subseteq_size, subseteq_difference_l; reflexivity|].
  pose proof size_touched. pose proof (size_union_alt_le touched {[n]}) as Hs.
  rewrite size_singleton in Hs. unfold visit_fuel. lia.
Qed.

(** ** Divergence *)

Definition targets : gset RevisionId := set_map snd supersedes.

Record worklist_ok (head : RevisionId) (found : gset RevisionId) (pending : list RevisionId) : Prop := {
  work_found : ∀ x, x ∈ found → tc replaces head x;
  work_pending : ∀ x, x ∈ pending → rtc replaces head x;
  work_closed : ∀ x y, x = head ∨ x ∈ found → x ∉ pending → replaces x y → y ∈ found
}.

Definition work_left (found : gset RevisionId) (pending : list RevisionId) : nat :=
  length pending + size (targets ∖ found).

Lemma size_difference_insert (X Y : gset RevisionId) p :
  p ∈ X → p ∉ Y → size (X ∖ Y) = S (size (X ∖ (Y ∪ {[p]}))).
Proof.
  intros Hx Hy. assert (X ∖ Y = {[p]} ∪ X ∖ (Y ∪ {[p]})) as ->.
  { apply set_eq. intros x. destruct (decide (x = p)); set_solver. }
  rewrite (size_union {[p]} (X ∖ (Y ∪ {[p]}))) by set_solver. by rewrite size_singleton.
Qed.

Lemma push_predecessors_spec head node preds found pending :
  rtc replaces head node → (∀ p, p ∈ preds → replaces node p) →
  (∀ x, x ∈ found → tc replaces head x) → (∀ x, x ∈ pending → rtc replaces head x) →
  let s := push_predecessors (found, pending) preds in
  found ⊆ s.1 ∧ pending ⊆ s.2 ∧ (∀ p, p ∈ preds → p ∈ s.1) ∧
  (∀ x, x ∈ s.1 → tc replaces head x) ∧ (∀ x, x ∈ s.2 → rtc replaces head x) ∧
  (∀ x, x ∈ s.1 → x ∈ found ∨ x ∈ s.2) ∧
  work_left s.1 s.2 = work_left found pending.
Proof.
  unfold push_predecessors. intros Hn. revert found pending.
  induction preds as [|p preds IH]; intros found pending Hp Hf Hpd; cbn.
  { split_and!; try done; [by intros ? []%elem_of_nil|by left]. }
  assert (replaces node p) as Hnp by (apply Hp; left).
  assert (∀ q, q ∈ preds → replaces node q) as Hp' by (intros; apply Hp; by right).
  case_bool_decide as Hin.
  - destruct (IH found pending Hp' Hf Hpd) as (H1 & H2 & H3 & H4 & H5 & H6 & H7).
    split_and!; try done. intros q [->|Hq]%elem_of_cons; auto.
  - assert (tc replaces head p) as Htp by by eapply tc_rtc_l; [|apply tc_once].
    destruct (IH (found ∪ {[p]}) (p :: pending) Hp') as (H1 & H2 & H3 & H4 & H5 & H6 & H7).
    + intros x [Hx| ->%elem_of_singleton]%elem_of_union; auto.
    + intros x [->|Hx]%elem_of_cons; [by apply tc_rtc|auto].
    + split_and!; try done.
      * set_solver.
      * intros x Hx. apply H2. by right.
      * intros q [->|Hq]%elem_of_cons; [|auto]. apply H1. set_solver.
      * intros x Hx. destruct (H6 x Hx) as [[Hx'| ->%elem_of_singleton]%elem_of_union|Hx'];
          [by left| |by right]. right. apply H2. left.
      * rewrite H7. unfold work_left. cbn.
        assert (p ∈ targets) as Hpt by (apply elem_of_map; by exists (node, p)).
        rewrite (size_difference_insert targets found p Hpt Hin). lia.
Qed.

Lemma ancestors_loop_spec fuel head found pending :
  worklist_ok head found pending → work_left found pending ≤ fuel →
  ∀ x, x ∈ ancestors_loop fuel supersedes found pending ↔ tc replaces head x.
Proof.
  assert (∀ found', worklist_ok head found' [] → ∀ x, x ∈ found' ↔ tc replaces head x) as Hdone.
  { intros found' [Hf _ Hc] x. split; [apply Hf|].
    intros (z & Hz & Hzx)%tc_step_r. eapply Hc; [|by intros ?%elem_of_nil|exact Hzx].
    clear Hzx. revert z Hz. apply rtc_ind_r; [by left|]. intros u v Hzu Huv IH. right. eapply Hc; [exact IH|by intros ?%elem_of_nil|exact Huv]. }
  revert found pending. induction fuel as [|fuel IH]; intros found [|node pending] Hw Hl; cbn.
  - by apply Hdone.
  - unfold work_left in Hl. cbn in Hl. lia.
  - by apply Hdone.
  - destruct Hw as [Hf Hp Hc].
    destruct (push_predecessors_spec head node (predecessors supersedes node) found pending)
      as (H1 & H2 & H3 & H4 & H5 & H6 & H7).
    { apply Hp. left. } { intros p. apply elem_of_predecessors. } { done. }
    { intros x Hx. apply Hp. by right. }
    destruct (push_predecessors _ _) as [found' pending']. cbn in *. apply IH.
    + split; [done|done|]. intros x y Hx Hnp Hxy.
      destruct (decide (x = node)) as [->|Hne].
      { apply H3. by apply elem_of_predecessors. }
      apply H1. eapply Hc; [|rewrite elem_of_cons; intros [?|?%H2]; done|exact Hxy].
      destruct Hx as [->|Hx]; [by left|]. destruct (H6 x Hx); [by right|done].
    + unfold work_left in *. cbn in Hl. lia.
Qed.

Lemma elem_of_ancestors head x : x ∈ ancestors supersedes head ↔ tc replaces head x.
Proof.
  unfold ancestors. apply ancestors_loop_spec.
  - split; [by intros ? []%not_elem_of_empty|by intros ? ->%list_elem_of_singleton|].
    intros y z [->|[]%not_elem_of_empty] Hn. by rewrite list_elem_of_singleton in Hn.
  - unfold work_left. rewrite difference_empty_L. cbn.
    pose proof (size_set_map_le snd supersedes). unfold targets. lia.
Qed.

End graph.

Lemma some_pair_meets_true l :
  some_pair_meets l = true ↔
  ∃ i j x y r, i < j ∧ l !! i = Some x ∧ l !! j = Some y ∧ r ∈ x ∧ r ∈ y.
Proof.
  induction l as [|x l IH]; cbn.
  { split; [done|]. naive_solver. }
  rewrite orb_true_iff, existsb_exists, IH. split.
  - intros [(y & Hy & Hm)|(i & j & H)].
    + apply list_elem_of_In, list_elem_of_lookup in Hy as [j Hj].
      apply negb_true_iff, bool_decide_eq_false in Hm.
      assert (∃ r, r ∈ x ∩ y) as [r Hr].
      { destruct (set_choose_or_empty (x ∩ y)) as [?|He]; [done|]. set_solver. }
      exists 0, (S j), x, y, r. split_and!; [lia|done|done|set_solver..].
    + destruct H as (a & b & r & H1 & H2). exists (S i), (S j), a, b, r. split; [lia|done].
  - intros (i & j & a & b & r & Hij & Hi & Hj & Ha & Hb). destruct j as [|j]; [lia|].
    destruct i as [|i]; cbn in Hi, Hj.
    + left. exists b. split; [by apply list_elem_of_In, list_elem_of_lookup; exists j|].
      apply negb_true_iff, bool_decide_eq_false. simplify_eq. set_solver.
    + right. exists i, j, a, b, r. split; [lia|done].
Qed.

(** ** Properties *)

Lemma has_cycle_true members supersedes :
  revision_graph_has_cycle members supersedes = true ↔
  ∃ m x, m ∈ members ∧ rtc (replaces supersedes) m x ∧ tc (replaces supersedes) x x.
Proof.
  pose proof (has_cycle_post supersedes members) as Hpost. unfold revision_graph_has_cycle.
  destruct (any_visit _ _ _) as [[|] r]; unfold visit_post in Hpost; cbn in *.
  - split; [|done]. intros _. destruct Hpost as (n & x & Hn%elem_of_iter_set & H). by exists n, x.
  - split; [done|]. intros (m & x & Hm%elem_of_iter_set & Hr & Hc).
    destruct Hpost as (_ & Hb & Hin). exfalso.
    eapply black_acyclic; [exact Hb| |exact Hc]. eapply black_rtc; [exact Hb| |exact Hr].
    by apply Hin.
Qed.

Lemma heads_diverge_true current supersedes :
  replacement_heads_diverge current supersedes = true ↔
  ∃ h1 h2 a, h1 ∈ current ∧ h2 ∈ current ∧ h1 ≠ h2 ∧
    tc (replaces supersedes) h1 a ∧ tc (replaces supersedes) h2 a.
Proof.
  unfold replacement_heads_diverge. rewrite some_pair_meets_true. split.
  - intros (i & j & x & y & r & Hij & Hi & Hj & Hx & Hy).
    apply list_lookup_fmap_Some in Hi as (h1 & -> & Hi).
    apply list_lookup_fmap_Some in Hj as (h2 & -> & Hj).
    rewrite elem_of_ancestors in Hx, Hy. exists h1, h2, r.
    split_and!; [by eapply elem_of_iter_set, list_elem_of_lookup_2..| |done|done].
    intros ->. pose proof (NoDup_lookup _ _ _ _ (NoDup_iter_set current) Hi Hj). lia.
  - intros (h1 & h2 & a & H1 & H2 & Hne & Ha1 & Ha2).
    apply elem_of_iter_set, list_elem_of_lookup in H1 as [i Hi].
    apply elem_of_iter_set, list_elem_of_lookup in H2 as [j Hj].
    assert (i < j ∨ j < i) as [Hij|Hij].
    { destruct (lt_eq_lt_dec i j) as [[?| ->]|?]; [by left| |by right]. congruence. }
    + exists i, j, (ancestors supersedes h1), (ancestors supersedes h2), a.
      rewrite !list_lookup_fmap, Hi, Hj, !elem_of_ancestors. done.
    + exists j, i, (ancestors supersedes h2), (ancestors supersedes h1), a.
      rewrite !list_lookup_fmap, Hi, Hj, !elem_of_ancestors. done.
Qed.

Lemma elem_of_current_revisions members supersedes r :
  r ∈ current_revisions members supersedes ↔ r ∈ members ∧ ∀ s, ¬ replaces supersedes s r.
Proof.
  unfold current_revisions. rewrite elem_of_filter, elem_of_map. unfold replaces. split.
  - intros [Hn Hm]. split; [done|]. intros s Hs. apply Hn. by exists (s, r).
  - intros [Hm Hn]. split; [|done]. intros ([s y] & -> & Hs). by apply (Hn s).
Qed.

(** A Change whose replacement edges join its own members and that has no
    cycle always has a current revision: an empty head set is only ever reported
    for an empty or a cyclic Change. *)
Lemma acyclic_has_head members supersedes
    (Hscoped : ∀ s p, replaces supersedes s p → s ∈ members ∧ p ∈ members)
    (Hne : members ≠ ∅)
    (Hacyclic : revision_graph_has_cycle members supersedes = false) :
  current_revisions members supersedes ≠ ∅.
Proof.
  intros He. destruct (no_minimal_cycle (replaces supersedes) members Hne) as (x & Hx & Hc).
  - intros x Hx. destruct (decide (∃ e, e ∈ supersedes ∧ e.2 = x)) as [([s y] & Hs & <-)|Hno].
    + exists s. split; [by apply (Hscoped s y)|done].
    + exfalso. apply (not_elem_of_empty (C:=gset RevisionId) x). rewrite <- He.
      apply elem_of_current_revisions. split; [done|]. intros s Hs. apply Hno. by exists (s, x).
  - assert (revision_graph_has_cycle members supersedes = true) as Ht; [|congruence].
    apply has_cycle_true. by exists x, x.
Qed.

(** The graph tests of a Change are exact.  The cycle test answers true exactly
    when some member reaches, along replacement edges, a revision that transitively
    replaces itself, and the depth bound of the search is never what stops it; heads
    diverge exactly when two different ones transitively replace a common revision; and
    a Change whose edges join its own members, is not empty and has no cycle always has
    a current revision. *)
Theorem replacement_graph_exact members current supersedes :
  (revision_graph_has_cycle members supersedes = true ↔
    ∃ m x, m ∈ members ∧ rtc (replaces supersedes) m x ∧ tc (replaces supersedes) x x) ∧
  (replacement_heads_diverge current supersedes = true ↔
    ∃ h1 h2 a, h1 ∈ current ∧ h2 ∈ current ∧ h1 ≠ h2 ∧
      tc (replaces supersedes) h1 a ∧ tc (replaces supersedes) h2 a) ∧
  ((∀ s p, replaces supersedes s p → s ∈ members ∧ p ∈ members) → members ≠ ∅ →
    revision_graph_has_cycle members supersedes = false →
    current_revisions members supersedes ≠ ∅).
Proof. split_and!; [apply has_cycle_true|apply heads_diverge_true|apply acyclic_has_head]. Qed.

Lemma replacement_graph_exact_witness :
  current_revisions {["rev:a"; "rev:b"]} {[("rev:b", "rev:a")]} ≠ ∅.
Proof.
  apply (proj2 (proj2 (replacement_graph_exact {["rev:a"; "rev:b"]} ∅ {[("rev:b", "rev:a")]}))).
  - intros s p [= -> ->]%elem_of_singleton. set_solver.
  - intros H. assert ("rev:a" ∈ (∅ : gset RevisionId)) as Hin by (rewrite <- H; set_solver).
    by apply not_elem_of_empty in Hin.
  - vm_compute. reflexivity.
Defined.
