(* ===== verification/ChangeProjection.v ===== *)
(** * The Change projection ([src/src/session/projection/change.rs])

    Events are reduced to compact facts, the facts are folded into one input, and
    each Change gets a view: members, effective replacement edges, current revisions,
    topology, lifecycle, obligations and diagnostics. *)

From S2P Require Import Prelude RustStr BTree Model CanonicalHash Crypto Events ChangeClaims Relations.
From S2P Require Import Payloads ChangeGraph.

(** ** Views *)

Record ChangeView := {
  cv_change_id : ChangeId;
  cv_members : gset RevisionId;
  cv_current_revisions : gset RevisionId;
  cv_supersedes : gset (RevisionId * RevisionId);
  cv_topology : ChangeTopologyV1;
  cv_lifecycle : ChangeLifecycleV1;
  cv_qualified_current_revisions : gset RevisionId;
  cv_operative_obligations : gset InputRequestId;
  cv_diagnostics : list string
}.

Record ChangeLinkView := {
  lv_left_change_id : ChangeId;
  lv_right_change_id : ChangeId;
  lv_relation : ChangeLinkRelationV1
}.

Record ChangeProjection := {
  cp_changes : gmap ChangeId ChangeView;
  cp_links : list ChangeLinkView
}.

(** ** Facts *)

Inductive ChangeProjectionFact :=
| FRevision (revision_id : RevisionId) (object_artifact_content_hash : string)
| FDeclaration (change_id : ChangeId) (identity_descriptor : ChangeIdentityDescriptorV1)
| FMembershipAsserted (claim_id : ChangeMembershipClaimId) (change_id : ChangeId)
    (revision_id : RevisionId)
| FMembershipWithdrawn (claim_id : ChangeMembershipClaimId)
| FRelationAsserted (claim_id : ChangeRevisionRelationClaimId) (change_id : ChangeId)
    (successor predecessor : RevisionRefV1)
| FRelationWithdrawn (claim_id : ChangeRevisionRelationClaimId)
| FLinkAsserted (claim_id : ChangeLinkClaimId) (left_change_id right_change_id : ChangeId)
    (relation : ChangeLinkRelationV1)
| FAssessment (source_event_id : EventId) (revision_id : RevisionId)
    (assessment_id : AssessmentId) (assessment : ReviewAssessment) (replaces : list AssessmentId)
| FOperativeRequest (request_id : InputRequestId) (revision_id : RevisionId)
| FRequestResponse (request_id : InputRequestId)
| FFactPort (port : ReviewFactPortedPayload).

Section extraction.
Context `{Digest} `{Decoders}.

Definition extract_change_projection_fact (event : ShoreEvent)
    : result (option ChangeProjectionFact) :=
  match ev_event_type event with
  | WorkObjectProposed =>
      let? payload := from_work_object_proposed (ev_payload event) in
      match wo_work_object payload with
      | ProposeRevision revision _ object_artifact_content_hash _ =>
          Ok (Some (FRevision (rv_id revision) object_artifact_content_hash))
      | ProposeTaskAttempt _ _ _ _ _ _ _ => Ok None
      end
  | ChangeDeclared =>
      let? payload := from_change_declared (ev_payload event) in
      let? _ := cd_validate payload in
      Ok (Some (FDeclaration (cd_change_id payload) (cd_identity_descriptor payload)))
  | ChangeMembershipAsserted =>
      let? payload := from_membership_asserted (ev_payload event) in
      let? _ := ma_validate payload in
      Ok (Some (FMembershipAsserted (ma_membership_claim_id payload) (ma_change_id payload)
        (ma_revision_id payload)))
  | ChangeMembershipWithdrawn =>
      let? payload := from_membership_withdrawn (ev_payload event) in
      let? _ := mw_validate payload in
      Ok (Some (FMembershipWithdrawn (mw_membership_claim_id payload)))
  | ChangeRevisionRelationAsserted =>
      let? payload := from_relation_asserted (ev_payload event) in
      let? _ := ra_validate payload in
      Ok (Some (FRelationAsserted (ra_relation_claim_id payload) (ra_change_id payload)
        (ra_successor payload) (ra_predecessor payload)))
  | ChangeRevisionRelationWithdrawn =>
      let? payload := from_relation_withdrawn (ev_payload event) in
      let? _ := rw_validate payload in
      Ok (Some (FRelationWithdrawn (rw_relation_claim_id payload)))
  | ChangeLinkAsserted =>
      let? payload := from_link_asserted (ev_payload event) in
      let? _ := la_validate payload in
      Ok (Some (FLinkAsserted (la_link_claim_id payload) (la_left_change_id payload)
        (la_right_change_id payload) (la_relation payload)))
  | ReviewAssessmentRecorded =>
      let? payload := from_assessment_recorded (ev_payload event) in
      Ok (Some (FAssessment (ev_event_id event) (review_target_revision (ap_target payload))
        (ap_assessment_id payload) (ap_assessment payload) (ap_replaces_assessment_ids payload)))
  | InputRequestOpened =>
      match ev_assertion_mode event with
      | Operative =>
          let? payload := decode_input_request_opened_payload (ev_payload event) in
          Ok (match io_task_target payload with
              | None => Some (FOperativeRequest (io_input_request_id payload)
                  (review_target_revision (io_target payload)))
              | Some _ => None
              end)
      | Advisory => Ok None
      end
  | InputRequestResponded =>
      let? payload := from_input_request_responded (ev_payload event) in
      Ok (Some (FRequestResponse (ir_input_request_id payload)))
  | ReviewFactPorted =>
      let? payload := from_fact_ported (ev_payload event) in
      let? track_id := ok_or (et_track_id (ev_target event))
        (InvalidEvent "review_fact_ported requires an attributed review track") in
      let? _ := validate_attribution payload (w_actor_id (ev_writer event)) track_id in
      Ok (Some (FFactPort payload))
  | ReviewInitialized | ReviewNoteImported | ReviewObservationRecorded
  | ValidationCheckRecorded | RevisionRefAssociated | RevisionRefWithdrawn
  | RevisionCommitAssociated | RevisionCommitWithdrawn | TaskCheckpointCaptured
  | TaskObservationRecorded | EventSignatureRecorded | ArtifactRemoved
  | RevisionRelationAttested => Ok None
  end.
End extraction.

(** ** The fold input *)

Record ChangeDeclarationFact := { df_identity_descriptor : ChangeIdentityDescriptorV1 }.

Record ChangeMembershipFact := { mf_change_id : ChangeId; mf_revision_id : RevisionId }.

Record ChangeRelationFact := {
  rf_change_id : ChangeId;
  rf_successor : RevisionRefV1;
  rf_predecessor : RevisionRefV1
}.

Record ChangeAssessmentFact := {
  af_assessment_id : AssessmentId;
  af_assessment : ReviewAssessment;
  af_replaces : list AssessmentId
}.

Record FoldInput := {
  fi_revisions : gmap RevisionId (gset string);
  fi_declarations : gmap ChangeId (list ChangeDeclarationFact);
  fi_memberships : gmap ChangeMembershipClaimId ChangeMembershipFact;
  fi_membership_withdrawals : gset ChangeMembershipClaimId;
  fi_relations : gmap ChangeRevisionRelationClaimId ChangeRelationFact;
  fi_relation_withdrawals : gset ChangeRevisionRelationClaimId;
  fi_links : gmap ChangeLinkClaimId ChangeLinkView;
  fi_assessments : gmap RevisionId (gmap AssessmentId (EventId * ChangeAssessmentFact));
  fi_operative_requests : gmap InputRequestId RevisionId;
  fi_request_response_count : gmap InputRequestId nat;
  fi_fact_ports : list ReviewFactPortedPayload
}.

Definition FoldInput_default : FoldInput :=
  {| fi_revisions := ∅;
     fi_declarations := ∅;
     fi_memberships := ∅;
     fi_membership_withdrawals := ∅;
     fi_relations := ∅;
     fi_relation_withdrawals := ∅;
     fi_links := ∅;
     fi_assessments := ∅;
     fi_operative_requests := ∅;
     fi_request_response_count := ∅;
     fi_fact_ports := [] |}.

(** Updates of one field. *)
Definition set_revisions (i : FoldInput) (x : gmap RevisionId (gset string)) : FoldInput :=
  {| fi_revisions := x; fi_declarations := fi_declarations i; fi_memberships :=
     fi_memberships i; fi_membership_withdrawals := fi_membership_withdrawals i; fi_relations
     := fi_relations i; fi_relation_withdrawals := fi_relation_withdrawals i; fi_links :=
     fi_links i; fi_assessments := fi_assessments i; fi_operative_requests :=
     fi_operative_requests i; fi_request_response_count := fi_request_response_count i;
     fi_fact_ports := fi_fact_ports i |}.

Definition set_declarations (i : FoldInput) (x : gmap ChangeId (list ChangeDeclarationFact)) : FoldInput :=
  {| fi_revisions := fi_revisions i; fi_declarations := x; fi_memberships := fi_memberships
     i; fi_membership_withdrawals := fi_membership_withdrawals i; fi_relations :=
     fi_relations i; fi_relation_withdrawals := fi_relation_withdrawals i; fi_links :=
     fi_links i; fi_assessments := fi_assessments i; fi_operative_requests :=
     fi_operative_requests i; fi_request_response_count := fi_request_response_count i;
     fi_fact_ports := fi_fact_ports i |}.

Definition set_memberships (i : FoldInput) (x : gmap ChangeMembershipClaimId ChangeMembershipFact) : FoldInput :=
  {| fi_revisions := fi_revisions i; fi_declarations := fi_declarations i; fi_memberships :=
     x; fi_membership_withdrawals := fi_membership_withdrawals i; fi_relations :=
     fi_relations i; fi_relation_withdrawals := fi_relation_withdrawals i; fi_links :=
     fi_links i; fi_assessments := fi_assessments i; fi_operative_requests :=
     fi_operative_requests i; fi_request_response_count := fi_request_response_count i;
     fi_fact_ports := fi_fact_ports i |}.

Definition set_membership_withdrawals (i : FoldInput) (x : gset ChangeMembershipClaimId) : FoldInput :=
  {| fi_revisions := fi_revisions i; fi_declarations := fi_declarations i; fi_memberships :=
     fi_memberships i; fi_membership_withdrawals := x; fi_relations := fi_relations i;
     fi_relation_withdrawals := fi_relation_withdrawals i; fi_links := fi_links i;
     fi_assessments := fi_assessments i; fi_operative_requests := fi_operative_requests i;
     fi_request_response_count := fi_request_response_count i; fi_fact_ports := fi_fact_ports
     i |}.

Definition set_relations (i : FoldInput) (x : gmap ChangeRevisionRelationClaimId ChangeRelationFact) : FoldInput :=
  {| fi_revisions := fi_revisions i; fi_declarations := fi_declarations i; fi_memberships :=
     fi_memberships i; fi_membership_withdrawals := fi_membership_withdrawals i; fi_relations
     := x; fi_relation_withdrawals := fi_relation_withdrawals i; fi_links := fi_links i;
     fi_assessments := fi_assessments i; fi_operative_requests := fi_operative_requests i;
     fi_request_response_count := fi_request_response_count i; fi_fact_ports := fi_fact_ports
     i |}.

Definition set_relation_withdrawals (i : FoldInput) (x : gset ChangeRevisionRelationClaimId) : FoldInput :=
  {| fi_revisions := fi_revisions i; fi_declarations := fi_declarations i; fi_memberships :=
     fi_memberships i; fi_membership_withdrawals := fi_membership_withdrawals i; fi_relations
     := fi_relations i; fi_relation_withdrawals := x; fi_links := fi_links i; fi_assessments
     := fi_assessments i; fi_operative_requests := fi_operative_requests i;
     fi_request_response_count := fi_request_response_count i; fi_fact_ports := fi_fact_ports
     i |}.

Definition set_links (i : FoldInput) (x : gmap ChangeLinkClaimId ChangeLinkView) : FoldInput :=
  {| fi_revisions := fi_revisions i; fi_declarations := fi_declarations i; fi_memberships :=
     fi_memberships i; fi_membership_withdrawals := fi_membership_withdrawals i; fi_relations
     := fi_relations i; fi_relation_withdrawals := fi_relation_withdrawals i; fi_links := x;
     fi_assessments := fi_assessments i; fi_operative_requests := fi_operative_requests i;
     fi_request_response_count := fi_request_response_count i; fi_fact_ports := fi_fact_ports
     i |}.

Definition set_assessments (i : FoldInput) (x : gmap RevisionId (gmap AssessmentId (EventId * ChangeAssessmentFact))) : FoldInput :=
  {| fi_revisions := fi_revisions i; fi_declarations := fi_declarations i; fi_memberships :=
     fi_memberships i; fi_membership_withdrawals := fi_membership_withdrawals i; fi_relations
     := fi_relations i; fi_relation_withdrawals := fi_relation_withdrawals i; fi_links :=
     fi_links i; fi_assessments := x; fi_operative_requests := fi_operative_requests i;
     fi_request_response_count := fi_request_response_count i; fi_fact_ports := fi_fact_ports
     i |}.

Definition set_operative_requests (i : FoldInput) (x : gmap InputRequestId RevisionId) : FoldInput :=
  {| fi_revisions := fi_revisions i; fi_declarations := fi_declarations i; fi_memberships :=
     fi_memberships i; fi_membership_withdrawals := fi_membership_withdrawals i; fi_relations
     := fi_relations i; fi_relation_withdrawals := fi_relation_withdrawals i; fi_links :=
     fi_links i; fi_assessments := fi_assessments i; fi_operative_requests := x;
     fi_request_response_count := fi_request_response_count i; fi_fact_ports := fi_fact_ports
     i |}.

Definition set_request_response_count (i : FoldInput) (x : gmap InputRequestId nat) : FoldInput :=
  {| fi_revisions := fi_revisions i; fi_declarations := fi_declarations i; fi_memberships :=
     fi_memberships i; fi_membership_withdrawals := fi_membership_withdrawals i; fi_relations
     := fi_relations i; fi_relation_withdrawals := fi_relation_withdrawals i; fi_links :=
     fi_links i; fi_assessments := fi_assessments i; fi_operative_requests :=
     fi_operative_requests i; fi_request_response_count := x; fi_fact_ports := fi_fact_ports
     i |}.

Definition set_fact_ports (i : FoldInput) (x : list ReviewFactPortedPayload) : FoldInput :=
  {| fi_revisions := fi_revisions i; fi_declarations := fi_declarations i; fi_memberships :=
     fi_memberships i; fi_membership_withdrawals := fi_membership_withdrawals i; fi_relations
     := fi_relations i; fi_relation_withdrawals := fi_relation_withdrawals i; fi_links :=
     fi_links i; fi_assessments := fi_assessments i; fi_operative_requests :=
     fi_operative_requests i; fi_request_response_count := fi_request_response_count i;
     fi_fact_ports := x |}.

(** Insert into the entry of an assessment: the record of the smallest event id. *)
Definition insert_assessment (records : gmap AssessmentId (EventId * ChangeAssessmentFact))
    (source_event_id : EventId) (candidate : ChangeAssessmentFact)
    : gmap AssessmentId (EventId * ChangeAssessmentFact) :=
  match records !! af_assessment_id candidate with
  | None => <[af_assessment_id candidate := (source_event_id, candidate)]> records
  | Some (known, _) =>
      match String.compare source_event_id known with
      | Lt => <[af_assessment_id candidate := (source_event_id, candidate)]> records
      | _ => records
      end
  end.

Definition fold_fact (input : FoldInput) (fact : ChangeProjectionFact) : FoldInput :=
  match fact with
  | FRevision revision_id hash =>
      set_revisions input
        (<[revision_id := default ∅ (fi_revisions input !! revision_id) ∪ {[hash]}]>
           (fi_revisions input))
  | FDeclaration change_id identity_descriptor =>
      set_declarations input
        (<[change_id := default [] (fi_declarations input !! change_id) ++
             [{| df_identity_descriptor := identity_descriptor |}]]> (fi_declarations input))
  | FMembershipAsserted claim_id change_id revision_id =>
      set_memberships input
        (<[claim_id := {| mf_change_id := change_id; mf_revision_id := revision_id |}]>
           (fi_memberships input))
  | FMembershipWithdrawn claim_id =>
      set_membership_withdrawals input (fi_membership_withdrawals input ∪ {[claim_id]})
  | FRelationAsserted claim_id change_id successor predecessor =>
      set_relations input
        (<[claim_id := {| rf_change_id := change_id; rf_successor := successor;
             rf_predecessor := predecessor |}]> (fi_relations input))
  | FRelationWithdrawn claim_id =>
      set_relation_withdrawals input (fi_relation_withdrawals input ∪ {[claim_id]})
  | FLinkAsserted claim_id left_change_id right_change_id relation =>
      set_links input
        (<[claim_id := {| lv_left_change_id := left_change_id;
             lv_right_change_id := right_change_id; lv_relation := relation |}]> (fi_links input))
  | FAssessment source_event_id revision_id assessment_id assessment replaces =>
      set_assessments input
        (<[revision_id := insert_assessment (default ∅ (fi_assessments input !! revision_id))
             source_event_id {| af_assessment_id := assessment_id; af_assessment := assessment;
               af_replaces := replaces |}]> (fi_assessments input))
  | FOperativeRequest request_id revision_id =>
      set_operative_requests input (<[request_id := revision_id]> (fi_operative_requests input))
  | FRequestResponse request_id =>
      set_request_response_count input
        (<[request_id := default 0 (fi_request_response_count input !! request_id) + 1]>
           (fi_request_response_count input))
  | FFactPort port => set_fact_ports input (fi_fact_ports input ++ [port])
  end.

Definition fold_input (facts : list ChangeProjectionFact) : FoldInput :=
  foldl fold_fact FoldInput_default facts.

(** ** One Change *)

(** [hashes.is_some_and(|hashes| hashes.len() > 1)]. *)
Definition conflicting (hashes : option (gset string)) : bool :=
  match hashes with Some hashes => 1 <? size hashes | None => false end.

(** [hashes.is_some_and(|hashes| hashes.len() == 1 && hashes.contains(&hash))]. *)
Definition exactly (hashes : option (gset string)) (hash : string) : bool :=
  match hashes with
  | Some hashes => (size hashes =? 1) && bool_decide (hash ∈ hashes)
  | None => false
  end.

Definition insert_if (b : bool) (d : string) (diagnostics : gset string) : gset string :=
  if b then diagnostics ∪ {[d]} else diagnostics.

(** The claims of a Change that no withdrawal names. *)
Definition active_membership (input : FoldInput) (change_id : ChangeId)
    (p : ChangeMembershipClaimId * ChangeMembershipFact) : bool :=
  String.eqb (mf_change_id p.2) change_id &&
  negb (bool_decide (p.1 ∈ fi_membership_withdrawals input)).

Definition known_revision (input : FoldInput) (revision_id : RevisionId) : bool :=
  match fi_revisions input !! revision_id with Some _ => true | None => false end.

Definition change_members (input : FoldInput) (change_id : ChangeId) : gset RevisionId :=
  set_of_list ((λ p, mf_revision_id p.2) <$>
    List.filter (λ p, active_membership input change_id p &&
      known_revision input (mf_revision_id p.2)) (iter_map (fi_memberships input))).

(** The state of the loop over relation claims. *)
Record RelationLoop := {
  rl_incomplete : bool;
  rl_revision_conflict : bool;
  rl_diagnostics : gset string;
  rl_supersedes : gset (RevisionId * RevisionId)
}.

Definition relation_step (input : FoldInput) (change_id : ChangeId) (members : gset RevisionId)
    (s : RelationLoop) (p : ChangeRevisionRelationClaimId * ChangeRelationFact) : RelationLoop :=
  let claim := p.2 in
  if negb (String.eqb (rf_change_id claim) change_id) ||
      bool_decide (p.1 ∈ fi_relation_withdrawals input) then s
  else
    let successor := rr_revision_id (rf_successor claim) in
    let predecessor := rr_revision_id (rf_predecessor claim) in
    let successor_hashes := fi_revisions input !! successor in
    let predecessor_hashes := fi_revisions input !! predecessor in
    let endpoint_conflict := conflicting successor_hashes || conflicting predecessor_hashes in
    let exact :=
      exactly successor_hashes (rr_object_artifact_content_hash (rf_successor claim)) &&
      exactly predecessor_hashes (rr_object_artifact_content_hash (rf_predecessor claim)) in
    if endpoint_conflict then
      {| rl_incomplete := rl_incomplete s; rl_revision_conflict := true;
         rl_diagnostics := rl_diagnostics s ∪ {["change_relation_revision_artifact_conflict"]};
         rl_supersedes := rl_supersedes s |}
    else if negb exact then
      {| rl_incomplete := true; rl_revision_conflict := rl_revision_conflict s;
         rl_diagnostics := rl_diagnostics s ∪ {["change_relation_target_missing_or_mismatched"]};
         rl_supersedes := rl_supersedes s |}
    else if negb (bool_decide (successor ∈ members)) || negb (bool_decide (predecessor ∈ members)) then
      {| rl_incomplete := true; rl_revision_conflict := rl_revision_conflict s;
         rl_diagnostics := rl_diagnostics s ∪ {["change_relation_membership_incomplete"]};
         rl_supersedes := rl_supersedes s |}
    else
      {| rl_incomplete := rl_incomplete s; rl_revision_conflict := rl_revision_conflict s;
         rl_diagnostics := rl_diagnostics s;
         rl_supersedes := rl_supersedes s ∪ {[(successor, predecessor)]} |}.

(** ** Assessments and obligations *)

Definition is_accepting (a : ReviewAssessment) : bool :=
  match a with Accepted | AcceptedWithFollowUp => true | _ => false end.

Definition has_one_accepting_assessment (revision_id : RevisionId)
    (assessments : gmap RevisionId (gmap AssessmentId (EventId * ChangeAssessmentFact))) : bool :=
  match assessments !! revision_id with
  | None => false
  | Some records =>
      let values := snd <$> map_values records in
      let replaced : gset AssessmentId := set_of_list (concat (af_replaces <$> values)) in
      let current :=
        List.filter (λ record, negb (bool_decide (af_assessment_id record ∈ replaced))) values in
      match current with
      | [record] => is_accepting (af_assessment record)
      | _ => false
      end
  end.

Record OperativeObligationStatus := {
  os_unresolved_requests : gset InputRequestId;
  os_ambiguous_response : bool
}.

(** The revision an open port carries a request to. *)
Definition carries (input : FoldInput) (request_id : InputRequestId)
    (port : ReviewFactPortedPayload) : option RevisionId :=
  match fp_origin_fact port, fp_relation port, fp_target_fact port with
  | FactInputRequest origin_request, CarriedOpenAs, Some (FactInputRequest target_request) =>
      let target := rr_revision_id (fp_target_revision port) in
      if String.eqb origin_request request_id &&
          bool_decide (fi_operative_requests input !! target_request = Some target)
      then Some target else None
  | _, _, _ => None
  end.

Definition obligation_step (members current : gset RevisionId) (input : FoldInput)
    (status : OperativeObligationStatus) (p : InputRequestId * RevisionId)
    : OperativeObligationStatus :=
  let '(request_id, origin) := p in
  if negb (bool_decide (origin ∈ members)) then status
  else match fi_request_response_count input !! request_id with
  | Some 1 => status
  | Some _ =>
      {| os_unresolved_requests := os_unresolved_requests status ∪ {[request_id]};
         os_ambiguous_response := true |}
  | None =>
      let carried_to : gset RevisionId :=
        set_of_list (omap (carries input request_id) (fi_fact_ports input)) in
      if negb (bool_decide (carried_to = current)) then
        {| os_unresolved_requests := os_unresolved_requests status ∪ {[request_id]};
           os_ambiguous_response := os_ambiguous_response status |}
      else status
  end.

Definition operative_obligation_status (members current : gset RevisionId) (input : FoldInput)
    : OperativeObligationStatus :=
  foldl (obligation_step members current input)
    {| os_unresolved_requests := ∅; os_ambiguous_response := false |}
    (iter_map (fi_operative_requests input)).

(** ** Topology and lifecycle *)

Definition change_topology (incomplete cycle divergent : bool)
    (supersedes : gset (RevisionId * RevisionId)) (current : gset RevisionId)
    : ChangeTopologyV1 :=
  if incomplete then TIncomplete
  else if cycle then TCycleConflicted
  else if divergent then TReplacementDivergent
  else if bool_decide (supersedes = ∅) then
    if size current <=? 1 then TInitial else TParallelCurrent
  else if size current =? 1 then
    match iter_set current with
    | current :: _ =>
        if 1 <? length (List.filter (λ e, String.eqb e.1 current) (iter_set supersedes))
        then TConsolidation else TReplacement
    | [] => TReplacement
    end
  else TMixed.

Definition change_lifecycle (incomplete conflicted : bool)
    (current qualified : gset RevisionId) (unresolved : gset InputRequestId)
    : ChangeLifecycleV1 :=
  if incomplete then LIncomplete
  else if conflicted then LConflicted
  else if bool_decide (current = ∅) || negb (size qualified =? size current) ||
      negb (bool_decide (unresolved = ∅)) then LInProgress
  else LAccepted.

Section projection.
Context `{Digest}.

(** What the declarations of a Change say: incomplete, conflicting, diagnostics. *)
Definition declaration_status (change_id : ChangeId)
    (declarations : option (list ChangeDeclarationFact)) : result (bool * bool * gset string) :=
  match declarations with
  | None => Ok (true, false, {["change_declaration_missing"]})
  | Some declarations =>
      let? mismatch := try_fold (λ (m : bool) (d : ChangeDeclarationFact),
        let? derived := derive_change_id (df_identity_descriptor d) in
        Ok (m || negb (String.eqb derived change_id))) false declarations in
      let distinct : gset string :=
        set_of_list ((λ d, json_text (to_json (df_identity_descriptor d))) <$> declarations) in
      let several := 1 <? size distinct in
      Ok (false, mismatch || several,
        insert_if several "change_declaration_conflict"
          (insert_if mismatch "change_declaration_identity_mismatch" ∅))
  end.

Definition project_change (input : FoldInput) (change_id : ChangeId) : result ChangeView :=
  let? (undeclared, declaration_conflict, diagnostics) :=
    declaration_status change_id (fi_declarations input !! change_id) in
  let members := change_members input change_id in
  let missing := existsb (λ p, active_membership input change_id p &&
    negb (known_revision input (mf_revision_id p.2))) (iter_map (fi_memberships input)) in
  let diagnostics := insert_if missing "change_membership_revision_missing" diagnostics in
  let empty := bool_decide (members = ∅) in
  let diagnostics := insert_if empty "change_membership_empty" diagnostics in
  let member_conflict :=
    existsb (λ r, conflicting (fi_revisions input !! r)) (iter_set members) in
  let diagnostics :=
    insert_if member_conflict "change_member_revision_artifact_conflict" diagnostics in
  let loop := foldl (relation_step input change_id members)
    {| rl_incomplete := undeclared || missing || empty; rl_revision_conflict := member_conflict;
       rl_diagnostics := diagnostics; rl_supersedes := ∅ |} (iter_map (fi_relations input)) in
  let supersedes := rl_supersedes loop in
  let cycle := revision_graph_has_cycle members supersedes in
  let current := current_revisions members supersedes in
  let divergent := negb cycle && replacement_heads_diverge current supersedes in
  let status := operative_obligation_status members current input in
  let diagnostics := insert_if (os_ambiguous_response status)
    "operative_request_response_ambiguous" (rl_diagnostics loop) in
  let qualified : gset RevisionId :=
    filter (λ r, has_one_accepting_assessment r (fi_assessments input) = true) current in
  Ok {| cv_change_id := change_id; cv_members := members; cv_current_revisions := current;
        cv_supersedes := supersedes;
        cv_topology := change_topology (rl_incomplete loop) cycle divergent supersedes current;
        cv_lifecycle := change_lifecycle (rl_incomplete loop)
          (cycle || divergent || declaration_conflict || rl_revision_conflict loop)
          current qualified (os_unresolved_requests status);
        cv_qualified_current_revisions := qualified;
        cv_operative_obligations := os_unresolved_requests status;
        cv_diagnostics := iter_set diagnostics |}.

Definition change_ids (input : FoldInput) : gset ChangeId :=
  set_of_list (map_keys (fi_declarations input)) ∪
  set_of_list (mf_change_id <$> map_values (fi_memberships input)) ∪
  set_of_list (rf_change_id <$> map_values (fi_relations input)).

Definition link_cmp (l r : ChangeLinkView) : comparison :=
  pair_cmp String.compare String.compare
    (lv_left_change_id l, lv_right_change_id l) (lv_left_change_id r, lv_right_change_id r).

Definition project_input (input : FoldInput) : result ChangeProjection :=
  let? changes := try_fold (λ changes change_id,
      let? view := project_change input change_id in
      Ok (<[change_id := view]> changes)) ∅ (iter_set (change_ids input)) in
  Ok {| cp_changes := changes; cp_links := sort_by link_cmp (map_values (fi_links input)) |}.

Definition project_changes_from_facts (facts : list ChangeProjectionFact)
    : result ChangeProjection :=
  project_input (fold_input facts).

Context `{Decoders}.

Definition extract_facts (events : list ShoreEvent) : result (list ChangeProjectionFact) :=
  try_fold (λ facts event,
    let? fact := extract_change_projection_fact event in
    Ok (match fact with Some fact => facts ++ [fact] | None => facts end)) [] events.

Definition project_changes (events : list ShoreEvent) : result ChangeProjection :=
  let? facts := extract_facts events in
  project_changes_from_facts facts.
End projection.

(** ** What the fold input records *)

(** Facts that share an id agree: claim ids are bound to their coordinates, one event
    carries one assessment, one request addresses one revision. *)
Record consistent (facts : list ChangeProjectionFact) : Prop := {
  consistent_memberships claim c r c' r' :
    FMembershipAsserted claim c r ∈ facts → FMembershipAsserted claim c' r' ∈ facts →
    c = c' ∧ r = r';
  consistent_relations claim c s p c' s' p' :
    FRelationAsserted claim c s p ∈ facts → FRelationAsserted claim c' s' p' ∈ facts →
    c = c' ∧ s = s' ∧ p = p';
  consistent_links claim a b rel a' b' rel' :
    FLinkAsserted claim a b rel ∈ facts → FLinkAsserted claim a' b' rel' ∈ facts →
    a = a' ∧ b = b' ∧ rel = rel';
  consistent_assessments e r a x xs x' xs' :
    FAssessment e r a x xs ∈ facts → FAssessment e r a x' xs' ∈ facts → x = x' ∧ xs = xs';
  consistent_requests q r r' :
    FOperativeRequest q r ∈ facts → FOperativeRequest q r' ∈ facts → r = r'
}.

Lemma consistent_subset facts facts' : (∀ f, f ∈ facts' → f ∈ facts) → consistent facts →
  consistent facts'.
Proof. intros Hsub []. split; eauto. Qed.

Lemma consistent_init facts f : consistent (facts ++ [f]) → consistent facts.
Proof. apply consistent_subset. intros g Hg. apply elem_of_app. by left. Qed.

Lemma fold_input_snoc facts f : fold_input (facts ++ [f]) = fold_fact (fold_input facts) f.
Proof. unfold fold_input. by rewrite foldl_app. Qed.

Lemma elem_of_snoc {A} (x y : A) l : x ∈ l ++ [y] ↔ x ∈ l ∨ x = y.
Proof. by rewrite elem_of_app, list_elem_of_singleton. Qed.

Lemma fold_revisions facts r h :
  h ∈ default ∅ (fi_revisions (fold_input facts) !! r) ↔ FRevision r h ∈ facts.
Proof.
  induction facts as [|f facts IH] using rev_ind.
  { cbn. rewrite lookup_empty. cbn. rewrite elem_of_nil. set_solver. }
  rewrite fold_input_snoc, elem_of_snoc.
  destruct f as [r' h'|?|?|?|?|?|?|?|?|?|?]; cbn [fold_fact]; try (rewrite IH; naive_solver).
  cbn [fi_revisions set_revisions]. destruct (decide (r' = r)) as [->|Hne].
  - rewrite lookup_insert_eq. cbn [from_option id]. rewrite elem_of_union, elem_of_singleton, IH. naive_solver.
  - rewrite lookup_insert_ne by done. rewrite IH. naive_solver.
Qed.

Lemma fold_revisions_nonempty facts r hs :
  fi_revisions (fold_input facts) !! r = Some hs → hs ≠ ∅.
Proof.
  induction facts as [|f facts IH] using rev_ind; [done|]. rewrite fold_input_snoc.
  destruct f as [r' h'|?|?|?|?|?|?|?|?|?|?]; cbn [fold_fact]; try exact IH.
  cbn [fi_revisions set_revisions]. destruct (decide (r' = r)) as [->|Hne].
  - rewrite lookup_insert_eq. intros [= <-]. set_solver.
  - by rewrite lookup_insert_ne.
Qed.

(** A field that each fact of one family inserts into under its own key records
    exactly the facts of that family, when facts with one key agree. *)
Section keyed.
Context {K V : Type} `{Countable K} (field : FoldInput → gmap K V)
  (entry : ChangeProjectionFact → option (K * V)).
Hypothesis Hinit : field FoldInput_default = ∅.
Hypothesis Hstep : ∀ i f, field (fold_fact i f) =
  match entry f with Some (k, v) => <[k := v]> (field i) | None => field i end.

Lemma fold_keyed facts k v :
  (∀ f g v', f ∈ facts → g ∈ facts → entry f = Some (k, v) → entry g = Some (k, v') → v = v') →
  field (fold_input facts) !! k = Some v ↔ ∃ f, f ∈ facts ∧ entry f = Some (k, v).
Proof.
  induction facts as [|f facts IH] using rev_ind; intros Hc.
  { unfold fold_input. cbn. rewrite Hinit, lookup_empty. split; [done|].
    by intros (f & Hf%elem_of_nil & _). }
  rewrite fold_input_snoc, Hstep.
  assert ((∃ g, g ∈ facts ++ [f] ∧ entry g = Some (k, v)) ↔
    (∃ g, g ∈ facts ∧ entry g = Some (k, v)) ∨ entry f = Some (k, v)) as Hsplit.
  { split; [intros (g & [Hg| ->]%elem_of_snoc & He); eauto|].
    intros [(g & Hg & He)|He]; [exists g|exists f]; rewrite elem_of_snoc; auto. }
  rewrite Hsplit. rewrite <- IH by (intros g g' v' Hg Hg'; apply Hc; rewrite elem_of_snoc; auto).
  destruct (entry f) as [[k' v']|] eqn:E; [|naive_solver].
  destruct (decide (k' = k)) as [->|Hne]; [|rewrite lookup_insert_ne by done; naive_solver].
  rewrite lookup_insert_eq. split; [naive_solver|]. intros [Hin|?]; [|naive_solver].
  apply IH in Hin as (g & Hg & Hgv).
  - f_equal. symmetry. apply (Hc g f v'); rewrite ?elem_of_snoc; auto.
  - intros g g' w Hg Hg'. apply Hc; rewrite elem_of_snoc; auto.
Qed.
End keyed.

(** Likewise for a set each fact of a family adds its key to. *)
Lemma fold_collected {K} `{Countable K} (field : FoldInput → gset K)
    (key : ChangeProjectionFact → option K) facts k :
  field FoldInput_default = ∅ →
  (∀ i f, field (fold_fact i f) =
    match key f with Some k => field i ∪ {[k]} | None => field i end) →
  k ∈ field (fold_input facts) ↔ ∃ f, f ∈ facts ∧ key f = Some k.
Proof.
  intros Hinit Hstep. induction facts as [|f facts IH] using rev_ind.
  { unfold fold_input. cbn. rewrite Hinit. set_solver. }
  rewrite fold_input_snoc, Hstep. setoid_rewrite elem_of_snoc.
  destruct (key f) as [k'|] eqn:E; [rewrite elem_of_union, elem_of_singleton|]; naive_solver.
Qed.

Definition membership_entry (f : ChangeProjectionFact) :=
  match f with
  | FMembershipAsserted claim c r =>
      Some (claim, {| mf_change_id := c; mf_revision_id := r |})
  | _ => None
  end.
Definition membership_withdrawal_key (f : ChangeProjectionFact) :=
  match f with FMembershipWithdrawn claim => Some claim | _ => None end.
Definition relation_entry (f : ChangeProjectionFact) :=
  match f with
  | FRelationAsserted claim c s p =>
      Some (claim, {| rf_change_id := c; rf_successor := s; rf_predecessor := p |})
  | _ => None
  end.
Definition relation_withdrawal_key (f : ChangeProjectionFact) :=
  match f with FRelationWithdrawn claim => Some claim | _ => None end.
Definition link_entry (f : ChangeProjectionFact) :=
  match f with
  | FLinkAsserted claim a b rel =>
      Some (claim, {| lv_left_change_id := a; lv_right_change_id := b; lv_relation := rel |})
  | _ => None
  end.
Definition request_entry (f : ChangeProjectionFact) :=
  match f with FOperativeRequest q r => Some (q, r) | _ => None end.

(** [entry_facts]: turn "some fact has this entry" into membership of that fact. *)
Ltac entry_facts :=
  split; [intros ([] & Hin & [=]); subst; exact Hin|intros Hin; by eexists].

Lemma fold_assessments_None facts r a :
  default ∅ (fi_assessments (fold_input facts) !! r) !! a = None →
  ∀ e x xs, FAssessment e r a x xs ∉ facts.
Proof.
  induction facts as [|f l IH] using rev_ind; [by intros _ ? ? ? ?%elem_of_nil|].
  rewrite fold_input_snoc. setoid_rewrite elem_of_snoc.
  destruct f as [?|?|?|?|?|?|?|e0 r0 a0 x0 xs0|?|?|?]; cbn [fold_fact];
    try (intros Hn e x xs [Hin|Heq]; [by eapply IH|done]).
  cbn [fi_assessments set_assessments].
  destruct (decide (r0 = r)) as [->|Hr].
  2:{ rewrite lookup_insert_ne by done. intros Hn e x xs [Hin|Heq]; [by eapply IH|congruence]. }
  rewrite lookup_insert_eq. cbn [from_option id]. unfold insert_assessment. cbn [af_assessment_id].
  intros Hn. destruct (decide (a0 = a)) as [->|Ha].
  - exfalso. destruct (default ∅ _ !! a) as [[known ?]|] eqn:E;
      [destruct (String.compare e0 known)|]; rewrite ?lookup_insert_eq, ?E in Hn; done.
  - intros e x xs [Hin|Heq]; [|congruence]. eapply IH; [|exact Hin].
    destruct (_ !! a0) as [[known ?]|]; [destruct (String.compare e0 known)|];
      rewrite ?lookup_insert_ne in Hn by done; done.
Qed.

(** Adding a record for the same assessment keeps the earlier event. *)
Lemma insert_assessment_same (m : gmap AssessmentId (EventId * ChangeAssessmentFact)) e0 c v :
  insert_assessment m e0 c !! af_assessment_id c = Some v ↔
  match m !! af_assessment_id c with
  | None => v = (e0, c)
  | Some w => (String.compare e0 w.1 = Lt ∧ v = (e0, c)) ∨ (String.compare e0 w.1 ≠ Lt ∧ v = w)
  end.
Proof.
  unfold insert_assessment. destruct (m !! af_assessment_id c) as [[known w]|] eqn:E; cbn [fst].
  - destruct (String.compare e0 known) eqn:Hc; rewrite ?lookup_insert_eq, ?E; naive_solver.
  - rewrite lookup_insert_eq. naive_solver.
Qed.

Lemma insert_assessment_other (m : gmap AssessmentId (EventId * ChangeAssessmentFact)) e0 c a :
  af_assessment_id c ≠ a → insert_assessment m e0 c !! a = m !! a.
Proof.
  intros Ha. unfold insert_assessment. destruct (m !! af_assessment_id c) as [[known w]|].
  - destruct (String.compare e0 known); rewrite ?lookup_insert_ne by done; done.
  - by rewrite lookup_insert_ne.
Qed.

Lemma cmp_le_lt_absurd (a b : string) : String.compare a b = Lt → String.compare b a ≠ Gt → False.
Proof. intros H1 H2. rewrite (cmp_opp String.compare a b), H1 in H2. done. Qed.

Lemma cmp_antisym (a b : string) : String.compare a b ≠ Gt → String.compare b a ≠ Gt → a = b.
Proof.
  intros H1 H2. rewrite (cmp_opp String.compare a b) in H2.
  destruct (String.compare a b) eqn:E; [by apply (cmp_eq String.compare) in E|done|done].
Qed.

Section recorded.
Context (facts : list ChangeProjectionFact) (Hc : consistent facts).

Lemma fold_memberships claim c r :
  fi_memberships (fold_input facts) !! claim = Some {| mf_change_id := c; mf_revision_id := r |} ↔
  FMembershipAsserted claim c r ∈ facts.
Proof using Hc.
  rewrite (fold_keyed fi_memberships membership_entry); [entry_facts|done|by intros ? []|].
  intros [] [] v Hf Hg [=] [=]; subst.
  by destruct (consistent_memberships _ Hc _ _ _ _ _ Hf Hg) as [-> ->].
Qed.

Lemma fold_relations claim c s p :
  fi_relations (fold_input facts) !! claim =
    Some {| rf_change_id := c; rf_successor := s; rf_predecessor := p |} ↔
  FRelationAsserted claim c s p ∈ facts.
Proof using Hc.
  rewrite (fold_keyed fi_relations relation_entry); [entry_facts|done|by intros ? []|].
  intros [] [] v Hf Hg [=] [=]; subst.
  by destruct (consistent_relations _ Hc _ _ _ _ _ _ _ Hf Hg) as (-> & -> & ->).
Qed.

Lemma fold_links claim a b rel :
  fi_links (fold_input facts) !! claim =
    Some {| lv_left_change_id := a; lv_right_change_id := b; lv_relation := rel |} ↔
  FLinkAsserted claim a b rel ∈ facts.
Proof using Hc.
  rewrite (fold_keyed fi_links link_entry); [entry_facts|done|by intros ? []|].
  intros [] [] v Hf Hg [=] [=]; subst.
  by destruct (consistent_links _ Hc _ _ _ _ _ _ _ Hf Hg) as (-> & -> & ->).
Qed.

Lemma fold_requests q r :
  fi_operative_requests (fold_input facts) !! q = Some r ↔ FOperativeRequest q r ∈ facts.
Proof using Hc.
  rewrite (fold_keyed fi_operative_requests request_entry); [entry_facts|done|by intros ? []|].
  intros [] [] v Hf Hg [=] [=]; subst. by eapply consistent_requests.
Qed.

Lemma fold_membership_withdrawals claim :
  claim ∈ fi_membership_withdrawals (fold_input facts) ↔ FMembershipWithdrawn claim ∈ facts.
Proof using.
  rewrite (fold_collected fi_membership_withdrawals membership_withdrawal_key);
    [entry_facts|done|by intros ? []].
Qed.

Lemma fold_relation_withdrawals claim :
  claim ∈ fi_relation_withdrawals (fold_input facts) ↔ FRelationWithdrawn claim ∈ facts.
Proof using.
  rewrite (fold_collected fi_relation_withdrawals relation_withdrawal_key);
    [entry_facts|done|by intros ? []].
Qed.

Lemma fold_fact_ports port :
  port ∈ fi_fact_ports (fold_input facts) ↔ FFactPort port ∈ facts.
Proof using.
  clear Hc. induction facts as [|f l IH] using rev_ind; [cbn; rewrite !elem_of_nil; done|].
  rewrite fold_input_snoc, elem_of_snoc. destruct f; cbn [fold_fact]; try (rewrite IH; naive_solver).
  cbn [fi_fact_ports set_fact_ports]. rewrite elem_of_snoc, IH. naive_solver.
Qed.

Lemma fold_declarations c d :
  (∃ ds, fi_declarations (fold_input facts) !! c = Some ds ∧
    {| df_identity_descriptor := d |} ∈ ds) ↔ FDeclaration c d ∈ facts.
Proof using.
  clear Hc. induction facts as [|f l IH] using rev_ind.
  { cbn. setoid_rewrite lookup_empty. rewrite elem_of_nil. naive_solver. }
  rewrite fold_input_snoc, elem_of_snoc. destruct f as [?|c' d'|?|?|?|?|?|?|?|?|?]; cbn [fold_fact]; try (rewrite IH; naive_solver).
  cbn [fi_declarations set_declarations]. rewrite <- IH. destruct (decide (c' = c)) as [->|Hne].
  - rewrite lookup_insert_eq. split.
    + intros (ds & [= <-] & Hd). apply elem_of_snoc in Hd as [Hd|[= ->]]; [left|by right].
      destruct (_ !! c) as [ds|]; [by exists ds|by apply elem_of_nil in Hd].
    + intros Hd. eexists. split; [reflexivity|]. apply elem_of_snoc.
      destruct Hd as [(ds & -> & Hd)|[= ->]]; [by left|by right].
  - rewrite lookup_insert_ne by done. naive_solver.
Qed.

Lemma fold_declarations_nonempty c :
  fi_declarations (fold_input facts) !! c ≠ Some [].
Proof using.
  clear Hc. induction facts as [|f l IH] using rev_ind; [done|].
  rewrite fold_input_snoc. destruct f as [?|c' d'|?|?|?|?|?|?|?|?|?]; cbn [fold_fact]; try exact IH.
  cbn [fi_declarations set_declarations]. destruct (decide (c' = c)) as [->|Hne].
  - rewrite lookup_insert_eq. intros [= E]. by destruct (default [] _).
  - by rewrite lookup_insert_ne.
Qed.

(** How many responses name a request. *)
Definition is_response (q : InputRequestId) (f : ChangeProjectionFact) : bool :=
  match f with FRequestResponse q' => String.eqb q' q | _ => false end.

Definition response_count (l : list ChangeProjectionFact) (q : InputRequestId) : nat :=
  length (List.filter (is_response q) l).

Lemma fold_response_count q :
  fi_request_response_count (fold_input facts) !! q =
  match response_count facts q with 0 => None | n => Some n end.
Proof using.
  clear Hc. induction facts as [|f l IH] using rev_ind; [done|].
  rewrite fold_input_snoc. unfold response_count in *. rewrite List.filter_app, length_app.
  destruct f as [?|?|?|?|?|?|?|?|?|q'|?]; cbn [fold_fact List.filter is_response length];
    try (rewrite Nat.add_0_r; exact IH).
  cbn [fi_request_response_count set_request_response_count].
  destruct (String.eqb_spec q' q) as [->|Hne].
  - rewrite lookup_insert_eq, IH. cbn [length].
    destruct (length (List.filter (is_response q) l)) as [|n]; cbn; [done|by rewrite (Nat.add_comm n 1)].
  - rewrite lookup_insert_ne by done. rewrite IH. cbn [length]. by rewrite Nat.add_0_r.
Qed.

(** The record of an assessment is the one of its earliest event id. *)
Definition earliest (l : list ChangeProjectionFact) (r : RevisionId) (a : AssessmentId)
    (e : EventId) (x : ReviewAssessment) (xs : list AssessmentId) : Prop :=
  FAssessment e r a x xs ∈ l ∧
  ∀ e' x' xs', FAssessment e' r a x' xs' ∈ l → String.compare e e' ≠ Gt.

Lemma earliest_snoc l r a e x xs f :
  earliest (l ++ [f]) r a e x xs ↔
  (earliest l r a e x xs ∧
    (∀ e' x' xs', f = FAssessment e' r a x' xs' → String.compare e e' ≠ Gt)) ∨
  (f = FAssessment e r a x xs ∧
    (∀ e' x' xs', FAssessment e' r a x' xs' ∈ l → String.compare e e' ≠ Gt)).
Proof using.
  unfold earliest. setoid_rewrite elem_of_snoc. split.
  - intros [[Hin| <-] Hmin]; [left|right].
    + split; [split; [done|]|]; intros; eapply Hmin; eauto.
    + split; [done|]. intros. eapply Hmin. eauto.
  - intros [[[Hin Hmin] Hf]|[-> Hmin]].
    + split; [by left|]. intros e' x' xs' [H|H]; eauto.
    + split; [by right|]. intros e' x' xs' [H|[= -> -> ->]]; [eauto|].
      by rewrite (cmp_refl String.compare).
Qed.

Lemma fold_assessments r a v :
  default ∅ (fi_assessments (fold_input facts) !! r) !! a = Some v ↔
  ∃ e x xs, v = (e, {| af_assessment_id := a; af_assessment := x; af_replaces := xs |}) ∧
    earliest facts r a e x xs.
Proof using Hc.
  revert v. induction facts as [|f l IH] using rev_ind; intros v.
  { cbn. rewrite lookup_empty. split; [done|]. by intros (? & ? & ? & _ & ?%elem_of_nil & _). }
  pose proof (consistent_assessments _ Hc) as Hcons. specialize (IH (consistent_init _ _ Hc)).
  rewrite fold_input_snoc. setoid_rewrite earliest_snoc.
  destruct f as [?|?|?|?|?|?|?|e0 r0 a0 x0 xs0|?|?|?]; cbn [fold_fact]; try (rewrite IH; naive_solver).
  cbn [fi_assessments set_assessments].
  destruct (decide (r0 = r)) as [->|Hr]; [|rewrite lookup_insert_ne by done; rewrite IH; naive_solver].
  rewrite lookup_insert_eq. cbn [from_option id].
  destruct (decide (a0 = a)) as [->|Ha].
  2:{ rewrite insert_assessment_other by done. rewrite IH. naive_solver. }
  set (c := {| af_assessment_id := a; af_assessment := x0; af_replaces := xs0 |}).
  pose proof (insert_assessment_same (default ∅ (fi_assessments (fold_input l) !! r)) e0 c v) as Hins.
  change (af_assessment_id c) with a in Hins. rewrite Hins. clear Hins.
  destruct (_ !! a) as [w|] eqn:E.
  - pose proof (proj1 (IH w) eq_refl) as (ek & xk & xsk & -> & Hk & Hmin). cbn [fst]. split.
    + intros [[Hlt ->]|[Hge ->]].
      * exists e0, x0, xs0. split; [done|]. right. split; [done|]. intros e' x' xs' Hin.
        rewrite (cmp_lt_le_trans String.compare e0 ek e' Hlt (Hmin _ _ _ Hin)). done.
      * exists ek, xk, xsk. split; [done|]. left. split; [done|]. intros ? ? ? [= <- <- <-].
        intros Hgt. apply Hge. by apply (cmp_gt_lt String.compare).
    + intros (e & x & xs & -> & [[He Hf]|[[= <- <- <-] Hm]]).
      * right. destruct He as [Hin He]. specialize (Hf _ _ _ eq_refl).
        assert (e = ek) as -> by (apply cmp_antisym; eauto).
        split; [by intros Hlt; eapply cmp_le_lt_absurd|].
        assert (Some (ek, {| af_assessment_id := a; af_assessment := xk; af_replaces := xsk |}) =
          Some (ek, {| af_assessment_id := a; af_assessment := x; af_replaces := xs |})) as Heq;
          [|congruence]. apply IH. exists ek, x, xs. split; [done|]. by split.
      * destruct (String.compare e0 ek) eqn:Hcmp; [|by left|].
        -- apply (cmp_eq String.compare) in Hcmp as ->. right. split; [done|].
           destruct (Hcons ek r a x0 xs0 xk xsk) as [-> ->];
             [apply elem_of_snoc; by right|apply elem_of_snoc; by left|done].
        -- exfalso. by apply (Hm _ _ _ Hk).
  - assert (∀ e x xs, FAssessment e r a x xs ∉ l) as Hno.
    { by apply fold_assessments_None. }
    split; [intros ->; exists e0, x0, xs0; split; [done|]; right; split; [done|]; by intros ? ? ? ?%Hno|].
    intros (e & x & xs & -> & [[[Hin _] _]|[[= <- <- <-] _]]); [by apply Hno in Hin|done].
Qed.
End recorded.
