(* ===== verification/ChangeViews.v ===== *)
(** * What Change views mean

    The specification of the Change projection in terms of the facts alone, and the
    theorems that the fold of [ChangeProjection] implements it: membership,
    replacement and currency, acceptance, and independence of the event order. *)

From S2P Require Import Prelude RustStr BTree Model CanonicalHash Crypto Events ChangeClaims Relations.
From S2P Require Import Payloads ChangeGraph ChangeProjection.

(** ** The specification *)

Section spec.
Context (facts : list ChangeProjectionFact) (c : ChangeId).

(** A membership claim nobody withdrew. *)
Definition claims_member (r : RevisionId) : Prop :=
  ∃ claim, FMembershipAsserted claim c r ∈ facts ∧ FMembershipWithdrawn claim ∉ facts.

Definition captured (r : RevisionId) : Prop := ∃ h, FRevision r h ∈ facts.

Definition member (r : RevisionId) : Prop := claims_member r ∧ captured r.

(** A replacement claim nobody withdrew. *)
Definition claims_relation (s p : RevisionRefV1) : Prop :=
  ∃ claim, FRelationAsserted claim c s p ∈ facts ∧ FRelationWithdrawn claim ∉ facts.

(** The recorded artifact of the referenced revision is the referenced one, only. *)
Definition exact_ref (x : RevisionRefV1) : Prop :=
  ∀ h, FRevision (rr_revision_id x) h ∈ facts ↔ h = rr_object_artifact_content_hash x.

(** The effective replacement edges of the Change. *)
Definition effective (s p : RevisionId) : Prop :=
  ∃ sr pr, claims_relation sr pr ∧ rr_revision_id sr = s ∧ rr_revision_id pr = p ∧
    exact_ref sr ∧ exact_ref pr ∧ member s ∧ member p.

Definition is_current (r : RevisionId) : Prop := member r ∧ ∀ s, ¬ effective s r.

(** Two artifacts recorded for one revision. *)
Definition artifact_conflict (r : RevisionId) : Prop :=
  ∃ h h', FRevision r h ∈ facts ∧ FRevision r h' ∈ facts ∧ h ≠ h'.
End spec.

(** ** Lookups *)

Section lookups.
Context (facts : list ChangeProjectionFact).
Abbreviation input := (fold_input facts).

Lemma known_revision_captured r : known_revision input r = true ↔ captured facts r.
Proof.
  unfold known_revision, captured. setoid_rewrite <- fold_revisions.
  destruct (fi_revisions input !! r) as [hs|] eqn:E.
  - split; [|done]. intros _. apply fold_revisions_nonempty in E.
    apply set_choose_L in E as [h Hh]. by exists h.
  - split; [done|]. intros [h Hh]. by apply elem_of_empty in Hh.
Qed.

Lemma exactly_exact r h :
  exactly (fi_revisions input !! r) h = true ↔ ∀ h', FRevision r h' ∈ facts ↔ h' = h.
Proof.
  setoid_rewrite <- fold_revisions. unfold exactly.
  destruct (fi_revisions input !! r) as [hs|] eqn:E; cbn [from_option id].
  - rewrite andb_true_iff, Nat.eqb_eq, bool_decide_eq_true. split.
    + intros [Hs Hh] h'. split; [|by intros ->]. intros Hh'.
      apply size_1_elem_of in Hs as [x Hx]. set_solver.
    + intros Hh. assert (hs = {[h]}) as -> by set_solver. by rewrite size_singleton, elem_of_singleton.
  - split; [done|]. intros Hh. specialize (Hh h). set_solver.
Qed.

Lemma conflicting_conflict r :
  conflicting (fi_revisions input !! r) = true ↔ artifact_conflict facts r.
Proof.
  unfold artifact_conflict. setoid_rewrite <- fold_revisions. unfold conflicting.
  destruct (fi_revisions input !! r) as [hs|] eqn:E; cbn [from_option id].
  - rewrite Nat.ltb_lt. split.
    + intros Hs. destruct (set_choose_or_empty hs) as [[h Hh]|He];
        [|apply leibniz_equiv in He; rewrite He, size_empty in Hs; lia].
      destruct (set_choose_or_empty (hs ∖ {[h]})) as [[h' Hh']|He].
      * exists h, h'. set_solver.
      * assert (hs = {[h]}) as -> by (apply set_eq; intros x; destruct (decide (x = h)); set_solver).
        rewrite size_singleton in Hs. lia.
    + intros (h & h' & Hh & Hh' & Hne). destruct (decide (size hs ≤ 1)) as [Hs|]; [|lia]. exfalso.
      assert ({[h; h']} ⊆ hs) as Hsub by set_solver. apply subseteq_size in Hsub.
      rewrite size_union, !size_singleton in Hsub by set_solver. lia.
  - split; [done|]. set_solver.
Qed.

Context (Hc : consistent facts).

Lemma membership_claim_lookup p :
  p ∈ iter_map (fi_memberships input) ↔
  FMembershipAsserted p.1 (mf_change_id p.2) (mf_revision_id p.2) ∈ facts.
Proof using Hc.
  destruct p as [claim [c r]]. rewrite elem_of_iter_map. by apply fold_memberships.
Qed.

Lemma relation_claim_lookup p :
  p ∈ iter_map (fi_relations input) ↔
  FRelationAsserted p.1 (rf_change_id p.2) (rf_successor p.2) (rf_predecessor p.2) ∈ facts.
Proof using Hc.
  destruct p as [claim [c s q]]. rewrite elem_of_iter_map. by apply fold_relations.
Qed.

Lemma active_membership_claim c p :
  p ∈ iter_map (fi_memberships input) ∧ active_membership input c p = true ↔
  FMembershipAsserted p.1 c (mf_revision_id p.2) ∈ facts ∧ FMembershipWithdrawn p.1 ∉ facts ∧
  mf_change_id p.2 = c.
Proof using Hc.
  rewrite membership_claim_lookup. unfold active_membership.
  rewrite andb_true_iff, negb_true_iff, bool_decide_eq_false, fold_membership_withdrawals.
  destruct (String.eqb_spec (mf_change_id p.2) c); naive_solver.
Qed.

Lemma active_member_exists c (Q : RevisionId → bool) :
  (∃ p, p ∈ iter_map (fi_memberships input) ∧
    (active_membership input c p && Q (mf_revision_id p.2)) = true) ↔
  ∃ r, claims_member facts c r ∧ Q r = true.
Proof using Hc.
  setoid_rewrite andb_true_iff. split.
  - intros (p & Hp & Ha & HQ). destruct (proj1 (active_membership_claim c p)) as (H1 & H2 & _); [done|].
    exists (mf_revision_id p.2). split; [by exists p.1|done].
  - intros (r & (claim & H1 & H2) & HQ).
    destruct (proj2 (active_membership_claim c (claim, {| mf_change_id := c; mf_revision_id := r |})))
      as [H3 H4]; [done|]. eexists. split_and!; [exact H3|exact H4|done].
Qed.

Lemma elem_of_change_members c r : r ∈ change_members input c ↔ member facts c r.
Proof using Hc.
  unfold change_members, member. rewrite <- known_revision_captured.
  unfold set_of_list. rewrite elem_of_list_to_set, list_elem_of_fmap. split.
  - intros (p & -> & Hp%list_elem_of_In%List.filter_In). destruct Hp as [Hp%list_elem_of_In Ha].
    apply andb_true_iff in Ha as [Ha Hk].
    destruct (proj1 (active_membership_claim c p)) as (H1 & H2 & _); [done|].
    split; [by exists p.1|done].
  - intros [(claim & H1 & H2) Hk].
    destruct (proj2 (active_membership_claim c (claim, {| mf_change_id := c; mf_revision_id := r |})))
      as [H3 H4]; [done|]. eexists (_, _). split; [|apply list_elem_of_In, List.filter_In; split;
        [by apply list_elem_of_In|by rewrite H4]]. done.
Qed.

Lemma missing_member c :
  existsb (λ p, active_membership input c p && negb (known_revision input (mf_revision_id p.2)))
    (iter_map (fi_memberships input)) = true ↔
  ∃ r, claims_member facts c r ∧ ¬ captured facts r.
Proof using Hc.
  rewrite existsb_exists. setoid_rewrite <- list_elem_of_In.
  rewrite (active_member_exists c (λ r, negb (known_revision input r))).
  setoid_rewrite negb_true_iff. setoid_rewrite <- not_true_iff_false.
  by setoid_rewrite known_revision_captured.
Qed.
End lookups.

(** ** The relation loop *)

(** How the loop treats one claim. *)
Inductive relation_class :=
| RSkip
| RConflict
| RMismatch
| ROutside
| REdge (e : RevisionId * RevisionId).

Section loop.
Context (input : FoldInput) (c : ChangeId) (members : gset RevisionId).

Definition classify_relation (p : ChangeRevisionRelationClaimId * ChangeRelationFact)
    : relation_class :=
  let s := rf_successor p.2 in
  let q := rf_predecessor p.2 in
  let hs := fi_revisions input !! rr_revision_id s in
  let hq := fi_revisions input !! rr_revision_id q in
  if negb (String.eqb (rf_change_id p.2) c) ||
      bool_decide (p.1 ∈ fi_relation_withdrawals input) then RSkip
  else if conflicting hs || conflicting hq then RConflict
  else if negb (exactly hs (rr_object_artifact_content_hash s) &&
                exactly hq (rr_object_artifact_content_hash q)) then RMismatch
  else if negb (bool_decide (rr_revision_id s ∈ members)) ||
      negb (bool_decide (rr_revision_id q ∈ members)) then ROutside
  else REdge (rr_revision_id s, rr_revision_id q).

Definition class_incomplete (k : relation_class) : bool :=
  match k with RMismatch | ROutside => true | _ => false end.
Definition class_conflict (k : relation_class) : bool :=
  match k with RConflict => true | _ => false end.

Lemma relation_step_class s p :
  let k := classify_relation p in
  let s' := relation_step input c members s p in
  rl_incomplete s' = rl_incomplete s || class_incomplete k ∧
  rl_revision_conflict s' = rl_revision_conflict s || class_conflict k ∧
  (∀ e, e ∈ rl_supersedes s' ↔ e ∈ rl_supersedes s ∨ k = REdge e).
Proof.
  unfold relation_step, classify_relation. cbn zeta.
  destruct (negb _ || bool_decide _); [cbn; rewrite !orb_false_r; naive_solver|].
  destruct (conflicting _ || conflicting _);
    [cbn; rewrite ?orb_false_r, ?orb_true_r; naive_solver|].
  destruct (negb (exactly _ _ && _)); [cbn; rewrite ?orb_false_r, ?orb_true_r; naive_solver|].
  destruct (negb _ || negb _); [cbn; rewrite ?orb_false_r, ?orb_true_r; naive_solver|].
  cbn. rewrite !orb_false_r. split_and!; [done..|]. intros e.
  rewrite elem_of_union, elem_of_singleton. naive_solver.
Qed.

Lemma relation_loop_spec s l :
  let s' := foldl (relation_step input c members) s l in
  rl_incomplete s' = rl_incomplete s || existsb (λ p, class_incomplete (classify_relation p)) l ∧
  rl_revision_conflict s' =
    rl_revision_conflict s || existsb (λ p, class_conflict (classify_relation p)) l ∧
  (∀ e, e ∈ rl_supersedes s' ↔
    e ∈ rl_supersedes s ∨ ∃ p, p ∈ l ∧ classify_relation p = REdge e).
Proof.
  revert s. induction l as [|p l IH]; intros s; cbn.
  { rewrite !orb_false_r. split_and!; [done..|]. intros e.
    split; [by left|]. intros [?|(p & ?%elem_of_nil & _)]; done. }
  destruct (relation_step_class s p) as (H1 & H2 & H3).
  destruct (IH (relation_step input c members s p)) as (I1 & I2 & I3).
  rewrite I1, I2, H1, H2, !orb_assoc. split_and!; [done..|]. intros e. rewrite I3, H3.
  setoid_rewrite elem_of_cons. naive_solver.
Qed.
End loop.

Section relations.
Context (facts : list ChangeProjectionFact) (c : ChangeId) (Hc : consistent facts).
Abbreviation input := (fold_input facts).
Abbreviation members := (change_members input c).

(** The claims the loop does not skip are the claims on this Change nobody withdrew. *)
Lemma relation_claims (Q : relation_class → bool) (HQ : Q RSkip = false) :
  existsb (λ p, Q (classify_relation input c members p)) (iter_map (fi_relations input)) = true ↔
  ∃ claim s q, FRelationAsserted claim c s q ∈ facts ∧ FRelationWithdrawn claim ∉ facts ∧
    Q (classify_relation input c members
      (claim, {| rf_change_id := c; rf_successor := s; rf_predecessor := q |})) = true.
Proof using Hc.
  rewrite existsb_exists. setoid_rewrite <- list_elem_of_In. split.
  - intros ([claim [c' s q]] & Hp & Hk). apply (relation_claim_lookup facts Hc) in Hp. cbn in Hp.
    exists claim, s, q. unfold classify_relation in Hk |- *. cbn in Hk |- *.
    destruct (String.eqb_spec c' c) as [->|]; [|cbn in Hk; congruence]. cbn [negb orb] in Hk.
    rewrite String.eqb_refl. cbn [negb orb].
    destruct (bool_decide_reflect (claim ∈ fi_relation_withdrawals input)) as [|Hw]; [congruence|].
    by rewrite fold_relation_withdrawals in Hw.
  - intros (claim & s & q & H1 & H2 & Hk). eexists. split; [|exact Hk].
    by apply (relation_claim_lookup facts Hc).
Qed.

Lemma classify_claim claim s q :
  FRelationWithdrawn claim ∉ facts →
  let p := (claim, {| rf_change_id := c; rf_successor := s; rf_predecessor := q |}) in
  let ok := exact_ref facts s ∧ exact_ref facts q ∧ member facts c (rr_revision_id s) ∧
    member facts c (rr_revision_id q) in
  match classify_relation input c members p with
  | RSkip => False
  | RConflict =>
      artifact_conflict facts (rr_revision_id s) ∨ artifact_conflict facts (rr_revision_id q)
  | RMismatch | ROutside => ¬ ok ∧ ¬ (artifact_conflict facts (rr_revision_id s) ∨
      artifact_conflict facts (rr_revision_id q))
  | REdge e => ok ∧ e = (rr_revision_id s, rr_revision_id q)
  end.
Proof using Hc.
  intros Hw. cbn zeta. unfold classify_relation. cbn.
  rewrite String.eqb_refl, (bool_decide_eq_false_2 (claim ∈ fi_relation_withdrawals input))
    by by rewrite fold_relation_withdrawals.
  cbn [negb orb].
  destruct (conflicting _ || conflicting _) eqn:E1.
  { by rewrite orb_true_iff, !conflicting_conflict in E1. }
  apply not_true_iff_false in E1. rewrite orb_true_iff, !conflicting_conflict in E1.
  destruct (exactly _ _ && exactly _ _) eqn:E2; cbn [negb].
  - rewrite andb_true_iff, !exactly_exact in E2. destruct E2 as [E2 E3].
    destruct (bool_decide_reflect (rr_revision_id s ∈ members)) as [Hs|Hs];
      rewrite elem_of_change_members in Hs by done; [|cbn; naive_solver].
    destruct (bool_decide_reflect (rr_revision_id q ∈ members)) as [Hq|Hq];
      rewrite elem_of_change_members in Hq by done; [|cbn; naive_solver].
    cbn. done.
  - split; [|done]. intros (H1 & H2 & _). apply not_true_iff_false in E2. apply E2.
    by rewrite andb_true_iff, !exactly_exact.
Qed.

Lemma exact_no_conflict x : exact_ref facts x → ¬ artifact_conflict facts (rr_revision_id x).
Proof using. intros Hx (h & h' & H1 & H2 & Hne). apply Hx in H1, H2. congruence. Qed.

Lemma effective_class s q :
  (∃ p, p ∈ iter_map (fi_relations input) ∧ classify_relation input c members p = REdge (s, q)) ↔
  effective facts c s q.
Proof using Hc.
  set (Q k := match k with REdge e => bool_decide (e = (s, q)) | _ => false end).
  transitivity (existsb (λ p, Q (classify_relation input c members p))
    (iter_map (fi_relations input)) = true).
  { rewrite existsb_exists. setoid_rewrite <- list_elem_of_In. unfold Q.
    split; intros (p & Hp & Hk); exists p; (split; [done|]);
      destruct (classify_relation input c members p); try done.
    - injection Hk as ->. by apply bool_decide_eq_true.
    - apply bool_decide_eq_true in Hk. by rewrite Hk. }
  rewrite relation_claims by done. unfold effective. split.
  - intros (claim & sr & qr & H1 & H2 & Hk). pose proof (classify_claim claim sr qr H2) as Hcl; cbn zeta in Hcl.
    unfold Q in Hk. destruct (classify_relation _ _ _ _); try done.
    destruct Hcl as [(? & ? & ? & ?) ->]. apply bool_decide_eq_true in Hk as [= <- <-].
    exists sr, qr. split; [by exists claim|done].
  - intros (sr & qr & (claim & H1 & H2) & <- & <- & E1 & E2 & M1 & M2). exists claim, sr, qr.
    split_and!; [done..|]. pose proof (classify_claim claim sr qr H2) as Hcl; cbn zeta in Hcl.
    destruct (classify_relation _ _ _ _).
    + done.
    + destruct Hcl as [Hx|Hx]; by apply exact_no_conflict in Hx.
    + by destruct Hcl as [[] _].
    + by destruct Hcl as [[] _].
    + destruct Hcl as [_ ->]. by apply bool_decide_eq_true.
Qed.

(** No claim is left over exactly when every active claim is an effective edge. *)
Lemma loop_clean :
  existsb (λ p, class_incomplete (classify_relation input c members p))
    (iter_map (fi_relations input)) = false ∧
  existsb (λ p, class_conflict (classify_relation input c members p))
    (iter_map (fi_relations input)) = false ↔
  ∀ s q, claims_relation facts c s q →
    exact_ref facts s ∧ exact_ref facts q ∧ member facts c (rr_revision_id s) ∧
    member facts c (rr_revision_id q).
Proof using Hc.
  rewrite <- !not_true_iff_false, !relation_claims by done. split.
  - intros [Hi Hk] s q (claim & H1 & H2). pose proof (classify_claim claim s q H2) as Hcl; cbn zeta in Hcl.
    destruct (classify_relation input c members
      (claim, {| rf_change_id := c; rf_successor := s; rf_predecessor := q |})) eqn:E.
    + done.
    + exfalso. apply Hk. exists claim, s, q. by rewrite E.
    + exfalso. apply Hi. exists claim, s, q. by rewrite E.
    + exfalso. apply Hi. exists claim, s, q. by rewrite E.
    + by destruct Hcl.
  - intros Hall. split; intros (claim & s & q & H1 & H2 & Hk);
      pose proof (classify_claim claim s q H2) as Hcl; cbn zeta in Hcl;
      destruct (Hall s q ltac:(by exists claim)) as (E1 & E2 & M);
      destruct (classify_relation _ _ _ _); try done; try (by destruct Hcl as [[] _]).
    destruct Hcl as [Hx|Hx]; by apply exact_no_conflict in Hx.
Qed.

(** No claim dangles exactly when every active claim is an effective edge or has an
    endpoint with conflicting artifacts. *)
Lemma loop_complete :
  existsb (λ p, class_incomplete (classify_relation input c members p))
    (iter_map (fi_relations input)) = false ↔
  ∀ s q, claims_relation facts c s q →
    artifact_conflict facts (rr_revision_id s) ∨ artifact_conflict facts (rr_revision_id q) ∨
    (exact_ref facts s ∧ exact_ref facts q ∧ member facts c (rr_revision_id s) ∧
     member facts c (rr_revision_id q)).
Proof using Hc.
  rewrite <- not_true_iff_false, relation_claims by done. split.
  - intros Hi s q (claim & H1 & H2). pose proof (classify_claim claim s q H2) as Hcl; cbn zeta in Hcl.
    destruct (classify_relation input c members
      (claim, {| rf_change_id := c; rf_successor := s; rf_predecessor := q |})) eqn:E.
    + done.
    + tauto.
    + exfalso. apply Hi. exists claim, s, q. by rewrite E.
    + exfalso. apply Hi. exists claim, s, q. by rewrite E.
    + tauto.
  - intros Hall (claim & s & q & H1 & H2 & Hk).
    pose proof (classify_claim claim s q H2) as Hcl; cbn zeta in Hcl.
    destruct (Hall s q ltac:(by exists claim)) as [?|[?|?]];
      destruct (classify_relation _ _ _ _); tauto || done.
Qed.
End relations.

(** ** Assessments *)

Section assessments.
Context (facts : list ChangeProjectionFact) (Hc : consistent facts) (r : RevisionId).
Abbreviation input := (fold_input facts).
Abbreviation records := (default ∅ (fi_assessments input !! r)).

(** Recorded, and named as replaced by no record of the revision. *)
Definition standing (a : AssessmentId) : Prop :=
  (∃ e x xs, earliest facts r a e x xs) ∧
  ∀ a' e x xs, earliest facts r a' e x xs → a ∉ xs.

(** Exactly one assessment stands, and it accepts. *)
Definition accepted_revision : Prop :=
  ∃ a e x xs, earliest facts r a e x xs ∧ is_accepting x = true ∧ ∀ a', standing a' ↔ a' = a.

Definition record_values : list ChangeAssessmentFact := snd <$> map_values records.

Lemma elem_of_record_values v :
  v ∈ record_values ↔ ∃ e, earliest facts r (af_assessment_id v) e (af_assessment v) (af_replaces v).
Proof using Hc.
  unfold record_values, map_values. rewrite list_elem_of_fmap. setoid_rewrite list_elem_of_fmap. split.
  - intros ([e' v'] & -> & ([a w] & [= <-] & Hin%elem_of_iter_map)). apply fold_assessments in Hin; [|done].
    destruct Hin as (e & x & xs & [= -> ->] & He). by exists e.
  - intros (e & He). destruct v as [a x xs]. cbn in He.
    exists (e, {| af_assessment_id := a; af_assessment := x; af_replaces := xs |}). split; [done|].
    eexists (a, _). split; [reflexivity|]. apply elem_of_iter_map, fold_assessments; [done|].
    by exists e, x, xs.
Qed.

Lemma record_values_keys : af_assessment_id <$> record_values = map_keys records.
Proof using Hc.
  unfold record_values, map_values, map_keys. rewrite <- !list_fmap_compose.
  apply list_fmap_ext. intros i [a v] Hi. cbn. apply list_elem_of_lookup_2, elem_of_iter_map in Hi.
  apply fold_assessments in Hi; [|done]. by destruct Hi as (e & x & xs & -> & _).
Qed.

Lemma NoDup_record_values : NoDup record_values.
Proof using Hc.
  apply (NoDup_fmap_1 af_assessment_id). rewrite record_values_keys. apply NoDup_map_keys.
Qed.

Definition standing_values : list ChangeAssessmentFact :=
  List.filter (λ v, negb (bool_decide
    (af_assessment_id v ∈ (set_of_list (concat (af_replaces <$> record_values)) : gset string))))
    record_values.

Lemma elem_of_standing_values v :
  v ∈ standing_values ↔ v ∈ record_values ∧ standing (af_assessment_id v).
Proof using Hc.
  unfold standing_values. rewrite list_elem_of_In, List.filter_In, <- list_elem_of_In.
  rewrite negb_true_iff, bool_decide_eq_false. unfold set_of_list.
  rewrite elem_of_list_to_set, elem_of_concat. split.
  - intros [Hin Hn]. split; [done|]. apply elem_of_record_values in Hin as [e He]. split; [eauto|].
    intros a' e' x xs He' Ha. apply Hn. exists xs. split; [done|]. apply list_elem_of_fmap.
    exists {| af_assessment_id := a'; af_assessment := x; af_replaces := xs |}.
    split; [done|]. apply elem_of_record_values. by exists e'.
  - intros [Hin [_ Hs]]. split; [done|]. intros (xs & Ha & (w & -> & Hw)%list_elem_of_fmap).
    apply elem_of_record_values in Hw as [e He]. by eapply Hs.
Qed.

Lemma has_one_accepting_spec :
  has_one_accepting_assessment r (fi_assessments input) = true ↔ accepted_revision.
Proof using Hc.
  assert (has_one_accepting_assessment r (fi_assessments input) =
    match standing_values with [v] => is_accepting (af_assessment v) | _ => false end) as ->.
  { unfold has_one_accepting_assessment, standing_values, record_values.
    by destruct (fi_assessments input !! r). }
  assert (NoDup standing_values) as Hnd 
    by (apply NoDup_ListNoDup, List.NoDup_filter, NoDup_ListNoDup, NoDup_record_values).
  unfold accepted_revision. split.
  - destruct standing_values as [|v []] eqn:E; try done. intros Hacc.
    assert (v ∈ standing_values) as Hv by (rewrite E; left).
    apply elem_of_standing_values in Hv as [[e He]%elem_of_record_values Hs].
    exists (af_assessment_id v), e, (af_assessment v), (af_replaces v). split_and!; [done..|].
    intros a'. split; [|by intros ->]. intros Hs'. destruct Hs' as [(e' & x' & xs' & He') Hn].
    assert ({| af_assessment_id := a'; af_assessment := x'; af_replaces := xs' |} ∈ standing_values) as Hin.
    { apply elem_of_standing_values. split; [apply elem_of_record_values; by exists e'|].
      by split; [eauto|]. }
    rewrite E, list_elem_of_singleton in Hin. by rewrite <- Hin.
  - intros (a & e & x & xs & He & Hacc & Hs).
    set (v := {| af_assessment_id := a; af_assessment := x; af_replaces := xs |}).
    assert (v ∈ record_values) as Hvr by (apply elem_of_record_values; by exists e).
    assert (∀ w, w ∈ standing_values ↔ w = v) as Hall.
    { intros w. rewrite elem_of_standing_values, Hs. split.
      - intros [Hw Ha]. apply elem_of_record_values in Hw as [e' He']. rewrite Ha in He'.
        destruct w as [a' x' xs']. cbn in *. subst a'.
        destruct He as [H1 M1], He' as [H2 M2].
        assert (e = e') as -> by (apply cmp_antisym; eauto).
        destruct (consistent_assessments _ Hc _ _ _ _ _ _ _ H1 H2) as [-> ->]. done.
      - by intros ->. }
    destruct standing_values as [|w [|w' l]] eqn:E.
    + by assert (v ∈ []) as ?%elem_of_nil by by apply Hall.
    + assert (w = v) as -> by (apply Hall; left). done.
    + assert (w = v) as -> by (apply Hall; left). assert (w' = v) as -> by (apply Hall; right; left).
      apply NoDup_cons in Hnd as [Hnd _]. exfalso. apply Hnd. left.
Qed.
End assessments.

(** ** Obligations *)

Section obligations.
Context (facts : list ChangeProjectionFact) (Hc : consistent facts).
Abbreviation input := (fold_input facts).

(** A port carries the open request to a revision where the target request is open. *)
Definition carried_to (q : InputRequestId) (r : RevisionId) : Prop :=
  ∃ port t, FFactPort port ∈ facts ∧ fp_origin_fact port = FactInputRequest q ∧
    fp_relation port = CarriedOpenAs ∧ fp_target_fact port = Some (FactInputRequest t) ∧
    rr_revision_id (fp_target_revision port) = r ∧ FOperativeRequest t r ∈ facts.

(** Answered once, or unanswered and carried to exactly the current revisions. *)
Definition resolved (current : RevisionId → Prop) (q : InputRequestId) : Prop :=
  response_count facts q = 1 ∨
  (response_count facts q = 0 ∧ ∀ r, carried_to q r ↔ current r).

Lemma carries_spec q port r :
  carries input q port = Some r ↔
  fp_origin_fact port = FactInputRequest q ∧ fp_relation port = CarriedOpenAs ∧
  rr_revision_id (fp_target_revision port) = r ∧
  ∃ t, fp_target_fact port = Some (FactInputRequest t) ∧ FOperativeRequest t r ∈ facts.
Proof using Hc.
  unfold carries. destruct (fp_origin_fact port) as [|o]; [naive_solver|].
  destruct (fp_relation port); try naive_solver.
  destruct (fp_target_fact port) as [[|t]|]; try naive_solver.
  destruct (String.eqb_spec o q) as [->|]; [|naive_solver]. cbn [andb].
  case_bool_decide as E; rewrite fold_requests in E by done; [naive_solver|].
  split; [done|]. intros (_ & _ & <- & t' & [= <-] & ?). done.
Qed.

Lemma carried_set q (X : gset RevisionId) (P : RevisionId → Prop) :
  (∀ r, r ∈ X ↔ P r) →
  set_of_list (omap (carries input q) (fi_fact_ports input)) = X ↔ ∀ r, carried_to q r ↔ P r.
Proof using Hc.
  intros HX. assert (∀ r, r ∈ (set_of_list (omap (carries input q) (fi_fact_ports input)) : gset _) ↔
    carried_to q r) as Hcar.
  { intros r. unfold set_of_list. rewrite elem_of_list_to_set, list_elem_of_omap.
    unfold carried_to. setoid_rewrite fold_fact_ports. setoid_rewrite carries_spec. naive_solver. }
  rewrite set_eq. setoid_rewrite Hcar. setoid_rewrite HX. done.
Qed.

Lemma unresolved_spec (members current : gset RevisionId) (P : RevisionId → Prop) q :
  (∀ r, r ∈ current ↔ P r) →
  q ∈ os_unresolved_requests (operative_obligation_status members current input) ↔
  ∃ r, FOperativeRequest q r ∈ facts ∧ r ∈ members ∧ ¬ resolved P q.
Proof using Hc.
  intros HP. unfold operative_obligation_status.
  assert (∀ l st, q ∈ os_unresolved_requests (foldl (obligation_step members current input) st l) ↔
    q ∈ os_unresolved_requests st ∨ ∃ r, (q, r) ∈ l ∧ r ∈ members ∧ ¬ resolved P q) as Hfold.
  { induction l as [|[q' r'] l IH]; intros st; cbn [foldl].
    { split; [by left|]. intros [?|(? & ?%elem_of_nil & _)]; done. }
    rewrite IH. setoid_rewrite elem_of_cons.
    assert (q ∈ os_unresolved_requests (obligation_step members current input st (q', r')) ↔
      q ∈ os_unresolved_requests st ∨ (q = q' ∧ r' ∈ members ∧ ¬ resolved P q')) as ->;
      [|naive_solver].
    unfold obligation_step, resolved. rewrite fold_response_count.
    destruct (bool_decide_reflect (r' ∈ members)); cbn [negb]; [|naive_solver].
    destruct (response_count facts q') as [|[|n]].
    - case_bool_decide as E; rewrite (carried_set q' current P HP) in E; cbn [negb].
      + naive_solver.
      + cbn. rewrite elem_of_union, elem_of_singleton. naive_solver.
    - naive_solver.
    - cbn. rewrite elem_of_union, elem_of_singleton. naive_solver lia. }
  rewrite Hfold. cbn. setoid_rewrite elem_of_iter_map. setoid_rewrite fold_requests; [|done].
  set_solver.
Qed.
End obligations.

(** ** Declarations *)

Section declarations.
Context `{DigestLaws} (facts : list ChangeProjectionFact) (c : ChangeId).
Abbreviation input := (fold_input facts).

Definition declared : Prop := ∃ d, FDeclaration c d ∈ facts.

(** Every declaration derives the Change's id, and all carry one descriptor. *)
Definition agreed : Prop :=
  (∀ d, FDeclaration c d ∈ facts → derive_change_id d = Ok c) ∧
  (∀ d d', FDeclaration c d ∈ facts → FDeclaration c d' ∈ facts → d = d').

Lemma derive_fold l b m :
  try_fold (λ (m : bool) (d : ChangeDeclarationFact),
    let? derived := derive_change_id (df_identity_descriptor d) in
    Ok (m || negb (String.eqb derived c))) b l = Ok m →
  m = false ↔ b = false ∧ ∀ d, d ∈ l → derive_change_id (df_identity_descriptor d) = Ok c.
Proof.
  revert b. induction l as [|d l IH]; intros b; cbn [try_fold].
  { intros [= ->]. split; [intros ->; split; [done|by intros ? ?%elem_of_nil]|by intros []]. }
  intros (b' & (id & Hid & [= <-])%bind_Ok & Hm)%bind_Ok. apply IH in Hm. rewrite Hm, orb_false_iff.
  setoid_rewrite elem_of_cons. destruct (String.eqb_spec id c) as [->|Hne]; cbn [negb]; [naive_solver|].
  split; [naive_solver|]. intros [_ Hall]. specialize (Hall d (or_introl eq_refl)). congruence.
Qed.

Lemma distinct_le_1 {A} (f : A → string) (l : list A) :
  (1 <? size (set_of_list (f <$> l) : gset string)) = false ↔ ∀ x y, x ∈ l → y ∈ l → f x = f y.
Proof.
  rewrite Nat.ltb_ge. unfold set_of_list. split.
  - intros Hs x y Hx Hy. destruct (decide (f x = f y)) as [|Hne]; [done|]. exfalso.
    assert ({[f x; f y]} ⊆ (list_to_set (f <$> l) : gset string)) as Hsub.
    { intros z. rewrite elem_of_union, !elem_of_singleton, elem_of_list_to_set, list_elem_of_fmap.
      intros [->| ->]; eauto. }
    apply subseteq_size in Hsub. rewrite size_union, !size_singleton in Hsub by set_solver. lia.
  - intros Hall. destruct l as [|x l]; [cbn; rewrite size_empty; lia|].
    transitivity (size ({[f x]} : gset string)); [|by rewrite size_singleton].
    apply subseteq_size. intros z. rewrite elem_of_list_to_set, list_elem_of_fmap.
    intros (y & -> & Hy). apply elem_of_singleton. apply Hall; [done|left].
Qed.

Lemma declaration_status_spec u k ds :
  declaration_status c (fi_declarations input !! c) = Ok (u, k, ds) →
  (u = false ↔ declared) ∧ (u = false → k = false ↔ agreed).
Proof.
  unfold declared, agreed. setoid_rewrite <- fold_declarations.
  pose proof (fold_declarations_nonempty facts c) as Hne.
  destruct (fi_declarations input !! c) as [l|] eqn:E; cbn [declaration_status].
  - intros (m & Hm & [= <- <- _])%bind_Ok. apply derive_fold in Hm. split.
    { split; [|done]. intros _. destruct l as [|[d] l]; [done|]. exists d, (({| df_identity_descriptor := d |}) :: l).
      split; [done|left]. }
    intros _. rewrite orb_false_iff, Hm, distinct_le_1. split.
    + intros [[_ H1] H2]. split.
      * intros d (? & [= <-] & Hd). by apply H1 in Hd.
      * intros d d' (? & [= <-] & Hd) (? & [= <-] & Hd'). specialize (H2 _ _ Hd Hd').
        apply json_text_inj in H2. cbn in H2. apply to_json_inj. rewrite H2. constructor.
    + intros [H1 H2]. split_and!; [done| |].
      * intros [d] Hd. cbn. apply H1. by exists l.
      * intros [d] [d'] Hd Hd'. cbn. f_equal. f_equal. apply H2; by exists l.
  - intros [= <- <- _]. split; [|done]. split; [done|]. naive_solver.
Qed.
End declarations.

(** ** Views *)

Section views.
Context `{DigestLaws} (facts : list ChangeProjectionFact) (Hc : consistent facts) (c : ChangeId).
Abbreviation input := (fold_input facts).

(** Membership of the view is exactly the specification's. *)
Record view_matches (v : ChangeView) : Prop := {
  vm_members r : r ∈ cv_members v ↔ member facts c r;
  vm_supersedes s p : (s, p) ∈ cv_supersedes v ↔ effective facts c s p;
  vm_current r : r ∈ cv_current_revisions v ↔ is_current facts c r;
  vm_qualified r : r ∈ cv_qualified_current_revisions v ↔
    is_current facts c r ∧ accepted_revision facts r;
  vm_obligations q : q ∈ cv_operative_obligations v ↔
    ∃ r, FOperativeRequest q r ∈ facts ∧ member facts c r ∧ ¬ resolved facts (is_current facts c) q
}.

(** Nothing about the Change is missing. *)
Definition complete : Prop :=
  declared facts c ∧ (∃ r, member facts c r) ∧
  (∀ r, claims_member facts c r → captured facts r) ∧
  (∀ s p, claims_relation facts c s p →
    artifact_conflict facts (rr_revision_id s) ∨ artifact_conflict facts (rr_revision_id p) ∨
    (exact_ref facts s ∧ exact_ref facts p ∧ member facts c (rr_revision_id s) ∧
     member facts c (rr_revision_id p))).

Lemma project_change_inv v :
  project_change input c = Ok v →
  ∃ u k ds,
    let members := change_members input c in
    let missing := existsb (λ p, active_membership input c p &&
      negb (known_revision input (mf_revision_id p.2))) (iter_map (fi_memberships input)) in
    let loop_incomplete := existsb (λ p, class_incomplete (classify_relation input c members p))
      (iter_map (fi_relations input)) in
    let loop_conflict := existsb (λ p, class_conflict (classify_relation input c members p))
      (iter_map (fi_relations input)) in
    let incomplete := u || missing || bool_decide (members = ∅) || loop_incomplete in
    let conflict := existsb (λ r, conflicting (fi_revisions input !! r)) (iter_set members) ||
      loop_conflict in
    let cycle := revision_graph_has_cycle members (cv_supersedes v) in
    let divergent := negb cycle &&
      replacement_heads_diverge (cv_current_revisions v) (cv_supersedes v) in
    declaration_status c (fi_declarations input !! c) = Ok (u, k, ds) ∧
    cv_members v = members ∧
    (∀ s p, (s, p) ∈ cv_supersedes v ↔ effective facts c s p) ∧
    cv_current_revisions v = current_revisions members (cv_supersedes v) ∧
    cv_qualified_current_revisions v =
      filter (λ r, has_one_accepting_assessment r (fi_assessments input) = true)
        (cv_current_revisions v) ∧
    cv_operative_obligations v = os_unresolved_requests
      (operative_obligation_status members (cv_current_revisions v) input) ∧
    cv_topology v = change_topology incomplete cycle divergent (cv_supersedes v)
      (cv_current_revisions v) ∧
    cv_lifecycle v = change_lifecycle incomplete (cycle || divergent || k || conflict)
      (cv_current_revisions v) (cv_qualified_current_revisions v) (cv_operative_obligations v).
Proof.
  unfold project_change. intros ([[u k] ds] & Hd & Hv)%bind_Ok. exists u, k, ds. cbn zeta.
  destruct (relation_loop_spec input c (change_members input c)
    {| rl_incomplete := u || existsb (λ p, active_membership input c p &&
         negb (known_revision input (mf_revision_id p.2))) (iter_map (fi_memberships input)) ||
         bool_decide (change_members input c = ∅);
       rl_revision_conflict := existsb (λ r, conflicting (fi_revisions input !! r))
         (iter_set (change_members input c));
       rl_diagnostics := insert_if (existsb (λ r, conflicting (fi_revisions input !! r))
         (iter_set (change_members input c))) "change_member_revision_artifact_conflict"
         (insert_if (bool_decide (change_members input c = ∅)) "change_membership_empty"
           (insert_if (existsb (λ p, active_membership input c p &&
              negb (known_revision input (mf_revision_id p.2))) (iter_map (fi_memberships input)))
              "change_membership_revision_missing" ds));
       rl_supersedes := ∅ |} (iter_map (fi_relations input))) as (L1 & L2 & L3).
  cbn [rl_incomplete rl_revision_conflict rl_supersedes] in L1, L2, L3.
  set (loop := foldl _ _ _) in *. injection Hv as <-.
  cbn [cv_members cv_supersedes cv_current_revisions cv_qualified_current_revisions
    cv_operative_obligations cv_topology cv_lifecycle].
  rewrite L1, L2. split_and!; try done.
  intros s p. rewrite L3, effective_class by done. set_solver.
Qed.
Lemma view_matches_spec v : project_change input c = Ok v → view_matches v.
Proof.
  intros Hv. destruct (project_change_inv v Hv) as (u & k & ds & _ & Hm & Hs & Hcur & Hq & Ho & _).
  assert (∀ r, r ∈ cv_members v ↔ member facts c r) as Hmem.
  { intros r. rewrite Hm. by apply elem_of_change_members. }
  assert (∀ r, r ∈ cv_current_revisions v ↔ is_current facts c r) as Hcurrent.
  { intros r. rewrite Hcur, elem_of_current_revisions, <- Hm, Hmem. unfold is_current, replaces.
    by setoid_rewrite Hs. }
  split; [done|done|done| |].
  - intros r. rewrite Hq, elem_of_filter, has_one_accepting_spec, Hcurrent by done. tauto.
  - intros q. rewrite Ho, (unresolved_spec facts Hc _ _ _ q Hcurrent), <- Hm.
    setoid_rewrite Hmem. done.
Qed.

Lemma tc_supersedes v s p :
  view_matches v → tc (replaces (cv_supersedes v)) s p ↔ tc (effective facts c) s p.
Proof. intros Hv. split; apply tc_mono; intros x y; apply (vm_supersedes v Hv). Qed.

Lemma effective_members s p : effective facts c s p → member facts c s ∧ member facts c p.
Proof. by intros (? & ? & _ & _ & _ & _ & _ & ? & ?). Qed.

(** The cycle flag, in terms of the specification. *)
Lemma cycle_spec v :
  view_matches v →
  revision_graph_has_cycle (cv_members v) (cv_supersedes v) = true ↔
  ∃ r, tc (effective facts c) r r.
Proof.
  intros Hv. rewrite has_cycle_true. split.
  - intros (m & x & _ & _ & Hx). exists x. exact (proj1 (tc_supersedes v x x Hv) Hx).
  - intros (r & Hr). exists r, r. split_and!; [|done|exact (proj2 (tc_supersedes v r r Hv) Hr)].
    apply (vm_members v Hv). apply tc_step in Hr as (z & Hz & _). apply effective_members in Hz. tauto.
Qed.

(** Two current revisions replace a common one. *)
Definition divergent_heads : Prop :=
  ∃ h1 h2 a, is_current facts c h1 ∧ is_current facts c h2 ∧ h1 ≠ h2 ∧
    tc (effective facts c) h1 a ∧ tc (effective facts c) h2 a.

Lemma divergent_spec v :
  view_matches v →
  replacement_heads_diverge (cv_current_revisions v) (cv_supersedes v) = true ↔ divergent_heads.
Proof.
  intros Hv. rewrite heads_diverge_true. unfold divergent_heads.
  setoid_rewrite (vm_current v Hv). setoid_rewrite (λ s p, tc_supersedes v s p Hv). done.
Qed.

(** The specification of acceptance. *)
Definition acceptable : Prop :=
  declared facts c ∧ agreed facts c ∧ (∃ r, member facts c r) ∧
  (∀ r, claims_member facts c r → captured facts r ∧ ¬ artifact_conflict facts r) ∧
  (∀ s p, claims_relation facts c s p →
    exact_ref facts s ∧ exact_ref facts p ∧ member facts c (rr_revision_id s) ∧
    member facts c (rr_revision_id p)) ∧
  (¬ ∃ r, tc (effective facts c) r r) ∧ ¬ divergent_heads ∧
  (∀ r, is_current facts c r → accepted_revision facts r) ∧
  (∀ q r, FOperativeRequest q r ∈ facts → member facts c r →
    resolved facts (is_current facts c) q).
End views.

(** ** The projection *)

Lemma try_fold_insert {K V} `{Countable K} (f : K → result V) l (m0 m : gmap K V) :
  try_fold (λ m k, let? v := f k in Ok (<[k := v]> m)) m0 l = Ok m →
  ∀ k v, m !! k = Some v ↔ (k ∈ l ∧ f k = Ok v) ∨ (k ∉ l ∧ m0 !! k = Some v).
Proof.
  revert m0. induction l as [|x l IH]; intros m0; cbn [try_fold].
  { intros [= <-] k v. split; [|by intros [[?%elem_of_nil _]|[_ ?]]].
    intros Hk. right. split; [by intros ?%elem_of_nil|done]. }
  intros (m1 & (w & Hw & [= <-])%bind_Ok & Hm)%bind_Ok k v. rewrite (IH _ Hm). rewrite elem_of_cons.
  destruct (decide (k = x)) as [->|Hne].
  - rewrite lookup_insert_eq. assert (Some w = Some v ↔ f x = Ok v) as Hv by (rewrite Hw; split; congruence).
    destruct (decide (x ∈ l)); tauto.
  - rewrite lookup_insert_ne by done. tauto.
Qed.

Lemma try_fold_insert_Ok {K V} `{Countable K} (f : K → result V) l (m0 : gmap K V) :
  (∀ k, k ∈ l → ∃ v, f k = Ok v) →
  ∃ m, try_fold (λ m k, let? v := f k in Ok (<[k := v]> m)) m0 l = Ok m.
Proof.
  revert m0. induction l as [|x l IH]; intros m0 Hf; cbn [try_fold]; [by eexists|].
  destruct (Hf x) as [v ->]; [left|]. cbn [rbind]. apply IH. intros k Hk. apply Hf. by right.
Qed.

(** The Changes some claim or declaration mentions. *)
Definition mentioned (facts : list ChangeProjectionFact) (c : ChangeId) : Prop :=
  (∃ d, FDeclaration c d ∈ facts) ∨ (∃ claim r, FMembershipAsserted claim c r ∈ facts) ∨
  (∃ claim s p, FRelationAsserted claim c s p ∈ facts).

Lemma or_iff_compat (A B C D : Prop) : (A ↔ C) → (B ↔ D) → (A ∨ B ↔ C ∨ D).
Proof. tauto. Qed.

Section projection_spec.
Context (facts : list ChangeProjectionFact) (Hc : consistent facts).
Abbreviation input := (fold_input facts).

Lemma elem_of_change_ids c : c ∈ change_ids input ↔ mentioned facts c.
Proof using Hc.
  unfold change_ids, mentioned, set_of_list. rewrite !elem_of_union, !elem_of_list_to_set.
  rewrite <- Logic.or_assoc. apply or_iff_compat; [apply or_iff_compat|].
  - rewrite elem_of_map_keys. setoid_rewrite <- fold_declarations.
    pose proof (fold_declarations_nonempty facts c) as Hne. split.
    + intros [[|[d] l] Hl]; [done|]. exists d. eexists. split; [exact Hl|left].
    + intros (d & ds & Hds & _). by exists ds.
  - unfold map_values. rewrite list_elem_of_fmap. setoid_rewrite list_elem_of_fmap. split.
    + intros (m & -> & p & -> & Hp). apply (membership_claim_lookup facts Hc) in Hp. eauto.
    + intros (claim & r & Hin). exists {| mf_change_id := c; mf_revision_id := r |}. split; [done|].
      exists (claim, {| mf_change_id := c; mf_revision_id := r |}). split; [done|].
      by apply (membership_claim_lookup facts Hc).
  - unfold map_values. rewrite list_elem_of_fmap. setoid_rewrite list_elem_of_fmap. split.
    + intros (m & -> & p & -> & Hp). apply (relation_claim_lookup facts Hc) in Hp. eauto.
    + intros (claim & s & q & Hin).
      exists {| rf_change_id := c; rf_successor := s; rf_predecessor := q |}. split; [done|].
      eexists (claim, _). split; [reflexivity|]. by apply (relation_claim_lookup facts Hc).
Qed.

Lemma project_lookup `{Digest} P :
  project_changes_from_facts facts = Ok P →
  ∀ c v, cp_changes P !! c = Some v ↔ mentioned facts c ∧ project_change input c = Ok v.
Proof using Hc.
  unfold project_changes_from_facts, project_input. intros (m & Hm & [= <-])%bind_Ok c v. cbn.
  rewrite (try_fold_insert _ _ _ _ Hm c v), lookup_empty, elem_of_iter_set, elem_of_change_ids.
  naive_solver.
Qed.

Lemma project_lookup_Ok `{Digest} P c :
  project_changes_from_facts facts = Ok P → mentioned facts c → ∃ v, project_change input c = Ok v.
Proof using Hc.
  unfold project_changes_from_facts, project_input. intros (m & Hm & [= <-])%bind_Ok.
  rewrite <- elem_of_change_ids, <- elem_of_iter_set.
  revert m Hm. generalize (∅ : gmap ChangeId ChangeView).
  induction (iter_set (change_ids input)) as [|x l IH]; intros m0 m; cbn [try_fold].
  { by intros _ ?%elem_of_nil. }
  intros (m1 & (w & Hw & _)%bind_Ok & Hm)%bind_Ok [->|Hin]%elem_of_cons; [by exists w|eauto].
Qed.
End projection_spec.

Lemma change_lifecycle_accepted incomplete conflicted current qualified unresolved :
  change_lifecycle incomplete conflicted current qualified unresolved = LAccepted ↔
  incomplete = false ∧ conflicted = false ∧ current ≠ ∅ ∧ size qualified = size current ∧
  unresolved = ∅.
Proof.
  unfold change_lifecycle. destruct incomplete, conflicted; try naive_solver.
  repeat case_bool_decide; destruct (Nat.eqb_spec (size qualified) (size current)); cbn; naive_solver.
Qed.

Lemma existsb_false {A} (f : A → bool) l : existsb f l = false ↔ ∀ x, x ∈ l → f x = false.
Proof.
  rewrite <- not_true_iff_false, existsb_exists. setoid_rewrite <- list_elem_of_In.
  setoid_rewrite <- not_true_iff_false. naive_solver.
Qed.

Section acceptance.
Context `{DigestLaws} (facts : list ChangeProjectionFact) (Hc : consistent facts) (c : ChangeId).
Abbreviation input := (fold_input facts).

Lemma member_conflict_false :
  existsb (λ r, conflicting (fi_revisions input !! r)) (iter_set (change_members input c)) = false ↔
  ∀ r, member facts c r → ¬ artifact_conflict facts r.
Proof using Hc.
  rewrite existsb_false. setoid_rewrite elem_of_iter_set.
  setoid_rewrite elem_of_change_members; [|done].
  setoid_rewrite <- not_true_iff_false. by setoid_rewrite conflicting_conflict.
Qed.

Lemma missing_member_false :
  existsb (λ p, active_membership input c p && negb (known_revision input (mf_revision_id p.2)))
    (iter_map (fi_memberships input)) = false ↔
  ∀ r, claims_member facts c r → captured facts r.
Proof using Hc.
  rewrite <- not_true_iff_false, missing_member by done. split; [|naive_solver].
  intros Hn r Hr. destruct (known_revision input r) eqn:E; [by apply known_revision_captured|].
  exfalso. apply Hn. exists r. split; [done|]. rewrite <- known_revision_captured. congruence.
Qed.

Lemma members_empty : change_members input c ≠ ∅ ↔ ∃ r, member facts c r.
Proof using Hc.
  setoid_rewrite <- elem_of_change_members; [|done]. split.
  - intros Hne. by apply set_choose_L in Hne.
  - intros (r & Hr) He. rewrite He in Hr. by apply elem_of_empty in Hr.
Qed.

(** An acyclic Change with a member has a current revision. *)
Lemma acyclic_current :
  (∃ r, member facts c r) → (¬ ∃ r, tc (effective facts c) r r) →
  ∀ v, view_matches facts c v → cv_current_revisions v ≠ ∅.
Proof using Hc.
  intros (r & Hr) Hacyc v Hv He.
  destruct (no_minimal_cycle (effective facts c) (cv_members v)) as (x & _ & Hx); [| |by apply Hacyc; exists x].
  - intros Hm. apply (vm_members facts c v Hv) in Hr. rewrite Hm in Hr. by apply elem_of_empty in Hr.
  - intros x Hx. destruct (decide (∃ e, e ∈ cv_supersedes v ∧ e.2 = x)) as [([s y] & Hs & <-)|Hno].
    + exists s. apply (vm_supersedes facts c v Hv) in Hs as He'. cbn. split; [|done].
      apply (vm_members facts c v Hv). apply effective_members in He'. tauto.
    + exfalso. apply (not_elem_of_empty (C:=gset RevisionId) x). rewrite <- He.
      apply (vm_current facts c v Hv). split; [by apply (vm_members facts c v Hv)|].
      intros s Hs. apply Hno. exists (s, x). split; [|done]. by apply (vm_supersedes facts c v Hv).
Qed.

Lemma resolved_dec (X : gset RevisionId) P q :
  (∀ r, r ∈ X ↔ P r) → resolved facts P q ∨ ¬ resolved facts P q.
Proof using Hc.
  intros HX. unfold resolved. rewrite <- (carried_set facts Hc q X P HX).
  destruct (decide (response_count facts q = 1)); [tauto|].
  destruct (decide (response_count facts q = 0)); [|tauto].
  destruct (decide (set_of_list (omap (carries input q) (fi_fact_ports input)) = X)); tauto.
Qed.

Lemma obligations_empty v :
  view_matches facts c v →
  cv_operative_obligations v = ∅ ↔ ∀ q r, FOperativeRequest q r ∈ facts →
    member facts c r → resolved facts (is_current facts c) q.
Proof.
  intros Hv. split.
  - intros He q r Hq Hr.
    assert (q ∉ cv_operative_obligations v) as Hn by (rewrite He; apply not_elem_of_empty).
    destruct (resolved_dec _ (is_current facts c) q (vm_current facts c v Hv)) as [|Hnr]; [done|].
    exfalso. apply Hn, (vm_obligations facts c v Hv). by exists r.
  - intros Hall. apply elem_of_equiv_empty_L. intros q Hq.
    apply (vm_obligations facts c v Hv) in Hq as (r & H1 & H2 & H3). eauto.
Qed.

Lemma qualified_all v :
  view_matches facts c v →
  size (cv_qualified_current_revisions v) = size (cv_current_revisions v) ↔
  ∀ r, is_current facts c r → accepted_revision facts r.
Proof.
  intros Hv. assert (cv_qualified_current_revisions v ⊆ cv_current_revisions v) as Hsub.
  { intros r Hr. apply (vm_qualified facts c v Hv) in Hr as [Hr _]. by apply (vm_current facts c v Hv). }
  split.
  - intros Hs r Hr. apply (vm_current facts c v Hv) in Hr.
    rewrite <- (set_subseteq_size_eq _ _ Hsub) in Hr by lia.
    apply (vm_qualified facts c v Hv) in Hr. tauto.
  - intros Hall. f_equal. apply set_eq. intros r.
    rewrite (vm_qualified facts c v Hv), (vm_current facts c v Hv). naive_solver.
Qed.

Lemma accepted_spec v :
  project_change input c = Ok v → cv_lifecycle v = LAccepted ↔ acceptable facts c.
Proof.
  intros Hv. pose proof (view_matches_spec facts Hc c v Hv) as Hm.
  destruct (project_change_inv facts Hc c v Hv)
    as (u & k & ds & Hd & Em & _ & _ & _ & _ & _ & Hl). cbn zeta in Hl.
  rewrite <- Em in Hl. apply declaration_status_spec in Hd as [Hu Hk].
  pose proof (cycle_spec facts c v Hm) as Hcyc. pose proof (divergent_spec facts c v Hm) as Hdiv.
  pose proof (loop_clean facts c Hc) as Hloop. rewrite <- Em in Hloop.
  pose proof member_conflict_false as Hmc. pose proof members_empty as Hme. rewrite <- Em in Hmc, Hme.
  rewrite Hl, change_lifecycle_accepted, !orb_false_iff, missing_member_false, Hmc,
    bool_decide_eq_false, Hme, andb_false_iff, negb_false_iff, Hu.
  rewrite <- (not_true_iff_false (revision_graph_has_cycle _ _)), Hcyc.
  rewrite <- (not_true_iff_false (replacement_heads_diverge _ _)), Hdiv.
  assert (cv_operative_obligations v = ∅ ↔ ∀ q r, FOperativeRequest q r ∈ facts →
    member facts c r → resolved facts (is_current facts c) q) as ->.
  { by apply obligations_empty. }
  assert (size (cv_qualified_current_revisions v) = size (cv_current_revisions v) ↔
    ∀ r, is_current facts c r → accepted_revision facts r) as ->.
  { by apply qualified_all. }
  assert ((∀ r, claims_member facts c r → captured facts r ∧ ¬ artifact_conflict facts r) ↔
    (∀ r, claims_member facts c r → captured facts r) ∧
    (∀ r, member facts c r → ¬ artifact_conflict facts r)) as Hcap.
  { unfold member. naive_solver. }
  pose proof (λ Hr Ha, acyclic_current Hr Ha v Hm) as Hcur. rewrite Hu in Hk. unfold acceptable.
  rewrite Hcap. clear Hl Hmc Hme Hu Hv Hm Em Hcap Hdiv. tauto.
Qed.
End acceptance.

(** ** Order independence *)

Lemma option_ext {A} (x y : option A) : (∀ v, x = Some v ↔ y = Some v) → x = y.
Proof.
  intros Hxy. destruct x as [a|]; [symmetry; by apply Hxy|]. destruct y as [b|]; [|done].
  by apply Hxy.
Qed.

#[export] Instance List_filter_perm {A} (f : A → bool) :
  Proper (Permutation ==> Permutation) (List.filter f).
Proof.
  intros l k. induction 1; cbn; repeat case_match; eauto using Permutation.
Qed.

(** Inputs that agree except for the order of declarations and ports, and the
    representation of assessment records. *)
Record same_input (i j : FoldInput) : Prop := {
  si_revisions : fi_revisions i = fi_revisions j;
  si_memberships : fi_memberships i = fi_memberships j;
  si_membership_withdrawals : fi_membership_withdrawals i = fi_membership_withdrawals j;
  si_relations : fi_relations i = fi_relations j;
  si_relation_withdrawals : fi_relation_withdrawals i = fi_relation_withdrawals j;
  si_links : fi_links i = fi_links j;
  si_requests : fi_operative_requests i = fi_operative_requests j;
  si_counts : fi_request_response_count i = fi_request_response_count j;
  si_accepting r : has_one_accepting_assessment r (fi_assessments i) =
    has_one_accepting_assessment r (fi_assessments j);
  si_ports q : (set_of_list (omap (carries i q) (fi_fact_ports i)) : gset RevisionId) =
    set_of_list (omap (carries j q) (fi_fact_ports j));
  si_declared c : option_Forall2 (≡ₚ) (fi_declarations i !! c) (fi_declarations j !! c)
}.

Section same_input_fold.
Context (facts facts' : list ChangeProjectionFact) (Hc : consistent facts) (Hp : facts ≡ₚ facts').

Lemma perm_elem f : f ∈ facts ↔ f ∈ facts'.
Proof using Hp. by rewrite Hp. Qed.

Lemma perm_consistent : consistent facts'.
Proof using Hc Hp. eapply consistent_subset; [|exact Hc]. intros f. by rewrite perm_elem. Qed.

Lemma perm_earliest r a e x xs : earliest facts r a e x xs ↔ earliest facts' r a e x xs.
Proof using Hp. unfold earliest. by setoid_rewrite perm_elem. Qed.

Lemma perm_accepted r : accepted_revision facts r ↔ accepted_revision facts' r.
Proof using Hp. unfold accepted_revision, standing. by setoid_rewrite perm_earliest. Qed.

Lemma perm_revisions : fi_revisions (fold_input facts) = fi_revisions (fold_input facts').
Proof using Hp.
  apply map_eq. intros r.
  assert (default ∅ (fi_revisions (fold_input facts) !! r) =
    (default ∅ (fi_revisions (fold_input facts') !! r) : gset string)) as Hd.
  { apply set_eq. intros h. by rewrite !fold_revisions, perm_elem. }
  pose proof (fold_revisions_nonempty facts r) as H1. pose proof (fold_revisions_nonempty facts' r) as H2.
  destruct (fi_revisions (fold_input facts) !! r) as [hs|],
    (fi_revisions (fold_input facts') !! r) as [hs'|]; cbn in Hd; [by f_equal| | |done].
  - by destruct (H1 hs eq_refl).
  - by destruct (H2 hs' eq_refl).
Qed.

Lemma perm_declared c :
  option_Forall2 (≡ₚ) (fi_declarations (fold_input facts) !! c)
    (fi_declarations (fold_input facts') !! c).
Proof using Hp.
  set (own f := match f with FDeclaration c' d => if String.eqb c' c
    then Some {| df_identity_descriptor := d |} else None | _ => None end).
  assert (∀ l, fi_declarations (fold_input l) !! c =
    match omap own l with [] => None | ds => Some ds end) as Hl.
  { intros l. induction l as [|f l IH] using rev_ind; [done|].
    rewrite fold_input_snoc, omap_app. destruct f as [?|c' d|?|?|?|?|?|?|?|?|?];
      cbn [fold_fact omap list_omap own]; rewrite ?app_nil_r; try exact IH.
    cbn [fi_declarations set_declarations]. destruct (String.eqb_spec c' c) as [->|Hne].
    - rewrite lookup_insert_eq, IH. by destruct (omap own l).
    - rewrite lookup_insert_ne by done. by rewrite app_nil_r. }
  rewrite !Hl. assert (omap own facts ≡ₚ omap own facts') as Ho by by rewrite Hp.
  destruct (omap own facts) as [|d ds], (omap own facts') as [|d' ds'].
  - constructor.
  - by apply Permutation_nil_cons in Ho.
  - by apply symmetry, Permutation_nil_cons in Ho.
  - by constructor.
Qed.

Lemma perm_same_input : same_input (fold_input facts) (fold_input facts').
Proof using Hc Hp.
  pose proof perm_consistent as Hc'.
  assert (fi_operative_requests (fold_input facts) = fi_operative_requests (fold_input facts')) as Hreq.
  { apply map_eq. intros q. apply option_ext. intros r. by rewrite !fold_requests, perm_elem. }
  split; [apply perm_revisions|..|exact Hreq| | | |apply perm_declared].
  - apply map_eq. intros k. apply option_ext. intros [c r]. by rewrite !fold_memberships, perm_elem.
  - apply set_eq. intros k. by rewrite !fold_membership_withdrawals, perm_elem.
  - apply map_eq. intros k. apply option_ext. intros [c s p]. by rewrite !fold_relations, perm_elem.
  - apply set_eq. intros k. by rewrite !fold_relation_withdrawals, perm_elem.
  - apply map_eq. intros k. apply option_ext. intros [a b rel]. by rewrite !fold_links, perm_elem.
  - apply map_eq. intros q. rewrite !fold_response_count.
    assert (response_count facts q = response_count facts' q) as ->; [|done].
    unfold response_count. apply Permutation_length. by rewrite Hp.
  - intros r. apply eq_true_iff_eq. by rewrite !has_one_accepting_spec, perm_accepted.
  - intros q. apply set_eq. intros r. unfold set_of_list.
    rewrite !elem_of_list_to_set, !list_elem_of_omap. setoid_rewrite fold_fact_ports.
    setoid_rewrite carries_spec; [|done..]. by setoid_rewrite perm_elem.
Qed.
End same_input_fold.

(** ** Projection of agreeing inputs *)

Section same_projection.
Context `{Digest}.

Definition valid_declarations (facts : list ChangeProjectionFact) : Prop :=
  ∀ c d, FDeclaration c d ∈ facts → descriptor_validate d = Ok ().

Definition derives_other (c : ChangeId) (d : ChangeDeclarationFact) : bool :=
  match derive_change_id (df_identity_descriptor d) with
  | Ok id => negb (String.eqb id c)
  | Err _ => true
  end.

Lemma derive_fold_Ok c l b :
  (∀ d, d ∈ l → descriptor_validate (df_identity_descriptor d) = Ok ()) →
  try_fold (λ (m : bool) (d : ChangeDeclarationFact),
    let? derived := derive_change_id (df_identity_descriptor d) in
    Ok (m || negb (String.eqb derived c))) b l = Ok (b || existsb (derives_other c) l).
Proof.
  revert b. induction l as [|d l IH]; intros b Hv; cbn [try_fold existsb]; [by rewrite orb_false_r|].
  assert (∃ id, derive_change_id (df_identity_descriptor d) = Ok id) as [id Hid].
  { unfold derive_change_id. rewrite (Hv d) by left. cbn [rbind]. by eexists. }
  unfold derives_other at 1. rewrite Hid. cbn [rbind]. rewrite IH by (intros; apply Hv; by right).
  by rewrite orb_assoc.
Qed.

Lemma declaration_status_perm c (o o' : option (list ChangeDeclarationFact)) :
  option_Forall2 (≡ₚ) o o' →
  (∀ l d, o = Some l → d ∈ l → descriptor_validate (df_identity_descriptor d) = Ok ()) →
  declaration_status c o = declaration_status c o' ∧ is_ok (declaration_status c o) = true.
Proof.
  intros [l l' Hl|] Hv; cbn [declaration_status]; [|done].
  rewrite !derive_fold_Ok; [|intros d; rewrite <- Hl; eauto|eauto]. cbn [rbind is_ok].
  assert (existsb (derives_other c) l = existsb (derives_other c) l') as ->.
  { apply eq_true_iff_eq. rewrite !existsb_exists. setoid_rewrite <- list_elem_of_In.
    by setoid_rewrite Hl. }
  assert ((set_of_list ((λ d, json_text (to_json (df_identity_descriptor d))) <$> l) : gset string) =
    set_of_list ((λ d, json_text (to_json (df_identity_descriptor d))) <$> l')) as ->; [|done].
  apply set_eq. intros x. unfold set_of_list. rewrite !elem_of_list_to_set. by rewrite Hl.
Qed.

Lemma obligation_status_same i j members current :
  fi_operative_requests i = fi_operative_requests j →
  fi_request_response_count i = fi_request_response_count j →
  (∀ q, (set_of_list (omap (carries i q) (fi_fact_ports i)) : gset RevisionId) =
    set_of_list (omap (carries j q) (fi_fact_ports j))) →
  operative_obligation_status members current i = operative_obligation_status members current j.
Proof.
  intros Hr Hn Hp. unfold operative_obligation_status. rewrite Hr.
  generalize {| os_unresolved_requests := ∅; os_ambiguous_response := false |}.
  induction (iter_map (fi_operative_requests j)) as [|[q r] l IH]; intros s; [done|].
  cbn [foldl]. rewrite IH. f_equal. unfold obligation_step. by rewrite Hn, Hp.
Qed.

Lemma project_change_same i j c :
  same_input i j →
  (∀ l d, fi_declarations i !! c = Some l → d ∈ l →
    descriptor_validate (df_identity_descriptor d) = Ok ()) →
  project_change i c = project_change j c ∧ is_ok (project_change i c) = true.
Proof.
  intros Hs Hv.
  destruct (declaration_status_perm c _ _ (si_declared i j Hs c) Hv) as [Hd Hok].
  pose proof (si_accepting i j Hs) as Hacc.
  pose proof (λ m k, obligation_status_same i j m k (si_requests i j Hs) (si_counts i j Hs)
    (si_ports i j Hs)) as Hob.
  destruct Hs as [E1 E2 E3 E4 E5 E6 E7 E8 _ _ _].
  destruct i as [i1 i2 i3 i4 i5 i6 i7 i8 i9 i10 i11], j as [j1 j2 j3 j4 j5 j6 j7 j8 j9 j10 j11].
  cbn [fi_revisions fi_declarations fi_memberships fi_membership_withdrawals fi_relations
    fi_relation_withdrawals fi_links fi_assessments fi_operative_requests
    fi_request_response_count fi_fact_ports] in *. subst.
  unfold project_change. cbn [fi_declarations].
  rewrite <- Hd. destruct (declaration_status c (i2 !! c)) as [[[u k] ds]|e]; [|done]. cbn [rbind].
  split; [|done]. rewrite <- Hob.
  set (q1 := filter _ _). set (q2 := filter _ _).
  assert (q1 = q2) as Hq.
  { unfold q1, q2. apply set_eq. intros r. rewrite !elem_of_filter.
    cbn [fi_assessments]. by rewrite Hacc. }
  rewrite Hq. done.
Qed.
End same_projection.

(** ** Completeness and topology *)

(** What each topology says of a complete Change. *)
Definition topology_meaning (facts : list ChangeProjectionFact) (c : ChangeId)
    (t : ChangeTopologyV1) : Prop :=
  let cyclic := ∃ r, tc (effective facts c) r r in
  let sound := ¬ cyclic ∧ ¬ divergent_heads facts c in
  let replaces := ∃ s p, effective facts c s p in
  match t with
  | TIncomplete => False
  | TCycleConflicted => cyclic
  | TReplacementDivergent => ¬ cyclic ∧ divergent_heads facts c
  | TInitial => ¬ replaces ∧ ∃ r, ∀ x, member facts c x ↔ x = r
  | TParallelCurrent => ¬ replaces ∧ ∃ r r', member facts c r ∧ member facts c r' ∧ r ≠ r'
  | TReplacement => sound ∧ ∃ r p, (∀ x, is_current facts c x ↔ x = r) ∧
      (∀ y, effective facts c r y ↔ y = p)
  | TConsolidation => sound ∧ ∃ r p p', (∀ x, is_current facts c x ↔ x = r) ∧
      effective facts c r p ∧ effective facts c r p' ∧ p ≠ p'
  | TMixed => sound ∧ replaces ∧ ∃ r r', is_current facts c r ∧ is_current facts c r' ∧ r ≠ r'
  end.

Lemma two_elements {A} `{Countable A} (X : gset A) :
  1 < size X → ∃ x y, x ∈ X ∧ y ∈ X ∧ x ≠ y.
Proof.
  intros Hs. destruct (set_choose_L X) as [x Hx]; [intros ->; rewrite size_empty in Hs; lia|].
  destruct (decide (X = {[x]})) as [->|Hne]; [rewrite size_singleton in Hs; lia|].
  destruct (set_choose_or_empty (X ∖ {[x]})) as [[y Hy]|He]; [exists x, y; set_solver|].
  exfalso. apply Hne, set_eq. intros y. destruct (decide (y = x)); set_solver.
Qed.

Lemma size_inhabited {A} `{Countable A} (X : gset A) x : x ∈ X → size X ≠ 0.
Proof. intros Hx He%size_empty_inv. set_solver. Qed.

Lemma one_element {A} `{Countable A} (X : gset A) : size X = 1 → ∃ x, ∀ y, y ∈ X ↔ y = x.
Proof.
  intros [x Hx]%size_1_elem_of. exists x. intros y. rewrite Hx. by rewrite elem_of_singleton.
Qed.

(** The pairs of a set with a given first component, listed. *)
Lemma edges_from (X : gset (RevisionId * RevisionId)) r :
  let l := List.filter (λ e : RevisionId * RevisionId, String.eqb e.1 r) (iter_set X) in
  NoDup l ∧ ∀ e, e ∈ l ↔ e ∈ X ∧ e.1 = r.
Proof.
  cbn zeta. split.
  - apply NoDup_ListNoDup, List.NoDup_filter, NoDup_ListNoDup, NoDup_iter_set.
  - intros e. rewrite list_elem_of_In, List.filter_In, <- list_elem_of_In, elem_of_iter_set.
    by rewrite String.eqb_eq.
Qed.

Section topology.
Context `{DigestLaws} (facts : list ChangeProjectionFact) (Hc : consistent facts) (c : ChangeId).
Abbreviation input := (fold_input facts).

(** A sole current revision of an acyclic Change that has a replacement replaces one. *)
Lemma sole_head_replaces v r :
  view_matches facts c v → (¬ ∃ r, tc (effective facts c) r r) →
  (∀ x, is_current facts c x ↔ x = r) → (∃ s p, effective facts c s p) →
  ∃ p, effective facts c r p.
Proof using Hc.
  intros Hv Hacyc Hone (s & p & Hsp).
  set (X := set_map fst (cv_supersedes v) : gset RevisionId).
  assert (∀ x, x ∈ X ↔ ∃ y, effective facts c x y) as HX.
  { intros x. unfold X. rewrite elem_of_map. split.
    - intros ([a b] & -> & Hab). exists b. by apply (vm_supersedes facts c v Hv).
    - intros (y & Hy). exists (x, y). split; [done|]. by apply (vm_supersedes facts c v Hv). }
  destruct (decide (r ∈ X)) as [Hr|Hr]; [by apply HX|]. exfalso.
  destruct (no_minimal_cycle (effective facts c) X) as (x & _ & Hx); [| |by apply Hacyc; exists x].
  - intros He. assert (s ∈ X) as Hs by (apply HX; eauto). rewrite He in Hs. by apply elem_of_empty in Hs.
  - intros x Hx. apply HX in Hx as (y & Hxy).
    destruct (decide (∃ e, e ∈ cv_supersedes v ∧ e.2 = x)) as [([z w] & Hz & <-)|Hno].
    + exists z. apply (vm_supersedes facts c v Hv) in Hz. split; [apply HX; eauto|done].
    + exfalso. apply Hr. assert (x = r) as ->; [|apply HX; eauto]. apply Hone. split.
      * apply effective_members in Hxy. tauto.
      * intros z Hz. apply Hno. exists (z, x). split; [|done]. by apply (vm_supersedes facts c v Hv).
Qed.

Lemma complete_spec v :
  project_change input c = Ok v → cv_lifecycle v ≠ LIncomplete ↔ complete facts c.
Proof.
  intros Hv. destruct (project_change_inv facts Hc c v Hv)
    as (u & k & ds & Hd & Em & _ & _ & _ & _ & _ & Hl). cbn zeta in Hl.
  apply declaration_status_spec in Hd as [Hu _]. unfold complete.
  rewrite <- (loop_complete facts c Hc), <- missing_member_false, <- members_empty, <- Hu by done.
  rewrite <- (bool_decide_eq_false (change_members input c = ∅)), Hl. unfold change_lifecycle.
  destruct u, (existsb (λ p, active_membership _ _ _ && _) _), (bool_decide (_ = ∅)),
    (existsb (λ p, class_incomplete _) _); cbn [orb];
    repeat case_match; naive_solver.
Qed.

Lemma topology_incomplete v :
  project_change input c = Ok v → cv_topology v = TIncomplete ↔ cv_lifecycle v = LIncomplete.
Proof.
  intros Hv. destruct (project_change_inv facts Hc c v Hv)
    as (u & k & ds & _ & _ & _ & _ & _ & _ & Ht & Hl). cbn zeta in Ht, Hl.
  rewrite Ht, Hl. unfold change_topology, change_lifecycle.
  repeat case_match; naive_solver.
Qed.

Lemma no_edges_current v :
  view_matches facts c v → (¬ ∃ s p, effective facts c s p) →
  ∀ r, r ∈ cv_current_revisions v ↔ member facts c r.
Proof using.
  intros Hv Hno r. rewrite (vm_current facts c v Hv). unfold is_current. naive_solver.
Qed.

Lemma edges_empty v :
  view_matches facts c v → cv_supersedes v = ∅ ↔ ¬ ∃ s p, effective facts c s p.
Proof using.
  intros Hv. setoid_rewrite <- (vm_supersedes facts c v Hv). split.
  - intros -> (s & p & Hsp). by apply elem_of_empty in Hsp.
  - intros Hno. apply elem_of_equiv_empty_L. intros [s p] Hsp. eauto.
Qed.

(** The last test of the topology: how many revisions the sole head replaces. *)
Lemma sole_head_edges v r :
  view_matches facts c v →
  let n := length (List.filter (λ e : RevisionId * RevisionId, String.eqb e.1 r)
    (iter_set (cv_supersedes v))) in
  (1 < n → ∃ p p', effective facts c r p ∧ effective facts c r p' ∧ p ≠ p') ∧
  (n ≤ 1 → (∃ p, effective facts c r p) → ∃ p, ∀ y, effective facts c r y ↔ y = p).
Proof using.
  intros Hv. cbn zeta. destruct (edges_from (cv_supersedes v) r) as [Hnd Hin].
  set (l := List.filter _ _) in *. split.
  - intros Hn. destruct l as [|[a b] [|[a' b'] l]]; cbn in Hn; [lia..|].
    destruct (proj1 (Hin (a, b))) as [H1 H2]; [left|].
    destruct (proj1 (Hin (a', b'))) as [H1' H2']; [right; left|]. cbn in H2, H2'. subst.
    exists b, b'. rewrite <- !(vm_supersedes facts c v Hv). split_and!; [done..|].
    intros ->. inversion Hnd as [|? ? Hn1]; subst. apply Hn1. left.
  - intros Hn (p & Hp). exists p. intros y. split; [|by intros ->]. intros Hy.
    apply (vm_supersedes facts c v Hv) in Hp, Hy.
    assert ((r, p) ∈ l) as Hpl by by apply Hin. assert ((r, y) ∈ l) as Hyl by by apply Hin.
    destruct l as [|x [|? ?]]; [by apply elem_of_nil in Hpl| |cbn in Hn; lia].
    apply list_elem_of_singleton in Hpl, Hyl. congruence.
Qed.

Lemma sole_head_topology v :
  view_matches facts c v → (¬ ∃ r, tc (effective facts c) r r) → ¬ divergent_heads facts c →
  (∃ s p, effective facts c s p) → size (cv_current_revisions v) = 1 →
  topology_meaning facts c
    match iter_set (cv_current_revisions v) with
    | current :: _ =>
        if 1 <? length (List.filter (λ e, String.eqb e.1 current) (iter_set (cv_supersedes v)))
        then TConsolidation else TReplacement
    | [] => TReplacement
    end.
Proof using Hc.
  intros Hm Hac Hnd Hedge Hn. destruct (one_element _ Hn) as [r Hr].
  pose proof (λ x, iff_trans (iff_sym (vm_current facts c v Hm x)) (Hr x)) as Hone.
  pose proof (sole_head_replaces v r Hm Hac Hone Hedge) as Hrep.
  destruct (sole_head_edges v r Hm) as [H2 H1].
  destruct (iter_set (cv_current_revisions v)) as [|x l] eqn:Ex.
  { apply (f_equal length) in Ex. rewrite length_iter_set in Ex. cbn in Ex. lia. }
  assert (x = r) as ->.
  { apply Hr. rewrite <- elem_of_iter_set, Ex. left. }
  destruct (Nat.ltb_spec 1 (length (List.filter (λ e : RevisionId * RevisionId,
    String.eqb e.1 r) (iter_set (cv_supersedes v))))) as [Hlt|Hle]; (split; [done|]).
  - destruct (H2 Hlt) as (p & p' & ?). by exists r, p, p'.
  - destruct (H1 Hle Hrep) as (p & ?). by exists r, p.
Qed.

Lemma topology_spec v :
  project_change input c = Ok v → complete facts c → topology_meaning facts c (cv_topology v).
Proof.
  intros Hv Hcomp. pose proof (view_matches_spec facts Hc c v Hv) as Hm.
  pose proof (proj2 (complete_spec v Hv) Hcomp) as Hl. rewrite <- (topology_incomplete v Hv) in Hl.
  destruct (project_change_inv facts Hc c v Hv)
    as (u & k & ds & _ & Em & _ & _ & _ & _ & Ht & _). cbn zeta in Ht. rewrite <- Em in Ht.
  pose proof (cycle_spec facts c v Hm) as Hcyc. pose proof (divergent_spec facts c v Hm) as Hdiv.
  revert Hl. rewrite Ht. clear Ht. unfold change_topology.
  destruct (_ || existsb (λ p, class_incomplete _) _); [done|]. intros _.
  destruct (revision_graph_has_cycle _ _); cbn [andb negb]; [by apply Hcyc|].
  assert (¬ ∃ r, tc (effective facts c) r r) as Hac by (intros Hr; by apply Hcyc in Hr).
  destruct (replacement_heads_diverge _ _); [split; [done|by apply Hdiv]|].
  assert (¬ divergent_heads facts c) as Hnd by (intros Hr; by apply Hdiv in Hr).
  pose proof (edges_empty v Hm) as Hee. destruct Hcomp as (_ & Hne & _).
  case_bool_decide as Hs.
  - pose proof (no_edges_current v Hm (proj1 Hee Hs)) as Hcur.
    destruct (Nat.leb_spec (size (cv_current_revisions v)) 1) as [Hn|Hn]; (split; [by apply Hee|]).
    + destruct (one_element (cv_current_revisions v)) as [r Hr].
      { destruct Hne as [r Hr]. apply Hcur, size_inhabited in Hr. lia. }
      exists r. intros x. by rewrite <- Hcur.
    + destruct (two_elements _ Hn) as (x & y & Hx & Hy & Hxy). exists x, y. by rewrite <- !Hcur.
  - assert (∃ s p, effective facts c s p) as Hedge.
    { destruct (set_choose_L _ Hs) as [[s p] Hsp]. exists s, p. by apply (vm_supersedes facts c v Hm). }
    destruct (Nat.eqb_spec (size (cv_current_revisions v)) 1) as [Hn|Hn].
    + by apply sole_head_topology.
    + split_and!; [done..|]. destruct (two_elements (cv_current_revisions v)) as (x & y & Hx & Hy & Hxy).
      { pose proof (acyclic_current facts Hc c Hne Hac v Hm) as Hcn.
        assert (size (cv_current_revisions v) ≠ 0) as Hz; [|lia].
        intros Hz. by apply Hcn, leibniz_equiv, size_empty_inv. }
      exists x, y. by rewrite <- !(vm_current facts c v Hm).
Qed.
End topology.

(** ** The whole projection, in any order *)

Section reordering.
Context `{Digest} (facts facts' : list ChangeProjectionFact).
Context (Hc : consistent facts) (Hv : valid_declarations facts) (Hp : facts ≡ₚ facts').

Lemma recorded_descriptor_valid c l d :
  fi_declarations (fold_input facts) !! c = Some l → d ∈ l →
  descriptor_validate (df_identity_descriptor d) = Ok ().
Proof using Hv.
  intros Hl Hd. apply (Hv c). apply fold_declarations. exists l. by destruct d.
Qed.

Lemma perm_change_ids : change_ids (fold_input facts) = change_ids (fold_input facts').
Proof using Hc Hp.
  apply set_eq. intros c. rewrite !elem_of_change_ids by eauto using perm_consistent.
  unfold mentioned. by setoid_rewrite (perm_elem _ _ Hp).
Qed.

Lemma project_perm :
  ∃ P, project_changes_from_facts facts = Ok P ∧ project_changes_from_facts facts' = Ok P.
Proof using Hc Hv Hp.
  pose proof (perm_same_input facts facts' Hc Hp) as Hs.
  pose proof (λ c, project_change_same _ _ c Hs (recorded_descriptor_valid c)) as Hproj.
  unfold project_changes_from_facts, project_input. rewrite <- perm_change_ids, <- (si_links _ _ Hs).
  destruct (try_fold_insert_Ok (project_change (fold_input facts))
    (iter_set (change_ids (fold_input facts))) ∅) as [m Hm].
  { intros c _. destruct (Hproj c) as [_ Hok]. destruct (project_change _ c); [eauto|done]. }
  exists {| cp_changes := m; cp_links := sort_by link_cmp (map_values (fi_links (fold_input facts))) |}.
  rewrite Hm. split; [done|].
  rewrite (try_fold_ext _ (λ m c, let? v := project_change (fold_input facts) c in Ok (<[c := v]> m))).
  - by rewrite Hm.
  - intros m' c. by rewrite (proj1 (Hproj c)).
Qed.
End reordering.

(** ** Properties *)

(** C16. For facts that agree wherever they share an id (a claim id has one set of
    coordinates, an event one assessment, an operative request one revision), the
    projection shows exactly the Changes some declaration, membership or
    replacement mentions, and each view's members, replacement edges, current
    revisions, qualified revisions and open obligations are the ones the facts define:
    withdrawn claims are out, edges connect members whose artifact is the referenced
    one, current revisions are the members nothing replaces, a qualified one has one
    standing assessment, an accepting one, and an obligation is an operative request on
    a member without exactly one response or a complete carry-over. *)
Theorem views_implement_facts `{DigestLaws} facts P
    (Hc : consistent facts) (Hp : project_changes_from_facts facts = Ok P) c :
  (is_Some (cp_changes P !! c) ↔ mentioned facts c) ∧
  (∀ v, cp_changes P !! c = Some v → view_matches facts c v).
Proof.
  pose proof (project_lookup facts Hc P Hp c) as Hl. split.
  - split; [intros [v Hv]; by apply Hl in Hv as [? _]|]. intros Hm.
    destruct (project_lookup_Ok facts Hc P c Hp Hm) as [v Hv]. exists v. by apply Hl.
  - intros v [_ Hv]%Hl. by apply view_matches_spec.
Qed.

(** A Change is shown as accepted exactly when the facts make it acceptable: it is
    declared under its own identity and without disagreement, has a member, every
    claimed member is captured with one artifact, every replacement claim is exact and
    between members, replacements are acyclic and do not diverge, every current revision
    is accepted, and every operative request on a member is resolved. *)
Theorem accepted_exact `{DigestLaws} facts P c v
    (Hc : consistent facts) (Hp : project_changes_from_facts facts = Ok P)
    (Hv : cp_changes P !! c = Some v) :
  cv_lifecycle v = LAccepted ↔ acceptable facts c.
Proof. apply (project_lookup facts Hc P Hp) in Hv as [_ Hv]. by apply accepted_spec. Qed.

(** A Change is shown as incomplete, in lifecycle and topology alike, exactly when
    something it refers to is missing; otherwise its topology says what it is named
    for: cyclic, divergent, one member, several unrelated members, one head replacing
    one revision, one head replacing several, or several heads that share no
    predecessor. *)
Theorem topology_exact `{DigestLaws} facts P c v
    (Hc : consistent facts) (Hp : project_changes_from_facts facts = Ok P)
    (Hv : cp_changes P !! c = Some v) :
  (cv_lifecycle v = LIncomplete ↔ cv_topology v = TIncomplete) ∧
  (cv_lifecycle v ≠ LIncomplete ↔ complete facts c) ∧
  (complete facts c → topology_meaning facts c (cv_topology v)).
Proof.
  apply (project_lookup facts Hc P Hp) in Hv as [_ Hv]. split_and!.
  - by rewrite (topology_incomplete facts Hc c v Hv).
  - by apply complete_spec.
  - by apply topology_spec.
Qed.

(** *** Witnesses *)

Definition example_nonce : string := "0123456789abcdef0123456789abcdef".
Definition example_descriptor : ChangeIdentityDescriptorV1 := opaque_nonce example_nonce.
Definition example_change : ChangeId :=
  match @derive_change_id example_digest example_descriptor with
  | Ok c => c | Err _ => "" end.
Definition example_ref (r h : string) : RevisionRefV1 :=
  {| rr_revision_id := r; rr_object_artifact_content_hash := h |}.

(** A Change of two revisions, the second replacing the first and accepted. *)
Definition example_facts : list ChangeProjectionFact := [
  FRevision "rev:a" "sha256:a"; FRevision "rev:b" "sha256:b";
  FDeclaration example_change example_descriptor;
  FMembershipAsserted "m:a" example_change "rev:a";
  FMembershipAsserted "m:b" example_change "rev:b";
  FRelationAsserted "r:ba" example_change (example_ref "rev:b" "sha256:b")
    (example_ref "rev:a" "sha256:a");
  FAssessment "evt:1" "rev:b" "assess:1" Accepted [];
  FOperativeRequest "input:1" "rev:a"; FRequestResponse "input:1"].

Lemma example_consistent : consistent example_facts.
Proof.
  unfold example_facts. split; intros;
    repeat match goal with
    | Hin : _ ∈ [] |- _ => by apply elem_of_nil in Hin
    | Hin : _ ∈ _ :: _ |- _ => apply elem_of_cons in Hin as [Hin|Hin]; [try discriminate Hin|]
    end;
    repeat match goal with Hf : _ = _ |- _ => injection Hf as ?; subst end; done.
Qed.

Definition example_projection : ChangeProjection :=
  match @project_changes_from_facts example_digest example_facts with
  | Ok P => P
  | Err _ => {| cp_changes := ∅; cp_links := [] |}
  end.

Definition example_view : ChangeView :=
  {| cv_change_id := example_change; cv_members := {["rev:a"; "rev:b"]};
     cv_current_revisions := {["rev:b"]}; cv_supersedes := {[("rev:b", "rev:a")]};
     cv_topology := TReplacement; cv_lifecycle := LAccepted;
     cv_qualified_current_revisions := {["rev:b"]}; cv_operative_obligations := ∅;
     cv_diagnostics := [] |}.

Lemma example_projects :
  @project_changes_from_facts example_digest example_facts = Ok example_projection.
Proof. vm_compute. reflexivity. Qed.

Lemma example_shown : cp_changes example_projection !! example_change = Some example_view.
Proof. by vm_compute. Qed.

Lemma views_implement_facts_witness : view_matches example_facts example_change example_view.
Proof.
  exact (proj2 (@views_implement_facts example_digest example_digest_laws example_facts
    example_projection example_consistent example_projects example_change)
    example_view example_shown).
Defined.

Lemma accepted_exact_witness : @acceptable example_digest example_facts example_change.
Proof.
  exact (proj1 (@accepted_exact example_digest example_digest_laws example_facts
    example_projection example_change example_view example_consistent example_projects
    example_shown) eq_refl).
Defined.

Lemma topology_exact_witness :
  complete example_facts example_change ∧
  topology_meaning example_facts example_change TReplacement.
Proof.
  destruct (@topology_exact example_digest example_digest_laws example_facts example_projection
    example_change example_view example_consistent example_projects example_shown)
    as (_ & Hcomp & Ht).
  assert (complete example_facts example_change) as Hx by by apply Hcomp.
  split; [exact Hx|exact (Ht Hx)].
Defined.
