(* ===== verification/ChangeEvents.v ===== *)
(** * Change projection of events

    The projection is a function of the set of events: the order in which a store
    returns them, or a replica received them, never changes a view. *)

From S2P Require Import Prelude RustStr BTree Model CanonicalHash Crypto Events ChangeClaims Relations.
From S2P Require Import Payloads ChangeGraph ChangeProjection ChangeViews.

(** ** From events to facts *)

Definition event_fact `{Digest} `{Decoders} (e : ShoreEvent) : option ChangeProjectionFact :=
  match extract_change_projection_fact e with Ok o => o | Err _ => None end.

(** [extract_inv E]: the event family and payload behind an extracted fact. *)
Ltac extract_inv E :=
  unfold event_fact, extract_change_projection_fact in E;
  destruct (ev_event_type _) eqn:?; cbn beta iota in E; try discriminate E;
  repeat (match type of E with
  | context [rbind ?r _] => destruct r as [?|?] eqn:?
  | context [match ?x with _ => _ end] =>
      lazymatch x with context [match _ with _ => _ end] => fail | _ => destruct x eqn:? end
  end; cbn beta iota delta [rbind] in E; try discriminate E);
  repeat match goal with u : () |- _ => destruct u end.

Section events.
Context `{DigestLaws} `{Decoders}.

Lemma extract_facts_spec events facts :
  extract_facts events = Ok facts ↔
  (∀ e, e ∈ events → is_ok (extract_change_projection_fact e) = true) ∧
  facts = omap event_fact events.
Proof. apply (try_fold_collect extract_change_projection_fact events []). Qed.

(** The document a claim's id is the digest of. *)
Definition event_claim_document (e : ShoreEvent) : option json :=
  match ev_event_type e with
  | ChangeMembershipAsserted =>
      match from_membership_asserted (ev_payload e) with Ok p => Some (ma_document p) | _ => None end
  | ChangeRevisionRelationAsserted =>
      match from_relation_asserted (ev_payload e) with Ok p => Some (ra_document p) | _ => None end
  | ChangeLinkAsserted =>
      match from_link_asserted (ev_payload e) with Ok p => Some (la_document p) | _ => None end
  | _ => None
  end.

Definition collision_free (events : list ShoreEvent) : Prop :=
  ∀ e e' v w, e ∈ events → e' ∈ events →
    event_claim_document e = Some v → event_claim_document e' = Some w → ¬ json_collision v w.

(** Operative requests with one id address one revision. *)
Definition requests_agree (events : list ShoreEvent) : Prop :=
  ∀ e e' q r r', e ∈ events → e' ∈ events → event_fact e = Some (FOperativeRequest q r) →
    event_fact e' = Some (FOperativeRequest q r') → r = r'.

Lemma NoDup_fmap_same {A B} (f : A → B) l x y :
  NoDup (f <$> l) → x ∈ l → y ∈ l → f x = f y → x = y.
Proof.
  intros Hnd [i Hi]%list_elem_of_lookup [j Hj]%list_elem_of_lookup Heq.
  assert (i = j) as <-; [|congruence]. eapply (NoDup_lookup (f <$> l)); [done|..];
    rewrite list_lookup_fmap; [by rewrite Hi|by rewrite Hj, Heq].
Qed.

Lemma event_membership e claim c r :
  event_fact e = Some (FMembershipAsserted claim c r) →
  ∃ p, event_claim_document e = Some (ma_document p) ∧ ma_validate p = Ok () ∧
    ma_membership_claim_id p = claim ∧ ma_change_id p = c ∧ ma_revision_id p = r.
Proof.
  intros E. unfold event_claim_document. extract_inv E. injection E as <- <- <-. eauto 10.
Qed.

Lemma event_relation e claim c s q :
  event_fact e = Some (FRelationAsserted claim c s q) →
  ∃ p, event_claim_document e = Some (ra_document p) ∧ ra_validate p = Ok () ∧
    ra_relation_claim_id p = claim ∧ ra_change_id p = c ∧ ra_successor p = s ∧
    ra_predecessor p = q.
Proof.
  intros E. unfold event_claim_document. extract_inv E. injection E as <- <- <- <-. eauto 10.
Qed.

Lemma event_link e claim a b rel :
  event_fact e = Some (FLinkAsserted claim a b rel) →
  ∃ p, event_claim_document e = Some (la_document p) ∧ la_validate p = Ok () ∧
    la_link_claim_id p = claim ∧ la_left_change_id p = a ∧ la_right_change_id p = b ∧
    la_relation p = rel.
Proof.
  intros E. unfold event_claim_document. extract_inv E. injection E as <- <- <- <-. eauto 10.
Qed.

Lemma event_assessment e id r a x xs :
  event_fact e = Some (FAssessment id r a x xs) → ev_event_id e = id.
Proof. intros E. extract_inv E. by injection E. Qed.

Lemma event_declaration e c d :
  event_fact e = Some (FDeclaration c d) → descriptor_validate d = Ok ().
Proof.
  intros E. extract_inv E. injection E as <- <-.
  match goal with Hv : cd_validate _ = _ |- _ => apply cd_validate_inv in Hv; rename Hv into Hd end.
  unfold derive_change_id in Hd. by apply bind_Ok in Hd as ([] & Hd & _).
Qed.

Lemma event_request e q r :
  event_fact e = Some (FOperativeRequest q r) → ev_event_type e = InputRequestOpened.
Proof. intros E. by extract_inv E. Qed.

(** Events with distinct ids yield consistent facts. *)
Lemma extracted_consistent events facts :
  NoDup (ev_event_id <$> events) → requests_agree events → collision_free events →
  extract_facts events = Ok facts → consistent facts.
Proof.
  intros Hnd Hreq Hfree [_ ->]%extract_facts_spec.
  split; intros *; rewrite !list_elem_of_omap; intros (z & He & E) (z' & He' & E').
  - apply event_membership in E as (u & D & V & <- & <- & <-).
    apply event_membership in E' as (u' & D' & V' & Hid & <- & <-).
    destruct (ma_binding u u' V V' (eq_sym Hid)) as [?|Hcol]; [done|].
    by destruct (Hfree z z' _ _ He He' D D').
  - apply event_relation in E as (u & D & V & <- & <- & <- & <-).
    apply event_relation in E' as (u' & D' & V' & Hid & <- & <- & <-).
    destruct (ra_binding u u' V V' (eq_sym Hid)) as [?|Hcol]; [done|].
    by destruct (Hfree z z' _ _ He He' D D').
  - apply event_link in E as (u & D & V & <- & <- & <- & <-).
    apply event_link in E' as (u' & D' & V' & Hid & <- & <- & <-).
    destruct (la_binding u u' V V' (eq_sym Hid)) as [?|Hcol]; [done|].
    by destruct (Hfree z z' _ _ He He' D D').
  - assert (z = z') as <-; [|rewrite E in E'; by injection E' as <- <-].
    apply event_assessment in E, E'. by apply (NoDup_fmap_same ev_event_id events); [..|congruence].
  - eauto.
Qed.

Lemma extracted_declarations events facts :
  extract_facts events = Ok facts → valid_declarations facts.
Proof.
  intros [_ ->]%extract_facts_spec c d. rewrite list_elem_of_omap. intros (e & _ & E).
  by eapply event_declaration.
Qed.

Lemma extract_facts_perm events events' facts :
  events ≡ₚ events' → extract_facts events = Ok facts →
  ∃ facts', extract_facts events' = Ok facts' ∧ facts ≡ₚ facts'.
Proof.
  intros Hp [Hok ->]%extract_facts_spec. exists (omap event_fact events').
  split; [|by rewrite Hp]. apply extract_facts_spec. split; [|done]. by setoid_rewrite <- Hp.
Qed.

Lemma project_changes_perm events events' P :
  events ≡ₚ events' → NoDup (ev_event_id <$> events) → requests_agree events →
  collision_free events → project_changes events = Ok P → project_changes events' = Ok P.
Proof.
  unfold project_changes. intros Hp Hids Hreq Hfree (facts & Hf & Hproj)%bind_Ok.
  destruct (extract_facts_perm events events' facts Hp Hf) as (facts' & -> & Hperm). cbn [rbind].
  destruct (project_perm facts facts') as (Q & HQ & ->); [..|congruence].
  - by eapply extracted_consistent.
  - by eapply extracted_declarations.
  - done.
Qed.
End events.

(** ** Properties *)

(** C17. The projection does not depend on the order of the events: if a list of
    events with distinct ids projects, every reordering of it projects to the same
    views and links. It rests on claim ids binding their coordinates, so it is stated
    for events whose claim documents do not collide pairwise, and for operative
    requests that keep one revision per request id. *)
Theorem project_changes_order_independent `{DigestLaws} `{Decoders} events events' P
    (Hp : events ≡ₚ events') (Hids : NoDup (ev_event_id <$> events))
    (Hreq : requests_agree events) (Hfree : collision_free events)
    (Hproj : project_changes events = Ok P) :
  project_changes events' = Ok P.
Proof. by apply (project_changes_perm events). Qed.

(** Without one revision per request id the order does choose: the last request event
    wins, and with it whether the Change has an open obligation. *)
Definition order_facts (r r' : RevisionId) : list ChangeProjectionFact := [
  FRevision "rev:a" "sha256:a"; FMembershipAsserted "m:a" "change:c" "rev:a";
  FOperativeRequest "input:1" r; FOperativeRequest "input:1" r'].

Lemma request_order_matters :
  order_facts "rev:a" "rev:x" ≡ₚ order_facts "rev:x" "rev:a" ∧
  (cv_operative_obligations <$> project_change (H:=example_digest)
    (fold_input (order_facts "rev:a" "rev:x")) "change:c") = Ok ∅ ∧
  (cv_operative_obligations <$> project_change (H:=example_digest)
    (fold_input (order_facts "rev:x" "rev:a")) "change:c") = Ok {["input:1"]}.
Proof. split_and!; [by repeat constructor|vm_compute; reflexivity..]. Qed.

(** *** Witness *)

Definition example_error {A} : result A := Err (InvalidEvent "payload").

Definition example_decoders : Decoders := {|
  from_work_object_proposed := λ v,
    match v with
    | JString r => Ok {| wo_engagement_id := "engagement:e";
        wo_work_object := ProposeRevision
          {| rv_id := r; rv_object_id := "obj:o"; rv_git_provenance := None |} None "sha256:a" [] |}
    | _ => example_error
    end;
  from_change_declared := λ _, @build_change_declared example_digest example_descriptor example_nonce;
  from_membership_asserted := λ v,
    match v with
    | JString r => @build_membership_asserted example_digest example_change r example_nonce
    | _ => example_error
    end;
  from_membership_withdrawn := λ _, example_error;
  from_relation_asserted := λ _, example_error;
  from_relation_withdrawn := λ _, example_error;
  from_link_asserted := λ _, example_error;
  from_assessment_recorded := λ _, example_error;
  from_input_request_opened := λ _, example_error;
  from_input_request_responded := λ _, example_error;
  from_fact_ported := λ _, example_error
|}.

Definition example_typed (id : EventId) (t : EventType) : ShoreEvent := {|
  ev_schema := EVENT_SCHEMA; ev_version := EVENT_VERSION; ev_event_id := id;
  ev_event_type := t; ev_idempotency_key := id; ev_target := for_journal "journal:default";
  ev_writer := shore_local "0.1"; ev_occurred_at := "2025-01-01T00:00:00.000Z";
  ev_payload_hash := "sha256:0"; ev_assertion_mode := Advisory; ev_signer := None;
  ev_signature := None; ev_source_ref := None; ev_ingest := None; ev_content_encoding := [];
  ev_payload_version := 1; ev_payload := JString "rev:a" |}.

Definition example_events : list ShoreEvent :=
  [example_typed "evt:1" WorkObjectProposed; example_typed "evt:2" ChangeDeclared;
   example_typed "evt:3" ChangeMembershipAsserted].

Definition example_events_projection : ChangeProjection :=
  match @project_changes example_digest example_decoders example_events with
  | Ok P => P
  | Err _ => {| cp_changes := ∅; cp_links := [] |}
  end.

Lemma example_events_project :
  @project_changes example_digest example_decoders example_events = Ok example_events_projection ∧
  cv_members <$> cp_changes example_events_projection !! example_change = Some {["rev:a"]}.
Proof. split; vm_compute; reflexivity. Qed.

Lemma example_requests_agree : @requests_agree example_digest example_decoders example_events.
Proof.
  intros e e' q r r' He _ E%event_request. unfold example_events in He.
  repeat (apply elem_of_cons in He as [->|He]; [discriminate E|]). by apply elem_of_nil in He.
Qed.

Lemma example_collision_free : @collision_free example_digest example_decoders example_events.
Proof.
  intros e e' v w He He' Hv Hw. unfold example_events in He, He'.
  apply elem_of_cons in He as [->|He]; [discriminate Hv|].
  apply elem_of_cons in He as [->|He]; [discriminate Hv|].
  apply elem_of_cons in He' as [->|He']; [discriminate Hw|].
  apply elem_of_cons in He' as [->|He']; [discriminate Hw|].
  apply list_elem_of_singleton in He as ->, He' as ->. rewrite Hv in Hw. injection Hw as ->.
  by intros [Hne _].
Qed.

Lemma project_changes_order_independent_witness :
  @project_changes example_digest example_decoders (reverse example_events) =
  Ok example_events_projection.
Proof.
  apply (@project_changes_order_independent example_digest example_digest_laws example_decoders
    example_events).
  - by rewrite reverse_Permutation.
  - apply (bool_decide_unpack _). vm_compute. exact I.
  - exact example_requests_agree.
  - exact example_collision_free.
  - exact (proj1 example_events_project).
Defined.
