(* ===== verification/ChangeDocuments.v ===== *)
(** * The claims behind a Change ([src/src/session/projection/change.rs])

    The document projection: exact revision references, and every membership and
    replacement claim with the events that support or withdraw it.  The properties say
    that it lists what the facts record and agrees with the effective views. *)

From S2P Require Import Prelude RustStr BTree Model Acknowledgement CanonicalHash Crypto Events.
From S2P Require Import ChangeClaims Relations Payloads ChangeGraph ChangeProjection ChangeViews.
From S2P Require Import ChangeEvents.

(** ** Data *)

Record ChangeClaimSupportV1 := {
  cs_event_id : EventId;
  cs_actor_id : ActorId;
  cs_track_id : option TrackId
}.

#[export] Instance ChangeClaimSupportV1_eq_dec : EqDecision ChangeClaimSupportV1.
Proof. solve_decision. Defined.

Definition support_tuple (s : ChangeClaimSupportV1) : EventId * ActorId * option TrackId :=
  (cs_event_id s, cs_actor_id s, cs_track_id s).

#[export] Instance ChangeClaimSupportV1_countable : Countable ChangeClaimSupportV1.
Proof.
  apply (inj_countable' support_tuple
    (λ p, {| cs_event_id := p.1.1; cs_actor_id := p.1.2; cs_track_id := p.2 |})).
  by intros [].
Defined.

(** The derived order: field by field. *)
#[export] Instance ChangeClaimSupportV1_Ord : Ord ChangeClaimSupportV1 := λ l r,
  ord_cmp (support_tuple l) (support_tuple r).

Record ChangeMembershipClaimViewV1 := {
  mcv_claim_id : ChangeMembershipClaimId;
  mcv_change_id : ChangeId;
  mcv_revision_id : RevisionId;
  mcv_supports : list ChangeClaimSupportV1;
  mcv_withdrawals : list ChangeClaimSupportV1;
  mcv_active : bool;
  mcv_diagnostics : list string
}.

Record ChangeRelationClaimViewV1 := {
  rcv_claim_id : ChangeRevisionRelationClaimId;
  rcv_change_id : ChangeId;
  rcv_successor : RevisionRefV1;
  rcv_predecessor : RevisionRefV1;
  rcv_supports : list ChangeClaimSupportV1;
  rcv_withdrawals : list ChangeClaimSupportV1;
  rcv_active : bool;
  rcv_diagnostics : list string
}.

Inductive RevisionRefUnavailableReasonV1 := InvalidRevisionId | InvalidObjectArtifactContentHash.

#[export] Instance RevisionRefUnavailableReasonV1_eq_dec : EqDecision RevisionRefUnavailableReasonV1.
Proof. solve_decision. Defined.

Record ChangeDocumentProjectionV1 := {
  cdp_revision_refs : gmap RevisionId (list RevisionRefV1);
  cdp_unavailable_revision_refs : gmap RevisionId RevisionRefUnavailableReasonV1;
  cdp_membership_claims : list ChangeMembershipClaimViewV1;
  cdp_relation_claims : list ChangeRelationClaimViewV1;
  cdp_diagnostics : list string;
  cdp_projection_stamp : string
}.

Record ChangeDocumentProjectionFact := {
  dpf_change : ChangeProjectionFact;
  dpf_support : ChangeClaimSupportV1
}.

Definition ChangeDocumentProjectionFact_new (change : ChangeProjectionFact) (event_id : EventId)
    (actor_id : ActorId) (track_id : option TrackId) : ChangeDocumentProjectionFact :=
  {| dpf_change := change;
     dpf_support := {| cs_event_id := event_id; cs_actor_id := actor_id; cs_track_id := track_id |} |}.

(** ** Documents *)

#[export] Instance bool_Serialize : Serialize bool := JBool.
#[export] Instance set_Serialize {K} `{Countable K} `{!Ord K} `{!Serialize K} : Serialize (gset K) :=
  λ X, to_json (iter_set X).
#[export] Instance pair_Serialize {A B} `{Serialize A} `{Serialize B} : Serialize (A * B) := λ p,
  JArray [to_json p.1; to_json p.2].

(** A [BTreeMap] with string keys. *)
Definition map_json {V} `{Serialize V} (m : gmap string V) : json :=
  JObject ((λ p, (p.1, to_json p.2)) <$> iter_map m).

#[export] Instance ChangeLifecycleV1_Serialize : Serialize ChangeLifecycleV1 := λ l,
  JString match l with
  | LIncomplete => "incomplete" | LConflicted => "conflicted" | LInProgress => "in_progress"
  | LAccepted => "accepted"
  end.
#[export] Instance ChangeTopologyV1_Serialize : Serialize ChangeTopologyV1 := λ t,
  JString match t with
  | TInitial => "initial" | TReplacement => "replacement"
  | TReplacementDivergent => "replacement_divergent" | TConsolidation => "consolidation"
  | TParallelCurrent => "parallel_current" | TMixed => "mixed" | TIncomplete => "incomplete"
  | TCycleConflicted => "cycle_conflicted"
  end.
#[export] Instance ChangeView_Serialize : Serialize ChangeView := λ v,
  JObject [("changeId", to_json (cv_change_id v)); ("members", to_json (cv_members v));
    ("currentRevisions", to_json (cv_current_revisions v)); ("supersedes", to_json (cv_supersedes v));
    ("topology", to_json (cv_topology v)); ("lifecycle", to_json (cv_lifecycle v));
    ("qualifiedCurrentRevisions", to_json (cv_qualified_current_revisions v));
    ("operativeObligations", to_json (cv_operative_obligations v));
    ("diagnostics", to_json (cv_diagnostics v))].
#[export] Instance ChangeLinkView_Serialize : Serialize ChangeLinkView := λ v,
  JObject [("leftChangeId", to_json (lv_left_change_id v));
    ("rightChangeId", to_json (lv_right_change_id v)); ("relation", to_json (lv_relation v))].
#[export] Instance ChangeProjection_Serialize : Serialize ChangeProjection := λ p,
  JObject [("changes", map_json (cp_changes p)); ("links", to_json (cp_links p))].
#[export] Instance ChangeClaimSupportV1_Serialize : Serialize ChangeClaimSupportV1 := λ s,
  JObject ([("eventId", to_json (cs_event_id s)); ("actorId", to_json (cs_actor_id s))] ++
    opt_field "trackId" (cs_track_id s)).
#[export] Instance ChangeMembershipClaimViewV1_Serialize : Serialize ChangeMembershipClaimViewV1 := λ v,
  JObject [("claimId", to_json (mcv_claim_id v)); ("changeId", to_json (mcv_change_id v));
    ("revisionId", to_json (mcv_revision_id v)); ("supports", to_json (mcv_supports v));
    ("withdrawals", to_json (mcv_withdrawals v)); ("active", to_json (mcv_active v));
    ("diagnostics", to_json (mcv_diagnostics v))].
#[export] Instance ChangeRelationClaimViewV1_Serialize : Serialize ChangeRelationClaimViewV1 := λ v,
  JObject [("claimId", to_json (rcv_claim_id v)); ("changeId", to_json (rcv_change_id v));
    ("successor", to_json (rcv_successor v)); ("predecessor", to_json (rcv_predecessor v));
    ("supports", to_json (rcv_supports v)); ("withdrawals", to_json (rcv_withdrawals v));
    ("active", to_json (rcv_active v)); ("diagnostics", to_json (rcv_diagnostics v))].

Definition reason_text (reason : RevisionRefUnavailableReasonV1) : string :=
  match reason with
  | InvalidRevisionId => "invalid_revision_id"
  | InvalidObjectArtifactContentHash => "invalid_object_artifact_content_hash"
  end.
#[export] Instance RevisionRefUnavailableReasonV1_Serialize
  : Serialize RevisionRefUnavailableReasonV1 := λ r, JString (reason_text r).

Definition change_document_projection_stamp `{Digest} (semantic : ChangeProjection)
    (projection : ChangeDocumentProjectionV1) : result string :=
  sha256_json_prefixed (JObject [("semantic", to_json semantic);
    ("revisionRefs", map_json (cdp_revision_refs projection));
    ("unavailableRevisionRefs", map_json (cdp_unavailable_revision_refs projection));
    ("membershipClaims", to_json (cdp_membership_claims projection));
    ("relationClaims", to_json (cdp_relation_claims projection));
    ("diagnostics", to_json (cdp_diagnostics projection))]).

(** ** The fold *)

Abbreviation supports := (gset ChangeClaimSupportV1).

Record ClaimProvenanceInput := {
  cpi_revisions : gmap RevisionId (gset string);
  cpi_memberships : gmap ChangeMembershipClaimId (ChangeId * RevisionId * supports);
  cpi_membership_withdrawals : gmap ChangeMembershipClaimId supports;
  cpi_relations : gmap ChangeRevisionRelationClaimId (ChangeId * RevisionRefV1 * RevisionRefV1 * supports);
  cpi_relation_withdrawals : gmap ChangeRevisionRelationClaimId supports
}.

Definition ClaimProvenanceInput_default : ClaimProvenanceInput :=
  {| cpi_revisions := ∅; cpi_memberships := ∅; cpi_membership_withdrawals := ∅;
     cpi_relations := ∅; cpi_relation_withdrawals := ∅ |}.

(** [entry(k).or_default().insert(x)]. *)
Definition entry_insert {K X} `{Countable K} `{Countable X} (m : gmap K (gset X)) (k : K) (x : X)
    : gmap K (gset X) := <[k := default ∅ (m !! k) ∪ {[x]}]> m.

(** [entry(k).or_insert_with(|| (v, BTreeSet::new()))], then the set gains [x]. *)
Definition entry_support {K V X} `{Countable K} `{Countable X} (m : gmap K (V * gset X)) (k : K)
    (v : V) (x : X) : gmap K (V * gset X) :=
  let '(v, s) := default (v, ∅) (m !! k) in <[k := (v, s ∪ {[x]})]> m.

Definition provenance_step (input : ClaimProvenanceInput) (fact : ChangeDocumentProjectionFact)
    : ClaimProvenanceInput :=
  let support := dpf_support fact in
  match dpf_change fact with
  | FRevision revision_id hash =>
      {| cpi_revisions := entry_insert (cpi_revisions input) revision_id hash;
         cpi_memberships := cpi_memberships input;
         cpi_membership_withdrawals := cpi_membership_withdrawals input;
         cpi_relations := cpi_relations input;
         cpi_relation_withdrawals := cpi_relation_withdrawals input |}
  | FMembershipAsserted claim_id change_id revision_id =>
      {| cpi_revisions := cpi_revisions input;
         cpi_memberships := entry_support (cpi_memberships input) claim_id (change_id, revision_id) support;
         cpi_membership_withdrawals := cpi_membership_withdrawals input;
         cpi_relations := cpi_relations input;
         cpi_relation_withdrawals := cpi_relation_withdrawals input |}
  | FMembershipWithdrawn claim_id =>
      {| cpi_revisions := cpi_revisions input; cpi_memberships := cpi_memberships input;
         cpi_membership_withdrawals := entry_insert (cpi_membership_withdrawals input) claim_id support;
         cpi_relations := cpi_relations input;
         cpi_relation_withdrawals := cpi_relation_withdrawals input |}
  | FRelationAsserted claim_id change_id successor predecessor =>
      {| cpi_revisions := cpi_revisions input; cpi_memberships := cpi_memberships input;
         cpi_membership_withdrawals := cpi_membership_withdrawals input;
         cpi_relations := entry_support (cpi_relations input) claim_id
           (change_id, successor, predecessor) support;
         cpi_relation_withdrawals := cpi_relation_withdrawals input |}
  | FRelationWithdrawn claim_id =>
      {| cpi_revisions := cpi_revisions input; cpi_memberships := cpi_memberships input;
         cpi_membership_withdrawals := cpi_membership_withdrawals input;
         cpi_relations := cpi_relations input;
         cpi_relation_withdrawals := entry_insert (cpi_relation_withdrawals input) claim_id support |}
  | _ => input
  end.

Definition claim_diagnostics (supports withdrawals : supports) : list string :=
  let diagnostics := insert_if (1 <? size supports) "duplicate_claim_support" ∅ in
  let crossed := existsb (λ withdrawal, negb (existsb (λ support,
    String.eqb (cs_actor_id support) (cs_actor_id withdrawal)) (iter_set supports))) (iter_set withdrawals) in
  iter_set (insert_if (negb (bool_decide (withdrawals = ∅)) && crossed) "cross_actor_withdrawal" diagnostics).

(** One revision: its exact references, or why it has none. *)
Definition ref_entry (revision_id : RevisionId) (hashes : gset string)
    : list RevisionRefV1 + RevisionRefUnavailableReasonV1 :=
  if negb (starts_with "rev:" revision_id) then inr InvalidRevisionId
  else match mapM (RevisionRefV1_new revision_id) (iter_set hashes) with
  | Ok refs => inl refs
  | Err _ => inr InvalidObjectArtifactContentHash
  end.

Definition ref_step (s : gmap RevisionId (list RevisionRefV1) * gmap RevisionId RevisionRefUnavailableReasonV1)
    (p : RevisionId * gset string)
    : gmap RevisionId (list RevisionRefV1) * gmap RevisionId RevisionRefUnavailableReasonV1 :=
  match ref_entry p.1 p.2 with
  | inl refs => (<[p.1 := refs]> s.1, s.2)
  | inr reason => (s.1, <[p.1 := reason]> s.2)
  end.

(** Withdrawals that name no claim. *)
Definition missing_claims {V} (prefix : string) (withdrawals : gmap string supports)
    (claims : gmap string V) : list string :=
  (λ claim_id, prefix +:+ claim_id) <$>
    filter (λ claim_id, claims !! claim_id = None) (map_keys withdrawals).

Definition membership_claim (withdrawals : gmap ChangeMembershipClaimId supports)
    (p : ChangeMembershipClaimId * (ChangeId * RevisionId * supports)) : ChangeMembershipClaimViewV1 :=
  let '(claim_id, (change_id, revision_id, supports)) := p in
  let withdrawals := default ∅ (withdrawals !! claim_id) in
  {| mcv_claim_id := claim_id; mcv_change_id := change_id; mcv_revision_id := revision_id;
     mcv_diagnostics := claim_diagnostics supports withdrawals;
     mcv_active := bool_decide (withdrawals = ∅);
     mcv_supports := iter_set supports; mcv_withdrawals := iter_set withdrawals |}.

Definition relation_claim (withdrawals : gmap ChangeRevisionRelationClaimId supports)
    (p : ChangeRevisionRelationClaimId * (ChangeId * RevisionRefV1 * RevisionRefV1 * supports))
    : ChangeRelationClaimViewV1 :=
  let '(claim_id, (change_id, successor, predecessor, supports)) := p in
  let withdrawals := default ∅ (withdrawals !! claim_id) in
  {| rcv_claim_id := claim_id; rcv_change_id := change_id; rcv_successor := successor;
     rcv_predecessor := predecessor; rcv_diagnostics := claim_diagnostics supports withdrawals;
     rcv_active := bool_decide (withdrawals = ∅);
     rcv_supports := iter_set supports; rcv_withdrawals := iter_set withdrawals |}.

Section documents.
Context `{Digest}.

Definition provenance_input (facts : list ChangeDocumentProjectionFact) : ClaimProvenanceInput :=
  foldl provenance_step ClaimProvenanceInput_default facts.

Definition project_change_documents_from_facts (facts : list ChangeDocumentProjectionFact)
    : result ChangeDocumentProjectionV1 :=
  let? semantic := project_changes_from_facts (dpf_change <$> facts) in
  let input := provenance_input facts in
  let '(revision_refs, unavailable_revision_refs) :=
    foldl ref_step (∅, ∅) (iter_map (cpi_revisions input)) in
  let diagnostics : gset string := set_of_list
    (((λ p, "change_revision_ref_unavailable:" +:+ p.1 +:+ ":" +:+ reason_text p.2) <$>
        iter_map unavailable_revision_refs) ++
     missing_claims "change_membership_withdrawal_claim_missing:"
       (cpi_membership_withdrawals input) (cpi_memberships input) ++
     missing_claims "change_relation_withdrawal_claim_missing:"
       (cpi_relation_withdrawals input) (cpi_relations input)) in
  let projection stamp := {|
    cdp_revision_refs := revision_refs;
    cdp_unavailable_revision_refs := unavailable_revision_refs;
    cdp_membership_claims :=
      membership_claim (cpi_membership_withdrawals input) <$> iter_map (cpi_memberships input);
    cdp_relation_claims :=
      relation_claim (cpi_relation_withdrawals input) <$> iter_map (cpi_relations input);
    cdp_diagnostics := iter_set diagnostics;
    cdp_projection_stamp := stamp |} in
  let? stamp := change_document_projection_stamp semantic (projection EmptyString) in
  Ok (projection stamp).

Context `{Decoders}.

Definition document_fact (event : ShoreEvent) : result (option ChangeDocumentProjectionFact) :=
  let? change := extract_change_projection_fact event in
  Ok ((λ change, ChangeDocumentProjectionFact_new change (ev_event_id event)
    (w_actor_id (ev_writer event)) (et_track_id (ev_target event))) <$> change).

Definition project_change_documents (events : list ShoreEvent) : result ChangeDocumentProjectionV1 :=
  let? facts := try_fold (λ facts event,
    let? fact := document_fact event in
    Ok (match fact with Some fact => facts ++ [fact] | None => facts end)) [] events in
  project_change_documents_from_facts facts.
End documents.

(** ** What the fold records *)

#[export] Instance ChangeClaimSupportV1_OrdLaws : OrdLaws ChangeClaimSupportV1.
Proof.
  split; [apply (cmp_pullback support_tuple ord_cmp), _|].
  intros [a b c] [a' b' c'] Heq.
  change (ord_cmp (a, b, c) (a', b', c') = Eq) in Heq. apply (cmp_eq ord_cmp) in Heq.
  by injection Heq as -> -> ->.
Qed.

Section recorded_claims.
Context (facts : list ChangeDocumentProjectionFact).

Lemma provenance_snoc l f : provenance_input (l ++ [f]) = provenance_step (provenance_input l) f.
Proof using. unfold provenance_input. by rewrite foldl_app. Qed.

(** A field that the facts of one family insert their support into. *)
Section asserted.
Context {K V : Type} `{Countable K} (field : ClaimProvenanceInput → gmap K (V * supports)).
Context (entry : ChangeProjectionFact → option (K * V)).
Hypothesis Hinit : field ClaimProvenanceInput_default = ∅.
Hypothesis Hstep : ∀ i f, field (provenance_step i f) =
  match entry (dpf_change f) with
  | Some (k, v) => entry_support (field i) k v (dpf_support f)
  | None => field i
  end.
Hypothesis Hagree : ∀ f g k v v', f ∈ facts → g ∈ facts → entry (dpf_change f) = Some (k, v) →
  entry (dpf_change g) = Some (k, v') → v = v'.

Lemma asserted_spec k :
  match field (provenance_input facts) !! k with
  | Some (v, U) => (∃ f, f ∈ facts ∧ entry (dpf_change f) = Some (k, v)) ∧
      ∀ s, s ∈ U ↔ ∃ f, f ∈ facts ∧ entry (dpf_change f) = Some (k, v) ∧ dpf_support f = s
  | None => ∀ f v, f ∈ facts → entry (dpf_change f) ≠ Some (k, v)
  end.
Proof using Hinit Hstep Hagree.
  revert Hagree. induction facts as [|f l IH] using rev_ind; intros Ha.
  { unfold provenance_input. cbn. rewrite Hinit, lookup_empty. by intros ? ? ?%elem_of_nil. }
  assert (∀ f g k v v', f ∈ l → g ∈ l → entry (dpf_change f) = Some (k, v) →
    entry (dpf_change g) = Some (k, v') → v = v') as Ha'.
  { intros g g' k' v v' Hg Hg'. apply Ha; apply elem_of_app; by left. }
  specialize (IH Ha'). rewrite provenance_snoc, Hstep.
  destruct (entry (dpf_change f)) as [[k' v']|] eqn:Ef.
  2:{ destruct (field (provenance_input l) !! k) as [[v U]|]; setoid_rewrite elem_of_snoc.
      - destruct IH as [(g & Hg & Hv) HS]. split; [eauto|]. intros s. rewrite HS. split.
        + intros (x & ? & ? & ?). eauto.
        + intros (x & [?| ->] & ? & ?); [eauto|congruence].
      - intros x v [Hx| ->]; [by apply IH|congruence]. }
  unfold entry_support. destruct (default (v', ∅) (field (provenance_input l) !! k')) as [w U] eqn:Ed.
  destruct (decide (k' = k)) as [->|Hne].
  2:{ rewrite lookup_insert_ne by done. destruct (field (provenance_input l) !! k) as [[v T]|]; setoid_rewrite elem_of_snoc.
      - destruct IH as [(g & Hg & Hv) HS]. split; [eauto|]. intros s. rewrite HS. split.
        + intros (x & ? & ? & ?). eauto.
        + intros (x & [?| ->] & ? & ?); [eauto|congruence].
      - intros x v [Hx| ->]; [by apply IH|congruence]. }
  rewrite lookup_insert_eq. setoid_rewrite elem_of_snoc. destruct (field (provenance_input l) !! k) as [[v T]|]; cbn in Ed.
  - injection Ed as <- <-. destruct IH as [(g & Hg & Hv) HS].
    assert (v = v') as -> by (apply (Ha g f k v v'); [apply elem_of_snoc; by left|apply elem_of_snoc; by right|done..]).
    split; [eauto|]. intros s. rewrite elem_of_union, elem_of_singleton, HS. split.
    + intros [(x & ? & ? & ?)| ->]; eauto.
    + intros (x & [?| ->] & ? & ?); [left; eauto|by right].
  - injection Ed as <- <-. split; [eauto|]. intros s. rewrite elem_of_union, elem_of_singleton. split.
    + intros [?%elem_of_empty| ->]; [done|eauto].
    + intros (x & [Hx| ->] & Hv & ?); [by destruct (IH x _ Hx Hv)|by right].
Qed.
End asserted.

(** A field the facts of one family collect a value into. *)
Section collected.
Context {K X : Type} `{Countable K} `{Countable X} (field : ClaimProvenanceInput → gmap K (gset X)).
Context (entry : ChangeDocumentProjectionFact → option (K * X)).
Hypothesis Hinit : field ClaimProvenanceInput_default = ∅.
Hypothesis Hstep : ∀ i f, field (provenance_step i f) =
  match entry f with Some (k, x) => entry_insert (field i) k x | None => field i end.

Lemma collected_spec k :
  (∀ x, x ∈ default ∅ (field (provenance_input facts) !! k) ↔ ∃ f, f ∈ facts ∧ entry f = Some (k, x)) ∧
  (is_Some (field (provenance_input facts) !! k) ↔ ∃ f x, f ∈ facts ∧ entry f = Some (k, x)).
Proof using Hinit Hstep.
  induction facts as [|f l [IH1 IH2]] using rev_ind.
  { unfold provenance_input. cbn. rewrite Hinit, lookup_empty. split.
    - intros x. split; [set_solver|by intros (? & ?%elem_of_nil & _)].
    - split; [by intros [? ?]|by intros (? & ? & ?%elem_of_nil & _)]. }
  rewrite provenance_snoc, Hstep. setoid_rewrite elem_of_snoc.
  destruct (entry f) as [[k' x']|] eqn:Ef.
  2:{ split; [intros x; rewrite IH1|rewrite IH2]; split.
      - intros (g & ? & ?); eauto.
      - intros (g & [?| ->] & ?); [eauto|congruence].
      - intros (g & x & ? & ?); eauto.
      - intros (g & x & [?| ->] & ?); [eauto|congruence]. }
  unfold entry_insert. destruct (decide (k' = k)) as [->|Hne].
  - rewrite lookup_insert_eq. cbn [from_option id]. split.
    + intros x. rewrite elem_of_union, elem_of_singleton, IH1. split.
      * intros [(g & ? & ?)| ->]; eauto.
      * intros (g & [?| ->] & ?); [eauto|right; congruence].
    + split; [intros _; eauto|by eexists].
  - rewrite lookup_insert_ne by done. split; [intros x; rewrite IH1|rewrite IH2]; split.
    + intros (g & ? & ?); eauto.
    + intros (g & [?| ->] & ?); [eauto|congruence].
    + intros (g & x & ? & ?); eauto.
    + intros (g & x & [?| ->] & ?); [eauto|congruence].
Qed.
End collected.
End recorded_claims.

(** ** What a claim view says *)

(** [l] lists the carriers of the facts in [P], in order. *)
Definition carriers (facts : list ChangeDocumentProjectionFact) (P : ChangeProjectionFact → Prop)
    (l : list ChangeClaimSupportV1) : Prop :=
  StronglySorted (cmp_lt ord_cmp) l ∧
  ∀ s, s ∈ l ↔ ∃ f, f ∈ facts ∧ P (dpf_change f) ∧ dpf_support f = s.

(** A claim asserted by the facts in [P] and withdrawn by those in [W]. *)
Record claim_explained (facts : list ChangeDocumentProjectionFact) (P W : ChangeProjectionFact → Prop)
    (supports withdrawals : list ChangeClaimSupportV1) (active : bool) (diagnostics : list string)
    : Prop := {
  ce_supports : carriers facts P supports;
  ce_withdrawals : carriers facts W withdrawals;
  ce_active : active = true ↔ ∀ f, f ∈ facts → ¬ W (dpf_change f);
  ce_duplicate : "duplicate_claim_support" ∈ diagnostics ↔ 2 ≤ length supports;
  ce_crossed : "cross_actor_withdrawal" ∈ diagnostics ↔
    ∃ w, w ∈ withdrawals ∧ ∀ s, s ∈ supports → cs_actor_id s ≠ cs_actor_id w
}.

Lemma claim_explained_spec facts P W (U T : supports) :
  (∀ s, s ∈ U ↔ ∃ f, f ∈ facts ∧ P (dpf_change f) ∧ dpf_support f = s) →
  (∀ s, s ∈ T ↔ ∃ f, f ∈ facts ∧ W (dpf_change f) ∧ dpf_support f = s) →
  claim_explained facts P W (iter_set U) (iter_set T) (bool_decide (T = ∅)) (claim_diagnostics U T).
Proof.
  intros HU HT. split.
  - split; [apply iter_set_sorted|]. intros s. by rewrite elem_of_iter_set.
  - split; [apply iter_set_sorted|]. intros s. by rewrite elem_of_iter_set.
  - rewrite bool_decide_eq_true. split.
    + intros -> f Hf Hw. apply (not_elem_of_empty (C:=supports) (dpf_support f)), HT. eauto.
    + intros Hno. apply set_eq. intros s. rewrite HT. split; [|set_solver].
      intros (f & Hf & Hw & _). by destruct (Hno f Hf).
  - unfold claim_diagnostics, insert_if. cbn zeta. rewrite elem_of_iter_set, length_iter_set.
    destruct (1 <? size U) eqn:E; [apply Nat.ltb_lt in E|apply Nat.ltb_ge in E];
      destruct (negb _ && _); rewrite ?elem_of_union, ?elem_of_singleton, ?elem_of_empty;
      (split; [intros Hin|intros ?]); try lia; try tauto; try (destruct_or?; done).
  - assert ("cross_actor_withdrawal" ∈ claim_diagnostics U T ↔
      negb (bool_decide (T = ∅)) && existsb (λ w, negb (existsb (λ s,
        String.eqb (cs_actor_id s) (cs_actor_id w)) (iter_set U))) (iter_set T) = true) as ->.
    { unfold claim_diagnostics, insert_if. cbn zeta. rewrite elem_of_iter_set.
      destruct (negb _ && _); destruct (1 <? size U);
        rewrite ?elem_of_union, ?elem_of_singleton, ?elem_of_empty; split; auto;
        intros ?; destruct_or?; done. }
    rewrite andb_true_iff, negb_true_iff, bool_decide_eq_false, existsb_exists.
    setoid_rewrite <- list_elem_of_In. setoid_rewrite negb_true_iff. split.
    + intros (_ & w & Hw & Hn). exists w. split; [done|]. intros s Hs Heq.
      apply not_true_iff_false in Hn. apply Hn, existsb_exists. exists s.
      rewrite <- list_elem_of_In. split; [done|]. by apply String.eqb_eq.
    + intros (w & Hw & Hn). split.
      { intros ->. rewrite iter_set_empty in Hw. by apply elem_of_nil in Hw. }
      exists w. split; [done|]. apply not_true_iff_false. rewrite existsb_exists.
      setoid_rewrite <- list_elem_of_In. intros (s & Hs & Heq%String.eqb_eq). by apply (Hn s).
Qed.

(** ** The projection, read back *)

Section read_back.
Context (facts : list ChangeDocumentProjectionFact).
Abbreviation changes := (dpf_change <$> facts).
Context (Hc : consistent changes).
Abbreviation input := (provenance_input facts).

Lemma elem_of_changes x : x ∈ changes ↔ ∃ f, f ∈ facts ∧ dpf_change f = x.
Proof using. rewrite list_elem_of_fmap. split; intros (f & ? & ?); exists f; auto. Qed.

Definition withdraws_membership (claim : ChangeMembershipClaimId) (f : ChangeProjectionFact) : Prop :=
  f = FMembershipWithdrawn claim.
Definition withdraws_relation (claim : ChangeRevisionRelationClaimId) (f : ChangeProjectionFact) : Prop :=
  f = FRelationWithdrawn claim.

Lemma membership_withdrawals_spec claim s :
  s ∈ default ∅ (cpi_membership_withdrawals input !! claim) ↔
  ∃ f, f ∈ facts ∧ withdraws_membership claim (dpf_change f) ∧ dpf_support f = s.
Proof using.
  destruct (collected_spec facts cpi_membership_withdrawals (λ f, match dpf_change f with
    | FMembershipWithdrawn claim => Some (claim, dpf_support f) | _ => None end) eq_refl) with claim as [Hs _].
  { intros i [[] ?]; done. }
  rewrite Hs. unfold withdraws_membership. split.
  - intros (f & Hf & E). exists f. destruct (dpf_change f); try done. by injection E as -> ->.
  - intros (f & Hf & E & <-). exists f. by rewrite E.
Qed.

Lemma relation_withdrawals_spec claim s :
  s ∈ default ∅ (cpi_relation_withdrawals input !! claim) ↔
  ∃ f, f ∈ facts ∧ withdraws_relation claim (dpf_change f) ∧ dpf_support f = s.
Proof using.
  destruct (collected_spec facts cpi_relation_withdrawals (λ f, match dpf_change f with
    | FRelationWithdrawn claim => Some (claim, dpf_support f) | _ => None end) eq_refl) with claim as [Hs _].
  { intros i [[] ?]; done. }
  rewrite Hs. unfold withdraws_relation. split.
  - intros (f & Hf & E). exists f. destruct (dpf_change f); try done. by injection E as -> ->.
  - intros (f & Hf & E & <-). exists f. by rewrite E.
Qed.

(** What a claim asserts. *)
Definition membership_key (f : ChangeProjectionFact) : option (ChangeMembershipClaimId * (ChangeId * RevisionId)) :=
  match f with FMembershipAsserted claim c r => Some (claim, (c, r)) | _ => None end.
Definition relation_key (f : ChangeProjectionFact)
    : option (ChangeRevisionRelationClaimId * (ChangeId * RevisionRefV1 * RevisionRefV1)) :=
  match f with FRelationAsserted claim c s p => Some (claim, (c, s, p)) | _ => None end.

Definition memberships_spec := asserted_spec facts cpi_memberships membership_key eq_refl
  ltac:(by intros i [[] ?])
  ltac:(
    intros f g k [c r] [c' r'] Hf Hg E E'; destruct (dpf_change f) eqn:F; try done;
    destruct (dpf_change g) eqn:G; try done; simplify_eq/=;
    destruct (consistent_memberships _ Hc k c r c' r') as [-> ->]; [apply elem_of_changes; eauto..|done]).
Definition relations_spec := asserted_spec facts cpi_relations relation_key eq_refl
  ltac:(by intros i [[] ?])
  ltac:(
    intros f g k [[c s] p] [[c' s'] p'] Hf Hg E E'; destruct (dpf_change f) eqn:F; try done;
    destruct (dpf_change g) eqn:G; try done; simplify_eq/=;
    destruct (consistent_relations _ Hc k c s p c' s' p') as (-> & -> & ->);
      [apply elem_of_changes; eauto..|done]).

Lemma membership_claim_spec claim c r :
  FMembershipAsserted claim c r ∈ changes ↔ ∃ U, cpi_memberships input !! claim = Some (c, r, U).
Proof using Hc.
  pose proof (memberships_spec claim) as Hs. rewrite elem_of_changes. split.
  - intros (f & Hf & E). destruct (cpi_memberships input !! claim) as [[[c' r'] U]|].
    + exists U. destruct Hs as [(g & Hg & G) _]. unfold membership_key in G.
      destruct (dpf_change g) eqn:Eg; try done. injection G as -> -> ->.
      destruct (consistent_memberships _ Hc claim c r c' r') as [-> ->]; [apply elem_of_changes; eauto..|done].
    + exfalso. apply (Hs f (c, r) Hf). by rewrite E.
  - intros [U HU]. rewrite HU in Hs. destruct Hs as [(g & Hg & G) _]. exists g. split; [done|].
    unfold membership_key in G. destruct (dpf_change g); try done. by injection G as -> -> ->.
Qed.

Lemma relation_claim_spec claim c s p :
  FRelationAsserted claim c s p ∈ changes ↔ ∃ U, cpi_relations input !! claim = Some (c, s, p, U).
Proof using Hc.
  pose proof (relations_spec claim) as Hs. rewrite elem_of_changes. split.
  - intros (f & Hf & E). destruct (cpi_relations input !! claim) as [[[[c' s'] p'] U]|].
    + exists U. destruct Hs as [(g & Hg & G) _]. unfold relation_key in G.
      destruct (dpf_change g) eqn:Eg; try done. injection G as -> -> -> ->.
      destruct (consistent_relations _ Hc claim c s p c' s' p') as (-> & -> & ->);
        [apply elem_of_changes; eauto..|done].
    + exfalso. apply (Hs f (c, s, p) Hf). by rewrite E.
  - intros [U HU]. rewrite HU in Hs. destruct Hs as [(g & Hg & G) _]. exists g. split; [done|].
    unfold relation_key in G. destruct (dpf_change g); try done. by injection G as -> -> -> ->.
Qed.

Lemma revisions_spec r :
  (∀ h, h ∈ default ∅ (cpi_revisions input !! r) ↔ FRevision r h ∈ changes) ∧
  (is_Some (cpi_revisions input !! r) ↔ captured changes r).
Proof using.
  destruct (collected_spec facts cpi_revisions (λ f, match dpf_change f with
    | FRevision r h => Some (r, h) | _ => None end) eq_refl) with r as [Hs Hi].
  { intros i [[] ?]; done. }
  assert (∀ f h, match dpf_change f with FRevision r h => Some (r, h) | _ => None end = Some (r, h) ↔
    dpf_change f = FRevision r h) as He.
  { intros f h. destruct (dpf_change f); split; try done; congruence. }
  setoid_rewrite He in Hs. setoid_rewrite He in Hi. unfold captured. setoid_rewrite elem_of_changes.
  split; [done|]. rewrite Hi. split; intros (x & y & ?); eauto.
Qed.

(** The exact references. *)
Lemma refs_lookup (m : gmap RevisionId (gset string)) r :
  let s := foldl ref_step (∅, ∅) (iter_map m) in
  (∀ refs, s.1 !! r = Some refs ↔ ∃ hs, m !! r = Some hs ∧ ref_entry r hs = inl refs) ∧
  (∀ reason, s.2 !! r = Some reason ↔ ∃ hs, m !! r = Some hs ∧ ref_entry r hs = inr reason).
Proof using.
  cbn zeta. setoid_rewrite <- (elem_of_iter_map m r). pose proof (NoDup_map_keys m) as Hnd.
  unfold map_keys in Hnd.
  induction (iter_map m) as [|[r' hs'] l IH] using rev_ind.
  { split; intros x; cbn [foldl fst snd]; rewrite lookup_empty; (split; [done|]);
      by intros (hs & ?%elem_of_nil & _). }
  rewrite fmap_app in Hnd. cbn in Hnd. apply NoDup_app in Hnd as (Hnd & Hdisj & _).
  destruct (IH Hnd) as [IH1 IH2]. rewrite foldl_app. cbn [foldl]. unfold ref_step at 1 3. cbn [fst snd].
  setoid_rewrite elem_of_snoc.
  assert (∀ hs, (r', hs) ∉ l) as Hn.
  { intros hs Hin. apply (Hdisj r'); [|by left]. apply list_elem_of_fmap. by exists (r', hs). }
  destruct (decide (r' = r)) as [->|Hne].
  - assert ((foldl ref_step (∅, ∅) l).1 !! r = None ∧ (foldl ref_step (∅, ∅) l).2 !! r = None) as [N1 N2].
    { split; apply eq_None_not_Some; intros [x Hx]; [apply IH1 in Hx|apply IH2 in Hx];
        destruct Hx as (hs & Hin & _); by apply Hn in Hin. }
    destruct (ref_entry r hs') as [refs'|reason'] eqn:E; cbn [fst snd]; rewrite lookup_insert_eq, ?N1, ?N2;
      split; intros x; (split; [intros Hx|intros (hs & [Hin|Hin] & Hr)]); try (by apply Hn in Hin);
      try done; try (injection Hin as <-; congruence); injection Hx as <-; exists hs'; auto.
  - assert (∀ hs, (r, hs) ∈ l ∨ (r, hs) = (r', hs') ↔ (r, hs) ∈ l) as Hin.
    { intros hs. split; [|by left]. by intros [?|[= -> _]]. }
    setoid_rewrite Hin. destruct (ref_entry r' hs'); cbn [fst snd]; rewrite lookup_insert_ne by done; done.
Qed.
End read_back.

(** ** Properties *)

(** The rows of a map come in the order of their keys. *)
Lemma rows_sorted {V A} (m : gmap string V) (row : string * V → A) (key : A → string) :
  (∀ p, key (row p) = p.1) →
  StronglySorted (cmp_lt String.compare) (key <$> (row <$> iter_map m)).
Proof.
  intros Hkey. replace (key <$> (row <$> iter_map m)) with (map_keys m).
  2:{ unfold map_keys. rewrite <- list_fmap_compose. apply list_fmap_ext. intros i p _. symmetry. apply Hkey. }
  pose proof (NoDup_map_keys m) as Hnd. unfold map_keys, iter_map in *.
  assert (TotalCmp (λ p q : string * V, ord_cmp p.1 q.1)) as Ht by (apply (cmp_pullback fst String.compare), _).
  pose proof (sort_by_sorted (λ p q : string * V, ord_cmp p.1 q.1) (map_to_list m)) as Hs.
  induction Hs as [|p l Hl IH Hp]; cbn; constructor; cbn in Hnd; apply NoDup_cons in Hnd as [Hn Hnd]; [auto|].
  apply Forall_forall. intros k (q & -> & Hq)%list_elem_of_fmap. eapply Forall_forall in Hp; [|done].
  unfold cmp_le, cmp_lt, ord_cmp, string_Ord in *. destruct (String.compare p.1 q.1) eqn:E; [|done..].
  apply (cmp_eq String.compare) in E. destruct Hn. rewrite E. by apply list_elem_of_fmap_2.
Qed.

(** One reference per well-formed hash. *)
Lemma ref_entry_exact r (hashes : gset string) refs :
  ref_entry r hashes = inl refs ↔
  starts_with "rev:" r = true ∧ (∀ h, h ∈ hashes → is_prefixed_sha256 h = true) ∧
  refs = (λ h, {| rr_revision_id := r; rr_object_artifact_content_hash := h |}) <$> iter_set hashes.
Proof.
  unfold ref_entry. destruct (starts_with "rev:" r) eqn:Er; cbn [negb]; [|split; [done|by intros [? _]]].
  assert (∀ l k, mapM (RevisionRefV1_new r) l = Ok k ↔ (∀ h, h ∈ l → is_prefixed_sha256 h = true) ∧
    k = (λ h, {| rr_revision_id := r; rr_object_artifact_content_hash := h |}) <$> l) as Hm.
  { intros l. induction l as [|h l IH]; intros k; rewrite mapM_Ok.
    - split; [intros Hk; inversion Hk; split; [by intros ? ?%elem_of_nil|done]|]. intros [_ ->]. constructor.
    - unfold RevisionRefV1_new at 1. split.
      + intros Hk. inversion Hk as [|? y ? k' Hy Hk']; subst. apply mapM_Ok, IH in Hk' as [Hl ->].
        unfold RevisionRefV1_new in Hy. rewrite Er in Hy. cbn [negb] in Hy.
        destruct (is_prefixed_sha256 h) eqn:Eh; cbn [negb] in Hy; [|done]. injection Hy as <-. split; [|done].
        by intros x [->|Hx]%elem_of_cons; [|apply Hl].
      + intros [Hl ->]. cbn. constructor.
        * unfold RevisionRefV1_new. by rewrite Er, (Hl h (list_elem_of_here _ _)).
        * apply mapM_Ok, IH. split; [|done]. intros x Hx. apply Hl. by right. }
  setoid_rewrite <- (elem_of_iter_set _ hashes). specialize (Hm (iter_set hashes)).
  destruct (mapM _ _) as [k|]; split; [intros [= <-]|..].
  - by destruct (proj1 (Hm k) eq_refl).
  - intros (_ & Hl & ->). f_equal. by destruct (proj1 (Hm k) eq_refl) as [_ ->].
  - done.
  - intros (_ & Hl & ->). by discriminate (proj2 (Hm _) (conj Hl eq_refl)).
Qed.

Section read_projection.
Context `{DigestLaws} (facts : list ChangeDocumentProjectionFact) (d : ChangeDocumentProjectionV1).
Abbreviation changes := (dpf_change <$> facts).
Context (Hc : consistent changes) (Hd : project_change_documents_from_facts facts = Ok d).
Abbreviation input := (provenance_input facts).

Lemma projection_fields :
  is_ok (project_changes_from_facts changes) = true ∧
  cdp_membership_claims d =
    membership_claim (cpi_membership_withdrawals input) <$> iter_map (cpi_memberships input) ∧
  cdp_relation_claims d =
    relation_claim (cpi_relation_withdrawals input) <$> iter_map (cpi_relations input) ∧
  cdp_revision_refs d = (foldl ref_step (∅, ∅) (iter_map (cpi_revisions input))).1 ∧
  cdp_unavailable_revision_refs d = (foldl ref_step (∅, ∅) (iter_map (cpi_revisions input))).2.
Proof using Hd.
  pose proof Hd as Hd'. unfold project_change_documents_from_facts in Hd'.
  apply bind_Ok in Hd' as (P & -> & Hd'). cbn zeta in Hd'.
  destruct (foldl ref_step _ _) as [refs unavailable]. apply bind_Ok in Hd' as (stamp & _ & [= <-]). done.
Qed.

Lemma membership_view v :
  v ∈ cdp_membership_claims d →
  FMembershipAsserted (mcv_claim_id v) (mcv_change_id v) (mcv_revision_id v) ∈ changes ∧
  claim_explained facts
    (λ f, f = FMembershipAsserted (mcv_claim_id v) (mcv_change_id v) (mcv_revision_id v))
    (withdraws_membership (mcv_claim_id v)) (mcv_supports v) (mcv_withdrawals v) (mcv_active v)
    (mcv_diagnostics v).
Proof using Hc Hd.
  destruct projection_fields as (_ & -> & _). rewrite list_elem_of_fmap.
  intros ([claim [[c r] U]] & -> & Hin%elem_of_iter_map). cbn. split; [apply membership_claim_spec; eauto|].
  apply claim_explained_spec; [|apply membership_withdrawals_spec].
  intros s. pose proof (memberships_spec facts Hc claim) as Hs. rewrite Hin in Hs. destruct Hs as [_ ->].
  assert (∀ f, membership_key f = Some (claim, (c, r)) ↔ f = FMembershipAsserted claim c r) as He.
  { intros f. unfold membership_key. destruct f; split; try done; congruence. }
  by setoid_rewrite He.
Qed.

Lemma relation_view v :
  v ∈ cdp_relation_claims d →
  FRelationAsserted (rcv_claim_id v) (rcv_change_id v) (rcv_successor v) (rcv_predecessor v) ∈ changes ∧
  claim_explained facts
    (λ f, f = FRelationAsserted (rcv_claim_id v) (rcv_change_id v) (rcv_successor v) (rcv_predecessor v))
    (withdraws_relation (rcv_claim_id v)) (rcv_supports v) (rcv_withdrawals v) (rcv_active v)
    (rcv_diagnostics v).
Proof using Hc Hd.
  destruct projection_fields as (_ & _ & -> & _). rewrite list_elem_of_fmap.
  intros ([claim [[[c x] y] U]] & -> & Hin%elem_of_iter_map). cbn. split; [apply relation_claim_spec; eauto|].
  apply claim_explained_spec; [|apply relation_withdrawals_spec].
  intros s. pose proof (relations_spec facts Hc claim) as Hs. rewrite Hin in Hs. destruct Hs as [_ ->].
  assert (∀ f, relation_key f = Some (claim, (c, x, y)) ↔ f = FRelationAsserted claim c x y) as He.
  { intros f. unfold relation_key. destruct f; split; try done; congruence. }
  by setoid_rewrite He.
Qed.

Lemma membership_listed claim c r :
  FMembershipAsserted claim c r ∈ changes →
  ∃ v, v ∈ cdp_membership_claims d ∧ mcv_claim_id v = claim ∧ mcv_change_id v = c ∧ mcv_revision_id v = r.
Proof using Hc Hd.
  intros [U HU]%membership_claim_spec; [|done]. destruct projection_fields as (_ & -> & _).
  eexists. split; [apply list_elem_of_fmap_2, elem_of_iter_map, HU|done].
Qed.

Lemma relation_listed claim c x y :
  FRelationAsserted claim c x y ∈ changes →
  ∃ v, v ∈ cdp_relation_claims d ∧ rcv_claim_id v = claim ∧ rcv_change_id v = c ∧
    rcv_successor v = x ∧ rcv_predecessor v = y.
Proof using Hc Hd.
  intros [U HU]%relation_claim_spec; [|done]. destruct projection_fields as (_ & _ & -> & _).
  eexists. split; [apply list_elem_of_fmap_2, elem_of_iter_map, HU|done].
Qed.

Lemma membership_active v :
  v ∈ cdp_membership_claims d →
  mcv_active v = true ↔ FMembershipWithdrawn (mcv_claim_id v) ∉ changes.
Proof using Hc Hd.
  intros [_ Hv]%membership_view. rewrite (ce_active _ _ _ _ _ _ _ Hv), elem_of_changes. split.
  - intros Hno (f & Hf & E). by apply (Hno f Hf).
  - intros Hno f Hf E. apply Hno. eauto.
Qed.

Lemma relation_active v :
  v ∈ cdp_relation_claims d →
  rcv_active v = true ↔ FRelationWithdrawn (rcv_claim_id v) ∉ changes.
Proof using Hc Hd.
  intros [_ Hv]%relation_view. rewrite (ce_active _ _ _ _ _ _ _ Hv), elem_of_changes. split.
  - intros Hno (f & Hf & E). by apply (Hno f Hf).
  - intros Hno f Hf E. apply Hno. eauto.
Qed.
End read_projection.

(** C26. For facts that agree wherever they share an id, the document projection lists
    every claim with all its carriers: its membership
    and its replacement claims are the asserted ones, one row each in the order of their
    ids; a row's supports and withdrawals are exactly the events that carry the assertion
    and the withdrawal, in order; it is active when no withdrawal names it; and it is
    marked as duplicated or as withdrawn across actors exactly when two events assert it
    or some withdrawing actor never did. A revision has exact references when its id and
    every artifact hash recorded for it are well formed, and then one per hash. *)
Theorem documents_exact `{DigestLaws} facts d (Hc : consistent (dpf_change <$> facts))
    (Hd : project_change_documents_from_facts facts = Ok d) :
  (StronglySorted (cmp_lt String.compare) (mcv_claim_id <$> cdp_membership_claims d) ∧
   (∀ claim c r, FMembershipAsserted claim c r ∈ dpf_change <$> facts ↔
     ∃ v, v ∈ cdp_membership_claims d ∧ mcv_claim_id v = claim ∧ mcv_change_id v = c ∧
       mcv_revision_id v = r) ∧
   ∀ v, v ∈ cdp_membership_claims d → claim_explained facts
     (λ f, f = FMembershipAsserted (mcv_claim_id v) (mcv_change_id v) (mcv_revision_id v))
     (withdraws_membership (mcv_claim_id v)) (mcv_supports v) (mcv_withdrawals v) (mcv_active v)
     (mcv_diagnostics v)) ∧
  (StronglySorted (cmp_lt String.compare) (rcv_claim_id <$> cdp_relation_claims d) ∧
   (∀ claim c s p, FRelationAsserted claim c s p ∈ dpf_change <$> facts ↔
     ∃ v, v ∈ cdp_relation_claims d ∧ rcv_claim_id v = claim ∧ rcv_change_id v = c ∧
       rcv_successor v = s ∧ rcv_predecessor v = p) ∧
   ∀ v, v ∈ cdp_relation_claims d → claim_explained facts
     (λ f, f = FRelationAsserted (rcv_claim_id v) (rcv_change_id v) (rcv_successor v) (rcv_predecessor v))
     (withdraws_relation (rcv_claim_id v)) (rcv_supports v) (rcv_withdrawals v) (rcv_active v)
     (rcv_diagnostics v)) ∧
  ∀ r refs, cdp_revision_refs d !! r = Some refs ↔
    captured (dpf_change <$> facts) r ∧ starts_with "rev:" r = true ∧
    ∃ hashes : gset string, (∀ h, h ∈ hashes ↔ FRevision r h ∈ dpf_change <$> facts) ∧
      (∀ h, h ∈ hashes → is_prefixed_sha256 h = true) ∧
      refs = (λ h, {| rr_revision_id := r; rr_object_artifact_content_hash := h |}) <$> iter_set hashes.
Proof.
  destruct (projection_fields facts d Hd) as (_ & Hm & Hr & Hrefs & _). split_and!.
  - rewrite Hm. apply rows_sorted. by intros [? [[? ?] ?]].
  - intros claim c r. split; [by apply membership_listed|].
    intros (v & Hv & <- & <- & <-). by apply (membership_view facts d Hc Hd v Hv).
  - intros v Hv. by apply (membership_view facts d Hc Hd v Hv).
  - rewrite Hr. apply rows_sorted. by intros [? [[[? ?] ?] ?]].
  - intros claim c s p. split; [by apply relation_listed|].
    intros (v & Hv & <- & <- & <- & <-). by apply (relation_view facts d Hc Hd v Hv).
  - intros v Hv. by apply (relation_view facts d Hc Hd v Hv).
  - intros r refs. rewrite Hrefs. destruct (refs_lookup (cpi_revisions (provenance_input facts)) r) as [-> _].
    destruct (revisions_spec facts r) as [Hh Hi]. rewrite <- Hi. split.
    + intros (hs & Hl & He). rewrite Hl in Hh |- *. apply ref_entry_exact in He as (? & ? & ->).
      split_and!; [by eexists|done|]. exists hs. done.
    + intros ([hs Hl] & Hp & hashes & Hin & Hv & ->). exists hs. split; [done|]. rewrite Hl in Hh. cbn in Hh.
      assert (hs = hashes) as -> by (apply set_eq; intros h; by rewrite Hh, Hin).
      by apply ref_entry_exact.
Qed.

(** The document facts of a log carry its projection facts. *)
Lemma document_facts_changes `{Digest} `{Decoders} events docs facts :
  try_fold (λ facts event,
    let? fact := document_fact event in
    Ok (match fact with Some fact => facts ++ [fact] | None => facts end)) [] events = Ok docs →
  extract_facts events = Ok facts → dpf_change <$> docs = facts.
Proof.
  intros [_ ->]%(try_fold_collect document_fact) [_ ->]%extract_facts_spec. cbn [app].
  induction events as [|e events IH]; [done|]. cbn [omap list_omap].
  unfold yield at 1, document_fact, event_fact. destruct (extract_change_projection_fact e) as [[f|]|]; cbn.
  - f_equal. exact IH.
  - exact IH.
  - exact IH.
Qed.

(** C27. The documents explain the views: in the projection of the same log, with distinct
    event ids, one revision per operative request and no collisions among the claim
    documents, a revision
    is a member of a Change exactly when some active membership claim of the documents
    puts it there and the documents know the revision, with exact references or as
    unavailable; and a replacement edge of the Change is exactly an active replacement
    claim of the documents between members whose recorded artifacts are the referenced
    ones. *)
Theorem documents_agree_with_views `{DigestLaws} `{Decoders} events facts P d c v
    (Hids : NoDup (ev_event_id <$> events)) (Hreq : requests_agree events)
    (Hfree : collision_free events) (Hfacts : extract_facts events = Ok facts)
    (HP : project_changes events = Ok P) (Hd : project_change_documents events = Ok d)
    (Hv : cp_changes P !! c = Some v) :
  (∀ r, r ∈ cv_members v ↔
    (∃ m, m ∈ cdp_membership_claims d ∧ mcv_active m = true ∧ mcv_change_id m = c ∧
      mcv_revision_id m = r) ∧
    (is_Some (cdp_revision_refs d !! r) ∨ is_Some (cdp_unavailable_revision_refs d !! r))) ∧
  (∀ s p, (s, p) ∈ cv_supersedes v ↔
    ∃ k, k ∈ cdp_relation_claims d ∧ rcv_active k = true ∧ rcv_change_id k = c ∧
      rr_revision_id (rcv_successor k) = s ∧ rr_revision_id (rcv_predecessor k) = p ∧
      exact_ref facts (rcv_successor k) ∧ exact_ref facts (rcv_predecessor k) ∧
      s ∈ cv_members v ∧ p ∈ cv_members v).
Proof.
  pose proof (extracted_consistent events facts Hids Hreq Hfree Hfacts) as Hc.
  unfold project_changes in HP. rewrite Hfacts in HP. cbn [rbind] in HP.
  unfold project_change_documents in Hd. apply bind_Ok in Hd as (docs & Hdocs & Hd).
  pose proof (document_facts_changes events docs facts Hdocs Hfacts) as <-.
  pose proof Hv as [_ Hp]%(project_lookup _ Hc P HP). pose proof (view_matches_spec _ Hc c v Hp) as Hm.
  destruct (projection_fields docs d Hd) as (_ & _ & _ & Hrefs & Hun). split.
  - intros r. rewrite (vm_members _ _ _ Hm). unfold member, claims_member.
    assert (captured (dpf_change <$> docs) r ↔
      is_Some (cdp_revision_refs d !! r) ∨ is_Some (cdp_unavailable_revision_refs d !! r)) as <-.
    { rewrite Hrefs, Hun. destruct (refs_lookup (cpi_revisions (provenance_input docs)) r) as [H1' H2'].
      destruct (revisions_spec docs r) as [_ <-]. unfold is_Some. setoid_rewrite H1'. setoid_rewrite H2'. split.
      - intros [hs Hs]. destruct (ref_entry r hs) as [x|x] eqn:E; [left|right]; eauto.
      - intros [(x & hs & ? & _)|(x & hs & ? & _)]; eauto. }
    apply and_iff_compat_r. split.
    + intros (claim & Ha & Hw). destruct (membership_listed docs d Hc Hd claim c r Ha) as (m & Hin & <- & <- & <-).
      exists m. split_and!; [done| |done..]. by apply (membership_active docs d Hc Hd m Hin).
    + intros (m & Hin & Ha & <- & <-). exists (mcv_claim_id m).
      split; [by apply (membership_view docs d Hc Hd m Hin)|by apply (membership_active docs d Hc Hd m Hin)].
  - intros s p. rewrite (vm_supersedes _ _ _ Hm). setoid_rewrite (vm_members _ _ _ Hm). unfold effective, claims_relation. split.
    + intros (x & y & (claim & Ha & Hw) & <- & <- & Hx & Hy & Hs & Hp').
      destruct (relation_listed docs d Hc Hd claim c x y Ha) as (k & Hin & <- & <- & <- & <-).
      exists k. split_and!; try done. by apply (relation_active docs d Hc Hd k Hin).
    + intros (k & Hin & Ha & <- & <- & <- & Hx & Hy & Hs & Hp').
      exists (rcv_successor k), (rcv_predecessor k). split_and!; try done. exists (rcv_claim_id k).
      split; [by apply (relation_view docs d Hc Hd k Hin)|by apply (relation_active docs d Hc Hd k Hin)].
Qed.

(** *** Witnesses: the log of one Change with one member *)

Definition example_documents : ChangeDocumentProjectionV1 :=
  ok_value {| cdp_revision_refs := ∅; cdp_unavailable_revision_refs := ∅; cdp_membership_claims := [];
    cdp_relation_claims := []; cdp_diagnostics := []; cdp_projection_stamp := "" |}
    (@project_change_documents example_digest example_decoders example_events).

Definition example_document_facts : list ChangeDocumentProjectionFact :=
  omap (yield (@document_fact example_digest example_decoders)) example_events.

Definition example_facts : list ChangeProjectionFact :=
  ok_value [] (@extract_facts example_digest example_decoders example_events).

Lemma example_documents_ok :
  @project_change_documents example_digest example_decoders example_events = Ok example_documents.
Proof. apply is_ok_value. vm_compute. reflexivity. Qed.

Lemma example_facts_ok : @extract_facts example_digest example_decoders example_events = Ok example_facts.
Proof. apply is_ok_value. vm_compute. reflexivity. Qed.

Lemma example_events_distinct : NoDup (ev_event_id <$> example_events).
Proof. apply (bool_decide_unpack _). vm_compute. exact I. Qed.

Definition example_claim : ChangeMembershipClaimViewV1 :=
  default {| mcv_claim_id := ""; mcv_change_id := ""; mcv_revision_id := ""; mcv_supports := [];
    mcv_withdrawals := []; mcv_active := false; mcv_diagnostics := [] |}
    (head (cdp_membership_claims example_documents)).

Lemma example_claim_listed :
  cdp_membership_claims example_documents = [example_claim] ∧
  mcv_change_id example_claim = example_change ∧ mcv_revision_id example_claim = "rev:a" ∧
  mcv_active example_claim = true.
Proof. split_and!; vm_compute; reflexivity. Qed.

Lemma example_document_facts_ok :
  @project_change_documents_from_facts example_digest example_document_facts = Ok example_documents ∧
  dpf_change <$> example_document_facts = example_facts.
Proof. split; vm_compute; reflexivity. Qed.

Lemma documents_exact_witness :
  carriers example_document_facts (λ f, f = FMembershipAsserted (mcv_claim_id example_claim)
    (mcv_change_id example_claim) (mcv_revision_id example_claim)) (mcv_supports example_claim).
Proof.
  refine (ce_supports _ _ _ _ _ _ _ (proj2 (proj2 (proj1 (@documents_exact example_digest
    example_digest_laws example_document_facts example_documents _ (proj1 example_document_facts_ok)))) example_claim _)).
  - rewrite (proj2 example_document_facts_ok).
    exact (@extracted_consistent example_digest example_digest_laws example_decoders example_events
      example_facts example_events_distinct example_requests_agree example_collision_free example_facts_ok).
  - rewrite (proj1 example_claim_listed). exact (list_elem_of_here _ _).
Defined.

Lemma example_view_shown :
  ∃ v, cp_changes example_events_projection !! example_change = Some v.
Proof.
  pose proof (proj2 example_events_project) as Hv. revert Hv.
  generalize (cp_changes example_events_projection !! example_change). intros [v|]; [eauto|done].
Qed.

Lemma example_revision_known : is_Some (cdp_unavailable_revision_refs example_documents !! "rev:a").
Proof. apply (bool_decide_unpack _). vm_compute. exact I. Qed.

Lemma documents_agree_with_views_witness :
  ∃ v, cp_changes example_events_projection !! example_change = Some v ∧ "rev:a" ∈ cv_members v.
Proof.
  destruct example_view_shown as [v Ev]. exists v. split; [exact Ev|].
  apply (proj2 (proj1 (@documents_agree_with_views example_digest example_digest_laws example_decoders
    example_events example_facts example_events_projection example_documents example_change v
    example_events_distinct example_requests_agree example_collision_free example_facts_ok
    (proj1 example_events_project) example_documents_ok Ev) "rev:a")).
  split; [|right; exact example_revision_known]. exists example_claim.
  destruct example_claim_listed as (Hl & Hc & Hr & Ha). rewrite Hl.
  split; [exact (list_elem_of_here _ _)|]. split; [exact Ha|]. split; [exact Hc|exact Hr].
Defined.
