(* ===== verification/Replacement.v ===== *)
(** * Replacement as readers see it ([src/src/session/projection/supersession.rs],
    [src/src/session/workflow/attention/effective.rs])

    The supersession view of an event log, and the two views attention reads once a
    store holds Change claims: replacement recorded as an effective Change relation,
    and the competition graph.  The closure [change_connected_revisions] is the set of
    revisions a scoped fold needs. *)

From S2P Require Import Prelude RustStr BTree Model Acknowledgement UnionFind Tarjan Supersession.
From S2P Require Import CanonicalHash Crypto Events ChangeClaims Relations Payloads ChangeGraph.
From S2P Require Import ChangeProjection ChangeViews.

(** ** The view of an event log *)

Section from_events.
Context `{Decoders}.

(** The edge a proposal of a revision declares; a task attempt declares none. *)
Definition proposal_edge (event : ShoreEvent) : result (option (RevisionId * list RevisionId)) :=
  let? payload := from_work_object_proposed (ev_payload event) in
  match wo_work_object payload with
  | ProposeRevision revision _ _ supersedes => Ok (Some (rv_id revision, supersedes))
  | ProposeTaskAttempt _ _ _ _ _ _ _ => Ok None
  end.

Definition proposal_edges (events : list ShoreEvent)
    : result (list (RevisionId * list RevisionId)) :=
  try_fold (λ edges event,
    let? edge := proposal_edge event in
    Ok (match edge with Some edge => edges ++ [edge] | None => edges end)) []
    (filter (λ event, ev_event_type event = WorkObjectProposed) events).

Definition SupersessionView_from_events (events : list ShoreEvent) : result SupersessionView :=
  let? edges := proposal_edges events in
  Ok (from_edges edges).
End from_events.

(** ** Change-aware supersession *)

Record AttentionSupersession := {
  as_replacement : SupersessionView;
  as_competition : SupersessionView
}.

Definition is_usable (view : ChangeView) : bool :=
  match cv_topology view with TIncomplete | TCycleConflicted => false | _ => true end.

(** [legacy.components.iter().flatten()]. *)
Definition known_revisions (legacy : SupersessionView) : gset RevisionId :=
  ⋃ sv_components legacy.

(** The views that hold each revision as a member. *)
Definition holding_views (changes : ChangeProjection) : gmap RevisionId (list ChangeView) :=
  foldl (λ m view,
    foldl (λ m member, <[member := default [] (m !! member) ++ [view]]> m) m
      (iter_set (cv_members view))) ∅ (map_values (cp_changes changes)).

Definition current_somewhere (holding : gmap RevisionId (list ChangeView))
    (revision : RevisionId) : bool :=
  match holding !! revision with
  | Some views => existsb (λ view,
      negb (is_usable view) || bool_decide (revision ∈ cv_current_revisions view)) views
  | None => false
  end.

Definition admitted (known : gset RevisionId) (holding : gmap RevisionId (list ChangeView))
    (view : ChangeView) (edge : RevisionId * RevisionId) : bool :=
  bool_decide (edge.1 ∈ cv_members view) && bool_decide (edge.2 ∈ cv_members view) &&
  bool_decide (edge.1 ∈ known) && bool_decide (edge.2 ∈ known) &&
  negb (current_somewhere holding edge.2).

Definition usable_views (changes : ChangeProjection) : list ChangeView :=
  filter (λ view, is_usable view = true) (map_values (cp_changes changes)).

(** One root entry per known revision, then the admitted relations. *)
Definition replacement_edges (known : gset RevisionId) (changes : ChangeProjection)
    : gmap RevisionId (gset RevisionId) :=
  let holding := holding_views changes in
  foldl (λ m view,
    foldl (λ m edge, if admitted known holding view edge
                     then entry_extend m edge.1 {[edge.2]} else m) m
      (iter_set (cv_supersedes view)))
    (map_of_list ((λ r, (r, ∅)) <$> iter_set known)) (usable_views changes).

(** Cycles of the union are not reported ([cycle_revisions.clear()] and [retain]). *)
Definition without_cycles (view : SupersessionView) : SupersessionView :=
  {| sv_heads := sv_heads view; sv_superseded := sv_superseded view;
     sv_supersedes := sv_supersedes view; sv_superseded_by := sv_superseded_by view;
     sv_components := sv_components view; sv_cycle_revisions := ∅;
     sv_diagnostics := filter (λ d, pd_code d ≠ SUPERSESSION_CYCLE_CODE) (sv_diagnostics view) |}.

Definition entry_list (m : gmap RevisionId (gset RevisionId))
    : list (RevisionId * list RevisionId) :=
  (λ p, (p.1, iter_set p.2)) <$> iter_map m.

Definition change_aware_supersession (legacy : SupersessionView) (changes : ChangeProjection)
    : AttentionSupersession :=
  if bool_decide (cp_changes changes = ∅) then
    {| as_replacement := legacy; as_competition := legacy |}
  else
    let known := known_revisions legacy in
    {| as_replacement :=
         without_cycles (from_edges (entry_list (replacement_edges known changes)));
       as_competition := from_edges ((λ r, (r, [])) <$> iter_set known) |}.

Definition change_aware (legacy : SupersessionView) (changes : ChangeProjection)
    : SupersessionView :=
  as_replacement (change_aware_supersession legacy changes).

Section readers.
Context `{Digest} `{Decoders}.

Definition replacement_from_events (events : list ShoreEvent) : result SupersessionView :=
  let? legacy := SupersessionView_from_events events in
  let? changes := project_changes events in
  Ok (change_aware legacy changes).

Definition revision_replacement_classification (events : list ShoreEvent)
    : result (gmap RevisionId RevisionClassificationFacet) :=
  let? legacy := SupersessionView_from_events events in
  let? changes := project_changes events in
  let views := change_aware_supersession legacy changes in
  let contested := revision_supersession_classification (as_competition views) in
  let classification := revision_supersession_classification (as_replacement views) in
  Ok (map_imap (λ revision facet, Some
    {| facet_state := facet_state facet;
       facet_competing := match contested !! revision with
                          | Some facet => facet_competing facet
                          | None => false
                          end |}) classification).
End readers.

(** ** The closure of a scope *)

Definition neighbor_map (changes : ChangeProjection) : gmap RevisionId (gset RevisionId) :=
  foldl (λ m view,
    foldl (λ m edge, entry_extend (entry_extend m edge.1 {[edge.2]}) edge.2 {[edge.1]}) m
      (iter_set (cv_supersedes view))) ∅ (usable_views changes).

(** The inner loop: new neighbours are recorded and pushed ([frontier] top first). *)
Definition push_neighbors (s : gset RevisionId * list RevisionId) (neighbors : list RevisionId)
    : gset RevisionId * list RevisionId :=
  foldl (λ s n, if bool_decide (n ∈ s.1) then s else (s.1 ∪ {[n]}, n :: s.2)) s neighbors.

Fixpoint connect_loop (fuel : nat) (neighbors : gmap RevisionId (gset RevisionId))
    (connected : gset RevisionId) (frontier : list RevisionId) : gset RevisionId :=
  match fuel, frontier with
  | S fuel, revision :: frontier =>
      let '(connected, frontier) := push_neighbors (connected, frontier)
        (iter_set (default ∅ (neighbors !! revision))) in
      connect_loop fuel neighbors connected frontier
  | _, _ => connected
  end.

(** A revision is popped at most once: the seed, and each revision of the map. *)
Definition change_connected_revisions (seed : gset RevisionId) (changes : ChangeProjection)
    : gset RevisionId :=
  let neighbors := neighbor_map changes in
  connect_loop (size seed + size (dom neighbors)) neighbors seed (rev (iter_set seed)).
