(* ===== verification/ReplacementProofs.v ===== *)
(** * The replacement view is exact and never headless *)

From S2P Require Import Prelude RustStr BTree Model Acknowledgement UnionFind Tarjan Supersession.
From S2P Require Import CanonicalHash Crypto Events ChangeClaims Relations Payloads ChangeGraph.
From S2P Require Import ChangeProjection ChangeViews ChangeEvents Replacement.

(** ** Reading a projection *)

Section holding.
Context (P : ChangeProjection).

(** A Change of the projection, by its view. *)
Definition shown (v : ChangeView) : Prop := ∃ c, cp_changes P !! c = Some v.

(** The revision is, or may be, current in some Change that holds it. *)
Definition live (r : RevisionId) : Prop :=
  ∃ v, shown v ∧ r ∈ cv_members v ∧ (is_usable v = false ∨ r ∈ cv_current_revisions v).

(** A replacement relation that some usable Change records. *)
Definition relates (s p : RevisionId) : Prop :=
  ∃ v, shown v ∧ is_usable v = true ∧ (s, p) ∈ cv_supersedes v.

(** A replacement in force over the revisions of [known]. *)
Definition in_force (known : gset RevisionId) (s p : RevisionId) : Prop :=
  ∃ v, shown v ∧ is_usable v = true ∧ (s, p) ∈ cv_supersedes v ∧
    s ∈ cv_members v ∧ p ∈ cv_members v ∧ s ∈ known ∧ p ∈ known ∧ ¬ live p.

Lemma elem_of_shown v : v ∈ map_values (cp_changes P) ↔ shown v.
Proof.
  unfold map_values, shown. rewrite list_elem_of_fmap. split.
  - intros ([c w] & -> & Hc%elem_of_iter_map). by exists c.
  - intros [c Hc]. exists (c, v). by rewrite elem_of_iter_map.
Qed.

Lemma elem_of_usable v : v ∈ usable_views P ↔ shown v ∧ is_usable v = true.
Proof. unfold usable_views. rewrite list_elem_of_filter, elem_of_shown. tauto. Qed.

Lemma hold_members (view : ChangeView) ms (m : gmap RevisionId (list ChangeView)) r v :
  v ∈ default [] (foldl (λ m member, <[member := default [] (m !! member) ++ [view]]> m) m ms !! r)
  ↔ v ∈ default [] (m !! r) ∨ v = view ∧ r ∈ ms.
Proof.
  revert m. induction ms as [|x ms IH]; intros m; cbn [foldl].
  { rewrite elem_of_nil. tauto. }
  rewrite IH, elem_of_cons. destruct (decide (x = r)) as [->|Hne].
  - rewrite lookup_insert_eq. cbn [from_option id]. rewrite elem_of_app, list_elem_of_singleton. tauto.
  - rewrite lookup_insert_ne by done. naive_solver.
Qed.

Lemma holding_spec r v :
  v ∈ default [] (holding_views P !! r) ↔ shown v ∧ r ∈ cv_members v.
Proof.
  rewrite <- elem_of_shown. unfold holding_views.
  assert (∀ l (m : gmap RevisionId (list ChangeView)),
    v ∈ default [] (foldl (λ m view,
      foldl (λ m member, <[member := default [] (m !! member) ++ [view]]> m) m
        (iter_set (cv_members view))) m l !! r) ↔
    v ∈ default [] (m !! r) ∨ v ∈ l ∧ r ∈ cv_members v) as Hl.
  { induction l as [|w l IH]; intros m; cbn [foldl].
    - rewrite elem_of_nil. tauto.
    - rewrite IH, hold_members, elem_of_iter_set, elem_of_cons. naive_solver. }
  rewrite Hl, lookup_empty. cbn. rewrite elem_of_nil. tauto.
Qed.

Lemma current_somewhere_spec r : current_somewhere (holding_views P) r = true ↔ live r.
Proof.
  unfold current_somewhere, live. pose proof (holding_spec r) as Hh.
  destruct (holding_views P !! r) as [views|]; cbn in Hh.
  - rewrite existsb_exists. setoid_rewrite <- list_elem_of_In. setoid_rewrite Hh.
    setoid_rewrite orb_true_iff. setoid_rewrite negb_true_iff. setoid_rewrite bool_decide_eq_true.
    naive_solver.
  - split; [done|]. intros (v & Hs & Hr & _).
    assert (v ∈ []) as []%elem_of_nil by by apply Hh.
Qed.

Lemma admitted_spec known v s p :
  admitted known (holding_views P) v (s, p) = true ↔
  s ∈ cv_members v ∧ p ∈ cv_members v ∧ s ∈ known ∧ p ∈ known ∧ ¬ live p.
Proof.
  unfold admitted. cbn [fst snd]. rewrite !andb_true_iff, !bool_decide_eq_true, negb_true_iff.
  rewrite <- (current_somewhere_spec p), not_true_iff_false. tauto.
Qed.
End holding.

(** ** The replacement graph *)

Lemma entry_list_spec (m : gmap RevisionId (gset RevisionId)) r :
  (knows (entry_list m) r ↔ is_Some (m !! r)) ∧
  (∀ t, declares (entry_list m) r t ↔ t ∈ default ∅ (m !! r)).
Proof.
  assert (∀ ts, (r, ts) ∈ entry_list m ↔ ∃ X, m !! r = Some X ∧ ts = iter_set X) as He.
  { intros ts. unfold entry_list. rewrite list_elem_of_fmap. split.
    - intros ([r' X] & [= -> ->] & HX%elem_of_iter_map). eauto.
    - intros (X & HX & ->). exists (r, X). split; [done|]. by apply elem_of_iter_map. }
  unfold knows, declares. setoid_rewrite He. split.
  - split; [intros (? & X & HX & _); by exists X|intros [X HX]; eauto].
  - intros t. split.
    + intros (ts & (X & -> & ->) & Ht). by apply elem_of_iter_set in Ht.
    + destruct (m !! r) as [X|] eqn:E; cbn; [|set_solver]. intros Ht.
      exists (iter_set X). split; [eauto|by apply elem_of_iter_set].
Qed.

Lemma roots_lookup (l : list RevisionId) r :
  map_of_list ((λ r, (r, (∅ : gset RevisionId))) <$> l) !! r =
  if decide (r ∈ l) then Some ∅ else None.
Proof.
  induction l as [|x l IH] using rev_ind; [by rewrite decide_False by apply not_elem_of_nil|].
  rewrite fmap_app, map_of_list_app. cbn. destruct (decide (r = x)) as [->|Hne].
  - rewrite lookup_insert_eq, decide_True by set_solver. done.
  - rewrite lookup_insert_ne, lookup_empty, IH by done.
    destruct (decide (r ∈ l)); [rewrite decide_True by set_solver|rewrite decide_False by set_solver]; done.
Qed.

Section edges.
Context (P : ChangeProjection) (known : gset RevisionId).

(** Adding the admitted relations of some views to a graph. *)
Lemma add_relations_spec (f : ChangeView → RevisionId * RevisionId → bool) l
    (m : gmap RevisionId (gset RevisionId)) r :
  let m' := foldl (λ m view, foldl (λ m edge, if f view edge
      then entry_extend m edge.1 {[edge.2]} else m) m (iter_set (cv_supersedes view))) m l in
  (is_Some (m' !! r) ↔ is_Some (m !! r) ∨
    ∃ v t, v ∈ l ∧ (r, t) ∈ cv_supersedes v ∧ f v (r, t) = true) ∧
  (∀ t, t ∈ default ∅ (m' !! r) ↔ t ∈ default ∅ (m !! r) ∨
    ∃ v, v ∈ l ∧ (r, t) ∈ cv_supersedes v ∧ f v (r, t) = true).
Proof.
  cbn zeta. assert (∀ v es (m : gmap RevisionId (gset RevisionId)),
    let m' := foldl (λ m edge, if f v edge then entry_extend m edge.1 {[edge.2]} else m) m es in
    (is_Some (m' !! r) ↔ is_Some (m !! r) ∨ ∃ t, (r, t) ∈ es ∧ f v (r, t) = true) ∧
    (∀ t, t ∈ default ∅ (m' !! r) ↔ t ∈ default ∅ (m !! r) ∨ (r, t) ∈ es ∧ f v (r, t) = true))
    as Hes.
  { intros v. induction es as [|[a b] es IH]; intros m0; cbn [foldl]; cbn zeta.
    { setoid_rewrite elem_of_nil. split; [|intros t; tauto]. split; [by left|naive_solver]. }
    specialize (IH (if f v (a, b) then entry_extend m0 a {[b]} else m0)). cbn zeta in IH.
    cbn [fst snd]. destruct IH as [-> IH2]. setoid_rewrite IH2. setoid_rewrite elem_of_cons.
    destruct (f v (a, b)) eqn:E.
    2:{ split; [|intros t]; split.
        - intros [?|(t & ? & ?)]; eauto.
        - intros [?|(t & [[= -> ->]|?] & ?)]; [by left|congruence|eauto].
        - intros [?|[? ?]]; eauto.
        - intros [?|[[[= -> ->]|?] ?]]; [by left|congruence|eauto]. }
    rewrite lookup_entry_extend. case_decide as Ea; [subst|].
    - split; [split; [|intros _; left; by eexists]|].
      + intros _. right. exists b. by split; [left|].
      + intros t. cbn [from_option id]. rewrite elem_of_union, elem_of_singleton. split.
        * intros [[?| ->]|[? ?]]; eauto.
        * intros [?|[[[= ->]|?] ?]]; eauto.
    - split; [|intros t]; split.
      + intros [?|(t & ? & ?)]; eauto.
      + intros [?|(t & [[= ? ?]|?] & ?)]; [by left|done|eauto].
      + intros [?|[? ?]]; eauto.
      + intros [?|[[[= ? ?]|?] ?]]; [by left|done|eauto]. }
  revert m. induction l as [|v l IH]; intros m; cbn [foldl].
  { setoid_rewrite elem_of_nil. split; [|intros t]; split; try (by left); naive_solver. }
  destruct (IH (foldl (λ m edge, if f v edge then entry_extend m edge.1 {[edge.2]} else m) m
    (iter_set (cv_supersedes v)))) as [I1 I2].
  destruct (Hes v (iter_set (cv_supersedes v)) m) as [E1 E2]. split.
  - rewrite I1, E1. setoid_rewrite elem_of_iter_set. setoid_rewrite elem_of_cons. split.
    + intros [[?|(t & ? & ?)]|(w & t & ? & ? & ?)]; [by left|right; exists v, t|right; exists w, t]; auto.
    + intros [?|(w & t & [->|?] & ? & ?)]; [by left; left|left; right; exists t|right; exists w, t]; auto.
  - intros t. rewrite I2, E2, elem_of_iter_set. setoid_rewrite elem_of_cons. split.
    + intros [[?|[? ?]]|(w & ? & ? & ?)]; [by left|right; exists v|right; exists w]; auto.
    + intros [?|(w & [->|?] & ? & ?)]; [by left; left|by left; right|right; exists w]; auto.
Qed.

Lemma replacement_edges_spec r :
  (is_Some (replacement_edges known P !! r) ↔ r ∈ known) ∧
  (∀ t, t ∈ default ∅ (replacement_edges known P !! r) ↔ in_force P known r t).
Proof.
  unfold replacement_edges. cbn zeta.
  destruct (add_relations_spec (admitted known (holding_views P)) (usable_views P)
    (map_of_list ((λ r, (r, ∅)) <$> iter_set known)) r) as [H1 H2].
  rewrite roots_lookup in H1, H2. setoid_rewrite elem_of_usable in H1.
  setoid_rewrite elem_of_usable in H2. setoid_rewrite admitted_spec in H1.
  setoid_rewrite admitted_spec in H2.
  assert ((if decide (r ∈ iter_set known) then Some ∅ else None : option (gset RevisionId)) =
    if decide (r ∈ known) then Some ∅ else None) as Hd.
  { destruct (decide (r ∈ iter_set known)) as [H|H]; rewrite elem_of_iter_set in H;
      [by rewrite decide_True|by rewrite decide_False]. }
  rewrite Hd in H1, H2. split.
  - rewrite H1. destruct (decide (r ∈ known)) as [Hr|Hr]; [split; [done|by left]|].
    split; [|done]. intros [[? ?]|(v & t & ? & ? & ?)]; [done|tauto].
  - intros t. rewrite H2. unfold in_force.
    destruct (decide (r ∈ known)); cbn [from_option id]; set_solver.
Qed.

Lemma replacement_knows r : knows (entry_list (replacement_edges known P)) r ↔ r ∈ known.
Proof.
  rewrite (proj1 (entry_list_spec _ r)). apply replacement_edges_spec.
Qed.

Lemma replacement_declares r t :
  declares (entry_list (replacement_edges known P)) r t ↔ in_force P known r t.
Proof.
  rewrite (proj2 (entry_list_spec _ r) t). apply replacement_edges_spec.
Qed.
End edges.

Lemma known_revisions_spec edges r : r ∈ known_revisions (from_edges edges) ↔ knows edges r.
Proof.
  destruct (threads_spec edges) as (H1 & H2 & _). unfold known_revisions.
  rewrite elem_of_union_list. split.
  - intros (C & HC & Hr). by apply (H1 C HC).
  - intros Hk. destruct (H2 r Hk) as (C & HC & Hr). exists C. split; [|done].
    apply find_some in HC as [HC _]. by apply list_elem_of_In.
Qed.

(** ** No thread without a head *)

(** What the head argument needs of a view: its edges join members, its current
    revisions are the members no edge replaces, and a usable view has no cycle. *)
Record sound_view (v : ChangeView) : Prop := {
  sound_scoped s p : (s, p) ∈ cv_supersedes v → s ∈ cv_members v ∧ p ∈ cv_members v;
  sound_current : cv_current_revisions v = current_revisions (cv_members v) (cv_supersedes v);
  sound_acyclic : is_usable v = true →
    revision_graph_has_cycle (cv_members v) (cv_supersedes v) = false
}.

Lemma replacement_headed P known r
    (Hsound : ∀ v, shown P v → sound_view v ∧ cv_members v ⊆ known)
    (Hr : r ∈ known) :
  heads_for (from_edges (entry_list (replacement_edges known P))) r ≠ ∅.
Proof.
  set (edges := entry_list (replacement_edges known P)). intros Hh.
  destruct (threads_spec edges) as (H1 & H2 & _ & _ & H4).
  destruct (H2 r (proj2 (replacement_knows P known r) Hr)) as (C & HC & HrC).
  unfold heads_for in Hh. rewrite HC in Hh. apply find_some in HC as [HC _].
  rewrite <- list_elem_of_In in HC.
  (* Every revision of the thread is superseded. *)
  assert (∀ x, x ∈ C → ∃ s, in_force P known s x) as Hsup.
  { intros x Hx. assert (x ∉ sv_heads (from_edges edges)) as Hnh by set_solver.
    destruct (decide (x ∈ sv_superseded (from_edges edges))) as [Hs|Hs].
    - apply from_edges_superseded in Hs as (_ & s & Hs%replacement_declares). eauto.
    - exfalso. apply Hnh, from_edges_heads. split; [by apply (H1 C HC)|]. intros q Hq.
      apply Hs, from_edges_superseded. split; [by apply (H1 C HC)|eauto]. }
  destruct (Hsup r HrC) as (s & v & Hv & Hu & Hsr & Hsm & Hrm & _).
  destruct (Hsound v Hv) as [[Hscoped Hcur Hacyc] Hknown].
  destruct (no_minimal_cycle (replaces (cv_supersedes v)) (cv_members v ∩ C)) as (x & Hx & Htc).
  { set_solver. }
  - intros x [Hxm HxC]%elem_of_intersection. destruct (Hsup x HxC) as (s' & w & _ & _ & _ & _ & _ & _ & _ & Hnl).
    assert (x ∉ cv_current_revisions v) as Hnc by (intros ?; apply Hnl; exists v; auto).
    destruct (decide (∃ e, e ∈ cv_supersedes v ∧ e.2 = x)) as [([y x'] & Hy & Hx')|Hno]; [cbn in Hx'; subst x'|exfalso].
    + destruct (Hscoped _ _ Hy) as [Hym _]. exists y. split; [|done]. apply elem_of_intersection.
      split; [done|]. apply (H4 C x y HC HxC). split; [by apply replacement_knows, Hknown|].
      apply rtsc_rl. split; [|by apply (H1 C HC)]. apply replacement_declares. exists v. split_and!; auto.
    + apply Hnc. rewrite Hcur. apply elem_of_current_revisions. split; [done|].
      intros y Hy. apply Hno. by exists (y, x).
  - enough (revision_graph_has_cycle (cv_members v) (cv_supersedes v) = true) as Ht
      by (rewrite (Hacyc Hu) in Ht; done).
    apply has_cycle_true. exists x, x. split_and!; [set_solver|done..].
Qed.

Section projected.
Context `{Digest} `{Decoders}.

Lemma topology_usable incomplete cycle divergent supersedes current :
  match change_topology incomplete cycle divergent supersedes current with
  | TIncomplete | TCycleConflicted => false | _ => true end = negb incomplete && negb cycle.
Proof.
  unfold change_topology. destruct incomplete, cycle, divergent; try done.
  destruct (bool_decide _); [by destruct (_ <=? _)|]. destruct (_ =? _); [|done].
  destruct (iter_set current); [done|]. by destruct (_ <? _).
Qed.

Lemma project_change_sound input c v : project_change input c = Ok v →
  sound_view v ∧ cv_members v = change_members input c.
Proof.
  unfold project_change. intros ([[u k] ds] & _ & [= <-])%bind_Ok. split; [|done].
  split; cbn [cv_members cv_supersedes cv_current_revisions is_usable cv_topology].
  - intros s p [?|(e & _ & He)]%relation_loop_spec; [set_solver|].
    unfold classify_relation in He. destruct (negb _ || bool_decide _); [done|].
    destruct (conflicting _ || conflicting _); [done|]. destruct (negb (exactly _ _ && _)); [done|].
    destruct (negb _ || negb _) eqn:E; [done|]. injection He as <- <-.
    apply orb_false_iff in E as [E1%negb_false_iff E2%negb_false_iff].
    by rewrite bool_decide_eq_true in E1, E2.
  - done.
  - unfold is_usable. cbn [cv_topology]. rewrite topology_usable. intros [_ ?%negb_true_iff]%andb_true_iff. done.
Qed.
End projected.

(** ** From events *)

Section events.
Context `{DigestLaws} `{Decoders}.

(** A proposal declares an edge of a revision exactly when it captures the revision. *)
Lemma proposal_captures e r :
  (∃ ts, ev_event_type e = WorkObjectProposed ∧ yield proposal_edge e = Some (r, ts)) ↔
  ∃ h, event_fact e = Some (FRevision r h).
Proof.
  unfold yield, proposal_edge. split.
  - intros (ts & Ht & E). unfold event_fact, extract_change_projection_fact. rewrite Ht.
    destruct (from_work_object_proposed _) as [p|]; [|done]. cbn [rbind] in *.
    destruct (wo_work_object p); [|done]. injection E as <- <-. eauto.
  - intros (h & E). extract_inv E. injection E as <- <-. cbn [rbind].
    match goal with Hw : wo_work_object _ = _ |- _ => rewrite Hw end. eauto.
Qed.

Lemma proposals_capture events edges facts :
  proposal_edges events = Ok edges → extract_facts events = Ok facts →
  ∀ r, knows edges r ↔ captured facts r.
Proof.
  intros [_ ->]%(try_fold_collect proposal_edge) [_ ->]%extract_facts_spec r.
  unfold knows, captured. cbn [app]. setoid_rewrite list_elem_of_omap.
  setoid_rewrite list_elem_of_filter. split.
  - intros (ts & e & [Ht He] & E). destruct (proj1 (proposal_captures e r)) as [h Hh]; eauto.
  - intros (h & e & He & E). destruct (proj2 (proposal_captures e r)) as (ts & ? & ?); eauto 10.
Qed.

Lemma replacement_from_events_inv events view :
  replacement_from_events events = Ok view →
  ∃ edges facts P, proposal_edges events = Ok edges ∧ extract_facts events = Ok facts ∧
    project_changes_from_facts facts = Ok P ∧ view = change_aware (from_edges edges) P.
Proof.
  unfold replacement_from_events, SupersessionView_from_events, project_changes.
  intros (legacy & (edges & He & [= <-])%bind_Ok & (P & (facts & Hf & HP)%bind_Ok & [= <-])%bind_Ok)%bind_Ok.
  eauto 10.
Qed.

Lemma projected_sound facts P v :
  project_changes_from_facts facts = Ok P → shown P v →
  sound_view v ∧ ∀ r, r ∈ cv_members v → captured facts r.
Proof.
  unfold project_changes_from_facts, project_input. intros (m & Hm & [= <-])%bind_Ok [c Hc].
  cbn in Hc. rewrite (try_fold_insert _ _ _ _ Hm c v), lookup_empty in Hc.
  destruct Hc as [[_ Hv]|[_ ?]]; [|done]. apply project_change_sound in Hv as [Hs ->].
  split; [done|]. intros r. unfold change_members, set_of_list.
  rewrite elem_of_list_to_set, list_elem_of_fmap.
  intros (p & -> & Hp%list_elem_of_In%List.filter_In). destruct Hp as [_ Hp].
  apply andb_true_iff in Hp as [_ Hk]. by apply known_revision_captured.
Qed.

Lemma captured_known events edges facts P :
  proposal_edges events = Ok edges → extract_facts events = Ok facts →
  project_changes_from_facts facts = Ok P →
  (∀ r, r ∈ known_revisions (from_edges edges) ↔ captured facts r) ∧
  ∀ v, shown P v → sound_view v ∧ cv_members v ⊆ known_revisions (from_edges edges).
Proof.
  intros He Hf HP. pose proof (proposals_capture _ _ _ He Hf) as Hk.
  assert (∀ r, r ∈ known_revisions (from_edges edges) ↔ captured facts r) as Hkn.
  { intros r. by rewrite known_revisions_spec, Hk. }
  split; [done|]. intros v Hv. destruct (projected_sound _ _ _ HP Hv) as [Hs Hm].
  split; [done|]. intros r Hr. by apply Hkn, Hm.
Qed.

(** ** What the facts say *)

Section facts.
Context (facts : list ChangeProjectionFact).

(** The Change says reliably which of its members are current. *)
Definition settled (c : ChangeId) : Prop :=
  complete facts c ∧ ¬ ∃ x, tc (effective facts c) x x.

(** Every Change that holds the revision has moved on from it. *)
Definition moved_on (r : RevisionId) : Prop :=
  ∀ c, member facts c r → settled c ∧ ¬ is_current facts c r.

(** [s] replaces [r]: a settled Change relates them and no Change keeps [r]. *)
Definition replaced_by (r s : RevisionId) : Prop :=
  moved_on r ∧ ∃ c, settled c ∧ effective facts c s r.

Context (Hc : consistent facts).

Lemma usable_spec c v :
  project_change (fold_input facts) c = Ok v → is_usable v = true ↔ settled c.
Proof.
  intros Hv. pose proof (view_matches_spec facts Hc c v Hv) as Hm.
  pose proof (complete_spec facts Hc c v Hv) as Hcomp.
  pose proof (topology_incomplete facts Hc c v Hv) as Hinc. unfold settled.
  rewrite <- Hcomp, <- Hinc, <- (cycle_spec facts c v Hm).
  destruct (project_change_inv facts Hc c v Hv) as (u & k & ds & _ & Em & _ & _ & _ & _ & Ht & _).
  rewrite Em. unfold is_usable. rewrite Ht, topology_usable. cbn zeta in Ht.
  set (b := revision_graph_has_cycle _ _) in *.
  match goal with |- context [change_topology ?i _ _ _ _] => destruct i end; cbn [negb andb].
  - split; [done|]. by intros [[] _].
  - destruct b; cbn; [naive_solver|]. split; [|done]. intros _. split; [|done].
    unfold change_topology. repeat case_match; done.
Qed.

Lemma shown_spec P v :
  project_changes_from_facts facts = Ok P →
  shown P v ↔ ∃ c, mentioned facts c ∧ project_change (fold_input facts) c = Ok v.
Proof. intros HP. unfold shown. by setoid_rewrite (project_lookup facts Hc P HP). Qed.

Lemma not_live P r :
  project_changes_from_facts facts = Ok P → ¬ live P r ↔ moved_on r.
Proof.
  intros HP. unfold live, moved_on. setoid_rewrite (shown_spec P _ HP). split.
  - intros Hl c Hm. assert (mentioned facts c) as Hme.
    { right. left. destruct Hm as [(claim & ? & _) _]. eauto. }
    destruct (project_lookup_Ok facts Hc P c HP Hme) as [v Hv].
    pose proof (view_matches_spec facts Hc c v Hv) as Hvm.
    assert (r ∈ cv_members v) as Hr by by apply (vm_members _ _ _ Hvm).
    rewrite <- (usable_spec c v Hv), <- (vm_current _ _ _ Hvm). split.
    + destruct (is_usable v) eqn:E; [done|]. exfalso. apply Hl. exists v. eauto 10.
    + intros Hcur. apply Hl. exists v. eauto 10.
  - intros Hm (v & (c & _ & Hv) & Hr & Hlive).
    pose proof (view_matches_spec facts Hc c v Hv) as Hvm.
    apply (vm_members _ _ _ Hvm) in Hr. destruct (Hm c Hr) as [Hs Hn].
    apply (usable_spec c v Hv) in Hs. destruct Hlive as [?|Hcur]; [congruence|].
    by apply Hn, (vm_current _ _ _ Hvm).
Qed.

Lemma in_force_spec P known r s :
  project_changes_from_facts facts = Ok P → (∀ x, x ∈ known ↔ captured facts x) →
  in_force P known s r ↔ replaced_by r s.
Proof.
  intros HP Hk. unfold in_force, replaced_by. setoid_rewrite (not_live P r HP).
  setoid_rewrite (shown_spec P _ HP). split.
  - intros (v & (c & _ & Hv) & Hu & Hsr & _ & _ & _ & _ & Hm). split; [done|]. exists c.
    split; [by apply (usable_spec c v Hv)|].
    by apply (vm_supersedes _ _ _ (view_matches_spec facts Hc c v Hv)).
  - intros (Hm & c & Hs & He). destruct (effective_members facts c s r He) as [Hms Hmr].
    assert (mentioned facts c) as Hme.
    { right. left. destruct Hms as [(claim & ? & _) _]. eauto. }
    destruct (project_lookup_Ok facts Hc P c HP Hme) as [v Hv].
    pose proof (view_matches_spec facts Hc c v Hv) as Hvm. exists v. split_and!.
    + eauto.
    + by apply (usable_spec c v Hv).
    + by apply (vm_supersedes _ _ _ Hvm).
    + by apply (vm_members _ _ _ Hvm).
    + by apply (vm_members _ _ _ Hvm).
    + apply Hk. apply Hms.
    + apply Hk. apply Hmr.
    + done.
Qed.

Lemma mentioned_nonempty P c :
  project_changes_from_facts facts = Ok P → mentioned facts c → cp_changes P ≠ ∅.
Proof.
  intros HP Hm He. destruct (project_lookup_Ok facts Hc P c HP Hm) as [v Hv].
  assert (cp_changes P !! c = Some v) as Hl by by apply (project_lookup facts Hc P HP).
  by rewrite He, lookup_empty in Hl.
Qed.
End facts.
End events.

(** ** The closure of a scope *)

Section closure.
Context (P : ChangeProjection).

(** One step along a relation of a usable Change, in either direction. *)
Definition adjacent_revisions (x y : RevisionId) : Prop := relates P x y ∨ relates P y x.

Lemma neighbor_map_spec x y :
  y ∈ default ∅ (neighbor_map P !! x) ↔ adjacent_revisions x y.
Proof.
  unfold neighbor_map.
  assert (∀ es (m : gmap RevisionId (gset RevisionId)),
    y ∈ default ∅ (foldl (λ m edge,
      entry_extend (entry_extend m edge.1 {[edge.2]}) edge.2 {[edge.1]}) m es !! x) ↔
    y ∈ default ∅ (m !! x) ∨ (x, y) ∈ es ∨ (y, x) ∈ es) as Hes.
  { induction es as [|[a b] es IH]; intros m; cbn [foldl].
    { rewrite !elem_of_nil. tauto. }
    rewrite IH, !elem_of_cons. cbn [fst snd]. rewrite !lookup_entry_extend.
    repeat case_decide; subst; cbn [from_option id]; rewrite ?elem_of_union, ?elem_of_singleton;
      intuition congruence. }
  assert (∀ l (m : gmap RevisionId (gset RevisionId)),
    y ∈ default ∅ (foldl (λ m view, foldl (λ m edge,
      entry_extend (entry_extend m edge.1 {[edge.2]}) edge.2 {[edge.1]}) m
        (iter_set (cv_supersedes view))) m l !! x) ↔
    y ∈ default ∅ (m !! x) ∨ ∃ v, v ∈ l ∧ ((x, y) ∈ cv_supersedes v ∨ (y, x) ∈ cv_supersedes v))
    as Hl.
  { induction l as [|v l IH]; intros m; cbn [foldl].
    - split; [by left|]. intros [?|(v & ?%elem_of_nil & _)]; done.
    - rewrite IH, Hes, !elem_of_iter_set. setoid_rewrite elem_of_cons. split.
      + intros [[?|?]|(w & ? & ?)]; [by left|right; exists v; auto|right; exists w; auto].
      + intros [?|(w & [->|?] & ?)]; [by left; left|by left; right|right; exists w; auto]. }
  rewrite Hl, lookup_empty. cbn [from_option id]. setoid_rewrite elem_of_usable.
  unfold adjacent_revisions, relates. split.
  - intros [?|(v & [? ?] & [?|?])]; [set_solver|left; eauto|right; eauto].
  - intros [(v & ? & ? & ?)|(v & ? & ? & ?)]; right; exists v; eauto.
Qed.

Abbreviation neighbors := (neighbor_map P).

Lemma adjacent_dom x y : adjacent_revisions x y → y ∈ dom neighbors.
Proof.
  intros Ha. assert (x ∈ default ∅ (neighbors !! y)) as Hx.
  { apply neighbor_map_spec. destruct Ha; [by right|by left]. }
  apply elem_of_dom. destruct (neighbors !! y); [by eexists|cbn in Hx; set_solver].
Qed.

(** What [push_neighbors] does: every neighbour is connected, new ones are pushed once. *)
Lemma push_neighbors_spec ns connected frontier :
  let '(connected', frontier') := push_neighbors (connected, frontier) ns in
  (∀ x, x ∈ connected' ↔ x ∈ connected ∨ x ∈ ns) ∧
  (∀ x, x ∈ frontier' ↔ x ∈ frontier ∨ x ∈ ns ∧ x ∉ connected) ∧
  length frontier' + size connected = length frontier + size connected'.
Proof.
  revert connected frontier. induction ns as [|n ns IH]; intros connected frontier.
  { cbn. setoid_rewrite elem_of_nil. split_and!; [tauto..|lia]. }
  cbn [push_neighbors foldl fst snd]. case_bool_decide as Hn.
  - specialize (IH connected frontier). unfold push_neighbors in IH.
    destruct (foldl _ _ ns) as [c' f']. destruct IH as (I1 & I2 & I3).
    split_and!; [| |done]; intros x; rewrite ?I1, ?I2, elem_of_cons; split.
    1,3: tauto. all: intros [?|?]; [by left|]; naive_solver.
  - specialize (IH (connected ∪ {[n]}) (n :: frontier)). unfold push_neighbors in IH.
    destruct (foldl _ _ ns) as [c' f']. destruct IH as (I1 & I2 & I3). split_and!.
    + intros x. rewrite I1, elem_of_union, elem_of_singleton, elem_of_cons. tauto.
    + intros x. rewrite I2, !elem_of_cons, elem_of_union, elem_of_singleton.
      destruct (decide (x = n)) as [->|?]; tauto.
    + rewrite size_union, size_singleton in I3 by set_solver. cbn [length] in I3. lia.
Qed.

Context (seed : gset RevisionId).

(** Reachable from the seed. *)
Definition reachable (r : RevisionId) : Prop := ∃ s, s ∈ seed ∧ rtc adjacent_revisions s r.

Lemma connect_loop_spec fuel connected frontier :
  (∀ x, x ∈ connected → reachable x) → seed ⊆ connected →
  connected ⊆ seed ∪ dom neighbors →
  (∀ x, x ∈ frontier → x ∈ connected) →
  (∀ x y, x ∈ connected → x ∉ frontier → adjacent_revisions x y → y ∈ connected) →
  length frontier + size (seed ∪ dom neighbors) ≤ fuel + size connected →
  ∀ r, r ∈ connect_loop fuel neighbors connected frontier ↔ reachable r.
Proof.
  revert connected frontier. induction fuel as [|fuel IH]; intros connected frontier
    Hreach Hseed Hsub Hfr Hclosed Hfuel.
  all: assert (frontier = [] → ∀ r, r ∈ connected ↔ reachable r) as Hdone.
  1,3: intros -> r; split; [apply Hreach|]; intros (s & Hs & Hsr);
    assert (s ∈ connected) as Hin by set_solver; clear Hs;
    induction Hsr as [|x y z Hxy _ IHr]; [done|]; apply IHr, (Hclosed x y); set_solver.
  - cbn. apply Hdone. apply subseteq_size in Hsub. destruct frontier; [done|cbn in Hfuel; lia].
  - cbn. destruct frontier as [|revision frontier]; [by apply Hdone|].
    pose proof (push_neighbors_spec (iter_set (default ∅ (neighbors !! revision)))
      connected frontier) as Hp.
    destruct (push_neighbors _ _) as [c' f']. destruct Hp as (P1 & P2 & P3).
    setoid_rewrite elem_of_iter_set in P1. setoid_rewrite neighbor_map_spec in P1.
    setoid_rewrite elem_of_iter_set in P2. setoid_rewrite neighbor_map_spec in P2.
    apply IH.
    + intros x [?|Hx]%P1; [by apply Hreach|]. destruct (Hreach revision) as (s & Hs & Hr); [set_solver|].
      exists s. split; [done|]. by eapply rtc_r.
    + intros x Hx. apply P1. left. set_solver.
    + intros x [?|Hx%adjacent_dom]%P1; set_solver.
    + intros x [?|[? ?]]%P2; apply P1; [left; set_solver|by right].
    + intros x y [Hx|Hx]%P1 Hnf Hxy.
      * destruct (decide (x = revision)) as [->|Hne]; [apply P1; by right|].
        apply P1. left. apply (Hclosed x y); [done| |done]. rewrite P2 in Hnf. set_solver.
      * destruct (decide (x ∈ connected)) as [Hin|Hnin]; [|exfalso; apply Hnf, P2; auto].
        destruct (decide (x = revision)) as [->|Hne]; [apply P1; by right|].
        apply P1. left. apply (Hclosed x y); [done| |done]. rewrite P2 in Hnf. set_solver.
    + cbn [length] in Hfuel. lia.
Qed.

Lemma connected_spec r : r ∈ change_connected_revisions seed P ↔ reachable r.
Proof.
  unfold change_connected_revisions. cbn zeta. apply connect_loop_spec.
  - intros x Hx. exists x. split; [done|constructor].
  - done.
  - set_solver.
  - intros x Hx%list_elem_of_In%in_rev%list_elem_of_In. by apply elem_of_iter_set in Hx.
  - intros x y Hx Hnf. exfalso. apply Hnf, list_elem_of_In. apply -> in_rev.
    by apply list_elem_of_In, elem_of_iter_set.
  - rewrite length_rev, length_iter_set. pose proof (size_union_alt seed (dom neighbors)) as Hs.
    assert (size (dom neighbors ∖ seed) ≤ size (dom neighbors)) by (apply subseteq_size; set_solver).
    lia.
Qed.
End closure.

(** ** Reading a scope *)

Lemma component_of_Some edges r C :
  component_of (from_edges edges) r = Some C ↔
  knows edges r ∧ ∀ y, y ∈ C ↔ knows edges y ∧ rtsc (linked edges) r y.
Proof.
  destruct (threads_spec edges) as (_ & H2 & H3 & _ & H5).
  assert (∀ D, component_of (from_edges edges) r = Some D → knows edges r →
    ∀ y, y ∈ D ↔ knows edges y ∧ rtsc (linked edges) r y) as Hd.
  { intros D HD Hk. destruct (H2 r Hk) as (D' & HD' & Hr). rewrite HD in HD'. injection HD' as <-.
    apply find_some in HD as [HD _]. intros y. apply H5; [by apply list_elem_of_In|done]. }
  split.
  - intros HC. assert (knows edges r) as Hk.
    { destruct (decide (r ∈ known_revisions (from_edges edges))) as [Hk|Hk];
        rewrite known_revisions_spec in Hk; [done|]. rewrite H3 in HC by done. done. }
    split; [done|]. by apply Hd.
  - intros [Hk HC]. destruct (H2 r Hk) as (D & HD & _). rewrite HD. f_equal.
    apply set_eq. intros y. by rewrite HC, (Hd D HD Hk).
Qed.

Section scope.
Context (P : ChangeProjection) (known : gset RevisionId) (seed : gset RevisionId).
Abbreviation scope := (change_connected_revisions seed P).
Abbreviation graph K := (entry_list (replacement_edges K P)).

Lemma in_force_adjacent K x y : in_force P K x y → adjacent_revisions P x y.
Proof. intros (v & ? & ? & ? & _). left. by exists v. Qed.

Lemma scope_closed x y : x ∈ scope → adjacent_revisions P x y → y ∈ scope.
Proof. rewrite !connected_spec. intros (s & Hs & Hsx) Hxy. exists s. split; [done|]. by eapply rtc_r. Qed.

Lemma in_force_scoped x y : x ∈ scope ∨ y ∈ scope →
  in_force P (known ∩ scope) x y ↔ in_force P known x y.
Proof.
  intros Hs. split.
  - intros (v & ? & ? & ? & ? & ? & [? _]%elem_of_intersection & [? _]%elem_of_intersection & ?).
    by exists v.
  - intros Hf. assert (x ∈ scope ∧ y ∈ scope) as [Hx Hy].
    { apply in_force_adjacent in Hf. destruct Hs; [split; [done|by eapply scope_closed]|].
      split; [|done]. eapply scope_closed; [done|]. unfold adjacent_revisions in *. tauto. }
    destruct Hf as (v & ? & ? & ? & ? & ? & ? & ? & ?). exists v.
    split_and!; try apply elem_of_intersection; done.
Qed.

Lemma linked_force K x y : linked (graph K) x y ↔ in_force P K x y.
Proof.
  unfold linked. rewrite replacement_declares, replacement_knows. split; [by intros [? _]|].
  intros Hf. split; [done|]. by destruct Hf as (v & _ & _ & _ & _ & _ & _ & ? & _).
Qed.

Lemma thread_in_scope K r y : r ∈ scope → rtsc (linked (graph K)) r y → y ∈ scope.
Proof.
  intros Hr Hry. induction Hry as [|x y z Hxy _ IH]; [done|]. apply IH.
  eapply scope_closed; [exact Hr|].
  destruct Hxy as [Hl|Hl]; apply linked_force, in_force_adjacent in Hl; [done|].
  unfold adjacent_revisions in *. tauto.
Qed.

Lemma thread_scoped r y : r ∈ scope →
  rtsc (linked (graph (known ∩ scope))) r y ↔ rtsc (linked (graph known)) r y.
Proof.
  intros Hr. split.
  - apply rtc_subrel. intros a b [Hl|Hl]; [left|right]; apply linked_force;
      apply linked_force in Hl; destruct Hl as (v & ? & ? & ? & ? & ? & ? & ? & ?);
      exists v; set_solver.
  - intros Hry. induction Hry as [|x y z Hxy _ IH]; [constructor|].
    assert (rtsc (linked (graph known)) x y) as Hy by by apply rtc_once.
    apply (thread_in_scope _ _ _ Hr) in Hy. apply rtc_l with y; [|by apply IH].
    destruct Hxy as [Hl|Hl]; [left|right]; apply linked_force, in_force_scoped; auto;
      by apply linked_force.
Qed.

(** Over the revisions of the closure, the thread of a seed revision, its heads and its
    superseders are the ones of the whole store. *)
Lemma scoped_reads r : r ∈ seed →
  component_of (from_edges (graph (known ∩ scope))) r = component_of (from_edges (graph known)) r ∧
  heads_for (from_edges (graph (known ∩ scope))) r = heads_for (from_edges (graph known)) r ∧
  stale_by_superseding_revision (from_edges (graph (known ∩ scope))) r =
    stale_by_superseding_revision (from_edges (graph known)) r.
Proof.
  intros Hr. assert (r ∈ scope) as Hs by (apply connected_spec; exists r; split; [done|constructor]).
  assert (component_of (from_edges (graph (known ∩ scope))) r =
    component_of (from_edges (graph known)) r) as HC.
  { apply option_ext. intros C. rewrite !component_of_Some. setoid_rewrite replacement_knows.
    setoid_rewrite (thread_scoped r _ Hs). setoid_rewrite elem_of_intersection.
    split; intros [Hk HC]; (split; [tauto|]); intros y; rewrite HC;
      pose proof (thread_in_scope known r y Hs); tauto. }
  split_and!; [done| |].
  - unfold heads_for. rewrite HC. clear HC.
    destruct (component_of _ r) as [C|] eqn:E; [|done]. apply component_of_Some in E as [_ E]. apply set_eq. intros y.
    rewrite !elem_of_intersection, !from_edges_heads, !replacement_knows.
    setoid_rewrite replacement_declares. rewrite elem_of_intersection, E.
    split; intros ([Hky Hry] & Hk & Hq); pose proof (thread_in_scope _ _ _ Hs Hry) as Hy;
      pose proof (λ q, in_force_scoped q y (or_intror Hy)) as Hf;
      (split; [done|]); (split; [tauto|]); intros q ?; by apply (Hq q), Hf.
  - apply set_eq. intros y. rewrite !from_edges_stale_by, !replacement_knows, !replacement_declares.
    rewrite elem_of_intersection, in_force_scoped by auto. tauto.
Qed.
End scope.

(** ** Properties *)

(** C24. In a store that holds Change claims, with distinct event ids, one revision per
    operative request and no collisions among the claim documents, the replacement view is
    exact: its revisions are the captured ones, a head is a captured revision nothing replaces, and
    the superseders of a revision are exactly the revisions that replace it, where [s]
    replaces [r] when some complete and acyclic Change relates them by an effective claim
    and every Change that holds [r] is complete, acyclic and no longer has it current.
    Edges that proposals declare have no effect, and no cycle is reported. *)
Theorem replacement_exact `{DigestLaws} `{Decoders} events facts view c
    (Hids : NoDup (ev_event_id <$> events)) (Hreq : requests_agree events)
    (Hfree : collision_free events) (Hf : extract_facts events = Ok facts)
    (Hv : replacement_from_events events = Ok view) (Hc : mentioned facts c) :
  (∀ r, r ∈ sv_heads view ↔ captured facts r ∧ ∀ s, ¬ replaced_by facts r s) ∧
  (∀ r, captured facts r ↔ is_Some (component_of view r)) ∧
  (∀ r s, s ∈ stale_by_superseding_revision view r ↔ replaced_by facts r s) ∧
  sv_cycle_revisions view = ∅.
Proof.
  pose proof (extracted_consistent events facts Hids Hreq Hfree Hf) as Hcons.
  apply replacement_from_events_inv in Hv as (edges & facts' & P & He & Hf' & HP & ->).
  rewrite Hf in Hf'. injection Hf' as <-.
  destruct (captured_known events edges facts P He Hf HP) as [Hk _].
  unfold change_aware, change_aware_supersession.
  rewrite bool_decide_false by by apply (mentioned_nonempty facts Hcons P c). cbn [as_replacement].
  set (known := known_revisions _) in *.
  pose proof (λ r s, in_force_spec facts Hcons P known r s HP Hk) as Hforce.
  split_and!; [| | |done].
  - intros r. change (r ∈ sv_heads (from_edges (entry_list (replacement_edges known P))) ↔
      captured facts r ∧ ∀ s, ¬ replaced_by facts r s).
    rewrite from_edges_heads, replacement_knows, Hk. setoid_rewrite replacement_declares.
    by setoid_rewrite Hforce.
  - intros r. change (captured facts r ↔
      is_Some (component_of (from_edges (entry_list (replacement_edges known P))) r)).
    rewrite <- Hk, <- (replacement_knows P known). split.
    + intros Hkn. destruct (threads_spec (entry_list (replacement_edges known P))) as (_ & H2 & _).
      destruct (H2 r Hkn) as (C & HC & _). by exists C.
    + by intros [C [? _]%component_of_Some].
  - intros r s. change (s ∈ stale_by_superseding_revision
      (from_edges (entry_list (replacement_edges known P))) r ↔ replaced_by facts r s).
    rewrite from_edges_stale_by, replacement_knows, replacement_declares, Hforce.
    split; [by intros [_ ?]|]. intros Hr. split; [|done]. apply Hforce in Hr.
    by destruct Hr as (v & _ & _ & _ & _ & _ & _ & ? & _).
Qed.

(** C25. No thread of the replacement view is without a current head: in a store that
    shows a Change, the thread of every revision the view knows contains a revision
    nothing supersedes, even where the relations of two Changes cross into a loop. *)
Theorem replacement_never_headless `{DigestLaws} `{Decoders} events P v view r
    (HP : project_changes events = Ok P) (Hs : shown P v)
    (Hv : replacement_from_events events = Ok view) (Hr : is_Some (component_of view r)) :
  heads_for view r ≠ ∅.
Proof.
  apply replacement_from_events_inv in Hv as (edges & facts & P' & He & Hf & HP' & ->).
  unfold project_changes in HP. rewrite Hf in HP. cbn [rbind] in HP. rewrite HP in HP'.
  injection HP' as <-. destruct (captured_known events edges facts P He Hf HP) as [_ Hsound].
  unfold change_aware, change_aware_supersession in *. rewrite bool_decide_false in *.
  2,3: intros Hempty; destruct Hs as [c Hc]; by rewrite Hempty, lookup_empty in Hc.
  cbn [as_replacement] in *. apply (replacement_headed P _ r Hsound).
  destruct Hr as [C HC]. change (component_of (from_edges (entry_list (replacement_edges
    (known_revisions (from_edges edges)) P))) r = Some C) in HC.
  apply component_of_Some in HC as [HC _]. by rewrite replacement_knows in HC.
Qed.

(** The closure a scoped read takes is enough: [change_connected_revisions] is
    exactly what relations of usable Changes connect to the seed, and a replacement view
    built over the captured revisions of that closure alone gives every seed revision the
    thread, the heads and the superseders it has in the whole store. *)
Theorem scoped_replacement_sound P seed edges edges'
    (Hne : cp_changes P ≠ ∅)
    (Hk : ∀ r, knows edges' r ↔ knows edges r ∧ r ∈ change_connected_revisions seed P) :
  (∀ r, r ∈ change_connected_revisions seed P ↔ reachable P seed r) ∧
  (∀ r, r ∈ seed →
    let scoped := change_aware (from_edges edges') P in
    let whole := change_aware (from_edges edges) P in
    component_of scoped r = component_of whole r ∧ heads_for scoped r = heads_for whole r ∧
    stale_by_superseding_revision scoped r = stale_by_superseding_revision whole r).
Proof.
  split; [apply connected_spec|]. intros r Hr. cbn zeta.
  unfold change_aware, change_aware_supersession. rewrite bool_decide_false by done.
  assert (known_revisions (from_edges edges') =
    known_revisions (from_edges edges) ∩ change_connected_revisions seed P) as ->.
  { apply set_eq. intros x. by rewrite elem_of_intersection, !known_revisions_spec. }
  exact (scoped_reads P (known_revisions (from_edges edges)) seed r Hr).
Qed.

(** *** Witnesses: a Change with two members, one replacing the other *)

(** A digest that separates the example's documents: a rolling checksum in 32 bytes. *)
Fixpoint mix (h : N) (s : string) : N :=
  match s with
  | EmptyString => h
  | String c s => mix (N.land (h * 5 + N_of_ascii c) 1048575)%N s
  end.

Fixpoint mix_bytes (n : nat) (h : N) : string :=
  match n with
  | O => EmptyString
  | S n => String (ascii_of_N (h mod 256)%N) (mix_bytes n (h / 256)%N)
  end.

Definition mixing_digest : Digest := {|
  sha256 := λ s, mix_bytes 32 (mix 7 s);
  json_text := λ v, positive_bits (encode (json_tree v))
|}.

Lemma mixing_digest_laws : @DigestLaws mixing_digest.
Proof.
  split; [|exact (@json_text_inj _ example_digest_laws)]. intros s. cbn [sha256 mixing_digest].
  assert (∀ n h, String.length (mix_bytes n h) = n) as Hl; [|apply Hl].
  induction n as [|n IH]; intros h; cbn; [done|by rewrite IH].
Qed.

Definition two_change : ChangeId :=
  match @derive_change_id mixing_digest example_descriptor with Ok c => c | Err _ => "" end.

Definition two_decoders : Decoders := {|
  from_work_object_proposed := λ v,
    match v with
    | JString r => Ok {| wo_engagement_id := "engagement:e";
        wo_work_object := ProposeRevision
          {| rv_id := r; rv_object_id := "obj:o"; rv_git_provenance := None |} None "sha256:a" [] |}
    | _ => example_error
    end;
  from_change_declared := λ _, @build_change_declared mixing_digest example_descriptor example_nonce;
  from_membership_asserted := λ v,
    match v with
    | JString r => @build_membership_asserted mixing_digest two_change r example_nonce
    | _ => example_error
    end;
  from_membership_withdrawn := λ _, example_error;
  from_relation_asserted := λ _, @build_revision_relation_asserted mixing_digest two_change
    (example_ref "rev:b" "sha256:a") (example_ref "rev:a" "sha256:a") example_nonce;
  from_relation_withdrawn := λ _, example_error;
  from_link_asserted := λ _, example_error;
  from_assessment_recorded := λ _, example_error;
  from_input_request_opened := λ _, example_error;
  from_input_request_responded := λ _, example_error;
  from_fact_ported := λ _, example_error
|}.

Definition two_event (id : EventId) (t : EventType) (r : RevisionId) : ShoreEvent := {|
  ev_schema := EVENT_SCHEMA; ev_version := EVENT_VERSION; ev_event_id := id;
  ev_event_type := t; ev_idempotency_key := id; ev_target := for_journal "journal:default";
  ev_writer := shore_local "0.1"; ev_occurred_at := "2025-01-01T00:00:00.000Z";
  ev_payload_hash := "sha256:0"; ev_assertion_mode := Advisory; ev_signer := None;
  ev_signature := None; ev_source_ref := None; ev_ingest := None; ev_content_encoding := [];
  ev_payload_version := 1; ev_payload := JString r |}.

Definition two_events : list ShoreEvent :=
  [two_event "evt:1" WorkObjectProposed "rev:a"; two_event "evt:2" WorkObjectProposed "rev:b";
   two_event "evt:3" ChangeDeclared "rev:a"; two_event "evt:4" ChangeMembershipAsserted "rev:a";
   two_event "evt:5" ChangeMembershipAsserted "rev:b";
   two_event "evt:6" ChangeRevisionRelationAsserted "rev:b"].

Definition two_facts : list ChangeProjectionFact :=
  ok_value [] (@extract_facts mixing_digest two_decoders two_events).
Definition two_projection : ChangeProjection :=
  ok_value {| cp_changes := ∅; cp_links := [] |}
    (@project_changes mixing_digest two_decoders two_events).
Definition two_view : SupersessionView :=
  ok_value (from_edges []) (@replacement_from_events mixing_digest two_decoders two_events).

Lemma two_extracted : @extract_facts mixing_digest two_decoders two_events = Ok two_facts.
Proof. apply is_ok_value. vm_compute. reflexivity. Qed.

Lemma two_replacement :
  @replacement_from_events mixing_digest two_decoders two_events = Ok two_view.
Proof. apply is_ok_value. vm_compute. reflexivity. Qed.

Lemma two_projected : @project_changes mixing_digest two_decoders two_events = Ok two_projection.
Proof. apply is_ok_value. vm_compute. reflexivity. Qed.

Lemma two_requests_agree : @requests_agree mixing_digest two_decoders two_events.
Proof.
  intros e e' q r r' He _ E%event_request. unfold two_events in He.
  repeat (apply elem_of_cons in He as [->|He]; [discriminate E|]). by apply elem_of_nil in He.
Qed.

(** Claim documents with pairwise different digests do not collide. *)
Lemma distinct_collision_free `{DigestLaws} `{Decoders} events :
  NoDup (omap (λ e, json_digest <$> event_claim_document e) events) → collision_free events.
Proof.
  intros Hnd e e' v w [i Hi]%list_elem_of_lookup [j Hj]%list_elem_of_lookup Hv Hw [Hne Heq].
  assert (i = j) as <-; [|by simplify_eq].
  revert i j Hi Hj Hnd. induction events as [|x events IH]; [done|].
  intros [|i] [|j] Hi Hj; cbn in Hi, Hj; simplify_eq; cbn.
  - rewrite Hv. cbn. intros [Hn _]%NoDup_cons. destruct Hn. apply list_elem_of_omap.
    exists e'. split; [by eapply list_elem_of_lookup_2|]. rewrite Hw. cbn.
    unfold json_digest, sha256_bytes_hex. by rewrite Heq.
  - rewrite Hw. cbn. intros [Hn _]%NoDup_cons. destruct Hn. apply list_elem_of_omap.
    exists e. split; [by eapply list_elem_of_lookup_2|]. rewrite Hv. cbn.
    unfold json_digest, sha256_bytes_hex. by rewrite Heq.
  - intros Hnd. f_equal. apply IH; [done..|].
    destruct (json_digest <$> _); [by apply NoDup_cons in Hnd as [_ ?]|done].
Qed.

Lemma two_mentioned : mentioned two_facts two_change.
Proof.
  left. exists example_descriptor. apply (list_elem_of_lookup_2 _ 2). vm_compute. reflexivity.
Qed.

Lemma replacement_exact_witness : replaced_by two_facts "rev:a" "rev:b".
Proof.
  apply (proj1 (proj2 (proj2 (@replacement_exact mixing_digest mixing_digest_laws two_decoders
    two_events two_facts two_view two_change
    ltac:(apply (bool_decide_unpack _); vm_compute; exact I) two_requests_agree
    ltac:(apply (@distinct_collision_free mixing_digest mixing_digest_laws two_decoders),
      (bool_decide_unpack _); vm_compute; exact I)
    two_extracted two_replacement
    two_mentioned)))).
  apply (bool_decide_unpack _). vm_compute. exact I.
Defined.

Lemma replacement_never_headless_witness : heads_for two_view "rev:a" ≠ ∅.
Proof.
  apply (@replacement_never_headless mixing_digest mixing_digest_laws two_decoders two_events
    two_projection (default example_view (cp_changes two_projection !! two_change)) two_view "rev:a").
  - exact two_projected.
  - exists two_change. vm_compute. reflexivity.
  - exact two_replacement.
  - apply (bool_decide_unpack _). vm_compute. exact I.
Defined.

Definition example_roots (l : list RevisionId) : list (RevisionId * list RevisionId) :=
  (λ r, (r, [])) <$> l.

Lemma knows_roots l r : knows (example_roots l) r ↔ r ∈ l.
Proof.
  unfold knows, example_roots. setoid_rewrite list_elem_of_fmap. split.
  - by intros (ts & x & [= -> ->] & Hx).
  - intros Hr. exists [], r. done.
Qed.

Lemma scoped_replacement_sound_witness :
  component_of (change_aware (from_edges (example_roots ["rev:a"; "rev:b"])) two_projection) "rev:b" =
  component_of (change_aware (from_edges (example_roots ["rev:a"; "rev:b"; "rev:z"]))
    two_projection) "rev:b".
Proof.
  assert (change_connected_revisions {["rev:b"]} two_projection = {["rev:a"; "rev:b"]}) as Hs
    by (vm_compute; reflexivity).
  refine (proj1 (proj2 (scoped_replacement_sound two_projection {["rev:b"]}
    (example_roots ["rev:a"; "rev:b"; "rev:z"]) (example_roots ["rev:a"; "rev:b"]) _ _) "rev:b" _)).
  - intros He. apply (f_equal size) in He. vm_compute in He. discriminate He.
  - intros r. rewrite Hs, !knows_roots, elem_of_union, !elem_of_singleton, !elem_of_cons, !elem_of_nil.
    split; [tauto|]. intros [[?|[?|[->|?]]] [?|?]]; tauto || discriminate.
  - by apply elem_of_singleton.
Defined.
