(* ===== verification/Wire.v ===== *)
(** * The wire form of events ([src/src/session/event])

    The stored document of an event and its decoder, as the serde attributes of the
    envelope's types define them.  The JSON text itself belongs to [serde_json]: reading
    it is an operation of the class [JsonReader], and what the store relies on is the
    class [JsonReaderLaws]. *)

From S2P Require Import Prelude RustStr BTree Model CanonicalHash Crypto Events.

(** ** Reading JSON *)

(** [read_json] is the document of a text, the entries of an object in text order;
    [serde_message] the text of a decoding error; [borrows_event_type] says whether the
    [eventType] string of a text can be borrowed from it, that is, has no escapes. *)
Class JsonReader := {
  read_json : string → option json;
  serde_message : string → string;
  borrows_event_type : string → bool
}.

Class JsonReaderLaws `{Digest} `{JsonReader} : Prop := {
  read_write v : json_wf v → read_json (json_text v) = Some v;
  borrows_code o ty : json_entry o "eventType" = Some (JString (type_code ty)) →
    borrows_event_type (json_text (JObject o)) = true
}.

(** [serde_json::Value] of a document: the last of several entries with one key is kept. *)
Fixpoint replace_entry (o : list (string * json)) (k : string) (v : json)
    : list (string * json) :=
  match o with
  | [] => [(k, v)]
  | (k', v') :: o => if String.eqb k' k then (k, v) :: o else (k', v') :: replace_entry o k v
  end.

Fixpoint as_value (v : json) : json :=
  match v with
  | JArray vs => JArray (List.map as_value vs)
  | JObject o => JObject (foldl (λ acc p, replace_entry acc p.1 p.2) []
      (List.map (λ p, (p.1, as_value p.2)) o))
  | _ => v
  end.

(** ** Decoding combinators *)

Section decoding.
Context `{JsonReader}.

Definition de_error {A} (cause : string) : result A := Err (Json (serde_message cause)).

Class Deserialize (A : Type) := from_json : json → result A.

(** The entries a derived struct decoder sees: an object's, without repeated fields, or
    an array's by position, at least [least] of them. *)
Definition struct_entries (keys : list string) (least : nat) (v : json)
    : result (list (string * json)) :=
  match v with
  | JObject o =>
      if bool_decide (NoDup (List.filter (λ k, bool_decide (k ∈ keys)) o.*1)) then Ok o
      else de_error "duplicate field"
  | JArray vs =>
      if (least <=? length vs) && (length vs <=? length keys) then Ok (zip keys vs)
      else de_error "invalid length"
  | _ => de_error "invalid type"
  end.

(** [deny_unknown_fields]. *)
Definition deny_unknown (keys : list string) (o : list (string * json)) : result unit :=
  if forallb (λ p, bool_decide (p.1 ∈ keys)) o then Ok () else de_error "unknown field".

Definition req {A} `{Deserialize A} (o : list (string * json)) (k : string) : result A :=
  match json_entry o k with Some v => from_json v | None => de_error "missing field" end.

Definition opt {A} `{Deserialize A} (o : list (string * json)) (k : string)
    : result (option A) :=
  match json_entry o k with
  | None | Some JNull => Ok None
  | Some v => let? a := from_json v in Ok (Some a)
  end.

Definition dflt {A} `{Deserialize A} (o : list (string * json)) (k : string) (d : A)
    : result A :=
  match json_entry o k with Some v => from_json v | None => Ok d end.

(** The name of a unit variant: a string, or an object with that one key and [null]. *)
Definition unit_variant (v : json) : result string :=
  match v with
  | JString s => Ok s
  | JObject [(k, JNull)] => Ok k
  | _ => de_error "invalid type"
  end.

#[export] Instance string_Deserialize : Deserialize string := λ v,
  match v with JString s => Ok s | _ => de_error "invalid type" end.

(** An unsigned integer below [2^32]. *)
Definition u32_of_literal (s : string) : option N :=
  if String.eqb s EmptyString then None
  else v ← digits_value 0 s; if (v <? 2 ^ 32)%Z then Some (Z.to_N v) else None.

#[export] Instance u32_Deserialize : Deserialize N := λ v,
  match v with
  | JNumber s => ok_or (u32_of_literal s) (Json (serde_message "invalid number"))
  | _ => de_error "invalid type"
  end.

#[export] Instance list_Deserialize {A} `{Deserialize A} : Deserialize (list A) := λ v,
  match v with JArray vs => mapM from_json vs | _ => de_error "invalid type" end.

#[export] Instance json_Deserialize : Deserialize json := λ v, Ok (as_value v).

Definition from_slice {A} `{Deserialize A} (bytes : string) : result A :=
  match read_json bytes with Some v => from_json v | None => de_error "syntax" end.
End decoding.

(** ** The envelope's documents *)

#[export] Instance EventSignature_Serialize : Serialize EventSignature := λ s,
  JObject [("alg", to_json (es_alg s)); ("sigVersion", to_json (es_sig_version s));
           ("sig", to_json (es_sig s))].
#[export] Instance SourceRef_Serialize : Serialize SourceRef := λ s,
  JObject [("sourceSystem", to_json (sr_source_system s)); ("sourceId", to_json (sr_source_id s))].
#[export] Instance IngestVia_Serialize : Serialize IngestVia := λ v,
  JString match v with IngestEvents => "ingest-events" | BundleApply => "bundle-apply" end.
#[export] Instance IngestProvenance_Serialize : Serialize IngestProvenance := λ p,
  JObject [("via", to_json (ip_via p)); ("receivedAt", to_json (ip_received_at p))].

Definition is_default_advisory (mode : AssertionMode) : bool :=
  match mode with Advisory => true | Operative => false end.

Definition is_default_payload_version (version : N) : bool :=
  (version =? default_payload_version)%N.

(** A field with [skip_serializing_if]. *)
Definition skip_field {A} `{Serialize A} (skip : bool) (key : string) (a : A)
    : list (string * json) :=
  if skip then [] else [(key, to_json a)].

Definition event_entries (e : ShoreEvent) : list (string * json) :=
  [("schema", to_json (ev_schema e)); ("version", to_json (ev_version e));
   ("eventId", to_json (ev_event_id e)); ("eventType", to_json (type_code (ev_event_type e)));
   ("idempotencyKey", to_json (ev_idempotency_key e)); ("target", to_json (ev_target e));
   ("writer", to_json (ev_writer e)); ("occurredAt", to_json (ev_occurred_at e));
   ("payloadHash", to_json (ev_payload_hash e))] ++
  skip_field (is_default_advisory (ev_assertion_mode e)) "assertionMode" (ev_assertion_mode e) ++
  opt_field "signer" (ev_signer e) ++ opt_field "signature" (ev_signature e) ++
  opt_field "sourceRef" (ev_source_ref e) ++ opt_field "ingest" (ev_ingest e) ++
  skip_field (match ev_content_encoding e with [] => true | _ => false end) "contentEncoding"
    (ev_content_encoding e) ++
  skip_field (is_default_payload_version (ev_payload_version e)) "payloadVersion"
    (ev_payload_version e) ++
  [("payload", ev_payload e)].

#[export] Instance ShoreEvent_Serialize : Serialize ShoreEvent := λ e, JObject (event_entries e).

(** [serde_json::to_vec]. *)
Definition to_vec `{Digest} {A} `{Serialize A} (a : A) : result string := Ok (json_text (to_json a)).

Section envelope_decoders.
Context `{JsonReader}.

#[export] Instance EventTarget_Deserialize : Deserialize EventTarget := λ v,
  let? o := struct_entries ["journalId"; "subjectId"; "trackId"] 3 v in
  let? journal_id := req o "journalId" in
  let? subject_id := opt o "subjectId" in
  let? track_id := opt o "trackId" in
  Ok {| et_journal_id := journal_id; et_subject_id := subject_id; et_track_id := track_id |}.

#[export] Instance WriterProducer_Deserialize : Deserialize WriterProducer := λ v,
  let? o := struct_entries ["name"; "version"] 2 v in
  let? name := req o "name" in
  let? version := req o "version" in
  Ok {| wp_name := name; wp_version := version |}.

#[export] Instance Writer_Deserialize : Deserialize Writer := λ v,
  let? o := struct_entries ["actorId"; "producer"] 2 v in
  let? actor_id := req o "actorId" in
  let? producer := req o "producer" in
  Ok {| w_actor_id := actor_id; w_producer := producer |}.

#[export] Instance EventSignature_Deserialize : Deserialize EventSignature := λ v,
  let? o := struct_entries ["alg"; "sigVersion"; "sig"] 3 v in
  let? alg := req o "alg" in
  let? sig_version := req o "sigVersion" in
  let? sig := req o "sig" in
  Ok {| es_alg := alg; es_sig_version := sig_version; es_sig := sig |}.

#[export] Instance SourceRef_Deserialize : Deserialize SourceRef := λ v,
  let? o := struct_entries ["sourceSystem"; "sourceId"] 2 v in
  let? source_system := req o "sourceSystem" in
  let? source_id := req o "sourceId" in
  Ok {| sr_source_system := source_system; sr_source_id := source_id |}.

#[export] Instance IngestVia_Deserialize : Deserialize IngestVia := λ v,
  let? name := unit_variant v in
  if String.eqb name "ingest-events" then Ok IngestEvents
  else if String.eqb name "bundle-apply" then Ok BundleApply
  else de_error "unknown variant".

#[export] Instance IngestProvenance_Deserialize : Deserialize IngestProvenance := λ v,
  let? o := struct_entries ["via"; "receivedAt"] 2 v in
  let? via := req o "via" in
  let? received_at := req o "receivedAt" in
  Ok {| ip_via := via; ip_received_at := received_at |}.

#[export] Instance AssertionMode_Deserialize : Deserialize AssertionMode := λ v,
  let? name := unit_variant v in
  if String.eqb name "advisory" then Ok Advisory
  else if String.eqb name "operative" then Ok Operative
  else de_error "unknown variant".

(** [type_code::serde_code]. *)
#[export] Instance EventType_Deserialize : Deserialize EventType := λ v,
  let? code : string := from_json v in
  ok_or (event_type_from_code code) (Json (serde_message ("unknown event type code: " +:+ code))).

Definition deserialize_non_empty_idempotency_key (v : json) : result string :=
  let? value : string := from_json v in
  if String.eqb (trim value) EmptyString then de_error "idempotencyKey cannot be empty"
  else Ok value.

Definition event_keys : list string :=
  ["schema"; "version"; "eventId"; "eventType"; "idempotencyKey"; "target"; "writer";
   "occurredAt"; "payloadHash"; "assertionMode"; "signer"; "signature"; "sourceRef"; "ingest";
   "contentEncoding"; "payloadVersion"; "payload"].

#[export] Instance ShoreEvent_Deserialize : Deserialize ShoreEvent := λ v,
  let? o := struct_entries event_keys 17 v in
  let? schema := req o "schema" in
  let? version := req o "version" in
  let? event_id := req o "eventId" in
  let? event_type := req o "eventType" in
  let? idempotency_key :=
    match json_entry o "idempotencyKey" with
    | Some v => deserialize_non_empty_idempotency_key v
    | None => de_error "missing field"
    end in
  let? target := req o "target" in
  let? writer := req o "writer" in
  let? occurred_at := req o "occurredAt" in
  let? payload_hash := req o "payloadHash" in
  let? assertion_mode := dflt o "assertionMode" Advisory in
  let? signer := opt o "signer" in
  let? signature := opt o "signature" in
  let? source_ref := opt o "sourceRef" in
  let? ingest := opt o "ingest" in
  let? content_encoding := dflt o "contentEncoding" [] in
  let? payload_version := dflt o "payloadVersion" default_payload_version in
  let? payload := req o "payload" in
  Ok {| ev_schema := schema; ev_version := version; ev_event_id := event_id;
        ev_event_type := event_type; ev_idempotency_key := idempotency_key; ev_target := target;
        ev_writer := writer; ev_occurred_at := occurred_at; ev_payload_hash := payload_hash;
        ev_assertion_mode := assertion_mode; ev_signer := signer; ev_signature := signature;
        ev_source_ref := source_ref; ev_ingest := ingest; ev_content_encoding := content_encoding;
        ev_payload_version := payload_version; ev_payload := payload |}.
End envelope_decoders.

(** ** Round trips *)

(** What a stored event has: a usable key, numbers of their width, a value as payload. *)
Record event_wf (e : ShoreEvent) : Prop := {
  wf_key : trim (ev_idempotency_key e) ≠ EmptyString;
  wf_version : (ev_version e < 2 ^ 32)%N;
  wf_payload_version : (ev_payload_version e < 2 ^ 32)%N;
  wf_signature s : ev_signature e = Some s → (es_sig_version s < 2 ^ 32)%N;
  wf_payload : json_wf (ev_payload e)
}.

Lemma json_entry_app o o' k :
  json_entry (o ++ o') k = match json_entry o k with Some v => Some v | None => json_entry o' k end.
Proof. induction o as [|[k' v] o IH]; cbn; [done|]. by destruct (String.eqb k' k). Qed.

Lemma json_entry_opt {A} `{Serialize A} k k' (o : option A) :
  json_entry (opt_field k' o) k = if String.eqb k' k then to_json <$> o else None.
Proof. destruct o; cbn; [done|]. by destruct (String.eqb k' k). Qed.

Lemma json_entry_skip {A} `{Serialize A} k k' b (a : A) :
  json_entry (skip_field b k' a) k =
    if String.eqb k' k then if b then None else Some (to_json a) else None.
Proof. destruct b; cbn; by destruct (String.eqb k' k). Qed.

Lemma replace_entry_new o k v : k ∉ o.*1 → replace_entry o k v = o ++ [(k, v)].
Proof.
  induction o as [|[k' v'] o IH]; intros Hk; cbn; [done|]. cbn in Hk.
  apply not_elem_of_cons in Hk as [Hne Hk]. destruct (String.eqb_spec k' k); [congruence|].
  by rewrite IH.
Qed.

Lemma replace_entries acc o :
  NoDup (acc ++ o).*1 → foldl (λ acc p, replace_entry acc p.1 p.2) acc o = acc ++ o.
Proof.
  revert acc. induction o as [|[k v] o IH]; intros acc Hnd; cbn; [by rewrite app_nil_r|].
  assert (acc ++ (k, v) :: o = (acc ++ [(k, v)]) ++ o) as Happ by by rewrite <- app_assoc.
  rewrite Happ in Hnd |- *. rewrite replace_entry_new; [by apply IH|].
  rewrite fmap_app, fmap_app in Hnd. apply NoDup_app in Hnd as [Hnd _].
  apply NoDup_app in Hnd as (_ & Hd & _). intros Hk. apply (Hd k Hk). cbn. left.
Qed.

(** A well-formed document is its own value. *)
Lemma as_value_wf v : json_wf v → as_value v = v.
Proof.
  induction v as [|b|s|s|vs IH|o IH] using json_nested_ind; intros Hw; cbn; try done.
  - inversion Hw as [| | | |? Hvs|]; subst. f_equal. clear Hw.
    induction vs as [|v vs IHv]; cbn; [done|]. apply Forall_cons in IH as [H1 H2].
    apply Forall_cons in Hvs as [W1 W2]. f_equal; auto.
  - inversion Hw as [| | | | |? Hnd Hvs]; subst. f_equal.
    assert (List.map (λ p, (p.1, as_value p.2)) o = o) as ->; [|by apply (replace_entries [])].
    clear Hw Hnd. induction o as [|[k v] o IHo]; cbn; [done|].
    cbn in Hvs. apply Forall_cons in IH as [H1 H2]. apply Forall_cons in Hvs as [W1 W2].
    f_equal; [|auto]. cbn in H1. by rewrite H1.
Qed.

Lemma u32_literal n : (n < 2 ^ 32)%N → u32_of_literal (dec_nonneg (Z.of_N n)) = Some n.
Proof.
  intros Hn. unfold u32_of_literal.
  destruct (String.eqb_spec (dec_nonneg (Z.of_N n)) EmptyString) as [He|_];
    [by apply dec_nonneg_nonempty in He|].
  rewrite dec_nonneg_value by lia. cbn [mbind option_bind].
  destruct (Z.ltb_spec (Z.of_N n) (2 ^ 32)); [by rewrite N2Z.id|lia].
Qed.

Section round_trips.
Context `{JsonReader}.

Lemma u32_roundtrip (n : N) : (n < 2 ^ 32)%N → from_json (to_json n) = Ok n.
Proof. intros Hn. cbn. by rewrite u32_literal. Qed.

Lemma strings_roundtrip (l : list string) : from_json (to_json l) = Ok l.
Proof.
  cbn. apply mapM_Ok. induction l; cbn; by constructor.
Qed.

Lemma target_roundtrip (t : EventTarget) : from_json (to_json t) = Ok t.
Proof. by destruct t as [j [s|] [k|]]. Qed.

Lemma writer_roundtrip (w : Writer) : from_json (to_json w) = Ok w.
Proof. by destruct w as [a [n v]]. Qed.

Lemma signature_roundtrip (s : EventSignature) :
  (es_sig_version s < 2 ^ 32)%N → from_json (to_json s) = Ok s.
Proof.
  destruct s as [a n s]. cbn [es_sig_version]. intros Hn.
  transitivity (let? v := from_json (to_json n) in
    Ok {| es_alg := a; es_sig_version := v; es_sig := s |}); [reflexivity|].
  by rewrite u32_roundtrip.
Qed.

Lemma source_ref_roundtrip (s : SourceRef) : from_json (to_json s) = Ok s.
Proof. by destruct s. Qed.

Lemma ingest_roundtrip (p : IngestProvenance) : from_json (to_json p) = Ok p.
Proof. by destruct p as [[] r]. Qed.

Lemma mode_roundtrip (m : AssertionMode) : from_json (to_json m) = Ok m.
Proof. by destruct m. Qed.

Lemma type_roundtrip (t : EventType) : from_json (A:=EventType) (to_json (type_code t)) = Ok t.
Proof. by destruct t. Qed.

Lemma opt_entry {A} `{Serialize A} `{Deserialize A} `{!SerializeNonNull A} o k (x : option A) :
  json_entry o k = to_json <$> x → (∀ a, x = Some a → from_json (to_json a) = Ok a) →
  opt o k = Ok x.
Proof.
  unfold opt. intros -> Hx. destruct x as [a|]; cbn [fmap option_fmap option_map]; [|done].
  rewrite (Hx a eq_refl). by destruct (to_json a) eqn:E; [apply to_json_not_null in E|..].
Qed.
End round_trips.

#[export] Instance EventSignature_NonNull : SerializeNonNull EventSignature.
Proof. done. Qed.
#[export] Instance SourceRef_NonNull : SerializeNonNull SourceRef.
Proof. done. Qed.
#[export] Instance IngestProvenance_NonNull : SerializeNonNull IngestProvenance.
Proof. done. Qed.

Lemma event_entries_NoDup e : NoDup (event_entries e).*1.
Proof.
  unfold event_entries. destruct (is_default_advisory _), (ev_signer e), (ev_signature e),
    (ev_source_ref e), (ev_ingest e), (ev_content_encoding e), (is_default_payload_version _);
    apply (bool_decide_unpack _); vm_compute; exact I.
Qed.

(** [entry_lookup]: the entry of an event's document under a constant key. *)
Ltac entry_lookup :=
  unfold event_entries; rewrite ?json_entry_app, ?json_entry_opt, ?json_entry_skip;
  cbn [json_entry String.eqb Ascii.eqb Bool.eqb].

Lemma req_entry `{JsonReader} {A} `{Deserialize A} o k v (a : A) :
  json_entry o k = Some v → from_json v = Ok a → req o k = Ok a.
Proof. unfold req. by intros ->. Qed.

Lemma struct_object `{JsonReader} keys least o : NoDup o.*1 → struct_entries keys least (JObject o) = Ok o.
Proof.
  intros Hnd. unfold struct_entries. rewrite bool_decide_eq_true_2; [done|].
  apply NoDup_ListNoDup, List.NoDup_filter, NoDup_ListNoDup, Hnd.
Qed.

Section event_round_trip.
Context `{JsonReader}.

(** Decoding the document of an event gives the event back. *)
Lemma event_json_roundtrip e : event_wf e → from_json (to_json e) = Ok e.
Proof.
  intros Hwf. unfold from_json, ShoreEvent_Deserialize, to_json, ShoreEvent_Serialize.
  rewrite struct_object by apply event_entries_NoDup. cbn [rbind].
  assert (json_entry (event_entries e) "idempotencyKey" = Some (JString (ev_idempotency_key e)))
    as Hkey by by entry_lookup.
  assert (req (event_entries e) "version" = Ok (ev_version e)) as ->.
  { eapply req_entry; [by entry_lookup|]. apply u32_roundtrip, Hwf. }
  assert (req (event_entries e) "target" = Ok (ev_target e)) as ->.
  { eapply req_entry; [by entry_lookup|]. apply target_roundtrip. }
  assert (req (event_entries e) "eventType" = Ok (ev_event_type e)) as ->.
  { eapply req_entry; [by entry_lookup|]. apply type_roundtrip. }
  assert (req (event_entries e) "writer" = Ok (ev_writer e)) as ->.
  { eapply req_entry; [by entry_lookup|]. apply writer_roundtrip. }
  assert (dflt (event_entries e) "assertionMode" Advisory = Ok (ev_assertion_mode e)) as ->.
  { unfold dflt. entry_lookup. by destruct (ev_assertion_mode e). }
  assert (opt (event_entries e) "signer" = Ok (ev_signer e)) as ->.
  { apply opt_entry; [entry_lookup; by destruct (ev_signer e)|done]. }
  assert (opt (event_entries e) "signature" = Ok (ev_signature e)) as ->.
  { apply opt_entry; [entry_lookup; by destruct (ev_signature e)|].
    intros s Hs. apply signature_roundtrip. by apply (wf_signature e Hwf). }
  assert (opt (event_entries e) "sourceRef" = Ok (ev_source_ref e)) as ->.
  { apply opt_entry; [entry_lookup; by destruct (ev_source_ref e)|].
    intros s _. apply source_ref_roundtrip. }
  assert (opt (event_entries e) "ingest" = Ok (ev_ingest e)) as ->.
  { apply opt_entry; [entry_lookup; by destruct (ev_ingest e)|]. intros s _. apply ingest_roundtrip. }
  assert (dflt (event_entries e) "contentEncoding" [] = Ok (ev_content_encoding e)) as ->.
  { unfold dflt. entry_lookup. destruct (ev_content_encoding e) as [|x l] eqn:E; [done|].
    by rewrite <- E, strings_roundtrip. }
  assert (dflt (event_entries e) "payloadVersion" default_payload_version =
    Ok (ev_payload_version e)) as ->.
  { unfold dflt. entry_lookup. unfold is_default_payload_version.
    destruct (N.eqb_spec (ev_payload_version e) default_payload_version) as [->|_]; [done|].
    apply u32_roundtrip, Hwf. }
  assert (req (event_entries e) "payload" = Ok (ev_payload e)) as ->.
  { eapply req_entry; [by entry_lookup|]. unfold from_json, json_Deserialize.
    by rewrite as_value_wf by apply Hwf. }
  rewrite Hkey. unfold deserialize_non_empty_idempotency_key. cbn [from_json string_Deserialize rbind].
  destruct (String.eqb_spec (trim (ev_idempotency_key e)) EmptyString) as [He|_].
  { by apply (wf_key e Hwf) in He. }
  by destruct e.
Qed.
End event_round_trip.

Lemma Forall_opt_field {A} `{Serialize A} k (o : option A) :
  (∀ a : A, json_wf (to_json a)) → Forall json_wf (opt_field k o).*2.
Proof. destruct o; cbn; repeat constructor; auto. Qed.

Lemma Forall_skip_field {A} `{Serialize A} b k (a : A) :
  json_wf (to_json a) → Forall json_wf (skip_field b k a).*2.
Proof. destruct b; cbn; repeat constructor; auto. Qed.

#[export] Instance ShoreEvent_NonNull : SerializeNonNull ShoreEvent.
Proof. done. Qed.

Lemma event_json_wf e : json_wf (ev_payload e) → json_wf (to_json e).
Proof.
  intros Hp. apply wf_object; [apply event_entries_NoDup|]. unfold event_entries.
  rewrite !fmap_app, !Forall_app. split_and!;
    try (apply Forall_opt_field; intros x); try apply Forall_skip_field; try apply to_json_wf.
  - rewrite Forall_fmap. repeat (apply List.Forall_cons; [apply to_json_wf|]). apply List.Forall_nil.
  - unfold to_json, EventSignature_Serialize. json_wf_literal.
  - unfold to_json, SourceRef_Serialize. json_wf_literal.
  - unfold to_json, IngestProvenance_Serialize. json_wf_literal.
  - cbn. by repeat constructor.
Qed.

(** Stored bytes of an event decode to the event. *)
Lemma event_bytes_roundtrip `{JsonReaderLaws} e b :
  event_wf e → to_vec e = Ok b → from_slice b = Ok e.
Proof.
  intros Hwf [= <-]. unfold from_slice.
  rewrite read_write by apply event_json_wf, Hwf. by apply event_json_roundtrip.
Qed.

(** ** Decoded events are well formed *)

Lemma replace_entry_keys o k v k' : k' ∈ (replace_entry o k v).*1 ↔ k' = k ∨ k' ∈ o.*1.
Proof.
  induction o as [|[k1 v1] o IH]; cbn; [set_solver|].
  destruct (String.eqb_spec k1 k) as [->|]; cbn; [set_solver|].
  rewrite !elem_of_cons, IH. naive_solver.
Qed.

Lemma replace_entry_NoDup o k v : NoDup o.*1 → NoDup (replace_entry o k v).*1.
Proof.
  induction o as [|[k1 v1] o IH]; cbn; [intros _; apply NoDup_singleton|].
  intros [Hk Ho]%NoDup_cons. destruct (String.eqb_spec k1 k) as [->|Hne]; cbn; apply NoDup_cons;
    split; [done..| |by apply IH]. rewrite replace_entry_keys. naive_solver.
Qed.

Lemma replace_entry_Forall (P : json → Prop) o k v :
  Forall P o.*2 → P v → Forall P (replace_entry o k v).*2.
Proof.
  induction o as [|[k1 v1] o IH]; cbn; intros Ho Hv; [by repeat constructor|].
  apply Forall_cons in Ho as [? ?]. destruct (String.eqb k1 k); cbn; constructor; auto.
Qed.

(** [as_value] removes the repetitions. *)
Lemma as_value_is_wf v : json_wf (as_value v).
Proof.
  induction v as [|b|s|s|vs IH|o IH] using json_nested_ind; cbn; try constructor.
  - rewrite List.Forall_map. done.
  - assert (∀ acc : list (string * json), NoDup acc.*1 → NoDup (foldl (λ acc p,
      replace_entry acc p.1 p.2) acc (List.map (λ p, (p.1, as_value p.2)) o)).*1) as Hn.
    { clear IH. induction o as [|p o IHo]; intros acc Hacc; [done|]. cbn.
      by apply IHo, replace_entry_NoDup. }
    apply Hn, NoDup_nil_2.
  - assert (∀ acc : list (string * json), Forall json_wf acc.*2 → Forall json_wf (foldl (λ acc p,
      replace_entry acc p.1 p.2) acc (List.map (λ p, (p.1, as_value p.2)) o)).*2) as Hf.
    { induction IH as [|p o Hp _ IHo]; intros acc Hacc; [done|]. cbn.
      by apply IHo, replace_entry_Forall. }
    apply Hf, Forall_nil_2.
Qed.

Lemma u32_bound s n : u32_of_literal s = Some n → (n < 2 ^ 32)%N.
Proof.
  unfold u32_of_literal. destruct (String.eqb s EmptyString); [done|].
  destruct (digits_value 0 s) as [v|]; [|done]. cbn.
  destruct (v <? _)%Z eqn:E; [|done]. intros [= <-]. apply Z.ltb_lt in E. lia.
Qed.

Section decoded.
Context `{JsonReader}.

Lemma from_json_u32 v (n : N) : from_json v = Ok n → (n < 2 ^ 32)%N.
Proof.
  destruct v as [| |s| | |]; try done. unfold from_json, u32_Deserialize, ok_or.
  destruct (u32_of_literal s) as [m|] eqn:E; [|done]. intros [= <-]. by apply u32_bound in E.
Qed.

Lemma req_inv {A} `{Deserialize A} o k (a : A) : req o k = Ok a → ∃ v, from_json v = Ok a.
Proof. unfold req. destruct (json_entry o k); [eauto|done]. Qed.

Lemma opt_inv {A} `{Deserialize A} o k (a : A) : opt o k = Ok (Some a) → ∃ v, from_json v = Ok a.
Proof.
  unfold opt. destruct (json_entry o k) as [v|]; [|done].
  destruct v; try done; intros (a' & Ha & [= <-])%bind_Ok; eauto.
Qed.

Lemma event_decoded_wf v (e : ShoreEvent) : from_json v = Ok e → event_wf e.
Proof.
  unfold from_json, ShoreEvent_Deserialize. intros (o & _ & He)%bind_Ok.
  do 4 (apply bind_Ok in He as (? & ? & He)). apply bind_Ok in He as (key & Hkey & He).
  do 6 (apply bind_Ok in He as (? & _ & He)). apply bind_Ok in He as (sig & Hsig & He).
  do 3 (apply bind_Ok in He as (? & _ & He)). apply bind_Ok in He as (pv & Hpv & He).
  apply bind_Ok in He as (payload & Hp & He). injection He as <-. split; cbn.
  - destruct (json_entry o "idempotencyKey"); [|done].
    apply bind_Ok in Hkey as (w & _ & Hkey).
    destruct (String.eqb_spec (trim w) EmptyString); [done|]. by injection Hkey as <-.
  - match goal with Hv : req o "version" = Ok _ |- _ => apply req_inv in Hv as [? Hv] end.
    by eapply from_json_u32.
  - unfold dflt in Hpv. destruct (json_entry o "payloadVersion"); [by eapply from_json_u32|].
    by injection Hpv as <-.
  - intros s ->. apply opt_inv in Hsig as [w Hw].
    unfold from_json, EventSignature_Deserialize in Hw. apply bind_Ok in Hw as (o' & _ & Hw).
    apply bind_Ok in Hw as (? & _ & Hw). apply bind_Ok in Hw as (ver & Hver & Hw).
    apply bind_Ok in Hw as (? & _ & Hw). injection Hw as <-. cbn.
    apply req_inv in Hver as [? Hver]. by eapply from_json_u32.
  - apply req_inv in Hp as [w Hw]. injection Hw as <-. apply as_value_is_wf.
Qed.

Lemma event_bytes_wf b (e : ShoreEvent) : from_slice b = Ok e → event_wf e.
Proof. unfold from_slice. destruct (read_json b); [|done]. apply event_decoded_wf. Qed.
End decoded.

(** ** A reader that satisfies the laws *)

Fixpoint bits_positive (s : string) : positive :=
  match s with
  | EmptyString => xH
  | String c s => if Ascii.eqb c "0" then xO (bits_positive s) else xI (bits_positive s)
  end.

Lemma bits_positive_of p : bits_positive (positive_bits p) = p.
Proof. induction p; cbn; congruence. Qed.

Fixpoint tree_json (t : gen_tree (string + bool)) : json :=
  match t with
  | GenLeaf (inl s) => JString s
  | GenLeaf (inr b) => JBool b
  | GenNode 1 [GenLeaf (inl s)] => JNumber s
  | GenNode 2 l => JArray (List.map tree_json l)
  | GenNode 3 l => JObject (List.map (λ t, match t with
      | GenNode _ [GenLeaf (inl k); v] => (k, tree_json v)
      | _ => (EmptyString, JNull)
      end) l)
  | _ => JNull
  end.

Lemma tree_json_of v : tree_json (json_tree v) = v.
Proof.
  induction v as [|b|s|s|vs IH|o IH] using json_nested_ind; cbn [json_tree tree_json]; [done..| |];
    f_equal; rewrite List.map_map.
  - induction IH as [|v vs Hv _ IHv]; [done|]. cbn. by f_equal.
  - induction IH as [|[k v] o Hv _ IHo]; [done|]. cbn [List.map fst snd]. f_equal; [|done].
    by f_equal.
Qed.

Definition example_reader : JsonReader := {|
  read_json := λ s, tree_json <$> decode (bits_positive s);
  serde_message := λ cause, cause;
  borrows_event_type := λ _, true
|}.

Lemma example_reader_laws : @JsonReaderLaws example_digest example_reader.
Proof.
  split; [|done]. intros v _. cbn [read_json json_text example_reader example_digest].
  by rewrite bits_positive_of, decode_encode; cbn; rewrite tree_json_of.
Qed.

(** ** Property *)

Section property.
Context `{JsonReaderLaws}.

(** C35. The stored form of an event is exact.  An event with a usable key, numbers of
    their width and a value as payload is read back from its bytes as it was; whatever
    bytes decode to an event, the event is such a one, so writing it again and reading
    gives the same event. *)
Theorem event_wire_exact :
  (∀ e, event_wf e → ∃ b, to_vec e = Ok b ∧ from_slice b = Ok e) ∧
  (∀ b e, from_slice b = Ok e →
    event_wf e ∧ ∃ b', to_vec e = Ok b' ∧ from_slice b' = Ok e).
Proof.
  assert (∀ e, event_wf e → ∃ b, to_vec e = Ok b ∧ from_slice b = Ok e) as Hrt.
  { intros e Hwf. exists (json_text (to_json e)). split; [done|]. by apply event_bytes_roundtrip. }
  split; [done|]. intros b e Hb. apply event_bytes_wf in Hb. auto.
Qed.
End property.

Lemma example_event_wf : event_wf example_event.
Proof. split; [discriminate|done|done|done|]. apply wf_object; constructor. Qed.

Lemma event_wire_exact_witness : ∃ b,
  @to_vec example_digest _ _ example_event = Ok b ∧
  @from_slice example_reader _ (@ShoreEvent_Deserialize example_reader) b = Ok example_event.
Proof.
  exact (proj1 (@event_wire_exact example_digest example_reader example_reader_laws)
    example_event example_event_wf).
Defined.
