(* ===== verification/Journal.v ===== *)
(** * Durable backends ([src/src/session/store/backend])

    The journal and content-store traits as interfaces over a backend state, the
    contract their clients rely on, and the in-memory backend that meets it.  A trait
    method is a state-passing function: its result, and the state it leaves. *)

From S2P Require Import Prelude RustStr BTree Model CanonicalHash.

(** ** Stateful, fallible operations *)

Definition io (S A : Type) : Type := S → result A * S.

Definition io_bind {S A B} (m : io S A) (f : A → io S B) : io S B := λ s,
  match m s with (Ok a, s') => f a s' | (Err e, s') => (Err e, s') end.

(** A pure, fallible computation; [pure_io (Ok a)] returns [a]. *)
Definition pure_io {S A} (r : result A) : io S A := λ s, (r, s).

Notation "'let!' x := m 'in' k" := (io_bind m (λ x, k))
  (at level 200, x pattern, m at level 100, k at level 200, right associativity) : pb_scope.

(** ** Interfaces ([mod.rs]) *)

(** [src/src/storage/mod.rs]. *)
Inductive CreateOutcome := Created | AlreadyExists.
Inductive RemoveOutcome := Removed | Missing.

Record JournalEntry := { je_key_digest : string; je_bytes : string }.

Record JournalNativeCursor := {
  nc_journal_id : Z;
  nc_next_usn : Z;
  nc_directory_file_reference : Z;
  nc_volume_serial_number : Z
}.

Inductive JournalChangeStamp :=
| StampAbsent
| StampObserved (identity_sha256 change_sha256 : string) (entry_count : option Z)
    (native_cursor : option JournalNativeCursor).

#[export] Instance JournalNativeCursor_eq_dec : EqDecision JournalNativeCursor.
Proof. solve_decision. Defined.
#[export] Instance JournalChangeStamp_eq_dec : EqDecision JournalChangeStamp.
Proof. solve_decision. Defined.

Inductive JournalChangeVerdict := Stable | Changed | IndeterminateChange.

Record JournalChangeCheck := {
  cc_after : JournalChangeStamp;
  cc_verdict : JournalChangeVerdict;
  cc_native_bytes_examined : Z;
  cc_native_records_examined : Z;
  cc_relevant_file_references : list Z;
  cc_mechanism : string
}.

Definition stamp_observed `{Digest} (identity change : string) : JournalChangeStamp :=
  StampObserved (sha256_bytes_hex identity) (sha256_bytes_hex change) None None.

Definition stamp_compared (before after : JournalChangeStamp) : JournalChangeCheck :=
  {| cc_after := after;
     cc_verdict := if bool_decide (before = after) then Stable else Changed;
     cc_native_bytes_examined := 0; cc_native_records_examined := 0;
     cc_relevant_file_references := [];
     cc_mechanism := "compare native directory observations" |}.

Class Journal (S : Type) := {
  create_event_once : string → string → io S CreateOutcome;
  read_event_bytes : string → io S (option string);
  event_exists : string → io S bool;
  list_event_entries : io S (list JournalEntry);
  head_marker : io S Z;
  change_stamp : io S JournalChangeStamp
}.

Section provided.
Context {S : Type} `{Journal S}.

Definition create_record_once (logical_key bytes : string) : io S CreateOutcome :=
  create_event_once logical_key bytes.

Definition record_exists (logical_key : string) : io S bool := event_exists logical_key.

Definition list_record_entries : io S (list JournalEntry) := list_event_entries.

Definition changes_since (before : JournalChangeStamp) : io S JournalChangeCheck :=
  let! after := change_stamp in pure_io (Ok (stamp_compared before after)).
End provided.

Class ContentStore (S : Type) := {
  put_once : string → string → io S CreateOutcome;
  get : string → io S string;
  get_if_exists : string → io S (option string);
  remove : string → io S RemoveOutcome;
  list_refs : string → io S (list string)
}.

(** The content address of a record ([event_store.rs]). *)
Definition event_filename_stem `{Digest} (idempotency_key : string) : string :=
  sha256_bytes_hex idempotency_key.

Definition entry_cmp (a b : JournalEntry) : comparison :=
  String.compare (je_key_digest a) (je_key_digest b).

(** ** The contract

    What a journal client may rely on: the records form a map that only grows, reads
    neither fail nor change it, a listing has every record once, by digest. *)
Class JournalView (S : Type) := carriers : S → gmap string string.

Definition entry_of `{Digest} (p : string * string) : JournalEntry :=
  {| je_key_digest := event_filename_stem p.1; je_bytes := p.2 |}.

Lemma address_inj `{Digest} a b :
  sha256_bytes_hex a = sha256_bytes_hex b → a = b ∨ hash_collision a b.
Proof.
  intros Heq%hex_lower_inj. destruct (decide (a = b)); [by left|right; by split].
Qed.

Class JournalLaws (S : Type) `{Digest} `{Journal S} `{JournalView S} : Prop := {
  create_law key bytes (s : S) :
    let r := create_event_once key bytes s in
    match carriers s !! key with
    | None => r.1 = Ok Created ∧ carriers r.2 = <[key := bytes]> (carriers s)
    | Some _ => r.1 = Ok AlreadyExists ∧ carriers r.2 = carriers s
    end;
  read_law key (s : S) :
    (read_event_bytes key s).1 = Ok (carriers s !! key) ∧
    carriers (read_event_bytes key s).2 = carriers s;
  exists_law key (s : S) :
    (event_exists key s).1 = Ok (bool_decide (is_Some (carriers s !! key))) ∧
    carriers (event_exists key s).2 = carriers s;
  list_law (s : S) : ∃ l,
    (list_event_entries s).1 = Ok l ∧ carriers (list_event_entries s).2 = carriers s ∧
    l ≡ₚ entry_of <$> map_to_list (carriers s) ∧ StronglySorted (cmp_le entry_cmp) l;
  head_law (s : S) :
    (head_marker s).1 = Ok (Z.of_nat (size (carriers s)) mod 2 ^ 64)%Z ∧
    carriers (head_marker s).2 = carriers s
}.

(** ** The in-memory backend ([memory.rs]) *)

Module Memory.

(** The counters are observed by tests only; the generation is a 64-bit counter. *)
Record InMemoryStore := {
  events : gmap string string;
  blobs : gmap string string;
  list_event_entries_calls : Z;
  read_event_bytes_calls : Z;
  stamp_identity : Z;
  stamp_generation : Z
}.

(** [InMemoryStore::default], with the identity the process counter handed out. *)
Definition new (identity : Z) : InMemoryStore :=
  {| events := ∅; blobs := ∅; list_event_entries_calls := 0; read_event_bytes_calls := 0;
     stamp_identity := identity; stamp_generation := 0 |}.

(** [AtomicU64::fetch_add(1)], and [AtomicUsize] on a 64-bit target. *)
Definition bump (n : Z) : Z := ((n + 1) mod 2 ^ 64)%Z.

Definition set_events (s : InMemoryStore) (x : gmap string string) : InMemoryStore :=
  {| events := x; blobs := blobs s; list_event_entries_calls := list_event_entries_calls s;
     read_event_bytes_calls := read_event_bytes_calls s; stamp_identity := stamp_identity s;
     stamp_generation := bump (stamp_generation s) |}.

Definition set_blobs (s : InMemoryStore) (x : gmap string string) : InMemoryStore :=
  {| events := events s; blobs := x; list_event_entries_calls := list_event_entries_calls s;
     read_event_bytes_calls := read_event_bytes_calls s; stamp_identity := stamp_identity s;
     stamp_generation := stamp_generation s |}.

Definition count_read (s : InMemoryStore) : InMemoryStore :=
  {| events := events s; blobs := blobs s; list_event_entries_calls := list_event_entries_calls s;
     read_event_bytes_calls := bump (read_event_bytes_calls s);
     stamp_identity := stamp_identity s; stamp_generation := stamp_generation s |}.

Definition count_list (s : InMemoryStore) : InMemoryStore :=
  {| events := events s; blobs := blobs s;
     list_event_entries_calls := bump (list_event_entries_calls s);
     read_event_bytes_calls := read_event_bytes_calls s;
     stamp_identity := stamp_identity s; stamp_generation := stamp_generation s |}.

(** [u64::to_le_bytes]. *)
Fixpoint le_bytes (count : nat) (n : Z) : string :=
  match count with
  | O => EmptyString
  | S count => String (ascii_of_N (Z.to_N (n mod 256))) (le_bytes count (n / 256))
  end.

Section journal.
Context `{Digest}.

#[export] Instance InMemoryJournal : Journal InMemoryStore := {|
  create_event_once key bytes s :=
    match events s !! key with
    | None => (Ok Created, set_events s (<[key := bytes]> (events s)))
    | Some _ => (Ok AlreadyExists, s)
    end;
  read_event_bytes key s := (Ok (events s !! key), count_read s);
  event_exists key s := (Ok (bool_decide (is_Some (events s !! key))), s);
  list_event_entries s :=
    (Ok (sort_by entry_cmp (entry_of <$> map_to_list (events s))), count_list s);
  head_marker s := (Ok (Z.of_nat (size (events s)) mod 2 ^ 64)%Z, s);
  change_stamp s :=
    (Ok (stamp_observed (le_bytes 8 (stamp_identity s)) (le_bytes 8 (stamp_generation s))), s)
|}.
End journal.

(** [<prefix>/<name>] with no further slash. *)
Definition is_immediate_child (key prefix : string) : bool :=
  match strip_prefix prefix key with
  | None => false
  | Some rest =>
      match strip_prefix "/" rest with
      | None => false
      | Some name => negb (String.eqb name EmptyString) && negb (contains_char "/" name)
      end
  end.

#[export] Instance InMemoryContentStore : ContentStore InMemoryStore := {|
  put_once content_ref bytes s :=
    match blobs s !! content_ref with
    | None => (Ok Created, set_blobs s (<[content_ref := bytes]> (blobs s)))
    | Some _ => (Ok AlreadyExists, s)
    end;
  get content_ref s :=
    (ok_or (blobs s !! content_ref) (Message ("missing in-memory blob " +:+ content_ref)), s);
  get_if_exists content_ref s := (Ok (blobs s !! content_ref), s);
  remove content_ref s :=
    match blobs s !! content_ref with
    | Some _ => (Ok Removed, set_blobs s (delete content_ref (blobs s)))
    | None => (Ok Missing, s)
    end;
  list_refs prefix s :=
    (Ok (sort_by String.compare
      (List.filter (λ key, is_immediate_child key prefix) (map_to_list (blobs s)).*1)), s)
|}.

#[export] Instance InMemoryView : JournalView InMemoryStore := events.

#[export] Instance entry_cmp_total : TotalCmp entry_cmp.
Proof.
  unfold entry_cmp. split; intros *; pose proof string_compare_strict as [[]]; eauto.
Qed.

(** The in-memory journal meets the contract. *)
#[export] Instance InMemoryLaws `{Digest} : JournalLaws InMemoryStore.
Proof.
  split.
  - intros key bytes s. cbn. unfold carriers, InMemoryView. by destruct (events s !! key).
  - done.
  - done.
  - intros s. eexists. split_and!; [reflexivity|done| |].
    + apply sort_by_Permutation.
    + apply sort_by_sorted. apply _.
  - done.
Qed.
End Memory.
