(* ===== verification/EventCodec.v ===== *)
(** * Decoding and validating stored events ([src/src/session/store/event_store.rs])

    The reader side of the event store that needs no journal: envelope validation, the
    probes for retired encodings, and the check that a record sits at its address. *)

From S2P Require Import Prelude RustStr BTree Model CanonicalHash Crypto Events Wire Journal.

(** The single table of retired identifiers. *)
Definition schema_break_for (retired : string) : option SchemaBreakRecord :=
  let break_at anchor := Some {| retired := retired; broken_at := "0.1"; anchor := anchor |} in
  if String.eqb retired "review_disposition_recorded" then
    break_at "docs/assessment-model.md#legacy-disposition-events"
  else if String.eqb retired "intervention_requested" ||
      String.eqb retired "intervention_resolved" then
    break_at "docs/input-request-model.md#legacy-intervention-events"
  else if String.eqb retired "writer.role" then
    break_at "docs/storage-model.md#legacy-writer-role-events"
  else if String.eqb retired "writer.tool" then
    break_at "docs/storage-model.md#legacy-writer-tool-events"
  else if String.eqb retired "eventType.snake_case" || String.eqb retired "target.subject" then
    break_at "docs/store-migration.md#1-a-fail-loud-strict-reader-not-a-dual-read"
  else None.

(** [schema_break_for(..).expect(..)]. *)
Definition expect_break (o : option SchemaBreakRecord) (message : string)
    : result SchemaBreakRecord :=
  ok_or o (Panicked message).

Definition filename_idempotency_mismatch (idempotency_key : string) : ShoreError :=
  Message ("event filename does not match idempotencyKey for " +:+ idempotency_key).

#[export] Instance EventSignature_eq_dec : EqDecision EventSignature.
Proof. solve_decision. Defined.

Definition event_signature_binding_matches (existing candidate : ShoreEvent) : bool :=
  bool_decide (ev_signer existing = ev_signer candidate) &&
  bool_decide (ev_signature existing = ev_signature candidate).

Section validation.
Context `{Digest}.

(** [validate_event]; [stem] is the file stem of the path, where the caller has one. *)
Definition validate_event (event : ShoreEvent) (stem : option string) : result unit :=
  let? _ := validate_schema_version event in
  if bool_decide (ev_event_type event = ReviewAssessmentRecorded) &&
      negb (bool_decide (ev_assertion_mode event = Operative)) then
    Err (InvalidEvent "review_assessment_recorded events must use assertionMode Operative")
  else
  let expected_event_id := EVENT +:+ ":sha256:" +:+ sha256_bytes_hex (ev_idempotency_key event) in
  if negb (String.eqb (ev_event_id event) expected_event_id) then
    Err (Message ("eventId mismatch for idempotency key " +:+ ev_idempotency_key event))
  else
  let? expected_payload_hash := sha256_json_prefixed (ev_payload event) in
  if negb (String.eqb (ev_payload_hash event) expected_payload_hash) then
    Err (Message ("payloadHash mismatch for event " +:+ ev_event_id event))
  else
  match stem with
  | Some stem =>
      if negb (String.eqb stem (event_filename_stem (ev_idempotency_key event))) then
        Err (filename_idempotency_mismatch (ev_idempotency_key event))
      else Ok ()
  | None => Ok ()
  end.
End validation.

(** The probe read before the full decode: the event type, and whether the retired
    fields are present. *)
Record EnvelopeProbe := {
  ep_event_type : string;
  ep_role : bool;
  ep_tool : bool;
  ep_subject : bool
}.

Section decoding.
Context `{Digest} `{JsonReader}.

(** [Option<IgnoredAny>]. *)
Definition present (o : list (string * json)) (k : string) : bool :=
  match json_entry o k with None | Some JNull => false | Some _ => true end.

Definition writer_probe (v : json) : result (bool * bool) :=
  let? o := struct_entries ["role"; "tool"] 2 v in Ok (present o "role", present o "tool").

Definition target_probe (v : json) : result bool :=
  let? o := struct_entries ["subject"] 1 v in Ok (present o "subject").

Definition envelope_probe (bytes : string) : result EnvelopeProbe :=
  match read_json bytes with
  | None => de_error "syntax"
  | Some v =>
      let? o := struct_entries ["eventType"; "writer"; "target"] 1 v in
      let? event_type := req o "eventType" in
      if negb (borrows_event_type bytes) then de_error "expected a borrowed string"
      else
      let? writer :=
        match json_entry o "writer" with Some v => writer_probe v | None => Ok (false, false) end in
      let? subject :=
        match json_entry o "target" with Some v => target_probe v | None => Ok false end in
      Ok {| ep_event_type := event_type; ep_role := writer.1; ep_tool := writer.2;
            ep_subject := subject |}
  end.

Definition decode_validated_event (bytes : string) (stem : option string) : result ShoreEvent :=
  let? probe := envelope_probe bytes in
  match schema_break_for (ep_event_type probe) with
  | Some record => Err (UnsupportedEventType record)
  | None =>
  match event_type_from_code (ep_event_type probe) with
  | None =>
      let? record := expect_break (schema_break_for "eventType.snake_case")
        "the pre-opaque-code event-type encoding has a break record" in
      Err (UnsupportedEventType record)
  | Some _ =>
  if ep_subject probe then
    let? record := expect_break (schema_break_for "target.subject")
      "the pre-opaque-code structural subject has a break record" in
    Err (UnsupportedEventEnvelope record)
  else if ep_role probe then
    let? record := expect_break (schema_break_for "writer.role") "writer.role has a break record" in
    Err (UnsupportedEventEnvelope record)
  else if ep_tool probe then
    let? record := expect_break (schema_break_for "writer.tool") "writer.tool has a break record" in
    Err (UnsupportedEventEnvelope record)
  else
  let? event := from_slice bytes in
  let? _ := validate_event event stem in
  Ok event
  end
  end.

Definition decode_validated_entry (entry : JournalEntry) : result ShoreEvent :=
  let? event := decode_validated_event (je_bytes entry) None in
  if negb (String.eqb (event_filename_stem (ev_idempotency_key event)) (je_key_digest entry)) then
    Err (filename_idempotency_mismatch (ev_idempotency_key event))
  else Ok event.

Definition decode_qualification_entry (key_digest bytes : string) : result ShoreEvent :=
  decode_validated_entry {| je_key_digest := key_digest; je_bytes := bytes |}.
End decoding.

(** ** Facts about decoding *)

Lemma type_code_supported ty : schema_break_for (type_code ty) = None.
Proof. by destruct ty. Qed.

Lemma type_code_decodes ty : event_type_from_code (type_code ty) = Some ty.
Proof. by destruct ty. Qed.

Section facts.
Context `{Digest} `{JsonReader}.

(** What a decoded event satisfies. *)
Lemma decode_sound bytes stem e :
  decode_validated_event bytes stem = Ok e → from_slice bytes = Ok e ∧ validate_event e stem = Ok ().
Proof.
  unfold decode_validated_event. intros (probe & _ & Hd)%bind_Ok.
  destruct (schema_break_for (ep_event_type probe)); [done|].
  destruct (event_type_from_code (ep_event_type probe)); [|done].
  destruct (ep_subject probe); [done|]. destruct (ep_role probe); [done|].
  destruct (ep_tool probe); [done|].
  apply bind_Ok in Hd as (e' & He' & ([] & Hv & [= <-])%bind_Ok). done.
Qed.

Lemma decode_entry_sound entry e :
  decode_validated_entry entry = Ok e →
  from_slice (je_bytes entry) = Ok e ∧ validate_event e None = Ok () ∧
  je_key_digest entry = event_filename_stem (ev_idempotency_key e).
Proof.
  unfold decode_validated_entry. intros (e' & [H1 H2]%decode_sound & Hd)%bind_Ok.
  destruct (String.eqb_spec (event_filename_stem (ev_idempotency_key e')) (je_key_digest entry)) as [Hk|];
    [|done]. by injection Hd as <-.
Qed.

(** A validated event is addressed by its key and hashes its payload. *)
Lemma validate_event_inv e stem :
  validate_event e stem = Ok () →
  ev_event_id e = event_id_for_idempotency_key (ev_idempotency_key e) ∧
  ev_payload_hash e = json_digest (ev_payload e) ∧ ev_schema e = EVENT_SCHEMA ∧
  ev_version e = EVENT_VERSION ∧
  (ev_event_type e = ReviewAssessmentRecorded → ev_assertion_mode e = Operative).
Proof.
  unfold validate_event. intros ([] & Hs & Hv)%bind_Ok. unfold validate_schema_version in Hs.
  destruct (_ && _) eqn:E in Hs; [|done]. apply andb_true_iff in E as [->%String.eqb_eq ->%N.eqb_eq].
  destruct (bool_decide _ && _) eqn:E in Hv; [done|].
  destruct (String.eqb_spec (ev_event_id e)
    (EVENT +:+ ":sha256:" +:+ sha256_bytes_hex (ev_idempotency_key e))) as [Hid|]; [|done].
  cbn [negb] in Hv. apply bind_Ok in Hv as (h & Hh & Hv).
  change (sha256_json_prefixed (ev_payload e)) with (Ok (E:=ShoreError) (json_digest (ev_payload e))) in Hh.
  apply Ok_eq in Hh. destruct (String.eqb_spec (ev_payload_hash e) h); [|done].
  split_and!; [done|congruence|done|done|]. intros Hty. rewrite bool_decide_eq_true_2 in E by done.
  cbn in E. by apply negb_false_iff, bool_decide_eq_true in E.
Qed.

Lemma validate_event_stem e stem :
  validate_event e None = Ok () →
  validate_event e (Some stem) = Ok () ↔ stem = event_filename_stem (ev_idempotency_key e).
Proof.
  intros Hv. unfold validate_event in *. destruct (validate_schema_version e); [|done].
  cbn [rbind] in *. destruct (bool_decide _ && _); [done|]. destruct (negb _); [done|].
  destruct (sha256_json_prefixed (ev_payload e)); [|done]. cbn [rbind] in *.
  destruct (negb _); [done|]. destruct (String.eqb_spec stem
    (event_filename_stem (ev_idempotency_key e))); cbn; split; congruence.
Qed.
End facts.

Section own_bytes.
Context `{JsonReaderLaws}.

(** The store reads back what it writes. *)
Lemma decode_own e b :
  event_wf e → validate_event e None = Ok () → to_vec e = Ok b →
  decode_validated_event b None = Ok e.
Proof.
  intros Hwf Hv Hb. pose proof (event_bytes_roundtrip e b Hwf Hb) as Hrt.
  injection Hb as <-. unfold decode_validated_event.
  assert (envelope_probe (json_text (to_json e)) = Ok {| ep_event_type := type_code (ev_event_type e);
    ep_role := false; ep_tool := false; ep_subject := false |}) as ->.
  { unfold envelope_probe. rewrite read_write by apply event_json_wf, Hwf.
    unfold to_json, ShoreEvent_Serialize. rewrite struct_object by apply event_entries_NoDup.
    cbn [rbind].
    assert (req (event_entries e) "eventType" = Ok (type_code (ev_event_type e))) as ->.
    { eapply req_entry; [by entry_lookup|done]. }
    cbn [rbind]. rewrite (borrows_code _ (ev_event_type e)) by by entry_lookup. cbn [negb].
    assert (json_entry (event_entries e) "writer" = Some (to_json (ev_writer e))) as ->
      by by entry_lookup.
    assert (json_entry (event_entries e) "target" = Some (to_json (ev_target e))) as ->
      by by entry_lookup.
    by destruct (ev_target e) as [j [s|] [t|]], (ev_writer e) as [a [n v]]. }
  cbn [rbind ep_event_type ep_subject ep_role ep_tool].
  rewrite type_code_supported, type_code_decodes, Hrt. cbn [rbind]. by rewrite Hv.
Qed.

Lemma decode_own_entry e b :
  event_wf e → validate_event e None = Ok () → to_vec e = Ok b →
  decode_validated_entry (entry_of (ev_idempotency_key e, b)) = Ok e.
Proof.
  intros Hwf Hv Hb. unfold decode_validated_entry, entry_of. cbn [je_bytes je_key_digest fst snd].
  rewrite (decode_own e b Hwf Hv Hb). cbn [rbind]. by rewrite String.eqb_refl.
Qed.
End own_bytes.
