(* ===== verification/Capabilities.v ===== *)
(** * Store capabilities ([src/src/session/store/capabilities.rs])

    The signed control records that take a store through its migration, their wire
    form and validation, the frozen manifest they name, and the authority cursor. *)

From S2P Require Import Prelude RustStr BTree Model CanonicalHash Crypto Events Wire Journal EventCodec.

(** ** Names and the frozen manifest *)

Definition REVIEW_CHANGE_REVISION_COHORT_V1 : string := "review_change_revision_v1".
Definition CAPABILITY_MANIFEST_SCHEMA_V1 : string := "pointbreak.logical-capability-manifest".
Definition ACTIVATION_SCHEMA_V1 : string := "pointbreak.store-capability-activation".
Definition COMPLETION_SCHEMA_V1 : string := "pointbreak.bulk-adoption-completion".
Definition BULK_MANIFEST_SCHEMA_V1 : string := "pointbreak.bulk-adoption-manifest".
Definition AUTHORITY_CURSOR_SCHEMA_V2 : string := "pointbreak.authority-cursor.v2".
Definition CAPABILITY_SET_SCHEMA_V1 : string := "pointbreak.capability-set.v1".
Definition JOURNAL_RECORD_SET_SCHEMA_V1 : string := "pointbreak.journal-record-set.v1".
Definition EVENT_SET_SCHEMA_V1 : string := "shore.event-set.v1".
Definition ACTIVATION_TBS_SCHEMA_V1 : string := "pointbreak.store-capability-activation-tbs".
Definition COMPLETION_TBS_SCHEMA_V1 : string := "pointbreak.bulk-adoption-completion-tbs".
Definition ACTIVATION_TBS_PAYLOAD_TYPE_V1 : string :=
  "application/vnd.pointbreak.store-capability-activation-tbs.v1+json".
Definition COMPLETION_TBS_PAYLOAD_TYPE_V1 : string :=
  "application/vnd.pointbreak.bulk-adoption-completion-tbs.v1+json".
Definition ROOT_ACTIVATION_LOGICAL_KEY_V1 : string :=
  "store_capability_activation:review_change_revision_v1:root".

Definition REVIEW_CHANGE_REVISION_REQUIRED_CAPABILITIES_V1 : list string :=
  ["auxiliary_document_blob_v1"; "auxiliary_document_manifest_v1"; "relation_proof_v1";
   "review_fact_port_v1"; "revision_relation_attestation_v1"; "stable_change_membership_v1"].

Record RecordFamilyReservationV1 := {
  rf_name : string;
  rf_event_type_code : string;
  rf_payload_schema : string;
  rf_payload_version : N
}.

Definition family (name code schema : string) : RecordFamilyReservationV1 :=
  {| rf_name := name; rf_event_type_code := code; rf_payload_schema := schema;
     rf_payload_version := 1 |}.

Definition REVIEW_CHANGE_REVISION_RECORD_FAMILIES_V1 : list RecordFamilyReservationV1 :=
  [family "change_declared_v1" "t:17" "pointbreak.change-declared";
   family "change_membership_asserted_v1" "t:18" "pointbreak.change-membership-asserted";
   family "change_membership_withdrawn_v1" "t:19" "pointbreak.change-membership-withdrawn";
   family "change_link_asserted_v1" "t:20" "pointbreak.change-link-asserted";
   family "change_revision_relation_asserted_v1" "t:21"
     "pointbreak.change-revision-relation-asserted";
   family "change_revision_relation_withdrawn_v1" "t:22"
     "pointbreak.change-revision-relation-withdrawn";
   family "revision_relation_attested_v1" "t:23" "pointbreak.revision-relation-attested";
   family "review_fact_ported_v1" "t:24" "pointbreak.review-fact-ported"].

Record DocumentVersionReservationV1 := { dv_schema : string; dv_version : N }.

Definition document (schema : string) (version : N) : DocumentVersionReservationV1 :=
  {| dv_schema := schema; dv_version := version |}.

Definition READER_PROFILE_DOCUMENT_VERSIONS_V1 : list DocumentVersionReservationV1 :=
  [document "pointbreak.inspect-reader-profile" 1; document "pointbreak.review-change-list" 1;
   document "pointbreak.inspect-changes-page" 1; document "pointbreak.review-change" 1;
   document "pointbreak.review-change-revision" 1; document "pointbreak.review-revision" 3;
   document "pointbreak.review-revision-resource" 1;
   document "pointbreak.review-association-comparison" 1;
   document "pointbreak.review-revision-interdiff" 1; document "pointbreak.attention-list" 2;
   document "pointbreak.inspect-attention" 2; document "pointbreak.reader-upgrade-required" 1].

Record ReviewChangeRevisionManifestV1 := {
  rm_schema : string;
  rm_version : N;
  rm_cohort : string;
  rm_minimum_reader_profile : string;
  rm_required_capabilities : list string;
  rm_record_families : list RecordFamilyReservationV1
}.

Definition canonical_manifest : ReviewChangeRevisionManifestV1 :=
  {| rm_schema := CAPABILITY_MANIFEST_SCHEMA_V1; rm_version := 1;
     rm_cohort := REVIEW_CHANGE_REVISION_COHORT_V1;
     rm_minimum_reader_profile := REVIEW_CHANGE_REVISION_COHORT_V1;
     rm_required_capabilities := REVIEW_CHANGE_REVISION_REQUIRED_CAPABILITIES_V1;
     rm_record_families := REVIEW_CHANGE_REVISION_RECORD_FAMILIES_V1 |}.

#[export] Instance RecordFamily_Serialize : Serialize RecordFamilyReservationV1 := λ r,
  JObject [("name", to_json (rf_name r)); ("eventTypeCode", to_json (rf_event_type_code r));
           ("payloadSchema", to_json (rf_payload_schema r));
           ("payloadVersion", to_json (rf_payload_version r))].
#[export] Instance Manifest_Serialize : Serialize ReviewChangeRevisionManifestV1 := λ m,
  JObject [("schema", to_json (rm_schema m)); ("version", to_json (rm_version m));
           ("cohort", to_json (rm_cohort m));
           ("minimumReaderProfile", to_json (rm_minimum_reader_profile m));
           ("requiredCapabilities", to_json (rm_required_capabilities m));
           ("recordFamilies", to_json (rm_record_families m))].

Definition REVIEW_CHANGE_REVISION_MANIFEST_HASH_V1 : string :=
  "sha256:3ed9b86dfba44b448df98090073dced4a67d26e37e1f71276ce07ff1c5bbb948".

(** ** Errors and shape checks *)

Definition capability_error {A} (message : string) : result A :=
  Err (Message ("unsupported Pointbreak store capability state: " +:+ message)).

(** [Debug] of a string, with the escapes of ASCII characters. *)
Definition debug_char (c : ascii) : string :=
  let code := byte_val c in
  if (code =? 34)%Z then String "\" (String c EmptyString)
  else if (code =? 92)%Z then "\\"
  else if (code =? 10)%Z then "\n"
  else if (code =? 13)%Z then "\r"
  else if (code =? 9)%Z then "\t"
  else if (code =? 0)%Z then "\0"
  else if (code <? 16)%Z then "\u{" +:+ String (hex_at code) "}"
  else if ((code <? 32) || (code =? 127))%Z then "\u{" +:+ hex_lower (String c EmptyString) +:+ "}"
  else String c EmptyString.

Fixpoint debug_chars (s : string) : string :=
  match s with EmptyString => EmptyString | String c s => debug_char c +:+ debug_chars s end.

Definition str_debug (s : string) : string :=
  let quote := String "034"%char EmptyString in quote +:+ debug_chars s +:+ quote.

Definition is_lower_hex_sha256 (value : string) : bool :=
  (String.length value =? 64) && all_bytes is_lower_hex value.

Fixpoint adjacent {A} (test : A → A → bool) (l : list A) : bool :=
  match l with
  | x :: (y :: _) as l' => test x y || adjacent test l'
  | _ => false
  end.

Definition ensure_sorted_unique_by {A} (values : list A) (key : A → string) (label : string)
    : result unit :=
  if adjacent (λ x y, match String.compare (key x) (key y) with Lt => false | _ => true end) values
  then capability_error (label +:+ " must be sorted and unique") else Ok ().

Definition ensure_sorted_unique (values : list string) (label : string) : result unit :=
  ensure_sorted_unique_by values id label.

Definition supported_capabilities : list string := REVIEW_CHANGE_REVISION_REQUIRED_CAPABILITIES_V1.

Definition is_reserved_event_code (code : string) : bool :=
  existsb (λ family, String.eqb (rf_event_type_code family) code)
    REVIEW_CHANGE_REVISION_RECORD_FAMILIES_V1.

Definition is_known_or_reserved_event_code (code : string) : bool :=
  bool_decide (is_Some (event_type_from_code code)) || is_reserved_event_code code.

(** ** Control records *)

Record AuthorityCursorV2 := {
  ac_schema : string;
  ac_journal_record_count : N;
  ac_event_count : N;
  ac_journal_record_set_hash : string;
  ac_event_set_hash : string;
  ac_capability_set_hash : string
}.

Record ReservedCohortRecordV1 := {
  rc_logical_key : string;
  rc_record_family : string;
  rc_record_hash : string
}.

Record BulkAdoptionManifestV1 := {
  bm_schema : string;
  bm_version : N;
  bm_cohort_manifest_hash : string;
  bm_source_authority_cursor : AuthorityCursorV2;
  bm_reserved_records : list ReservedCohortRecordV1
}.

Record JournalRecordSignatureV1 := {
  js_alg : string;
  js_sig_version : N;
  js_sig : EventSignatureBytes
}.

Record StoreCapabilityActivationV1 := {
  act_schema : string;
  act_version : N;
  act_activation_id : string;
  act_nonce : string;
  act_predecessor_activation_id : option string;
  act_cohort_manifest_hash : string;
  act_minimum_reader_profile : string;
  act_required_capabilities : list string;
  act_bulk_adoption_manifest_hash : string;
  act_bulk_adoption_manifest : BulkAdoptionManifestV1;
  act_writer : Writer;
  act_occurred_at : string;
  act_signer : SignerId;
  act_signature : JournalRecordSignatureV1
}.

Record BulkAdoptionCompletionV1 := {
  com_schema : string;
  com_version : N;
  com_completion_id : string;
  com_activation_id : string;
  com_bulk_adoption_manifest_hash : string;
  com_covered_record_set_hash : string;
  com_writer : Writer;
  com_occurred_at : string;
  com_signer : SignerId;
  com_signature : JournalRecordSignatureV1
}.

(** *** Documents *)

#[export] Instance AuthorityCursorV2_Serialize : Serialize AuthorityCursorV2 := λ c,
  JObject [("schema", to_json (ac_schema c));
    ("journalRecordCount", to_json (ac_journal_record_count c));
    ("eventCount", to_json (ac_event_count c));
    ("journalRecordSetHash", to_json (ac_journal_record_set_hash c));
    ("eventSetHash", to_json (ac_event_set_hash c));
    ("capabilitySetHash", to_json (ac_capability_set_hash c))].

#[export] Instance ReservedCohortRecordV1_Serialize : Serialize ReservedCohortRecordV1 := λ r,
  JObject [("logicalKey", to_json (rc_logical_key r)); ("recordFamily", to_json (rc_record_family r));
    ("recordHash", to_json (rc_record_hash r))].

#[export] Instance BulkAdoptionManifestV1_Serialize : Serialize BulkAdoptionManifestV1 := λ m,
  JObject [("schema", to_json (bm_schema m)); ("version", to_json (bm_version m));
    ("cohortManifestHash", to_json (bm_cohort_manifest_hash m));
    ("sourceAuthorityCursor", to_json (bm_source_authority_cursor m));
    ("reservedRecords", to_json (bm_reserved_records m))].

#[export] Instance JournalRecordSignatureV1_Serialize : Serialize JournalRecordSignatureV1 := λ s,
  JObject [("alg", to_json (js_alg s)); ("sigVersion", to_json (js_sig_version s));
    ("sig", to_json (js_sig s))].

#[export] Instance Activation_Serialize : Serialize StoreCapabilityActivationV1 := λ a,
  JObject ([("schema", to_json (act_schema a)); ("version", to_json (act_version a));
    ("activationId", to_json (act_activation_id a)); ("nonce", to_json (act_nonce a))] ++
    opt_field "predecessorActivationId" (act_predecessor_activation_id a) ++
    [("cohortManifestHash", to_json (act_cohort_manifest_hash a));
     ("minimumReaderProfile", to_json (act_minimum_reader_profile a));
     ("requiredCapabilities", to_json (act_required_capabilities a));
     ("bulkAdoptionManifestHash", to_json (act_bulk_adoption_manifest_hash a));
     ("bulkAdoptionManifest", to_json (act_bulk_adoption_manifest a));
     ("writer", to_json (act_writer a)); ("occurredAt", to_json (act_occurred_at a));
     ("signer", to_json (act_signer a)); ("signature", to_json (act_signature a))]).

#[export] Instance Completion_Serialize : Serialize BulkAdoptionCompletionV1 := λ c,
  JObject [("schema", to_json (com_schema c)); ("version", to_json (com_version c));
    ("completionId", to_json (com_completion_id c)); ("activationId", to_json (com_activation_id c));
    ("bulkAdoptionManifestHash", to_json (com_bulk_adoption_manifest_hash c));
    ("coveredRecordSetHash", to_json (com_covered_record_set_hash c));
    ("writer", to_json (com_writer c)); ("occurredAt", to_json (com_occurred_at c));
    ("signer", to_json (com_signer c)); ("signature", to_json (com_signature c))].

Section control_decoders.
Context `{JsonReader}.

(** An unsigned integer below [2^64]. *)
Definition u64_of_literal (s : string) : option N :=
  if String.eqb s EmptyString then None
  else v ← digits_value 0 s; if (v <? 2 ^ 64)%Z then Some (Z.to_N v) else None.

Definition req_u64 (o : list (string * json)) (k : string) : result N :=
  match json_entry o k with
  | Some (JNumber s) => ok_or (u64_of_literal s) (Json (serde_message "invalid number"))
  | Some _ => de_error "invalid type"
  | None => de_error "missing field"
  end.

(** A derived struct decoder with [deny_unknown_fields]. *)
Definition strict_entries (keys : list string) (least : nat) (v : json)
    : result (list (string * json)) :=
  let? o := struct_entries keys least v in
  let? _ := deny_unknown keys o in
  Ok o.

#[export] Instance AuthorityCursorV2_Deserialize : Deserialize AuthorityCursorV2 := λ v,
  let? o := strict_entries ["schema"; "journalRecordCount"; "eventCount"; "journalRecordSetHash";
    "eventSetHash"; "capabilitySetHash"] 6 v in
  let? schema := req o "schema" in
  let? journal_record_count := req_u64 o "journalRecordCount" in
  let? event_count := req_u64 o "eventCount" in
  let? journal_record_set_hash := req o "journalRecordSetHash" in
  let? event_set_hash := req o "eventSetHash" in
  let? capability_set_hash := req o "capabilitySetHash" in
  Ok {| ac_schema := schema; ac_journal_record_count := journal_record_count;
        ac_event_count := event_count; ac_journal_record_set_hash := journal_record_set_hash;
        ac_event_set_hash := event_set_hash; ac_capability_set_hash := capability_set_hash |}.

#[export] Instance ReservedCohortRecordV1_Deserialize : Deserialize ReservedCohortRecordV1 := λ v,
  let? o := strict_entries ["logicalKey"; "recordFamily"; "recordHash"] 3 v in
  let? logical_key := req o "logicalKey" in
  let? record_family := req o "recordFamily" in
  let? record_hash := req o "recordHash" in
  Ok {| rc_logical_key := logical_key; rc_record_family := record_family;
        rc_record_hash := record_hash |}.

#[export] Instance BulkAdoptionManifestV1_Deserialize : Deserialize BulkAdoptionManifestV1 := λ v,
  let? o := strict_entries ["schema"; "version"; "cohortManifestHash"; "sourceAuthorityCursor";
    "reservedRecords"] 5 v in
  let? schema := req o "schema" in
  let? version := req o "version" in
  let? cohort_manifest_hash := req o "cohortManifestHash" in
  let? source_authority_cursor := req o "sourceAuthorityCursor" in
  let? reserved_records := req o "reservedRecords" in
  Ok {| bm_schema := schema; bm_version := version;
        bm_cohort_manifest_hash := cohort_manifest_hash;
        bm_source_authority_cursor := source_authority_cursor;
        bm_reserved_records := reserved_records |}.

#[export] Instance JournalRecordSignatureV1_Deserialize
    : Deserialize JournalRecordSignatureV1 := λ v,
  let? o := strict_entries ["alg"; "sigVersion"; "sig"] 3 v in
  let? alg := req o "alg" in
  let? sig_version := req o "sigVersion" in
  let? sig := req o "sig" in
  Ok {| js_alg := alg; js_sig_version := sig_version; js_sig := sig |}.

#[export] Instance Activation_Deserialize : Deserialize StoreCapabilityActivationV1 := λ v,
  let? o := strict_entries ["schema"; "version"; "activationId"; "nonce";
    "predecessorActivationId"; "cohortManifestHash"; "minimumReaderProfile";
    "requiredCapabilities"; "bulkAdoptionManifestHash"; "bulkAdoptionManifest"; "writer";
    "occurredAt"; "signer"; "signature"] 14 v in
  let? schema := req o "schema" in
  let? version := req o "version" in
  let? activation_id := req o "activationId" in
  let? nonce := req o "nonce" in
  let? predecessor_activation_id := opt o "predecessorActivationId" in
  let? cohort_manifest_hash := req o "cohortManifestHash" in
  let? minimum_reader_profile := req o "minimumReaderProfile" in
  let? required_capabilities := req o "requiredCapabilities" in
  let? bulk_adoption_manifest_hash := req o "bulkAdoptionManifestHash" in
  let? bulk_adoption_manifest := req o "bulkAdoptionManifest" in
  let? writer := req o "writer" in
  let? occurred_at := req o "occurredAt" in
  let? signer := req o "signer" in
  let? signature := req o "signature" in
  Ok {| act_schema := schema; act_version := version; act_activation_id := activation_id;
        act_nonce := nonce; act_predecessor_activation_id := predecessor_activation_id;
        act_cohort_manifest_hash := cohort_manifest_hash;
        act_minimum_reader_profile := minimum_reader_profile;
        act_required_capabilities := required_capabilities;
        act_bulk_adoption_manifest_hash := bulk_adoption_manifest_hash;
        act_bulk_adoption_manifest := bulk_adoption_manifest; act_writer := writer;
        act_occurred_at := occurred_at; act_signer := signer; act_signature := signature |}.

#[export] Instance Completion_Deserialize : Deserialize BulkAdoptionCompletionV1 := λ v,
  let? o := strict_entries ["schema"; "version"; "completionId"; "activationId";
    "bulkAdoptionManifestHash"; "coveredRecordSetHash"; "writer"; "occurredAt"; "signer";
    "signature"] 10 v in
  let? schema := req o "schema" in
  let? version := req o "version" in
  let? completion_id := req o "completionId" in
  let? activation_id := req o "activationId" in
  let? bulk_adoption_manifest_hash := req o "bulkAdoptionManifestHash" in
  let? covered_record_set_hash := req o "coveredRecordSetHash" in
  let? writer := req o "writer" in
  let? occurred_at := req o "occurredAt" in
  let? signer := req o "signer" in
  let? signature := req o "signature" in
  Ok {| com_schema := schema; com_version := version; com_completion_id := completion_id;
        com_activation_id := activation_id;
        com_bulk_adoption_manifest_hash := bulk_adoption_manifest_hash;
        com_covered_record_set_hash := covered_record_set_hash; com_writer := writer;
        com_occurred_at := occurred_at; com_signer := signer; com_signature := signature |}.
End control_decoders.

(** ** Validation *)

Definition act_logical_key (a : StoreCapabilityActivationV1) : string :=
  match act_predecessor_activation_id a with
  | None => ROOT_ACTIVATION_LOGICAL_KEY_V1
  | Some predecessor =>
      "store_capability_activation:review_change_revision_v1:after:" +:+ predecessor
  end.

Definition com_logical_key (c : BulkAdoptionCompletionV1) : string :=
  "bulk_adoption_completion:" +:+ com_completion_id c.

(** [ActivationIdentityView] and [ActivationSigningView], serialised. *)
Definition act_identity_view (a : StoreCapabilityActivationV1) : json :=
  JObject [("schema", to_json "pointbreak.store-capability-activation-identity");
    ("version", to_json 1%N); ("nonce", to_json (act_nonce a));
    ("predecessorActivationId", to_json (act_predecessor_activation_id a));
    ("cohortManifestHash", to_json (act_cohort_manifest_hash a));
    ("minimumReaderProfile", to_json (act_minimum_reader_profile a));
    ("requiredCapabilities", to_json (act_required_capabilities a));
    ("bulkAdoptionManifestHash", to_json (act_bulk_adoption_manifest_hash a));
    ("actorId", to_json (w_actor_id (act_writer a)))].

Definition act_signing_view (a : StoreCapabilityActivationV1) : json :=
  JObject [("schema", to_json ACTIVATION_TBS_SCHEMA_V1); ("version", to_json 1%N);
    ("activationId", to_json (act_activation_id a)); ("logicalKey", to_json (act_logical_key a));
    ("cohortManifestHash", to_json (act_cohort_manifest_hash a));
    ("minimumReaderProfile", to_json (act_minimum_reader_profile a));
    ("requiredCapabilities", to_json (act_required_capabilities a));
    ("bulkAdoptionManifestHash", to_json (act_bulk_adoption_manifest_hash a));
    ("actorId", to_json (w_actor_id (act_writer a))); ("signer", to_json (act_signer a));
    ("occurredAt", to_json (act_occurred_at a))].

(** [CompletionIdentityView] and [CompletionSigningView], serialised. *)
Definition completion_identity (activation_id manifest_hash covered_hash actor_id : string) : json :=
  JObject [("schema", to_json "pointbreak.bulk-adoption-completion-identity");
    ("version", to_json 1%N); ("activationId", to_json activation_id);
    ("bulkAdoptionManifestHash", to_json manifest_hash);
    ("coveredRecordSetHash", to_json covered_hash); ("actorId", to_json actor_id)].

Definition com_identity_view (c : BulkAdoptionCompletionV1) : json :=
  completion_identity (com_activation_id c) (com_bulk_adoption_manifest_hash c)
    (com_covered_record_set_hash c) (w_actor_id (com_writer c)).

Definition com_signing_view (c : BulkAdoptionCompletionV1) : json :=
  JObject [("schema", to_json COMPLETION_TBS_SCHEMA_V1); ("version", to_json 1%N);
    ("completionId", to_json (com_completion_id c)); ("logicalKey", to_json (com_logical_key c));
    ("activationId", to_json (com_activation_id c));
    ("bulkAdoptionManifestHash", to_json (com_bulk_adoption_manifest_hash c));
    ("coveredRecordSetHash", to_json (com_covered_record_set_hash c));
    ("actorId", to_json (w_actor_id (com_writer c))); ("signer", to_json (com_signer c));
    ("occurredAt", to_json (com_occurred_at c))].

Definition validate_cursor_shape (cursor : AuthorityCursorV2) : result unit :=
  if negb (String.eqb (ac_schema cursor) AUTHORITY_CURSOR_SCHEMA_V2) ||
      negb (is_prefixed_sha256 (ac_journal_record_set_hash cursor)) ||
      negb (is_prefixed_sha256 (ac_event_set_hash cursor)) ||
      negb (is_prefixed_sha256 (ac_capability_set_hash cursor)) then
    capability_error "bulk-adoption manifest has an invalid source authority cursor"
  else if (ac_journal_record_count cursor <? ac_event_count cursor)%N then
    capability_error "authority cursor event count exceeds Journal record count"
  else Ok ().

Section validation.
Context `{Digest} `{Primitives}.

Definition canonical_manifest_hash (m : ReviewChangeRevisionManifestV1) : result string :=
  sha256_json_prefixed (to_json m).

Definition manifest_hash (m : BulkAdoptionManifestV1) : result string :=
  sha256_json_prefixed (to_json m).

Definition validate_reserved_record (record : ReservedCohortRecordV1) : result unit :=
  if negb (is_prefixed_sha256 (rc_record_hash record)) then
    capability_error "bulk-adoption manifest has an invalid record hash"
  else if negb (existsb (λ family, String.eqb (rf_name family) (rc_record_family record))
      REVIEW_CHANGE_REVISION_RECORD_FAMILIES_V1) then
    capability_error "bulk-adoption manifest names an unknown record family"
  else Ok ().

Definition validate_manifest (m : BulkAdoptionManifestV1) : result unit :=
  if negb (String.eqb (bm_schema m) BULK_MANIFEST_SCHEMA_V1) || negb (bm_version m =? 1)%N then
    capability_error "unsupported bulk-adoption manifest schema/version"
  else if negb (String.eqb (bm_cohort_manifest_hash m) REVIEW_CHANGE_REVISION_MANIFEST_HASH_V1) then
    capability_error "bulk-adoption manifest names an unsupported capability manifest"
  else
  let? _ := validate_cursor_shape (bm_source_authority_cursor m) in
  let? _ := ensure_sorted_unique_by (bm_reserved_records m) rc_logical_key
    "reserved record logical keys" in
  try_fold (λ _ record, validate_reserved_record record) () (bm_reserved_records m).

Definition from_reserved_records (source_authority_cursor : AuthorityCursorV2)
    (reserved_records : list ReservedCohortRecordV1) : result BulkAdoptionManifestV1 :=
  let manifest := {| bm_schema := BULK_MANIFEST_SCHEMA_V1; bm_version := 1;
    bm_cohort_manifest_hash := REVIEW_CHANGE_REVISION_MANIFEST_HASH_V1;
    bm_source_authority_cursor := source_authority_cursor;
    bm_reserved_records := sort_by (λ left right,
      String.compare (rc_logical_key left) (rc_logical_key right)) reserved_records |} in
  let? _ := validate_manifest manifest in
  Ok manifest.

Definition validate_record_signature (signature : JournalRecordSignatureV1) (signer : SignerId)
    (payload_type : string) (signing_view : json) : result unit :=
  if negb (String.eqb (js_alg signature) "ed25519") || negb (js_sig_version signature =? 1)%N ||
      negb (is_base64 (js_sig signature)) then
    capability_error "Journal control record has an unsupported signature"
  else
  let? body := canonical_json_bytes signing_view in
  let pae := pre_authentication_encoding payload_type body in
  let? status := verify_ed25519_strict signer pae (js_sig signature) in
  if negb (bool_decide (status = Valid)) then
    capability_error "Journal control record signature is invalid"
  else Ok ().

(** [format!("{prefix}:sha256:{}", sha256_bytes_hex(&canonical_json_bytes(view)?))]. *)
Definition record_identity (prefix : string) (view : json) : result string :=
  let? bytes := canonical_json_bytes view in
  Ok (prefix +:+ ":sha256:" +:+ sha256_bytes_hex bytes).

Definition act_validate (a : StoreCapabilityActivationV1) : result unit :=
  if negb (String.eqb (act_schema a) ACTIVATION_SCHEMA_V1) || negb (act_version a =? 1)%N then
    capability_error "unsupported capability activation schema/version"
  else
  let? _ := ensure_sorted_unique (act_required_capabilities a) "required capabilities" in
  if negb (String.eqb (act_cohort_manifest_hash a) REVIEW_CHANGE_REVISION_MANIFEST_HASH_V1) then
    capability_error "activation names an unsupported capability manifest"
  else if negb (String.eqb (act_minimum_reader_profile a) REVIEW_CHANGE_REVISION_COHORT_V1) then
    capability_error "activation names an unsupported minimum reader profile"
  else if negb (bool_decide (act_required_capabilities a = supported_capabilities)) then
    capability_error "activation requires an unsupported capability set"
  else
  let? _ := validate_manifest (act_bulk_adoption_manifest a) in
  let? hash := manifest_hash (act_bulk_adoption_manifest a) in
  if negb (String.eqb hash (act_bulk_adoption_manifest_hash a)) then
    capability_error "activation bulk-adoption manifest hash mismatch"
  else
  let? expected_id := record_identity "capability-activation" (act_identity_view a) in
  if negb (String.eqb (act_activation_id a) expected_id) then
    capability_error "capability activation identity mismatch"
  else
  validate_record_signature (act_signature a) (act_signer a) ACTIVATION_TBS_PAYLOAD_TYPE_V1
    (act_signing_view a).

Definition com_validate (c : BulkAdoptionCompletionV1) : result unit :=
  if negb (String.eqb (com_schema c) COMPLETION_SCHEMA_V1) || negb (com_version c =? 1)%N then
    capability_error "unsupported bulk-adoption completion schema/version"
  else
  let? expected_id := record_identity "bulk-adoption-completion" (com_identity_view c) in
  if negb (String.eqb (com_completion_id c) expected_id) then
    capability_error "bulk-adoption completion identity mismatch"
  else
  validate_record_signature (com_signature c) (com_signer c) COMPLETION_TBS_PAYLOAD_TYPE_V1
    (com_signing_view c).

Definition reserved_record_set_hash (records : list ReservedCohortRecordV1) : result string :=
  sha256_json_prefixed (JObject [("schema", to_json "pointbreak.bulk-adoption-record-set.v1");
    ("records", to_json records)]).

Definition capability_set_hash (capabilities : list string) : result string :=
  sha256_json_prefixed (JObject [("schema", to_json CAPABILITY_SET_SCHEMA_V1);
    ("capabilities", to_json capabilities)]).

Definition validate_logical_key_digest (logical_key digest : string) : result unit :=
  if negb (String.eqb (sha256_bytes_hex logical_key) digest) then
    capability_error "Journal control record logical key does not match its carrier address"
  else Ok ().

Definition validate_reserved_bytes (reservation : ReservedCohortRecordV1) (bytes : string)
    : result unit :=
  if negb (String.eqb ("sha256:" +:+ sha256_bytes_hex bytes) (rc_record_hash reservation)) then
    capability_error ("reserved record " +:+ rc_logical_key reservation +:+ " has divergent bytes")
  else Ok ().
End validation.

(** ** Building control records *)

(** The trait of [src/src/crypto/ed25519.rs]: its implementations hold private keys. *)
Class EventSigner := {
  signer_id : SignerId;
  sign_event_message : string → result EventSignatureBytes
}.

Definition with_activation (id : string) (sig : EventSignatureBytes)
    (a : StoreCapabilityActivationV1) : StoreCapabilityActivationV1 :=
  {| act_schema := act_schema a; act_version := act_version a; act_activation_id := id;
     act_nonce := act_nonce a; act_predecessor_activation_id := act_predecessor_activation_id a;
     act_cohort_manifest_hash := act_cohort_manifest_hash a;
     act_minimum_reader_profile := act_minimum_reader_profile a;
     act_required_capabilities := act_required_capabilities a;
     act_bulk_adoption_manifest_hash := act_bulk_adoption_manifest_hash a;
     act_bulk_adoption_manifest := act_bulk_adoption_manifest a; act_writer := act_writer a;
     act_occurred_at := act_occurred_at a; act_signer := act_signer a;
     act_signature := {| js_alg := js_alg (act_signature a);
       js_sig_version := js_sig_version (act_signature a); js_sig := sig |} |}.

Definition with_completion (id : string) (sig : EventSignatureBytes)
    (c : BulkAdoptionCompletionV1) : BulkAdoptionCompletionV1 :=
  {| com_schema := com_schema c; com_version := com_version c; com_completion_id := id;
     com_activation_id := com_activation_id c;
     com_bulk_adoption_manifest_hash := com_bulk_adoption_manifest_hash c;
     com_covered_record_set_hash := com_covered_record_set_hash c; com_writer := com_writer c;
     com_occurred_at := com_occurred_at c; com_signer := com_signer c;
     com_signature := {| js_alg := js_alg (com_signature c);
       js_sig_version := js_sig_version (com_signature c); js_sig := sig |} |}.

Section builders.
Context `{Digest} `{Primitives} `{EventSigner}.

Definition pending_signature : JournalRecordSignatureV1 :=
  {| js_alg := "ed25519"; js_sig_version := 1; js_sig := EmptyString |}.

Definition build_signed_activation (manifest : BulkAdoptionManifestV1) (nonce : string)
    (writer : Writer) (occurred_at : string) : result StoreCapabilityActivationV1 :=
  let? hash := manifest_hash manifest in
  let draft := {| act_schema := ACTIVATION_SCHEMA_V1; act_version := 1;
    act_activation_id := EmptyString; act_nonce := nonce; act_predecessor_activation_id := None;
    act_cohort_manifest_hash := REVIEW_CHANGE_REVISION_MANIFEST_HASH_V1;
    act_minimum_reader_profile := REVIEW_CHANGE_REVISION_COHORT_V1;
    act_required_capabilities := supported_capabilities;
    act_bulk_adoption_manifest_hash := hash; act_bulk_adoption_manifest := manifest;
    act_writer := writer; act_occurred_at := occurred_at; act_signer := signer_id;
    act_signature := pending_signature |} in
  let? id := record_identity "capability-activation" (act_identity_view draft) in
  let activation := with_activation id EmptyString draft in
  let? body := canonical_json_bytes (act_signing_view activation) in
  let? sig := sign_event_message (pre_authentication_encoding ACTIVATION_TBS_PAYLOAD_TYPE_V1 body) in
  let activation := with_activation id sig activation in
  let? _ := act_validate activation in
  Ok activation.

Definition build_signed_completion (activation : StoreCapabilityActivationV1) (writer : Writer)
    (occurred_at : string) : result BulkAdoptionCompletionV1 :=
  if negb (String.eqb (w_actor_id writer) (w_actor_id (act_writer activation))) then
    capability_error "capability activation and completion require the same writer"
  else
  let? covered := reserved_record_set_hash (bm_reserved_records (act_bulk_adoption_manifest activation)) in
  let draft := {| com_schema := COMPLETION_SCHEMA_V1; com_version := 1;
    com_completion_id := EmptyString; com_activation_id := act_activation_id activation;
    com_bulk_adoption_manifest_hash := act_bulk_adoption_manifest_hash activation;
    com_covered_record_set_hash := covered; com_writer := writer; com_occurred_at := occurred_at;
    com_signer := signer_id; com_signature := pending_signature |} in
  let? id := record_identity "bulk-adoption-completion" (com_identity_view draft) in
  let completion := with_completion id EmptyString draft in
  let? body := canonical_json_bytes (com_signing_view completion) in
  let? sig := sign_event_message (pre_authentication_encoding COMPLETION_TBS_PAYLOAD_TYPE_V1 body) in
  let completion := with_completion id sig completion in
  let? _ := com_validate completion in
  Ok completion.

Definition publish_control_record {S} `{Journal S} {A} `{Serialize A} (logical_key : string)
    (record : A) : io S CreateOutcome :=
  let! bytes := pure_io (canonical_json_bytes (to_json record)) in
  create_record_once logical_key bytes.
End builders.

(** ** Events as the router sees them *)

Record EventProbe := {
  pr_schema : string;
  pr_version : N;
  pr_event_id : string;
  pr_event_type : string;
  pr_idempotency_key : string;
  pr_payload_hash : string;
  pr_payload : json
}.

#[export] Instance EventProbe_Deserialize `{JsonReader} : Deserialize EventProbe := λ v,
  let? o := struct_entries ["schema"; "version"; "eventId"; "eventType"; "idempotencyKey";
    "payloadHash"; "payload"] 7 v in
  let? schema := req o "schema" in
  let? version := req o "version" in
  let? event_id := req o "eventId" in
  let? event_type := req o "eventType" in
  let? idempotency_key := req o "idempotencyKey" in
  let? payload_hash := req o "payloadHash" in
  let? payload := req o "payload" in
  Ok {| pr_schema := schema; pr_version := version; pr_event_id := event_id;
        pr_event_type := event_type; pr_idempotency_key := idempotency_key;
        pr_payload_hash := payload_hash; pr_payload := payload |}.

(** [SchemaProbe]. *)
Record SchemaProbe := { sp_schema : string }.

#[export] Instance SchemaProbe_Deserialize `{JsonReader} : Deserialize SchemaProbe := λ v,
  let? o := struct_entries ["schema"] 1 v in
  let? schema := req o "schema" in
  Ok {| sp_schema := schema |}.

(** [Value::as_str] and [Value::as_u64]. *)
Definition json_as_str (v : json) : option string :=
  match v with JString s => Some s | _ => None end.
Definition json_as_u64 (v : json) : option N :=
  match v with JNumber s => u64_of_literal s | _ => None end.

Section probes.
Context `{Digest}.

Definition validate_event_probe (event : EventProbe) (key_digest : string) : result unit :=
  if negb (String.eqb (pr_schema event) "shore.event") || negb (pr_version event =? 1)%N then
    capability_error "unsupported event schema/version in Journal router"
  else
  let expected_digest := sha256_bytes_hex (pr_idempotency_key event) in
  if negb (String.eqb key_digest expected_digest) then
    capability_error "Journal event logical key does not match its carrier address"
  else if negb (String.eqb (pr_event_id event) ("evt:sha256:" +:+ expected_digest)) then
    capability_error "Journal event ID does not match its logical key"
  else
  let? payload_hash := sha256_json_prefixed (pr_payload event) in
  if negb (String.eqb payload_hash (pr_payload_hash event)) then
    capability_error "Journal event payload hash mismatch"
  else if negb (is_known_or_reserved_event_code (pr_event_type event)) then
    capability_error ("unknown Journal event type code " +:+ str_debug (pr_event_type event))
  else
  match List.find (λ family, String.eqb (rf_event_type_code family) (pr_event_type event))
      REVIEW_CHANGE_REVISION_RECORD_FAMILIES_V1 with
  | None => Ok ()
  | Some family =>
      let schema := json_get (pr_payload event) "schema" ≫= json_as_str in
      let version := json_get (pr_payload event) "version" ≫= json_as_u64 in
      if negb (bool_decide (schema = Some (rf_payload_schema family))) ||
          negb (bool_decide (version = Some (rf_payload_version family))) then
        capability_error "reserved Change-cohort payload does not match its frozen schema/version"
      else Ok ()
  end.
End probes.
