(* ===== verification/CapabilityRouter.v ===== *)
(** * Routing and gating by capability ([src/src/session/store/capabilities.rs])

    The complete router that classifies every journal record, the bounded point reads
    that decide the same status from two records, and the gates readers and writers
    pass before they touch events. *)

From S2P Require Import Prelude RustStr BTree Model CanonicalHash Crypto Events Wire Journal EventCodec.
From S2P Require Import Capabilities.

Inductive StoreCapabilityStatus :=
| MigrationRequired
| MigrationInProgress (activation_id manifest_hash : string)
| Ready (activation_id manifest_hash completion_id : string).

#[export] Instance StoreCapabilityStatus_eq_dec : EqDecision StoreCapabilityStatus.
Proof. solve_decision. Defined.

Record JournalRecordIdentityV1 := {
  ri_key_digest : string;
  ri_record_sha256 : string;
  ri_event_payload_sha256 : option string
}.

Record BoundedChangeCapabilityPairV1 := {
  bp_activation_id : string;
  bp_manifest_hash : string;
  bp_completion_id : string;
  bp_minimum_reader_profile : string;
  bp_activation_record_sha256 : string;
  bp_completion_record_sha256 : string
}.

Inductive BoundedChangeCapabilityPairStateV1 :=
| PairMigrationRequired
| PairMigrationInProgress (activation_id manifest_hash : string)
| PairReady (pair : BoundedChangeCapabilityPairV1).

Record JournalInspection := {
  in_status : StoreCapabilityStatus;
  in_cursor : AuthorityCursorV2;
  in_minimum_reader_profile : option string;
  in_authority_record_identities : list JournalRecordIdentityV1;
  in_event_entries : list JournalEntry
}.

Inductive TransferControlRecordKind := CapabilityActivation | BulkAdoptionCompletion.

Record TransferControlRecord := {
  tc_kind : TransferControlRecordKind;
  tc_logical_key : string;
  tc_minimum_reader_profile : option string;
  tc_required_capabilities : list string
}.

Record BackfillCohort := { bc_event_ids : gset string; bc_manifest_hash : option string }.

Definition empty_cohort : BackfillCohort := {| bc_event_ids := ∅; bc_manifest_hash := None |}.

Definition cohort_contains (cohort : BackfillCohort) (event_id : string) : bool :=
  bool_decide (event_id ∈ bc_event_ids cohort).

(** [u64::try_from(n).unwrap_or(u64::MAX)]. *)
Definition u64_count (n : nat) : N := N.min (N.of_nat n) (2 ^ 64 - 1).

(** ** Authority cursors *)

Section cursors.
Context `{Digest}.

Definition identity_validate (identity : JournalRecordIdentityV1) : result unit :=
  if negb (is_lower_hex_sha256 (ri_key_digest identity)) then
    capability_error "authority record key digest is not canonical SHA-256"
  else if negb (is_prefixed_sha256 (ri_record_sha256 identity)) then
    capability_error "authority record witness is not canonical SHA-256"
  else if match ri_event_payload_sha256 identity with
          | Some hash => negb (is_prefixed_sha256 hash) | None => false end then
    capability_error "authority event payload witness is not canonical SHA-256"
  else Ok ().

Definition identity_for_event (logical_key record_sha256 event_id event_payload_sha256 : string)
    : result JournalRecordIdentityV1 :=
  let key_digest := sha256_bytes_hex logical_key in
  if negb (String.eqb event_id ("evt:sha256:" +:+ key_digest)) then
    capability_error "authority event identity does not match its logical carrier key"
  else
  let identity := {| ri_key_digest := key_digest; ri_record_sha256 := record_sha256;
    ri_event_payload_sha256 := Some event_payload_sha256 |} in
  let? _ := identity_validate identity in
  Ok identity.

Definition journal_record_identity (entry : JournalEntry) (event_payload_sha256 : option string)
    : result JournalRecordIdentityV1 :=
  let identity := {| ri_key_digest := je_key_digest entry;
    ri_record_sha256 := "sha256:" +:+ sha256_bytes_hex (je_bytes entry);
    ri_event_payload_sha256 := event_payload_sha256 |} in
  let? _ := identity_validate identity in
  Ok identity.

(** [JournalRecordSetMaterial] and [EventSetMaterial], serialised. *)
Definition record_set_material (records : list (string * string)) : json :=
  JObject [("schema", to_json JOURNAL_RECORD_SET_SCHEMA_V1);
    ("records", JArray ((λ r : string * string, JObject [("keyDigest", to_json r.1);
      ("recordHash", to_json r.2)]) <$> records))].

Definition event_set_material (events : list (string * string)) : json :=
  JObject [("schema", to_json EVENT_SET_SCHEMA_V1);
    ("events", JArray ((λ e : string * string, JObject [("eventId", to_json e.1);
      ("payloadHash", to_json e.2)]) <$> events))].

Definition string_pair_cmp : string * string → string * string → comparison :=
  pair_cmp String.compare String.compare.

Definition event_pair (identity : JournalRecordIdentityV1) : option (string * string) :=
  (λ payload, ("evt:sha256:" +:+ ri_key_digest identity, payload)) <$>
    ri_event_payload_sha256 identity.

Definition authority_cursor_from_record_identities (identities : list JournalRecordIdentityV1)
    (capability_set_hash : string) : result AuthorityCursorV2 :=
  if negb (is_prefixed_sha256 capability_set_hash) then
    capability_error "authority capability-set hash is not canonical SHA-256"
  else
  let? _ := try_fold (λ _ identity, identity_validate identity) () identities in
  let identities := sort_by (λ left right,
    String.compare (ri_key_digest left) (ri_key_digest right)) identities in
  if adjacent (λ x y, String.eqb (ri_key_digest x) (ri_key_digest y)) identities then
    capability_error "authority record identity set contains a duplicate carrier key"
  else
  let? journal_record_set_hash := sha256_json_prefixed (record_set_material
    ((λ identity, (ri_key_digest identity, ri_record_sha256 identity)) <$> identities)) in
  let event_pairs := sort_by string_pair_cmp (omap event_pair identities) in
  let? event_set_hash := sha256_json_prefixed (event_set_material event_pairs) in
  Ok {| ac_schema := AUTHORITY_CURSOR_SCHEMA_V2;
        ac_journal_record_count := u64_count (length identities);
        ac_event_count := u64_count (length event_pairs);
        ac_journal_record_set_hash := journal_record_set_hash;
        ac_event_set_hash := event_set_hash; ac_capability_set_hash := capability_set_hash |}.

Definition event_set_hash (events : list EventProbe) : result string :=
  sha256_json_prefixed (event_set_material
    ((λ event, (pr_event_id event, pr_payload_hash event)) <$> events)).

Definition authority_cursor (record_count event_count : nat)
    (journal_record_set_hash event_set_hash : string) (capabilities : list string)
    : result AuthorityCursorV2 :=
  let? capability_set_hash := capability_set_hash capabilities in
  Ok {| ac_schema := AUTHORITY_CURSOR_SCHEMA_V2;
        ac_journal_record_count := u64_count record_count; ac_event_count := u64_count event_count;
        ac_journal_record_set_hash := journal_record_set_hash;
        ac_event_set_hash := event_set_hash; ac_capability_set_hash := capability_set_hash |}.
End cursors.

(** ** The complete router *)

Section router.
Context `{Digest} `{JsonReader} `{Primitives}.

Record Routed := {
  rt_event_entries : list JournalEntry;
  rt_event_probes : list EventProbe;
  rt_activations : list StoreCapabilityActivationV1;
  rt_completions : list BulkAdoptionCompletionV1;
  rt_identities : list JournalRecordIdentityV1
}.

Definition routed_empty : Routed :=
  {| rt_event_entries := []; rt_event_probes := []; rt_activations := []; rt_completions := [];
     rt_identities := [] |}.

(** The text of a serde error. *)
Definition json_error_text (e : ShoreError) : string :=
  match e with Json m => m | e => ShoreError_display e end.

Definition route_entry (r : Routed) (entry : JournalEntry) : result Routed :=
  let? probe := map_err (λ error, Message ("Journal record has no valid typed schema: " +:+
    json_error_text error)) (from_slice (A:=SchemaProbe) (je_bytes entry)) in
  if String.eqb (sp_schema probe) "shore.event" then
    let? event := from_slice (je_bytes entry) in
    let? _ := validate_event_probe event (je_key_digest entry) in
    let? identity := journal_record_identity entry (Some (pr_payload_hash event)) in
    Ok {| rt_event_entries := rt_event_entries r ++ [entry];
          rt_event_probes := rt_event_probes r ++ [event]; rt_activations := rt_activations r;
          rt_completions := rt_completions r; rt_identities := rt_identities r ++ [identity] |}
  else if String.eqb (sp_schema probe) ACTIVATION_SCHEMA_V1 then
    let? activation := from_slice (je_bytes entry) in
    let? _ := act_validate activation in
    let? _ := validate_logical_key_digest (act_logical_key activation) (je_key_digest entry) in
    let? identity := journal_record_identity entry None in
    Ok {| rt_event_entries := rt_event_entries r; rt_event_probes := rt_event_probes r;
          rt_activations := rt_activations r ++ [activation]; rt_completions := rt_completions r;
          rt_identities := rt_identities r ++ [identity] |}
  else if String.eqb (sp_schema probe) COMPLETION_SCHEMA_V1 then
    let? completion := from_slice (je_bytes entry) in
    let? _ := com_validate completion in
    let? _ := validate_logical_key_digest (com_logical_key completion) (je_key_digest entry) in
    let? identity := journal_record_identity entry None in
    Ok {| rt_event_entries := rt_event_entries r; rt_event_probes := rt_event_probes r;
          rt_activations := rt_activations r; rt_completions := rt_completions r ++ [completion];
          rt_identities := rt_identities r ++ [identity] |}
  else capability_error ("unknown Journal record schema " +:+ str_debug (sp_schema probe)).

Definition probe_cmp (left right : EventProbe) : comparison :=
  string_pair_cmp (pr_event_id left, pr_payload_hash left) (pr_event_id right, pr_payload_hash right).

Definition validate_activation_chain (activations : list StoreCapabilityActivationV1)
    : result StoreCapabilityActivationV1 :=
  match activations with
  | [root] =>
      match act_predecessor_activation_id root with
      | Some _ => capability_error
          "the review_change_revision_v1 activation must not name a predecessor"
      | None => Ok root
      end
  | _ => capability_error
      "the review_change_revision_v1 reader requires exactly one root activation"
  end.

Definition validate_migration_prefix (active : StoreCapabilityActivationV1)
    (entries : list JournalEntry) : result unit :=
  let reservations : gmap string ReservedCohortRecordV1 := foldl (λ m record,
    <[rc_logical_key record := record]> m) ∅ (bm_reserved_records (act_bulk_adoption_manifest active)) in
  try_fold (λ _ entry,
    let? event : EventProbe := from_slice (je_bytes entry) in
    if is_reserved_event_code (pr_event_type event) then
      let? reservation := ok_or (reservations !! pr_idempotency_key event)
        (Message "migration prefix contains an unreserved Change-cohort record") in
      validate_reserved_bytes reservation (je_bytes entry)
    else Ok ()) () entries.

Definition validate_completion (completion : BulkAdoptionCompletionV1)
    (active : StoreCapabilityActivationV1) (entries : list JournalEntry) : result unit :=
  if negb (String.eqb (w_actor_id (com_writer completion)) (w_actor_id (act_writer active))) then
    capability_error "capability activation and completion require the same writer"
  else if negb (String.eqb (com_activation_id completion) (act_activation_id active)) ||
      negb (String.eqb (com_bulk_adoption_manifest_hash completion)
        (act_bulk_adoption_manifest_hash active)) then
    capability_error "bulk-adoption completion does not bind the active manifest"
  else
  let by_digest : gmap string JournalEntry :=
    foldl (λ m entry, <[je_key_digest entry := entry]> m) ∅ entries in
  let? _ := try_fold (λ _ reservation,
    let? entry := ok_or (by_digest !! sha256_bytes_hex (rc_logical_key reservation))
      (Message ("bulk-adoption completion is missing reserved record " +:+
        rc_logical_key reservation)) in
    validate_reserved_bytes reservation (je_bytes entry)) ()
      (bm_reserved_records (act_bulk_adoption_manifest active)) in
  let? expected := reserved_record_set_hash (bm_reserved_records (act_bulk_adoption_manifest active)) in
  if negb (String.eqb (com_covered_record_set_hash completion) expected) then
    capability_error "bulk-adoption completion coverage hash mismatch"
  else Ok ().

(** The end of [route_journal_entries], once an activation is there. *)
Definition activated_inspection (active : StoreCapabilityActivationV1) (r : Routed)
    : result JournalInspection :=
  if 1 <? length (rt_completions r) then
    capability_error "multiple bulk-adoption completion records are unsupported"
  else
  let? status :=
    match rt_completions r with
    | completion :: _ =>
        let? _ := validate_completion completion active (rt_event_entries r) in
        Ok (Ready (act_activation_id active) (act_bulk_adoption_manifest_hash active)
          (com_completion_id completion))
    | [] =>
        let? _ := validate_migration_prefix active (rt_event_entries r) in
        Ok (MigrationInProgress (act_activation_id active) (act_bulk_adoption_manifest_hash active))
    end in
  let? capabilities := capability_set_hash (act_required_capabilities active) in
  let? cursor := authority_cursor_from_record_identities (rt_identities r) capabilities in
  Ok {| in_status := status; in_cursor := cursor;
        in_minimum_reader_profile := Some (act_minimum_reader_profile active);
        in_authority_record_identities := rt_identities r;
        in_event_entries := rt_event_entries r |}.

Definition route_journal_entries (entries : list JournalEntry) : result JournalInspection :=
  let? r := try_fold route_entry routed_empty entries in
  let event_probes := sort_by probe_cmp (rt_event_probes r) in
  match rt_activations r with
  | [] =>
      if negb (match rt_completions r with [] => true | _ => false end) ||
          existsb (λ event, is_reserved_event_code (pr_event_type event)) event_probes then
        capability_error "Change-cohort records exist without a capability activation"
      else
      let? capabilities := capability_set_hash [] in
      let? cursor := authority_cursor_from_record_identities (rt_identities r) capabilities in
      Ok {| in_status := MigrationRequired; in_cursor := cursor;
            in_minimum_reader_profile := None;
            in_authority_record_identities := rt_identities r;
            in_event_entries := rt_event_entries r |}
  | _ =>
      let? active := validate_activation_chain (rt_activations r) in
      activated_inspection active r
  end.
End router.

(** ** The router of a store without activation *)

Section unactivated.
Context `{Digest} `{JsonReader}.

Record Unactivated := {
  un_event_entries : list JournalEntry;
  un_event_probes : list EventProbe;
  un_record_set : list (string * string);
  un_identities : list JournalRecordIdentityV1
}.

Definition unactivated_empty : Unactivated :=
  {| un_event_entries := []; un_event_probes := []; un_record_set := []; un_identities := [] |}.

(** The [eventType] string of a record that is JSON at all. *)
Definition record_event_code (bytes : string) : option string :=
  v ← read_json bytes; v ← json_get (as_value v) "eventType"; json_as_str v.

Definition with_payload_hash (identity : JournalRecordIdentityV1) (hash : string)
    : JournalRecordIdentityV1 :=
  {| ri_key_digest := ri_key_digest identity; ri_record_sha256 := ri_record_sha256 identity;
     ri_event_payload_sha256 := Some hash |}.

Definition route_unactivated_entry (u : Unactivated) (entry : JournalEntry) : result Unactivated :=
  let record_set := un_record_set u ++
    [(je_key_digest entry, "sha256:" +:+ sha256_bytes_hex (je_bytes entry))] in
  let? identity := journal_record_identity entry None in
  let? _ :=
    match record_event_code (je_bytes entry) with
    | Some code =>
        if starts_with "t:" code && negb (bool_decide (is_Some (event_type_from_code code))) then
          if is_reserved_event_code code then
            capability_error "Change-cohort records exist without a capability activation"
          else capability_error ("unknown Journal event type code " +:+ str_debug code)
        else Ok ()
    | None => Ok ()
    end in
  match decode_qualification_entry (je_key_digest entry) (je_bytes entry) with
  | Ok _ =>
      let? probe := from_slice (je_bytes entry) in
      let? _ := validate_event_probe probe (je_key_digest entry) in
      Ok {| un_event_entries := un_event_entries u ++ [entry];
            un_event_probes := un_event_probes u ++ [probe]; un_record_set := record_set;
            un_identities := un_identities u ++ [with_payload_hash identity (pr_payload_hash probe)] |}
  | Err (UnsupportedEventType _) | Err (UnsupportedEventEnvelope _) =>
      Ok {| un_event_entries := un_event_entries u; un_event_probes := un_event_probes u;
            un_record_set := record_set; un_identities := un_identities u ++ [identity] |}
  | Err error => Err error
  end.

Definition route_unactivated_journal_entries (entries : list JournalEntry)
    : result JournalInspection :=
  let? u := try_fold route_unactivated_entry unactivated_empty entries in
  let record_set := sort_by (λ left right : string * string,
    String.compare left.1 right.1) (un_record_set u) in
  let event_probes := sort_by probe_cmp (un_event_probes u) in
  let? journal_record_set_hash := sha256_json_prefixed (record_set_material record_set) in
  let? event_set_hash := event_set_hash event_probes in
  let? cursor := authority_cursor (length record_set) (length (un_event_entries u))
    journal_record_set_hash event_set_hash [] in
  Ok {| in_status := MigrationRequired; in_cursor := cursor; in_minimum_reader_profile := None;
        in_authority_record_identities := un_identities u;
        in_event_entries := un_event_entries u |}.
End unactivated.

(** ** Bounded point reads *)

Section bounded.
Context `{Digest} `{JsonReader} `{Primitives}.

Definition validate_bounded_change_capability_records
    (activation_logical_key completion_logical_key activation_bytes completion_bytes : string)
    : result BoundedChangeCapabilityPairV1 :=
  let? activation : StoreCapabilityActivationV1 := from_slice activation_bytes in
  let? _ := act_validate activation in
  if negb (String.eqb (act_logical_key activation) activation_logical_key) then
    capability_error "published capability activation does not match its bounded logical key"
  else
  let? completion : BulkAdoptionCompletionV1 := from_slice completion_bytes in
  let? _ := com_validate completion in
  if negb (String.eqb (com_logical_key completion) completion_logical_key) then
    capability_error "published bulk-adoption completion does not match its bounded logical key"
  else if negb (String.eqb (w_actor_id (com_writer completion))
      (w_actor_id (act_writer activation))) then
    capability_error "capability activation and completion require the same writer"
  else if negb (String.eqb (com_activation_id completion) (act_activation_id activation)) ||
      negb (String.eqb (com_bulk_adoption_manifest_hash completion)
        (act_bulk_adoption_manifest_hash activation)) then
    capability_error
      "bounded capability activation/completion identity or manifest linkage mismatch"
  else
  let? expected_coverage :=
    reserved_record_set_hash (bm_reserved_records (act_bulk_adoption_manifest activation)) in
  if negb (String.eqb (com_covered_record_set_hash completion) expected_coverage) then
    capability_error "bounded bulk-adoption completion coverage mismatch"
  else
  Ok {| bp_activation_id := act_activation_id activation;
        bp_manifest_hash := act_bulk_adoption_manifest_hash activation;
        bp_completion_id := com_completion_id completion;
        bp_minimum_reader_profile := act_minimum_reader_profile activation;
        bp_activation_record_sha256 := "sha256:" +:+ sha256_bytes_hex activation_bytes;
        bp_completion_record_sha256 := "sha256:" +:+ sha256_bytes_hex completion_bytes |}.

Definition expected_completion_logical_key (activation : StoreCapabilityActivationV1)
    : result string :=
  let? covered :=
    reserved_record_set_hash (bm_reserved_records (act_bulk_adoption_manifest activation)) in
  let? completion_id := record_identity "bulk-adoption-completion"
    (completion_identity (act_activation_id activation) (act_bulk_adoption_manifest_hash activation)
      covered (w_actor_id (act_writer activation))) in
  Ok ("bulk_adoption_completion:" +:+ completion_id).

Definition transfer_control_record (bytes : string) : result TransferControlRecord :=
  let? probe : SchemaProbe := from_slice bytes in
  if String.eqb (sp_schema probe) ACTIVATION_SCHEMA_V1 then
    let? activation : StoreCapabilityActivationV1 := from_slice bytes in
    let? _ := act_validate activation in
    Ok {| tc_kind := CapabilityActivation; tc_logical_key := act_logical_key activation;
          tc_minimum_reader_profile := Some (act_minimum_reader_profile activation);
          tc_required_capabilities := act_required_capabilities activation |}
  else if String.eqb (sp_schema probe) COMPLETION_SCHEMA_V1 then
    let? completion : BulkAdoptionCompletionV1 := from_slice bytes in
    let? _ := com_validate completion in
    Ok {| tc_kind := BulkAdoptionCompletion; tc_logical_key := com_logical_key completion;
          tc_minimum_reader_profile := None; tc_required_capabilities := [] |}
  else capability_error ("Journal record schema " +:+ str_debug (sp_schema probe) +:+
    " is not an exact-transfer control record").

Context {S : Type} `{Journal S}.

Definition change_reader_activation_exists : io S bool :=
  record_exists ROOT_ACTIVATION_LOGICAL_KEY_V1.

Definition backfill_cohort : io S BackfillCohort :=
  let! bytes := read_event_bytes ROOT_ACTIVATION_LOGICAL_KEY_V1 in
  match bytes with
  | None => pure_io (Ok empty_cohort)
  | Some bytes => pure_io (
      let? activation : StoreCapabilityActivationV1 := from_slice bytes in
      let? _ := act_validate activation in
      if negb (String.eqb (act_logical_key activation) ROOT_ACTIVATION_LOGICAL_KEY_V1) then
        capability_error "root capability activation does not match its logical key"
      else
      Ok {| bc_event_ids := set_of_list ((λ record,
              event_id_for_idempotency_key (rc_logical_key record)) <$>
              bm_reserved_records (act_bulk_adoption_manifest activation));
            bc_manifest_hash := Some (act_bulk_adoption_manifest_hash activation) |})
  end.

Definition validate_bounded_change_capability_pair
    (activation_logical_key completion_logical_key : string)
    : io S BoundedChangeCapabilityPairV1 :=
  let! activation_bytes := read_event_bytes activation_logical_key in
  let! activation_bytes := pure_io (ok_or activation_bytes (Message
    ("published capability activation carrier is absent: " +:+ activation_logical_key))) in
  let! completion_bytes := read_event_bytes completion_logical_key in
  let! completion_bytes := pure_io (ok_or completion_bytes (Message
    ("published bulk-adoption completion carrier is absent: " +:+ completion_logical_key))) in
  pure_io (validate_bounded_change_capability_records activation_logical_key
    completion_logical_key activation_bytes completion_bytes).

Definition bounded_change_capability_pair_state_v1 : io S BoundedChangeCapabilityPairStateV1 :=
  let! activated := record_exists ROOT_ACTIVATION_LOGICAL_KEY_V1 in
  if negb activated then pure_io (Ok PairMigrationRequired) else
  let! activation_bytes := read_event_bytes ROOT_ACTIVATION_LOGICAL_KEY_V1 in
  let! activation_bytes := pure_io (ok_or activation_bytes (Message
    "published root capability activation disappeared during writer admission")) in
  let! activation : StoreCapabilityActivationV1 := pure_io (from_slice activation_bytes) in
  let! _ := pure_io (act_validate activation) in
  if negb (String.eqb (act_logical_key activation) ROOT_ACTIVATION_LOGICAL_KEY_V1) then
    pure_io (capability_error
      "published capability activation does not match its bounded logical key")
  else
  let! completion_logical_key := pure_io (expected_completion_logical_key activation) in
  let! completion_bytes := read_event_bytes completion_logical_key in
  match completion_bytes with
  | None => pure_io (Ok (PairMigrationInProgress (act_activation_id activation)
      (act_bulk_adoption_manifest_hash activation)))
  | Some completion_bytes =>
      let! bound := pure_io (validate_bounded_change_capability_records
        ROOT_ACTIVATION_LOGICAL_KEY_V1 completion_logical_key activation_bytes completion_bytes) in
      pure_io (Ok (PairReady bound))
  end.

Definition bounded_writer_capability_status : io S StoreCapabilityStatus :=
  let! state := bounded_change_capability_pair_state_v1 in
  pure_io (Ok match state with
  | PairMigrationRequired => MigrationRequired
  | PairMigrationInProgress activation_id manifest_hash =>
      MigrationInProgress activation_id manifest_hash
  | PairReady bound =>
      Ready (bp_activation_id bound) (bp_manifest_hash bound) (bp_completion_id bound)
  end).

(** *** Inspection and gates *)

Definition inspect_journal_records : io S JournalInspection :=
  let! entries := list_record_entries in pure_io (route_journal_entries entries).

Definition inspect_change_reader_journal_records : io S JournalInspection :=
  let! activated := record_exists ROOT_ACTIVATION_LOGICAL_KEY_V1 in
  if activated then inspect_journal_records
  else let! entries := list_record_entries in pure_io (route_unactivated_journal_entries entries).

Definition inspect_activated_journal_records : io S (option JournalInspection) :=
  let! activated := record_exists ROOT_ACTIVATION_LOGICAL_KEY_V1 in
  if negb activated then pure_io (Ok None)
  else let! inspection := inspect_journal_records in pure_io (Ok (Some inspection)).

Definition preflight_event_only_product : io S unit :=
  let! inspection := inspect_activated_journal_records in
  pure_io match inspection with
  | None => Ok ()
  | Some inspection =>
      capability_error
        match in_status inspection with
        | MigrationRequired => "activation root disappeared during capability preflight"
        | MigrationInProgress _ _ =>
            "migration_in_progress; this event-only product route cannot consume partial Change authority"
        | Ready _ _ _ =>
            "reader_upgrade_required; this event-only product route cannot consume the activated Change cohort"
        end
  end.

Definition preflight_change_writer : io S unit :=
  let! status := bounded_writer_capability_status in
  pure_io match status with
  | Ready _ _ _ => Ok ()
  | MigrationRequired => capability_error
      "migration_required; Change writes require an explicit completed store migration"
  | MigrationInProgress _ _ => capability_error
      "migration_in_progress; Change writes refuse partial capability authority"
  end.

Definition event_entries_for_event_only_product : io S (list JournalEntry) :=
  let! activated := record_exists ROOT_ACTIVATION_LOGICAL_KEY_V1 in
  if negb activated then list_event_entries
  else
  let! inspection := inspect_journal_records in
  pure_io match in_status inspection with
  | MigrationRequired => Ok (in_event_entries inspection)
  | MigrationInProgress _ _ => capability_error
      "migration_in_progress; refusing partial semantic output from an activated store"
  | Ready _ _ _ => capability_error
      "reader_upgrade_required; refusing legacy semantic output from an activated store"
  end.

Definition preflight_current_product : io S unit :=
  let! status := bounded_writer_capability_status in
  pure_io match status with
  | Ready _ _ _ => Ok ()
  | MigrationInProgress _ _ => capability_error
      "migration_in_progress; normal product routes refuse partial Change authority"
  | MigrationRequired => Ok ()
  end.

Definition event_entries_for_current_product : io S (list JournalEntry) :=
  let! activated := record_exists ROOT_ACTIVATION_LOGICAL_KEY_V1 in
  if negb activated then list_event_entries
  else
  let! inspection := inspect_journal_records in
  pure_io match in_status inspection with
  | Ready _ _ _ => Ok (in_event_entries inspection)
  | MigrationInProgress _ _ => capability_error
      "migration_in_progress; refusing partial semantic output from an activated store"
  | MigrationRequired => capability_error
      "activation root disappeared during current-product event routing"
  end.
End bounded.

(** The rule for a later reader whose capability set grows. *)
Definition validate_monotonic_successor (previous next : list string) : result unit :=
  let? _ := ensure_sorted_unique previous "previous required capabilities" in
  let? _ := ensure_sorted_unique next "successor required capabilities" in
  let previous : gset string := set_of_list previous in
  let next : gset string := set_of_list next in
  if bool_decide (previous = next) || negb (bool_decide (previous ⊆ next)) then
    capability_error "capability successor must be a strict monotonic superset"
  else Ok ().
