(* ===== verification/CapabilityProofs.v ===== *)
(** * What the capability gates guarantee

    The bounded point reads decide the status the complete router computes, the status
    only moves forward as the journal grows, and nobody reads or writes events while a
    migration is in progress. *)

From S2P Require Import Prelude RustStr BTree Model CanonicalHash Crypto Events Wire Journal EventCodec.
From S2P Require Import Capabilities CapabilityRouter.

(** ** Reading a lawful journal *)

Section reads.
Context {S : Type} `{JournalLaws S}.

Lemma io_bind_pure {A B} (r : result A) (f : A → io S B) s :
  io_bind (pure_io r) f s = match r with Ok a => f a s | Err e => (Err e, s) end.
Proof. by destruct r. Qed.

Lemma io_bind_assoc {A B C} (m : io S A) (f : A → io S B) (g : B → io S C) s :
  io_bind (io_bind m f) g s = io_bind m (λ a, io_bind (f a) g) s.
Proof. unfold io_bind. by destruct (m s) as [[a|e] s']. Qed.

(** [reads m v]: [m] returns the value [v] gives the records, and keeps them. *)
Definition reads {A} (m : io S A) (v : gmap string string → result A) : Prop :=
  ∀ s, ∃ s', m s = (v (carriers s), s') ∧ carriers s' = carriers s.

Lemma reads_pure {A} (r : result A) : reads (pure_io r) (λ _, r).
Proof. intros s. by exists s. Qed.

Lemma reads_bind {A B} (m : io S A) (f : A → io S B) v w :
  reads m v → (∀ a, reads (f a) (w a)) →
  reads (io_bind m f) (λ c, let? a := v c in w a c).
Proof.
  intros Hm Hf s. unfold io_bind. destruct (Hm s) as (s' & -> & Hs').
  destruct (v (carriers s)) as [a|e]; cbn [rbind]; [|by exists s'].
  rewrite <- Hs'. apply Hf.
Qed.

Lemma reads_ext {A} (m : io S A) v w : (∀ c, v c = w c) → reads m v → reads m w.
Proof. intros Hvw Hm s. rewrite <- Hvw. apply Hm. Qed.

Lemma reads_read key : reads (read_event_bytes key) (λ c, Ok (c !! key)).
Proof.
  intros s. destruct (read_law key s) as [Hr Hc]. destruct (read_event_bytes key s) as [r s'].
  exists s'. cbn in *. by rewrite Hr.
Qed.

Lemma reads_exists key : reads (event_exists key) (λ c, Ok (bool_decide (is_Some (c !! key)))).
Proof.
  intros s. destruct (exists_law key s) as [Hr Hc]. destruct (event_exists key s) as [r s'].
  exists s'. cbn in *. by rewrite Hr.
Qed.
End reads.

Section status.
Context `{Digest} `{JsonReader} `{Primitives}.

(** The bounded status, as a function of the records. *)
Definition pair_state_of (c : gmap string string) : result BoundedChangeCapabilityPairStateV1 :=
  match c !! ROOT_ACTIVATION_LOGICAL_KEY_V1 with
  | None => Ok PairMigrationRequired
  | Some activation_bytes =>
      let? activation : StoreCapabilityActivationV1 := from_slice activation_bytes in
      let? _ := act_validate activation in
      if negb (String.eqb (act_logical_key activation) ROOT_ACTIVATION_LOGICAL_KEY_V1) then
        capability_error "published capability activation does not match its bounded logical key"
      else
      let? key := expected_completion_logical_key activation in
      match c !! key with
      | None => Ok (PairMigrationInProgress (act_activation_id activation)
          (act_bulk_adoption_manifest_hash activation))
      | Some completion_bytes =>
          let? bound := validate_bounded_change_capability_records
            ROOT_ACTIVATION_LOGICAL_KEY_V1 key activation_bytes completion_bytes in
          Ok (PairReady bound)
      end
  end.

Definition status_of_pair (p : BoundedChangeCapabilityPairStateV1) : StoreCapabilityStatus :=
  match p with
  | PairMigrationRequired => MigrationRequired
  | PairMigrationInProgress activation_id manifest_hash =>
      MigrationInProgress activation_id manifest_hash
  | PairReady bound =>
      Ready (bp_activation_id bound) (bp_manifest_hash bound) (bp_completion_id bound)
  end.

Definition status_of (c : gmap string string) : result StoreCapabilityStatus :=
  let? p := pair_state_of c in Ok (status_of_pair p).

Context {S : Type} `{Journal S} `{JournalView S} `{!JournalLaws S}.

(** [run_read]: one read of a lawful journal, and its outcome. *)
Ltac run_read :=
  unfold io_bind at 1;
  match goal with
  | |- context [event_exists ?k ?s] =>
      let s' := fresh "s" in let Hc := fresh "Hc" in
      destruct (reads_exists k s) as (s' & -> & Hc)
  | |- context [read_event_bytes ?k ?s] =>
      let s' := fresh "s" in let Hc := fresh "Hc" in
      destruct (reads_read k s) as (s' & -> & Hc)
  end.

Lemma reads_pair_state : reads bounded_change_capability_pair_state_v1 pair_state_of.
Proof.
  intros s. unfold bounded_change_capability_pair_state_v1, pair_state_of, record_exists. run_read.
  destruct (carriers s !! ROOT_ACTIVATION_LOGICAL_KEY_V1) as [ab|] eqn:Ea;
    [rewrite bool_decide_eq_true_2 by done|rewrite bool_decide_eq_false_2 by apply is_Some_None];
    cbn [negb]; [|by exists s0].
  run_read. rewrite Hc, Ea, io_bind_pure. cbn [ok_or]. rewrite io_bind_pure.
  destruct (from_slice ab) as [a|e]; cbn [rbind]; [|exists s1; split; congruence].
  rewrite io_bind_pure. destruct (act_validate a) as [[]|e]; cbn [rbind];
    [|exists s1; split; congruence].
  destruct (negb _); [exists s1; split; [done|congruence]|]. rewrite io_bind_pure.
  destruct (expected_completion_logical_key a) as [key|e]; cbn [rbind];
    [|exists s1; split; congruence].
  run_read. rewrite Hc0, Hc. exists s2. split; [|congruence].
  destruct (carriers s !! key) as [cb|]; [|done]. rewrite io_bind_pure.
  by destruct (validate_bounded_change_capability_records _ _ _ _).
Qed.

Lemma reads_status : reads bounded_writer_capability_status status_of.
Proof. apply (reads_bind _ _ _ (λ p _, Ok (status_of_pair p)) reads_pair_state). intros []; apply reads_pure. Qed.

Lemma reads_preflight_change : reads preflight_change_writer (λ c,
  let? status := status_of c in
  match status with
  | Ready _ _ _ => Ok ()
  | MigrationRequired => capability_error
      "migration_required; Change writes require an explicit completed store migration"
  | MigrationInProgress _ _ => capability_error
      "migration_in_progress; Change writes refuse partial capability authority"
  end).
Proof. apply (reads_bind _ _ _ (λ st _, _) reads_status). intros []; apply reads_pure. Qed.

Lemma reads_preflight_current : reads preflight_current_product (λ c,
  let? status := status_of c in
  match status with
  | Ready _ _ _ => Ok ()
  | MigrationInProgress _ _ => capability_error
      "migration_in_progress; normal product routes refuse partial Change authority"
  | MigrationRequired => Ok ()
  end).
Proof. apply (reads_bind _ _ _ (λ st _, _) reads_status). intros []; apply reads_pure. Qed.
End status.

(** ** What the router collects *)

Section routed.
Context `{Digest} `{JsonReader} `{Primitives}.

Definition record_schema (entry : JournalEntry) : option string :=
  match from_slice (A:=SchemaProbe) (je_bytes entry) with
  | Ok probe => Some (sp_schema probe)
  | Err _ => None
  end.

Definition record_as {A} `{Deserialize A} (schema : string) (entry : JournalEntry) : option A :=
  if bool_decide (record_schema entry = Some schema) then
    match from_slice (je_bytes entry) with Ok a => Some a | Err _ => None end
  else None.

Definition activation_of : JournalEntry → option StoreCapabilityActivationV1 :=
  record_as ACTIVATION_SCHEMA_V1.
Definition completion_of : JournalEntry → option BulkAdoptionCompletionV1 :=
  record_as COMPLETION_SCHEMA_V1.
Definition probe_of : JournalEntry → option EventProbe := record_as "shore.event".

Lemma record_as_Some {A} `{Deserialize A} schema entry (a : A) :
  record_as schema entry = Some a ↔
  record_schema entry = Some schema ∧ from_slice (je_bytes entry) = Ok a.
Proof.
  unfold record_as. case_bool_decide; [|naive_solver].
  destruct (from_slice (je_bytes entry)); naive_solver.
Qed.

(** A validated record sits at the address of its logical key. *)
Record admitted (entry : JournalEntry) : Prop := {
  admitted_activation a : activation_of entry = Some a →
    act_validate a = Ok () ∧ je_key_digest entry = sha256_bytes_hex (act_logical_key a);
  admitted_completion c : completion_of entry = Some c →
    com_validate c = Ok () ∧ je_key_digest entry = sha256_bytes_hex (com_logical_key c);
  admitted_event p : probe_of entry = Some p →
    validate_event_probe p (je_key_digest entry) = Ok ();
  admitted_kind : is_Some (activation_of entry) ∨ is_Some (completion_of entry) ∨
    is_Some (probe_of entry)
}.

Lemma logical_key_digest_Ok key digest :
  validate_logical_key_digest key digest = Ok () → digest = sha256_bytes_hex key.
Proof.
  unfold validate_logical_key_digest. by destruct (String.eqb_spec (sha256_bytes_hex key) digest).
Qed.

Lemma route_entry_spec r entry r' :
  route_entry r entry = Ok r' →
  rt_activations r' = rt_activations r ++ option_list (activation_of entry) ∧
  rt_completions r' = rt_completions r ++ option_list (completion_of entry) ∧
  rt_event_probes r' = rt_event_probes r ++ option_list (probe_of entry) ∧
  rt_event_entries r' = rt_event_entries r ++
    (if bool_decide (is_Some (probe_of entry)) then [entry] else []) ∧
  admitted entry.
Proof.
  unfold route_entry, activation_of, completion_of, probe_of. intros (probe & Hp & Hr)%bind_Ok.
  assert (record_schema entry = Some (sp_schema probe)) as Hs.
  { unfold record_schema. by destruct (from_slice (je_bytes entry)) as [p|]; [injection Hp as ->|]. }
  clear Hp. unfold record_as. rewrite !Hs.
  destruct (String.eqb_spec (sp_schema probe) "shore.event") as [E|N1];
    [|destruct (String.eqb_spec (sp_schema probe) ACTIVATION_SCHEMA_V1) as [E|N2];
      [|destruct (String.eqb_spec (sp_schema probe) COMPLETION_SCHEMA_V1) as [E|N3]; [|done]]];
    rewrite E in *.
  - apply bind_Ok in Hr as (p & Hp & ([] & Hv & (i & _ & [= <-])%bind_Ok)%bind_Ok).
    rewrite !Hp. cbn. rewrite !app_nil_r. split_and!; [done..|].
    split; intros; unfold activation_of, completion_of, probe_of in *;
      rewrite ?record_as_Some in *; rewrite ?Hs in *; rewrite ?E in *;
      try (by destruct_and!); try (destruct_and!; assert (p = _) as <- by congruence; done).
    right; right. exists p. by apply record_as_Some.
  - apply bind_Ok in Hr as (a & Ha & ([] & Hv & ([] & Hk%logical_key_digest_Ok &
      (i & _ & [= <-])%bind_Ok)%bind_Ok)%bind_Ok).
    rewrite !Ha. cbn. rewrite !app_nil_r. split_and!; [done..|].
    split; intros; unfold activation_of, completion_of, probe_of in *;
      rewrite ?record_as_Some in *; rewrite ?Hs in *; rewrite ?E in *;
      try (by destruct_and!); try (destruct_and!; assert (a = _) as <- by congruence; done).
    left. exists a. by apply record_as_Some.
  - apply bind_Ok in Hr as (a & Ha & ([] & Hv & ([] & Hk%logical_key_digest_Ok &
      (i & _ & [= <-])%bind_Ok)%bind_Ok)%bind_Ok).
    rewrite !Ha. cbn. rewrite !app_nil_r. split_and!; [done..|].
    split; intros; unfold activation_of, completion_of, probe_of in *;
      rewrite ?record_as_Some in *; rewrite ?Hs in *; rewrite ?E in *;
      try (by destruct_and!); try (destruct_and!; assert (a = _) as <- by congruence; done).
    right; left. exists a. by apply record_as_Some.
Qed.

Lemma route_entries_spec r entries r' :
  try_fold route_entry r entries = Ok r' →
  rt_activations r' = rt_activations r ++ omap activation_of entries ∧
  rt_completions r' = rt_completions r ++ omap completion_of entries ∧
  rt_event_probes r' = rt_event_probes r ++ omap probe_of entries ∧
  rt_event_entries r' = rt_event_entries r ++
    List.filter (λ entry, bool_decide (is_Some (probe_of entry))) entries ∧
  ∀ entry, entry ∈ entries → admitted entry.
Proof.
  revert r. induction entries as [|entry entries IH]; intros r; cbn [try_fold].
  { intros [= <-]. cbn. rewrite !app_nil_r. split_and!; [done..|]. by intros ? ?%elem_of_nil. }
  intros (r1 & (A1 & A2 & A3 & A4 & A5)%route_entry_spec & (B1 & B2 & B3 & B4 & B5)%IH)%bind_Ok.
  rewrite B1, B2, B3, B4, A1, A2, A3, A4. cbn [omap list_omap List.filter].
  rewrite <- !app_assoc. split_and!.
  - by destruct (activation_of entry).
  - by destruct (completion_of entry).
  - by destruct (probe_of entry).
  - by case_bool_decide.
  - intros x [->|Hx]%elem_of_cons; [done|auto].
Qed.
End routed.

(** ** The bounded status against the complete inspection *)

Section agreement.
Context `{Digest} `{JsonReader} `{Primitives}.

(** A record under [k] collides with the control address [k']: the root activation's,
    another record's, or the one its own bytes name. *)
Definition misplaced (c : gmap string string) (k k' : string) : Prop :=
  is_Some (c !! k) ∧ hash_collision k k' ∧
  (k' = ROOT_ACTIVATION_LOGICAL_KEY_V1 ∨ is_Some (c !! k') ∨
   ∃ completion, (c !! k) ≫= (λ b, completion_of (entry_of (k, b))) = Some completion ∧
     k' = com_logical_key completion).

(** An event record under a control key. *)
Definition squatter (c : gmap string string) (k : string) : Prop :=
  (k = ROOT_ACTIVATION_LOGICAL_KEY_V1 ∨ starts_with "bulk_adoption_completion:" k = true) ∧
  ∃ b, c !! k = Some b ∧ is_Some (probe_of (entry_of (k, b))).

Definition ambiguous (c : gmap string string) : Prop :=
  (∃ k k', misplaced c k k') ∨ ∃ k, squatter c k.

Context (c : gmap string string) (entries : list JournalEntry).
Hypothesis Hentries : entries ≡ₚ entry_of <$> map_to_list c.

Lemma stored_entry entry : entry ∈ entries ↔ ∃ k b, entry = entry_of (k, b) ∧ c !! k = Some b.
Proof using Hentries.
  rewrite Hentries, list_elem_of_fmap. split.
  - intros ([k b] & -> & Hk%elem_of_map_to_list). eauto.
  - intros (k & b & -> & Hk). exists (k, b). by rewrite elem_of_map_to_list.
Qed.

Lemma stored_record {A} (f : JournalEntry → option A) a :
  a ∈ omap f entries ↔ ∃ k b, c !! k = Some b ∧ f (entry_of (k, b)) = Some a.
Proof using Hentries.
  rewrite list_elem_of_omap. setoid_rewrite stored_entry. naive_solver.
Qed.

Hypothesis Hadmitted : ∀ entry, entry ∈ entries → admitted entry.

Lemma stored_admitted k b : c !! k = Some b → admitted (entry_of (k, b)).
Proof using Hentries Hadmitted. intros Hk. apply Hadmitted, stored_entry. eauto. Qed.

(** What sits at a control key: an event there makes the journal ambiguous. *)
Lemma stored_control k b :
  c !! k = Some b → k = ROOT_ACTIVATION_LOGICAL_KEY_V1 ∨
    starts_with "bulk_adoption_completion:" k = true →
  is_Some (activation_of (entry_of (k, b))) ∨ is_Some (completion_of (entry_of (k, b))) ∨
  ambiguous c.
Proof using Hentries Hadmitted.
  intros Hk Hc. destruct (admitted_kind _ (stored_admitted k b Hk)) as [?|[?|?]]; [by auto..|].
  right; right; right. exists k. split; eauto.
Qed.

Lemma root_stored a :
  a ∈ omap activation_of entries → act_predecessor_activation_id a = None →
  (∃ b, c !! ROOT_ACTIVATION_LOGICAL_KEY_V1 = Some b ∧ from_slice b = Ok a ∧ act_validate a = Ok ()) ∨
  ambiguous c.
Proof using Hentries Hadmitted.
  intros (k & b & Hk & Ha)%stored_record Hpred.
  destruct (admitted_activation _ (stored_admitted k b Hk) a Ha) as [Hv Hd].
  unfold act_logical_key in Hd. rewrite Hpred in Hd.
  destruct (address_inj k ROOT_ACTIVATION_LOGICAL_KEY_V1 Hd) as [->|Hcol].
  - left. exists b. apply record_as_Some in Ha as [_ Ha]. auto.
  - right; left. exists k, ROOT_ACTIVATION_LOGICAL_KEY_V1. split_and!; eauto.
Qed.

Lemma completion_stored d :
  d ∈ omap completion_of entries →
  (∃ b, c !! com_logical_key d = Some b ∧ from_slice b = Ok d ∧ com_validate d = Ok ()) ∨
  ambiguous c.
Proof using Hentries Hadmitted.
  intros (k & b & Hk & Hd)%stored_record.
  destruct (admitted_completion _ (stored_admitted k b Hk) d Hd) as [Hv Ha].
  destruct (address_inj k (com_logical_key d) Ha) as [->|Hcol].
  - left. exists b. apply record_as_Some in Hd as [_ Hd]. auto.
  - right; left. exists k, (com_logical_key d). split_and!; [eauto..|].
    right; right. exists d. by rewrite Hk.
Qed.

Lemma expected_key a : expected_completion_logical_key a = Ok ("bulk_adoption_completion:" +:+
  ("bulk-adoption-completion" +:+ ":sha256:" +:+ sha256_bytes_hex (json_text (canonical_json_value
    (completion_identity (act_activation_id a) (act_bulk_adoption_manifest_hash a)
      (json_digest (JObject [("schema", to_json "pointbreak.bulk-adoption-record-set.v1");
        ("records", to_json (bm_reserved_records (act_bulk_adoption_manifest a)))]))
      (w_actor_id (act_writer a))))))).
Proof. done. Qed.

Lemma expected_key_shape a key :
  expected_completion_logical_key a = Ok key →
  starts_with "bulk_adoption_completion:" key = true ∧ key ≠ ROOT_ACTIVATION_LOGICAL_KEY_V1.
Proof. rewrite expected_key. intros <-%Ok_eq. by split; [apply starts_with_append|]. Qed.

Lemma com_validate_id d :
  com_validate d = Ok () →
  record_identity "bulk-adoption-completion" (com_identity_view d) = Ok (com_completion_id d).
Proof.
  unfold com_validate. destruct (_ || _); [done|]. intros (id & Hid & Hv)%bind_Ok.
  destruct (String.eqb_spec (com_completion_id d) id) as [->|]; [done|by cbn in Hv].
Qed.

(** The checks of [validate_completion] put the completion at the expected key. *)
Lemma completion_expected d a events :
  validate_completion d a events = Ok () → com_validate d = Ok () →
  expected_completion_logical_key a = Ok (com_logical_key d) ∧
  w_actor_id (com_writer d) = w_actor_id (act_writer a) ∧
  com_activation_id d = act_activation_id a ∧
  com_bulk_adoption_manifest_hash d = act_bulk_adoption_manifest_hash a ∧
  reserved_record_set_hash (bm_reserved_records (act_bulk_adoption_manifest a)) =
    Ok (com_covered_record_set_hash d).
Proof.
  unfold validate_completion. intros Hv Hid%com_validate_id.
  destruct (String.eqb_spec (w_actor_id (com_writer d)) (w_actor_id (act_writer a))) as [E1|];
    [|by cbn in Hv].
  destruct (String.eqb_spec (com_activation_id d) (act_activation_id a)) as [E2|]; [|by cbn in Hv].
  destruct (String.eqb_spec (com_bulk_adoption_manifest_hash d)
    (act_bulk_adoption_manifest_hash a)) as [E3|]; [|by cbn in Hv]. cbn [negb orb] in Hv.
  apply bind_Ok in Hv as ([] & _ & (covered & Hc & Hv)%bind_Ok).
  destruct (String.eqb_spec (com_covered_record_set_hash d) covered) as [E4|]; [|by cbn in Hv].
  split_and!; [|congruence..]. unfold expected_completion_logical_key. rewrite Hc. cbn [rbind].
  unfold com_identity_view in Hid. rewrite E1, E2, E3, E4 in Hid. rewrite Hid. done.
Qed.

Lemma status_required :
  omap activation_of entries = [] → omap completion_of entries = [] →
  status_of c = Ok MigrationRequired ∨ ambiguous c.
Proof using Hentries Hadmitted.
  intros Ha Hc. unfold status_of, pair_state_of.
  destruct (c !! ROOT_ACTIVATION_LOGICAL_KEY_V1) as [b|] eqn:Hb; [|by left].
  destruct (stored_control _ b Hb (or_introl eq_refl)) as [[a Hx]|[[d Hx]|]]; [..|by right].
  - assert (a ∈ omap activation_of entries) as Hin by (apply stored_record; eauto).
    rewrite Ha in Hin. by apply elem_of_nil in Hin.
  - assert (d ∈ omap completion_of entries) as Hin by (apply stored_record; eauto).
    rewrite Hc in Hin. by apply elem_of_nil in Hin.
Qed.

Lemma pair_state_activated a b :
  c !! ROOT_ACTIVATION_LOGICAL_KEY_V1 = Some b → from_slice b = Ok a → act_validate a = Ok () →
  act_predecessor_activation_id a = None →
  pair_state_of c =
    let? key := expected_completion_logical_key a in
    match c !! key with
    | None => Ok (PairMigrationInProgress (act_activation_id a) (act_bulk_adoption_manifest_hash a))
    | Some cb =>
        let? bound := validate_bounded_change_capability_records
          ROOT_ACTIVATION_LOGICAL_KEY_V1 key b cb in
        Ok (PairReady bound)
    end.
Proof.
  intros Hb Ha Hv Hp. unfold pair_state_of. rewrite Hb, Ha. cbn [rbind]. rewrite Hv. cbn [rbind].
  unfold act_logical_key. rewrite Hp, String.eqb_refl. done.
Qed.

Lemma status_in_progress a :
  omap activation_of entries = [a] → act_predecessor_activation_id a = None →
  omap completion_of entries = [] →
  status_of c = Ok (MigrationInProgress (act_activation_id a) (act_bulk_adoption_manifest_hash a)) ∨
  ambiguous c.
Proof using Hentries Hadmitted.
  intros Ha Hp Hc. unfold status_of.
  destruct (root_stored a) as [(b & Hb & Hdec & Hv)|]; [by rewrite Ha; left|done| |by right].
  rewrite (pair_state_activated a b) by done.
  destruct (expected_completion_logical_key a) as [key|] eqn:Hk; [|done]. cbn [rbind].
  destruct (expected_key_shape a key Hk) as [Hs Hne].
  destruct (c !! key) as [cb|] eqn:Hcb; [|by left]. right.
  destruct (stored_control _ cb Hcb (or_intror Hs)) as [[a' Hx]|[[d Hx]|]]; [..|done].
  - assert (a' ∈ omap activation_of entries) as Hin by (apply stored_record; eauto).
    rewrite Ha in Hin. apply list_elem_of_singleton in Hin as ->.
    destruct (admitted_activation _ (stored_admitted key cb Hcb) a Hx) as [_ Hd].
    unfold act_logical_key in Hd. rewrite Hp in Hd.
    destruct (address_inj key _ Hd) as [|Hcol]; [done|].
    left. exists key, ROOT_ACTIVATION_LOGICAL_KEY_V1. split_and!; eauto.
  - assert (d ∈ omap completion_of entries) as Hin by (apply stored_record; eauto).
    rewrite Hc in Hin. by apply elem_of_nil in Hin.
Qed.

Lemma status_ready a d events :
  omap activation_of entries = [a] → act_predecessor_activation_id a = None →
  d ∈ omap completion_of entries → validate_completion d a events = Ok () →
  status_of c = Ok (Ready (act_activation_id a) (act_bulk_adoption_manifest_hash a)
    (com_completion_id d)) ∨ ambiguous c.
Proof using Hentries Hadmitted.
  intros Ha Hp Hd Hval. unfold status_of.
  destruct (root_stored a) as [(b & Hb & Hdec & Hv)|]; [by rewrite Ha; left|done| |by right].
  destruct (completion_stored d Hd) as [(cb & Hcb & Hdec' & Hv')|]; [|by right].
  destruct (completion_expected d a events Hval Hv') as (Hk & E1 & E2 & E3 & E4).
  left. rewrite (pair_state_activated a b) by done. rewrite Hk. cbn [rbind]. rewrite Hcb.
  unfold validate_bounded_change_capability_records.
  rewrite Hdec. cbn [rbind]. rewrite Hv. cbn [rbind]. unfold act_logical_key.
  rewrite Hp, String.eqb_refl. cbn [negb]. rewrite Hdec'. cbn [rbind]. rewrite Hv'. cbn [rbind].
  rewrite String.eqb_refl, E1, E2, E3, !String.eqb_refl. cbn [negb orb].
  rewrite E4. cbn [rbind]. by rewrite String.eqb_refl.
Qed.
End agreement.

Lemma router_status `{Digest} `{JsonReader} `{Primitives} c entries inspection :
  entries ≡ₚ entry_of <$> map_to_list c → route_journal_entries entries = Ok inspection →
  status_of c = Ok (in_status inspection) ∨ ambiguous c.
Proof.
  intros Hc. unfold route_journal_entries.
  intros (r & (R1 & R2 & _ & _ & Hadm)%route_entries_spec & Hr)%bind_Ok. cbn in R1, R2.
  destruct (rt_activations r) as [|a l] eqn:Eacts.
  - destruct (rt_completions r) as [|d ds] eqn:Ecoms; [|done]. cbn [negb orb] in Hr.
    destruct (existsb _ _); [done|].
    apply bind_Ok in Hr as (cs & _ & (cursor & _ & [= <-])%bind_Ok). cbn.
    by apply (status_required c entries).
  - apply bind_Ok in Hr as (active & Hch & Hr). unfold validate_activation_chain in Hch.
    destruct l; [|done]. destruct (act_predecessor_activation_id a) eqn:Hp; [done|].
    injection Hch as <-. unfold activated_inspection in Hr.
    destruct (1 <? length (rt_completions r)); [done|].
    apply bind_Ok in Hr as (st & Hst & (cs & _ & (cursor & _ & [= <-])%bind_Ok)%bind_Ok). cbn.
    destruct (rt_completions r) as [|d ds] eqn:Ecoms.
    + apply bind_Ok in Hst as ([] & _ & [= <-]). by apply (status_in_progress c entries).
    + apply bind_Ok in Hst as ([] & Hv & [= <-]).
      apply (status_ready c entries Hc Hadm a d (rt_event_entries r)); [done..| |done].
      rewrite <- R2. by left.
Qed.

(** ** The gates over a growing journal *)

Section gates.
Context `{Digest} `{JsonReader} `{Primitives}.
Context {S : Type} `{Journal S} `{JournalView S} `{!JournalLaws S}.

(** One write of any writer. *)
Inductive journal_step : S → S → Prop :=
| step_create key bytes s : journal_step s (create_event_once key bytes s).2.

Lemma journal_step_grows s s' : journal_step s s' → carriers s ⊆ carriers s'.
Proof.
  intros [key bytes s0]. pose proof (create_law key bytes s0) as Hl. cbn in Hl.
  destruct (carriers s0 !! key) eqn:E; destruct Hl as [_ ->]; [done|].
  by apply insert_subseteq.
Qed.

Lemma journal_grows s s' : rtc journal_step s s' → carriers s ⊆ carriers s'.
Proof.
  induction 1 as [|s s1 s2 Hs _ IH]; [reflexivity|]. etrans; [by apply journal_step_grows|done].
Qed.

Lemma run_reads {A} (m : io S A) v s : reads m v → (m s).1 = v (carriers s).
Proof. intros Hm. by destruct (Hm s) as (s' & -> & _). Qed.

Lemma reads_list : ∀ s, ∃ l s', list_record_entries s = (Ok l, s') ∧ carriers s' = carriers s ∧
  l ≡ₚ entry_of <$> map_to_list (carriers s).
Proof.
  intros s. destruct (list_law s) as (l & Hl & Hc & Hp & _). unfold list_record_entries.
  destruct (list_event_entries s) as [r s']. cbn in *. exists l, s'. by rewrite Hl.
Qed.

Lemma inspect_routes s : ∃ l, l ≡ₚ entry_of <$> map_to_list (carriers s) ∧
  (inspect_journal_records s).1 = route_journal_entries l ∧
  carriers (inspect_journal_records s).2 = carriers s.
Proof.
  destruct (reads_list s) as (l & s' & Hl & Hc & Hp). exists l. split; [done|].
  unfold inspect_journal_records, io_bind. by rewrite Hl.
Qed.

Lemma pair_state_mono c c' p :
  c ⊆ c' → pair_state_of c = Ok p →
  match p with
  | PairMigrationRequired => True
  | PairMigrationInProgress a m =>
      pair_state_of c' = Ok p ∨ (∃ bound, pair_state_of c' = Ok (PairReady bound) ∧
        bp_activation_id bound = a ∧ bp_manifest_hash bound = m) ∨ ∃ e, pair_state_of c' = Err e
  | PairReady _ => pair_state_of c' = Ok p
  end.
Proof.
  intros Hsub. unfold pair_state_of.
  destruct (c !! ROOT_ACTIVATION_LOGICAL_KEY_V1) as [b|] eqn:Hb; [|by intros [= <-]].
  rewrite (lookup_weaken _ _ _ _ Hb Hsub).
  intros (a & Ha & ([] & Hv & Hp)%bind_Ok)%bind_Ok. rewrite Ha. cbn [rbind]. rewrite Hv. cbn [rbind].
  destruct (negb _) eqn:Hkey; [done|]. apply bind_Ok in Hp as (key & Hk & Hp).
  rewrite Hk. cbn [rbind]. destruct (c !! key) as [cb|] eqn:Hcb.
  - rewrite (lookup_weaken _ _ _ _ Hcb Hsub). apply bind_Ok in Hp as (bound & Hbd & [= <-]).
    rewrite Hbd. done.
  - injection Hp as <-. destruct (c' !! key) as [cb|]; [|by left]. right.
    destruct (validate_bounded_change_capability_records _ _ _ _) as [bound|e] eqn:Hbd;
      [|right; by eexists]. left. exists bound. split; [done|].
    unfold validate_bounded_change_capability_records in Hbd. rewrite Ha in Hbd. cbn [rbind] in Hbd.
    rewrite Hv in Hbd. cbn [rbind] in Hbd. rewrite Hkey in Hbd.
    apply bind_Ok in Hbd as (d & _ & ([] & _ & Hbd)%bind_Ok).
    do 3 (case_match; [done|]). apply bind_Ok in Hbd as (cov & _ & Hbd).
    case_match; [done|]. by injection Hbd as <-.
Qed.

Lemma inspect_agrees s inspection :
  (inspect_journal_records s).1 = Ok inspection →
  status_of (carriers s) = Ok (in_status inspection) ∨ ambiguous (carriers s).
Proof.
  destruct (inspect_routes s) as (l & Hp & -> & _). by apply router_status.
Qed.

Lemma status_activated c st :
  status_of c = Ok st → st ≠ MigrationRequired → is_Some (c !! ROOT_ACTIVATION_LOGICAL_KEY_V1).
Proof.
  unfold status_of, pair_state_of. destruct (c !! ROOT_ACTIVATION_LOGICAL_KEY_V1); [done|].
  by intros [= <-].
Qed.

(** A route that first asks for the root activation, and then inspects. *)
Lemma activated_route {A} (other : io S A) (f : JournalInspection → result A) s :
  is_Some (carriers s !! ROOT_ACTIVATION_LOGICAL_KEY_V1) →
  ∃ s', carriers s' = carriers s ∧
  (io_bind (record_exists ROOT_ACTIVATION_LOGICAL_KEY_V1) (λ activated,
    if negb activated then other
    else let! inspection := inspect_journal_records in pure_io (f inspection)) s).1 =
  (let? inspection := (inspect_journal_records s').1 in f inspection).
Proof.
  intros Hr. unfold io_bind at 1. destruct (reads_exists ROOT_ACTIVATION_LOGICAL_KEY_V1 s) as (s' & He & Hc).
  unfold record_exists. rewrite He, bool_decide_eq_true_2 by done. exists s'. split; [done|]. cbn [negb].
  unfold io_bind. by destruct (inspect_journal_records s') as [[insp|e] s''].
Qed.

Lemma activated_refuses {A} (other : io S A) (f : JournalInspection → result A) s st :
  status_of (carriers s) = Ok st → st ≠ MigrationRequired →
  (∀ inspection, in_status inspection = st → is_ok (f inspection) = false) →
  is_ok (io_bind (record_exists ROOT_ACTIVATION_LOGICAL_KEY_V1) (λ activated,
    if negb activated then other
    else let! inspection := inspect_journal_records in pure_io (f inspection)) s).1 = false ∨
  ambiguous (carriers s).
Proof.
  intros Hst Hne Hf.
  destruct (activated_route other f s (status_activated _ _ Hst Hne)) as (s' & Hc & ->).
  destruct (inspect_journal_records s').1 as [insp|e] eqn:Hi; [|by left]. cbn [rbind].
  apply inspect_agrees in Hi as [Hi|]; rewrite Hc in *; [|by right]. left. apply Hf. congruence.
Qed.

(** C30. Two ways to the status of a store agree.  Whenever the router accepts the
    complete journal, the two point reads of the writer's gate give the router's status
    and its identities, unless a record sits under a key that collides with a control
    address under SHA-256, or an event was stored under a control key. *)
Theorem bounded_status_agrees s inspection :
  (inspect_journal_records s).1 = Ok inspection →
  (bounded_writer_capability_status s).1 = Ok (in_status inspection) ∨ ambiguous (carriers s).
Proof. rewrite (run_reads _ _ s reads_status). apply inspect_agrees. Qed.

(** C31. The capability status of a store only moves forward, whatever is written after
    it was read.  A ready store stays ready with the same identities and admits Change
    writers, and an activation in progress stays the same activation: it completes, or
    the journal becomes invalid. *)
Theorem capability_only_advances s s' :
  rtc journal_step s s' →
  (∀ a m d, (bounded_writer_capability_status s).1 = Ok (Ready a m d) →
    (bounded_writer_capability_status s').1 = Ok (Ready a m d) ∧
    (preflight_change_writer s').1 = Ok () ∧ (preflight_current_product s').1 = Ok ()) ∧
  (∀ a m, (bounded_writer_capability_status s).1 = Ok (MigrationInProgress a m) →
    (bounded_writer_capability_status s').1 = Ok (MigrationInProgress a m) ∨
    (∃ d, (bounded_writer_capability_status s').1 = Ok (Ready a m d)) ∨
    is_ok (bounded_writer_capability_status s').1 = false).
Proof.
  intros Hs%journal_grows. rewrite !(run_reads _ _ _ reads_status),
    (run_reads _ _ _ reads_preflight_change), (run_reads _ _ _ reads_preflight_current).
  unfold status_of. split.
  - intros a m d (p & Hp & Hst)%bind_Ok. pose proof (pair_state_mono _ _ p Hs Hp) as Hm.
    destruct p; try discriminate Hst. injection Hst as <- <- <-. by rewrite Hm.
  - intros a m (p & Hp & Hst)%bind_Ok. pose proof (pair_state_mono _ _ p Hs Hp) as Hm.
    destruct p; try discriminate Hst. injection Hst as <- <-.
    destruct Hm as [->|[(bound & -> & <- & <-)|[e ->]]]; cbn; eauto.
Qed.

(** A store in the middle of a migration is closed.  While the status is in
    progress no Change write and no product read is admitted, on any route, and once
    there is an activation the routes of the event-only product refuse for good; the
    listing routes may differ only in a journal that is ambiguous. *)
Theorem migration_refuses s st (Hst : (bounded_writer_capability_status s).1 = Ok st)
    (Hact : st ≠ MigrationRequired) :
  is_ok (preflight_event_only_product s).1 = false ∧
  (is_ok (event_entries_for_event_only_product s).1 = false ∨ ambiguous (carriers s)) ∧
  (∀ a m, st = MigrationInProgress a m →
    is_ok (preflight_change_writer s).1 = false ∧ is_ok (preflight_current_product s).1 = false ∧
    (is_ok (event_entries_for_current_product s).1 = false ∨ ambiguous (carriers s))).
Proof.
  rewrite (run_reads _ _ _ reads_status) in Hst.
  rewrite (run_reads _ _ _ reads_preflight_change), (run_reads _ _ _ reads_preflight_current), Hst.
  split_and!.
  - unfold preflight_event_only_product, inspect_activated_journal_records. unfold io_bind at 1.
    destruct (activated_route (A:=option JournalInspection) (pure_io (Ok None))
      (λ i, Ok (Some i)) s (status_activated _ _ Hst Hact)) as (s' & _ & Hr).
    destruct (io_bind _ _ s) as [r s'']. cbn in Hr. rewrite Hr.
    destruct (inspect_journal_records s').1 as [i|e]; [|done]. cbn. by destruct (in_status i).
  - apply (activated_refuses _ _ s st); [done..|]. intros i Hi. cbn. rewrite Hi. by destruct st.
  - intros a m ->. split_and!; [done..|].
    apply (activated_refuses _ _ s (MigrationInProgress a m)); [done..|].
    intros i Hi. cbn. by rewrite Hi.
Qed.
End gates.

(** ** Authority cursors *)

(** The entries of the two material lists. *)
Definition record_entry : Serialize (string * string) := λ r,
  JObject [("keyDigest", to_json r.1); ("recordHash", to_json r.2)].
Definition event_entry : Serialize (string * string) := λ e,
  JObject [("eventId", to_json e.1); ("payloadHash", to_json e.2)].

Lemma record_entry_laws : @SerializeLaws (string * string) record_entry.
Proof.
  split.
  - intros r. unfold to_json at 1, record_entry. json_wf_literal.
  - intros [a b] [c d] Heq. unfold to_json at 1 2, record_entry in Heq. cbn [fst snd] in Heq.
    json_fields Heq. by subst.
Qed.

Lemma event_entry_laws : @SerializeLaws (string * string) event_entry.
Proof.
  split.
  - intros r. unfold to_json at 1, event_entry. json_wf_literal.
  - intros [a b] [c d] Heq. unfold to_json at 1 2, event_entry in Heq. cbn [fst snd] in Heq.
    json_fields Heq. by subst.
Qed.

Section cursor.
Context `{DigestLaws}.

Lemma record_set_binding l l' :
  json_digest (record_set_material l) = json_digest (record_set_material l') →
  l = l' ∨ json_collision (record_set_material l) (record_set_material l').
Proof.
  pose proof (@list_SerializeLaws _ record_entry record_entry_laws) as [Hwf Hinj].
  assert (∀ k, json_wf (record_set_material k)) as Hw.
  { intros k. unfold record_set_material. json_wf_literal. pose proof (Hwf k) as Hk. by inversion Hk. }
  intros Heq. destruct (json_digest_binding _ _ (Hw l) (Hw l') Heq) as [He|]; [|by right]. left.
  apply Hinj. exact (equiv_field _ _ "records" _ _ He eq_refl eq_refl).
Qed.

Lemma event_set_binding l l' :
  json_digest (event_set_material l) = json_digest (event_set_material l') →
  l = l' ∨ json_collision (event_set_material l) (event_set_material l').
Proof.
  pose proof (@list_SerializeLaws _ event_entry event_entry_laws) as [Hwf Hinj].
  assert (∀ k, json_wf (event_set_material k)) as Hw.
  { intros k. unfold event_set_material. json_wf_literal. pose proof (Hwf k) as Hk. by inversion Hk. }
  intros Heq. destruct (json_digest_binding _ _ (Hw l) (Hw l') Heq) as [He|]; [|by right]. left.
  apply Hinj. exact (equiv_field _ _ "events" _ _ He eq_refl eq_refl).
Qed.

Definition identity_cmp (left right : JournalRecordIdentityV1) : comparison :=
  String.compare (ri_key_digest left) (ri_key_digest right).

#[local] Instance identity_cmp_total : TotalCmp identity_cmp.
Proof.
  unfold identity_cmp. split; intros *; pose proof string_compare_strict as [[]]; eauto.
Qed.

Definition records_of (identities : list JournalRecordIdentityV1) : list (string * string) :=
  (λ i, (ri_key_digest i, ri_record_sha256 i)) <$> sort_by identity_cmp identities.
Definition events_in (identities : list JournalRecordIdentityV1) : list (string * string) :=
  sort_by string_pair_cmp (omap event_pair (sort_by identity_cmp identities)).

Lemma adjacent_NoDup (l : list JournalRecordIdentityV1) :
  StronglySorted (cmp_le identity_cmp) l →
  adjacent (λ x y, String.eqb (ri_key_digest x) (ri_key_digest y)) l = false ↔
  NoDup (ri_key_digest <$> l).
Proof.
  induction 1 as [|x l Hl IH Hx]; [split; [intros _; constructor|done]|].
  destruct l as [|y l]; [split; [intros _; apply NoDup_singleton|done]|].
  cbn [adjacent]. rewrite orb_false_iff, IH. change (ri_key_digest <$> x :: y :: l) with
    (ri_key_digest x :: (ri_key_digest <$> y :: l)). rewrite NoDup_cons.
  split; intros [Hn Hd]; (split; [|done]).
  - apply String.eqb_neq in Hn. intros (z & Hz & Hin)%list_elem_of_fmap.
    apply Forall_cons in Hx as [Hxy _]. unfold cmp_le, identity_cmp in Hxy.
    apply elem_of_cons in Hin as [->|Hin]; [done|].
    apply StronglySorted_inv in Hl as [_ Hy]. rewrite Forall_forall in Hy. specialize (Hy z Hin).
    unfold cmp_le, identity_cmp in Hy. rewrite <- Hz in Hy.
    rewrite String.compare_antisym in Hy.
    destruct (String.compare (ri_key_digest x) (ri_key_digest y)) eqn:E; [|done..].
    by apply String.compare_eq_iff in E.
  - apply String.eqb_neq. intros He. apply Hn. rewrite He. cbn. by left.
Qed.

Lemma validate_all_Ok identities :
  try_fold (λ _ identity, identity_validate identity) () identities = Ok () ↔
  ∀ i, i ∈ identities → identity_validate i = Ok ().
Proof.
  induction identities as [|i l IH]; cbn [try_fold]; [split; [by intros _ ? ?%elem_of_nil|done]|].
  destruct (identity_validate i) as [[]|e] eqn:E; cbn [rbind].
  - rewrite IH. set_solver.
  - split; [done|]. intros Hi. rewrite Hi in E by set_solver. done.
Qed.

(** A cursor, computed. *)
Lemma cursor_Ok identities capabilities cursor :
  authority_cursor_from_record_identities identities capabilities = Ok cursor ↔
  is_prefixed_sha256 capabilities = true ∧
  (∀ i, i ∈ identities → identity_validate i = Ok ()) ∧ NoDup (ri_key_digest <$> identities) ∧
  cursor = {| ac_schema := AUTHORITY_CURSOR_SCHEMA_V2;
    ac_journal_record_count := u64_count (length (sort_by identity_cmp identities));
    ac_event_count := u64_count (length (events_in identities));
    ac_journal_record_set_hash := json_digest (record_set_material (records_of identities));
    ac_event_set_hash := json_digest (event_set_material (events_in identities));
    ac_capability_set_hash := capabilities |}.
Proof.
  rewrite <- validate_all_Ok. unfold authority_cursor_from_record_identities.
  destruct (is_prefixed_sha256 capabilities); cbn [negb]; [|naive_solver].
  destruct (try_fold _ () identities) as [[]|e]; cbn [rbind]; [|naive_solver].
  fold identity_cmp. pose proof (adjacent_NoDup _ (sort_by_sorted identity_cmp identities)) as Ha.
  assert (NoDup (ri_key_digest <$> sort_by identity_cmp identities) ↔
    NoDup (ri_key_digest <$> identities)) as Hs by by rewrite sort_by_Permutation.
  rewrite Hs in Ha. clear Hs.
  destruct (adjacent _ _).
  - split; [done|]. intros (_ & _ & Hn & _). by apply Ha in Hn.
  - rewrite !sha256_json_prefixed_Ok. cbn [rbind]. split; [intros [= <-]|naive_solver].
    split_and!; [done..|by apply Ha|done].
Qed.

Lemma sorted_identities identities identities' :
  NoDup (ri_key_digest <$> identities) → identities' ≡ₚ identities →
  sort_by identity_cmp identities' = sort_by identity_cmp identities.
Proof.
  intros Hnd Hp. symmetry. apply sort_by_canonical; [apply _| |by symmetry].
  intros x y Hx Hy Hxy%String.compare_eq_iff. by apply (NoDup_fmap_elem ri_key_digest identities).
Qed.

Lemma elem_of_records_of x identities :
  x ∈ records_of identities ↔ ∃ i, i ∈ identities ∧ x = (ri_key_digest i, ri_record_sha256 i).
Proof.
  unfold records_of. rewrite list_elem_of_fmap. setoid_rewrite elem_of_sort_by. naive_solver.
Qed.

Lemma elem_of_events_in x identities :
  x ∈ events_in identities ↔ ∃ i, i ∈ identities ∧ event_pair i = Some x.
Proof.
  unfold events_in. rewrite elem_of_sort_by, list_elem_of_omap. by setoid_rewrite elem_of_sort_by.
Qed.

Lemma event_pair_Some i p :
  event_pair i = Some p ↔
  p.1 = "evt:sha256:" +:+ ri_key_digest i ∧ ri_event_payload_sha256 i = Some p.2.
Proof.
  unfold event_pair. destruct p as [a b], (ri_event_payload_sha256 i); cbn; naive_solver.
Qed.

(** An event of [l] is an event of [l'] at the identity with its key. *)
Lemma shared_event l l' i j p :
  NoDup (ri_key_digest <$> l') → events_in l = events_in l' → i ∈ l → j ∈ l' →
  ri_key_digest i = ri_key_digest j → ri_event_payload_sha256 i = Some p →
  ri_event_payload_sha256 j = Some p.
Proof.
  intros Hnd He Hi Hj Hk Hp.
  assert (("evt:sha256:" +:+ ri_key_digest i, p) ∈ events_in l') as Hin.
  { rewrite <- He. apply elem_of_events_in. exists i. split; [done|]. by apply event_pair_Some. }
  apply elem_of_events_in in Hin as (j' & Hj' & [Hk' Hp']%event_pair_Some).
  apply append_inj_l in Hk'. cbn in Hp'.
  by rewrite (NoDup_fmap_elem _ _ j j' Hnd Hj Hj') by congruence.
Qed.

(** Records and events determine the identities. *)
Lemma identities_determined l l' :
  NoDup (ri_key_digest <$> l) → NoDup (ri_key_digest <$> l') →
  records_of l = records_of l' → events_in l = events_in l' → ∀ i, i ∈ l → i ∈ l'.
Proof.
  intros Hnd Hnd' Hr He i Hi.
  assert ((ri_key_digest i, ri_record_sha256 i) ∈ records_of l') as Hj.
  { rewrite <- Hr. apply elem_of_records_of. eauto. }
  apply elem_of_records_of in Hj as (j & Hj & [= Hk Hs]).
  assert (ri_event_payload_sha256 i = ri_event_payload_sha256 j) as Hp.
  { destruct (ri_event_payload_sha256 i) as [p|] eqn:Ei.
    - symmetry. by apply (shared_event l l' i j).
    - destruct (ri_event_payload_sha256 j) as [p|] eqn:Ej; [|done].
      by rewrite (shared_event l' l j i p) in Ei. }
  assert (i = j) as ->; [|done]. destruct i, j. cbn in *. congruence.
Qed.

(** An authority cursor names the journal it was taken from.  It does not depend on
    the order of the records, and two journals with one cursor have the same records and
    events, unless the material of the record sets or of the event sets collides. *)
Theorem cursor_identifies_journal identities capabilities cursor :
  authority_cursor_from_record_identities identities capabilities = Ok cursor →
  (∀ identities', identities' ≡ₚ identities →
    authority_cursor_from_record_identities identities' capabilities = Ok cursor) ∧
  (∀ identities' capabilities',
    authority_cursor_from_record_identities identities' capabilities' = Ok cursor →
    capabilities' = capabilities ∧
    (identities ≡ₚ identities' ∨
     json_collision (record_set_material (records_of identities))
       (record_set_material (records_of identities')) ∨
     json_collision (event_set_material (events_in identities))
       (event_set_material (events_in identities')))).
Proof.
  intros (Hp & Hv & Hnd & Hc)%cursor_Ok. split.
  - intros l Hl. apply cursor_Ok. split_and!; [done| |by rewrite Hl|].
    + intros i. rewrite Hl. apply Hv.
    + unfold records_of, events_in in *. by rewrite (sorted_identities identities l Hnd Hl).
  - intros l caps (_ & _ & Hnd' & Hc')%cursor_Ok. rewrite Hc in Hc'.
    pose proof (f_equal ac_journal_record_set_hash Hc') as Hr.
    pose proof (f_equal ac_event_set_hash Hc') as He.
    pose proof (f_equal ac_capability_set_hash Hc') as Hcaps. cbn [ac_journal_record_set_hash
      ac_event_set_hash ac_capability_set_hash] in Hr, He, Hcaps. split; [done|].
    destruct (record_set_binding _ _ Hr) as [Hr'|]; [|by right; left].
    destruct (event_set_binding _ _ He) as [He'|]; [|by right; right]. left.
    apply NoDup_Permutation; [by apply (NoDup_fmap_1 ri_key_digest)..|].
    intros i. split; by apply identities_determined.
Qed.
End cursor.

(** ** A migrated store

    A signer for the example primitives, an activation and its completion, and the
    in-memory journal after each of the two was published. *)

Module Example.
#[local] Existing Instances example_digest example_digest_laws example_reader example_reader_laws
  example_primitives.
#[local] Existing Instances Memory.InMemoryJournal Memory.InMemoryView Memory.InMemoryLaws.

#[local] Instance signer : EventSigner := {|
  signer_id := from_ed25519_public_key "0123456789abcdef0123456789abcdef";
  sign_event_message := λ m, Ok (str_take 64 ("0123456789abcdef0123456789abcdef" +:+ m))
|}.

Definition digest : string := "sha256:" +:+ sha256_bytes_hex "records".

Definition cursor : AuthorityCursorV2 := {|
  ac_schema := AUTHORITY_CURSOR_SCHEMA_V2; ac_journal_record_count := 0; ac_event_count := 0;
  ac_journal_record_set_hash := digest; ac_event_set_hash := digest;
  ac_capability_set_hash := digest |}.

Definition writer : Writer := {| w_actor_id := "actor:agent:a"; w_producer := {| wp_name := "shore"; wp_version := "1" |} |}.

Definition activation : result StoreCapabilityActivationV1 :=
  let? manifest := from_reserved_records cursor [] in
  build_signed_activation manifest "nonce" writer "2026-01-01T00:00:00Z".

Definition completion : result BulkAdoptionCompletionV1 :=
  let? a := activation in build_signed_completion a writer "2026-01-02T00:00:00Z".

Definition publish_activation : io Memory.InMemoryStore CreateOutcome :=
  let! a := pure_io activation in publish_control_record (act_logical_key a) a.
Definition publish_completion : io Memory.InMemoryStore CreateOutcome :=
  let! d := pure_io completion in publish_control_record (com_logical_key d) d.

Definition migrating : Memory.InMemoryStore := (publish_activation (Memory.new 0)).2.
Definition migrated : Memory.InMemoryStore := (publish_completion migrating).2.

Lemma bounded_status_agrees_witness :
  (bounded_writer_capability_status migrated).1 =
    (let? i := (inspect_journal_records migrated).1 in Ok (in_status i)) ∨
  ambiguous (carriers migrated).
Proof.
  destruct (inspect_journal_records migrated).1 as [i|] eqn:Hi; [|by vm_compute in Hi].
  exact (bounded_status_agrees migrated i Hi).
Defined.

Lemma capability_only_advances_witness : ∃ a m,
  (bounded_writer_capability_status migrating).1 = Ok (MigrationInProgress a m) ∧
  ((bounded_writer_capability_status migrated).1 = Ok (MigrationInProgress a m) ∨
   (∃ d, (bounded_writer_capability_status migrated).1 = Ok (Ready a m d)) ∨
   is_ok (bounded_writer_capability_status migrated).1 = false).
Proof.
  eexists _, _. split; [vm_compute; reflexivity|].
  apply (proj2 (capability_only_advances migrating migrated
    (rtc_once _ _ (step_create _ _ migrating)))).
  vm_compute. reflexivity.
Defined.

Lemma migration_refuses_witness : ∃ a m,
  (bounded_writer_capability_status migrating).1 = Ok (MigrationInProgress a m) ∧
  is_ok (preflight_change_writer migrating).1 = false ∧
  is_ok (preflight_current_product migrating).1 = false.
Proof.
  eexists _, _. split; [vm_compute; reflexivity|].
  destruct (bounded_writer_capability_status migrating).1 as [[|a m|a m d]|] eqn:Hst;
    try (exfalso; vm_compute in Hst; discriminate Hst).
  destruct (migration_refuses migrating _ Hst ltac:(discriminate)) as (_ & _ & Hr).
  destruct (Hr a m eq_refl) as (Hc & Hp & _). exact (conj Hc Hp).
Defined.

Definition identities : list JournalRecordIdentityV1 :=
  (λ k, {| ri_key_digest := sha256_bytes_hex k; ri_record_sha256 := digest;
           ri_event_payload_sha256 := Some digest |}) <$> ["b"; "a"].

Lemma cursor_identifies_journal_witness : ∃ cursor,
  authority_cursor_from_record_identities identities digest = Ok cursor ∧
  authority_cursor_from_record_identities (rev identities) digest = Ok cursor.
Proof.
  destruct (authority_cursor_from_record_identities identities digest) as [cursor|] eqn:Hc;
    [|by vm_compute in Hc].
  exists cursor. split; [done|].
  apply (proj1 (cursor_identifies_journal identities digest cursor Hc)).
  symmetry. apply Permutation_rev.
Defined.
End Example.
