(* ===== verification/EventStore.v ===== *)
(** * The event store ([src/src/session/store/event_store.rs])

    Recording events once under their idempotency key and reading them back, over any
    journal.  The store is the one without a derived-write coordinator, whose index is a
    database: a write is acknowledged with [EventWriteAcknowledgement::off].  The lock of
    a file-backed store is an operation that may fail and leaves the records alone. *)

From S2P Require Import Prelude RustStr BTree Model Acknowledgement CanonicalHash Crypto Events Wire.
From S2P Require Import Journal EventCodec Capabilities CapabilityRouter CapabilityProofs.

(** [StoreAuthorityLock::acquire] where the store has files, nothing where it has not. *)
Class Authority (S : Type) := acquire_authority : io S unit.

Class AuthorityLaws (S : Type) `{Authority S} `{JournalView S} : Prop :=
  acquire_law (s : S) : carriers (acquire_authority s).2 = carriers s.

Record ValidatedJournalEntry := {
  vj_event : ShoreEvent;
  vj_validation_witness : string;
  vj_carrier_bytes : N
}.

Record SkippedEvent := { se_code : string; se_record : SchemaBreakRecord }.

Section store.
Context `{Digest} `{JsonReader} `{Primitives}.
Context {S : Type} `{Journal S} `{Authority S}.

Definition read_stored_event (idempotency_key : string) : io S ShoreEvent :=
  let! bytes := read_event_bytes idempotency_key in
  let! bytes := pure_io (ok_or bytes (Message ("stored event for idempotency key " +:+
    idempotency_key +:+ " disappeared during write"))) in
  let! event := pure_io (decode_validated_event bytes None) in
  if negb (String.eqb (ev_idempotency_key event) idempotency_key) then
    pure_io (Err (filename_idempotency_mismatch idempotency_key))
  else pure_io (Ok event).

(** What a write of [event] over the stored [existing] reports. *)
Definition classify_existing (existing event : ShoreEvent) : result EventWriteOutcome :=
  if String.eqb (ev_payload_hash existing) (ev_payload_hash event) then
    if event_signature_binding_matches existing event then Ok Existing
    else
    let? existing_hash := event_record_hash existing in
    let? event_hash := event_record_hash event in
    if String.eqb existing_hash event_hash then Ok ExistingDivergentSignature else Ok Existing
  else Err (Message ("event conflict for idempotency key " +:+ ev_idempotency_key event)).

Definition publish_validated_event (event : ShoreEvent) (bytes : string)
    : io S EventWriteOutcome :=
  let! outcome := create_event_once (ev_idempotency_key event) bytes in
  match outcome with
  | Journal.Created => pure_io (Ok Acknowledgement.Created)
  | AlreadyExists =>
      let! existing := read_stored_event (ev_idempotency_key event) in
      pure_io (classify_existing existing event)
  end.

(** [EventWriteAcknowledgement::off]; its [expect] is a panic. *)
Definition acknowledge_off (outcome : EventWriteOutcome) : result EventWriteAcknowledgement :=
  ok_or (ewa_off outcome) (Panicked "writer branch supplies a valid token").

(** [EventWriteBatch::record_event_once_acknowledged]. *)
Definition batch_record_event_once_acknowledged (event : ShoreEvent)
    : io S EventWriteAcknowledgement :=
  let! _ := pure_io (validate_event event None) in
  let! bytes := pure_io (to_vec event) in
  let! outcome := publish_validated_event event bytes in
  pure_io (acknowledge_off outcome).

Definition batch_record_event_once (event : ShoreEvent) : io S EventWriteOutcome :=
  let! ack := batch_record_event_once_acknowledged event in
  pure_io (Ok (ewa_outcome ack)).

Definition begin_current_product_batch : io S unit :=
  let! _ := acquire_authority in
  preflight_current_product.

Definition record_event_once_acknowledged (event : ShoreEvent) : io S EventWriteAcknowledgement :=
  let! _ := begin_current_product_batch in
  batch_record_event_once_acknowledged event.

Definition record_event_once (event : ShoreEvent) : io S EventWriteOutcome :=
  let! ack := record_event_once_acknowledged event in
  pure_io (Ok (ewa_outcome ack)).

Definition record_change_event_once_acknowledged (event : ShoreEvent)
    : io S EventWriteAcknowledgement :=
  let! _ := acquire_authority in
  let! _ := preflight_change_writer in
  let! _ := pure_io (validate_event event None) in
  let! bytes := pure_io (to_vec event) in
  let! outcome := publish_validated_event event bytes in
  pure_io (acknowledge_off outcome).

Definition record_change_event_once (event : ShoreEvent) : io S EventWriteOutcome :=
  let! ack := record_change_event_once_acknowledged event in
  pure_io (Ok (ewa_outcome ack)).

(** [list_change_events]. *)
Definition list_change_events : io S (list ShoreEvent) :=
  let! _ := preflight_change_writer in
  let! inspection := inspect_journal_records in
  pure_io (mapM (λ entry, decode_qualification_entry (je_key_digest entry) (je_bytes entry))
    (in_event_entries inspection)).

Definition list_events_untracked : io S (list ShoreEvent) :=
  let! entries := event_entries_for_current_product in
  pure_io (mapM decode_validated_entry entries).

Definition list_events : io S (list ShoreEvent) :=
  let! events := list_events_untracked in
  pure_io (Ok events).

Definition list_events_with_witnesses : io S (list ValidatedJournalEntry) :=
  let! entries := event_entries_for_current_product in
  pure_io (mapM (λ entry,
    let carrier_bytes := u64_count (String.length (je_bytes entry)) in
    let validation_witness := sha256_bytes_hex (je_bytes entry) in
    let? event := decode_validated_entry entry in
    Ok {| vj_event := event; vj_validation_witness := validation_witness;
          vj_carrier_bytes := carrier_bytes |}) entries).

(** One round of the loop of [list_events_lenient]. *)
Definition lenient_step (acc : list ShoreEvent * list SkippedEvent) (entry : JournalEntry)
    : result (list ShoreEvent * list SkippedEvent) :=
  match decode_validated_entry entry with
  | Ok event => Ok (acc.1 ++ [event], acc.2)
  | Err (UnsupportedEventType record) =>
      Ok (acc.1, acc.2 ++ [{| se_code := "unsupported_event_type"; se_record := record |}])
  | Err (UnsupportedEventEnvelope record) =>
      Ok (acc.1, acc.2 ++ [{| se_code := "unsupported_event_envelope"; se_record := record |}])
  | Err other => Err other
  end.

Definition list_events_lenient : io S (list ShoreEvent * list SkippedEvent) :=
  let! entries := event_entries_for_current_product in
  pure_io (try_fold lenient_step ([], []) entries).

(** [EventStore::event_exists]. *)
Definition store_event_exists (idempotency_key : string) : io S bool :=
  event_exists idempotency_key.
End store.
