(* ===== verification/EventStoreProofs.v ===== *)
(** * What the event store guarantees

    The store refines an append-only map from idempotency keys to events in which the
    first write of a key wins; a listing is the map's events by address; stores that
    exchange their events list the same. *)

From Stdlib Require Import Permutation.
From S2P Require Import Prelude RustStr BTree Model Acknowledgement CanonicalHash Crypto Events Wire.
From S2P Require Import Journal EventCodec Capabilities CapabilityRouter CapabilityProofs EventStore.

(** ** The abstract store *)

Section abstract.
Context `{Digest} `{JsonReader} `{Primitives}.

(** The event a record holds, if it holds the one its key names. *)
Definition event_at (k b : string) : option ShoreEvent :=
  match decode_validated_event b None with
  | Ok e => if String.eqb (ev_idempotency_key e) k then Some e else None
  | Err _ => None
  end.

Definition events_of (c : gmap string string) : gmap string ShoreEvent := map_imap event_at c.

(** A second write under a key: another payload is a conflict, the same record under
    another signature is reported as such, and everything else is the record again. *)
Definition existing_outcome (old e : ShoreEvent) : result EventWriteOutcome :=
  if decide (ev_payload_hash old ≠ ev_payload_hash e) then
    Err (Message ("event conflict for idempotency key " +:+ ev_idempotency_key e))
  else if decide ((ev_signer old, ev_signature old) ≠ (ev_signer e, ev_signature e) ∧
      json_digest (record_view old) = json_digest (record_view e)) then
    Ok ExistingDivergentSignature
  else Ok Existing.

(** First stored wins. *)
Definition store_write (m : gmap string ShoreEvent) (e : ShoreEvent)
    : result EventWriteOutcome * gmap string ShoreEvent :=
  match m !! ev_idempotency_key e with
  | None => (Ok Acknowledgement.Created, <[ev_idempotency_key e := e]> m)
  | Some existing => (existing_outcome existing e, m)
  end.

(** The gates, on the records. *)
Definition admits_writes (c : gmap string string) : bool :=
  match status_of c with Ok (MigrationInProgress _ _) | Err _ => false | Ok _ => true end.
Definition admits_changes (c : gmap string string) : bool :=
  match status_of c with Ok (Ready _ _ _) => true | _ => false end.

(** The event is valid, and its key is free or an event's. *)
Definition writable (c : gmap string string) (e : ShoreEvent) : Prop :=
  validate_event e None = Ok () ∧
  (is_Some (c !! ev_idempotency_key e) → is_Some (events_of c !! ev_idempotency_key e)).

Lemma classify_exact old e : classify_existing old e = existing_outcome old e.
Proof.
  unfold classify_existing, existing_outcome, event_signature_binding_matches, event_record_hash.
  rewrite !sha256_json_prefixed_Ok. cbn [rbind].
  destruct (String.eqb_spec (ev_payload_hash old) (ev_payload_hash e)) as [Hp|Hp];
    [rewrite decide_False by tauto|by rewrite decide_True].
  destruct (bool_decide (ev_signer old = ev_signer e) &&
    bool_decide (ev_signature old = ev_signature e)) eqn:E.
  - apply andb_true_iff in E as [->%bool_decide_eq_true ->%bool_decide_eq_true].
    by rewrite decide_False by tauto.
  - destruct (String.eqb_spec (json_digest (record_view old)) (json_digest (record_view e)));
      [rewrite decide_True|by rewrite decide_False by tauto]; [done|]. split; [|done].
    intros [= E1 E2]. by rewrite E1, E2, !bool_decide_eq_true_2 in E by done.
Qed.

Lemma event_at_Some k b e :
  event_at k b = Some e ↔ decode_validated_event b None = Ok e ∧ ev_idempotency_key e = k.
Proof.
  unfold event_at. destruct (decode_validated_event b None) as [e'|]; [|naive_solver].
  destruct (String.eqb_spec (ev_idempotency_key e') k); naive_solver.
Qed.

Lemma lookup_events_of c k : events_of c !! k = c !! k ≫= event_at k.
Proof. apply map_lookup_imap. Qed.

Lemma events_of_mono c c' : c ⊆ c' → events_of c ⊆ events_of c'.
Proof.
  intros Hsub. apply map_subseteq_spec. intros k e. rewrite !lookup_events_of.
  destruct (c !! k) as [b|] eqn:Hb; [|done]. by rewrite (lookup_weaken _ _ _ _ Hb Hsub).
Qed.

Lemma events_of_insert c k b : c !! k = None →
  events_of (<[k := b]> c) = match event_at k b with
    | Some e => <[k := e]> (events_of c) | None => events_of c end.
Proof.
  intros Hk. apply map_eq. intros k'. rewrite lookup_events_of.
  destruct (decide (k = k')) as [<-|Hne].
  - rewrite lookup_insert. destruct (decide (k = k)); [|done]. cbn.
    destruct (event_at k b); [by rewrite lookup_insert_eq|]. by rewrite lookup_events_of, Hk.
  - rewrite lookup_insert_ne by done. destruct (event_at k b);
      [rewrite lookup_insert_ne by done|]; by rewrite lookup_events_of.
Qed.
End abstract.

Section writes.
Context `{JsonReaderLaws} `{Primitives}.
Context {S : Type} `{Journal S} `{JournalView S} `{!JournalLaws S}.
Context `{Authority S} `{!AuthorityLaws S}.

Lemma event_at_own e b :
  event_wf e → validate_event e None = Ok () → to_vec e = Ok b →
  event_at (ev_idempotency_key e) b = Some e.
Proof. intros Hwf Hv Hb. unfold event_at. by rewrite (decode_own e b Hwf Hv Hb), String.eqb_refl. Qed.

Lemma reads_stored key : reads (read_stored_event key) (λ c,
  let? b := ok_or (c !! key) (Message ("stored event for idempotency key " +:+ key +:+
    " disappeared during write")) in
  let? e := decode_validated_event b None in
  if negb (String.eqb (ev_idempotency_key e) key) then Err (filename_idempotency_mismatch key)
  else Ok e).
Proof.
  apply (reads_ext _ (λ c, let? o := Ok (c !! key) in
    let? b := ok_or o (Message ("stored event for idempotency key " +:+ key +:+
      " disappeared during write")) in
    let? e := decode_validated_event b None in
    if negb (String.eqb (ev_idempotency_key e) key) then Err (filename_idempotency_mismatch key)
    else Ok e)); [done|].
  apply (reads_bind _ _ _ (λ o _, _) (reads_read key)). intros o s.
  unfold io_bind, pure_io. destruct (ok_or o _); cbn; [|by eexists].
  destruct (decode_validated_event _ None) as [e|]; cbn; [|by eexists].
  destruct (negb _); by eexists.
Qed.

(** Publishing over a journal is the abstract write. *)
Lemma publish_refines s e b :
  event_wf e → validate_event e None = Ok () → to_vec e = Ok b →
  let r := publish_validated_event e b s in
  (writable (carriers s) e → (r.1, events_of (carriers r.2)) = store_write (events_of (carriers s)) e) ∧
  (¬ writable (carriers s) e → is_ok r.1 = false ∧ carriers r.2 = carriers s) ∧
  (carriers r.2 = carriers s ∨ carriers s !! ev_idempotency_key e = None ∧
    carriers r.2 = <[ev_idempotency_key e := b]> (carriers s)).
Proof.
  intros Hwf Hv Hb. cbn zeta. destruct (publish_validated_event e b s) as [r s'] eqn:Hr.
  cbn [fst snd]. revert Hr. unfold publish_validated_event, writable, store_write. unfold io_bind at 1.
  pose proof (create_law (ev_idempotency_key e) b s) as Hc. cbn zeta in Hc.
  destruct (create_event_once (ev_idempotency_key e) b s) as [out s1]. cbn [fst snd] in Hc.
  rewrite lookup_events_of.
  destruct (carriers s !! ev_idempotency_key e) as [b'|] eqn:Hk; destruct Hc as [-> Hc].
  - unfold io_bind at 1. destruct (reads_stored (ev_idempotency_key e) s1) as (s2 & -> & Hc2).
    rewrite Hc, Hk. cbn [ok_or rbind mbind option_bind]. unfold event_at.
    destruct (decode_validated_event b' None) as [old|err]; cbn [rbind].
    + destruct (String.eqb (ev_idempotency_key old) (ev_idempotency_key e)); cbn [negb];
        intros [= <- <-].
      * split_and!; [|intros Hn; destruct Hn; split; [done|by eexists]|left; congruence].
        intros _. by rewrite Hc2, Hc, classify_exact.
      * split_and!; [intros [_ Hx]; by destruct (Hx ltac:(by eexists))|split; [done|congruence]|
          left; congruence].
    + intros [= <- <-].
      split_and!; [intros [_ Hx]; by destruct (Hx ltac:(by eexists))|split; [done|congruence]|
        left; congruence].
  - intros [= <- <-]. split_and!; [|intros Hn; destruct Hn; split; [done|by intros [? ?]]|by right].
    intros _. cbn [mbind option_bind].
    by rewrite Hc, events_of_insert, (event_at_own e b Hwf Hv Hb).
Qed.

(** [w] is a write of [e] over the records [c], admitted or not. *)
Record refines_write (w : result EventWriteOutcome * S) (c : gmap string string)
    (e : ShoreEvent) (admitted : bool) : Prop := {
  write_accepted : admitted = true → writable c e →
    (w.1, events_of (carriers w.2)) = store_write (events_of c) e;
  write_refused : admitted = false ∨ ¬ writable c e →
    is_ok w.1 = false ∧ carriers w.2 = c;
  write_footprint : carriers w.2 = c ∨ c !! ev_idempotency_key e = None ∧
    ∃ b, to_vec e = Ok b ∧ carriers w.2 = <[ev_idempotency_key e := b]> c
}.

Lemma batch_refines s e :
  event_wf e → refines_write (batch_record_event_once e s) (carriers s) e true.
Proof.
  intros Hwf. unfold batch_record_event_once, batch_record_event_once_acknowledged.
  rewrite !io_bind_assoc, io_bind_pure.
  destruct (validate_event e None) as [[]|err] eqn:Hv.
  - rewrite !io_bind_assoc, io_bind_pure. destruct (to_vec e) as [b|] eqn:Hb; [|done].
    pose proof (publish_refines s e b Hwf Hv Hb) as (Ha & Hn & Hf). rewrite io_bind_assoc.
    unfold io_bind at 1. destruct (publish_validated_event e b s) as [r s'].
    cbn [fst snd] in *. split.
    + intros _ Hw. rewrite <- Ha by done. unfold io_bind. by destruct r as [[]|].
    + intros [|Hw]; [done|]. destruct (Hn Hw) as [Hr <-]. by destruct r.
    + destruct r as [[]|]; cbn; naive_solver.
  - split; cbn; unfold writable; [|done|by left]. intros _ [Hx _]. congruence.
Qed.

Lemma gated_refines (gate : io S unit) s e (Hwf : event_wf e) :
  carriers (gate s).2 = carriers s →
  refines_write (io_bind gate (λ _, batch_record_event_once e) s) (carriers s) e (is_ok (gate s).1).
Proof.
  intros Hc. unfold io_bind at 1. destruct (gate s) as [[[]|err] s']; cbn [fst snd is_ok] in *.
  - rewrite <- Hc. by apply batch_refines.
  - split; [done..|by left].
Qed.

Lemma admission (preflight : io S unit) g s (admits : gmap string string → bool) :
  reads preflight g → (∀ c, is_ok (g c) = admits c) →
  carriers ((let! _ := acquire_authority in preflight) s).2 = carriers s ∧
  is_ok ((let! _ := acquire_authority in preflight) s).1 =
    is_ok (acquire_authority s).1 && admits (carriers s).
Proof.
  intros Hr Hg. unfold io_bind. pose proof (acquire_law s) as Hc.
  destruct (acquire_authority s) as [[[]|err] s1]; cbn [fst snd is_ok andb] in *; [|done].
  destruct (Hr s1) as (s2 & -> & Hc2). cbn [fst snd]. rewrite Hc2, Hg. split; congruence.
Qed.
End writes.

(** ** Listing *)

(** A schema probe sees the schema the event decoder sees. *)
Lemma schema_of_event `{JsonReader} b p (e : ShoreEvent) :
  from_slice (A:=SchemaProbe) b = Ok p → from_slice b = Ok e → sp_schema p = ev_schema e.
Proof.
  unfold from_slice. destruct (read_json b) as [v|]; [|done].
  unfold from_json, SchemaProbe_Deserialize, ShoreEvent_Deserialize.
  intros (o & Ho & (sch & Hs & [= <-])%bind_Ok)%bind_Ok (o' & Ho' & He)%bind_Ok.
  assert (o' = o) as ->.
  { unfold struct_entries in *. destruct v as [| | | |vs|kvs]; try done.
    - destruct ((1 <=? length vs) && _) eqn:E in Ho; [|done]. destruct (_ && _) eqn:E' in Ho'; [|done].
      apply andb_true_iff in E as [_ E%Nat.leb_le]. apply andb_true_iff in E' as [E'%Nat.leb_le _].
      cbn in E. lia.
    - do 2 (case_bool_decide; [|done]). congruence. }
  apply bind_Ok in He as (sch' & Hs' & He). rewrite Hs in Hs'. injection Hs' as <-.
  repeat (apply bind_Ok in He as (? & _ & He)). by injection He as <-.
Qed.

Section listing.
Context `{Digest} `{JsonReader} `{Primitives}.

(** A record holds an event whose key collides with the record's. *)
Definition misfiled (c : gmap string string) : Prop := ∃ k b e,
  c !! k = Some b ∧ decode_validated_event b None = Ok e ∧ hash_collision (ev_idempotency_key e) k.

(** A record the router admits and that holds an event is routed as one. *)
Lemma event_at_routed k b e :
  event_at k b = Some e → admitted (entry_of (k, b)) → is_Some (probe_of (entry_of (k, b))).
Proof.
  intros [Hd _]%event_at_Some Hadm. apply decode_sound in Hd as [Hd Hv].
  apply validate_event_inv in Hv as (_ & _ & Hv & _).
  assert (∀ sch, record_schema (entry_of (k, b)) = Some sch → sch = "shore.event") as Hs.
  { unfold record_schema. cbn [je_bytes entry_of snd]. intros sch.
    destruct (from_slice (A:=SchemaProbe) b) as [sp|] eqn:Hp; [|done]. intros [= <-].
    by rewrite (schema_of_event b sp e Hp Hd). }
  destruct (admitted_kind _ Hadm) as [[a Ha]|[[d Ha]|]]; [..|done];
    apply record_as_Some in Ha as [Ha%Hs _]; discriminate Ha.
Qed.

Lemma decode_entry_at k b e :
  decode_validated_entry (entry_of (k, b)) = Ok e →
  event_at k b = Some e ∨
  decode_validated_event b None = Ok e ∧ hash_collision (ev_idempotency_key e) k.
Proof.
  unfold decode_validated_entry, event_at. cbn [je_bytes entry_of snd je_key_digest fst].
  intros (e' & -> & He)%bind_Ok.
  destruct (String.eqb_spec (event_filename_stem (ev_idempotency_key e')) (event_filename_stem k))
    as [Hs|]; [|done]. injection He as ->.
  destruct (address_inj _ _ Hs) as [->|Hcol]; [left; by rewrite String.eqb_refl|by right].
Qed.

Definition keyed (e : ShoreEvent) : string * ShoreEvent := (ev_idempotency_key e, e).

(** Decoding the records [kvs], which include every record with an event. *)
Lemma decode_listing c kvs entries l :
  NoDup kvs.*1 → (∀ k b, (k, b) ∈ kvs → c !! k = Some b) →
  (∀ k b e, c !! k = Some b → event_at k b = Some e → (k, b) ∈ kvs) →
  entries ≡ₚ entry_of <$> kvs → mapM decode_validated_entry entries = Ok l →
  misfiled c ∨ keyed <$> l ≡ₚ map_to_list (events_of c).
Proof.
  intros Hnd Hin Hall Hp Hl%mapM_Ok.
  destruct (Permutation_Forall2 Hp Hl) as (l' & Hl' & HF). apply Forall2_fmap_l in HF.
  assert (misfiled c ∨ Forall2 (λ kv e, event_at kv.1 kv.2 = Some e) kvs l') as [|HF'];
    [|by left|].
  { clear Hnd Hall Hp Hl Hl'. induction HF as [|[k b] e kvs l' He HF IH]; [by right|].
    destruct IH as [|IH]; [set_solver|by left|].
    destruct (decode_entry_at k b e He) as [Ha|[Hd Hcol]]; [right; by constructor|].
    left. exists k, b, e. split_and!; [apply Hin; by left|done..]. }
  right. rewrite Hl'. apply NoDup_Permutation.
  - apply (NoDup_fmap_1 fst). rewrite <- list_fmap_compose.
    assert (fst ∘ keyed <$> l' = kvs.*1) as ->; [|done].
    clear -HF'. induction HF' as [|[k b] e kvs l' He _ IH]; [done|]. cbn. rewrite IH.
    apply event_at_Some in He as [_ He]. cbn in He. by subst k.
  - apply NoDup_map_to_list.
  - intros [k e]. rewrite elem_of_map_to_list, lookup_events_of, list_elem_of_fmap. split.
    + intros (e' & [= -> ->] & Hx). apply list_elem_of_lookup in Hx as [i Hi].
      destruct (Forall2_lookup_r _ _ _ _ _ HF' Hi) as ([k b] & Hkv & He). cbn in He.
      assert (k = ev_idempotency_key e') as -> by (by apply event_at_Some in He as [_ <-]).
      apply list_elem_of_lookup_2 in Hkv. by rewrite (Hin _ _ Hkv).
    + destruct (c !! k) as [b|] eqn:Hk; [|done]. cbn. intros He. exists e.
      pose proof (Hall k b e Hk He) as Hx. apply list_elem_of_lookup in Hx as [i Hi].
      destruct (Forall2_lookup_l _ _ _ _ _ HF' Hi) as (e' & Hl'' & He'). cbn in He'.
      rewrite He in He'. injection He' as <-. split; [|by eapply list_elem_of_lookup_2].
      by apply event_at_Some in He as [_ <-].
Qed.
End listing.

Lemma filter_bool_Permutation {A} (f : A → bool) l l' : l ≡ₚ l' → List.filter f l ≡ₚ List.filter f l'.
Proof.
  induction 1 as [|x l l' _ IH|x y l|]; cbn; [done| | |by etrans].
  - destruct (f x); [by constructor|done].
  - destruct (f x), (f y); try done. by constructor.
Qed.

Lemma filter_bool_fmap {A B} (f : B → bool) (g : A → B) l :
  List.filter f (g <$> l) = g <$> List.filter (λ x, f (g x)) l.
Proof. induction l as [|x l IH]; [done|]. cbn. destruct (f (g x)); cbn; by rewrite IH. Qed.

Lemma filter_bool_sorted {A} (R : A → A → Prop) (f : A → bool) l :
  StronglySorted R l → StronglySorted R (List.filter f l).
Proof.
  induction 1 as [|x l Hl IH Hx]; cbn; [constructor|]. destruct (f x); [|done].
  constructor; [done|]. rewrite List.Forall_forall in Hx |- *.
  intros y [Hy _]%List.filter_In. by apply Hx.
Qed.

Lemma filter_bool_NoDup_fst {A B} (f : A * B → bool) (l : list (A * B)) :
  NoDup l.*1 → NoDup (List.filter f l).*1.
Proof.
  induction l as [|x l IH]; cbn; [done|]. intros [Hx Hl]%NoDup_cons.
  destruct (f x); [|by apply IH]. cbn. apply NoDup_cons. split; [|by apply IH].
  intros (y & Hxy & Hy)%list_elem_of_fmap. apply list_elem_of_In, List.filter_In in Hy as [Hy _].
  apply Hx, list_elem_of_fmap. exists y. by rewrite list_elem_of_In.
Qed.

Section listing_store.
Context `{Digest} `{JsonReader} `{Primitives}.
Context {S : Type} `{Journal S} `{JournalView S} `{!JournalLaws S}.

Lemma route_events entries inspection :
  route_journal_entries entries = Ok inspection →
  in_event_entries inspection =
    List.filter (λ entry, bool_decide (is_Some (probe_of entry))) entries ∧
  ∀ entry, entry ∈ entries → admitted entry.
Proof.
  unfold route_journal_entries.
  intros (r & (_ & _ & _ & R4 & Hadm)%route_entries_spec & Hr)%bind_Ok. cbn in R4.
  split; [|done]. rewrite <- R4. destruct (rt_activations r) as [|a l].
  - destruct (_ || _); [done|]. by apply bind_Ok in Hr as (cs & _ & (cursor & _ & [= <-])%bind_Ok).
  - apply bind_Ok in Hr as (active & _ & Hr). unfold activated_inspection in Hr.
    destruct (1 <? length (rt_completions r)); [done|].
    by apply bind_Ok in Hr as (st & _ & (cs & _ & (cursor & _ & [= <-])%bind_Ok)%bind_Ok).
Qed.

(** The records of a listing: each once, with its bytes, and every one with an event. *)
Record lists_events (c : gmap string string) (kvs : list (string * string))
    (entries : list JournalEntry) : Prop := {
  le_distinct : NoDup kvs.*1;
  le_stored k b : (k, b) ∈ kvs → c !! k = Some b;
  le_all k b e : c !! k = Some b → event_at k b = Some e → (k, b) ∈ kvs;
  le_entries : entries ≡ₚ entry_of <$> kvs;
  le_sorted : StronglySorted (cmp_le entry_cmp) entries
}.

Lemma list_all s : ∃ l s', list_event_entries s = (Ok l, s') ∧ carriers s' = carriers s ∧
  l ≡ₚ entry_of <$> map_to_list (carriers s) ∧ StronglySorted (cmp_le entry_cmp) l.
Proof.
  destruct (list_law s) as (l & Hl & Hc & Hp & Hs). destruct (list_event_entries s) as [r s'].
  exists l, s'. cbn in *. by subst r.
Qed.

Lemma current_entries s entries :
  (event_entries_for_current_product s).1 = Ok entries →
  ∃ kvs, lists_events (carriers s) kvs entries.
Proof.
  unfold event_entries_for_current_product, record_exists. unfold io_bind at 1.
  destruct (reads_exists ROOT_ACTIVATION_LOGICAL_KEY_V1 s) as (s1 & -> & Hc).
  destruct (list_all s1) as (l & s2 & Hl & _ & Hp & Hs). rewrite Hc in Hp.
  case_bool_decide as Hroot; cbn [negb].
  - unfold inspect_journal_records, list_record_entries. rewrite io_bind_assoc. unfold io_bind at 1.
    rewrite Hl, io_bind_pure. destruct (route_journal_entries l) as [insp|] eqn:Hr; [|done]. cbn.
    apply route_events in Hr as [Hev Hadm]. destruct (in_status insp); [done..|]. intros [= <-].
    rewrite Hev. exists (List.filter (λ kv, bool_decide (is_Some (probe_of (entry_of kv))))
      (map_to_list (carriers s))). split.
    + apply filter_bool_NoDup_fst, NoDup_fst_map_to_list.
    + intros k b Hin. apply elem_of_map_to_list, list_elem_of_In.
      by apply list_elem_of_In, List.filter_In in Hin as [? _].
    + intros k b e Hk He. apply list_elem_of_In, List.filter_In. split.
      { by apply list_elem_of_In, elem_of_map_to_list. }
      apply bool_decide_eq_true, (event_at_routed k b e He), Hadm. rewrite Hp.
      apply list_elem_of_fmap. exists (k, b). by rewrite elem_of_map_to_list.
    + etrans; [apply filter_bool_Permutation, Hp|]. by rewrite filter_bool_fmap.
    + by apply filter_bool_sorted.
  - rewrite Hl. intros [= <-]. exists (map_to_list (carriers s)). split; [|..|done|done].
    + apply NoDup_fst_map_to_list.
    + intros k b. apply elem_of_map_to_list.
    + intros k b e Hk _. by apply elem_of_map_to_list.
Qed.

Definition address_cmp (e e' : ShoreEvent) : comparison :=
  String.compare (event_filename_stem (ev_idempotency_key e))
    (event_filename_stem (ev_idempotency_key e')).

Lemma decode_sorted entries l :
  mapM decode_validated_entry entries = Ok l → StronglySorted (cmp_le entry_cmp) entries →
  StronglySorted (cmp_le address_cmp) l.
Proof.
  intros Hl%mapM_Ok Hs. apply StronglySorted_of_lookup. intros i j e e' Hij Hi Hj.
  destruct (Forall2_lookup_r _ _ _ _ _ Hl Hi) as (x & Hx & Hd%decode_entry_sound).
  destruct (Forall2_lookup_r _ _ _ _ _ Hl Hj) as (y & Hy & Hd'%decode_entry_sound).
  pose proof (StronglySorted_lookup _ _ i j x y Hs Hij Hx Hy) as Hxy.
  destruct Hd as (_ & _ & Hd), Hd' as (_ & _ & Hd'). unfold cmp_le, entry_cmp in Hxy.
  unfold cmp_le, address_cmp. by rewrite <- Hd, <- Hd'.
Qed.

Lemma list_events_runs s :
  (list_events s).1 = let? entries := (event_entries_for_current_product s).1 in
    mapM decode_validated_entry entries.
Proof.
  unfold list_events, list_events_untracked, io_bind.
  destruct (event_entries_for_current_product s) as [[entries|] s']; [|done]. cbn.
  by destruct (mapM decode_validated_entry entries).
Qed.

Lemma list_events_spec s l :
  (list_events s).1 = Ok l →
  StronglySorted (cmp_le address_cmp) l ∧
  (misfiled (carriers s) ∨ keyed <$> l ≡ₚ map_to_list (events_of (carriers s))).
Proof.
  rewrite list_events_runs. intros (entries & Hen & Hl)%bind_Ok.
  apply current_entries in Hen as (kvs & Hk). split; [eapply decode_sorted; [done|apply Hk]|].
  destruct Hk. by eapply decode_listing.
Qed.
End listing_store.

(** ** Stores of events only *)

Section clean.
Context `{JsonReaderLaws} `{Primitives}.
Context {S : Type} `{Journal S} `{JournalView S} `{!JournalLaws S}.
Context `{Authority S} `{!AuthorityLaws S}.

(** Every record is an event under its own key, none of them the activation's. *)
Record clean (c : gmap string string) : Prop := {
  clean_root : c !! ROOT_ACTIVATION_LOGICAL_KEY_V1 = None;
  clean_events k b : c !! k = Some b → is_Some (event_at k b)
}.

(** An event the store can take. *)
Record recordable (e : ShoreEvent) : Prop := {
  rec_wf : event_wf e;
  rec_valid : validate_event e None = Ok ();
  rec_key : ev_idempotency_key e ≠ ROOT_ACTIVATION_LOGICAL_KEY_V1
}.

Lemma clean_not_misfiled c : clean c → ¬ misfiled c.
Proof.
  intros Hc (k & b & e & Hk & Hd & [Hne _]). destruct (clean_events c Hc k b Hk) as [e' He'].
  apply event_at_Some in He' as [Hd' <-]. congruence.
Qed.

Lemma clean_admits c : clean c → admits_writes c = true.
Proof. intros Hc. unfold admits_writes, status_of, pair_state_of. by rewrite (clean_root c Hc). Qed.

Lemma clean_writable c e : clean c → validate_event e None = Ok () → writable c e.
Proof.
  intros Hc Hv. split; [done|]. intros [b Hb]. rewrite lookup_events_of, Hb.
  by apply (clean_events c Hc).
Qed.

Lemma clean_lists s : clean (carriers s) → ∃ l, (list_events s).1 = Ok l.
Proof.
  intros Hc. rewrite list_events_runs. unfold event_entries_for_current_product, record_exists.
  unfold io_bind at 1. destruct (reads_exists ROOT_ACTIVATION_LOGICAL_KEY_V1 s) as (s1 & -> & Hc1).
  rewrite bool_decide_eq_false_2 by (rewrite (clean_root _ Hc); apply is_Some_None). cbn [negb].
  destruct (list_all s1) as (l & s2 & -> & _ & Hp & _). cbn [fst rbind]. rewrite Hc1 in Hp.
  assert (∀ entry, entry ∈ l → ∃ e, decode_validated_entry entry = Ok e) as Hd.
  { intros entry Hin. rewrite Hp in Hin. apply list_elem_of_fmap in Hin as ([k b] & -> & Hkb).
    apply elem_of_map_to_list in Hkb. destruct (clean_events _ Hc k b Hkb) as [e He].
    apply event_at_Some in He as [Hd <-]. exists e.
    unfold decode_validated_entry. cbn [je_bytes je_key_digest entry_of fst snd]. rewrite Hd. cbn.
    by rewrite String.eqb_refl. }
  clear Hp. induction l as [|x l IH]; [by exists []|].
  destruct (Hd x) as [e He]; [by left|]. destruct IH as [l' Hl']; [set_solver|].
  exists (e :: l'). cbn. rewrite He. cbn. by rewrite Hl'.
Qed.

Lemma event_once_refines s e : event_wf e →
  refines_write (record_event_once e s) (carriers s) e
    (is_ok (acquire_authority s).1 && admits_writes (carriers s)).
Proof.
  intros Hwf. unfold record_event_once, record_event_once_acknowledged. rewrite io_bind_assoc.
  destruct (admission preflight_current_product _ s admits_writes reads_preflight_current)
    as [Hc Hok].
  { intros c. unfold admits_writes. by destruct (status_of c) as [[]|]. }
  rewrite <- Hok. by apply (gated_refines begin_current_product_batch s e Hwf).
Qed.

Lemma change_once_refines s e : event_wf e →
  refines_write (record_change_event_once e s) (carriers s) e
    (is_ok (acquire_authority s).1 && admits_changes (carriers s)).
Proof.
  intros Hwf. unfold record_change_event_once, record_change_event_once_acknowledged.
  destruct (admission preflight_change_writer _ s admits_changes reads_preflight_change)
    as [Hc Hok].
  { intros c. unfold admits_changes. by destruct (status_of c) as [[]|]. }
  rewrite <- Hok. pose proof (gated_refines (let! _ := acquire_authority in
    preflight_change_writer) s e Hwf Hc) as Hg.
  rewrite io_bind_assoc in Hg. rewrite io_bind_assoc. unfold io_bind at 1 in Hg. unfold io_bind at 1.
  destruct (acquire_authority s) as [[[]|] s1]; [|exact Hg]. rewrite io_bind_assoc. exact Hg.
Qed.

(** Recording one event after the other. *)
Definition record_all (es : list ShoreEvent) (s : S) : S :=
  foldl (λ s e, (record_event_once e s).2) s es.

Hypothesis Hopen : ∀ s : S, is_ok (acquire_authority s).1 = true.

Lemma record_one s e :
  clean (carriers s) → recordable e →
  clean (carriers (record_event_once e s).2) ∧
  events_of (carriers (record_event_once e s).2) =
    events_of (carriers s) ∪ {[ev_idempotency_key e := e]}.
Proof using All.
  intros Hc [Hwf Hv Hk]. pose proof (event_once_refines s e Hwf) as [Ha _ Hf].
  rewrite Hopen, clean_admits in Ha by done. specialize (Ha eq_refl (clean_writable _ e Hc Hv)).
  destruct (record_event_once e s) as [r s']. cbn [fst snd] in *. split.
  - destruct Hf as [->|(Hn & b & Hb & ->)]; [done|]. split.
    + rewrite lookup_insert_ne by done. apply Hc.
    + intros k b' Hk'. apply lookup_insert_Some in Hk' as [[<- <-]|[_ Hk']]; [|by apply Hc].
      rewrite (event_at_own e b Hwf Hv Hb). by eexists.
  - unfold store_write in Ha. destruct (events_of (carriers s) !! ev_idempotency_key e) as [old|] eqn:E;
      injection Ha as _ ->; apply map_eq; intros k; rewrite lookup_union, ?lookup_insert, lookup_singleton;
      case_decide; subst; try rewrite E; try done; try by destruct (events_of (carriers s) !! k).
Qed.

(** The store holds what it held, and of the events recorded the first of each key. *)
Lemma record_all_events es s :
  clean (carriers s) → (∀ e, e ∈ es → recordable e) →
  clean (carriers (record_all es s)) ∧
  events_of (carriers (record_all es s)) =
    events_of (carriers s) ∪ list_to_map (keyed <$> es).
Proof using All.
  revert s. induction es as [|e es IH]; intros s Hc Hes; cbn.
  - split; [done|]. by rewrite map_union_empty.
  - destruct (record_one s e Hc) as [Hc' He]; [set_solver|].
    destruct (IH _ Hc') as [Hc'' Hev]; [set_solver|]. split; [done|].
    unfold record_all in Hev. rewrite Hev, He, <- (assoc_L (∪)). f_equal.
    by rewrite insert_union_singleton_l.
Qed.
End clean.

(** ** Properties *)

Section properties.
Context `{JsonReaderLaws} `{Primitives}.
Context {S : Type} `{Journal S} `{JournalView S} `{!JournalLaws S}.
Context `{Authority S} `{!AuthorityLaws S}.

(** C1. The event store refines a map from keys to events in which the first write of
    a key wins.  A write that is admitted changes the map and reports its outcome as the
    abstract write does; a write that is not (the lock is taken, a migration is in
    progress, for Change events the store is not ready, the event is invalid, or its key
    holds something else) fails and leaves every record as it was. *)
Theorem event_writes_refine s e (Hwf : event_wf e) :
  refines_write (record_event_once e s) (carriers s) e
    (is_ok (acquire_authority s).1 && admits_writes (carriers s)) ∧
  refines_write (record_change_event_once e s) (carriers s) e
    (is_ok (acquire_authority s).1 && admits_changes (carriers s)).
Proof. split; [by apply event_once_refines|by apply change_once_refines]. Qed.

(** C2. A listing is the content of the store.  It has every stored event exactly once,
    ordered by the address of its key, and only a record whose event's key collides with
    the record's under SHA-256 can break this; a store that holds nothing but events can
    always be listed. *)
Theorem listing_exact s :
  (∀ l, (list_events s).1 = Ok l →
    StronglySorted (cmp_le address_cmp) l ∧
    (misfiled (carriers s) ∨ keyed <$> l ≡ₚ map_to_list (events_of (carriers s)))) ∧
  (clean (carriers s) → ∃ l, (list_events s).1 = Ok l ∧
    keyed <$> l ≡ₚ map_to_list (events_of (carriers s))).
Proof.
  split; [apply list_events_spec|]. intros Hc. destruct (clean_lists s Hc) as [l Hl].
  exists l. split; [done|]. destruct (list_events_spec s l Hl) as [_ [Hm|]]; [|done].
  by apply clean_not_misfiled in Hm.
Qed.

(** The map of a listing. *)
Lemma listed_map s l :
  clean (carriers s) → (list_events s).1 = Ok l →
  list_to_map (keyed <$> l) = events_of (carriers s) ∧ ∀ e, e ∈ l → recordable e.
Proof.
  intros Hc Hl. destruct (list_events_spec s l Hl) as [_ [Hm|Hp]].
  { by apply clean_not_misfiled in Hm. }
  split.
  - rewrite (list_to_map_proper _ (map_to_list (events_of (carriers s))));
      [apply list_to_map_to_list| |done]. rewrite Hp. apply NoDup_fst_map_to_list.
  - intros e He. assert (keyed e ∈ map_to_list (events_of (carriers s))) as Hin.
    { rewrite <- Hp. by apply list_elem_of_fmap_2. }
    apply elem_of_map_to_list in Hin. rewrite lookup_events_of in Hin.
    destruct (carriers s !! ev_idempotency_key e) as [b|] eqn:Hb; [|done]. cbn in Hin.
    apply event_at_Some in Hin as [[Hs Hv]%decode_sound _]. split; [by eapply event_bytes_wf|done|].
    intros Hk. rewrite Hk, (clean_root _ Hc) in Hb. done.
Qed.

Lemma permuted_map s l l' :
  clean (carriers s) → (list_events s).1 = Ok l → l' ≡ₚ l →
  list_to_map (keyed <$> l') = events_of (carriers s).
Proof.
  intros Hc Hl Hp. destruct (listed_map s l Hc Hl) as [<- _]. apply list_to_map_proper; [|by rewrite Hp].
  rewrite Hp. destruct (list_events_spec s l Hl) as [_ [Hm|Hp']]; [by apply clean_not_misfiled in Hm|].
  rewrite Hp'. apply NoDup_fst_map_to_list.
Qed.

Lemma listed_elem s l k e :
  clean (carriers s) → (list_events s).1 = Ok l → events_of (carriers s) !! k = Some e →
  e ∈ l ∧ ev_idempotency_key e = k.
Proof.
  intros Hc Hl Hk. destruct (list_events_spec s l Hl) as [_ [Hm|Hp]]; [by apply clean_not_misfiled in Hm|].
  assert ((k, e) ∈ keyed <$> l) as Hin by (by rewrite Hp, elem_of_map_to_list).
  apply list_elem_of_fmap in Hin as (e' & [= -> ->] & He). done.
Qed.

Lemma sorted_listing l1 l2 :
  StronglySorted (cmp_le address_cmp) l1 → StronglySorted (cmp_le address_cmp) l2 →
  NoDup (ev_idempotency_key <$> l1) → l1 ≡ₚ l2 →
  l1 = l2 ∨ ∃ e e', e ∈ l1 ∧ e' ∈ l1 ∧ hash_collision (ev_idempotency_key e) (ev_idempotency_key e').
Proof.
  intros Hs1 Hs2 Hnd Hp.
  destruct (decide (Exists (λ e, Exists (λ e', ev_idempotency_key e ≠ ev_idempotency_key e' ∧
    sha256 (ev_idempotency_key e) = sha256 (ev_idempotency_key e')) l1) l1)) as [Hx|Hn].
  { right. apply Exists_exists in Hx as (e & He & Hx). apply Exists_exists in Hx as (e' & He' & Hx).
    by exists e, e'. }
  left. apply (StronglySorted_unique_strong (cmp_le address_cmp)); [|done..].
  intros e e' He He' Hle Hge. rewrite <- Hp in He'.
  assert (ev_idempotency_key e = ev_idempotency_key e') as Hk.
  { unfold cmp_le, address_cmp in *. rewrite String.compare_antisym in Hge.
    destruct (String.compare _ _) eqn:E in Hle; [|by rewrite E in Hge|done].
    apply String.compare_eq_iff in E. destruct (address_inj _ _ E) as [|Hcol]; [done|].
    destruct Hn. apply Exists_exists. exists e. split; [done|]. apply Exists_exists. by exists e'. }
  by apply (NoDup_fmap_elem ev_idempotency_key l1).
Qed.

(** The listing of a store of events, up to order. *)
Lemma clean_listing s :
  clean (carriers s) → ∃ l, (list_events s).1 = Ok l ∧ StronglySorted (cmp_le address_cmp) l ∧
    keyed <$> l ≡ₚ map_to_list (events_of (carriers s)) ∧ NoDup (ev_idempotency_key <$> l).
Proof.
  intros Hc. destruct (clean_lists s Hc) as [l Hl]. exists l.
  destruct (list_events_spec s l Hl) as [Hs [Hm|Hp]]; [by apply clean_not_misfiled in Hm|].
  split_and!; [done..|].
  assert (ev_idempotency_key <$> l = (keyed <$> l).*1) as -> by by rewrite <- list_fmap_compose.
  rewrite Hp. apply NoDup_fst_map_to_list.
Qed.

Lemma same_events_same_listing s s' :
  clean (carriers s) → clean (carriers s') →
  events_of (carriers s) = events_of (carriers s') →
  (∃ l, (list_events s).1 = Ok l ∧ (list_events s').1 = Ok l) ∨
  ∃ k k', is_Some (events_of (carriers s) !! k) ∧ is_Some (events_of (carriers s) !! k') ∧
    hash_collision k k'.
Proof.
  intros Hc Hc' Heq. destruct (clean_listing s Hc) as (l & Hl & Hs & Hp & Hnd).
  destruct (clean_listing s' Hc') as (l' & Hl' & Hs' & Hp' & _). rewrite <- Heq in Hp'.
  assert (l ≡ₚ l') as Hll.
  { assert (∀ x, (keyed <$> x).*2 = x) as Hsnd.
    { intros x. rewrite <- list_fmap_compose. apply list_fmap_id. }
    rewrite <- (Hsnd l), <- (Hsnd l'). by rewrite Hp, Hp'. }
  destruct (sorted_listing l l' Hs Hs' Hnd Hll) as [<-|(e & e' & He & He' & Hcol)]; [left; eauto|].
  right. exists (ev_idempotency_key e), (ev_idempotency_key e'). split_and!; [..|done].
  - exists e. apply elem_of_map_to_list. rewrite <- Hp. by apply (list_elem_of_fmap_2 keyed).
  - exists e'. apply elem_of_map_to_list. rewrite <- Hp. by apply (list_elem_of_fmap_2 keyed).
Qed.

(** C3. Replicas converge.  Two stores of events that record each other's listings, in
    whatever state they were and in whatever order, list the same events in the same
    order afterwards, provided they do not hold different events under one key, and no
    two keys among them collide under SHA-256; each of them keeps what it had. *)
Theorem replicas_converge (Hopen : ∀ s : S, is_ok (acquire_authority s).1 = true)
    s1 s2 es1 es2 fs1 fs2 (Hc1 : clean (carriers s1)) (Hc2 : clean (carriers s2))
    (Hl1 : (list_events s1).1 = Ok es1) (Hl2 : (list_events s2).1 = Ok es2)
    (Hp1 : fs1 ≡ₚ es1) (Hp2 : fs2 ≡ₚ es2)
    (Hagree : ∀ e1 e2, e1 ∈ es1 → e2 ∈ es2 →
      ev_idempotency_key e1 = ev_idempotency_key e2 → e1 = e2) :
  let t1 := record_all fs2 s1 in let t2 := record_all fs1 s2 in
  events_of (carriers s1) ⊆ events_of (carriers t1) ∧
  events_of (carriers s2) ⊆ events_of (carriers t2) ∧
  ((∃ l, (list_events t1).1 = Ok l ∧ (list_events t2).1 = Ok l) ∨
   ∃ k k', is_Some (events_of (carriers t1) !! k) ∧ is_Some (events_of (carriers t1) !! k') ∧
     hash_collision k k').
Proof.
  cbn zeta. destruct (listed_map s1 es1 Hc1 Hl1) as [M1 R1]. destruct (listed_map s2 es2 Hc2 Hl2) as [M2 R2].
  assert (list_to_map (keyed <$> fs1) = events_of (carriers s1)) as M1'
    by by apply (permuted_map s1 es1).
  assert (list_to_map (keyed <$> fs2) = events_of (carriers s2)) as M2'
    by by apply (permuted_map s2 es2).
  destruct (record_all_events Hopen fs2 s1 Hc1) as [D1 E1]; [intros e; rewrite Hp2; apply R2|].
  destruct (record_all_events Hopen fs1 s2 Hc2) as [D2 E2]; [intros e; rewrite Hp1; apply R1|].
  rewrite M2' in E1. rewrite M1' in E2. split_and!.
  - rewrite E1. apply map_union_subseteq_l.
  - rewrite E2. apply map_union_subseteq_l.
  - apply same_events_same_listing; [done..|]. rewrite E1, E2. apply map_eq. intros k.
    rewrite !lookup_union.
    destruct (events_of (carriers s1) !! k) as [e1|] eqn:K1, (events_of (carriers s2) !! k) as [e2|] eqn:K2;
      try done. cbn. f_equal.
    destruct (listed_elem s1 es1 k e1 Hc1 Hl1 K1), (listed_elem s2 es2 k e2 Hc2 Hl2 K2).
    apply Hagree; [done..|congruence].
Qed.
End properties.

(** ** Two stores in memory *)

Module Example.
#[local] Existing Instances example_digest example_digest_laws example_reader example_reader_laws
  example_primitives.
#[local] Existing Instances Memory.InMemoryJournal Memory.InMemoryView Memory.InMemoryLaws.

#[local] Instance authority : Authority Memory.InMemoryStore := pure_io (Ok ()).
#[local] Instance authority_laws : AuthorityLaws Memory.InMemoryStore.
Proof. done. Qed.

Lemma authority_open (s : Memory.InMemoryStore) : is_ok (acquire_authority s).1 = true.
Proof. done. Qed.

Definition event (key text : string) : ShoreEvent := {|
  ev_schema := EVENT_SCHEMA; ev_version := EVENT_VERSION;
  ev_event_id := event_id_for_idempotency_key key; ev_event_type := ReviewInitialized;
  ev_idempotency_key := key; ev_target := for_journal "journal:default";
  ev_writer := shore_local "0.1"; ev_occurred_at := "2025-01-01T00:00:00.000Z";
  ev_payload_hash := json_digest (JString text);
  ev_assertion_mode := Advisory; ev_signer := None; ev_signature := None; ev_source_ref := None;
  ev_ingest := None; ev_content_encoding := []; ev_payload_version := 1;
  ev_payload := JString text |}.

Lemma event_is_wf key text : trim key ≠ EmptyString → event_wf (event key text).
Proof.
  intros Hk. split; cbn; [done|done|done|done|constructor].
Qed.

Definition empty : Memory.InMemoryStore := Memory.new 0.
Definition left_store := record_all [event "t:01:a" "a"] empty.
Definition right_store := record_all [event "t:01:b" "b"; event "t:01:a" "a"] empty.

Lemma empty_clean : clean (carriers empty).
Proof. by split. Qed.

Lemma event_recordable key text :
  trim key ≠ EmptyString → key ≠ ROOT_ACTIVATION_LOGICAL_KEY_V1 → recordable (event key text).
Proof.
  intros Ht Hk. split; [by apply event_is_wf| |done]. unfold validate_event.
  cbn [rbind validate_schema_version event ev_schema ev_version ev_event_type ev_event_id
    ev_idempotency_key ev_payload_hash ev_payload]. unfold event_id_for_idempotency_key.
  rewrite sha256_json_prefixed_Ok. cbn. by rewrite !String.eqb_refl.
Qed.

Lemma left_clean : clean (carriers left_store).
Proof.
  apply (record_all_events authority_open _ empty empty_clean).
  intros e [->|[]%elem_of_nil]%elem_of_cons. by apply event_recordable.
Qed.

Lemma right_clean : clean (carriers right_store).
Proof.
  apply (record_all_events authority_open _ empty empty_clean).
  intros e [->|[->|[]%elem_of_nil]%elem_of_cons]%elem_of_cons; by apply event_recordable.
Qed.

Lemma event_writes_refine_witness :
  (record_event_once (event "t:01:a" "b") left_store).1 =
    Err (Message "event conflict for idempotency key t:01:a") ∧
  carriers (record_event_once (event "t:01:a" "b") left_store).2 = carriers left_store ∧
  refines_write (record_event_once (event "t:01:a" "b") left_store) (carriers left_store)
    (event "t:01:a" "b") true.
Proof.
  split_and!; [vm_compute; reflexivity..|].
  exact (proj1 (event_writes_refine left_store (event "t:01:a" "b")
    (event_is_wf "t:01:a" "b" ltac:(discriminate)))).
Defined.

Lemma listing_exact_witness : ∃ l, (list_events right_store).1 = Ok l ∧
  keyed <$> l ≡ₚ map_to_list (events_of (carriers right_store)).
Proof. exact (proj2 (listing_exact right_store) right_clean). Defined.

Lemma replicas_converge_witness : ∃ es1 es2,
  (list_events left_store).1 = Ok es1 ∧ (list_events right_store).1 = Ok es2 ∧
  events_of (carriers left_store) ⊆ events_of (carriers (record_all es2 left_store)).
Proof.
  exists [event "t:01:a" "a"], [event "t:01:a" "a"; event "t:01:b" "b"].
  split_and!; [vm_compute; reflexivity..|].
  refine (proj1 (replicas_converge authority_open left_store right_store
    [event "t:01:a" "a"] [event "t:01:a" "a"; event "t:01:b" "b"] _ _
    left_clean right_clean _ _ (Permutation_refl _) (Permutation_refl _) _)).
  - vm_compute; reflexivity.
  - vm_compute; reflexivity.
  - intros e1 e2 [->|[]%elem_of_nil]%elem_of_cons
      [->|[->|[]%elem_of_nil]%elem_of_cons]%elem_of_cons; [done|]. intros Hk. discriminate Hk.
Defined.
End Example.
