(* ===== verification/Signing.v ===== *)
(** * Signatures, trust and policy ([src/src/session/signing])

    The committed allow-list of signers, verification of inline signatures and of
    detached co-signatures, the gate every carrier passes before it is stored, the
    ingest policy, and the writer's signing step. *)

From S2P Require Import Prelude RustStr BTree Model Acknowledgement CanonicalHash Crypto Events Wire.
From S2P Require Import Capabilities.

(** ** The trust set ([trust.rs]) *)

Record TrustSet := { allowed_signers : gmap ActorId (gset SignerId) }.

Definition TrustSet_default : TrustSet := {| allowed_signers := ∅ |}.

(** The allow-list as [serde_json] writes the nested maps. *)
Definition allowed_signers_value (t : TrustSet) : json :=
  JObject ((λ p : ActorId * gset SignerId, (p.1, JArray (JString <$> iter_set p.2))) <$>
    iter_map (allowed_signers t)).

Definition identity_sha256 `{Digest} (t : TrustSet) : result string :=
  sha256_json_prefixed (JObject [
    ("schema", JString "pointbreak.runtime-trust-set-identity.v1");
    ("allowedSigners", allowed_signers_value t)]).

Definition contains_signer (t : TrustSet) (signer : SignerId) : bool :=
  existsb (λ signers, bool_decide (signer ∈ signers)) (map_values (allowed_signers t)).

Definition reverse_resolve (t : TrustSet) (signer : SignerId) : gset ActorId :=
  set_of_list ((List.filter (λ p : ActorId * gset SignerId, bool_decide (signer ∈ p.2))
    (iter_map (allowed_signers t))).*1).

Definition actors_for_signer (t : TrustSet) (signer : SignerId) : gset ActorId :=
  reverse_resolve t signer.

(** The set afterwards, and whether the pair is new. *)
Definition insert_signer (t : TrustSet) (actor : ActorId) (signer : SignerId) : TrustSet * bool :=
  let signers := default ∅ (allowed_signers t !! actor) in
  ({| allowed_signers := <[actor := signers ∪ {[signer]}]> (allowed_signers t) |},
   negb (bool_decide (signer ∈ signers))).

Definition invalid_trust_set (reason : string) : ShoreError :=
  WorkflowInputInvalid ("invalid event signature trust set: " +:+ reason).

(** The entries of a [serde_json::Map], in its key order. *)
Definition map_entries (o : list (string * json)) : list (string * json) :=
  sort_by (λ p q : string * json, String.compare p.1 q.1) o.

Section trust.
Context `{Primitives}.

Definition authorizes (t : TrustSet) (actor : ActorId) (signer : SignerId) (occurred_at : string)
    : bool :=
  match SignerId_parse actor with
  | Ok actor_signer => String.eqb actor_signer signer
  | Err _ => false
  end ||
  match allowed_signers t !! actor with
  | Some signers => bool_decide (signer ∈ signers)
  | None => false
  end.

Definition parse_allowed (actor : string) (signers : json) : result (gset SignerId) :=
  match signers with
  | JArray signers =>
      try_fold (λ parsed signer,
        let? signer := ok_or (json_as_str signer)
          (invalid_trust_set ("allowed signer for " +:+ actor +:+ " must be a string")) in
        let? signer := SignerId_parse signer in
        Ok (parsed ∪ {[signer]})) ∅ signers
  | _ => Err (invalid_trust_set ("allowed signers for " +:+ actor +:+ " must be an array"))
  end.

Definition event_signature_trust_set (value : json) : result TrustSet :=
  match json_get value "allowedSigners" with
  | Some (JObject allowed) =>
      let? allowed_signers := try_fold (λ (m : gmap ActorId (gset SignerId)) p,
        let? parsed := parse_allowed p.1 p.2 in
        Ok (<[p.1 := parsed]> m)) ∅ (map_entries allowed) in
      Ok {| allowed_signers := allowed_signers |}
  | _ => Err (invalid_trust_set "missing allowedSigners object")
  end.
End trust.

(** ** Enrollment ([enroll.rs]) *)

Definition enroll_signer (existing : option TrustSet) (actor : ActorId) (signer_id : SignerId)
    : TrustSet :=
  (insert_signer (default TrustSet_default existing) actor signer_id).1.

Definition trust_set_to_value (t : TrustSet) : json :=
  JObject [("allowedSigners", allowed_signers_value t)].

(** What [stage_enrollment] reports. *)
Definition enrollment_added (existing : option TrustSet) (actor : ActorId) (signer_id : SignerId)
    : bool :=
  negb match existing ≫= (λ t, allowed_signers t !! actor) with
       | Some signers => bool_decide (signer_id ∈ signers)
       | None => false
       end.

(** [stage_enrollment]: the document read (or [None] where there is no file), and the
    document written with [EnrollmentDiff::added]. *)
Definition stage_enrollment `{Primitives} (file : option json) (actor : ActorId)
    (signer_id : SignerId) : result (json * bool) :=
  let? existing :=
    match file with
    | Some value => let? t := event_signature_trust_set value in Ok (Some t)
    | None => Ok None
    end in
  let added := enrollment_added existing actor signer_id in
  let updated := enroll_signer existing actor signer_id in
  Ok (trust_set_to_value updated, added).

(** ** The carrier payload ([event/event_signature.rs]) *)

Record InclusionProof := { inc_scheme : string; inc_proof : string }.

Record EventSignatureRecordedPayload := {
  sp_target_event_id : EventId;
  sp_target_event_record_hash : string;
  sp_attesting_signer : SignerId;
  sp_attestation : EventSignature;
  sp_inclusion_proof : option InclusionProof
}.

#[export] Instance InclusionProof_Serialize : Serialize InclusionProof := λ p,
  JObject [("scheme", to_json (inc_scheme p)); ("proof", to_json (inc_proof p))].

#[export] Instance EventSignatureRecorded_Serialize : Serialize EventSignatureRecordedPayload := λ p,
  JObject ([("targetEventId", to_json (sp_target_event_id p));
    ("targetEventRecordHash", to_json (sp_target_event_record_hash p));
    ("attestingSigner", to_json (sp_attesting_signer p));
    ("attestation", to_json (sp_attestation p))] ++
    opt_field "inclusionProof" (sp_inclusion_proof p)).

Section carrier_decoder.
Context `{JsonReader}.

#[export] Instance InclusionProof_Deserialize : Deserialize InclusionProof := λ v,
  let? o := struct_entries ["scheme"; "proof"] 2 v in
  let? scheme := req o "scheme" in
  let? proof := req o "proof" in
  Ok {| inc_scheme := scheme; inc_proof := proof |}.

#[export] Instance EventSignatureRecorded_Deserialize
    : Deserialize EventSignatureRecordedPayload := λ v,
  let? o := struct_entries ["targetEventId"; "targetEventRecordHash"; "attestingSigner";
    "attestation"; "inclusionProof"] 5 v in
  let? target_event_id := req o "targetEventId" in
  let? target_event_record_hash := req o "targetEventRecordHash" in
  let? attesting_signer := req o "attestingSigner" in
  let? attestation := req o "attestation" in
  let? inclusion_proof := opt o "inclusionProof" in
  Ok {| sp_target_event_id := target_event_id;
        sp_target_event_record_hash := target_event_record_hash;
        sp_attesting_signer := attesting_signer; sp_attestation := attestation;
        sp_inclusion_proof := inclusion_proof |}.
End carrier_decoder.

(** [EventSignatureRecordedPayload::idempotency_key]: the full attestation triple. *)
Definition cosignature_idempotency_key (target_event_record_hash : string)
    (attesting_signer : SignerId) (signature_encoding : string) : string :=
  type_code EventSignatureRecorded +:+ ":" +:+ target_event_record_hash +:+ ":" +:+
  attesting_signer +:+ ":" +:+ signature_encoding.

(** ** Verification ([verify.rs], [cosignature.rs]) *)

Inductive CosignatureVerification :=
| Attested (status : EventVerificationStatus)
| CosignatureMismatch.

Definition COSIGNATURE_INVALID_CODE : string := "cosignature_invalid".
Definition COSIGNATURE_TARGET_PENDING_CODE : string := "cosignature_target_pending".
Definition COSIGNATURE_BINDING_MISMATCH_CODE : string := "cosignature_binding_mismatch".
Definition COSIGNATURE_UNTRUSTED_SIGNER_CODE : string := "cosignature_untrusted_signer".

Inductive CosignatureGateDecision :=
| Store (status : EventVerificationStatus)
| DropInvalid
| TargetPending
| BindingMismatch.

(** [CosignatureGateDecision::stores]. *)
Definition stores (d : CosignatureGateDecision) : bool :=
  match d with Store _ => true | _ => false end.

Definition drop_diagnostic_code (d : CosignatureGateDecision) : option string :=
  match d with
  | Store _ => None
  | DropInvalid => Some COSIGNATURE_INVALID_CODE
  | TargetPending => Some COSIGNATURE_TARGET_PENDING_CODE
  | BindingMismatch => Some COSIGNATURE_BINDING_MISMATCH_CODE
  end.

Section verification.
Context `{Digest} `{Primitives}.

Definition supported_signature (s : EventSignature) : bool :=
  String.eqb (es_alg s) ED25519_SIGNATURE_ALG && (es_sig_version s =? EVENT_SIGNATURE_VERSION_V1)%N.

Definition verify_event_signature (event : ShoreEvent) (trust : TrustSet)
    : result EventVerificationStatus :=
  match ev_signature event with
  | None => Ok Unsigned
  | Some signature =>
      if negb (supported_signature signature) then Ok Invalid
      else match event_to_be_signed event with
      | Err error => Ok (ese_status error)
      | Ok tbs =>
          match event_signature_pre_authentication_encoding tbs with
          | Err _ => Ok Invalid
          | Ok message =>
              let? status := verify_ed25519_strict (tbs_signer tbs) message (es_sig signature) in
              if negb (bool_decide (status = Valid)) then Ok status
              else if authorizes trust (w_actor_id (ev_writer event)) (tbs_signer tbs)
                        (ev_occurred_at event) then Ok Valid
              else Ok UntrustedKey
          end
      end
  end.

Definition verify_cosignature (carrier : EventSignatureRecordedPayload) (target : ShoreEvent)
    (trust : TrustSet) : result CosignatureVerification :=
  let? record_hash := event_record_hash target in
  if negb (String.eqb record_hash (sp_target_event_record_hash carrier)) then
    Ok CosignatureMismatch
  else if negb (supported_signature (sp_attestation carrier)) then Ok (Attested Invalid)
  else match tbs_from_event target (sp_attesting_signer carrier) with
  | Err _ => Ok (Attested Invalid)
  | Ok tbs =>
      match event_signature_pre_authentication_encoding tbs with
      | Err _ => Ok (Attested Invalid)
      | Ok message =>
          let? status := verify_ed25519_strict (sp_attesting_signer carrier) message
            (es_sig (sp_attestation carrier)) in
          if negb (bool_decide (status = Valid)) then Ok (Attested status)
          else if authorizes trust (w_actor_id (ev_writer target)) (sp_attesting_signer carrier)
                    (ev_occurred_at target) then Ok (Attested Valid)
          else Ok (Attested UntrustedKey)
      end
  end.

Definition gate_cosignature_for_store (carrier : EventSignatureRecordedPayload)
    (target : option ShoreEvent) (trust : TrustSet) : result CosignatureGateDecision :=
  match target with
  | None => Ok TargetPending
  | Some target =>
      let? verification := verify_cosignature carrier target trust in
      Ok match verification with
         | CosignatureMismatch => BindingMismatch
         | Attested Invalid => DropInvalid
         | Attested Valid => Store Valid
         | Attested UntrustedKey => Store UntrustedKey
         | Attested Unsigned => DropInvalid
         end
  end.
End verification.

(** ** Policy ([policy.rs], [ingest.rs]) *)

Inductive ArtifactAvailability := Available | Unavailable.

Record EventVerificationView := {
  vv_verification_status : EventVerificationStatus;
  vv_artifact_availability : ArtifactAvailability
}.

Definition verification_view (status : EventVerificationStatus)
    (availability : ArtifactAvailability) : EventVerificationView :=
  {| vv_verification_status := status; vv_artifact_availability := availability |}.

Record EventVerificationPolicy := {
  reject_invalid_signatures : bool;
  require_trusted_signer : bool;
  allow_unsigned : bool
}.

(** [EventVerificationPolicy::advisory], [integrity_strict] and [trusted_strict]. *)
Definition policy_advisory : EventVerificationPolicy :=
  {| reject_invalid_signatures := false; require_trusted_signer := false; allow_unsigned := true |}.
Definition policy_integrity_strict : EventVerificationPolicy :=
  {| reject_invalid_signatures := true; require_trusted_signer := false; allow_unsigned := true |}.
Definition policy_trusted_strict : EventVerificationPolicy :=
  {| reject_invalid_signatures := true; require_trusted_signer := true; allow_unsigned := false |}.

Definition with_allow_unsigned (p : EventVerificationPolicy) (b : bool) : EventVerificationPolicy :=
  {| reject_invalid_signatures := reject_invalid_signatures p;
     require_trusted_signer := require_trusted_signer p; allow_unsigned := b |}.

Definition rejects (p : EventVerificationPolicy) (status : EventVerificationStatus) : bool :=
  match status with
  | Valid => false
  | Invalid => reject_invalid_signatures p
  | UntrustedKey => require_trusted_signer p
  | Unsigned => negb (allow_unsigned p)
  end.

Inductive RemovalPolicy := RemovalAdvisory | PossessionOrTrusted | TrustedStrict.

Record IngestEventVerification := {
  iv_event_id : EventId;
  iv_status : EventVerificationStatus;
  iv_message : option string;
  iv_write_outcome : option EventWriteOutcome
}.

Definition verification_message (status : EventVerificationStatus) : option string :=
  match status with
  | Valid => None
  | Invalid => Some "event signature is invalid"
  | UntrustedKey => Some "event signer is not authorized by the trust set"
  | Unsigned => Some "event is unsigned"
  end.

Section ingest_policy.
Context `{Digest} `{Primitives}.

Definition verify_events_for_ingest (events : list ShoreEvent) (policy : EventVerificationPolicy)
    (trust_set : TrustSet) : result (list IngestEventVerification) :=
  try_fold (λ verification event,
    if bool_decide (ev_event_type event = EventSignatureRecorded) then Ok verification
    else
    let? status := verify_event_signature event trust_set in
    let report := {| iv_event_id := ev_event_id event; iv_status := status;
      iv_message := verification_message status; iv_write_outcome := None |} in
    if rejects policy status then Err (EventVerificationRejected (ev_event_id event) status)
    else Ok (verification ++ [report])) [] events.
End ingest_policy.

(** ** Signing on write ([write.rs]) *)

(** [EventSigningOptions]: the signer, and whether a failure to sign is let through; the
    sink for the reason of such a failure is the caller's. *)
Record EventSigningOptions := { so_signer : option EventSigner; so_best_effort : bool }.

Definition with_signature (signer : option SignerId) (signature : EventSignature)
    (e : ShoreEvent) : ShoreEvent :=
  {| ev_schema := ev_schema e; ev_version := ev_version e; ev_event_id := ev_event_id e;
     ev_event_type := ev_event_type e; ev_idempotency_key := ev_idempotency_key e;
     ev_target := ev_target e; ev_writer := ev_writer e; ev_occurred_at := ev_occurred_at e;
     ev_payload_hash := ev_payload_hash e; ev_assertion_mode := ev_assertion_mode e;
     ev_signer := signer; ev_signature := Some signature; ev_source_ref := ev_source_ref e;
     ev_ingest := ev_ingest e; ev_content_encoding := ev_content_encoding e;
     ev_payload_version := ev_payload_version e; ev_payload := ev_payload e |}.

(** The event afterwards, and the reason recorded when a best-effort signer failed. *)
Definition sign_event_if_requested `{Digest} (event : ShoreEvent) (signing : EventSigningOptions)
    : result (ShoreEvent * option string) :=
  match so_signer signing with
  | None => Ok (event, None)
  | Some signer =>
      let signer_id := @signer_id signer in
      let? signing_view := tbs_from_event event signer_id in
      let? message := event_signature_pre_authentication_encoding signing_view in
      match @sign_event_message signer message with
      | Ok signature =>
          let signer := if String.eqb (w_actor_id (ev_writer event)) signer_id then None
                        else Some signer_id in
          Ok (with_signature signer (ed25519_v1 signature) event, None)
      | Err error =>
          if so_best_effort signing then Ok (event, Some (ShoreError_display error))
          else Err error
      end
  end.
