(* ===== verification/Identity.v ===== *)
(** * Actors and principals ([src/src/session/identity])

    Actor id checks, the delegation map (which human an agent writes for, and when),
    actor attributes, the rendered principal, and the principal policy of
    [src/src/session/signing/policy.rs].  Files are read and written by the callers: the
    staging functions map the document before to the document after. *)

From S2P Require Import Prelude RustStr BTree Instant Model CanonicalHash Crypto Relations Wire.
From S2P Require Import Capabilities Signing.

(** ** Actor ids ([writer.rs]) *)

(** The suffixes of a string that start a character; those that do not, start with a
    continuation byte and satisfy no test below. *)
Fixpoint all_suffixes (f : string → bool) (s : string) : bool :=
  match s with EmptyString => true | String _ s' => f s && all_suffixes f s' end.

(** [char::is_whitespace] and [char::is_control] of the first character. *)
Definition starts_whitespace (s : string) : bool := negb (ws_len s =? 0).

Definition starts_control (s : string) : bool :=
  match s with
  | EmptyString => false
  | String a s =>
      let a := byte_val a in
      (a <? 32)%Z || (a =? 127)%Z ||
      match s with
      | EmptyString => false
      | String b _ => (a =? 194)%Z && (128 <=? byte_val b)%Z && (byte_val b <=? 159)%Z
      end
  end.

Section actors.
Context `{Primitives}.

Definition is_valid_actor_id (value : string) : bool :=
  (String.length value <=? 256) &&
  (match strip_prefix "actor:" value with
   | Some rest => negb (is_empty rest) &&
       all_suffixes (λ s, negb (starts_whitespace s) && negb (starts_control s)) rest
   | None => false
   end || is_ok (SignerId_parse value)).

Definition is_valid_principal_actor_id (value : string) : bool :=
  (String.length value <=? 256) &&
  (match strip_prefix "actor:" value with
   | Some rest => negb (is_empty (trim rest)) && all_suffixes (λ s, negb (starts_control s)) rest
   | None => false
   end || is_ok (SignerId_parse value)).
End actors.

Definition is_agent_actor_id (value : string) : bool :=
  match strip_prefix "actor:agent:" value with Some rest => negb (is_empty rest) | None => false end.

(** ** Delegation ([delegates.rs]) *)

Record ValidityWindow := { from_ms : Z; until_ms : option Z }.

Definition window_contains (w : ValidityWindow) (instant : Z) : bool :=
  (from_ms w <=? instant)%Z &&
  match until_ms w with Some until => (instant <? until)%Z | None => true end.

Inductive UnresolvedReason := NoDelegationRecord | NoCoveringWindow | UnparseableTimestamp.

Definition UnresolvedReason_as_str (r : UnresolvedReason) : string :=
  match r with
  | NoDelegationRecord => "no_delegation_record"
  | NoCoveringWindow => "no_covering_window"
  | UnparseableTimestamp => "unparseable_timestamp"
  end.

Inductive PrincipalResolution :=
| Resolved (principal : ActorId)
| Unresolved (reason : UnresolvedReason)
| Ambiguous (principals : list ActorId).

Record DelegationRecord := { dr_principal : ActorId; dr_window : ValidityWindow }.

Record DelegationMap := { delegates : gmap ActorId (list DelegationRecord) }.

(** [DelegationMap::with_local_override]. *)
Definition with_local_override (m local : DelegationMap) : DelegationMap :=
  {| delegates := foldl (λ d p, <[p.1 := p.2]> d) (delegates m) (iter_map (delegates local)) |}.

Definition records_for (m : DelegationMap) (actor : ActorId) : list DelegationRecord :=
  default [] (delegates m !! actor).

Definition record_count_for (m : DelegationMap) (actor : ActorId) : nat :=
  length (records_for m actor).

(** [DelegationMap::resolve]. *)
Definition resolve_principal (m : DelegationMap) (actor : ActorId) (occurred_at : string)
    : PrincipalResolution :=
  match parse_event_instant occurred_at with
  | None => Unresolved UnparseableTimestamp
  | Some instant =>
      match records_for m actor with
      | [] => Unresolved NoDelegationRecord
      | records =>
          match dr_principal <$>
              List.filter (λ record, window_contains (dr_window record) instant) records with
          | [] => Unresolved NoCoveringWindow
          | principals =>
              match sorted_dedup principals with
              | [principal] => Resolved principal
              | principals => Ambiguous principals
              end
          end
      end
  end.

Definition invalid_delegation_map (reason : string) : ShoreError :=
  WorkflowInputInvalid ("invalid delegation map: " +:+ reason).

Definition required_instant (actor : string) (record : list (string * json)) (field : string)
    : result Z :=
  let? value := ok_or (json_entry record field ≫= json_as_str) (invalid_delegation_map
    ("delegation record for " +:+ actor +:+ " is missing " +:+ field)) in
  ok_or (parse_rfc3339_utc_millis value) (invalid_delegation_map
    (field +:+ " " +:+ value +:+ " for " +:+ actor +:+ " is not an RFC 3339 UTC instant")).

Definition optional_instant (actor : string) (record : list (string * json)) (field : string)
    : result (option Z) :=
  match json_entry record field with
  | None | Some JNull => Ok None
  | Some (JString value) =>
      let? millis := ok_or (parse_rfc3339_utc_millis value) (invalid_delegation_map
        (field +:+ " " +:+ value +:+ " for " +:+ actor +:+ " is not an RFC 3339 UTC instant")) in
      Ok (Some millis)
  | Some _ => Err (invalid_delegation_map
      (field +:+ " for " +:+ actor +:+ " must be a string or null"))
  end.

Section delegation_parser.
Context `{Primitives}.

Definition parse_record (actor : string) (record : json) : result DelegationRecord :=
  match record with
  | JObject record =>
      let? principal := ok_or (json_entry record "principal" ≫= json_as_str)
        (invalid_delegation_map ("delegation record for " +:+ actor +:+ " is missing principal")) in
      if negb (is_valid_principal_actor_id principal) then
        Err (invalid_delegation_map
          ("principal " +:+ principal +:+ " for " +:+ actor +:+ " is not a valid actor id"))
      else if is_agent_actor_id principal then
        Err (invalid_delegation_map
          ("principal " +:+ principal +:+ " for " +:+ actor +:+ " must be a non-agent actor id in v1"))
      else
      let? from_ms := required_instant actor record "validFrom" in
      let? until_ms := optional_instant actor record "validUntil" in
      match json_entry record "comment" with
      | None | Some JNull | Some (JString _) =>
          Ok {| dr_principal := principal;
                dr_window := {| from_ms := from_ms; until_ms := until_ms |} |}
      | Some _ => Err (invalid_delegation_map ("comment for " +:+ actor +:+ " must be a string"))
      end
  | _ => Err (invalid_delegation_map ("delegation record for " +:+ actor +:+ " must be an object"))
  end.

(** One key of the [delegates] object. *)
Definition parse_delegate (actor : string) (records : json) : result (list DelegationRecord) :=
  if negb (is_agent_actor_id actor) then
    Err (invalid_delegation_map
      ("delegate key " +:+ actor +:+ " must be an actor:agent:<name> id"))
  else match records with
  | JArray records => mapM (parse_record actor) records
  | _ => Err (invalid_delegation_map
      ("delegation records for " +:+ actor +:+ " must be an array"))
  end.

Definition delegation_map_from_value (value : json) : result DelegationMap :=
  match json_get value "delegates" with
  | Some (JObject delegates) =>
      let? parsed := try_fold (λ (m : gmap ActorId (list DelegationRecord)) p,
        let? records := parse_delegate p.1 p.2 in
        Ok (<[p.1 := records]> m)) ∅ (map_entries delegates) in
      Ok {| delegates := parsed |}
  | _ => Err (invalid_delegation_map "missing delegates object")
  end.
End delegation_parser.

(** *** Staging a record *)

Record DelegationWriteRecord := {
  dw_principal : ActorId;
  dw_valid_from : string;
  dw_valid_until : option string;
  dw_comment : option string
}.

Definition delegation_record_value (record : DelegationWriteRecord) : json :=
  JObject ([("principal", JString (dw_principal record));
    ("validFrom", JString (dw_valid_from record));
    ("validUntil", match dw_valid_until record with Some s => JString s | None => JNull end)] ++
    match dw_comment record with Some comment => [("comment", JString comment)] | None => [] end).

(** [Value::eq]: objects are maps. *)
Definition value_eqb (v w : json) : bool :=
  bool_decide (canonical_json_value v = canonical_json_value w).

Section staging.
Context `{Primitives}.

(** [stage_delegation]: the document read (or [None] where there is no file), and the
    document written with the outcome [added]. *)
Definition stage_delegation (file : option json) (agent : ActorId)
    (record : DelegationWriteRecord) : result (json * bool) :=
  if negb (is_agent_actor_id agent) then
    Err (invalid_delegation_map
      ("delegate key " +:+ agent +:+ " must be an actor:agent:<name> id"))
  else if negb (is_valid_principal_actor_id (dw_principal record)) then
    Err (invalid_delegation_map
      ("principal " +:+ dw_principal record +:+ " is not a valid actor id"))
  else if is_agent_actor_id (dw_principal record) then
    Err (invalid_delegation_map
      ("principal " +:+ dw_principal record +:+ " must be a non-agent actor id in v1"))
  else if negb (bool_decide (is_Some (parse_rfc3339_utc_millis (dw_valid_from record)))) then
    Err (invalid_delegation_map
      ("validFrom " +:+ dw_valid_from record +:+ " is not an RFC 3339 UTC instant"))
  else
  let? _ :=
    match dw_valid_until record with
    | Some until =>
        if bool_decide (is_Some (parse_rfc3339_utc_millis until)) then Ok ()
        else Err (invalid_delegation_map
          ("validUntil " +:+ until +:+ " is not an RFC 3339 UTC instant"))
    | None => Ok ()
    end in
  match default (JObject []) file with
  | JObject root =>
      match default (JObject []) (json_entry root "delegates") with
      | JObject delegates =>
          match default (JArray []) (json_entry delegates agent) with
          | JArray array =>
              let new_record := delegation_record_value record in
              let added := negb (existsb (λ existing, value_eqb existing new_record) array) in
              let array := if added then array ++ [new_record] else array in
              let root := JObject (replace_entry root "delegates"
                (JObject (replace_entry delegates agent (JArray array)))) in
              let? _ := delegation_map_from_value root in
              Ok (root, added)
          | _ => Err (invalid_delegation_map "agent records must be an array")
          end
      | _ => Err (invalid_delegation_map "delegates is not an object")
      end
  | _ => Err (invalid_delegation_map "delegates file is not an object")
  end.
End staging.

(** ** Principals ([principal.rs], [signing/policy.rs]) *)

Inductive PrincipalStatus := StatusResolved | StatusNone | StatusAmbiguous | StatusDisavowed.
Inductive PrincipalSource := SourceDelegates | SourceNone.

Record PrincipalView := {
  pv_actor_id : option ActorId;
  pv_status : PrincipalStatus;
  pv_source : PrincipalSource
}.

Definition principal_view_for (writer_actor : ActorId) (map : option DelegationMap)
    (occurred_at : string) : option PrincipalView :=
  if negb (is_agent_actor_id writer_actor) then None
  else match map with
  | None => Some {| pv_actor_id := None; pv_status := StatusNone; pv_source := SourceNone |}
  | Some map =>
      Some match resolve_principal map writer_actor occurred_at with
      | Resolved principal =>
          {| pv_actor_id := Some principal; pv_status := StatusResolved;
             pv_source := SourceDelegates |}
      | Unresolved _ =>
          {| pv_actor_id := None; pv_status := StatusNone; pv_source := SourceDelegates |}
      | Ambiguous _ =>
          {| pv_actor_id := None; pv_status := StatusAmbiguous; pv_source := SourceDelegates |}
      end
  end.

Definition principal_resolution_for_writer (writer_actor : ActorId) (map : DelegationMap)
    (occurred_at : string) : option PrincipalResolution :=
  if is_agent_actor_id writer_actor then Some (resolve_principal map writer_actor occurred_at)
  else None.

Definition principal_display_name (actor_id : string) : string :=
  match strip_prefix "actor:git-email:" actor_id with
  | Some name => name
  | None => default actor_id (strip_prefix "actor:git-name:" actor_id)
  end.

Definition principal_display_label (writer_actor : ActorId) (principal : PrincipalView) : string :=
  let agent_name := default writer_actor (strip_prefix "actor:agent:" writer_actor) in
  match pv_actor_id principal, pv_status principal with
  | Some actor_id, StatusResolved =>
      agent_name +:+ " (for " +:+ principal_display_name actor_id +:+ ")"
  | _, _ => agent_name
  end.

Inductive PrincipalPolicy := PolicyNone | PolicyPrefer | RequireResolvablePrincipal.

Definition principal_sufficient (writer_actor : ActorId) (occurred_at : string)
    (delegation_map : option DelegationMap) (policy : PrincipalPolicy) : bool :=
  match policy with
  | PolicyNone | PolicyPrefer => true
  | RequireResolvablePrincipal =>
      if negb (is_agent_actor_id writer_actor) then true
      else match (λ map, resolve_principal map writer_actor occurred_at) <$> delegation_map with
      | Some (Resolved principal) => negb (is_agent_actor_id principal)
      | _ => false
      end
  end.

(** ** Actor attributes ([actor_attributes.rs]) *)

Record ActorAttributes := { aa_kind : option string; aa_roles : gset string }.

Definition ActorAttributes_default : ActorAttributes := {| aa_kind := None; aa_roles := ∅ |}.

Definition RESERVED_KINDS : list string := ["human"; "agent"; "service"; "reviewer-model"].

Definition is_reserved_kind (kind : string) : bool := existsb (String.eqb kind) RESERVED_KINDS.

Definition is_kind (a : ActorAttributes) (kind : string) : bool :=
  match aa_kind a with Some k => is_reserved_kind k && String.eqb k kind | None => false end.

Definition has_role (a : ActorAttributes) (role : string) : bool := bool_decide (role ∈ aa_roles a).

Record ActorAttributesMap := { am_actors : gmap ActorId ActorAttributes }.

(** [ActorAttributesMap::resolve] and [with_local_override]. *)
Definition resolve_attributes (m : ActorAttributesMap) (actor : ActorId) : ActorAttributes :=
  default ActorAttributes_default (am_actors m !! actor).

Definition attributes_local_override (m local : ActorAttributesMap) : ActorAttributesMap :=
  {| am_actors := foldl (λ d p, <[p.1 := p.2]> d) (am_actors m) (iter_map (am_actors local)) |}.

Definition invalid_attributes (reason : string) : ShoreError :=
  WorkflowInputInvalid ("invalid actor attributes: " +:+ reason).

(** [str::to_ascii_lowercase]. *)
Definition to_lower (c : ascii) : ascii :=
  let code := byte_val c in
  if (65 <=? code)%Z && (code <=? 90)%Z then ascii_of_N (Z.to_N (code + 32)) else c.
Fixpoint to_ascii_lowercase (s : string) : string :=
  match s with
  | EmptyString => EmptyString
  | String c s => String (to_lower c) (to_ascii_lowercase s)
  end.

Definition is_token_byte (c : ascii) : bool :=
  let code := byte_val c in
  ((97 <=? code) && (code <=? 122))%Z || is_ascii_digit c || (code =? 45)%Z.

Definition normalize_token (actor field token : string) : result string :=
  let lowered := to_ascii_lowercase token in
  if is_empty lowered || negb (all_bytes is_token_byte lowered) then
    Err (invalid_attributes (field +:+ " " +:+ str_debug token +:+ " for " +:+ actor +:+
      " must be a lowercase kebab token ([a-z0-9-]+)"))
  else Ok lowered.

Definition parse_attributes (actor : string) (value : json) : result ActorAttributes :=
  match value with
  | JObject obj =>
      let? kind :=
        match json_entry obj "kind" with
        | Some (JString k) => normalize_token actor "kind" k
        | None | Some JNull => Err (invalid_attributes
            ("attributes for " +:+ actor +:+ " must declare exactly one kind"))
        | Some _ => Err (invalid_attributes ("kind for " +:+ actor +:+ " must be a string"))
        end in
      let? roles :=
        match json_entry obj "roles" with
        | None => Ok ∅
        | Some (JArray array) =>
            try_fold (λ (roles : gset string) role,
              let? role := ok_or (json_as_str role)
                (invalid_attributes ("role for " +:+ actor +:+ " must be a string")) in
              let? role := normalize_token actor "role" role in
              Ok (roles ∪ {[role]})) ∅ array
        | Some _ => Err (invalid_attributes ("roles for " +:+ actor +:+ " must be an array"))
        end in
      Ok {| aa_kind := Some kind; aa_roles := roles |}
  | _ => Err (invalid_attributes ("attributes for " +:+ actor +:+ " must be an object"))
  end.

Section attributes.
Context `{Primitives}.

Definition actor_attributes_from_value (value : json) : result ActorAttributesMap :=
  match json_get value "actors" with
  | Some (JObject actors) =>
      let? parsed := try_fold (λ (m : gmap ActorId ActorAttributes) p,
        if negb (is_valid_principal_actor_id p.1) then
          Err (invalid_attributes ("actor key " +:+ p.1 +:+ " is not a valid actor id"))
        else
        let? attrs := parse_attributes p.1 p.2 in
        Ok (<[p.1 := attrs]> m)) ∅ (map_entries actors) in
      Ok {| am_actors := parsed |}
  | _ => Err (invalid_attributes "missing actors object")
  end.
End attributes.

Definition ACTOR_ATTRIBUTES_SCHEMA : string := "shore.actor-attributes.v1".

Record ActorAttributesWriteRecord := {
  aw_kind : string;
  aw_roles : list string;
  aw_comment : option string
}.

Definition actor_attributes_entry_value (kind : string) (roles : gset string)
    (comment : option string) : json :=
  JObject ([("kind", JString kind); ("roles", JArray (JString <$> iter_set roles))] ++
    match comment with Some comment => [("comment", JString comment)] | None => [] end).

(** [stage_actor_attributes]: the document read, and the document written with the
    outcome [changed]. *)
Definition stage_actor_attributes `{Primitives} (file : option json) (actor : ActorId)
    (attrs : ActorAttributesWriteRecord) : result (json * bool) :=
  if negb (is_valid_principal_actor_id actor) then
    Err (invalid_attributes ("actor key " +:+ actor +:+ " is not a valid actor id"))
  else
  let? kind := normalize_token actor "kind" (aw_kind attrs) in
  let? roles := try_fold (λ (roles : gset string) role,
    let? role := normalize_token actor "role" role in Ok (roles ∪ {[role]})) ∅ (aw_roles attrs) in
  match default (JObject [("schema", JString ACTOR_ATTRIBUTES_SCHEMA); ("actors", JObject [])]) file with
  | JObject root =>
      let root := replace_entry root "schema" (JString ACTOR_ATTRIBUTES_SCHEMA) in
      match default (JObject []) (json_entry root "actors") with
      | JObject actors =>
          let new_entry := actor_attributes_entry_value kind roles (aw_comment attrs) in
          let changed := negb match json_entry actors actor with
                              | Some entry => value_eqb entry new_entry
                              | None => false
                              end in
          let root := JObject (replace_entry root "actors"
            (JObject (replace_entry actors actor new_entry))) in
          let? _ := actor_attributes_from_value root in
          Ok (root, changed)
      | _ => Err (invalid_attributes "actors is not an object")
      end
  | _ => Err (invalid_attributes "attributes file is not an object")
  end.
