(* ===== verification/IdentityProofs.v ===== *)
(** * What delegation and trust guarantee

    Parsed documents as maps, the resolution of principals, staging of records, and the
    round trip of the allow-list. *)

From S2P Require Import Prelude RustStr BTree Instant Model CanonicalHash Crypto Relations Wire.
From S2P Require Import Events Capabilities Signing Identity.

(** ** Parsing an object into a map *)

Section entries.
Context {A : Type} (f : string → json → result A).

Definition parse_entries (o : list (string * json)) : result (gmap string A) :=
  try_fold (λ (m : gmap string A) p, let? a := f p.1 p.2 in Ok (<[p.1 := a]> m)) ∅ o.

Lemma parse_entries_from o m0 m :
  try_fold (λ (m : gmap string A) p, let? a := f p.1 p.2 in Ok (<[p.1 := a]> m)) m0 o = Ok m →
  NoDup o.*1 →
  (∀ k v, (k, v) ∈ o → ∃ a, f k v = Ok a ∧ m !! k = Some a) ∧ (∀ k, k ∉ o.*1 → m !! k = m0 !! k).
Proof.
  revert m0. induction o as [|[k v] o IH]; intros m0; cbn [try_fold fst snd].
  { intros [= <-] _. split; [by intros ? ? ?%elem_of_nil|done]. }
  intros (m1 & (a & Ha & [= <-])%bind_Ok & Hf)%bind_Ok [Hk Hnd]%NoDup_cons.
  destruct (IH _ Hf Hnd) as [H1 H2]. split.
  - intros k' v' [[= -> ->]|Hin]%elem_of_cons; [|auto]. exists a. split; [done|].
    rewrite H2 by done. apply lookup_insert_eq.
  - intros k' Hk'. cbn in Hk'. rewrite H2 by set_solver. apply lookup_insert_ne. set_solver.
Qed.

Lemma parse_entries_ok o m0 :
  (∀ k v, (k, v) ∈ o → is_ok (f k v) = true) → ∃ m,
  try_fold (λ (m : gmap string A) p, let? a := f p.1 p.2 in Ok (<[p.1 := a]> m)) m0 o = Ok m.
Proof.
  revert m0. induction o as [|[k v] o IH]; intros m0 Hf; cbn [try_fold fst snd]; [by eexists|].
  specialize (Hf k v) as Hk. destruct (f k v) as [a|e]; [|by discriminate Hk; left].
  cbn [rbind]. apply IH. intros k' v' Hin. apply Hf. by right.
Qed.
End entries.

Lemma map_entries_elem o p : p ∈ map_entries o ↔ p ∈ o.
Proof. apply elem_of_sort_by. Qed.

Lemma map_entries_NoDup (o : list (string * json)) : NoDup o.*1 → NoDup (map_entries o).*1.
Proof. unfold map_entries. by rewrite sort_by_Permutation. Qed.

(** The map of a parsed object. *)
Lemma parse_object {A} (f : string → json → result A) o m :
  NoDup o.*1 → parse_entries f (map_entries o) = Ok m →
  ∀ k, match json_entry o k with
       | Some v => ∃ a, f k v = Ok a ∧ m !! k = Some a
       | None => m !! k = None
       end.
Proof.
  intros Hnd Hp k.
  destruct (parse_entries_from f _ _ _ Hp (map_entries_NoDup o Hnd)) as [H1 H2].
  destruct (json_entry o k) as [v|] eqn:Hk.
  - apply json_entry_Some in Hk; [|done]. apply H1. by apply map_entries_elem.
  - rewrite H2; [apply lookup_empty|]. intros Hin. rewrite (sort_by_Permutation _ o : map_entries o ≡ₚ o) in Hin.
    apply list_elem_of_fmap in Hin as ([k' v] & -> & Hin). cbn in Hk.
    apply json_entry_Some in Hin; [|done]. congruence.
Qed.

Lemma parse_object_ok {A} (f : string → json → result A) o :
  NoDup o.*1 → (∀ k v, json_entry o k = Some v → is_ok (f k v) = true) →
  ∃ m, parse_entries f (map_entries o) = Ok m.
Proof.
  intros Hnd Hf. apply parse_entries_ok. intros k v Hin. rewrite map_entries_elem in Hin.
  apply Hf. apply (json_entry_Some o k v Hnd), Hin.
Qed.

(** ** Objects as maps *)

Lemma json_entry_replace o k v k' :
  json_entry (replace_entry o k v) k' = if String.eqb k k' then Some v else json_entry o k'.
Proof.
  induction o as [|[k1 v1] o IH]; cbn.
  - by destruct (String.eqb k k').
  - destruct (String.eqb_spec k1 k) as [->|Hne]; cbn.
    + by destruct (String.eqb k k').
    + rewrite IH. destruct (String.eqb_spec k1 k') as [->|]; [|done].
      by destruct (String.eqb_spec k k').
Qed.

Lemma replace_entry_same o k v : json_entry o k = Some v → replace_entry o k v = o.
Proof.
  induction o as [|[k1 v1] o IH]; cbn; [done|].
  destruct (String.eqb_spec k1 k) as [->|Hne]; [by intros [= ->]|]. intros Hk. by rewrite IH.
Qed.

(** ** Maps overlaid by local ones *)

Lemma override_lookup {V} (d local : gmap string V) k :
  foldl (λ d p, <[p.1 := p.2]> d) d (iter_map local) !! k =
  match local !! k with Some v => Some v | None => d !! k end.
Proof.
  assert (∀ l : list (string * V), NoDup l.*1 → ∀ d : gmap string V,
    foldl (λ d p, <[p.1 := p.2]> d) d l !! k =
    match (list_to_map l : gmap string V) !! k with Some v => Some v | None => d !! k end) as Hl.
  { induction l as [|[k' v] l IH]; cbn; intros Hnd d'; [by rewrite lookup_empty|].
    apply NoDup_cons in Hnd as [Hk Hnd]. rewrite IH by done.
    destruct (decide (k' = k)) as [->|Hne].
    - rewrite lookup_insert_eq, not_elem_of_list_to_map_1 by done.
      by rewrite lookup_insert_eq.
    - by rewrite !lookup_insert_ne by done. }
  rewrite Hl by apply NoDup_map_keys.
  replace (list_to_map (iter_map local) : gmap string V) with local; [done|].
  symmetry. rewrite <- (list_to_map_to_list local) at 2. apply list_to_map_proper; [apply NoDup_map_keys|].
  apply sort_by_Permutation.
Qed.

(** ** Delegation *)

(** The document's shape: agents are the keys, and no agent is a principal. *)
Definition delegation_wf `{Primitives} (m : DelegationMap) : Prop :=
  ∀ actor records, delegates m !! actor = Some records →
    is_agent_actor_id actor = true ∧
    Forall (λ r, is_agent_actor_id (dr_principal r) = false ∧
                 is_valid_principal_actor_id (dr_principal r) = true) records.

(** A record of [actor] for [principal] is in force at [instant]. *)
Definition covered_by (m : DelegationMap) (actor : ActorId) (instant : Z) (principal : ActorId)
    : Prop :=
  ∃ r, r ∈ records_for m actor ∧ dr_principal r = principal ∧
    (from_ms (dr_window r) ≤ instant)%Z ∧
    ∀ until, until_ms (dr_window r) = Some until → (instant < until)%Z.

Lemma window_contains_spec w t : window_contains w t = true ↔
  (from_ms w ≤ t)%Z ∧ ∀ until, until_ms w = Some until → (t < until)%Z.
Proof.
  unfold window_contains. rewrite andb_true_iff, Z.leb_le.
  destruct (until_ms w) as [u|]; [rewrite Z.ltb_lt|]; naive_solver.
Qed.

(** The principals whose records cover an instant. *)
Definition covering (m : DelegationMap) (actor : ActorId) (instant : Z) : list ActorId :=
  dr_principal <$>
    List.filter (λ record, window_contains (dr_window record) instant) (records_for m actor).

Lemma elem_of_covering m actor t p : p ∈ covering m actor t ↔ covered_by m actor t p.
Proof.
  unfold covering, covered_by. rewrite list_elem_of_fmap. split.
  - intros (r & -> & Hr). apply list_elem_of_In, filter_In in Hr as [Hr Hw].
    exists r. rewrite list_elem_of_In. by apply window_contains_spec in Hw.
  - intros (r & Hr & <- & Hw). exists r. split; [done|].
    apply list_elem_of_In, filter_In. rewrite <- list_elem_of_In. by rewrite window_contains_spec.
Qed.

Lemma resolve_principal_covering m actor at_ t : parse_event_instant at_ = Some t →
  resolve_principal m actor at_ =
  match iter_set (set_of_list (covering m actor t)) with
  | [] => Unresolved (if decide (records_for m actor = []) then NoDelegationRecord
                      else NoCoveringWindow)
  | [p] => Resolved p
  | ps => Ambiguous ps
  end.
Proof.
  intros Ht. unfold resolve_principal. rewrite Ht. fold (covering m actor t).
  destruct (records_for m actor) as [|r rs] eqn:Hr.
  { unfold covering. by rewrite Hr. }
  rewrite <- Hr. fold (covering m actor t). rewrite <- sorted_dedup_iter.
  destruct (covering m actor t) as [|p ps] eqn:Hc.
  { rewrite decide_False by (rewrite Hr; discriminate). done. }
  destruct (sorted_dedup (p :: ps)) as [|q qs] eqn:Hd; [|done].
  exfalso. assert (p ∈ sorted_dedup (p :: ps)) as Hin; [|rewrite Hd in Hin; by apply elem_of_nil in Hin].
  rewrite sorted_dedup_iter, elem_of_iter_set. apply elem_of_list_to_set. by left.
Qed.

Lemma iter_set_singleton (X : gset string) p :
  iter_set X = [p] ↔ ∀ q, q ∈ X ↔ q = p.
Proof.
  split.
  - intros HX q. rewrite <- elem_of_iter_set, HX. apply list_elem_of_singleton.
  - intros HX. assert (X = {[p]}) as -> by set_solver.
    unfold iter_set. by rewrite elements_singleton.
Qed.

(** An instant that reads, at which exactly one principal is covered. *)
Lemma resolve_principal_Resolved m actor at_ p :
  resolve_principal m actor at_ = Resolved p ↔
  ∃ t, parse_event_instant at_ = Some t ∧ ∀ q, covered_by m actor t q ↔ q = p.
Proof.
  split.
  - destruct (parse_event_instant at_) as [t|] eqn:Ht;
      [|unfold resolve_principal; by rewrite Ht].
    rewrite (resolve_principal_covering _ _ _ _ Ht).
    destruct (iter_set _) as [|q [|q' qs]] eqn:Hs; [done| |done].
    intros [= <-]. exists t. split; [done|]. intros q'.
    rewrite <- elem_of_covering, <- (elem_of_list_to_set (C := gset ActorId)).
    by apply iter_set_singleton.
  - intros (t & Ht & Hq). rewrite (resolve_principal_covering _ _ _ _ Ht).
    rewrite (proj2 (iter_set_singleton _ p)); [done|].
    intros q. unfold set_of_list. by rewrite elem_of_list_to_set, elem_of_covering.
Qed.

Section delegation_documents.
Context `{Primitives}.

Lemma parse_record_wf actor v r : parse_record actor v = Ok r →
  is_agent_actor_id (dr_principal r) = false ∧ is_valid_principal_actor_id (dr_principal r) = true.
Proof.
  unfold parse_record. destruct v as [| | | | |o]; try done.
  intros (p & _ & Hp)%bind_Ok. case_match eqn:Hv; [done|]. case_match eqn:Ha; [done|].
  apply bind_Ok in Hp as (f & _ & (u & _ & Hp)%bind_Ok).
  repeat case_match; simplify_eq; cbn; by apply negb_false_iff in Hv.
Qed.

Lemma parse_delegate_wf actor v rs : parse_delegate actor v = Ok rs →
  is_agent_actor_id actor = true ∧
  Forall (λ r, is_agent_actor_id (dr_principal r) = false ∧
               is_valid_principal_actor_id (dr_principal r) = true) rs.
Proof.
  unfold parse_delegate. destruct (is_agent_actor_id actor); [|done]. cbn.
  destruct v as [| | | |vs|]; try done. intros Hm%mapM_Ok. split; [done|].
  induction Hm; constructor; eauto using parse_record_wf.
Qed.

Lemma delegation_map_from_value_wf v m : delegation_map_from_value v = Ok m → delegation_wf m.
Proof.
  unfold delegation_map_from_value. destruct (json_get v "delegates") as [[]|]; try done.
  intros (d & Hd & [= <-])%bind_Ok actor records. cbn. revert actor records.
  assert (∀ actor records, (∅ : gmap ActorId (list DelegationRecord)) !! actor = Some records →
    is_agent_actor_id actor = true ∧ Forall (λ r, is_agent_actor_id (dr_principal r) = false ∧
      is_valid_principal_actor_id (dr_principal r) = true) records) as H0.
  { intros ? ?. by rewrite lookup_empty. }
  revert Hd H0. generalize (∅ : gmap ActorId (list DelegationRecord)).
  induction (map_entries entries) as [|[k w] o IH]; cbn [try_fold fst snd]; intros m0.
  { by intros [= <-]. }
  intros (m1 & (rs & Hrs & [= <-])%bind_Ok & Hf)%bind_Ok H0. apply (IH _ Hf).
  intros actor records. destruct (decide (k = actor)) as [->|Hne].
  - rewrite lookup_insert_eq. intros [= <-]. by eapply parse_delegate_wf.
  - rewrite lookup_insert_ne by done. apply H0.
Qed.

Lemma with_local_override_wf m l :
  delegation_wf m → delegation_wf l → delegation_wf (with_local_override m l).
Proof.
  intros Hm Hl actor records. unfold with_local_override. cbn. rewrite override_lookup.
  destruct (delegates l !! actor) eqn:E; [intros [= <-]; by apply Hl|apply Hm].
Qed.
End delegation_documents.

(** *** Staged records *)

Section staged.
Context `{Primitives}.

(** What the staging function starts from: no file is an empty map. *)
Definition staged_from (file : option json) : result DelegationMap :=
  match file with
  | None => Ok {| delegates := ∅ |}
  | Some v => delegation_map_from_value v
  end.

Lemma delegation_map_object root d : json_entry root "delegates" = Some (JObject d) →
  delegation_map_from_value (JObject root) =
  rbind (parse_entries parse_delegate (map_entries d)) (λ p, Ok {| delegates := p |}).
Proof. intros Hr. unfold delegation_map_from_value. cbn [json_get]. by rewrite Hr. Qed.

Lemma json_equiv_entry o o' k : json_equiv (JObject o) (JObject o') →
  match json_entry o k, json_entry o' k with
  | Some v, Some w => json_equiv v w
  | None, None => True
  | _, _ => False
  end.
Proof.
  intros He. inversion He as [|?|? ? H1 H2]; subst.
  - destruct (json_entry o' k); [constructor|done].
  - destruct (json_entry o k) as [v|] eqn:Hv.
    + destruct (H1 k v Hv) as (w & -> & Hvw). done.
    + destruct (json_entry o' k) as [w|] eqn:Hw; [|done].
      destruct (H2 k w Hw) as (v & Hv' & _). congruence.
Qed.

Lemma json_equiv_shape v w : json_equiv v w →
  match v, w with
  | JArray _, JArray _ => True
  | JObject _, JObject _ => True
  | JArray _, _ | _, JArray _ | JObject _, _ | _, JObject _ => False
  | v, w => v = w
  end.
Proof. intros He. inversion He as [u|?|?]; subst; [by destruct w|done..]. Qed.

Lemma parse_record_equiv actor v w : json_equiv v w → parse_record actor v = parse_record actor w.
Proof.
  intros He. pose proof (json_equiv_shape _ _ He) as Hs.
  destruct v as [| | | | |o], w as [| | | | |o']; try done; try (by simplify_eq).
  pose proof (λ k, json_equiv_entry o o' k He) as Hk. clear He Hs.
  assert (∀ k, json_entry o k ≫= json_as_str = json_entry o' k ≫= json_as_str) as Hstr.
  { intros k. specialize (Hk k). destruct (json_entry o k) as [v|], (json_entry o' k) as [w|]; try done.
    apply json_equiv_shape in Hk. by destruct v, w; simplify_eq. }
  assert (optional_instant actor o "validUntil" = optional_instant actor o' "validUntil") as Hu.
  { unfold optional_instant. specialize (Hk "validUntil").
    destruct (json_entry o _) as [v|], (json_entry o' _) as [w|]; try done.
    apply json_equiv_shape in Hk. by destruct v, w; simplify_eq. }
  assert (required_instant actor o "validFrom" = required_instant actor o' "validFrom") as Hf.
  { unfold required_instant. by rewrite Hstr. }
  unfold parse_record. rewrite Hstr, Hf, Hu.
  destruct (ok_or _ _) as [p|e]; [|done]. cbn [rbind].
  do 2 (case_match; [done|]).
  destruct (required_instant actor o' "validFrom") as [f|e]; cbn [rbind]; [|reflexivity].
  destruct (optional_instant actor o' "validUntil") as [u|e]; cbn [rbind]; [|reflexivity]. specialize (Hk "comment").
  destruct (json_entry o _) as [v|], (json_entry o' _) as [w|]; try done.
  apply json_equiv_shape in Hk. by destruct v, w; simplify_eq.
Qed.

(** A document that reads, as the objects the staging function takes apart. *)
Lemma staged_shape file m : (∀ v, file = Some v → json_wf v) → staged_from file = Ok m →
  ∃ root d, default (JObject []) file = JObject root ∧
    default (JObject []) (json_entry root "delegates") = JObject d ∧
    NoDup d.*1 ∧ Forall json_wf d.*2 ∧
    parse_entries parse_delegate (map_entries d) = Ok (delegates m).
Proof.
  intros Hwf Hm. destruct file as [v|]; cbn in Hm |- *.
  - specialize (Hwf v eq_refl). unfold delegation_map_from_value in Hm.
    destruct v as [| | | | |root]; try done. cbn [json_get] in Hm.
    destruct (json_entry root "delegates") as [[| | | | |d]|] eqn:Hd; try done.
    apply bind_Ok in Hm as (p & Hp & [= <-]). exists root, d. cbn. rewrite Hd.
    inversion Hwf as [| | | | |? Hnd Hf]; subst. apply json_entry_Some in Hd; [|done].
    pose proof (wf_entry _ _ _ Hf Hd) as Hw. by inversion Hw.
  - injection Hm as <-. exists [], []. cbn. by split_and!; [| |constructor|constructor|].
Qed.

(** The write, once its checks have passed. *)
Definition stage_checked (file : option json) (agent : ActorId) (new_record : json)
    : result (json * bool) :=
  match default (JObject []) file with
  | JObject root =>
      match default (JObject []) (json_entry root "delegates") with
      | JObject delegates =>
          match default (JArray []) (json_entry delegates agent) with
          | JArray array =>
              let added := negb (existsb (λ existing, value_eqb existing new_record) array) in
              let root := JObject (replace_entry root "delegates"
                (JObject (replace_entry delegates agent
                  (JArray (if added then array ++ [new_record] else array))))) in
              let? _ := delegation_map_from_value root in Ok (root, added)
          | _ => Err (invalid_delegation_map "agent records must be an array")
          end
      | _ => Err (invalid_delegation_map "delegates is not an object")
      end
  | _ => Err (invalid_delegation_map "delegates file is not an object")
  end.

(** The writer checks what the reader will: the record parses under the agent. *)
Lemma stage_delegation_checks file agent r :
  if is_agent_actor_id agent && is_ok (parse_record agent (delegation_record_value r))
  then stage_delegation file agent r = stage_checked file agent (delegation_record_value r)
  else is_ok (stage_delegation file agent r) = false.
Proof.
  unfold stage_delegation. destruct (is_agent_actor_id agent); [|done]. cbn [negb andb].
  destruct (is_ok _) eqn:Hok; unfold parse_record, delegation_record_value in Hok;
    revert Hok; unfold required_instant, optional_instant; cbn;
    (destruct (is_valid_principal_actor_id (dw_principal r)); [|done]); cbn;
    (destruct (is_agent_actor_id (dw_principal r)); [done|]);
    (destruct (parse_rfc3339_utc_millis (dw_valid_from r)) as [t|]; cbn; [|done]);
    (destruct (dw_valid_until r) as [u|]; cbn;
      [destruct (parse_rfc3339_utc_millis u) as [t'|]; cbn|]; try done);
    by destruct (dw_comment r).
Qed.

(** An agent's records, as the array of the document. *)
Lemma agent_array d agent m : NoDup d.*1 → Forall json_wf d.*2 →
  parse_entries parse_delegate (map_entries d) = Ok (delegates m) →
  ∃ array, default (JArray []) (json_entry d agent) = JArray array ∧ Forall json_wf array ∧
    Forall2 (λ v r, parse_record agent v = Ok r) array (records_for m agent).
Proof.
  intros Hnd Hwf Hp. pose proof (parse_object _ _ _ Hnd Hp agent) as Hk. unfold records_for.
  destruct (json_entry d agent) as [v|] eqn:Hv.
  - destruct Hk as (rs & Hrs & ->). unfold parse_delegate in Hrs.
    case_match; [done|]. destruct v as [| | | |array|]; try done.
    apply mapM_Ok in Hrs. exists array. split_and!; [done| |done].
    apply json_entry_Some in Hv; [|done]. pose proof (wf_entry _ _ _ Hwf Hv) as Hw. by inversion Hw.
  - rewrite Hk. exists []. by split_and!; [| |constructor].
Qed.

(** Replacing an agent's array by one that parses. *)
Lemma replace_array d agent m array records : NoDup d.*1 → is_agent_actor_id agent = true →
  parse_entries parse_delegate (map_entries d) = Ok (delegates m) →
  Forall2 (λ v r, parse_record agent v = Ok r) array records →
  ∃ p, parse_entries parse_delegate
      (map_entries (replace_entry d agent (JArray array))) = Ok p ∧
    ∀ actor, default [] (p !! actor) =
      if decide (actor = agent) then records else records_for m actor.
Proof.
  intros Hnd Ha Hp Harr. pose proof (λ k, parse_object _ _ _ Hnd Hp k) as Hold.
  assert (parse_delegate agent (JArray array) = Ok records) as Hagent.
  { unfold parse_delegate. rewrite Ha. cbn [negb]. by apply mapM_Ok. }
  destruct (parse_object_ok parse_delegate (replace_entry d agent (JArray array))) as [p Hnew].
  { by apply replace_entry_NoDup. }
  { intros k v. rewrite json_entry_replace. destruct (String.eqb_spec agent k) as [<-|Hne].
    - intros [= <-]. by rewrite Hagent.
    - intros Hv. specialize (Hold k). rewrite Hv in Hold. by destruct Hold as (? & -> & _). }
  exists p. split; [done|]. intros actor.
  pose proof (parse_object _ _ _ (replace_entry_NoDup _ _ _ Hnd) Hnew actor) as Hk.
  rewrite json_entry_replace in Hk. specialize (Hold actor). unfold records_for.
  destruct (String.eqb_spec agent actor) as [<-|Hne].
  - destruct Hk as (rs & Hrs & ->). rewrite decide_True by done. cbn. congruence.
  - rewrite decide_False by done. destruct (json_entry d actor) as [v|].
    + destruct Hk as (rs & Hrs & ->), Hold as (rs' & Hrs' & ->). cbn. congruence.
    + by rewrite Hk, Hold.
Qed.

Lemma value_eqb_refl v : value_eqb v v = true.
Proof. by apply bool_decide_eq_true. Qed.

Lemma stage_checked_reads file m agent v dr : (∀ w, file = Some w → json_wf w) →
  staged_from file = Ok m → is_agent_actor_id agent = true → json_wf v →
  parse_record agent v = Ok dr → ∃ doc added m',
  stage_checked file agent v = Ok (doc, added) ∧ delegation_map_from_value doc = Ok m' ∧
  records_for m' agent = records_for m agent ++ (if added then [dr] else []) ∧
  dr ∈ records_for m' agent ∧
  (∀ other, other ≠ agent → records_for m' other = records_for m other) ∧
  stage_checked (Some doc) agent v = Ok (doc, false).
Proof.
  intros Hwf Hm Ha Hv Hdr. destruct (staged_shape file m Hwf Hm) as (root & d & Hroot & Hd & Hnd & Hf & Hp).
  destruct (agent_array d agent m Hnd Hf Hp) as (array & Harr & Hwa & Hall).
  set (added := negb (existsb (λ existing, value_eqb existing v) array)).
  set (array' := if added then array ++ [v] else array).
  assert (existsb (λ existing, value_eqb existing v) array' = true) as Hnow.
  { subst array' added. destruct (existsb _ array) eqn:He; cbn [negb]; [done|].
    rewrite existsb_app, He. cbn. by rewrite value_eqb_refl. }
  destruct (replace_array d agent m array' (records_for m agent ++ (if added then [dr] else [])))
    as (p & Hp' & Hrec); [done..| |].
  { subst array'. destruct added; [apply Forall2_app; [done|by constructor]|by rewrite app_nil_r]. }
  set (d' := replace_entry d agent (JArray array')).
  set (root' := replace_entry root "delegates" (JObject d')).
  assert (json_entry root' "delegates" = Some (JObject d')) as Hd'.
  { unfold root'. by rewrite json_entry_replace, String.eqb_refl. }
  assert (json_entry d' agent = Some (JArray array')) as Ha'.
  { unfold d'. by rewrite json_entry_replace, String.eqb_refl. }
  assert (delegation_map_from_value (JObject root') = Ok {| delegates := p |}) as Hread.
  { rewrite (delegation_map_object root' d' Hd'). unfold d'. by rewrite Hp'. }
  exists (JObject root'), added, {| delegates := p |}. split_and!.
  - unfold stage_checked. rewrite Hroot, Hd, Harr. fold added array' d' root'. by rewrite Hread.
  - done.
  - unfold records_for at 1. cbn. rewrite Hrec. by rewrite decide_True.
  - unfold records_for. cbn. rewrite Hrec, decide_True by done.
    subst added. destruct (existsb _ array) eqn:He; cbn [negb]; [|set_solver].
    apply existsb_exists in He as (w & Hw%list_elem_of_In & He).
    unfold value_eqb in He. apply bool_decide_eq_true in He.
    apply canonical_eq_equiv in He; [|by eapply Forall_forall|done].
    rewrite app_nil_r. apply list_elem_of_lookup_1 in Hw as [i Hi].
    destruct (Forall2_lookup_l _ _ _ _ _ Hall Hi) as (r & Hr & Hpr).
    rewrite (parse_record_equiv agent _ _ He), Hdr in Hpr. injection Hpr as <-.
    by eapply list_elem_of_lookup_2.
  - intros other Hne. unfold records_for at 1. cbn. rewrite Hrec. by rewrite decide_False.
  - unfold stage_checked. cbn [default from_option id]. rewrite Hd'. cbn [default from_option id].
    rewrite Ha'. cbn [default from_option id]. rewrite Hnow. cbn [negb].
    rewrite (replace_entry_same d' agent _ Ha'), (replace_entry_same root' _ _ Hd').
    by rewrite Hread.
Qed.
End staged.

(** ** The allow-list *)

Section trust_sets.
Context `{Primitives}.

Definition is_signer (s : SignerId) : Prop := SignerId_parse s = Ok s.

(** Every listed signer is a decodable key. *)
Definition trust_wf (t : TrustSet) : Prop :=
  ∀ actor signers, allowed_signers t !! actor = Some signers → set_Forall is_signer signers.

Lemma SignerId_parse_is_signer v s : SignerId_parse v = Ok s → is_signer s.
Proof.
  intros Hs. assert (s = v) as ->; [|done].
  unfold SignerId_parse in Hs. by apply bind_Ok in Hs as (_ & _ & [= <-]).
Qed.

Definition parse_allowed_step (actor : string) (parsed : gset SignerId) (signer : json)
    : result (gset SignerId) :=
  let? signer := ok_or (json_as_str signer)
    (invalid_trust_set ("allowed signer for " +:+ actor +:+ " must be a string")) in
  let? signer := SignerId_parse signer in
  Ok (parsed ∪ {[signer]}).

Lemma parse_allowed_wf actor v signers : parse_allowed actor v = Ok signers →
  set_Forall is_signer signers.
Proof.
  unfold parse_allowed. destruct v as [| | | |vs|]; try done. fold (parse_allowed_step actor).
  assert (set_Forall is_signer (∅ : gset SignerId)) as H0 by apply set_Forall_empty.
  revert H0. generalize (∅ : gset SignerId).
  induction vs as [|v vs IH]; cbn [try_fold]; intros X HX; [by intros [= <-]|].
  intros (X' & (s & _ & (s' & Hs & [= <-])%bind_Ok)%bind_Ok & Hf)%bind_Ok.
  refine (IH _ _ Hf).
  apply set_Forall_union; [done|]. apply set_Forall_singleton. by eapply SignerId_parse_is_signer.
Qed.

Lemma parse_allowed_print actor X : set_Forall is_signer X →
  parse_allowed actor (JArray (JString <$> iter_set X)) = Ok X.
Proof.
  intros HX. unfold parse_allowed. fold (parse_allowed_step actor).
  assert (∀ l (Y : gset SignerId), Forall is_signer l →
    try_fold (parse_allowed_step actor) Y (JString <$> l) = Ok (Y ∪ set_of_list l)) as Hl.
  { induction l as [|s l IH]; intros Y; cbn [fmap list_fmap try_fold].
    - intros _. f_equal. unfold set_of_list. set_solver.
    - intros [Hs Hl]%Forall_cons. unfold parse_allowed_step at 2. cbn.
      rewrite Hs. cbn. rewrite (IH _ Hl). f_equal. unfold set_of_list. set_solver. }
  rewrite Hl; [f_equal; unfold set_of_list|].
  - apply set_eq. intros s. rewrite elem_of_union, elem_of_list_to_set, elem_of_iter_set. set_solver.
  - apply Forall_forall. intros s Hs%elem_of_iter_set. by apply HX.
Qed.

Lemma event_signature_trust_set_wf v t : event_signature_trust_set v = Ok t → trust_wf t.
Proof.
  unfold event_signature_trust_set. destruct (json_get v "allowedSigners") as [[]|]; try done.
  intros (d & Hd & [= <-])%bind_Ok actor signers. cbn. revert actor signers.
  assert (∀ actor signers, (∅ : gmap ActorId (gset SignerId)) !! actor = Some signers →
    set_Forall is_signer signers) as H0 by (intros ? ?; by rewrite lookup_empty).
  revert Hd H0. generalize (∅ : gmap ActorId (gset SignerId)).
  induction (map_entries entries) as [|[k w] o IH]; cbn [try_fold fst snd]; intros m0.
  { by intros [= <-]. }
  intros (m1 & (X & HX & [= <-])%bind_Ok & Hf)%bind_Ok H0. apply (IH _ Hf).
  intros actor signers. destruct (decide (k = actor)) as [->|Hne].
  - rewrite lookup_insert_eq. intros [= <-]. by eapply parse_allowed_wf.
  - rewrite lookup_insert_ne by done. apply H0.
Qed.

Lemma trust_set_print_parse t : trust_wf t →
  event_signature_trust_set (trust_set_to_value t) = Ok t.
Proof.
  intros Hwf. unfold event_signature_trust_set, trust_set_to_value, allowed_signers_value.
  cbn [json_get]. set (o := _ <$> iter_map (allowed_signers t)). simpl json_entry.
  assert (o.*1 = map_keys (allowed_signers t)) as Hkeys.
  { unfold o, map_keys. rewrite <- list_fmap_compose. by apply list_fmap_ext. }
  assert (NoDup o.*1) as Hnd by (rewrite Hkeys; apply NoDup_map_keys).
  assert (∀ k, json_entry o k =
    (λ X : gset SignerId, JArray (JString <$> iter_set X)) <$> allowed_signers t !! k) as Hent.
  { intros k. destruct (allowed_signers t !! k) as [X|] eqn:HX; cbn.
    - apply json_entry_Some; [done|]. unfold o. apply list_elem_of_fmap. exists (k, X).
      by rewrite elem_of_iter_map.
    - destruct (json_entry o k) as [v|] eqn:Hv; [|done]. apply json_entry_Some in Hv; [|done].
      unfold o in Hv. apply list_elem_of_fmap in Hv as ([k' X] & [= <- ->] & HX'%elem_of_iter_map).
      congruence. }
  destruct (parse_object_ok parse_allowed o) as [m Hm]; [done| |].
  { intros k v. rewrite Hent. intros (X & HX & ->)%fmap_Some.
    rewrite parse_allowed_print; [done|by eapply Hwf]. }
  unfold parse_entries in Hm. rewrite Hm. cbn [rbind]. destruct t as [t]. do 2 f_equal.
  apply map_eq. intros k. pose proof (parse_object parse_allowed o m Hnd Hm k) as Hk.
  rewrite Hent in Hk. cbn in Hk |- *. destruct (t !! k) as [X|] eqn:HX; cbn in Hk; [|done].
  destruct Hk as (Y & HY & ->). f_equal. apply (Ok_eq (E := ShoreError)).
  rewrite <- HY. apply (parse_allowed_print k X). by eapply Hwf.
Qed.

Lemma insert_signer_lookup t actor signer a s :
  (∃ X, allowed_signers (insert_signer t actor signer).1 !! a = Some X ∧ s ∈ X) ↔
  (∃ X, allowed_signers t !! a = Some X ∧ s ∈ X) ∨ (a = actor ∧ s = signer).
Proof.
  unfold insert_signer. cbn. destruct (decide (actor = a)) as [->|Hne].
  - rewrite lookup_insert_eq. transitivity (s ∈ default ∅ (allowed_signers t !! a) ∪ {[signer]}).
    { split; [by intros (X & [= <-] & ?)|eauto]. }
    rewrite elem_of_union, elem_of_singleton.
    destruct (allowed_signers t !! a) as [X|]; cbn; naive_solver set_solver.
  - rewrite lookup_insert_ne by done. naive_solver.
Qed.

Lemma elem_of_reverse_resolve t a s :
  a ∈ reverse_resolve t s ↔ ∃ X, allowed_signers t !! a = Some X ∧ s ∈ X.
Proof.
  unfold reverse_resolve, set_of_list. rewrite elem_of_list_to_set, list_elem_of_fmap. split.
  - intros ([a' X] & -> & Hin). apply list_elem_of_In, filter_In in Hin as [Hin HX].
    apply list_elem_of_In, elem_of_iter_map in Hin. apply bool_decide_eq_true in HX. eauto.
  - intros (X & HX & Hs). exists (a, X). split; [done|]. apply list_elem_of_In, filter_In.
    rewrite <- list_elem_of_In, elem_of_iter_map, bool_decide_eq_true. done.
Qed.

Lemma authorizes_spec t a s at_ : authorizes t a s at_ = true ↔
  SignerId_parse a = Ok s ∨ ∃ X, allowed_signers t !! a = Some X ∧ s ∈ X.
Proof.
  unfold authorizes. rewrite orb_true_iff. f_equiv.
  - destruct (SignerId_parse a) as [s'|e]; [|done]. rewrite String.eqb_eq. naive_solver.
  - destruct (allowed_signers t !! a) as [X|]; [rewrite bool_decide_eq_true|]; naive_solver.
Qed.

(** Enrolling a signer does what the file is committed for.  The document that
    [stage_enrollment] writes over a list that reads, reads back as the list with the pair;
    this list authorizes exactly what it authorized before and the new pair;
    [actors_for_signer] names exactly the actors that list a signer; enrolling a pair that
    is reported as present changes nothing, and enrolling the pair again reports it as
    present and writes the same document. *)
Theorem enrollment_roundtrip v t actor signer
    (Ht : event_signature_trust_set v = Ok t) (Hs : SignerId_parse signer = Ok signer) :
  let t' := enroll_signer (Some t) actor signer in
  let doc := trust_set_to_value t' in
  stage_enrollment (Some v) actor signer = Ok (doc, enrollment_added (Some t) actor signer) ∧
  event_signature_trust_set doc = Ok t' ∧
  stage_enrollment (Some doc) actor signer = Ok (doc, false) ∧
  (∀ a s at_, authorizes t' a s at_ = true ↔
    authorizes t a s at_ = true ∨ (a = actor ∧ s = signer)) ∧
  (∀ a s, a ∈ actors_for_signer t' s ↔ ∃ X, allowed_signers t' !! a = Some X ∧ s ∈ X) ∧
  (∀ s, contains_signer t' s = true ↔ ∃ a, a ∈ actors_for_signer t' s) ∧
  (enrollment_added (Some t) actor signer = false → t' = t).
Proof.
  pose proof (event_signature_trust_set_wf _ _ Ht) as Hwf. cbv zeta.
  assert (event_signature_trust_set (trust_set_to_value (enroll_signer (Some t) actor signer)) =
    Ok (enroll_signer (Some t) actor signer)) as Hread.
  { apply trust_set_print_parse. intros a X. unfold enroll_signer, insert_signer. cbn.
    destruct (decide (actor = a)) as [->|Hne].
    + rewrite lookup_insert_eq. intros [= <-]. apply set_Forall_union.
      * destruct (allowed_signers t !! a) eqn:E; [by eapply Hwf|apply set_Forall_empty].
      * by apply set_Forall_singleton.
    + rewrite lookup_insert_ne by done. apply Hwf. }
  split_and!.
  - unfold stage_enrollment. by rewrite Ht.
  - done.
  - unfold stage_enrollment. rewrite Hread. cbn [rbind].
    assert (enrollment_added (Some (enroll_signer (Some t) actor signer)) actor signer = false ∧
      enroll_signer (Some (enroll_signer (Some t) actor signer)) actor signer =
        enroll_signer (Some t) actor signer) as [-> ->]; [|done].
    unfold enrollment_added, enroll_signer, insert_signer. cbn. rewrite lookup_insert_eq. cbn. split.
    + rewrite bool_decide_eq_true_2; [done|set_solver].
    + f_equal. rewrite insert_insert_eq. f_equal. set_solver.
  - intros a s at_. rewrite !authorizes_spec. unfold enroll_signer. cbn [default from_option id].
    rewrite insert_signer_lookup. tauto.
  - intros a s. apply elem_of_reverse_resolve.
  - intros s. unfold contains_signer. rewrite existsb_exists. split.
    + intros (X & Hin%list_elem_of_In & HX%bool_decide_eq_true).
      apply list_elem_of_fmap in Hin as ([a X'] & -> & Ha%elem_of_iter_map).
      exists a. apply elem_of_reverse_resolve. eauto.
    + intros (a & (X & HX & Hin)%elem_of_reverse_resolve). exists X.
      rewrite <- list_elem_of_In, bool_decide_eq_true. split; [|done].
      apply list_elem_of_fmap. exists (a, X). by rewrite elem_of_iter_map.
  - unfold enrollment_added, enroll_signer, insert_signer. cbn. destruct t as [t]. cbn.
    destruct (t !! actor) as [X|] eqn:HX; [|done].
    intros Hin%negb_false_iff%bool_decide_eq_true. f_equal. cbn.
    replace (X ∪ {[signer]}) with X by set_solver. by apply insert_id.
Qed.
End trust_sets.

(** ** Principals *)

Section principals.
Context `{Primitives}.

(** C34. Who an agent writes for is decided exactly by the delegation records.  With the
    committed document overlaid by the local one (whose entry for an agent replaces the
    committed entry), a principal is resolved iff the instant reads and the records in
    force at it (from inclusive, until exclusive) name that principal and no other; a
    resolved writer is an agent and its principal never is; the rendered view shows a
    principal exactly then; and the strict policy accepts exactly the non-agents and the
    agents with a resolved principal. *)
Theorem principals_exact committed local mc ml actor at_ p
    (Hc : delegation_map_from_value committed = Ok mc)
    (Hl : delegation_map_from_value local = Ok ml) :
  let m := with_local_override mc ml in
  records_for m actor = match delegates ml !! actor with
                        | Some records => records
                        | None => records_for mc actor
                        end ∧
  (resolve_principal m actor at_ = Resolved p ↔
    ∃ t, parse_event_instant at_ = Some t ∧ ∀ q, covered_by m actor t q ↔ q = p) ∧
  (resolve_principal m actor at_ = Resolved p →
    is_agent_actor_id actor = true ∧ is_agent_actor_id p = false) ∧
  ((∃ view, principal_view_for actor (Some m) at_ = Some view ∧ pv_actor_id view = Some p) ↔
    resolve_principal m actor at_ = Resolved p) ∧
  (principal_sufficient actor at_ (Some m) RequireResolvablePrincipal = true ↔
    is_agent_actor_id actor = false ∨ ∃ q, resolve_principal m actor at_ = Resolved q).
Proof.
  cbv zeta. set (m := with_local_override mc ml).
  assert (∀ q, resolve_principal m actor at_ = Resolved q →
    is_agent_actor_id actor = true ∧ is_agent_actor_id q = false) as Hdepth.
  { intros q (t & _ & Hq)%resolve_principal_Resolved.
    destruct (proj2 (Hq q) eq_refl) as (r & Hr & <- & _).
    unfold records_for in Hr. destruct (delegates m !! actor) as [rs|] eqn:Hrs; [|by apply elem_of_nil in Hr].
    assert (delegation_wf m) as Hwf by (apply with_local_override_wf;
      [exact (delegation_map_from_value_wf _ _ Hc)|exact (delegation_map_from_value_wf _ _ Hl)]).
    destruct (Hwf _ _ Hrs) as [Ha Hall]. split; [done|].
    exact (proj1 (proj1 (Forall_forall _ _) Hall r Hr)). }
  split_and!.
  - unfold records_for, m, with_local_override. cbn. rewrite override_lookup.
    by destruct (delegates ml !! actor).
  - apply resolve_principal_Resolved.
  - apply Hdepth.
  - unfold principal_view_for. split.
    + intros (view & Hv & Hp). destruct (is_agent_actor_id actor); [|done]. cbn [negb] in Hv.
      injection Hv as <-. by destruct (resolve_principal m actor at_); simplify_eq/=.
    + intros Hr. destruct (Hdepth _ Hr) as [-> _]. cbn [negb]. rewrite Hr. eauto.
  - unfold principal_sufficient. destruct (is_agent_actor_id actor) eqn:Ha; cbn; [|naive_solver].
    destruct (resolve_principal m actor at_) as [q| |] eqn:Hr; [|naive_solver..].
    destruct (Hdepth q eq_refl) as [_ ->]. naive_solver.
Qed.

(** A staged delegation reads back.  From a well-formed document that reads (or no
    document), [stage_delegation] succeeds exactly when the key is an agent and the record
    is one the reader accepts; the document it writes then reads, holds that record for
    the agent, keeps the agent's earlier records in order (appending only a new one) and
    every other agent's; and staging the same record again changes nothing. *)
Theorem staged_delegation_reads_back file m agent r
    (Hwf : ∀ v, file = Some v → json_wf v) (Hm : staged_from file = Ok m) :
  is_ok (stage_delegation file agent r) =
    is_agent_actor_id agent && is_ok (parse_record agent (delegation_record_value r)) ∧
  ∀ doc added, stage_delegation file agent r = Ok (doc, added) → ∃ m' dr,
    delegation_map_from_value doc = Ok m' ∧
    parse_record agent (delegation_record_value r) = Ok dr ∧ dr ∈ records_for m' agent ∧
    records_for m' agent = records_for m agent ++ (if added then [dr] else []) ∧
    (∀ other, other ≠ agent → records_for m' other = records_for m other) ∧
    stage_delegation (Some doc) agent r = Ok (doc, false).
Proof.
  pose proof (λ f, stage_delegation_checks f agent r) as Hchk.
  destruct (is_agent_actor_id agent) eqn:Ha; cbn [andb] in Hchk |- *;
    [|split; [apply Hchk|intros doc added Hs; specialize (Hchk file); by rewrite Hs in Hchk]].
  destruct (parse_record agent (delegation_record_value r)) as [dr|e] eqn:Hdr; cbn [is_ok] in Hchk |- *;
    [|split; [apply Hchk|intros doc added Hs; specialize (Hchk file); by rewrite Hs in Hchk]].
  assert (json_wf (delegation_record_value r)) as Hw.
  { unfold delegation_record_value. destruct (dw_valid_until r), (dw_comment r); json_wf_literal. }
  destruct (stage_checked_reads file m agent _ dr Hwf Hm Ha Hw Hdr)
    as (doc & added & m' & Hs & Hread & Hrec & Hin & Hother & Hagain).
  rewrite !Hchk, Hs. split; [done|]. intros doc' added' [= <- <-].
  exists m', dr. by rewrite Hchk.
Qed.
End principals.

(** ** Witnesses *)

Module Example.
#[local] Existing Instance example_primitives.

Definition key : SignerId := from_ed25519_public_key "an ed25519 public key of 32 byte".
Definition allow_list : json :=
  JObject [("allowedSigners", JObject [("actor:git-email:ada@example.com", JArray [JString key])])].
Definition delegation : DelegationWriteRecord := {|
  dw_principal := "actor:git-email:ada@example.com"; dw_valid_from := "2026-01-01T00:00:00Z";
  dw_valid_until := Some "2026-07-01T00:00:00Z"; dw_comment := None |}.
Definition document : json := JObject [("delegates",
  JObject [("actor:agent:builder", JArray [delegation_record_value delegation])])].
Definition nothing : json := JObject [("delegates", JObject [])].

Definition trusted : TrustSet :=
  match event_signature_trust_set allow_list with Ok t => t | Err _ => TrustSet_default end.
Definition delegated : DelegationMap :=
  match delegation_map_from_value document with Ok m => m | Err _ => {| delegates := ∅ |} end.

Lemma list_reads : event_signature_trust_set allow_list = Ok trusted.
Proof. vm_compute. reflexivity. Qed.
Lemma document_reads : delegation_map_from_value document = Ok delegated.
Proof. vm_compute. reflexivity. Qed.
Lemma nothing_reads : delegation_map_from_value nothing = Ok {| delegates := ∅ |}.
Proof. vm_compute. reflexivity. Qed.
Lemma key_reads : SignerId_parse key = Ok key.
Proof. vm_compute. reflexivity. Qed.
Lemma builder_resolves :
  resolve_principal (with_local_override delegated {| delegates := ∅ |}) "actor:agent:builder"
    "2026-03-01T00:00:00Z" = Resolved "actor:git-email:ada@example.com".
Proof. vm_compute. reflexivity. Qed.
End Example.

Lemma enrollment_roundtrip_witness :
  @event_signature_trust_set example_primitives Example.allow_list = Ok Example.trusted ∧
  let t' := enroll_signer (Some Example.trusted) "actor:git-email:bob@example.com" Example.key in
  @event_signature_trust_set example_primitives (trust_set_to_value t') = Ok t'.
Proof.
  split; [exact Example.list_reads|].
  exact (proj1 (proj2 (@enrollment_roundtrip example_primitives Example.allow_list Example.trusted
    "actor:git-email:bob@example.com" Example.key Example.list_reads Example.key_reads))).
Defined.

Lemma principals_exact_witness :
  @delegation_map_from_value example_primitives Example.document = Ok Example.delegated ∧
  is_agent_actor_id "actor:git-email:ada@example.com" = false.
Proof.
  split; [exact Example.document_reads|].
  exact (proj2 (proj1 (proj2 (proj2 (@principals_exact example_primitives Example.document
    Example.nothing Example.delegated {| delegates := ∅ |} "actor:agent:builder"
    "2026-03-01T00:00:00Z" "actor:git-email:ada@example.com" Example.document_reads
    Example.nothing_reads))) Example.builder_resolves)).
Defined.

Lemma staged_delegation_reads_back_witness :
  @stage_delegation example_primitives (Some Example.nothing) "actor:agent:builder" Example.delegation =
    Ok (Example.document, true) ∧
  is_ok (@stage_delegation example_primitives (Some Example.nothing) "actor:agent:builder"
    Example.delegation) =
  is_agent_actor_id "actor:agent:builder" &&
    is_ok (@parse_record example_primitives "actor:agent:builder"
      (delegation_record_value Example.delegation)).
Proof.
  split; [vm_compute; reflexivity|].
  refine (proj1 (@staged_delegation_reads_back example_primitives (Some Example.nothing)
    {| delegates := ∅ |} "actor:agent:builder" Example.delegation _ Example.nothing_reads)).
  intros v [= <-]. unfold Example.nothing. json_wf_literal.
Defined.
