(* ===== verification/Cosignature.v ===== *)
(** * Co-signature sets ([src/src/session/projection/cosignature.rs])

    The attestations of an event: its own signature and the detached carriers that target
    it, each with its status and its classification under the reader's trust set, and the
    endorsements read from them. *)

From S2P Require Import Prelude RustStr BTree Model CanonicalHash Crypto Events Wire.
From S2P Require Import Signing Identity.

Inductive CosignatureSource := Inline | Detached (carrier_event_id : string).

Inductive AuthoringReason := AuthoringNotEndorsement.
Inductive EndorsementUntrustedReason := ReasonUnknownEndorser | ReasonAmbiguousEndorser.

Inductive CosignatureClassification :=
| Authoring (reason : option AuthoringReason)
| EndorsementTrusted (endorser : ActorId)
| EndorsementUntrusted (reason : EndorsementUntrustedReason).

Record CosignatureMember := {
  cm_attesting_signer : SignerId;
  cm_status : EventVerificationStatus;
  cm_source : CosignatureSource;
  cm_classification : CosignatureClassification
}.

Record CosignatureSet := { cs_target_event_id : string; cs_members : list CosignatureMember }.

Definition inline_status (set : CosignatureSet) : option EventVerificationStatus :=
  cm_status <$> List.find (λ m, match cm_source m with Inline => true | _ => false end)
    (cs_members set).

Definition has_valid_member (set : CosignatureSet) : bool :=
  existsb (λ m, bool_decide (cm_status m = Valid)) (cs_members set).

Definition has_trusted_endorsement (set : CosignatureSet) : bool :=
  existsb (λ m, match cm_classification m with EndorsementTrusted _ => true | _ => false end)
    (cs_members set).

Definition has_untrusted_member (set : CosignatureSet) : bool :=
  existsb (λ m, bool_decide (cm_status m = UntrustedKey)) (cs_members set).

Definition classify_cosignature_member (source : CosignatureSource)
    (status : EventVerificationStatus) (attesting_signer : SignerId) (target_actor : ActorId)
    (trust : TrustSet) : CosignatureClassification :=
  match source with
  | Inline => Authoring None
  | Detached _ =>
      match status with
      | Valid =>
          let launders := existsb (λ actor, negb (String.eqb actor target_actor))
            (iter_set (reverse_resolve trust attesting_signer)) in
          Authoring (if launders then Some AuthoringNotEndorsement else None)
      | UntrustedKey =>
          match iter_set (reverse_resolve trust attesting_signer) with
          | [endorser] => EndorsementTrusted endorser
          | [] => EndorsementUntrusted ReasonUnknownEndorser
          | _ => EndorsementUntrusted ReasonAmbiguousEndorser
          end
      | Invalid | Unsigned => Authoring None
      end
  end.

Record DetachedCarrier := { dc_event : ShoreEvent; dc_payload : EventSignatureRecordedPayload }.

Record CosignatureIndex := { carriers_by_target : gmap string (list DetachedCarrier) }.

Section cosignatures.
Context `{Digest} `{JsonReader} `{Primitives}.

(** [CosignatureIndex::build]; a carrier whose payload does not decode is an error. *)
Definition index_carrier (m : gmap string (list DetachedCarrier)) (event : ShoreEvent)
    : result (gmap string (list DetachedCarrier)) :=
  let? payload := from_json (A := EventSignatureRecordedPayload) (ev_payload event) in
  let target := sp_target_event_id payload in
  Ok (<[target := default [] (m !! target) ++
        [{| dc_event := event; dc_payload := payload |}]]> m).

Definition build_index (events : list ShoreEvent) : result CosignatureIndex :=
  let? m := try_fold index_carrier ∅
    (List.filter (λ event, bool_decide (ev_event_type event = EventSignatureRecorded)) events) in
  Ok {| carriers_by_target := m |}.

Definition inline_member (target : ShoreEvent) (target_record_hash : string) (trust : TrustSet)
    : result (option string * option CosignatureMember) :=
  match ev_signature target with
  | None => Ok (None, None)
  | Some signature =>
      let? status := verify_event_signature target trust in
      match match resolve_effective_signer target with
            | Ok signer => Some signer
            | Err _ => ev_signer target
            end with
      | None => Ok (None, None)
      | Some attesting_signer =>
          let key := cosignature_idempotency_key target_record_hash attesting_signer
            (es_sig signature) in
          let classification := classify_cosignature_member Inline status attesting_signer
            (w_actor_id (ev_writer target)) trust in
          Ok (Some key, Some {| cm_attesting_signer := attesting_signer; cm_status := status;
                                cm_source := Inline; cm_classification := classification |})
      end
  end.

(** One round of the loop of [detached_members]. *)
Definition detached_step (target : ShoreEvent) (inline_key : option string) (trust : TrustSet)
    (detached : gmap string CosignatureMember) (carrier : DetachedCarrier)
    : result (gmap string CosignatureMember) :=
  let event := dc_event carrier in
  let payload := dc_payload carrier in
  let? verification := verify_cosignature payload target trust in
  match verification with
  | Attested ((Valid | UntrustedKey) as status) =>
      if bool_decide (inline_key = Some (ev_idempotency_key event)) then Ok detached
      else
      let source := Detached (ev_event_id event) in
      let classification := classify_cosignature_member source status
        (sp_attesting_signer payload) (w_actor_id (ev_writer target)) trust in
      let member := {| cm_attesting_signer := sp_attesting_signer payload; cm_status := status;
                       cm_source := source; cm_classification := classification |} in
      Ok match detached !! ev_idempotency_key event with
         | Some _ => detached
         | None => <[ev_idempotency_key event := member]> detached
         end
  | Attested _ | CosignatureMismatch => Ok detached
  end.

Definition detached_members (carriers : list DetachedCarrier) (target : ShoreEvent)
    (inline_key : option string) (trust : TrustSet) : result (gmap string CosignatureMember) :=
  try_fold (detached_step target inline_key trust) ∅ carriers.

Definition cosignatures_for_target (index : CosignatureIndex) (target : ShoreEvent)
    (trust : TrustSet) : result CosignatureSet :=
  let? target_record_hash := event_record_hash target in
  let? inline := inline_member target target_record_hash trust in
  let carriers := default [] (carriers_by_target index !! ev_event_id target) in
  let? detached := detached_members carriers target inline.1 trust in
  Ok {| cs_target_event_id := ev_event_id target;
        cs_members := option_list inline.2 ++ map_values detached |}.

Definition cosignatures_for_event (events : list ShoreEvent) (target_event_id : string)
    (trust : TrustSet) : result CosignatureSet :=
  match List.find (λ event, String.eqb (ev_event_id event) target_event_id) events with
  | None => Ok {| cs_target_event_id := target_event_id; cs_members := [] |}
  | Some target =>
      let? index := build_index events in
      cosignatures_for_target index target trust
  end.
End cosignatures.

(** ** Endorsements *)

Inductive EndorsementClassification :=
| ClassEndorsementTrusted
| ClassUnknownEndorser
| ClassAmbiguousEndorser.

Record EndorserAttributesView := { ea_kind : option string; ea_roles : list string }.

Record EndorsementReadback := {
  er_classification : EndorsementClassification;
  er_endorser : option ActorId;
  er_reason : option string;
  er_endorser_attributes : option EndorserAttributesView
}.

Definition endorsement_readbacks (set : CosignatureSet) : list EndorsementReadback :=
  omap (λ member,
    match cm_classification member with
    | EndorsementTrusted endorser =>
        Some {| er_classification := ClassEndorsementTrusted; er_endorser := Some endorser;
                er_reason := None; er_endorser_attributes := None |}
    | EndorsementUntrusted reason =>
        Some {| er_classification := match reason with
                                     | ReasonUnknownEndorser => ClassUnknownEndorser
                                     | ReasonAmbiguousEndorser => ClassAmbiguousEndorser
                                     end;
                er_endorser := None; er_reason := None; er_endorser_attributes := None |}
    | Authoring _ => None
    end) (cs_members set).

Definition enrich_endorser_attributes (readbacks : list EndorsementReadback)
    (attributes : option ActorAttributesMap) : list EndorsementReadback :=
  match attributes with
  | None => readbacks
  | Some attributes =>
      (λ readback,
        match er_endorser readback with
        | None => readback
        | Some endorser =>
            let resolved := resolve_attributes attributes endorser in
            if negb (bool_decide (is_Some (aa_kind resolved))) &&
               bool_decide (aa_roles resolved = ∅) then readback
            else {| er_classification := er_classification readback;
                    er_endorser := er_endorser readback; er_reason := er_reason readback;
                    er_endorser_attributes := Some {| ea_kind := aa_kind resolved;
                      ea_roles := iter_set (aa_roles resolved) |} |}
        end) <$> readbacks
  end.
