(* ===== verification/CosignatureProofs.v ===== *)
(** * What signatures and co-signatures guarantee

    Verification and the storage gate exactly, signing followed by verification, and the
    members and endorsements of a co-signature set. *)

From Stdlib Require Import Permutation.
From S2P Require Import Prelude RustStr BTree Model CanonicalHash Crypto Events Wire Capabilities.
From S2P Require Import Signing Identity Cosignature IdentityProofs.

Section verification.
Context `{Digest} `{Primitives}.

(** The signature is one of the supported kind by [signer] over the event's bytes to be
    signed, naming that signer. *)
Definition verified_by (e : ShoreEvent) (signer : SignerId) (sig : EventSignature) : Prop :=
  supported_signature sig = true ∧ ∃ tbs message,
    tbs_from_event e signer = Ok tbs ∧
    event_signature_pre_authentication_encoding tbs = Ok message ∧
    verify_ed25519_strict signer message (es_sig sig) = Ok Valid.

(** The carrier's payload attests to the target. *)
Definition attests (target : ShoreEvent) (p : EventSignatureRecordedPayload) : Prop :=
  event_record_hash target = Ok (sp_target_event_record_hash p) ∧
  verified_by target (sp_attesting_signer p) (sp_attestation p).

(** The status of a signature that verifies. *)
Definition trusted_status (trust : TrustSet) (e : ShoreEvent) (signer : SignerId)
    : EventVerificationStatus :=
  if authorizes trust (w_actor_id (ev_writer e)) signer (ev_occurred_at e) then Valid
  else UntrustedKey.

Lemma strict_status signer message sig :
  verify_ed25519_strict signer message sig = Ok Valid ∨
  verify_ed25519_strict signer message sig = Ok Invalid.
Proof. unfold verify_ed25519_strict. repeat case_match; auto. Qed.

Lemma tbs_signer_of e signer tbs : tbs_from_event e signer = Ok tbs → tbs_signer tbs = signer.
Proof. unfold tbs_from_event. by intros (? & _ & [= <-])%bind_Ok. Qed.

#[export] Instance verified_by_dec e signer sig : Decision (verified_by e signer sig).
Proof.
  unfold verified_by. destruct (supported_signature sig); [|right; by intros [? _]].
  destruct (tbs_from_event e signer) as [tbs|]; [|right; by intros (_ & ? & ? & ? & _)].
  destruct (event_signature_pre_authentication_encoding tbs) as [message|] eqn:Hm;
    [|right; intros (_ & ? & ? & [= <-] & ? & _); congruence].
  destruct (verify_ed25519_strict signer message (es_sig sig)) as [[]|] eqn:Hv;
    [left; by eauto 8|right; intros (_ & ? & ? & [= <-] & ? & ?); congruence..].
Defined.

#[export] Instance attests_dec target p : Decision (attests target p).
Proof. unfold attests. apply _. Defined.

(** [verify_event_signature], branch by branch. *)
Lemma verify_event_signature_spec e trust :
  verify_event_signature e trust =
  match ev_signature e with
  | None => Ok Unsigned
  | Some sig =>
      match resolve_effective_signer e with
      | Err _ => Ok Invalid
      | Ok signer => if decide (verified_by e signer sig) then Ok (trusted_status trust e signer)
                     else Ok Invalid
      end
  end.
Proof.
  unfold verify_event_signature. destruct (ev_signature e) as [sig|] eqn:Hs; [|done].
  unfold event_to_be_signed, trusted_status.
  destruct (resolve_effective_signer e) as [signer|err] eqn:Hr; cbn [rbind].
  - case_decide as Hv.
    + destruct Hv as (-> & tbs & message & Ht & Hm & Hv). rewrite Ht. cbn [map_err negb].
      rewrite Hm, (tbs_signer_of _ _ _ Ht), Hv. cbn. by destruct (authorizes _ _ _ _).
    + destruct (supported_signature sig) eqn:Hsup; [|done]. cbn [negb].
      destruct (tbs_from_event e signer) as [tbs|] eqn:Ht; [|done]. cbn [map_err].
      destruct (event_signature_pre_authentication_encoding tbs) as [message|] eqn:Hm; [|done].
      rewrite (tbs_signer_of _ _ _ Ht).
      destruct (strict_status signer message (es_sig sig)) as [Hst|Hst]; rewrite Hst; [|done].
      destruct Hv. split; eauto 8.
  - destruct (supported_signature sig); [|done]. cbn. unfold resolve_effective_signer in Hr.
    rewrite Hs in Hr. destruct (ev_signer e); [done|].
    by destruct (SignerId_parse _); cbn in Hr; simplify_eq.
Qed.

Lemma verify_cosignature_spec p target trust :
  verify_cosignature p target trust =
  if decide (event_record_hash target ≠ Ok (sp_target_event_record_hash p)) then
    Ok CosignatureMismatch
  else if decide (attests target p) then
    Ok (Attested (trusted_status trust target (sp_attesting_signer p)))
  else Ok (Attested Invalid).
Proof.
  unfold verify_cosignature, trusted_status.
  change (event_record_hash target) with (Ok (E := ShoreError) (json_digest (record_view target))).
  cbn [rbind]. destruct (String.eqb_spec (json_digest (record_view target))
    (sp_target_event_record_hash p)) as [Hh|Hh]; cbn [negb];
    [rewrite decide_False by (intros Hn; by rewrite Hh in Hn)|by rewrite decide_True by congruence].
  case_decide as Ha.
  - destruct Ha as (_ & -> & tbs & message & -> & -> & ->). cbn. by destruct (authorizes _ _ _ _).
  - assert (¬ verified_by target (sp_attesting_signer p) (sp_attestation p)) as Hv.
    { intros Hv. apply Ha. split; [|done]. by rewrite <- Hh. }
    destruct (supported_signature (sp_attestation p)) eqn:Hsup; [|done]. cbn [negb].
    destruct (tbs_from_event target (sp_attesting_signer p)) as [tbs|] eqn:Ht; [|done].
    destruct (event_signature_pre_authentication_encoding tbs) as [message|] eqn:Hm; [|done].
    destruct (strict_status (sp_attesting_signer p) message (es_sig (sp_attestation p)))
      as [Hst|Hst]; rewrite Hst; [|done]. destruct Hv. split; eauto 8.
Qed.

Lemma trusted_status_cases trust e signer :
  trusted_status trust e signer = Valid ∨ trusted_status trust e signer = UntrustedKey.
Proof. unfold trusted_status. case_match; auto. Qed.

Lemma gate_spec p target trust :
  gate_cosignature_for_store p (Some target) trust =
  if decide (event_record_hash target ≠ Ok (sp_target_event_record_hash p)) then Ok BindingMismatch
  else if decide (attests target p) then
    Ok (Store (trusted_status trust target (sp_attesting_signer p)))
  else Ok DropInvalid.
Proof.
  unfold gate_cosignature_for_store. rewrite verify_cosignature_spec.
  case_decide; [done|]. case_decide; [|done]. cbn [rbind].
  by destruct (trusted_status_cases trust target (sp_attesting_signer p)) as [->| ->].
Qed.

(** C8. Verification decides exactly the signature and its authority.  An inline
    signature is [Unsigned] iff there is none; [Valid] or [UntrustedKey] iff it is of the
    supported kind and verifies, strictly, for the event's effective signer over the bytes
    that name this signer, the two told apart by the allow-list; and otherwise [Invalid].
    The gate stores a carrier iff the target is at hand, hashes to the bound record hash
    and the attestation verifies over the target's bytes naming the attesting signer;
    trust decides the status it is stored with, never whether it is stored. *)
Theorem verification_exact e p trust :
  (verify_event_signature e trust = Ok Unsigned ↔ ev_signature e = None) ∧
  (∀ st, st = Valid ∨ st = UntrustedKey →
    verify_event_signature e trust = Ok st ↔
    ∃ sig signer, ev_signature e = Some sig ∧ resolve_effective_signer e = Ok signer ∧
      verified_by e signer sig ∧
      (st = Valid ↔ authorizes trust (w_actor_id (ev_writer e)) signer (ev_occurred_at e) = true)) ∧
  is_ok (verify_event_signature e trust) = true ∧
  gate_cosignature_for_store p None trust = Ok TargetPending ∧
  (∀ st, gate_cosignature_for_store p (Some e) trust = Ok (Store st) ↔
    attests e p ∧ st = trusted_status trust e (sp_attesting_signer p)) ∧
  (gate_cosignature_for_store p (Some e) trust = Ok BindingMismatch ↔
    event_record_hash e ≠ Ok (sp_target_event_record_hash p)) ∧
  (∀ trust', is_ok (gate_cosignature_for_store p (Some e) trust') = true ∧
    (stores <$> gate_cosignature_for_store p (Some e) trust') =
    (stores <$> gate_cosignature_for_store p (Some e) trust)).
Proof.
  rewrite verify_event_signature_spec, gate_spec. split_and!.
  - destruct (ev_signature e); [|done].
    destruct (resolve_effective_signer e) as [signer|]; [|done].
    case_decide; [|done]. by destruct (trusted_status_cases trust e signer) as [->| ->].
  - intros st Hst. destruct (ev_signature e) as [sig|]; [|naive_solver].
    destruct (resolve_effective_signer e) as [signer|]; [|naive_solver].
    unfold trusted_status. case_decide; [|naive_solver].
    destruct (authorizes _ _ _ _) eqn:Ha; split;
      try (intros [= <-]; exists sig, signer; by rewrite Ha);
      intros (? & ? & [= <-] & [= <-] & _ & Hiff); rewrite Ha in Hiff;
      destruct Hst as [->| ->]; intuition discriminate.
  - repeat case_match; done.
  - done.
  - intros st. case_decide as Hh; [unfold attests; naive_solver|]. case_decide; naive_solver.
  - case_decide; [done|]. case_decide; naive_solver.
  - intros trust'. rewrite gate_spec. by case_decide; [|case_decide].
Qed.
End verification.

(** ** Signing *)

(** A signer's signatures verify under its id. *)
Class SignerLaws `{Primitives} (signer : EventSigner) : Prop :=
  sign_verifies message sig : @sign_event_message signer message = Ok sig →
    verify_ed25519_strict (@signer_id signer) message sig = Ok Valid.

Section signing.
Context `{Digest} `{Primitives} (signer : EventSigner) `{!SignerLaws signer}.

Lemma verified_signer_parses s message sig :
  verify_ed25519_strict s message sig = Ok Valid → SignerId_parse s = Ok s.
Proof.
  unfold verify_ed25519_strict, ed25519_public_key, SignerId_parse.
  by destruct (decode_ed25519_public_key s).
Qed.

Lemma tbs_from_with_signature s sig e by_ :
  tbs_from_event (with_signature s sig e) by_ = tbs_from_event e by_.
Proof. done. Qed.

(** C9. Signing an event and verifying it agree.  Signing an event on write, with a
    signer whose signatures verify, keeps its record hash and gives an event whose
    effective signer is that signer (left out of the envelope when it is the writer's own
    key) and whose signature verifies: [Valid] where the allow-list or the key itself
    authorizes the signer, [UntrustedKey] elsewhere.  A best-effort signer that fails
    leaves the event as it was, and a signer that must sign fails the write.  A carrier
    attesting the event with the same signer passes the storage gate. *)
Theorem signing_verifies best e e' why trust
    (Hs : sign_event_if_requested e {| so_signer := Some signer; so_best_effort := best |} =
          Ok (e', why)) :
  event_record_hash e' = event_record_hash e ∧
  match why with
  | Some _ => best = true ∧ e' = e
  | None =>
      resolve_effective_signer e' = Ok (@signer_id signer) ∧
      (ev_signer e' = None ↔ w_actor_id (ev_writer e) = @signer_id signer) ∧
      verify_event_signature e' trust = Ok (trusted_status trust e (@signer_id signer)) ∧
      (w_actor_id (ev_writer e) = @signer_id signer →
        verify_event_signature e' trust = Ok Valid) ∧
      (∀ h, event_record_hash e = Ok h → ∃ sig, ev_signature e' = Some sig ∧
        gate_cosignature_for_store {| sp_target_event_id := ev_event_id e;
          sp_target_event_record_hash := h; sp_attesting_signer := @signer_id signer;
          sp_attestation := sig; sp_inclusion_proof := None |} (Some e) trust =
        Ok (Store (trusted_status trust e (@signer_id signer))))
  end.
Proof.
  unfold sign_event_if_requested in Hs. cbn [so_signer so_best_effort] in Hs.
  apply bind_Ok in Hs as (tbs & Htbs & (message & Hm & Hs)%bind_Ok).
  destruct (@sign_event_message signer message) as [sig|err] eqn:Hsig.
  2:{ destruct best; [|done]. by injection Hs as <- <-. }
  injection Hs as <- <-. apply sign_verifies in Hsig as Hv.
  pose proof (verified_signer_parses _ _ _ Hv) as Hp.
  set (s := if String.eqb (w_actor_id (ev_writer e)) (@signer_id signer) then None
            else Some (@signer_id signer)).
  assert (resolve_effective_signer (with_signature s (ed25519_v1 sig) e) = Ok (@signer_id signer))
    as Hr.
  { unfold resolve_effective_signer, with_signature, s. cbn.
    destruct (String.eqb_spec (w_actor_id (ev_writer e)) (@signer_id signer)) as [Heq|]; [|done].
    by rewrite Heq, Hp. }
  assert (verified_by e (@signer_id signer) (ed25519_v1 sig)) as Hver by (split; eauto 8).
  assert (verify_event_signature (with_signature s (ed25519_v1 sig) e) trust =
    Ok (trusted_status trust e (@signer_id signer))) as Hst.
  { rewrite verify_event_signature_spec, Hr. cbn [with_signature ev_signature].
    by rewrite decide_True. }
  split; [done|]. split_and!; [done| |done| |].
  - unfold s, with_signature. cbn. by destruct (String.eqb_spec (w_actor_id (ev_writer e)) (@signer_id signer)).
  - intros Heq. rewrite Hst. unfold trusted_status, authorizes. by rewrite Heq, Hp, String.eqb_refl.
  - intros h Hh. exists (ed25519_v1 sig). split; [done|]. rewrite gate_spec. cbn.
    rewrite decide_False by (intros Hn; by destruct Hn). by rewrite decide_True.
Qed.
End signing.

(** ** Co-signature sets *)

Section sets.
Context `{Digest} `{JsonReader} `{Primitives}.

Definition is_carrier (e : ShoreEvent) : Prop := ev_event_type e = EventSignatureRecorded.

(** [e] is a carrier that attests to [target], and [m] the member it makes. *)
Definition member_from (target : ShoreEvent) (trust : TrustSet) (e : ShoreEvent)
    (m : CosignatureMember) : Prop :=
  is_carrier e ∧ ∃ p, from_json (ev_payload e) = Ok p ∧
    sp_target_event_id p = ev_event_id target ∧ attests target p ∧
    cm_attesting_signer m = sp_attesting_signer p ∧
    cm_status m = trusted_status trust target (sp_attesting_signer p) ∧
    cm_source m = Detached (ev_event_id e) ∧
    cm_classification m = classify_cosignature_member (cm_source m) (cm_status m)
      (sp_attesting_signer p) (w_actor_id (ev_writer target)) trust.

(** The attestation of the event's own envelope, and its key. *)
Definition inline_of (target : ShoreEvent) (trust : TrustSet)
    : option string * option CosignatureMember :=
  match inline_member target (json_digest (record_view target)) trust with
  | Ok r => r
  | Err _ => (None, None)
  end.

Lemma inline_member_Ok target trust :
  inline_member target (json_digest (record_view target)) trust = Ok (inline_of target trust).
Proof.
  unfold inline_of, inline_member. rewrite verify_event_signature_spec.
  destruct (ev_signature target) as [sig|]; [|done].
  destruct (resolve_effective_signer target) as [signer|]; [case_decide; done|].
  cbn [rbind]. by destruct (ev_signer target).
Qed.

Lemma inline_authoring target trust m :
  (inline_of target trust).2 = Some m → cm_classification m = Authoring None.
Proof.
  unfold inline_of. destruct (inline_member _ _ _) as [r|] eqn:Hr; [|done].
  unfold inline_member in Hr. destruct (ev_signature target); [|by injection Hr as <-].
  apply bind_Ok in Hr as (status & _ & Hr).
  destruct (match resolve_effective_signer target with Ok signer => Some signer | Err _ => _ end);
    injection Hr as <-; [|done]. by intros [= <-].
Qed.

(** *** The index *)

Definition decodes (e : ShoreEvent) (c : DetachedCarrier) : Prop :=
  from_json (ev_payload e) = Ok (dc_payload c) ∧ dc_event c = e.

Definition targets (id : string) (c : DetachedCarrier) : bool :=
  String.eqb (sp_target_event_id (dc_payload c)) id.

Lemma index_fold l m0 m : try_fold index_carrier m0 l = Ok m → ∃ cs,
  Forall2 decodes l cs ∧
  ∀ id, default [] (m !! id) = default [] (m0 !! id) ++ List.filter (targets id) cs.
Proof.
  revert m0. induction l as [|e l IH]; intros m0; cbn [try_fold].
  { intros [= <-]. exists []. split; [constructor|]. intros id. cbn. by rewrite app_nil_r. }
  intros (m1 & (p & Hp & [= <-])%bind_Ok & Hf)%bind_Ok.
  destruct (IH _ Hf) as (cs & Hcs & Hm). exists ({| dc_event := e; dc_payload := p |} :: cs).
  split; [by constructor|]. intros id. rewrite Hm. cbn [List.filter].
  unfold targets at 2. cbn [dc_payload]. destruct (String.eqb_spec (sp_target_event_id p) id) as [<-|Hne].
  - rewrite lookup_insert_eq. cbn [default from_option id]. by rewrite <- app_assoc.
  - by rewrite lookup_insert_ne.
Qed.

Lemma index_fold_ok l m0 : is_ok (try_fold index_carrier m0 l) = true ↔
  Forall (λ e, is_ok (from_json (A := EventSignatureRecordedPayload) (ev_payload e)) = true) l.
Proof.
  revert m0. induction l as [|e l IH]; intros m0; cbn [try_fold]; [by split|].
  rewrite Forall_cons. unfold index_carrier at 1.
  destruct (from_json (ev_payload e)) as [p|]; cbn [rbind is_ok]; [|naive_solver].
  rewrite IH. naive_solver.
Qed.

(** The carriers a target is looked up with, as a set of events. *)
Lemma index_bucket events index id : build_index events = Ok index →
  ∀ c, c ∈ default [] (carriers_by_target index !! id) ↔
    dc_event c ∈ events ∧ is_carrier (dc_event c) ∧
    from_json (ev_payload (dc_event c)) = Ok (dc_payload c) ∧
    sp_target_event_id (dc_payload c) = id.
Proof.
  unfold build_index. intros (m & Hm & [= <-])%bind_Ok c. cbn [carriers_by_target].
  destruct (index_fold _ _ _ Hm) as (cs & Hcs & ->). rewrite lookup_empty. cbn [default from_option app].
  rewrite list_elem_of_In, filter_In, <- list_elem_of_In. unfold targets. rewrite String.eqb_eq.
  assert (c ∈ cs ↔ dc_event c ∈ events ∧ is_carrier (dc_event c) ∧
    from_json (ev_payload (dc_event c)) = Ok (dc_payload c)) as ->; [|naive_solver].
  assert (∀ e, e ∈ List.filter (λ event, bool_decide (ev_event_type event = EventSignatureRecorded))
    events ↔ e ∈ events ∧ is_carrier e) as Hin.
  { intros e. by rewrite list_elem_of_In, filter_In, <- list_elem_of_In, bool_decide_eq_true. }
  split.
  - intros [i Hi]%list_elem_of_lookup. destruct (Forall2_lookup_r _ _ _ _ _ Hcs Hi) as (e & He & Hd & <-).
    apply list_elem_of_lookup_2, Hin in He. naive_solver.
  - intros (He & Hc & Hp). assert (dc_event c ∈ events ∧ is_carrier (dc_event c)) as He' by done.
    apply Hin, list_elem_of_lookup in He' as [i Hi].
    destruct (Forall2_lookup_l _ _ _ _ _ Hcs Hi) as (c' & Hc' & Hd & He').
    assert (c' = c) as ->; [|by eapply list_elem_of_lookup_2].
    destruct c, c'; cbn in *. congruence.
Qed.

Lemma NoDup_fmap_filter {A B} (f : A → B) (g : A → bool) l :
  NoDup (f <$> l) → NoDup (f <$> List.filter g l).
Proof.
  induction l as [|x l IH]; cbn; [done|]. intros [Hx Hl]%NoDup_cons.
  destruct (g x); [|by apply IH]. cbn. apply NoDup_cons. split; [|by apply IH].
  intros (y & Hxy & Hy)%list_elem_of_fmap. apply list_elem_of_In, filter_In in Hy as [Hy _].
  apply Hx, list_elem_of_fmap. exists y. by rewrite list_elem_of_In.
Qed.

Lemma index_bucket_keys events index id : build_index events = Ok index →
  NoDup (ev_idempotency_key <$> events) →
  NoDup (ev_idempotency_key ∘ dc_event <$> default [] (carriers_by_target index !! id)).
Proof.
  unfold build_index. intros (m & Hm & [= <-])%bind_Ok Hnd. cbn [carriers_by_target].
  destruct (index_fold _ _ _ Hm) as (cs & Hcs & ->). rewrite lookup_empty. cbn [default from_option app].
  apply NoDup_fmap_filter. rewrite list_fmap_compose.
  replace (dc_event <$> cs) with (List.filter (λ event, bool_decide (ev_event_type event =
    EventSignatureRecorded)) events); [by apply NoDup_fmap_filter|].
  clear -Hcs. induction Hcs as [|e c l cs [_ <-] _ IH]; cbn; [done|]. by f_equal.
Qed.

(** *** The members *)

Definition member_of (target : ShoreEvent) (trust : TrustSet) (c : DetachedCarrier)
    : CosignatureMember :=
  let status := trusted_status trust target (sp_attesting_signer (dc_payload c)) in
  let source := Detached (ev_event_id (dc_event c)) in
  {| cm_attesting_signer := sp_attesting_signer (dc_payload c); cm_status := status;
     cm_source := source;
     cm_classification := classify_cosignature_member source status
       (sp_attesting_signer (dc_payload c)) (w_actor_id (ev_writer target)) trust |}.

Lemma detached_step_spec target key trust d c :
  detached_step target key trust d c =
  let k := ev_idempotency_key (dc_event c) in
  if decide (attests target (dc_payload c) ∧ key ≠ Some k ∧ d !! k = None) then
    Ok (<[k := member_of target trust c]> d)
  else Ok d.
Proof.
  unfold detached_step. rewrite verify_cosignature_spec. cbv zeta.
  destruct (decide (event_record_hash target ≠ Ok (sp_target_event_record_hash (dc_payload c)))) as [Hh|Hh].
  { rewrite decide_False; [done|]. unfold attests. naive_solver. }
  destruct (decide (attests target (dc_payload c))) as [Ha|Ha];
    [|rewrite decide_False by tauto; done].
  cbn [rbind]. unfold member_of.
  destruct (trusted_status_cases trust target (sp_attesting_signer (dc_payload c))) as [Hst|Hst];
    rewrite Hst; case_bool_decide as Hk;
    try (by rewrite decide_False by tauto);
    destruct (d !! ev_idempotency_key (dc_event c)) eqn:Hd;
    (rewrite decide_False by (intros (_ & _ & ?); done); done) || (rewrite decide_True; done).
Qed.

Lemma detached_members_spec cs target key trust :
  NoDup (ev_idempotency_key ∘ dc_event <$> cs) → ∃ d,
  detached_members cs target key trust = Ok d ∧
  ∀ k m, d !! k = Some m ↔ ∃ c, c ∈ cs ∧ ev_idempotency_key (dc_event c) = k ∧ key ≠ Some k ∧
    attests target (dc_payload c) ∧ m = member_of target trust c.
Proof.
  intros Hnd. unfold detached_members.
  assert (∀ d0, (∀ c, c ∈ cs → d0 !! ev_idempotency_key (dc_event c) = None) → ∃ d,
    try_fold (detached_step target key trust) d0 cs = Ok d ∧
    ∀ k m, d !! k = Some m ↔ d0 !! k = Some m ∨ ∃ c, c ∈ cs ∧
      ev_idempotency_key (dc_event c) = k ∧ key ≠ Some k ∧
      attests target (dc_payload c) ∧ m = member_of target trust c) as Hfold.
  2:{ destruct (Hfold ∅) as (d & Hd & Hk); [by intros|]. exists d. split; [done|].
      intros k m. rewrite Hk, lookup_empty. naive_solver. }
  induction cs as [|c cs IH]; cbn [try_fold]; intros d0 Hfree.
  { exists d0. split; [done|]. intros k m. split; [by left|]. intros [?|(? & []%elem_of_nil & _)]; done. }
  apply NoDup_cons in Hnd as [Hc Hnd]. rewrite detached_step_spec. cbv zeta.
  set (kc := ev_idempotency_key (dc_event c)).
  assert (d0 !! kc = None) as Hkc by (apply Hfree; by left).
  assert (∀ c', c' ∈ cs → ev_idempotency_key (dc_event c') ≠ kc) as Hother.
  { intros c' Hin Heq. apply Hc. apply list_elem_of_fmap. by exists c'. }
  case_decide as Hd; cbn [rbind].
  - destruct (IH Hnd (<[kc := member_of target trust c]> d0)) as (d & Hdf & Hk).
    { intros c' Hin. rewrite lookup_insert_ne by (symmetry; by apply Hother).
      apply Hfree. by right. }
    exists d. split; [done|]. intros k m. rewrite Hk, lookup_insert_Some.
    setoid_rewrite elem_of_cons. naive_solver.
  - destruct (IH Hnd d0) as (d & Hdf & Hk); [intros; apply Hfree; by right|].
    exists d. split; [done|]. intros k m. rewrite Hk. setoid_rewrite elem_of_cons. naive_solver.
Qed.

Lemma member_from_of target trust c m :
  is_carrier (dc_event c) → from_json (ev_payload (dc_event c)) = Ok (dc_payload c) →
  sp_target_event_id (dc_payload c) = ev_event_id target →
  attests target (dc_payload c) ∧ m = member_of target trust c ↔
  member_from target trust (dc_event c) m.
Proof.
  intros Hc Hp Ht. unfold member_from, member_of. split.
  - intros [Ha ->]. split; [done|]. by exists (dc_payload c).
  - intros (_ & p & Hp' & _ & Ha & Ma & Mb & Mc & Md). rewrite Hp in Hp'. injection Hp' as <-.
    split; [done|]. destruct m; cbn in *. by subst.
Qed.

Lemma cosignatures_spec events index target trust :
  build_index events = Ok index → NoDup (ev_idempotency_key <$> events) → ∃ d,
  cosignatures_for_target index target trust =
    Ok {| cs_target_event_id := ev_event_id target;
          cs_members := option_list (inline_of target trust).2 ++ map_values d |} ∧
  ∀ k m, d !! k = Some m ↔ ∃ e, e ∈ events ∧ ev_idempotency_key e = k ∧
    (inline_of target trust).1 ≠ Some k ∧ member_from target trust e m.
Proof.
  intros Hi Hnd. unfold cosignatures_for_target.
  change (event_record_hash target) with (Ok (E := ShoreError) (json_digest (record_view target))).
  cbn [rbind]. rewrite inline_member_Ok. cbn [rbind].
  pose proof (index_bucket _ _ (ev_event_id target) Hi) as Hb.
  destruct (detached_members_spec _ target (inline_of target trust).1 trust
    (index_bucket_keys _ _ (ev_event_id target) Hi Hnd)) as (d & -> & Hd).
  exists d. split; [done|]. intros k m. rewrite Hd. split.
  - intros (c & (He & Hc & Hp & Ht)%Hb & Hk & Hne & Ha). exists (dc_event c).
    by rewrite <- member_from_of.
  - intros (e & He & Hk & Hne & Hm). destruct Hm as (Hc & p & Hp & Ht & Hrest).
    exists {| dc_event := e; dc_payload := p |}. rewrite Hb. cbn [dc_event dc_payload].
    split_and!; try done; [apply Hrest|].
    apply (member_from_of target trust {| dc_event := e; dc_payload := p |} m Hc Hp Ht).
    split; [done|]. by exists p.
Qed.

Lemma build_index_ok events : is_ok (build_index events) = true ↔
  ∀ e, e ∈ events → is_carrier e →
    is_ok (from_json (A := EventSignatureRecordedPayload) (ev_payload e)) = true.
Proof.
  unfold build_index. pose proof (index_fold_ok (List.filter (λ event, bool_decide
    (ev_event_type event = EventSignatureRecorded)) events) ∅) as Hok.
  destruct (try_fold index_carrier ∅ _) as [m|err]; cbn [rbind is_ok] in *; rewrite Hok;
    rewrite Forall_forall; split; intros Hall e.
  1,3: intros He Hc; apply Hall, list_elem_of_In, filter_In;
    by rewrite <- list_elem_of_In, bool_decide_eq_true.
  all: intros [He Hc]%list_elem_of_In%filter_In; apply list_elem_of_In in He;
    apply bool_decide_eq_true in Hc; by apply Hall.
Qed.

Lemma find_by_id events id target : NoDup (ev_event_id <$> events) →
  target ∈ events → ev_event_id target = id →
  List.find (λ event, String.eqb (ev_event_id event) id) events = Some target.
Proof.
  intros Hnd Hin <-. induction events as [|e events IH]; [by apply elem_of_nil in Hin|].
  apply NoDup_cons in Hnd as [He Hnd]. cbn. apply elem_of_cons in Hin as [->|Hin].
  - by rewrite String.eqb_refl.
  - destruct (String.eqb_spec (ev_event_id e) (ev_event_id target)) as [Heq|]; [|by apply IH].
    destruct He. rewrite Heq. apply list_elem_of_fmap. by exists target.
Qed.

Lemma cosignatures_found events l target trust : NoDup (ev_event_id <$> events) →
  target ∈ events → l ≡ₚ events →
  cosignatures_for_event l (ev_event_id target) trust =
  (let? index := build_index l in cosignatures_for_target index target trust).
Proof.
  intros Hids Hin Hl. unfold cosignatures_for_event.
  rewrite (find_by_id l (ev_event_id target) target); [done|by rewrite Hl..|done].
Qed.

Lemma cosignature_members events target trust set :
  NoDup (ev_idempotency_key <$> events) → NoDup (ev_event_id <$> events) → target ∈ events →
  cosignatures_for_event events (ev_event_id target) trust = Ok set →
  ∀ m, m ∈ cs_members set ↔ (inline_of target trust).2 = Some m ∨
    ∃ e, e ∈ events ∧ (inline_of target trust).1 ≠ Some (ev_idempotency_key e) ∧
      member_from target trust e m.
Proof.
  intros Hkeys Hids Hin. rewrite (cosignatures_found events events) by done.
  intros (index & Hi & Hset)%bind_Ok m.
  destruct (cosignatures_spec _ _ target trust Hi Hkeys) as (d & Hd & Hm).
  rewrite Hd in Hset. injection Hset as <-. cbn [cs_members]. rewrite elem_of_app. f_equiv.
  { destruct (inline_of target trust).2 as [m'|]; cbn; [|by rewrite elem_of_nil].
    rewrite list_elem_of_singleton. naive_solver. }
  unfold map_values. rewrite list_elem_of_fmap. split.
  - intros ([k m'] & -> & (e & He & <- & Hk & Hf)%elem_of_iter_map%Hm). eauto.
  - intros (e & He & Hk & Hf). exists (ev_idempotency_key e, m). split; [done|].
    apply elem_of_iter_map, Hm. eauto.
Qed.

(** An event's co-signature set is what its doc promises on a log whose keys and ids
    are distinct.  It reads iff every carrier of the log decodes; its members are exactly
    the event's own attestation and one member for every carrier that names the event,
    binds its record hash and verifies over it (under a key other than the one of the own
    attestation), each with the status of the reader's allow-list; and it does not depend
    on the order of the log. *)
Theorem cosignature_set_exact events target trust
    (Hkeys : NoDup (ev_idempotency_key <$> events)) (Hids : NoDup (ev_event_id <$> events))
    (Hin : target ∈ events) :
  let cosignatures l := cosignatures_for_event l (ev_event_id target) trust in
  (is_ok (cosignatures events) = true ↔ ∀ e, e ∈ events → is_carrier e →
    is_ok (from_json (A := EventSignatureRecordedPayload) (ev_payload e)) = true) ∧
  ∀ set, cosignatures events = Ok set →
    (∀ m, m ∈ cs_members set ↔ (inline_of target trust).2 = Some m ∨
      ∃ e, e ∈ events ∧ (inline_of target trust).1 ≠ Some (ev_idempotency_key e) ∧
        member_from target trust e m) ∧
    ∀ events', events' ≡ₚ events → cosignatures events' = Ok set.
Proof.
  cbv beta zeta. split.
  - rewrite (cosignatures_found events events) by done. rewrite <- build_index_ok.
    destruct (build_index events) as [index|] eqn:Hi; [|done].
    destruct (cosignatures_spec _ _ target trust Hi Hkeys) as (d & Hd & _).
    cbn [rbind is_ok]. by rewrite Hd.
  - intros set Hset. split; [by apply cosignature_members|]. intros l Hl. revert Hset.
    rewrite (cosignatures_found events l), (cosignatures_found events events) by done.
    intros (index & Hi & Hset)%bind_Ok.
    destruct (cosignatures_spec _ _ target trust Hi Hkeys) as (d & Hd & Hm).
    rewrite Hd in Hset. injection Hset as <-.
    assert (is_ok (build_index l) = true) as Hok.
    { apply build_index_ok. intros e He. rewrite Hl in He. revert e He.
      apply build_index_ok. by rewrite Hi. }
    destruct (build_index l) as [index'|] eqn:Hi'; [|done]. cbn [rbind].
    destruct (cosignatures_spec _ _ target trust Hi') as (d' & -> & Hm'); [by rewrite Hl|].
    replace d' with d; [done|]. apply map_eq. intros k. apply option_eq. intros m.
    rewrite Hm, Hm'. by setoid_rewrite Hl.
Qed.

(** Which member is an endorsement, and by whom. *)
Lemma classify_trusted source status signer actor trust endorser :
  classify_cosignature_member source status signer actor trust = EndorsementTrusted endorser ↔
  (∃ id, source = Detached id) ∧ status = UntrustedKey ∧
  ∀ a, (∃ X, allowed_signers trust !! a = Some X ∧ signer ∈ X) ↔ a = endorser.
Proof.
  unfold classify_cosignature_member. destruct source as [|id]; [naive_solver|].
  destruct status; try naive_solver.
  setoid_rewrite <- elem_of_reverse_resolve. rewrite <- iter_set_singleton.
  destruct (iter_set (reverse_resolve trust signer)) as [|a [|b l]]; naive_solver.
Qed.

(** C10. A trusted endorsement is another known actor's.  Where a member of an event's
    set is classified as a trusted endorsement, a carrier of the log attests to the event
    with the endorser's key; that key is listed for the endorser and for no other actor;
    and the endorser is not the event's writer, whose own keys are always authoring: a
    member authorized for the writer is never an endorsement.  Exactly these endorsers are
    read back. *)
Theorem endorsement_sound events target trust set
    (Hkeys : NoDup (ev_idempotency_key <$> events)) (Hids : NoDup (ev_event_id <$> events))
    (Hin : target ∈ events)
    (Hset : cosignatures_for_event events (ev_event_id target) trust = Ok set) :
  let writer := w_actor_id (ev_writer target) in
  (∀ endorser, (∃ r, r ∈ endorsement_readbacks set ∧ er_endorser r = Some endorser) ↔
    ∃ m, m ∈ cs_members set ∧ cm_classification m = EndorsementTrusted endorser) ∧
  (has_trusted_endorsement set = true ↔
    ∃ r endorser, r ∈ endorsement_readbacks set ∧ er_endorser r = Some endorser) ∧
  ∀ m endorser, m ∈ cs_members set → cm_classification m = EndorsementTrusted endorser →
    endorser ≠ writer ∧
    (∀ a, (∃ X, allowed_signers trust !! a = Some X ∧ cm_attesting_signer m ∈ X) ↔ a = endorser) ∧
    authorizes trust writer (cm_attesting_signer m) (ev_occurred_at target) = false ∧
    ∃ e p, e ∈ events ∧ is_carrier e ∧ from_json (ev_payload e) = Ok p ∧
      attests target p ∧ sp_attesting_signer p = cm_attesting_signer m.
Proof.
  cbv zeta.
  assert (∀ endorser, (∃ r, r ∈ endorsement_readbacks set ∧ er_endorser r = Some endorser) ↔
    ∃ m, m ∈ cs_members set ∧ cm_classification m = EndorsementTrusted endorser) as Hread.
  { intros endorser. unfold endorsement_readbacks. setoid_rewrite list_elem_of_omap. split.
    - intros (r & (m & Hm & Hr) & He). exists m. split; [done|].
      destruct (cm_classification m) as [|a|reason]; simplify_eq/=; done.
    - intros (m & Hm & Hc). eexists. split; [exists m; by rewrite Hc|done]. }
  split_and!; [done| |].
  - unfold has_trusted_endorsement. rewrite existsb_exists. split.
    + intros (m & Hm%list_elem_of_In & Hc).
      destruct (cm_classification m) as [|endorser|] eqn:Hcl; [done| |done].
      destruct (proj2 (Hread endorser)) as (r & ? & ?); eauto.
    + intros (r & endorser & Hr & He). destruct (proj1 (Hread endorser)) as (m & Hm & Hc); [eauto|].
      exists m. by rewrite <- list_elem_of_In, Hc.
  - intros m endorser Hm Hc. apply (cosignature_members events target trust set) in Hm; [|done..].
    destruct Hm as [Hinl|(e & He & _ & Hcar & p & Hp & Ht & Ha & Hs & Hst & Hsrc & Hcl)].
    { apply inline_authoring in Hinl. congruence. }
    rewrite Hcl in Hc. apply classify_trusted in Hc as (_ & Hun & Huniq).
    rewrite <- Hs in Huniq. rewrite Hst in Hun. unfold trusted_status in Hun.
    destruct (authorizes _ _ _ _) eqn:Hau; [done|]. rewrite Hs.
    split_and!; [|by rewrite <- Hs|done|eauto 10].
    intros ->. rewrite <- not_true_iff_false in Hau. apply Hau, authorizes_spec. right.
    rewrite <- Hs. by apply Huniq.
Qed.
End sets.

(** ** Witnesses *)

Module Example.
#[local] Existing Instances example_digest example_reader example_primitives.

Definition public_key : string := "0123456789abcdef0123456789abcdef".

#[export] Instance signer : EventSigner := {|
  signer_id := from_ed25519_public_key public_key;
  sign_event_message := λ m,
    let sig := str_take 64 (public_key +:+ m) in
    if String.length sig =? 64 then Ok sig else Err (Message "message too short")
|}.

#[export] Instance signer_laws : SignerLaws signer.
Proof.
  intros m sig. cbn [sign_event_message signer_id signer].
  destruct (String.length (str_take 64 (public_key +:+ m)) =? 64) eqn:Hlen; [|done].
  intros Heq. apply Ok_eq in Heq as <-. unfold verify_ed25519_strict.
  assert (ed25519_public_key (from_ed25519_public_key public_key) = Ok public_key) as ->
    by (vm_compute; reflexivity).
  cbn [negb verifying_key_ok base64_decode signature_ok verify_strict example_primitives].
  by rewrite Hlen, String.eqb_refl.
Qed.

Definition target : ShoreEvent := {|
  ev_schema := EVENT_SCHEMA; ev_version := EVENT_VERSION;
  ev_event_id := event_id_for_idempotency_key "t:01:a"; ev_event_type := ReviewInitialized;
  ev_idempotency_key := "t:01:a"; ev_target := for_journal "journal:default";
  ev_writer := {| w_actor_id := "actor:git-email:ada@example.com";
                  w_producer := {| wp_name := "shore"; wp_version := "1" |} |};
  ev_occurred_at := "2026-01-01T00:00:00Z"; ev_payload_hash := json_digest (JString "a");
  ev_assertion_mode := Advisory; ev_signer := None; ev_signature := None; ev_source_ref := None;
  ev_ingest := None; ev_content_encoding := []; ev_payload_version := 1;
  ev_payload := JString "a" |}.

Definition signed : ShoreEvent :=
  match sign_event_if_requested target {| so_signer := Some signer; so_best_effort := false |} with
  | Ok (e, _) => e
  | Err _ => target
  end.

Definition payload : EventSignatureRecordedPayload := {|
  sp_target_event_id := ev_event_id target;
  sp_target_event_record_hash := json_digest (record_view target);
  sp_attesting_signer := @signer_id signer;
  sp_attestation := default (ed25519_v1 "") (ev_signature signed);
  sp_inclusion_proof := None |}.

(** The carrier of an attestation, under a given key. *)
Definition carrier (key : string) : ShoreEvent :=
  match ShoreEvent_new EventSignatureRecorded key (for_journal "journal:default")
    (ev_writer target) EventSignatureRecorded (to_json payload) "2026-01-02T00:00:00Z" with
  | Ok e => e
  | Err _ => target
  end.

Definition attestation_key : string := cosignature_idempotency_key
  (sp_target_event_record_hash payload) (sp_attesting_signer payload)
  (es_sig (sp_attestation payload)).

Definition log : list ShoreEvent := [target; carrier attestation_key].

Definition trust : TrustSet := (insert_signer TrustSet_default "actor:git-email:bob@example.com"
  (@signer_id signer)).1.

Definition set : CosignatureSet :=
  match cosignatures_for_event log (ev_event_id target) trust with
  | Ok set => set
  | Err _ => {| cs_target_event_id := ""; cs_members := [] |}
  end.

Lemma log_keys : NoDup (ev_idempotency_key <$> log).
Proof. apply (bool_decide_unpack _). vm_compute. exact I. Qed.
Lemma log_ids : NoDup (ev_event_id <$> log).
Proof. apply (bool_decide_unpack _). vm_compute. exact I. Qed.
Lemma log_set : cosignatures_for_event log (ev_event_id target) trust = Ok set.
Proof. vm_compute. reflexivity. Qed.
Lemma set_endorsed : cm_classification <$> cs_members set =
  [EndorsementTrusted "actor:git-email:bob@example.com"].
Proof. vm_compute. reflexivity. Qed.
Lemma target_signs :
  sign_event_if_requested target {| so_signer := Some signer; so_best_effort := false |} =
  Ok (signed, None).
Proof. vm_compute. reflexivity. Qed.
End Example.

Lemma signing_verifies_witness :
  @verify_event_signature example_digest example_primitives Example.signed Example.trust =
    Ok UntrustedKey ∧
  @event_record_hash example_digest Example.signed = @event_record_hash example_digest Example.target.
Proof.
  split; [vm_compute; reflexivity|].
  exact (proj1 (@signing_verifies example_digest example_primitives Example.signer
    Example.signer_laws false Example.target Example.signed None Example.trust
    Example.target_signs)).
Defined.

Lemma cosignature_set_exact_witness :
  @cosignatures_for_event example_digest example_reader example_primitives
    [Example.carrier Example.attestation_key; Example.target]
    (ev_event_id Example.target) Example.trust = Ok Example.set.
Proof.
  exact (proj2 (proj2 (@cosignature_set_exact example_digest example_reader example_primitives
    Example.log Example.target Example.trust Example.log_keys Example.log_ids
    (list_elem_of_here _ _)) Example.set Example.log_set) _ (perm_swap _ _ _)).
Defined.

Lemma endorsement_sound_witness : ∃ m, m ∈ cs_members Example.set ∧
  "actor:git-email:bob@example.com" ≠ w_actor_id (ev_writer Example.target).
Proof.
  destruct (cs_members Example.set) as [|m l] eqn:Hm.
  { pose proof Example.set_endorsed as He. by rewrite Hm in He. }
  assert (cm_classification m = EndorsementTrusted "actor:git-email:bob@example.com") as Hc.
  { pose proof Example.set_endorsed as He. rewrite Hm in He. by injection He. }
  assert (m ∈ cs_members Example.set) as Hin by (rewrite Hm; by left).
  exists m. split; [by left|].
  exact (proj1 (proj2 (proj2 (@endorsement_sound example_digest example_reader example_primitives
    Example.log Example.target Example.trust Example.set Example.log_keys Example.log_ids
    (list_elem_of_here _ _) Example.log_set)) m _ Hin Hc)).
Defined.
