(* ===== verification/Ingest.v ===== *)
(** * Ingest and detached co-signatures ([src/src/session/workflow])

    Building and recording a co-signature carrier ([event_signature/mod.rs]) and ingesting
    a batch of events ([ingest.rs]): attribution and policy first, then one admitted
    writer in which every carrier passes the verify-before-store gate.  The store is any
    journal whose events are also files; the local writer identity and the clock are
    operations of the environment. *)

From S2P Require Import Prelude RustStr BTree Model Acknowledgement CanonicalHash Crypto Events Wire.
From S2P Require Import Journal EventCodec Capabilities CapabilityRouter CapabilityProofs EventStore.
From S2P Require Import Signing Identity.

(** [LocalStorage::read_bytes] of [events/<stem>.json]. *)
Class EventFiles (S : Type) := read_event_file : string → io S string.

(** [writer_from_options] and [current_timestamp]: they read configuration and the clock. *)
Class Environment (S : Type) := {
  writer_from_options : option ActorId → S → Writer * S;
  current_timestamp : S → string * S
}.

(** The environment and the files leave the records alone, and a file that reads is one
    of the records. *)
Class IngestLaws (S : Type) `{Digest} `{JournalView S} `{EventFiles S} `{Environment S}
    : Prop := {
  file_law stem (s : S) :
    carriers (read_event_file stem s).2 = carriers s ∧
    ∀ b, (read_event_file stem s).1 = Ok b →
      ∃ k, carriers s !! k = Some b ∧ event_filename_stem k = stem;
  writer_law actor (s : S) : carriers (writer_from_options actor s).2 = carriers s;
  clock_law (s : S) : carriers (current_timestamp s).2 = carriers s
}.

(** An operation of the environment, which does not fail. *)
Definition lift_env {S A} (f : S → A * S) : io S A := λ s, (Ok (f s).1, (f s).2).

(** ** Carriers ([event_signature/mod.rs]) *)

Record CosignatureRecord := {
  cr_carrier : ShoreEvent;
  cr_decision : CosignatureGateDecision;
  cr_write_outcome : option EventWriteOutcome;
  cr_acknowledgement : option EventWriteAcknowledgement
}.

Section carriers.
Context `{Digest} `{JsonReader} `{Primitives}.
Context {S : Type} `{Journal S} `{Authority S}.

Definition assemble_and_record_cosignature_with_writer (target : ShoreEvent)
    (attesting_signer : SignerId) (attestation : EventSignature) (writer : Writer)
    (trust : TrustSet) (occurred_at : string)
    (record_event_once : ShoreEvent → io S EventWriteAcknowledgement) : io S CosignatureRecord :=
  let! target_event_record_hash := pure_io (event_record_hash target) in
  let payload := {| sp_target_event_id := ev_event_id target;
                    sp_target_event_record_hash := target_event_record_hash;
                    sp_attesting_signer := attesting_signer; sp_attestation := attestation;
                    sp_inclusion_proof := None |} in
  let idempotency_key := cosignature_idempotency_key target_event_record_hash attesting_signer
    (es_sig attestation) in
  let! carrier := pure_io (ShoreEvent_new EventSignatureRecorded idempotency_key
    (for_journal (et_journal_id (ev_target target))) writer EventSignatureRecorded
    (to_json payload) occurred_at) in
  let! decision := pure_io (gate_cosignature_for_store payload (Some target) trust) in
  let! acknowledgement :=
    if stores decision then
      let! ack := record_event_once carrier in pure_io (Ok (Some ack))
    else pure_io (Ok None) in
  pure_io (Ok {| cr_carrier := carrier; cr_decision := decision;
                 cr_write_outcome := ewa_outcome <$> acknowledgement;
                 cr_acknowledgement := acknowledgement |}).

Definition assemble_and_record_cosignature (target : ShoreEvent) (attesting_signer : SignerId)
    (attestation : EventSignature) (writer : Writer) (trust : TrustSet) (occurred_at : string)
    : io S CosignatureRecord :=
  assemble_and_record_cosignature_with_writer target attesting_signer attestation writer trust
    occurred_at record_event_once_acknowledged.
End carriers.

Record EventSignatureRecordResult := {
  esr_acknowledgement : WriteAcknowledgementV1;
  esr_event_id : EventId;
  esr_target_event_id : EventId;
  esr_target_event_record_hash : string;
  esr_attesting_signer : SignerId;
  esr_events_created : nat;
  esr_events_existing : nat;
  esr_events_created_by_type : gmap string nat;
  esr_diagnostics : list ProjectionDiagnostic
}.

Definition aggregate_record (derived : DerivedWriteAggregate) (ack : EventWriteAcknowledgement)
    : result (DerivedWriteAggregate * EventWriteOutcome) :=
  ok_or (Acknowledgement.record derived ack) (Panicked "aggregated token agrees with availability").

Section record_event_signature.
Context `{Digest} `{JsonReader} `{Primitives} (signer : EventSigner).
Context {S : Type} `{Journal S} `{Authority S} `{Environment S}.

(** [record_event_signature], after the stores are resolved: [validation_events] is what
    the writer sees. *)
Definition record_event_signature (validation_events : list ShoreEvent)
    (target_event_id : EventId) (actor_id : option ActorId) : io S EventSignatureRecordResult :=
  let! target := pure_io (ok_or
    (List.find (λ event, String.eqb (ev_event_id event) target_event_id) validation_events)
    (Message ("co-signature target event not found: " +:+ target_event_id))) in
  let! target_event_record_hash := pure_io (event_record_hash target) in
  let attesting_signer := @signer_id signer in
  let! tbs := pure_io (tbs_from_event target attesting_signer) in
  let! pae := pure_io (event_signature_pre_authentication_encoding tbs) in
  let! sig_bytes := pure_io (@sign_event_message signer pae) in
  let attestation := ed25519_v1 sig_bytes in
  let! writer := lift_env (writer_from_options actor_id) in
  let! timestamp := lift_env current_timestamp in
  let! record := assemble_and_record_cosignature target attesting_signer attestation writer
    TrustSet_default timestamp in
  match drop_diagnostic_code (cr_decision record) with
  | Some code => pure_io (Err (Message ("refusing to store co-signature carrier (" +:+ code +:+ ")")))
  | None =>
      let! outcome := pure_io (ok_or (cr_write_outcome record)
        (Panicked "a stored decision yields a write outcome")) in
      let '(events_created, events_existing, by_type) :=
        match outcome with
        | Acknowledgement.Created =>
            (1, 0, {[ EventType_as_str EventSignatureRecorded := 1 ]} : gmap string nat)
        | Existing | ExistingDivergentSignature => (0, 1, ∅)
        end in
      let! ack := pure_io (ok_or (cr_acknowledgement record)
        (Panicked "stored carrier yields acknowledgement")) in
      let! recorded := pure_io (aggregate_record aggregate_default ack) in
      let '(acknowledgement, diagnostics) := finish recorded.1 events_created events_existing [] in
      pure_io (Ok {| esr_acknowledgement := acknowledgement;
        esr_event_id := ev_event_id (cr_carrier record);
        esr_target_event_id := ev_event_id target;
        esr_target_event_record_hash := target_event_record_hash;
        esr_attesting_signer := attesting_signer;
        esr_events_created := events_created; esr_events_existing := events_existing;
        esr_events_created_by_type := by_type; esr_diagnostics := diagnostics |})
  end.
End record_event_signature.

(** ** The carrier target index *)

Record CarrierTargetIndex := {
  ci_seeded : bool;
  ci_idempotency_key_by_event_id : gmap string string;
  ci_resolved_event : option ShoreEvent
}.

Definition CarrierTargetIndex_default : CarrierTargetIndex :=
  {| ci_seeded := false; ci_idempotency_key_by_event_id := ∅; ci_resolved_event := None |}.

(** [entry(k).or_insert(v)]. *)
Definition or_insert (m : gmap string string) (k v : string) : gmap string string :=
  match m !! k with Some _ => m | None => <[k := v]> m end.

Definition with_keys (index : CarrierTargetIndex) (m : gmap string string) : CarrierTargetIndex :=
  {| ci_seeded := ci_seeded index; ci_idempotency_key_by_event_id := m;
     ci_resolved_event := ci_resolved_event index |}.

Definition with_resolved (index : CarrierTargetIndex) (e : option ShoreEvent)
    : CarrierTargetIndex :=
  {| ci_seeded := ci_seeded index;
     ci_idempotency_key_by_event_id := ci_idempotency_key_by_event_id index;
     ci_resolved_event := e |}.

Section target_index.
Context `{Digest} `{JsonReader} `{Primitives} {S : Type} `{Journal S}.

Definition list_events_for_carrier_target : io S (list ShoreEvent) := list_events.

(** [CarrierTargetIndex::resolve]: the index afterwards, whose resolved event is the
    result. *)
Definition index_resolve (index : CarrierTargetIndex) (event_id : string)
    : io S (CarrierTargetIndex * option ShoreEvent) :=
  let! index :=
    if ci_seeded index then pure_io (Ok index)
    else
    let! events := list_events_for_carrier_target in
    pure_io (Ok {| ci_seeded := true;
      ci_idempotency_key_by_event_id := foldl
        (λ m event, or_insert m (ev_event_id event) (ev_idempotency_key event))
        (ci_idempotency_key_by_event_id index) events;
      ci_resolved_event := ci_resolved_event index |}) in
  match ci_idempotency_key_by_event_id index !! event_id with
  | None => pure_io (Ok (with_resolved index None, None))
  | Some idempotency_key =>
      let stale := match ci_resolved_event index with
                   | None => true
                   | Some event => negb (String.eqb (ev_event_id event) event_id)
                   end in
      let! index :=
        if stale then
          let! event := read_stored_event idempotency_key in
          pure_io (Ok (with_resolved index (Some event)))
        else pure_io (Ok index) in
      pure_io (Ok (index, ci_resolved_event index))
  end.

Definition index_settled (index : CarrierTargetIndex) (event : ShoreEvent) : bool :=
  negb (ci_seeded index) ||
  bool_decide (is_Some (ci_idempotency_key_by_event_id index !! ev_event_id event)).

Definition observe_recorded_event (index : CarrierTargetIndex) (event : ShoreEvent)
    : io S CarrierTargetIndex :=
  if index_settled index event then pure_io (Ok index)
  else
  let! stored := read_stored_event (ev_idempotency_key event) in
  let m := <[ev_event_id event := ev_idempotency_key event]>
    (ci_idempotency_key_by_event_id index) in
  pure_io (Ok (with_keys index (or_insert m (ev_event_id stored) (ev_idempotency_key stored)))).

Definition observe_batch_write (index : CarrierTargetIndex) (event : ShoreEvent)
    (outcome : EventWriteOutcome) : io S CarrierTargetIndex :=
  if index_settled index event then pure_io (Ok index)
  else match outcome with
  | Acknowledgement.Created =>
      pure_io (Ok (with_keys index (<[ev_event_id event := ev_idempotency_key event]>
        (ci_idempotency_key_by_event_id index))))
  | Existing | ExistingDivergentSignature => observe_recorded_event index event
  end.
End target_index.

(** ** Diagnostics *)

Definition drop_diagnostic (code message : string) : ProjectionDiagnostic :=
  {| pd_code := code; pd_message := message |}.

Definition cosignature_untrusted_signer_diagnostic (carrier_event_id target_event_id
    attesting_signer claimed_actor : string) : ProjectionDiagnostic :=
  {| pd_code := COSIGNATURE_UNTRUSTED_SIGNER_CODE;
     pd_message := "merged co-signature " +:+ carrier_event_id +:+ " over event " +:+
       target_event_id +:+ " is signed by " +:+ attesting_signer +:+
       ", which is not authorized for actor " +:+ claimed_actor +:+ " in this trust set" |}.

Definition cosignature_verification_message (status : EventVerificationStatus) : option string :=
  match status with
  | Valid => None
  | UntrustedKey => Some "co-signature signer is not authorized by the trust set"
  | Invalid => Some "co-signature attestation is invalid"
  | Unsigned => Some "co-signature carrier has no attestation"
  end.

(** ** The batch session *)

(** [IngestBatchSession]; the store, the writer, the worktree and the trust set are
    arguments of its operations. *)
Record IngestBatchSession := {
  is_derived : DerivedWriteAggregate;
  is_carrier_targets : CarrierTargetIndex;
  is_ingest_diagnostics : list ProjectionDiagnostic;
  is_events_created : nat;
  is_events_existing : nat;
  is_events_created_by_type : gmap string nat
}.

Definition session_default : IngestBatchSession :=
  {| is_derived := aggregate_default; is_carrier_targets := CarrierTargetIndex_default;
     is_ingest_diagnostics := []; is_events_created := 0; is_events_existing := 0;
     is_events_created_by_type := ∅ |}.

(** The parts an event of the batch changes: [CarrierIngestContext] and the diagnostics. *)
Definition session_context (session : IngestBatchSession) (derived : DerivedWriteAggregate)
    (targets : CarrierTargetIndex) (diagnostics : list ProjectionDiagnostic)
    : IngestBatchSession :=
  {| is_derived := derived; is_carrier_targets := targets; is_ingest_diagnostics := diagnostics;
     is_events_created := is_events_created session;
     is_events_existing := is_events_existing session;
     is_events_created_by_type := is_events_created_by_type session |}.

(** The counters, and the [or_default() += 1] of the type where one was created. *)
Definition session_count (session : IngestBatchSession) (created existing : nat)
    (ty : EventType) : IngestBatchSession :=
  {| is_derived := is_derived session; is_carrier_targets := is_carrier_targets session;
     is_ingest_diagnostics := is_ingest_diagnostics session;
     is_events_created := is_events_created session + created;
     is_events_existing := is_events_existing session + existing;
     is_events_created_by_type :=
       if 0 <? created then
         let key := EventType_as_str ty in
         <[key := default 0 (is_events_created_by_type session !! key) + 1]>
           (is_events_created_by_type session)
       else is_events_created_by_type session |}.

Definition outcome_counts (outcome : EventWriteOutcome) : nat * nat :=
  match outcome with Acknowledgement.Created => (1, 0) | _ => (0, 1) end.

Section ingest.
Context `{Digest} `{JsonReader} `{Primitives}.
Context {S : Type} `{Journal S} `{Authority S} `{EventFiles S} `{Environment S}.

(** The counts, the session and the verification rows after a carrier of the batch. *)
Definition ingest_detached_cosignature (event : ShoreEvent) (session : IngestBatchSession)
    (trust : TrustSet) (verification : list IngestEventVerification)
    : io S ((nat * nat) * IngestBatchSession * list IngestEventVerification) :=
  let! payload := pure_io (from_json (A := EventSignatureRecordedPayload) (ev_payload event)) in
  let! resolved := index_resolve (is_carrier_targets session) (sp_target_event_id payload) in
  let '(targets, target) := resolved in
  let! decision := pure_io (gate_cosignature_for_store payload target trust) in
  let target_context := (λ t, (ev_event_id t, w_actor_id (ev_writer t))) <$> target in
  let dropped code message :=
    pure_io (Ok ((0, 0), session_context session (is_derived session) targets
      (is_ingest_diagnostics session ++ [drop_diagnostic code message]), verification)) in
  match decision with
  | Store status =>
      let! ack := batch_record_event_once_acknowledged event in
      let! recorded := pure_io (aggregate_record (is_derived session) ack) in
      let '(derived, outcome) := recorded in
      let! targets := observe_batch_write targets event outcome in
      let verification := verification ++ [{| iv_event_id := ev_event_id event;
        iv_status := status; iv_message := cosignature_verification_message status;
        iv_write_outcome := Some outcome |}] in
      let untrusted := bool_decide (status = UntrustedKey) &&
        bool_decide (outcome = Acknowledgement.Created) in
      let diagnostics := is_ingest_diagnostics session ++
        match target_context with
        | Some (target_event_id, target_actor_id) =>
            if untrusted then [cosignature_untrusted_signer_diagnostic (ev_event_id event)
              target_event_id (sp_attesting_signer payload) target_actor_id] else []
        | None => []
        end in
      pure_io (Ok (outcome_counts outcome, session_context session derived targets diagnostics,
        verification))
  | DropInvalid => dropped COSIGNATURE_INVALID_CODE
      ("detached co-signature " +:+ ev_event_id event +:+ " over event " +:+
       sp_target_event_id payload +:+ " has an invalid attestation and was not stored")
  | TargetPending => dropped COSIGNATURE_TARGET_PENDING_CODE
      ("detached co-signature " +:+ ev_event_id event +:+ " targets event " +:+
       sp_target_event_id payload +:+ ", which is not present; not stored")
  | BindingMismatch => dropped COSIGNATURE_BINDING_MISMATCH_CODE
      ("detached co-signature " +:+ ev_event_id event +:+
       " binds an eventRecordHash that does not match its target " +:+
       sp_target_event_id payload +:+ "; not stored")
  end.

(** [EventStore::read_event] of the path of a key. *)
Definition read_event (idempotency_key : string) : io S ShoreEvent :=
  let stem := event_filename_stem idempotency_key in
  let! bytes := read_event_file stem in
  pure_io (decode_validated_event bytes (Some stem)).

Definition transcribe_divergent_signature (event : ShoreEvent) (session : IngestBatchSession)
    (trust : TrustSet) : io S ((nat * nat) * IngestBatchSession) :=
  let! stored_target := read_event (ev_idempotency_key event) in
  match ev_signature event with
  | None => pure_io (Ok ((0, 0), session))
  | Some attestation =>
      match resolve_effective_signer event with
      | Err _ => pure_io (Ok ((0, 0), session))
      | Ok attesting_signer =>
          let! writer := lift_env (writer_from_options None) in
          let! timestamp := lift_env current_timestamp in
          let! record := assemble_and_record_cosignature_with_writer stored_target
            attesting_signer attestation writer trust timestamp
            batch_record_event_once_acknowledged in
          match cr_decision record with
          | Store status =>
              let! outcome := pure_io (ok_or (cr_write_outcome record)
                (Panicked "a stored decision yields a write outcome")) in
              let! ack := pure_io (ok_or (cr_acknowledgement record)
                (Panicked "stored carrier yields acknowledgement")) in
              let! recorded := pure_io (aggregate_record (is_derived session) ack) in
              let! targets := observe_recorded_event (is_carrier_targets session)
                (cr_carrier record) in
              let diagnostics := is_ingest_diagnostics session ++
                if bool_decide (status = UntrustedKey) &&
                   bool_decide (outcome = Acknowledgement.Created)
                then [cosignature_untrusted_signer_diagnostic (ev_event_id (cr_carrier record))
                  (ev_event_id stored_target) attesting_signer
                  (w_actor_id (ev_writer stored_target))]
                else [] in
              pure_io (Ok (outcome_counts outcome,
                session_context session recorded.1 targets diagnostics))
          | DropInvalid | BindingMismatch | TargetPending => pure_io (Ok ((0, 0), session))
          end
      end
  end.

(** A value the loop of [record_verified_events] carries: the session, the rows and the
    row cursor. *)
Record IngestLoop := {
  il_session : IngestBatchSession;
  il_verification : list IngestEventVerification;
  il_verified_row_cursor : nat
}.

Definition with_write_outcome (row : IngestEventVerification) (outcome : EventWriteOutcome)
    : IngestEventVerification :=
  {| iv_event_id := iv_event_id row; iv_status := iv_status row; iv_message := iv_message row;
     iv_write_outcome := Some outcome |}.

(** One round of the loop; an index past the rows panics. *)
Definition record_verified_event (trust : TrustSet) (loop : IngestLoop) (event : ShoreEvent)
    : io S IngestLoop :=
  let session := il_session loop in
  let verification := il_verification loop in
  if bool_decide (ev_event_type event = EventSignatureRecorded) then
    let! ingested := ingest_detached_cosignature event session trust verification in
    let '((created, existing), session, verification) := ingested in
    pure_io (Ok {| il_session := session_count session created existing (ev_event_type event);
                   il_verification := verification;
                   il_verified_row_cursor := il_verified_row_cursor loop |})
  else
  let row_index := il_verified_row_cursor loop in
  let! ack := batch_record_event_once_acknowledged event in
  let! recorded := pure_io (aggregate_record (is_derived session) ack) in
  let '(derived, outcome) := recorded in
  let! targets := observe_batch_write (is_carrier_targets session) event outcome in
  let session := session_context session derived targets (is_ingest_diagnostics session) in
  let! row := pure_io (ok_or (verification !! row_index) (Panicked "index out of bounds")) in
  let verification := <[row_index := with_write_outcome row outcome]> verification in
  let! session :=
    match outcome with
    | Acknowledgement.Created => pure_io (Ok (session_count session 1 0 (ev_event_type event)))
    | Existing => pure_io (Ok (session_count session 0 1 (ev_event_type event)))
    | ExistingDivergentSignature =>
        let session := session_count session 0 1 (ev_event_type event) in
        let! transcribed := transcribe_divergent_signature event session trust in
        let '((created, existing), session) := transcribed in
        pure_io (Ok (session_count session created existing EventSignatureRecorded))
    end in
  pure_io (Ok {| il_session := session; il_verification := verification;
                 il_verified_row_cursor := row_index + 1 |}).

(** A loop of fallible, stateful rounds. *)
Fixpoint io_fold {A B} (f : B → A → io S B) (b : B) (l : list A) : io S B :=
  match l with
  | [] => pure_io (Ok b)
  | a :: l => let! b := f b a in io_fold f b l
  end.

Definition record_verified_events (trust : TrustSet) (session : IngestBatchSession)
    (stamped : list ShoreEvent) (verification : list IngestEventVerification)
    : io S (IngestBatchSession * list IngestEventVerification) :=
  let! loop := io_fold (record_verified_event trust)
    {| il_session := session; il_verification := verification; il_verified_row_cursor := 0 |}
    stamped in
  pure_io (Ok (il_session loop, il_verification loop)).

(** [IngestBatchSession::begin]. *)
Definition begin_session : io S IngestBatchSession :=
  let! _ := begin_current_product_batch in
  pure_io (Ok session_default).

Record IngestBatchCompletion := {
  ic_acknowledgement : WriteAcknowledgementV1;
  ic_events_created : nat;
  ic_events_existing : nat;
  ic_events_created_by_type : gmap string nat;
  ic_diagnostics : list ProjectionDiagnostic
}.

Definition finish_session (session : IngestBatchSession) : IngestBatchCompletion :=
  let '(acknowledgement, diagnostics) := finish (is_derived session) (is_events_created session)
    (is_events_existing session) (is_ingest_diagnostics session) in
  {| ic_acknowledgement := acknowledgement; ic_events_created := is_events_created session;
     ic_events_existing := is_events_existing session;
     ic_events_created_by_type := is_events_created_by_type session;
     ic_diagnostics := diagnostics |}.

Definition prepare_events_for_ingest (events : list ShoreEvent)
    (verification_policy : EventVerificationPolicy) (trust_set : TrustSet) (received_at : string)
    : result (list ShoreEvent * list IngestEventVerification) :=
  let? _ := mapM (λ event,
    if negb (is_valid_actor_id (w_actor_id (ev_writer event))) then
      Err (InvalidEvent ("ingested event " +:+ ev_event_id event +:+
        " has a malformed writer actor id: " +:+ w_actor_id (ev_writer event)))
    else Ok ()) events in
  let? verification := verify_events_for_ingest events verification_policy trust_set in
  let stamped := stamp_ingest_provenance events IngestEvents received_at in
  Ok (stamped, verification).

Record IngestEventsResult := {
  ir_completion : IngestBatchCompletion;
  ir_verification : list IngestEventVerification
}.

(** [ingest_events_with_clock], after the write store is resolved. *)
Definition ingest_events_with_clock (events : list ShoreEvent)
    (verification_policy : EventVerificationPolicy) (trust_set : TrustSet) (received_at : string)
    : io S IngestEventsResult :=
  let! prepared := pure_io (prepare_events_for_ingest events verification_policy trust_set
    received_at) in
  let '(stamped, verification) := prepared in
  let! session := begin_session in
  let! recorded := record_verified_events trust_set session stamped verification in
  pure_io (Ok {| ir_completion := finish_session recorded.1; ir_verification := recorded.2 |}).

Definition import_event (event : ShoreEvent) (verification_policy : EventVerificationPolicy)
    (trust_set : TrustSet) (received_at : string) : io S IngestEventsResult :=
  ingest_events_with_clock [event] verification_policy trust_set received_at.
End ingest.
