(* ===== verification/IngestProofs.v ===== *)
(** * What ingest guarantees

    A batch only adds records; what it adds is an accepted event of the batch or a carrier
    whose attestation verifies over a stored target; and it reports what it wrote. *)

From S2P Require Import Prelude RustStr BTree Model Acknowledgement CanonicalHash Crypto Events Wire.
From S2P Require Import Journal EventCodec Capabilities CapabilityRouter CapabilityProofs EventStore.
From S2P Require Import EventStoreProofs Signing Identity Cosignature CosignatureProofs Ingest.

(** ** Stores that only grow *)

Section stores.
Context `{Digest} `{JsonReader} `{Primitives}.

(** A record of the store decodes to the event. *)
Definition stored (c : gmap string string) (e : ShoreEvent) : Prop :=
  ∃ k b, c !! k = Some b ∧ decode_validated_event b None = Ok e.

(** The type of the event a record holds. *)
Definition record_type (b : string) : option string :=
  match decode_validated_event b None with
  | Ok e => Some (EventType_as_str (ev_event_type e))
  | Err _ => None
  end.

(** A query counts every record, or those of the events of one type. *)
Definition counted_in (q : option string) (b : string) : Prop :=
  match q with None => True | Some t => record_type b = Some t end.

#[local] Instance counted_in_dec q b : Decision (counted_in q b).
Proof. destruct q; cbn; apply _. Defined.

Definition records (q : option string) (c : gmap string string) : nat :=
  size (filter (λ p : string * string, counted_in q p.2) c).

(** The store has so many records, in all and by type. *)
Definition counts (c : gmap string string) (n : option string → nat) : Prop :=
  ∀ q, records q c = n q.

(** [k] more records of events of a type. *)
Definition bump (n : option string → nat) (ty : EventType) (k : nat) : option string → nat :=
  λ q, n q + match q with
             | None => k
             | Some t => if String.eqb (EventType_as_str ty) t then k else 0
             end.

(** An event with the key and the payload hash is stored. *)
Definition kept (c : gmap string string) (e : ShoreEvent) : Prop :=
  ∃ b old, c !! ev_idempotency_key e = Some b ∧ event_at (ev_idempotency_key e) b = Some old ∧
    ev_payload_hash old = ev_payload_hash e.

Lemma kept_mono c c' e : c ⊆ c' → kept c e → kept c' e.
Proof. intros Hsub (b & old & Hb & Hold). exists b, old. eauto using lookup_weaken. Qed.

Lemma counts_zero c n ty : counts c n → counts c (bump n ty 0).
Proof. intros Hn q. rewrite (Hn q). unfold bump. destruct q; [destruct (String.eqb _ _)|]; lia. Qed.

Lemma records_all c : records None c = size c.
Proof. unfold records. f_equal. by apply map_filter_id. Qed.

Lemma records_insert c e b n : c !! ev_idempotency_key e = None → decode_validated_event b None = Ok e →
  counts c n → counts (<[ev_idempotency_key e := b]> c) (bump n (ev_event_type e) 1).
Proof.
  intros Hk Hb Hn q. unfold bump. rewrite <- (Hn q). unfold records.
  destruct (decide (counted_in q b)) as [Hq|Hq].
  - rewrite map_filter_insert_True by done.
    rewrite map_size_insert_None by (apply map_lookup_filter_None; by left).
    destruct q as [t|]; cbn in Hq; [|lia]. unfold record_type in Hq. rewrite Hb in Hq.
    injection Hq as ->. rewrite String.eqb_refl. lia.
  - rewrite map_filter_insert_False, delete_id by done.
    destruct q as [t|]; cbn in Hq; [|by destruct Hq]. unfold record_type in Hq. rewrite Hb in Hq.
    destruct (String.eqb_spec (EventType_as_str (ev_event_type e)) t); [congruence|lia].
Qed.

(** The event's payload is an attestation that verifies over a stored event. *)
Definition attested_carrier (c : gmap string string) (e : ShoreEvent) : Prop :=
  ∃ p target, from_json (ev_payload e) = Ok p ∧ stored c target ∧
    ev_event_id target = sp_target_event_id p ∧ attests target p.

(** Every carrier of the store is such a one. *)
Definition verified_store (c : gmap string string) : Prop :=
  ∀ e, stored c e → is_carrier e → attested_carrier c e.

(** The carrier of an event's own attestation, as it was received. *)
Definition transcribes (source e : ShoreEvent) : Prop :=
  ∃ sig p, ev_signature source = Some sig ∧
    resolve_effective_signer source = Ok (sp_attesting_signer p) ∧
    from_json (ev_payload e) = Ok p ∧ sp_attestation p = sig ∧
    ev_idempotency_key e = cosignature_idempotency_key (sp_target_event_record_hash p)
      (sp_attesting_signer p) (es_sig sig).

(** What a batch may add. *)
Definition admissible (batch : list ShoreEvent) (c : gmap string string) (e : ShoreEvent)
    : Prop :=
  (e ∈ batch ∧ ¬ is_carrier e) ∨
  (is_carrier e ∧ attested_carrier c e ∧
    (e ∈ batch ∨ ∃ source, source ∈ batch ∧ transcribes source e)).

(** The records are kept, and a new one holds an admissible event under its own key. *)
Definition grows (batch : list ShoreEvent) (c c' : gmap string string) : Prop :=
  c ⊆ c' ∧ ∀ k b, c' !! k = Some b → c !! k = None → ∃ e,
    to_vec e = Ok b ∧ ev_idempotency_key e = k ∧ event_wf e ∧ validate_event e None = Ok () ∧
    admissible batch c' e.

Lemma stored_mono c c' e : c ⊆ c' → stored c e → stored c' e.
Proof. intros Hsub (k & b & Hk & Hd). exists k, b. eauto using lookup_weaken. Qed.

Lemma attested_mono c c' e : c ⊆ c' → attested_carrier c e → attested_carrier c' e.
Proof. intros Hsub (p & t & Hp & Ht & Hrest). exists p, t. eauto using stored_mono. Qed.

Lemma admissible_mono batch c c' e : c ⊆ c' → admissible batch c e → admissible batch c' e.
Proof. unfold admissible. intros Hsub. pose proof (attested_mono c c' e Hsub). tauto. Qed.

Lemma grows_refl batch c : grows batch c c.
Proof. split; [done|]. intros k b Hk Hn. congruence. Qed.

Lemma grows_trans batch c c' c'' : grows batch c c' → grows batch c' c'' → grows batch c c''.
Proof.
  intros [G1 G1'] [G2 G2']. split; [by etrans|]. intros k b Hk Hn.
  destruct (c' !! k) as [b'|] eqn:Hk'.
  - assert (b' = b) as -> by (apply (lookup_weaken _ c'') in Hk'; [congruence|done]).
    destruct (G1' k b Hk' Hn) as (e & ? & ? & ? & ? & ?). exists e.
    eauto 8 using admissible_mono.
  - by apply G2'.
Qed.
End stores.

Lemma grows_verified `{JsonReaderLaws} `{Primitives} batch c c' :
  grows batch c c' → verified_store c → verified_store c'.
Proof.
  intros [Hsub Hnew] Hv e (k & b & Hk & Hd) Hc.
  destruct (c !! k) as [b'|] eqn:Hold.
  - assert (b' = b) as -> by (apply (lookup_weaken _ c') in Hold; [congruence|done]).
    apply (attested_mono c); [done|]. apply Hv; [|done]. by exists k, b.
  - destruct (Hnew k b Hk Hold) as (e' & Hb & _ & Hwf & Hval & Ha).
    rewrite (decode_own e' b Hwf Hval Hb) in Hd. injection Hd as ->.
    destruct Ha as [[_ Hn]|(_ & Ha & _)]; [by destruct Hn|done].
Qed.

(** ** Reasoning about operations *)

Section triples.
Context `{Digest} `{JsonReader} `{Primitives}.
Context {S : Type} `{JournalView S} (batch : list ShoreEvent).

(** From records with [P], the store grows whatever happens, and a result has [Q]. *)
Definition ensures {A} (P : gmap string string → Prop) (m : io S A)
    (Q : A → gmap string string → Prop) : Prop :=
  ∀ s, P (carriers s) → grows batch (carriers s) (carriers (m s).2) ∧
    ∀ a, (m s).1 = Ok a → Q a (carriers (m s).2).

Lemma ensures_pure {A} P (r : result A) Q :
  (∀ a c, r = Ok a → P c → Q a c) → ensures P (pure_io r) Q.
Proof. intros Hr s Hp. split; [apply grows_refl|]. cbn. eauto. Qed.

Lemma ensures_bind {A B} P (m : io S A) (f : A → io S B) R Q :
  ensures P m R → (∀ a, ensures (R a) (f a) Q) → ensures P (io_bind m f) Q.
Proof.
  intros Hm Hf s Hp. unfold io_bind. destruct (Hm s Hp) as [Hg Hr].
  destruct (m s) as [[a|e] s']; cbn [fst snd] in *; [|split; [done|by intros]].
  destruct (Hf a s' (Hr a eq_refl)) as [Hg' HQ]. split; [by eapply grows_trans|done].
Qed.

Lemma ensures_weaken {A} (P P' : gmap string string → Prop) (m : io S A) Q Q' :
  (∀ c, P c → P' c) → (∀ a c, Q' a c → Q a c) → ensures P' m Q' → ensures P m Q.
Proof. intros HP HQ Hm s Hp. destruct (Hm s (HP _ Hp)) as [Hg Hr]. eauto. Qed.

(** An operation that leaves the records alone. *)
Lemma ensures_read {A} P (m : io S A) Q :
  (∀ s, carriers (m s).2 = carriers s) →
  (∀ s a, P (carriers s) → (m s).1 = Ok a → Q a (carriers s)) → ensures P m Q.
Proof. intros Hc HQ s Hp. rewrite Hc. split; [apply grows_refl|]. eauto. Qed.

(** A pure step whose value is known. *)
Lemma ensures_let {A B} P (r : result A) (f : A → io S B) Q :
  (∀ a, r = Ok a → ensures P (f a) Q) → ensures P (io_bind (pure_io r) f) Q.
Proof.
  intros Hf. apply (ensures_bind _ _ _ (λ a c, r = Ok a ∧ P c)).
  - apply ensures_pure. naive_solver.
  - intros a s [Ha Hp]. exact (Hf a Ha s Hp).
Qed.

(** What more records keep, an operation keeps. *)
Lemma ensures_frame {A} P (m : io S A) Q (F : gmap string string → Prop) :
  (∀ c c', c ⊆ c' → F c → F c') → ensures P m Q →
  ensures (λ c, P c ∧ F c) m (λ a c, Q a c ∧ F c).
Proof.
  intros HF Hm s [Hp Hf]. destruct (Hm s Hp) as [Hg HQ]. split; [done|].
  intros a Ha. split; [by apply HQ|]. apply (HF (carriers s)); [apply Hg|done].
Qed.

(** A fact the precondition has. *)
Lemma ensures_assume {A} (φ : Prop) P (m : io S A) Q :
  (∀ c, P c → φ) → (φ → ensures P m Q) → ensures P m Q.
Proof. intros Hφ Hm s Hp. exact (Hm (Hφ _ Hp) s Hp). Qed.
End triples.

(** ** Writes *)

Section steps.
Context `{JsonReaderLaws} `{Primitives}.
Context {S : Type} `{Journal S} `{JournalView S} `{!JournalLaws S}.
Context (batch : list ShoreEvent).

Definition created (outcome : EventWriteOutcome) : nat := (outcome_counts outcome).1.

Lemma batch_state e (s : S) :
  (batch_record_event_once e s).2 = (batch_record_event_once_acknowledged e s).2 ∧
  ((∀ ack, (batch_record_event_once_acknowledged e s).1 = Ok ack →
    (batch_record_event_once e s).1 = Ok (ewa_outcome ack)) ∧
   (is_ok (batch_record_event_once_acknowledged e s).1 = false →
    is_ok (batch_record_event_once e s).1 = false)).
Proof.
  unfold batch_record_event_once, io_bind.
  destruct (batch_record_event_once_acknowledged e s) as [[ack|err] s']; cbn; naive_solver.
Qed.

(** A write either leaves the records or adds the valid event under its free key; the
    outcome says which. *)
Lemma batch_write e (s : S) : event_wf e →
  let r := batch_record_event_once_acknowledged e s in
  (carriers r.2 = carriers s ∨
   validate_event e None = Ok () ∧ carriers s !! ev_idempotency_key e = None ∧
   ∃ b, to_vec e = Ok b ∧ carriers r.2 = <[ev_idempotency_key e := b]> (carriers s)) ∧
  ∀ ack, r.1 = Ok ack → validate_event e None = Ok () ∧
    kept (carriers r.2) e ∧
    ∀ n, counts (carriers s) n →
      counts (carriers r.2) (bump n (ev_event_type e) (created (ewa_outcome ack))).
Proof.
  intros Hwf. cbv zeta. destruct (batch_state e s) as (Hst & Hok & _).
  destruct (batch_refines s e Hwf) as [Hacc Href Hfoot]. rewrite Hst in *.
  set (r := batch_record_event_once_acknowledged e s) in *.
  destruct (decide (validate_event e None = Ok ())) as [Hv|Hv].
  2:{ destruct Href as [Hbad Hc]; [right; by intros [? _]|]. split; [by left|].
      intros ack Hack. by rewrite (Hok ack Hack) in Hbad. }
  split; [destruct Hfoot as [->|Hfoot]; [by left|by right]|].
  intros ack Hack. split; [done|]. rewrite (Hok ack Hack) in *.
  assert (writable (carriers s) e) as Hw.
  { split; [done|]. intros Hsome.
    destruct (events_of (carriers s) !! ev_idempotency_key e) eqn:He; [by eexists|].
    destruct Href as [Hbad _]; [|done]. right. intros [_ Hw]. destruct (Hw Hsome). congruence. }
  specialize (Hacc eq_refl Hw). unfold store_write in Hacc.
  rewrite lookup_events_of in Hacc.
  destruct (carriers s !! ev_idempotency_key e) as [b0|] eqn:Hb0.
  - destruct Hfoot as [Hc|(Hn & _)]; [|done]. rewrite Hc.
    cbn in Hacc. destruct Hw as [_ Hw]. rewrite Hb0, lookup_events_of, Hb0 in Hw.
    destruct (Hw ltac:(by eexists)) as [old Hold]. cbn in Hold. rewrite Hold in Hacc.
    injection Hacc as Hout _. unfold existing_outcome in Hout. case_decide as Hh; [done|].
    split; [exists b0, old; split_and!; [exact Hb0|exact Hold|exact Hh]|].
    intros n Hn. case_decide; injection Hout as ->; by apply counts_zero.
  - cbn [mbind option_bind] in Hacc. pose proof (f_equal fst Hacc) as Hout.
    pose proof (f_equal snd Hacc) as Hev. cbn [fst snd] in Hout, Hev.
    injection Hout as Hout. rewrite Hout. cbn [created outcome_counts fst].
    destruct Hfoot as [Hc|(_ & b & Hb & Hc)].
    + exfalso. rewrite Hc in Hev. apply (f_equal (lookup (ev_idempotency_key e))) in Hev.
      rewrite lookup_insert_eq, lookup_events_of, Hb0 in Hev. done.
    + pose proof (decode_own e b Hwf Hv Hb) as Hown. rewrite Hc. split.
      * exists b, e. rewrite lookup_insert_eq. split_and!; [done| |done]. by apply event_at_Some.
      * intros n. by apply records_insert.
Qed.

Lemma ensures_write e n : event_wf e →
  ensures batch (λ c, admissible batch c e ∧ counts c n) (batch_record_event_once_acknowledged e)
    (λ ack c, validate_event e None = Ok () ∧
      counts c (bump n (ev_event_type e) (created (ewa_outcome ack))) ∧ kept c e).
Proof.
  intros Hwf s [Ha Hn]. destruct (batch_write e s Hwf) as [Hfoot Hok]. split.
  - destruct Hfoot as [->|(Hv & Hfree & b & Hb & Hc)]; [apply grows_refl|]. rewrite Hc.
    assert (carriers s ⊆ <[ev_idempotency_key e := b]> (carriers s)) as Hsub by by apply insert_subseteq.
    split; [done|]. intros k b' Hk Hnone.
    apply lookup_insert_Some in Hk as [[<- <-]|[_ Hk]]; [|congruence].
    exists e. eauto 8 using admissible_mono.
  - intros ack Hack. destruct (Hok ack Hack) as (Hv & Hkept & Hn'). split_and!; [done|by apply Hn'|done].
Qed.

(** *** The target index *)

(** Ids are paired with the keys they are derived from; the cached event is stored. *)
Record index_ok (c : gmap string string) (index : CarrierTargetIndex) : Prop := {
  index_keys id k : ci_idempotency_key_by_event_id index !! id = Some k →
    id = event_id_for_idempotency_key k;
  index_cached e : ci_resolved_event index = Some e → stored c e
}.

Lemma index_ok_mono c c' index : c ⊆ c' → index_ok c index → index_ok c' index.
Proof. intros Hsub [Hk Hc]. split; eauto using stored_mono. Qed.

Lemma valid_id e : validate_event e None = Ok () →
  ev_event_id e = event_id_for_idempotency_key (ev_idempotency_key e).
Proof. intros Hv. by apply validate_event_inv in Hv as [? _]. Qed.

Lemma list_events_reads (s : S) : carriers (list_events s).2 = carriers s ∧
  ∀ l, (list_events s).1 = Ok l → ∀ e, e ∈ l →
    ev_event_id e = event_id_for_idempotency_key (ev_idempotency_key e).
Proof.
  split.
  - unfold list_events, list_events_untracked, event_entries_for_current_product, record_exists,
      inspect_journal_records, list_record_entries, io_bind.
    destruct (reads_exists ROOT_ACTIVATION_LOGICAL_KEY_V1 s) as (s1 & -> & Hc).
    destruct (list_all s1) as (l & s2 & Hl & Hc2 & _).
    destruct (negb _); rewrite Hl; cbn.
    + destruct (mapM decode_validated_entry l); cbn; congruence.
    + destruct (route_journal_entries l) as [insp|]; cbn; [|congruence].
      destruct (in_status insp); cbn; try congruence.
      destruct (mapM decode_validated_entry _); cbn; congruence.
  - rewrite list_events_runs. intros l (entries & _ & Hl)%bind_Ok e He.
    apply mapM_Ok in Hl. apply list_elem_of_lookup in He as [i Hi].
    destruct (Forall2_lookup_r _ _ _ _ _ Hl Hi) as (x & _ & Hd%decode_entry_sound).
    apply valid_id, Hd.
Qed.

Lemma read_stored_reads key (s : S) : carriers (read_stored_event key s).2 = carriers s ∧
  ∀ e, (read_stored_event key s).1 = Ok e → stored (carriers s) e ∧
    ev_idempotency_key e = key ∧ ev_event_id e = event_id_for_idempotency_key key.
Proof.
  destruct (reads_stored key s) as (s' & -> & Hc). split; [done|]. cbn [fst].
  intros e (b & Hb & (e' & He' & Hk)%bind_Ok)%bind_Ok.
  destruct (carriers s !! key) as [b'|] eqn:Hk'; [|done]. injection Hb as ->.
  destruct (String.eqb_spec (ev_idempotency_key e') key) as [<-|]; [|done]. injection Hk as ->.
  split_and!; [by exists (ev_idempotency_key e), b|done|].
  apply decode_sound in He' as [_ Hv]. by apply valid_id.
Qed.

Lemma or_insert_keys m id k : id = event_id_for_idempotency_key k →
  (∀ id k, m !! id = Some k → id = event_id_for_idempotency_key k) →
  ∀ id' k', or_insert m id k !! id' = Some k' → id' = event_id_for_idempotency_key k'.
Proof.
  intros Hid Hm id' k'. unfold or_insert. destruct (m !! id); [apply Hm|].
  intros [[<- <-]|[_ Hk]]%lookup_insert_Some; [done|by apply Hm].
Qed.

Lemma ensures_resolve index id n :
  ensures batch (λ c, index_ok c index ∧ counts c n) (index_resolve index id)
    (λ r c, index_ok c r.1 ∧ counts c n ∧
      ∀ e, r.2 = Some e → stored c e ∧ ev_event_id e = id).
Proof.
  unfold index_resolve. apply (ensures_bind _ _ _ _ (λ index c, index_ok c index ∧ counts c n)).
  - destruct (ci_seeded index); [apply ensures_pure; naive_solver|].
    apply (ensures_bind _ _ _ _ (λ l c, (index_ok c index ∧ counts c n) ∧
      ∀ e, e ∈ l → ev_event_id e = event_id_for_idempotency_key (ev_idempotency_key e))).
    + apply ensures_read; [intros s; apply list_events_reads|].
      intros s l Hp Hl. split; [done|]. by apply (proj2 (list_events_reads s)).
    + intros l. apply ensures_pure. intros i c [= <-] [[[Hk Hc] Hn] Hl]. split; [|done].
      split; cbn; [|done]. revert Hk. generalize (ci_idempotency_key_by_event_id index).
      induction l as [|e l IH]; intros m Hm; cbn; [done|]. apply IH; [set_solver|].
      apply or_insert_keys; [apply Hl; by left|done].
  - intros index'. destruct (ci_idempotency_key_by_event_id index' !! id) as [key|] eqn:Hkey.
    2:{ apply ensures_pure. intros r c [= <-] [[Hk Hc] Hn]. by split_and!; [split| |]. }
    apply (ensures_bind _ _ _ _ (λ i c, (index_ok c i ∧ counts c n) ∧
      ∀ e, ci_resolved_event i = Some e → ev_event_id e = id)).
    2:{ intros i. apply ensures_pure. intros r c [= <-] [[Hi Hn] He]. split_and!; [done..|].
        intros e Hres. split; [by apply (index_cached c i Hi)|by apply He]. }
    assert (∀ c, index_ok c index' → id = event_id_for_idempotency_key key) as Hid.
    { intros c Hi. by apply (index_keys c index' Hi). }
    destruct (match ci_resolved_event index' with None => true | Some _ => _ end) eqn:Hstale.
    + apply (ensures_bind _ _ _ _ (λ e c, (index_ok c index' ∧ counts c n) ∧ stored c e ∧
        ev_event_id e = event_id_for_idempotency_key key)).
      * apply ensures_read; [intros s; apply read_stored_reads|].
        intros s e Hp He. apply (proj2 (read_stored_reads key s)) in He as (? & _ & ?). done.
      * intros e. apply ensures_pure. intros i c [= <-] [[Hi Hn] [Hst He]]. split.
        { split; [|done]. split; cbn; [apply (index_keys c index' Hi)|]. by intros e' [= <-]. }
        cbn. intros e' [= <-]. rewrite He. symmetry. by apply (Hid c).
    + apply ensures_pure. intros i c [= <-] Hp. split; [done|]. intros e He. rewrite He in Hstale.
      by apply negb_false_iff, String.eqb_eq in Hstale.
Qed.

Lemma ensures_observe_recorded index e n : validate_event e None = Ok () →
  ensures batch (λ c, index_ok c index ∧ counts c n) (observe_recorded_event index e)
    (λ i c, index_ok c i ∧ counts c n).
Proof.
  intros Hv. unfold observe_recorded_event.
  destruct (index_settled index e); [apply ensures_pure; naive_solver|].
  apply (ensures_bind _ _ _ _ (λ st c, (index_ok c index ∧ counts c n) ∧
    ev_event_id st = event_id_for_idempotency_key (ev_idempotency_key st))).
  - apply ensures_read; [intros s; apply read_stored_reads|].
    intros s st Hp Hst. apply (proj2 (read_stored_reads _ s)) in Hst as (_ & Hk & Hid).
    by rewrite Hk.
  - intros st. apply ensures_pure. intros i c [= <-] [[[Hk Hc] Hn] Hst]. split; [|done].
    split; cbn; [|done]. apply or_insert_keys; [done|].
    intros id k [[<- <-]|[_ Hkk]]%lookup_insert_Some; [by apply valid_id|by apply Hk].
Qed.

Lemma ensures_observe index e outcome n : validate_event e None = Ok () →
  ensures batch (λ c, index_ok c index ∧ counts c n) (observe_batch_write index e outcome)
    (λ i c, index_ok c i ∧ counts c n).
Proof.
  intros Hv. unfold observe_batch_write.
  destruct (index_settled index e); [apply ensures_pure; naive_solver|].
  destruct outcome; [|by apply ensures_observe_recorded..].
  apply ensures_pure. intros i c [= <-] [[Hk Hc] Hn]. split; [|done]. split; cbn; [|done].
  intros id k [[<- <-]|[_ Hkk]]%lookup_insert_Some; [by apply valid_id|by apply Hk].
Qed.

(** *** The session *)

(** The sum of the counts by type. *)
Definition total (m : gmap string nat) : nat := map_fold (λ _ v acc, v + acc) 0 m.

Lemma total_insert m k v : m !! k = None → total (<[k := v]> m) = v + total m.
Proof.
  intros Hk. unfold total. apply map_fold_insert_L; [|done]. intros. lia.
Qed.

Lemma total_bump m k : total (<[k := default 0 (m !! k) + 1]> m) = total m + 1.
Proof.
  destruct (m !! k) as [v|] eqn:Hk; cbn [default from_option].
  - rewrite <- (insert_id m k v Hk) at 2. rewrite <- (insert_delete_eq m k (id v + 1)).
    rewrite <- (insert_delete_eq m k v). rewrite !total_insert by apply lookup_delete_eq.
    unfold id. lia.
  - rewrite total_insert by done. lia.
Qed.

(** The records there are when [n] were there at the start and the session's created. *)
Definition session_counts (n : option string → nat) (session : IngestBatchSession)
    : option string → nat :=
  λ q, n q + match q with
             | None => is_events_created session
             | Some t => default 0 (is_events_created_by_type session !! t)
             end.

Lemma counts_default c n : counts c n → counts c (session_counts n session_default).
Proof.
  intros Hn q. rewrite (Hn q). unfold session_counts. destruct q; cbn; rewrite ?lookup_empty; cbn; lia.
Qed.

(** The session's counters agree with the records, [n] of them at the start. *)
Record session_ok (n : option string → nat) (session : IngestBatchSession) (c : gmap string string) : Prop := {
  so_index : index_ok c (is_carrier_targets session);
  so_counts : counts c (session_counts n session);
  so_types : total (is_events_created_by_type session) = is_events_created session
}.

(** The same after a step that counted [cr] created records of a type apart. *)
Definition pending (n : option string → nat) (session : IngestBatchSession) (ty : EventType)
    (cr : nat) (c : gmap string string) : Prop :=
  index_ok c (is_carrier_targets session) ∧
  counts c (bump (session_counts n session) ty cr) ∧ cr ≤ 1 ∧
  total (is_events_created_by_type session) = is_events_created session.

Lemma pending_count n session cr ex ty c :
  pending n session ty cr c → session_ok n (session_count session cr ex ty) c.
Proof.
  intros (Hi & Hs & Hle & Ht). split; [done| |cbn].
  { intros q. rewrite (Hs q). unfold bump, session_counts, session_count.
    cbn [is_events_created is_events_created_by_type].
    destruct q as [t|]; [|lia]. destruct cr as [|[|]]; cbn [Nat.ltb Nat.leb]; [|..|lia].
    - destruct (String.eqb _ _); lia.
    - destruct (String.eqb_spec (EventType_as_str ty) t) as [<-|Hne].
      + rewrite lookup_insert_eq. cbn [default from_option id]. lia.
      + rewrite lookup_insert_ne by done. lia. }
  destruct cr as [|[|]]; cbn; [rewrite Ht; lia|rewrite total_bump, Ht; lia|lia].
Qed.

Lemma created_le outcome : created outcome ≤ 1.
Proof. destruct outcome; cbn; lia. Qed.

Lemma aggregate_outcome d ack d' outcome :
  aggregate_record d ack = Ok (d', outcome) → outcome = ewa_outcome ack.
Proof.
  unfold aggregate_record, Acknowledgement.record.
  destruct (add d (ewa_derived ack) (ewa_diagnostics ack)); cbn; [|done]. by intros [= _ <-].
Qed.

(** A write, the aggregate's record of it and the index's observation. *)
Lemma ensures_recorded {B} (F : gmap string string → Prop) e session n
    (f : DerivedWriteAggregate → EventWriteOutcome → CarrierTargetIndex → io S B) targets Q :
  (∀ c c', c ⊆ c' → F c → F c') → event_wf e →
  (∀ derived outcome targets, ensures batch
    (λ c, (index_ok c targets ∧ counts c (bump n (ev_event_type e) (created outcome))) ∧
      (kept c e ∧ F c)) (f derived outcome targets) Q) →
  ensures batch (λ c, (admissible batch c e ∧ counts c n) ∧ (index_ok c targets ∧ F c))
    (let! ack := batch_record_event_once_acknowledged e in
     let! recorded := pure_io (aggregate_record (is_derived session) ack) in
     let '(derived, outcome) := recorded in
     let! targets := observe_batch_write targets e outcome in
     f derived outcome targets) Q.
Proof.
  intros HF Hwf Hf. eapply ensures_bind.
  { apply ensures_frame; [|by apply ensures_write].
    intros c c' Hsub [? ?]. eauto using index_ok_mono. }
  intros ack. apply ensures_let. intros [derived outcome] ->%aggregate_outcome.
  apply (ensures_assume _ (validate_event e None = Ok ())); [naive_solver|]. intros Hv.
  eapply ensures_bind; [|intros targets'; apply Hf].
  eapply (ensures_weaken _ _ (λ c, (index_ok c targets ∧ counts c (bump n (ev_event_type e) (created (ewa_outcome ack)))) ∧
    (kept c e ∧ F c))); [naive_solver|intros i c Hx; exact Hx|].
  apply ensures_frame; [|by apply ensures_observe].
  intros c c' Hsub [? ?]. eauto using kept_mono.
Qed.

Definition written (rows : list IngestEventVerification) : Prop :=
  Forall (λ row, is_Some (iv_write_outcome row)) rows.

Lemma ensures_carrier e session trust verification n :
  event_wf e → is_carrier e → e ∈ batch →
  ensures batch (session_ok n session)
    (ingest_detached_cosignature e session trust verification)
    (λ r c, pending n r.1.2 EventSignatureRecorded r.1.1.1 c ∧ ∃ l, r.2 = verification ++ l ∧ written l).
Proof.
  intros Hwf Hc Hin. unfold ingest_detached_cosignature. apply ensures_let. intros p Hp.
  apply (ensures_bind _ _ _ _ (λ r c, (index_ok c r.1 ∧ counts c (session_counts n session) ∧
    ∀ t, r.2 = Some t → stored c t ∧ ev_event_id t = sp_target_event_id p) ∧
    total (is_events_created_by_type session) = is_events_created session)).
  { eapply (ensures_weaken _ _ (λ c, (index_ok c (is_carrier_targets session) ∧
      counts c (session_counts n session)) ∧
      total (is_events_created_by_type session) = is_events_created session)).
    - by intros c [Hi Hs Ht].
    - intros r c Hr. exact Hr.
    - apply (ensures_frame _ _ _ _ (λ _, _)); [by intros|]. apply ensures_resolve. }
  intros [targets target]. cbn [fst snd]. apply ensures_let. intros decision Hd.
  assert (∀ r : (nat * nat) * IngestBatchSession * list IngestEventVerification,
    (∃ ds, r = ((0, 0), session_context session (is_derived session) targets ds, verification)) →
    ensures batch (λ c, (index_ok c targets ∧ counts c (session_counts n session) ∧
      ∀ t, target = Some t → stored c t ∧ ev_event_id t = sp_target_event_id p) ∧
      total (is_events_created_by_type session) = is_events_created session)
    (pure_io (S := S) (Ok r)) (λ r c, pending n r.1.2 EventSignatureRecorded r.1.1.1 c ∧
      ∃ l, r.2 = verification ++ l ∧ written l)) as Hdrop.
  { intros r (ds & ->). apply ensures_pure. intros r c [= <-] [(Hi & Hs & _) Ht]. cbn. split.
    - split_and!; [done|by apply counts_zero|cbn; lia|done].
    - exists []. rewrite app_nil_r. split; [done|constructor]. }
  destruct decision as [status| | |]; try (apply Hdrop; by eexists).
  destruct target as [target|]; [|done]. rewrite gate_spec in Hd.
  case_decide as Hh; [done|]. case_decide as Ha; [|done].
  eapply (ensures_weaken _ _ (λ c, (admissible batch c e ∧
    counts c (session_counts n session)) ∧ (index_ok c targets ∧
    total (is_events_created_by_type session) = is_events_created session))); [|intros r c Hx; exact Hx|].
  { intros c [(Hi & Hs & Ht) Htot]. destruct (Ht target eq_refl) as [Hst Hid].
    split; [|done]. split; [|done]. right. split_and!; [done| |by left]. by exists p, target. }
  apply (ensures_recorded (λ _, _)); [by intros|done|]. intros derived outcome targets'.
  apply ensures_pure. intros r c [= <-] [[Hi Hs] [_ Htot]]. cbn [fst snd]. split.
  - unfold is_carrier in Hc. rewrite Hc in Hs. split_and!; [done|done|apply created_le|done].
  - eexists. split; [done|]. constructor; [by eexists|constructor].
Qed.

(** *** Transcription *)

Lemma validate_any_stem e stem : validate_event e stem = Ok () → validate_event e None = Ok ().
Proof.
  unfold validate_event. destruct (validate_schema_version e); [|done]. cbn [rbind].
  destruct (bool_decide _ && _); [done|]. destruct (negb _); [done|].
  destruct (sha256_json_prefixed (ev_payload e)); [|done]. cbn [rbind]. by destruct (negb _).
Qed.

Lemma decode_any_stem b stem e :
  decode_validated_event b stem = Ok e → decode_validated_event b None = Ok e.
Proof.
  unfold decode_validated_event. destruct (envelope_probe b) as [probe|]; [|done]. cbn [rbind].
  destruct (schema_break_for (ep_event_type probe)); [done|].
  destruct (event_type_from_code (ep_event_type probe)); [|done].
  destruct (ep_subject probe); [done|]. destruct (ep_role probe); [done|].
  destruct (ep_tool probe); [done|].
  intros (e' & -> & ([] & Hv & [= <-])%bind_Ok)%bind_Ok. cbn [rbind].
  by rewrite (validate_any_stem e' stem Hv).
Qed.

Lemma payload_roundtrip (p : EventSignatureRecordedPayload) :
  (es_sig_version (sp_attestation p) < 2 ^ 32)%N → sp_inclusion_proof p = None →
  from_json (to_json p) = Ok p ∧ json_wf (to_json p).
Proof.
  destruct p as [t h sg [alg v sig] inc]. cbn [sp_attestation es_sig_version sp_inclusion_proof].
  intros Hv ->. split.
  - transitivity (let? a := from_json (to_json {| es_alg := alg; es_sig_version := v;
      es_sig := sig |}) in Ok {| sp_target_event_id := t; sp_target_event_record_hash := h;
      sp_attesting_signer := sg; sp_attestation := a; sp_inclusion_proof := None |});
      [reflexivity|]. by rewrite signature_roundtrip.
  - unfold to_json, EventSignatureRecorded_Serialize. cbn [app opt_field].
    unfold to_json at 4, EventSignature_Serialize. cbn. json_wf_literal.
Qed.

Lemma ShoreEvent_new_inv ty key target writer pty payload at_ e :
  ShoreEvent_new ty key target writer pty payload at_ = Ok e →
  ev_event_type e = ty ∧ ev_idempotency_key e = key ∧ ev_payload e = payload ∧
  (json_wf payload → event_wf e).
Proof.
  unfold ShoreEvent_new. destruct (negb (bool_decide _)); [done|].
  destruct (String.eqb_spec (trim key) EmptyString); [done|].
  intros (h & _ & [= <-])%bind_Ok. split_and!; [done..|]. intros Hwf. by split.
Qed.

(** The carrier built over a stored target from an attestation of the batch. *)
Lemma ensures_assembled e target signer sig writer trust at_ index n :
  e ∈ batch → ev_signature e = Some sig → resolve_effective_signer e = Ok signer →
  (es_sig_version sig < 2 ^ 32)%N →
  ensures batch (λ c, (stored c target ∧ counts c n) ∧ index_ok c index)
    (assemble_and_record_cosignature_with_writer target signer sig writer trust at_
      batch_record_event_once_acknowledged)
    (λ r c, index_ok c index ∧ cr_write_outcome r = ewa_outcome <$> cr_acknowledgement r ∧
      match cr_acknowledgement r with
      | Some ack => validate_event (cr_carrier r) None = Ok () ∧
          counts c (bump n EventSignatureRecorded (created (ewa_outcome ack))) ∧ stores (cr_decision r) = true
      | None => counts c n ∧ stores (cr_decision r) = false
      end).
Proof.
  intros He Hsig Hsg Hv. unfold assemble_and_record_cosignature_with_writer.
  apply ensures_let. intros hash Hhash. set (p := {| sp_target_event_id := ev_event_id target;
    sp_target_event_record_hash := hash; sp_attesting_signer := signer; sp_attestation := sig;
    sp_inclusion_proof := None |}).
  apply ensures_let. intros carrier (Hty & Hkey & Hpay & Hwf)%ShoreEvent_new_inv.
  destruct (payload_roundtrip p Hv eq_refl) as [Hrt Hpw]. apply ensures_let. intros decision Hd.
  rewrite gate_spec in Hd. case_decide as Hh; [by destruct Hh|].
  case_decide as Ha; injection Hd as <-; cbn [stores].
  2:{ eapply (ensures_bind _ _ _ _ (λ a c, (counts c n ∧ index_ok c index) ∧ a = None));
        [apply ensures_pure; naive_solver|].
      intros a. apply ensures_pure. intros r c [= <-] [[Hn Hi] ->]. done. }
  eapply (ensures_bind _ _ _ _ (λ a c, ∃ ack, a = Some ack ∧
    ((validate_event carrier None = Ok () ∧
      counts c (bump n (ev_event_type carrier) (created (ewa_outcome ack))) ∧
      kept c carrier) ∧ index_ok c index))).
  - eapply ensures_bind.
    + eapply (ensures_weaken _ _ (λ c, (admissible batch c carrier ∧ counts c n) ∧
        index_ok c index)); [| |apply ensures_frame; [intros c c'; apply index_ok_mono|];
        by apply ensures_write, Hwf]; [|intros a c Hx; exact Hx].
      intros c [[Hst Hn] Hi]. split; [|done]. split; [|done]. right. split; [done|].
      rewrite <- Hpay in Hrt. split; [by exists p, target|]. right. exists e. split; [done|].
      by exists sig, p.
    + intros ack. apply ensures_pure. intros a c [= <-] Hq. eauto.
  - intros a. apply ensures_pure. intros r c [= <-] (ack & -> & [(Hq & Hq' & _) Hi]).
    by rewrite Hty in Hq'.
Qed.
End steps.

(** ** The batch *)

Section batches.
Context `{JsonReaderLaws} `{Primitives}.
Context {S : Type} `{Journal S} `{JournalView S} `{!JournalLaws S}.
Context `{Authority S} `{!AuthorityLaws S} `{EventFiles S} `{Environment S} `{!IngestLaws S}.

Section one_batch.
Context (batch : list ShoreEvent).

Lemma ensures_read_event key n session :
  ensures batch (session_ok n session) (read_event key)
    (λ target c, (stored c target ∧ counts c (session_counts n session)) ∧
      index_ok c (is_carrier_targets session) ∧
      total (is_events_created_by_type session) = is_events_created session).
Proof.
  unfold read_event. apply (ensures_bind _ _ _ _ (λ b c, session_ok n session c ∧
    ∃ k, c !! k = Some b)).
  - apply ensures_read; [intros s; apply file_law|].
    intros s b Hs Hb. split; [done|]. apply file_law in Hb as (k & Hk & _). eauto.
  - intros b. apply ensures_pure. intros target c Hd [[Hi Hsz Ht] [k Hk]].
    split_and!; [|done..]. exists k, b. eauto using decode_any_stem.
Qed.

Lemma ensures_env {A} (f : S → A * S) P : (∀ s, carriers (f s).2 = carriers s) →
  ensures batch P (lift_env f) (λ _, P).
Proof. intros Hf. apply ensures_read; [done|]. by intros. Qed.

Lemma ensures_transcribe e session trust n : event_wf e → e ∈ batch →
  ensures batch (session_ok n session) (transcribe_divergent_signature e session trust)
    (λ r c, pending n r.2 EventSignatureRecorded r.1.1 c).
Proof.
  intros Hwf He. unfold transcribe_divergent_signature.
  eapply ensures_bind; [apply ensures_read_event|]. intros target. cbv beta.
  set (P := λ c : gmap string string, (stored c target ∧ counts c (session_counts n session)) ∧
    index_ok c (is_carrier_targets session) ∧
    total (is_events_created_by_type session) = is_events_created session).
  assert (ensures batch P (pure_io (S := S) (Ok ((0, 0), session))) (λ r c, pending n r.2 EventSignatureRecorded r.1.1 c))
    as Hnone.
  { apply ensures_pure. intros r c [= <-] ([_ Hs] & Hi & Ht). split_and!; [done|by apply counts_zero|cbn; lia|done]. }
  destruct (ev_signature e) as [sig|] eqn:Hsig; [|exact Hnone].
  destruct (resolve_effective_signer e) as [signer|] eqn:Hsg; [|exact Hnone].
  eapply ensures_bind; [apply ensures_env; intros s; apply writer_law|]. intros writer.
  eapply ensures_bind; [apply ensures_env; intros s; apply clock_law|]. intros at_.
  eapply (ensures_bind _ _ _ _ (λ r c, (index_ok c (is_carrier_targets session) ∧
    cr_write_outcome r = ewa_outcome <$> cr_acknowledgement r ∧
    match cr_acknowledgement r with
    | Some ack => validate_event (cr_carrier r) None = Ok () ∧
        counts c (bump (session_counts n session) EventSignatureRecorded (created (ewa_outcome ack))) ∧
        stores (cr_decision r) = true
    | None => counts c (session_counts n session) ∧ stores (cr_decision r) = false
    end) ∧ total (is_events_created_by_type session) = is_events_created session)).
  { eapply (ensures_weaken _ _ (λ c, ((stored c target ∧ counts c (session_counts n session)) ∧
      index_ok c (is_carrier_targets session)) ∧
      total (is_events_created_by_type session) = is_events_created session)).
    - intros c ([? ?] & ? & ?). done.
    - intros r c Hr. exact Hr.
    - apply (ensures_frame _ _ _ _ (λ _, _)); [by intros|].
      apply (ensures_assembled batch e); [done..|]. by apply (wf_signature e Hwf). }
  intros [carrier decision outcome ack]. cbn [cr_carrier cr_decision cr_write_outcome cr_acknowledgement].
  destruct ack as [ack|].
  2:{ destruct decision as [st| | |]; cbn [stores].
      { intros s ((_ & _ & _ & Hx) & _). done. }
      all: apply ensures_pure; intros r c [= <-] ((Hi & _ & Hs & _) & Ht);
        split_and!; [done|by apply counts_zero|cbn; lia|done]. }
  destruct decision as [st| | |]; cbn [stores]; [|by intros s ((_ & _ & _ & _ & Hx) & _)..].
  apply (ensures_assume _ (outcome = Some (ewa_outcome ack) ∧ validate_event carrier None = Ok ()));
    [by intros c ((_ & -> & ? & _) & _)|]. intros [-> Hv]. cbn [ok_or].
  apply ensures_let. intros out [= <-]. apply ensures_let. intros ack' [= <-].
  apply ensures_let. intros [derived out'] _.
  apply (ensures_bind _ _ _ _ (λ i c, (index_ok c i ∧
    counts c (bump (session_counts n session) EventSignatureRecorded (created (ewa_outcome ack)))) ∧
    total (is_events_created_by_type session) = is_events_created session)).
  - eapply (ensures_weaken _ _ (λ c, (index_ok c (is_carrier_targets session) ∧
      counts c (bump (session_counts n session) EventSignatureRecorded (created (ewa_outcome ack)))) ∧
      total (is_events_created_by_type session) = is_events_created session)).
    + by intros c ((? & _ & _ & ? & _) & ?).
    + intros i c Hx. exact Hx.
    + apply (ensures_frame _ _ _ _ (λ _, _)); [by intros|]. by apply ensures_observe_recorded.
  - intros i. apply ensures_pure. intros r c [= <-] [[Hi Hs] Ht].
    split_and!; cbn [fst snd]; [done|done|apply created_le|done].
Qed.

(** *** The loop *)

#[local] Instance is_carrier_dec e : Decision (is_carrier e).
Proof. unfold is_carrier. apply _. Defined.

(** The rows after the events [processed] of the batch, of whose rows there are [rows]: those
    passed, and those of carriers, have their outcome. *)
Record rows_ok (rows : nat) (processed : list ShoreEvent) (cursor : nat)
    (verification : list IngestEventVerification) : Prop := {
  ro_cursor : cursor = length (List.filter (λ e, negb (bool_decide (is_carrier e))) processed);
  ro_rows : rows ≤ length verification;
  ro_written i row : verification !! i = Some row → i < cursor ∨ rows ≤ i →
    is_Some (iv_write_outcome row)
}.

Definition kept_all (processed : list ShoreEvent) (c : gmap string string) : Prop :=
  ∀ e, e ∈ processed → ¬ is_carrier e → kept c e.

Definition loop_ok (n : option string → nat) (rows : nat) (processed : list ShoreEvent)
    (loop : IngestLoop) (c : gmap string string) : Prop :=
  rows_ok rows processed (il_verified_row_cursor loop) (il_verification loop) ∧
  session_ok n (il_session loop) c ∧ kept_all processed c.

Lemma rows_ok_carrier rows processed cursor verification new e :
  rows_ok rows processed cursor verification → is_carrier e →
  Forall (λ row, is_Some (iv_write_outcome row)) new →
  rows_ok rows (processed ++ [e]) cursor (verification ++ new).
Proof.
  intros [Hcur Hrows Hwr] Hc Hnew. split.
  - rewrite List.filter_app, length_app, Hcur. cbn. by rewrite bool_decide_eq_true_2 by done.
  - rewrite length_app. lia.
  - intros i row Hi Hlt. apply lookup_app_Some in Hi as [Hi|[Hge Hi]]; [by apply (Hwr i)|].
    apply list_elem_of_lookup_2 in Hi. by eapply Forall_forall in Hnew.
Qed.

Lemma rows_ok_event rows processed cursor verification row outcome e :
  rows_ok rows processed cursor verification → ¬ is_carrier e →
  verification !! cursor = Some row →
  rows_ok rows (processed ++ [e]) (cursor + 1)
    (<[cursor := with_write_outcome row outcome]> verification).
Proof.
  intros [Hcur Hrows Hwr] Hc Hrow. apply lookup_lt_Some in Hrow as Hlt. split.
  - rewrite List.filter_app, length_app, Hcur. cbn. by rewrite bool_decide_eq_false_2 by done.
  - by rewrite length_insert.
  - intros i row' Hi Hor. destruct (decide (i = cursor)) as [->|Hne].
    { rewrite list_lookup_insert_eq in Hi by done. injection Hi as <-. by eexists. }
    rewrite list_lookup_insert_ne in Hi by done. apply (Hwr i row' Hi). lia.
Qed.

Lemma kept_all_mono processed c c' : c ⊆ c' → kept_all processed c → kept_all processed c'.
Proof. intros Hsub Hk e Hin Hn. eapply kept_mono; [done|]. by apply Hk. Qed.

Lemma kept_all_snoc processed e c :
  kept_all processed c → (¬ is_carrier e → kept c e) → kept_all (processed ++ [e]) c.
Proof. intros Hk He e' [Hin| ->%list_elem_of_singleton]%elem_of_app Hn; auto. Qed.

(** Counting what the write of an event did, with the transcription of a signature that the
    stored event does not have. *)
Lemma ensures_counted trust session e n outcome P : event_wf e → e ∈ batch →
  (∀ c c', c ⊆ c' → P c → P c') →
  ensures batch (λ c, pending n session (ev_event_type e) (created outcome) c ∧ P c)
    match outcome with
    | Acknowledgement.Created => pure_io (Ok (session_count session 1 0 (ev_event_type e)))
    | Existing => pure_io (Ok (session_count session 0 1 (ev_event_type e)))
    | ExistingDivergentSignature =>
        let session := session_count session 0 1 (ev_event_type e) in
        let! transcribed := transcribe_divergent_signature e session trust in
        let '((created, existing), session) := transcribed in
        pure_io (Ok (session_count session created existing EventSignatureRecorded))
    end (λ session c, session_ok n session c ∧ P c).
Proof.
  intros Hwf He HP. destruct outcome; cbv zeta.
  1,2: apply ensures_pure; intros s' c [= <-] [Hp Hst]; split; [by apply pending_count|done].
  eapply ensures_bind.
  { eapply (ensures_weaken _ _ (λ c, session_ok n (session_count session 0 1
      (ev_event_type e)) c ∧ P c)); [|intros r c Hx; exact Hx|].
    - intros c [Hp Hst]. split; [|done]. by apply pending_count.
    - apply ensures_frame; [exact HP|]. by apply ensures_transcribe. }
  intros [[cr ex] session']. cbn [fst snd]. apply ensures_pure.
  intros s' c [= <-] [Hp Hst]. split; [|done]. by apply pending_count.
Qed.

Lemma ensures_step trust loop e n rows processed : event_wf e → e ∈ batch →
  ensures batch (loop_ok n rows processed loop) (record_verified_event trust loop e)
    (loop_ok n rows (processed ++ [e])).
Proof.
  intros Hwf He. unfold record_verified_event.
  apply (ensures_assume _ (rows_ok rows processed (il_verified_row_cursor loop) (il_verification loop)));
    [by intros c [? _]|]. intros Hrows.
  destruct (bool_decide (ev_event_type e = EventSignatureRecorded)) eqn:Hc.
  - apply bool_decide_eq_true in Hc. eapply ensures_bind.
    { eapply (ensures_weaken _ _ (λ c, session_ok n (il_session loop) c ∧ kept_all processed c)).
      - by intros c [_ ?].
      - intros r c Hx. exact Hx.
      - apply ensures_frame; [apply kept_all_mono|]. by apply (ensures_carrier batch e). }
    intros [[[cr ex] session] verification]. cbn [fst snd]. apply ensures_pure.
    intros l c [= <-] [[Hp (new & -> & Hnew)] Hst]. split_and!; cbn.
    + by apply rows_ok_carrier.
    + apply pending_count. by rewrite Hc.
    + by apply kept_all_snoc.
  - apply bool_decide_eq_false in Hc.
    eapply (ensures_weaken _ _ (λ c, (admissible batch c e ∧
      counts c (session_counts n (il_session loop))) ∧
      (index_ok c (is_carrier_targets (il_session loop)) ∧
       (total (is_events_created_by_type (il_session loop)) = is_events_created (il_session loop) ∧
        kept_all processed c)))); [|intros r c Hx; exact Hx|].
    { intros c (_ & [Hi Hs Ht] & Hst). split_and!; try done. by left. }
    apply (ensures_recorded batch (λ c, _ ∧ kept_all processed c));
      [intros c c' ? [? ?]; eauto using kept_all_mono|done|].
    intros derived outcome targets. apply ensures_let. intros row Hrow.
    apply (ensures_bind _ _ _ _ (λ session c, session_ok n session c ∧
      (kept c e ∧ kept_all processed c))).
    + eapply ensures_weaken; [|intros r c Hx; exact Hx|apply ensures_counted; [done..|]].
      * intros c ((Hi & Hs) & Hsome & Ht & Hst). split; [|done].
        split_and!; [done|done|apply created_le|done].
      * intros c c' Hsub [? ?]. eauto using kept_mono, kept_all_mono.
    + intros session. apply ensures_pure. intros l c [= <-] (Hs & Hsome & Hst). split_and!; cbn.
      * apply rows_ok_event; [done..|]. by destruct (il_verification loop !! _); simplify_eq/=.
      * done.
      * by apply kept_all_snoc.
Qed.

Lemma ensures_fold trust n rows l : ∀ processed loop, Forall event_wf l → l ⊆ batch →
  ensures batch (loop_ok n rows processed loop) (io_fold (record_verified_event trust) loop l)
    (loop_ok n rows (processed ++ l)).
Proof.
  induction l as [|e l IH]; intros processed loop Hwf Hin; cbn [io_fold].
  { rewrite app_nil_r. apply ensures_pure. by intros a c [= <-]. }
  apply Forall_cons in Hwf as [Hwe Hwl].
  eapply ensures_bind; [apply (ensures_step trust loop e); [done|set_solver]|].
  intros loop'. cbv beta. replace (processed ++ e :: l) with ((processed ++ [e]) ++ l)
    by (by rewrite <- app_assoc). apply IH; [done|set_solver].
Qed.
End one_batch.

(** *** Admission *)

Definition non_carriers (events : list ShoreEvent) : list ShoreEvent :=
  List.filter (λ e, negb (bool_decide (is_carrier e))) events.

(** An event the policy takes: attributed, and not rejected (a carrier is gated later). *)
Definition acceptable (policy : EventVerificationPolicy) (trust : TrustSet) (e : ShoreEvent)
    : Prop :=
  is_valid_actor_id (w_actor_id (ev_writer e)) = true ∧
  (¬ is_carrier e → ∃ st, verify_event_signature e trust = Ok st ∧ rejects policy st = false).

Lemma verify_events_fold policy trust events acc :
  let r := try_fold (λ verification event,
    if bool_decide (ev_event_type event = EventSignatureRecorded) then Ok verification
    else
    let? status := verify_event_signature event trust in
    let report := {| iv_event_id := ev_event_id event; iv_status := status;
      iv_message := verification_message status; iv_write_outcome := None |} in
    if rejects policy status then Err (EventVerificationRejected (ev_event_id event) status)
    else Ok (verification ++ [report])) acc events in
  (is_ok r = true ↔ ∀ e, e ∈ events → ¬ is_carrier e →
    ∃ st, verify_event_signature e trust = Ok st ∧ rejects policy st = false) ∧
  ∀ rows, r = Ok rows → length rows = length acc + length (non_carriers events).
Proof.
  revert acc. induction events as [|e events IH]; intros acc; cbn [try_fold].
  { split; [|intros rows [= <-]; cbn; lia]. split; [|done]. by intros _ e ?%elem_of_nil. }
  unfold non_carriers. cbn [List.filter]. fold (non_carriers events).
  destruct (bool_decide (ev_event_type e = EventSignatureRecorded)) eqn:Hc;
    change (bool_decide (is_carrier e)) with
      (bool_decide (ev_event_type e = EventSignatureRecorded)); rewrite Hc; cbn [negb rbind].
  - apply bool_decide_eq_true in Hc. destruct (IH acc) as [IH1 IH2]. split; [|done].
    rewrite IH1. setoid_rewrite elem_of_cons. split; [|by eauto].
    intros Hall e' [->|Hin] Hn; [by destruct Hn|by apply Hall].
  - apply bool_decide_eq_false in Hc. setoid_rewrite elem_of_cons.
    rewrite verify_event_signature_spec.
    assert (is_ok (verify_event_signature e trust) = true) as Htot.
    { rewrite verify_event_signature_spec. by repeat case_match. }
    rewrite <- verify_event_signature_spec.
    destruct (verify_event_signature e trust) as [st|] eqn:Hst; [|done]. cbn [rbind].
    destruct (rejects policy st) eqn:Hrej; cbn [rbind].
    + split; [|done]. split; [done|]. intros Hall.
      destruct (Hall e (or_introl eq_refl) Hc) as (st' & Hst' & Hr'). congruence.
    + match goal with |- context [try_fold _ ?a events] => destruct (IH a) as [IH1 IH2] end. split.
      * rewrite IH1. split; [|by eauto]. intros Hall e' [->|Hin] Hn; [by exists st|by apply Hall].
      * intros rows Hrows. rewrite (IH2 rows Hrows), length_app. cbn. lia.
Qed.

Lemma mapM_is_ok {A B} (f : A → result B) l :
  is_ok (mapM f l) = true ↔ ∀ x, x ∈ l → is_ok (f x) = true.
Proof.
  induction l as [|x l IH]; [by split; [intros _ x ?%elem_of_nil|]|].
  setoid_rewrite elem_of_cons. cbn. unfold mbind, Result_bind.
  destruct (f x) as [y|] eqn:Hx; cbn [rbind].
  - destruct (mapM f l) as [k|]; cbn [rbind is_ok] in *; rewrite IH; split; intros Hall.
    1,3: intros x' [->|Hin]; [by rewrite Hx|by apply Hall].
    all: intros x' Hin; apply Hall; by right.
  - split; [done|]. intros Hall. specialize (Hall x (or_introl eq_refl)). by rewrite Hx in Hall.
Qed.

Lemma prepare_exact events policy trust at_ :
  let r := prepare_events_for_ingest events policy trust at_ in
  (is_ok r = true ↔ ∀ e, e ∈ events → acceptable policy trust e) ∧
  ∀ stamped rows, r = Ok (stamped, rows) →
    stamped = stamp_ingest_provenance events IngestEvents at_ ∧
    length rows = length (non_carriers events).
Proof.
  unfold prepare_events_for_ingest, acceptable. cbv zeta.
  match goal with |- context [mapM ?f events] => pose proof (mapM_is_ok f events) as Hmap end.
  assert (∀ e, is_ok (if negb (is_valid_actor_id (w_actor_id (ev_writer e)))
    then Err (InvalidEvent ("ingested event " +:+ ev_event_id e +:+
        " has a malformed writer actor id: " +:+ w_actor_id (ev_writer e)))
    else Ok ()) = is_valid_actor_id (w_actor_id (ev_writer e))) as Hactor.
  { intros e. by destruct (is_valid_actor_id _). }
  setoid_rewrite Hactor in Hmap.
  pose proof (proj1 (verify_events_fold policy trust events [])
    : is_ok (verify_events_for_ingest events policy trust) = true ↔ _) as Hok.
  pose proof (proj2 (verify_events_fold policy trust events [])
    : ∀ rows, verify_events_for_ingest events policy trust = Ok rows → _) as Hlen.
  destruct (mapM _ events) as [units|err]; cbn [rbind is_ok] in *.
  - destruct (verify_events_for_ingest events policy trust) as [rows|err]; cbn [rbind is_ok] in *.
    + split.
      { split; [|done]. intros _ e He. exact (conj (proj1 Hmap eq_refl e He) (proj1 Hok eq_refl e He)). }
      intros stamped rows' [= <- <-]. split; [done|]. by apply Hlen.
    + split; [|done]. split; [done|]. intros Hall. apply Hok. intros e He. apply Hall, He.
  - split; [|done]. split; [done|]. intros Hall. apply Hmap. intros e He. by apply Hall.
Qed.

Lemma stamped_wf at_ e : event_wf e → event_wf (with_ingest at_ e).
Proof. by intros []. Qed.

Lemma stamped_non_carriers events at_ :
  length (non_carriers (stamp_ingest_provenance events IngestEvents at_)) =
  length (non_carriers events).
Proof.
  unfold non_carriers, stamp_ingest_provenance. rewrite filter_bool_fmap, length_fmap. reflexivity.
Qed.

(** The whole batch, from the records to the result. *)
Lemma session_start n c : counts c n → session_ok n session_default c.
Proof. intros Hn. split; cbn; [split; cbn; [by intros ? ?|done]|by apply counts_default|done]. Qed.

Lemma ingest_runs events policy trust at_ (s : S) : Forall event_wf events →
  let stamped := stamp_ingest_provenance events IngestEvents at_ in
  let r := ingest_events_with_clock events policy trust at_ s in
  grows stamped (carriers s) (carriers r.2) ∧
  (is_ok (prepare_events_for_ingest events policy trust at_) = false →
    is_ok r.1 = false ∧ carriers r.2 = carriers s) ∧
  ∀ res, r.1 = Ok res → ∃ loop,
    loop_ok (λ q, records q (carriers s)) (length (non_carriers events)) stamped loop (carriers r.2) ∧
    res = {| ir_completion := finish_session (il_session loop);
             ir_verification := il_verification loop |}.
Proof.
  intros Hwf. cbv zeta. unfold ingest_events_with_clock. rewrite io_bind_pure.
  destruct (prepare_events_for_ingest events policy trust at_) as [[stamped rows]|] eqn:Hprep.
  2:{ cbn. split_and!; [apply grows_refl|done|done]. }
  destruct (prepare_exact events policy trust at_) as [_ Hp].
  destruct (Hp stamped rows Hprep) as [-> Hlen]. set (stamped := stamp_ingest_provenance _ _ _).
  set (n := λ q, records q (carriers s)).
  assert (ensures stamped (λ c, counts c n)
    (let! session := begin_session in
     let! recorded := record_verified_events trust session stamped rows in
     pure_io (Ok {| ir_completion := finish_session recorded.1; ir_verification := recorded.2 |}))
    (λ res c, ∃ loop, loop_ok n (length (non_carriers events)) stamped loop c ∧
      res = {| ir_completion := finish_session (il_session loop);
               ir_verification := il_verification loop |})) as Hens.
  { apply (ensures_bind _ _ _ _ (λ session c, counts c n ∧ session = session_default)).
    - unfold begin_session. apply (ensures_bind _ _ _ _ (λ _ c, counts c n)).
      + apply ensures_read; [|by intros]. intros s0. unfold begin_current_product_batch.
        apply (admission preflight_current_product _ s0 admits_writes reads_preflight_current).
        intros c. unfold admits_writes. by destruct (status_of c) as [[]|].
      + intros _. apply ensures_pure. by intros a c [= <-].
    - intros session. apply (ensures_assume _ (session = session_default)); [naive_solver|].
      intros ->. unfold record_verified_events.
      apply (ensures_bind _ _ _ _ (λ recorded c, ∃ loop, loop_ok n (length (non_carriers events))
        stamped loop c ∧ recorded = (il_session loop, il_verification loop))).
      + eapply ensures_bind.
        * eapply (ensures_weaken _ _ (loop_ok n (length (non_carriers events)) []
            {| il_session := session_default; il_verification := rows;
               il_verified_row_cursor := 0 |})); [|intros l c Hx; exact Hx|].
          { intros c [Hn _]. split_and!; cbn; [|by apply session_start|by intros e ?%elem_of_nil].
            split; cbn; [done|lia|]. intros i row Hi [Hlt|Hge]; [lia|].
            apply lookup_lt_Some in Hi. lia. }
          apply ensures_fold; [|done]. apply Forall_fmap. eapply Forall_impl; [exact Hwf|].
          intros e He. by apply stamped_wf.
        * intros loop. apply ensures_pure. intros recorded c [= <-] Hl. eauto.
      + intros recorded. apply ensures_pure. intros res c [= <-] (loop & Hl & ->). eauto. }
  destruct (Hens s (λ q, eq_refl)) as [Hg HQ]. split_and!; [done|done|done].
Qed.

(** C4. Ingest stores only what it checked, whatever happens.  A batch in which some
    event has a malformed writer or a signature the policy rejects fails and leaves the
    store alone, and only such a batch is refused up front.  Any other run, including one
    that fails half-way, only adds records.  A record it adds holds, under its own key, an
    event of the batch that the policy accepts, or a carrier whose attestation verifies
    over an event the store holds, received as such or transcribed from an event of the
    batch; so a store whose carriers all verify stays one, whatever the trust set. *)
Theorem ingest_safe events policy trust at_ (s : S) (Hwf : Forall event_wf events) :
  let stamped := stamp_ingest_provenance events IngestEvents at_ in
  let r := ingest_events_with_clock events policy trust at_ s in
  let c := carriers s in
  let c' := carriers r.2 in
  (is_ok (prepare_events_for_ingest events policy trust at_) = true ↔
    ∀ e, e ∈ events → acceptable policy trust e) ∧
  (¬ (∀ e, e ∈ events → acceptable policy trust e) → is_ok r.1 = false ∧ c' = c) ∧
  c ⊆ c' ∧
  (∀ k b, c' !! k = Some b → c !! k = None → ∃ e, to_vec e = Ok b ∧ ev_idempotency_key e = k ∧
    admissible stamped c' e ∧ (e ∈ stamped → acceptable policy trust e)) ∧
  (verified_store c → verified_store c').
Proof.
  cbv zeta. destruct (prepare_exact events policy trust at_) as [Hok _]. cbv zeta in Hok.
  destruct (ingest_runs events policy trust at_ s Hwf) as (Hg & Hbad & _). cbv zeta in Hg, Hbad.
  split_and!; [done| |apply Hg| |by apply (grows_verified _ _ _ Hg)].
  - intros Hn. apply Hbad. by rewrite <- not_true_iff_false, Hok.
  - intros k b Hk Hnone. destruct Hg as [_ Hnew].
    destruct (Hnew k b Hk Hnone) as (e & Hb & Hkey & _ & _ & Ha). exists e. split_and!; [done..|].
    intros (e0 & -> & He0)%list_elem_of_fmap. change (acceptable policy trust e0). apply Hok; [|done].
    destruct (is_ok _) eqn:E; [done|]. destruct (Hbad eq_refl) as [_ Hc]. congruence.
Qed.

End batches.

(** ** Witnesses *)

Module Example.
#[local] Existing Instances example_digest example_digest_laws example_reader example_reader_laws
  example_primitives.
#[local] Existing Instances Memory.InMemoryJournal Memory.InMemoryView Memory.InMemoryLaws.
Import CosignatureProofs.Example.

#[export] Instance authority : Authority Memory.InMemoryStore := pure_io (Ok ()).
#[export] Instance authority_laws : AuthorityLaws Memory.InMemoryStore.
Proof. done. Qed.

#[export] Instance files : EventFiles Memory.InMemoryStore := λ stem s,
  (ok_or (snd <$> List.find (λ p, String.eqb (event_filename_stem p.1) stem)
    (map_to_list (Memory.events s))) (Message "no such file"), s).

#[export] Instance environment : Environment Memory.InMemoryStore := {|
  writer_from_options := λ _ s, (ev_writer target, s);
  current_timestamp := λ s, ("2026-02-01T00:00:00.000Z", s)
|}.

#[export] Instance ingest_laws : IngestLaws Memory.InMemoryStore.
Proof.
  split; [|done|done]. intros stem s. split; [done|]. intros b. cbn.
  destruct (List.find _ _) as [[k b']|] eqn:Hf; [|done]. intros [= <-].
  apply find_some in Hf as [Hin Hs%String.eqb_eq]. exists k.
  by apply list_elem_of_In, elem_of_map_to_list in Hin.
Qed.

(** One attestation in two carriers, under its own key and under another. *)
Definition batch : list ShoreEvent := [target; carrier attestation_key; carrier "t:15:another"].

Definition run := ingest_events_with_clock batch policy_advisory trust "2026-02-01T00:00:00.000Z"
  (Memory.new 0).

Lemma batch_wf : Forall event_wf batch.
Proof.
  assert (json_wf (to_json payload)) as Hp.
  { apply payload_roundtrip; [vm_compute; reflexivity|done]. }
  repeat constructor; cbn; try done; by apply (bool_decide_unpack _); vm_compute.
Qed.

Definition result_of_run : IngestEventsResult :=
  match run.1 with
  | Ok res => res
  | Err _ => {| ir_completion := finish_session session_default; ir_verification := [] |}
  end.

Lemma run_ok : run.1 = Ok result_of_run.
Proof. vm_compute. reflexivity. Qed.

Lemma empty_verified : verified_store (carriers (Memory.new 0)).
Proof. intros e (k & b & Hk & _). cbn in Hk. by rewrite lookup_empty in Hk. Qed.

Lemma ingest_safe_witness : verified_store (carriers run.2).
Proof.
  exact (proj2 (proj2 (proj2 (proj2 (ingest_safe batch policy_advisory trust
    "2026-02-01T00:00:00.000Z" (Memory.new 0) batch_wf)))) empty_verified).
Defined.


(** In this batch one attestation is counted twice.  A carrier's own idempotency key is never
    compared with the attestation it carries: ingest stores two carriers of one
    attestation under two keys, and the projection, which takes the carriers' keys for
    attestation triples, lists one signer's one signature as two members. *)
Lemma attestation_counted_twice : ∃ events set m1 m2,
  (list_events run.2).1 = Ok events ∧
  cosignatures_for_event events (ev_event_id target) trust = Ok set ∧
  cs_members set = [m1; m2] ∧ cm_source m1 ≠ cm_source m2 ∧
  cm_attesting_signer m1 = cm_attesting_signer m2 ∧
  length (List.filter (λ e, bool_decide (ev_event_type e = EventSignatureRecorded ∧
    ev_payload e = to_json payload)) events) = 2.
Proof.
  do 4 eexists. split; [vm_compute; reflexivity|]. split; [vm_compute; reflexivity|].
  split; [reflexivity|]. split; [discriminate|]. split; vm_compute; reflexivity.
Qed.
End Example.
