(* ===== verification/Subjects.v ===== *)
(** * Association, task, observation and validation payloads; subjects of events

    [src/src/session/event/association.rs], [observation.rs], [task.rs],
    [validation.rs], [artifact_removal.rs] and [subject_reconstruction.rs]: the remaining
    payload records with their keys and content ids, and the structural subject of an
    event, reconstructed from its payload.  Decoding JSON into the larger records is
    generated code, so it is the class [ReviewDecoders]; the removal payload's one field
    is decoded here. *)

From S2P Require Import Prelude RustStr BTree Model CanonicalHash Crypto Events ChangeClaims.
From S2P Require Import Relations Payloads Wire.

Abbreviation CommitWithdrawalId := string (only parsing).
Abbreviation RefWithdrawalId := string (only parsing).
Abbreviation ValidationCheckId := string (only parsing).

(** ** Commit and ref associations ([association.rs]) *)

Record RevisionCommitAssociatedPayload := {
  ca_commit_association_id : CommitAssociationId;
  ca_target : ReviewTargetRef;
  ca_commit : ReviewEndpoint
}.

Record RevisionRefAssociatedPayload := {
  ra_ref_association_id : RefAssociationId;
  ra_target : ReviewTargetRef;
  ra_ref_name : string;
  ra_head_oid : string
}.

Record RevisionCommitWithdrawnPayload := {
  cw_commit_withdrawal_id : CommitWithdrawalId;
  cw_target : ReviewTargetRef;
  cw_commit_association_id : CommitAssociationId
}.

Record RevisionRefWithdrawnPayload := {
  rw_ref_withdrawal_id : RefWithdrawalId;
  rw_target : ReviewTargetRef;
  rw_ref_association_id : RefAssociationId
}.

Definition ref_distinguisher (ref_name head_oid : string) : string :=
  ref_name +:+ "@" +:+ head_oid.

Definition commit_associated_key (revision_id : RevisionId) (commit_oid : string) : string :=
  type_code RevisionCommitAssociated +:+ ":" +:+ revision_id +:+ ":" +:+ commit_oid.

Definition ref_associated_key (revision_id : RevisionId) (ref_name head_oid : string) : string :=
  type_code RevisionRefAssociated +:+ ":" +:+ revision_id +:+ ":" +:+
  ref_distinguisher ref_name head_oid.

Definition commit_withdrawn_key (commit_association_id : CommitAssociationId) : string :=
  type_code RevisionCommitWithdrawn +:+ ":" +:+ commit_association_id.

Definition ref_withdrawn_key (ref_association_id : RefAssociationId) : string :=
  type_code RevisionRefWithdrawn +:+ ":" +:+ ref_association_id.

Section association_ids.
Context `{Digest}.

Definition build_commit_association_id (revision_id : RevisionId) (commit_oid : string)
    : result CommitAssociationId :=
  let? digest := sha256_json_prefixed
    (JObject [("revisionId", JString revision_id); ("commitOid", JString commit_oid)]) in
  Ok ("assoc-commit:" +:+ digest).

Definition build_ref_association_id (revision_id : RevisionId) (ref_name head_oid : string)
    : result RefAssociationId :=
  let? digest := sha256_json_prefixed
    (JObject [("revisionId", JString revision_id); ("refName", JString ref_name);
              ("headOid", JString head_oid)]) in
  Ok ("assoc-ref:" +:+ digest).

Definition build_commit_withdrawal_id (revision_id : RevisionId)
    (commit_association_id : CommitAssociationId) : result CommitWithdrawalId :=
  let? digest := sha256_json_prefixed
    (JObject [("revisionId", JString revision_id);
              ("commitAssociationId", JString commit_association_id)]) in
  Ok ("withdraw-commit:" +:+ digest).

Definition build_ref_withdrawal_id (revision_id : RevisionId)
    (ref_association_id : RefAssociationId) : result RefWithdrawalId :=
  let? digest := sha256_json_prefixed
    (JObject [("revisionId", JString revision_id);
              ("refAssociationId", JString ref_association_id)]) in
  Ok ("withdraw-ref:" +:+ digest).
End association_ids.

(** ** Removals ([artifact_removal.rs]) *)

Record ArtifactRemovedPayload := { rm_content_hash : string }.

Definition artifact_removed_key (content_hash : string) : string :=
  type_code ArtifactRemoved +:+ ":" +:+ content_hash.

#[export] Instance ArtifactRemovedPayload_Serialize : Serialize ArtifactRemovedPayload := λ p,
  JObject [("contentHash", to_json (rm_content_hash p))].

#[export] Instance ArtifactRemovedPayload_Deserialize `{JsonReader}
    : Deserialize ArtifactRemovedPayload := λ v,
  let? o := struct_entries ["contentHash"] 1 v in
  let? content_hash := req o "contentHash" in
  Ok {| rm_content_hash := content_hash |}.

(** ** Observations, tasks and validations *)

Record ReviewObservationRecordedPayload := {
  ob_observation_id : ObservationId;
  ob_target : ReviewTargetRef;
  ob_title : string;
  ob_body : option string;
  ob_body_content_type : BodyContentType;
  ob_body_artifact_path : option string;
  ob_body_byte_size : option N;
  ob_body_content_hash : option string;
  ob_tags : list string;
  ob_confidence : option string;
  ob_supersedes_observation_ids : list ObservationId;
  ob_responds_to_observation_ids : list ObservationId
}.

Definition observation_key (revision_id : RevisionId) (track_id : TrackId) (source_key : string)
    : string :=
  type_code ReviewObservationRecorded +:+ ":" +:+ revision_id +:+ ":" +:+ track_id +:+ ":" +:+
  source_key.

Record TaskCheckpointCapturedPayload := {
  tc_checkpoint_id : CheckpointId;
  tc_parent_task_attempt_id : WorkObjectId;
  tc_assistant_message_id : string;
  tc_tool_use_ids : list string;
  tc_checkpoint_fingerprint : option string;
  tc_source_speaker : option SourceSpeaker
}.

Definition task_checkpoint_key (work_object_id : WorkObjectId) (source_key : string) : string :=
  type_code TaskCheckpointCaptured +:+ ":" +:+ work_object_id +:+ ":" +:+ source_key.

Record TaskObservationRecordedPayload := {
  to_observation_id : ObservationId;
  to_checkpoint_id : option CheckpointId;
  to_title : string;
  to_body : option string;
  to_body_artifact_path : option string;
  to_body_byte_size : option N;
  to_body_content_hash : option string;
  to_source_speaker : option SourceSpeaker
}.

Definition task_observation_key (work_object_id : WorkObjectId) (source_key : string) : string :=
  type_code TaskObservationRecorded +:+ ":" +:+ work_object_id +:+ ":" +:+ source_key.

(** [src/src/model/validation.rs]. *)
Inductive ValidationStatus := VPassed | VFailed | VErrored | VSkipped.
Inductive ValidationTrigger := VManual | VPush | VPullRequest.
Inductive ValidationTarget := VRevision (revision_id : RevisionId).

Record ValidationCheckRecordedPayload := {
  vc_validation_check_id : ValidationCheckId;
  vc_target : ValidationTarget;
  vc_check_name : string;
  vc_command : option string;
  vc_status : ValidationStatus;
  vc_exit_code : option Z;
  vc_trigger : ValidationTrigger;
  vc_source_fingerprint : option string;
  vc_summary : option string;
  vc_summary_content_type : BodyContentType;
  vc_summary_artifact_path : option string;
  vc_summary_byte_size : option N;
  vc_summary_content_hash : option string;
  vc_started_at : option string;
  vc_completed_at : option string;
  vc_log_artifact_content_hashes : list string
}.

Definition validation_check_key (revision_id : RevisionId) (track_id : TrackId)
    (source_key : string) : string :=
  type_code ValidationCheckRecorded +:+ ":" +:+ revision_id +:+ ":" +:+ track_id +:+ ":" +:+
  source_key.

(** [serde_json::from_value] at these types. *)
Class ReviewDecoders := {
  from_commit_associated : json → result RevisionCommitAssociatedPayload;
  from_commit_withdrawn : json → result RevisionCommitWithdrawnPayload;
  from_ref_associated : json → result RevisionRefAssociatedPayload;
  from_ref_withdrawn : json → result RevisionRefWithdrawnPayload;
  from_observation_recorded : json → result ReviewObservationRecordedPayload;
  from_relation_attested : json → result RevisionRelationAttestedPayload;
  from_validation_recorded : json → result ValidationCheckRecordedPayload;
  from_checkpoint_captured : json → result TaskCheckpointCapturedPayload;
  from_task_observation : json → result TaskObservationRecordedPayload
}.

(** ** Subjects ([subject_reconstruction.rs]) *)

Section subjects.
Context `{Decoders} `{ReviewDecoders}.

Definition reconstruct_subject (e : ShoreEvent) : result TargetRef :=
  let payload := ev_payload e in
  match ev_event_type e with
  | ReviewInitialized | ReviewNoteImported | EventSignatureRecorded | ArtifactRemoved
  | ChangeDeclared | ChangeMembershipAsserted | ChangeMembershipWithdrawn | ChangeLinkAsserted
  | ChangeRevisionRelationAsserted | ChangeRevisionRelationWithdrawn => Ok TargetJournal
  | RevisionRelationAttested =>
      let? p := from_relation_attested payload in
      Ok (TargetReview (TRevision (rr_revision_id (at_revision p))))
  | ReviewFactPorted =>
      let? p := from_fact_ported payload in
      let revision_id := rr_revision_id (fp_origin_revision p) in
      Ok (TargetReview match fp_origin_fact p with
          | FactObservation observation_id => TObservation revision_id observation_id
          | FactInputRequest input_request_id => TInputRequest revision_id input_request_id
          end)
  | WorkObjectProposed =>
      let? p := from_work_object_proposed payload in
      Ok match wo_work_object p with
         | ProposeRevision revision _ _ _ => TargetReview (TRevision (rv_id revision))
         | ProposeTaskAttempt task_attempt_id _ _ _ _ _ _ =>
             TargetTask (TaskAttempt task_attempt_id)
         end
  | ReviewObservationRecorded =>
      let? p := from_observation_recorded payload in Ok (TargetReview (ob_target p))
  | ReviewAssessmentRecorded =>
      let? p := from_assessment_recorded payload in Ok (TargetReview (ap_target p))
  | RevisionRefAssociated =>
      let? p := from_ref_associated payload in Ok (TargetReview (ra_target p))
  | RevisionRefWithdrawn =>
      let? p := from_ref_withdrawn payload in Ok (TargetReview (rw_target p))
  | RevisionCommitAssociated =>
      let? p := from_commit_associated payload in Ok (TargetReview (ca_target p))
  | RevisionCommitWithdrawn =>
      let? p := from_commit_withdrawn payload in Ok (TargetReview (cw_target p))
  | InputRequestOpened =>
      let? p := decode_input_request_opened_payload payload in
      Ok match io_task_target p with
         | Some task_target => TargetTask task_target
         | None => TargetReview (io_target p)
         end
  | InputRequestResponded =>
      let? p := from_input_request_responded payload in
      match ir_revision_id p, ir_task_target p with
      | Some revision_id, _ => Ok (TargetReview (TInputRequest revision_id (ir_input_request_id p)))
      | None, Some task_target => Ok (TargetTask task_target)
      | None, None => Err (InvalidEvent
          "input_request_responded payload carries neither a revision_id (review) nor a task_target (task)")
      end
  | ValidationCheckRecorded =>
      let? p := from_validation_recorded payload in
      match vc_target p with VRevision revision_id => Ok (TargetReview (TRevision revision_id)) end
  | TaskCheckpointCaptured =>
      let? p := from_checkpoint_captured payload in
      Ok (TargetTask (Checkpoint (tc_checkpoint_id p)))
  | TaskObservationRecorded =>
      let? p := from_task_observation payload in
      match to_checkpoint_id p with
      | Some checkpoint_id => Ok (TargetTask (Checkpoint checkpoint_id))
      | None => Err (InvalidEvent
          "task observation without a checkpoint cannot reconstruct its subject (attempt-level task observations are unsupported)")
      end
  end.

Definition event_subject_revision_id (e : ShoreEvent) : result (option RevisionId) :=
  let? subject := reconstruct_subject e in Ok (subject_revision_id subject).

Definition addresses_task_subject (e : ShoreEvent) : result bool :=
  let? subject := reconstruct_subject e in
  Ok match subject with TargetTask _ => true | _ => false end.
End subjects.
