(* ===== verification/SessionState.v ===== *)
(** * Session state ([src/src/session/projection/state.rs],
    [src/src/session/projection/freshness.rs])

    The bounded projection of a whole event log: what is counted, which revision is
    current, which input requests are open, the duplicate diagnostics, and the hash of
    the event set. *)

From S2P Require Import Prelude RustStr BTree Model Acknowledgement Supersession CanonicalHash.
From S2P Require Import Crypto Events ChangeClaims Relations Payloads Subjects.

(** ** The event-set hash *)

Definition EVENT_SET_HASH_SCHEMA : string := "shore.event-set.v1".

Record EventSetHashEntry := { eh_event_id : string; eh_payload_hash : string }.

Definition hash_entry_cmp (l r : EventSetHashEntry) : comparison :=
  pair_cmp String.compare String.compare
    (eh_event_id l, eh_payload_hash l) (eh_event_id r, eh_payload_hash r).

Definition event_set_hash_material (entries : list EventSetHashEntry) : json :=
  JObject [("schema", JString EVENT_SET_HASH_SCHEMA);
    ("events", JArray ((λ entry, JObject [("eventId", JString (eh_event_id entry));
      ("payloadHash", JString (eh_payload_hash entry))]) <$> entries))].

Definition hash_entry (event : ShoreEvent) : EventSetHashEntry :=
  {| eh_event_id := ev_event_id event; eh_payload_hash := ev_payload_hash event |}.

Definition event_set_hash_for_events `{Digest} (events : list ShoreEvent) : result string :=
  let entries := hash_entry <$> events in
  sha256_json_prefixed (event_set_hash_material (sort_by hash_entry_cmp entries)).

(** ** Data *)

Definition STATE_SCHEMA : string := "shore.state".
Definition STATE_VERSION : N := 1.
Definition DUPLICATE_SEMANTIC_OBSERVATION_EVENT_CODE : string :=
  "duplicate_semantic_observation_event".
Definition DUPLICATE_SEMANTIC_INPUT_REQUEST_OPEN_EVENT_CODE : string :=
  "duplicate_semantic_input_request_open_event".
Definition DUPLICATE_SEMANTIC_INPUT_REQUEST_RESPONSE_EVENT_CODE : string :=
  "duplicate_semantic_input_request_response_event".
Definition DUPLICATE_SEMANTIC_ASSESSMENT_EVENT_CODE : string :=
  "duplicate_semantic_assessment_event".
Definition DUPLICATE_SEMANTIC_VALIDATION_EVENT_CODE : string :=
  "duplicate_semantic_validation_event".
Definition DUPLICATE_SEMANTIC_DIAGNOSTIC_EVENT_LIMIT : nat := 5.

Record SessionState := {
  ss_schema : string;
  ss_version : N;
  ss_journal_id : JournalId;
  ss_current_revision_id : option RevisionId;
  ss_current_object_id : option ObjectId;
  ss_revision_count : nat;
  ss_event_count : nat;
  ss_event_set_hash : option string;
  ss_note_count : nat;
  ss_observation_count : nat;
  ss_assessment_count : nat;
  ss_validation_check_count : nat;
  ss_input_request_count : nat;
  ss_open_input_request_count : nat;
  ss_open_operative_input_request_count : nat;
  ss_diagnostics : list ProjectionDiagnostic
}.

Definition state_validate_schema_version (s : SessionState) : result unit :=
  if String.eqb (ss_schema s) STATE_SCHEMA && (ss_version s =? STATE_VERSION)%N then Ok ()
  else Err (UnsupportedStateSchemaVersion (ss_schema s) (Z.of_N (ss_version s))).

Record CanonicalEventValue (T : Type) := { ce_event_id : EventId; ce_value : T }.
Arguments Build_CanonicalEventValue {_}.
Arguments ce_event_id {_}.
Arguments ce_value {_}.

(** The value of the event with the smallest id is kept. *)
Definition retain_canonical_event_value {T} (representatives : gmap string (CanonicalEventValue T))
    (semantic_id : string) (event_id : EventId) (value : T)
    : gmap string (CanonicalEventValue T) :=
  match representatives !! semantic_id with
  | None => <[semantic_id := Build_CanonicalEventValue event_id value]> representatives
  | Some entry =>
      match String.compare event_id (ce_event_id entry) with
      | Lt => <[semantic_id := Build_CanonicalEventValue event_id value]> representatives
      | _ => representatives
      end
  end.

(** ** The reducer *)

Record StateReducer := {
  sr_journal_id : JournalId;
  sr_captured_revisions : gmap string (CanonicalEventValue ObjectId);
  sr_observation_events : gmap string (gset EventId);
  sr_assessment_events : gmap string (gset EventId);
  sr_validation_check_events : gmap string (gset EventId);
  sr_input_request_modes : gmap string (CanonicalEventValue AssertionMode);
  sr_input_request_open_events : gmap string (gset EventId);
  sr_input_request_response_events : gmap string (gset EventId);
  sr_input_request_response_targets : gmap string (CanonicalEventValue InputRequestId)
}.

Definition StateReducer_default : StateReducer :=
  {| sr_journal_id := "journal:default"; sr_captured_revisions := ∅; sr_observation_events := ∅;
     sr_assessment_events := ∅; sr_validation_check_events := ∅; sr_input_request_modes := ∅;
     sr_input_request_open_events := ∅; sr_input_request_response_events := ∅;
     sr_input_request_response_targets := ∅ |}.

Definition set_journal (s : StateReducer) (j : JournalId) : StateReducer :=
  {| sr_journal_id := j; sr_captured_revisions := sr_captured_revisions s;
     sr_observation_events := sr_observation_events s;
     sr_assessment_events := sr_assessment_events s;
     sr_validation_check_events := sr_validation_check_events s;
     sr_input_request_modes := sr_input_request_modes s;
     sr_input_request_open_events := sr_input_request_open_events s;
     sr_input_request_response_events := sr_input_request_response_events s;
     sr_input_request_response_targets := sr_input_request_response_targets s |}.

Definition set_identity_from_event_if_default (s : StateReducer) (event : ShoreEvent)
    : StateReducer :=
  if String.eqb (sr_journal_id s) "journal:default"
  then set_journal s (et_journal_id (ev_target event)) else s.

(** Updates of the maps. *)
Definition set_captured_revisions (s : StateReducer) (m : gmap string (CanonicalEventValue ObjectId)) : StateReducer :=
  {| sr_journal_id := sr_journal_id s; sr_captured_revisions := m; sr_observation_events
     := sr_observation_events s; sr_assessment_events := sr_assessment_events s;
     sr_validation_check_events := sr_validation_check_events s; sr_input_request_modes :=
     sr_input_request_modes s; sr_input_request_open_events :=
     sr_input_request_open_events s; sr_input_request_response_events :=
     sr_input_request_response_events s; sr_input_request_response_targets :=
     sr_input_request_response_targets s |}.

Definition set_observation_events (s : StateReducer) (m : gmap string (gset EventId)) : StateReducer :=
  {| sr_journal_id := sr_journal_id s; sr_captured_revisions := sr_captured_revisions s;
     sr_observation_events := m; sr_assessment_events := sr_assessment_events s;
     sr_validation_check_events := sr_validation_check_events s; sr_input_request_modes :=
     sr_input_request_modes s; sr_input_request_open_events :=
     sr_input_request_open_events s; sr_input_request_response_events :=
     sr_input_request_response_events s; sr_input_request_response_targets :=
     sr_input_request_response_targets s |}.

Definition set_assessment_events (s : StateReducer) (m : gmap string (gset EventId)) : StateReducer :=
  {| sr_journal_id := sr_journal_id s; sr_captured_revisions := sr_captured_revisions s;
     sr_observation_events := sr_observation_events s; sr_assessment_events := m;
     sr_validation_check_events := sr_validation_check_events s; sr_input_request_modes :=
     sr_input_request_modes s; sr_input_request_open_events :=
     sr_input_request_open_events s; sr_input_request_response_events :=
     sr_input_request_response_events s; sr_input_request_response_targets :=
     sr_input_request_response_targets s |}.

Definition set_validation_check_events (s : StateReducer) (m : gmap string (gset EventId)) : StateReducer :=
  {| sr_journal_id := sr_journal_id s; sr_captured_revisions := sr_captured_revisions s;
     sr_observation_events := sr_observation_events s; sr_assessment_events :=
     sr_assessment_events s; sr_validation_check_events := m; sr_input_request_modes :=
     sr_input_request_modes s; sr_input_request_open_events :=
     sr_input_request_open_events s; sr_input_request_response_events :=
     sr_input_request_response_events s; sr_input_request_response_targets :=
     sr_input_request_response_targets s |}.

Definition set_requests (s : StateReducer) (opens : gmap string (gset EventId))
    (modes : gmap string (CanonicalEventValue AssertionMode)) : StateReducer :=
  {| sr_journal_id := sr_journal_id s; sr_captured_revisions := sr_captured_revisions s;
     sr_observation_events := sr_observation_events s; sr_assessment_events :=
     sr_assessment_events s; sr_validation_check_events := sr_validation_check_events s;
     sr_input_request_modes := modes; sr_input_request_open_events := opens;
     sr_input_request_response_events := sr_input_request_response_events s;
     sr_input_request_response_targets := sr_input_request_response_targets s |}.

Definition set_responses (s : StateReducer) (events : gmap string (gset EventId))
    (targets : gmap string (CanonicalEventValue InputRequestId)) : StateReducer :=
  {| sr_journal_id := sr_journal_id s; sr_captured_revisions := sr_captured_revisions s;
     sr_observation_events := sr_observation_events s; sr_assessment_events :=
     sr_assessment_events s; sr_validation_check_events := sr_validation_check_events s;
     sr_input_request_modes := sr_input_request_modes s; sr_input_request_open_events :=
     sr_input_request_open_events s; sr_input_request_response_events := events;
     sr_input_request_response_targets := targets |}.

Section reducer.
Context `{Digest} `{Decoders} `{ReviewDecoders}.

Definition apply_work_object_proposed (s : StateReducer) (event : ShoreEvent)
    : result StateReducer :=
  let? payload := from_work_object_proposed (ev_payload event) in
  match wo_work_object payload with
  | ProposeRevision revision _ _ _ =>
      Ok (set_captured_revisions s (retain_canonical_event_value (sr_captured_revisions s)
        (rv_id revision) (ev_event_id event) (rv_object_id revision)))
  | ProposeTaskAttempt _ _ _ _ _ _ _ => Ok s
  end.

Definition apply_observation_recorded (s : StateReducer) (event : ShoreEvent)
    : result StateReducer :=
  let? payload := from_observation_recorded (ev_payload event) in
  Ok (set_observation_events s
    (entry_extend (sr_observation_events s) (ob_observation_id payload) {[ev_event_id event]})).

Definition apply_assessment_recorded (s : StateReducer) (event : ShoreEvent)
    : result StateReducer :=
  let? payload := from_assessment_recorded (ev_payload event) in
  Ok (set_assessment_events s
    (entry_extend (sr_assessment_events s) (ap_assessment_id payload) {[ev_event_id event]})).

Definition apply_validation_check_recorded (s : StateReducer) (event : ShoreEvent)
    : result StateReducer :=
  let? payload := from_validation_recorded (ev_payload event) in
  Ok (set_validation_check_events s (entry_extend (sr_validation_check_events s)
    (vc_validation_check_id payload) {[ev_event_id event]})).

Definition apply_input_request_opened (s : StateReducer) (event : ShoreEvent)
    : result StateReducer :=
  let? payload := decode_input_request_opened_payload (ev_payload event) in
  let input_request_id := io_input_request_id payload in
  Ok (set_requests s
    (entry_extend (sr_input_request_open_events s) input_request_id {[ev_event_id event]})
    (retain_canonical_event_value (sr_input_request_modes s) input_request_id
      (ev_event_id event) (ev_assertion_mode event))).

Definition apply_input_request_responded (s : StateReducer) (event : ShoreEvent)
    : result StateReducer :=
  let? payload := from_input_request_responded (ev_payload event) in
  Ok (set_responses s
    (entry_extend (sr_input_request_response_events s) (ir_input_request_response_id payload)
      {[ev_event_id event]})
    (retain_canonical_event_value (sr_input_request_response_targets s)
      (ir_input_request_response_id payload) (ev_event_id event) (ir_input_request_id payload))).

Definition reducer_apply (s : StateReducer) (event : ShoreEvent) : result StateReducer :=
  let? _ := validate_schema_version event in
  if bool_decide (ev_event_type event = ReviewInitialized) then
    Ok (set_journal s (et_journal_id (ev_target event)))
  else
  let s := set_identity_from_event_if_default s event in
  match ev_event_type event with
  | ReviewInitialized => Ok s
  | WorkObjectProposed => apply_work_object_proposed s event
  | ReviewObservationRecorded => apply_observation_recorded s event
  | ReviewAssessmentRecorded => apply_assessment_recorded s event
  | InputRequestOpened => apply_input_request_opened s event
  | InputRequestResponded => apply_input_request_responded s event
  | ValidationCheckRecorded => apply_validation_check_recorded s event
  | ReviewNoteImported | RevisionRefAssociated | RevisionRefWithdrawn | RevisionCommitAssociated
  | RevisionCommitWithdrawn | TaskCheckpointCaptured | TaskObservationRecorded
  | EventSignatureRecorded | ArtifactRemoved | ChangeDeclared | ChangeMembershipAsserted
  | ChangeMembershipWithdrawn | ChangeLinkAsserted | ChangeRevisionRelationAsserted
  | ChangeRevisionRelationWithdrawn | RevisionRelationAttested | ReviewFactPorted => Ok s
  end.

(** ** The state *)

(** The events a duplicate diagnostic names: at most five, then an ellipsis. *)
Definition named_events (event_ids : gset EventId) : list string :=
  take DUPLICATE_SEMANTIC_DIAGNOSTIC_EVENT_LIMIT (iter_set event_ids) ++
  (if DUPLICATE_SEMANTIC_DIAGNOSTIC_EVENT_LIMIT <? size event_ids then ["..."] else []).

Definition duplicate_diagnostic (code label semantic_id : string) (event_ids : gset EventId)
    : ProjectionDiagnostic :=
  {| pd_code := code;
     pd_message := "duplicate " +:+ label +:+ " semantic id " +:+ semantic_id +:+
       " appears in events: " +:+ join ", " (named_events event_ids) |}.

Definition append_duplicate_semantic_diagnostics (diagnostics : list ProjectionDiagnostic)
    (code label : string) (events_by_id : list (string * gset EventId))
    : list ProjectionDiagnostic :=
  foldl (λ diagnostics p,
    if size p.2 <? 2 then diagnostics
    else diagnostics ++ [duplicate_diagnostic code label p.1 p.2]) diagnostics events_by_id.

Definition sole_entry {V} (m : gmap string V) : option (string * V) :=
  match size m with
  | 0 => None
  | 1 => head (iter_map m)
  | _ => None
  end.

Definition responded_input_request_ids (s : StateReducer) : gset InputRequestId :=
  set_of_list (ce_value <$> map_values (sr_input_request_response_targets s)).

Definition finish (s : StateReducer) (event_count : nat) (event_set_hash : string)
    : SessionState :=
  let current_revision := sole_entry (sr_captured_revisions s) in
  let responded := responded_input_request_ids s in
  let diagnostics := append_duplicate_semantic_diagnostics []
    DUPLICATE_SEMANTIC_OBSERVATION_EVENT_CODE "observation" (iter_map (sr_observation_events s)) in
  let diagnostics := append_duplicate_semantic_diagnostics diagnostics
    DUPLICATE_SEMANTIC_INPUT_REQUEST_OPEN_EVENT_CODE "input request"
    (iter_map (sr_input_request_open_events s)) in
  let diagnostics := append_duplicate_semantic_diagnostics diagnostics
    DUPLICATE_SEMANTIC_INPUT_REQUEST_RESPONSE_EVENT_CODE "input request response"
    (iter_map (sr_input_request_response_events s)) in
  let diagnostics := append_duplicate_semantic_diagnostics diagnostics
    DUPLICATE_SEMANTIC_ASSESSMENT_EVENT_CODE "assessment" (iter_map (sr_assessment_events s)) in
  let diagnostics := append_duplicate_semantic_diagnostics diagnostics
    DUPLICATE_SEMANTIC_VALIDATION_EVENT_CODE "validation check"
    (iter_map (sr_validation_check_events s)) in
  {| ss_schema := STATE_SCHEMA; ss_version := STATE_VERSION; ss_journal_id := sr_journal_id s;
     ss_current_revision_id := fst <$> current_revision;
     ss_current_object_id := (λ p, ce_value p.2) <$> current_revision;
     ss_revision_count := size (sr_captured_revisions s); ss_event_count := event_count;
     ss_event_set_hash := Some event_set_hash; ss_note_count := 0;
     ss_observation_count := size (sr_observation_events s);
     ss_assessment_count := size (sr_assessment_events s);
     ss_validation_check_count := size (sr_validation_check_events s);
     ss_input_request_count := size (sr_input_request_modes s);
     ss_open_input_request_count := length (filter (λ q, q ∉ responded)
       (map_keys (sr_input_request_modes s)));
     ss_open_operative_input_request_count := length (filter (λ p,
       ce_value p.2 = Operative ∧ p.1 ∉ responded) (iter_map (sr_input_request_modes s)));
     ss_diagnostics := diagnostics |}.

Definition SessionState_from_events (events : list ShoreEvent) : result SessionState :=
  let? event_set_hash := event_set_hash_for_events events in
  let? reducer := try_fold reducer_apply StateReducer_default events in
  Ok (finish reducer (length events) event_set_hash).
End reducer.
