(* ===== verification/SessionStateProofs.v ===== *)
(** * Session state is exact and order-independent *)

From S2P Require Import Prelude RustStr BTree Model Acknowledgement Supersession CanonicalHash.
From S2P Require Import Crypto Events ChangeClaims Relations Payloads ChangeViews Subjects SessionState.

(** ** What one event says *)

(** The content of an event, as far as session state reads it. *)
Inductive Semantic :=
| SemRevision (revision_id : RevisionId) (object_id : ObjectId)
| SemObservation (observation_id : ObservationId)
| SemAssessment (assessment_id : AssessmentId)
| SemValidation (validation_check_id : ValidationCheckId)
| SemOpened (input_request_id : InputRequestId) (mode : AssertionMode)
| SemResponded (response_id : InputRequestResponseId) (input_request_id : InputRequestId)
| SemNone.

Section semantic.
Context `{Digest} `{Decoders} `{ReviewDecoders}.

Definition semantic (e : ShoreEvent) : result Semantic :=
  match ev_event_type e with
  | WorkObjectProposed =>
      let? p := from_work_object_proposed (ev_payload e) in
      Ok (match wo_work_object p with
          | ProposeRevision revision _ _ _ => SemRevision (rv_id revision) (rv_object_id revision)
          | ProposeTaskAttempt _ _ _ _ _ _ _ => SemNone
          end)
  | ReviewObservationRecorded =>
      let? p := from_observation_recorded (ev_payload e) in Ok (SemObservation (ob_observation_id p))
  | ReviewAssessmentRecorded =>
      let? p := from_assessment_recorded (ev_payload e) in Ok (SemAssessment (ap_assessment_id p))
  | ValidationCheckRecorded =>
      let? p := from_validation_recorded (ev_payload e) in
      Ok (SemValidation (vc_validation_check_id p))
  | InputRequestOpened =>
      let? p := decode_input_request_opened_payload (ev_payload e) in
      Ok (SemOpened (io_input_request_id p) (ev_assertion_mode e))
  | InputRequestResponded =>
      let? p := from_input_request_responded (ev_payload e) in
      Ok (SemResponded (ir_input_request_response_id p) (ir_input_request_id p))
  | _ => Ok SemNone
  end.

Definition readable (e : ShoreEvent) : bool :=
  is_ok (let? _ := validate_schema_version e in semantic e).

Definition sem (e : ShoreEvent) : Semantic :=
  match semantic e with Ok x => x | Err _ => SemNone end.

(** The keys an event is filed under. *)
Definition captures (x : Semantic) : option (string * ObjectId) :=
  match x with SemRevision r o => Some (r, o) | _ => None end.
Definition observes (x : Semantic) : option string :=
  match x with SemObservation i => Some i | _ => None end.
Definition assesses (x : Semantic) : option string :=
  match x with SemAssessment i => Some i | _ => None end.
Definition validates (x : Semantic) : option string :=
  match x with SemValidation i => Some i | _ => None end.
Definition opens (x : Semantic) : option (string * AssertionMode) :=
  match x with SemOpened q m => Some (q, m) | _ => None end.
Definition responds (x : Semantic) : option (string * InputRequestId) :=
  match x with SemResponded i q => Some (i, q) | _ => None end.

Definition file_event (m : gmap string (gset EventId)) (e : ShoreEvent) (k : option string)
    : gmap string (gset EventId) :=
  match k with Some k => entry_extend m k {[ev_event_id e]} | None => m end.

Definition retain_event {T} (m : gmap string (CanonicalEventValue T)) (e : ShoreEvent)
    (k : option (string * T)) : gmap string (CanonicalEventValue T) :=
  match k with
  | Some (k, v) => retain_canonical_event_value m k (ev_event_id e) v
  | None => m
  end.

Definition journal_step (j : JournalId) (e : ShoreEvent) : JournalId :=
  if bool_decide (ev_event_type e = ReviewInitialized) then et_journal_id (ev_target e)
  else if String.eqb j "journal:default" then et_journal_id (ev_target e) else j.

(** One step of the reducer, field by field. *)
Definition reducer_step (s : StateReducer) (e : ShoreEvent) : StateReducer :=
  let x := sem e in
  {| sr_journal_id := journal_step (sr_journal_id s) e;
     sr_captured_revisions := retain_event (sr_captured_revisions s) e (captures x);
     sr_observation_events := file_event (sr_observation_events s) e (observes x);
     sr_assessment_events := file_event (sr_assessment_events s) e (assesses x);
     sr_validation_check_events := file_event (sr_validation_check_events s) e (validates x);
     sr_input_request_modes := retain_event (sr_input_request_modes s) e (opens x);
     sr_input_request_open_events := file_event (sr_input_request_open_events s) e (fst <$> opens x);
     sr_input_request_response_events :=
       file_event (sr_input_request_response_events s) e (fst <$> responds x);
     sr_input_request_response_targets :=
       retain_event (sr_input_request_response_targets s) e (responds x) |}.

Lemma reducer_apply_step s e s' :
  reducer_apply s e = Ok s' ↔ readable e = true ∧ s' = reducer_step s e.
Proof.
  unfold reducer_apply, apply_work_object_proposed, apply_observation_recorded,
    apply_assessment_recorded, apply_validation_check_recorded, apply_input_request_opened,
    apply_input_request_responded, readable, reducer_step, sem, semantic, journal_step.
  destruct (validate_schema_version e) as [[]|]; cbn [rbind is_ok]; [|naive_solver].
  destruct s. unfold set_identity_from_event_if_default, set_journal. cbn.
  destruct (decide (ev_event_type e = ReviewInitialized)) as [Et|Et].
  { rewrite !bool_decide_true, Et by done. cbn. split; [by intros [= <-]|by intros [_ ->]]. }
  rewrite !bool_decide_false by done. destruct (ev_event_type e); [done|..]; clear Et; cbn;
    repeat match goal with |- context [rbind ?r _] => destruct r; cbn [rbind is_ok] end;
    try (split; [discriminate|by intros [? _]]);
    try destruct (wo_work_object _); destruct (String.eqb _ _); cbn;
    (split; [by intros [= <-]|by intros [_ ->]]).
Qed.

Lemma reducer_fold events s0 s :
  try_fold reducer_apply s0 events = Ok s ↔
  (∀ e, e ∈ events → readable e = true) ∧ s = foldl reducer_step s0 events.
Proof.
  revert s0. induction events as [|e events IH]; intros s0; cbn.
  { split; [intros [= ->]; split; [by intros ? ?%elem_of_nil|done]|by intros [_ ->]]. }
  rewrite bind_Ok. setoid_rewrite reducer_apply_step. setoid_rewrite elem_of_cons. split.
  - intros (s1 & [Hr ->] & [Hl ->]%IH). split; [|done]. by intros x [->|Hx]; [|apply Hl].
  - intros [Hl ->]. exists (reducer_step s0 e). split; [by split; [apply Hl; left|]|].
    apply IH. split; [|done]. intros x Hx. apply Hl. by right.
Qed.

(** ** What the fields record *)

(** Some event is filed under [k]. *)
Definition filed (key : Semantic → option string) (events : list ShoreEvent) (k : string)
    (id : EventId) : Prop :=
  ∃ e, e ∈ events ∧ key (sem e) = Some k ∧ ev_event_id e = id.

(** The event with the smallest id among those that record a value under [k]. *)
Definition first_of {T} (key : Semantic → option (string * T)) (events : list ShoreEvent)
    (k : string) (e : ShoreEvent) (v : T) : Prop :=
  e ∈ events ∧ key (sem e) = Some (k, v) ∧
  ∀ e' v', e' ∈ events → key (sem e') = Some (k, v') →
    String.compare (ev_event_id e) (ev_event_id e') ≠ Gt.

Lemma filed_spec key events k :
  let m := foldl (λ m e, file_event m e (key (sem e))) ∅ events in
  (is_Some (m !! k) ↔ ∃ id, filed key events k id) ∧
  (∀ id, id ∈ default ∅ (m !! k) ↔ filed key events k id).
Proof.
  cbn zeta. unfold filed. induction events as [|e events [IH1 IH2]] using rev_ind.
  { cbn. rewrite lookup_empty. setoid_rewrite elem_of_nil. cbn. split; [|set_solver].
    split; [by intros [? ?]|naive_solver]. }
  rewrite foldl_app. cbn [foldl]. setoid_rewrite elem_of_app. setoid_rewrite list_elem_of_singleton.
  unfold file_event at 1 3. destruct (key (sem e)) as [k'|] eqn:E.
  - rewrite !lookup_entry_extend. case_decide as Ek; [subst k'|].
    + cbn [from_option id]. split; [split; [|by eexists]|].
      * intros _. exists (ev_event_id e), e. eauto.
      * intros i. rewrite elem_of_union, elem_of_singleton, IH2. split.
        -- intros [(x & ? & ? & ?)| ->]; [exists x; auto|exists e; auto].
        -- intros (x & [?| ->] & ? & ?); [left; eauto|by right].
    + rewrite IH1. split; [|intros i; rewrite IH2]; split.
      * intros (i & x & ? & ? & ?). exists i, x. auto.
      * intros (i & x & [?| ->] & ? & ?); [exists i, x; auto|congruence].
      * intros (x & ? & ? & ?). exists x. auto.
      * intros (x & [?| ->] & ? & ?); [exists x; auto|congruence].
  - rewrite IH1. split; [|intros i; rewrite IH2]; split.
    + intros (i & x & ? & ? & ?). exists i, x. auto.
    + intros (i & x & [?| ->] & ? & ?); [exists i, x; auto|congruence].
    + intros (x & ? & ? & ?). exists x. auto.
    + intros (x & [?| ->] & ? & ?); [exists x; auto|congruence].
Qed.

(** What a map of canonical values holds under [k]. *)
Lemma retained_spec {T} (key : Semantic → option (string * T)) events k :
  match foldl (λ m e, retain_event m e (key (sem e))) ∅ events !! k with
  | None => ∀ e v, e ∈ events → key (sem e) ≠ Some (k, v)
  | Some c => ∃ e, first_of key events k e (ce_value c) ∧ ev_event_id e = ce_event_id c
  end.
Proof.
  induction events as [|e events IH] using rev_ind.
  { cbn. rewrite lookup_empty. by intros ? ? ?%elem_of_nil. }
  rewrite foldl_app. cbn [foldl]. set (m := foldl _ _ events) in *.
  assert (∀ x, x ∈ events ++ [e] ↔ x ∈ events ∨ x = e) as Hin.
  { intros x. by rewrite elem_of_app, list_elem_of_singleton. }
  (* The last event does not concern [k]. *)
  assert ((∀ v, key (sem e) ≠ Some (k, v)) →
    match m !! k with
    | None => ∀ e0 v, e0 ∈ events ++ [e] → key (sem e0) ≠ Some (k, v)
    | Some c => ∃ e0, first_of key (events ++ [e]) k e0 (ce_value c) ∧ ev_event_id e0 = ce_event_id c
    end) as Hother.
  { intros Hk. destruct (m !! k) as [c|].
    - destruct IH as (x & (Hx & Hkx & Hmin) & Hid). exists x. split; [|done].
      split_and!; [apply Hin; by left|done|]. intros e' v' [?| ->]%Hin He'; [by eapply Hmin|].
      by destruct (Hk v').
    - intros x v [?| ->]%Hin; [by apply IH|apply Hk]. }
  unfold retain_event. destruct (key (sem e)) as [[k' v]|] eqn:E; [|by apply Hother].
  unfold retain_canonical_event_value. destruct (decide (k' = k)) as [->|Hne].
  2:{ destruct (m !! k') as [c'|]; [destruct (String.compare _ _)|];
        rewrite ?lookup_insert_ne by done; apply Hother; intros v'; congruence. }
  clear Hother. destruct (m !! k) as [c|] eqn:Em.
  - destruct IH as (x & (Hx & Hkx & Hmin) & Hid).
    destruct (String.compare (ev_event_id e) (ce_event_id c)) eqn:Ec.
    2:{ rewrite lookup_insert_eq. cbn [ce_value ce_event_id]. exists e. split; [|done].
        split_and!; [apply Hin; by right|done|]. intros e' v' [He'| ->]%Hin Hk'.
        - apply (cmp_le_trans String.compare _ (ce_event_id c)); [by rewrite Ec|].
          rewrite <- Hid. by eapply Hmin.
        - by rewrite (cmp_refl String.compare). }
    all: rewrite Em; exists x; split; [|done]; split_and!; [apply Hin; by left|done|];
      intros e' v' [?| ->]%Hin Hk'; [by eapply Hmin|]; rewrite Hid;
      rewrite (cmp_opp String.compare), Ec; done.
  - rewrite lookup_insert_eq. cbn [ce_value ce_event_id]. exists e. split; [|done].
    split_and!; [apply Hin; by right|done|]. intros e' v' [He'| ->]%Hin Hk'.
    + by destruct (IH e' v' He').
    + by rewrite (cmp_refl String.compare).
Qed.

Definition reduced (events : list ShoreEvent) : StateReducer :=
  foldl reducer_step StateReducer_default events.

Lemma reduced_fields events :
  sr_captured_revisions (reduced events) =
    foldl (λ m e, retain_event m e (captures (sem e))) ∅ events ∧
  sr_observation_events (reduced events) =
    foldl (λ m e, file_event m e (observes (sem e))) ∅ events ∧
  sr_assessment_events (reduced events) =
    foldl (λ m e, file_event m e (assesses (sem e))) ∅ events ∧
  sr_validation_check_events (reduced events) =
    foldl (λ m e, file_event m e (validates (sem e))) ∅ events ∧
  sr_input_request_modes (reduced events) =
    foldl (λ m e, retain_event m e (opens (sem e))) ∅ events ∧
  sr_input_request_open_events (reduced events) =
    foldl (λ m e, file_event m e (fst <$> opens (sem e))) ∅ events ∧
  sr_input_request_response_events (reduced events) =
    foldl (λ m e, file_event m e (fst <$> responds (sem e))) ∅ events ∧
  sr_input_request_response_targets (reduced events) =
    foldl (λ m e, retain_event m e (responds (sem e))) ∅ events ∧
  sr_journal_id (reduced events) = foldl journal_step "journal:default" events.
Proof.
  unfold reduced. induction events as [|e events IH] using rev_ind; [done|].
  rewrite !foldl_app. cbn [foldl reducer_step sr_captured_revisions sr_observation_events
    sr_assessment_events sr_validation_check_events sr_input_request_modes
    sr_input_request_open_events sr_input_request_response_events
    sr_input_request_response_targets sr_journal_id].
  destruct IH as (-> & -> & -> & -> & -> & -> & -> & -> & ->). done.
Qed.

(** With distinct event ids the canonical value of a key is the one of its first event. *)
Lemma first_of_unique {T} (key : Semantic → option (string * T)) events k e e' v v' :
  NoDup (ev_event_id <$> events) → first_of key events k e v → first_of key events k e' v' →
  e = e' ∧ v = v'.
Proof.
  intros Hnd (He & Hk & Hmin) (He' & Hk' & Hmin').
  assert (e = e') as <-; [|split; congruence].
  assert (ev_event_id e = ev_event_id e') as Hid.
  { apply (cmp_eq String.compare). specialize (Hmin e' v' He' Hk'). specialize (Hmin' e v He Hk).
    rewrite (cmp_opp String.compare) in Hmin'. by destruct (String.compare _ _). }
  apply list_elem_of_lookup in He as [i Hi], He' as [j Hj].
  assert (i = j) as <-; [|congruence]. eapply (NoDup_lookup (ev_event_id <$> events)); [done|..];
    rewrite list_lookup_fmap; [by rewrite Hi|by rewrite Hj, Hid].
Qed.

Lemma canonical_value {T} (key : Semantic → option (string * T)) events k v :
  NoDup (ev_event_id <$> events) →
  ce_value <$> (foldl (λ m e, retain_event m e (key (sem e))) ∅ events !! k) = Some v ↔
  ∃ e, first_of key events k e v.
Proof.
  intros Hnd. pose proof (retained_spec key events k) as Hr.
  destruct (foldl _ _ _ !! k) as [c|]; cbn.
  - destruct Hr as (e & Hf & _). split; [intros [= <-]; eauto|].
    intros (e' & Hf'). by destruct (first_of_unique key events k e e' _ _ Hnd Hf Hf') as [_ ->].
  - split; [done|]. intros (e & He & Hk & _). by destruct (Hr e v He).
Qed.

Definition mentions {T} (key : Semantic → option (string * T)) (events : list ShoreEvent)
    (k : string) : Prop := ∃ e v, e ∈ events ∧ key (sem e) = Some (k, v).

Lemma retained_some {T} (key : Semantic → option (string * T)) events k :
  is_Some (foldl (λ m e, retain_event m e (key (sem e))) ∅ events !! k) ↔ mentions key events k.
Proof.
  pose proof (retained_spec key events k) as Hr. unfold mentions.
  destruct (foldl _ _ _ !! k) as [c|]; cbn.
  - destruct Hr as (e & (He & Hk & _) & _). split; [|by eexists]. eauto.
  - split; [by intros [? ?]|]. intros (e & v & He & Hk). by destruct (Hr e v He).
Qed.
End semantic.

(** ** Counting *)

(** [n] is the number of strings with the property. *)
Definition counted (n : nat) (Q : string → Prop) : Prop :=
  ∃ X : gset string, size X = n ∧ ∀ x, x ∈ X ↔ Q x.

Lemma counted_list (l : list string) (Q : string → Prop) :
  NoDup l → (∀ x, x ∈ l ↔ Q x) → counted (length l) Q.
Proof.
  intros Hnd HQ. exists (list_to_set l). split; [by apply size_list_to_set|].
  intros x. by rewrite elem_of_list_to_set.
Qed.

Lemma counted_map {V} (m : gmap string V) (Q : string → Prop) :
  (∀ k, is_Some (m !! k) ↔ Q k) → counted (size m) Q.
Proof.
  intros HQ. exists (dom m). split; [by rewrite size_dom|]. intros x. by rewrite elem_of_dom.
Qed.

Lemma counted_keys {V} (m : gmap string V) (D : string * V → Prop) `{!∀ p, Decision (D p)}
    (Q : string → Prop) :
  (∀ k, (∃ v, m !! k = Some v ∧ D (k, v)) ↔ Q k) → counted (length (filter D (iter_map m))) Q.
Proof.
  intros HQ. rewrite <- (length_fmap fst). apply counted_list.
  - eapply sublist_NoDup; [apply (NoDup_map_keys m)|]. apply fmap_sublist, sublist_filter.
  - intros k. rewrite <- HQ, list_elem_of_fmap. split.
    + intros ([k' v] & -> & [Hd Hin]%list_elem_of_filter). apply elem_of_iter_map in Hin. eauto.
    + intros (v & Hv & Hd). exists (k, v). split; [done|]. apply list_elem_of_filter.
      by rewrite elem_of_iter_map.
Qed.

Lemma sole_entry_spec {V} (m : gmap string V) k v :
  sole_entry m = Some (k, v) ↔ m !! k = Some v ∧ ∀ k', is_Some (m !! k') ↔ k' = k.
Proof.
  unfold sole_entry. assert (size m = length (iter_map m)) as Hs.
  { unfold iter_map. by rewrite length_sort_by, length_map_to_list. }
  destruct (iter_map m) as [|[k0 v0] [|[k1 v1] l]] eqn:E; cbn in Hs; rewrite Hs.
  - split; [done|]. intros [Hv%elem_of_iter_map _]. rewrite E in Hv. by apply elem_of_nil in Hv.
  - assert (∀ k' v', m !! k' = Some v' ↔ k' = k0 ∧ v' = v0) as Hm.
    { intros k' v'. rewrite <- elem_of_iter_map, E, list_elem_of_singleton. naive_solver. }
    cbn. unfold is_Some. setoid_rewrite Hm. naive_solver.
  - split; [done|]. intros [_ Hk]. pose proof (NoDup_map_keys m) as Hnd. unfold map_keys in Hnd.
    rewrite E in Hnd. cbn in Hnd. apply NoDup_cons in Hnd as [Hnd _]. exfalso. apply Hnd.
    assert (∀ k' v', (k', v') ∈ iter_map m → k' = k) as Hin.
    { intros k' v' Hkv. apply Hk. exists v'. by apply elem_of_iter_map. }
    rewrite E in Hin. rewrite (Hin k0 v0), (Hin k1 v1) by set_solver. by left.
Qed.

(** ** The state *)

Section state.
Context `{Digest} `{Decoders} `{ReviewDecoders}.

Lemma from_events_inv events s :
  SessionState_from_events events = Ok s ↔
  (∀ e, e ∈ events → readable e = true) ∧
  ∃ h, event_set_hash_for_events events = Ok h ∧ s = finish (reduced events) (length events) h.
Proof.
  unfold SessionState_from_events. split.
  - intros (h & Hh & (r & [Hr ->]%reducer_fold & [= <-])%bind_Ok)%bind_Ok. eauto.
  - intros (Hr & h & -> & ->). cbn [rbind].
    rewrite (proj2 (reducer_fold events StateReducer_default (reduced events))) by done. done.
Qed.

Section exact.
Context (events : list ShoreEvent) (Hids : NoDup (ev_event_id <$> events)).

(** A response, by its first event, answers the request. *)
Definition answered (q : InputRequestId) : Prop := ∃ i e, first_of responds events i e q.

Lemma responded_spec q : q ∈ responded_input_request_ids (reduced events) ↔ answered q.
Proof.
  destruct (reduced_fields events) as (_ & _ & _ & _ & _ & _ & _ & Hf & _).
  unfold responded_input_request_ids, answered, set_of_list, map_values. rewrite Hf.
  rewrite elem_of_list_to_set, list_elem_of_fmap. split.
  - intros (c & -> & ([i c'] & -> & Hc%elem_of_iter_map)%list_elem_of_fmap). exists i.
    apply canonical_value; [done|]. cbn. by rewrite Hc.
  - intros (i & Hi%(canonical_value responds events i q Hids)).
    apply fmap_Some in Hi as (c & Hc & ->).
    exists c. split; [done|]. apply list_elem_of_fmap. exists (i, c).
    split; [done|]. by apply elem_of_iter_map.
Qed.

Lemma keys_filter (X : gset string) {V} (m : gmap string V) :
  length (filter (λ q, q ∉ X) (map_keys m)) = length (filter (λ p, p.1 ∉ X) (iter_map m)).
Proof.
  unfold map_keys. induction (iter_map m) as [|[k v] l IH]; [done|]. rewrite fmap_cons, !filter_cons.
  cbn [fst]. destruct (decide (k ∉ X)); cbn [length]; by rewrite ?IH.
Qed.

(** The families a duplicate is reported for. *)
Definition families : list (string * string * (Semantic → option string)) := [
  (DUPLICATE_SEMANTIC_OBSERVATION_EVENT_CODE, "observation", observes);
  (DUPLICATE_SEMANTIC_INPUT_REQUEST_OPEN_EVENT_CODE, "input request", λ x, fst <$> opens x);
  (DUPLICATE_SEMANTIC_INPUT_REQUEST_RESPONSE_EVENT_CODE, "input request response",
    λ x, fst <$> responds x);
  (DUPLICATE_SEMANTIC_ASSESSMENT_EVENT_CODE, "assessment", assesses);
  (DUPLICATE_SEMANTIC_VALIDATION_EVENT_CODE, "validation check", validates)].

(** A diagnostic of a family: at least two events are filed under one id. *)
Definition duplicated (code label : string) (key : Semantic → option string)
    (d : ProjectionDiagnostic) : Prop :=
  ∃ k (X : gset EventId), (∀ id, id ∈ X ↔ filed key events k id) ∧ 2 ≤ size X ∧
    d = duplicate_diagnostic code label k X.

Lemma elem_of_append ds code label l d :
  d ∈ append_duplicate_semantic_diagnostics ds code label l ↔
  d ∈ ds ∨ ∃ k X, (k, X) ∈ l ∧ 2 ≤ size X ∧ d = duplicate_diagnostic code label k X.
Proof.
  revert ds. unfold append_duplicate_semantic_diagnostics.
  induction l as [|[k X] l IH]; intros ds; cbn [foldl fst snd].
  { split; [by left|]. intros [?|(? & ? & ?%elem_of_nil & _)]; done. }
  rewrite IH. setoid_rewrite elem_of_cons.
  destruct (size X <? 2) eqn:E; [apply Nat.ltb_lt in E|apply Nat.ltb_ge in E].
  - split.
    + intros [?|(k' & X' & ? & ? & ?)]; [by left|right; exists k', X'; auto].
    + intros [?|(k' & X' & [[= -> ->]|?] & ? & ?)]; [by left|lia|right; exists k', X'; auto].
  - rewrite elem_of_app, list_elem_of_singleton. split.
    + intros [[?| ->]|(k' & X' & ? & ? & ?)]; [by left|right; exists k, X|right; exists k', X']; auto.
    + intros [?|(k' & X' & [[= -> ->]|?] & ? & ?)];
        [by left; left|by left; right|right; exists k', X'; auto].
Qed.

Lemma filed_family key code label d :
  (∃ k X, (k, X) ∈ iter_map (foldl (λ m e, file_event m e (key (sem e))) ∅ events) ∧
    2 ≤ size X ∧ d = duplicate_diagnostic code label k X) ↔ duplicated code label key d.
Proof.
  unfold duplicated. setoid_rewrite elem_of_iter_map. split.
  - intros (k & X & HX & Hs & ->). exists k, X. split_and!; [|done..]. intros id.
    destruct (filed_spec key events k) as [_ <-]. by rewrite HX.
  - intros (k & X & HX & Hs & ->). exists k, X. split_and!; [|done..].
    destruct (filed_spec key events k) as [_ Hf]. destruct (foldl _ _ _ !! k) as [Y|]; cbn in Hf.
    + f_equal. apply set_eq. intros id. by rewrite Hf, HX.
    + exfalso. assert (X = ∅) as -> by (apply set_eq; intros id; rewrite HX, <- Hf; set_solver).
      rewrite size_empty in Hs. lia.
Qed.

Definition only_revision (r : RevisionId) : Prop := ∀ r', mentions captures events r' ↔ r' = r.
End exact.

(** ** Reordering *)

Section reordering.
Context (events events' : list ShoreEvent).
Context (Hp : events ≡ₚ events') (Hids : NoDup (ev_event_id <$> events)).

Lemma filed_perm key :
  foldl (λ m e, file_event m e (key (sem e))) ∅ events =
  foldl (λ m e, file_event m e (key (sem e))) ∅ events'.
Proof.
  apply map_eq. intros k.
  assert (∀ id, filed key events k id ↔ filed key events' k id) as Hf.
  { intros id. unfold filed. by setoid_rewrite Hp. }
  destruct (filed_spec key events k) as [Q1 Q2], (filed_spec key events' k) as [Q3 Q4].
  setoid_rewrite Hf in Q1. setoid_rewrite Hf in Q2. rewrite <- Q3 in Q1. setoid_rewrite <- Q4 in Q2.
  destruct (foldl _ _ events !! k) as [X|], (foldl _ _ events' !! k) as [Y|]; cbn in Q2.
  - f_equal. by apply set_eq.
  - by destruct (proj1 Q1 (mk_is_Some _ _ eq_refl)).
  - by destruct (proj2 Q1 (mk_is_Some _ _ eq_refl)).
  - done.
Qed.

Lemma retained_perm {T} (key : Semantic → option (string * T)) :
  foldl (λ m e, retain_event m e (key (sem e))) ∅ events =
  foldl (λ m e, retain_event m e (key (sem e))) ∅ events'.
Proof.
  apply map_eq. intros k.
  pose proof (retained_spec key events k) as Q1. pose proof (retained_spec key events' k) as Q2.
  destruct (foldl _ _ events !! k) as [c|], (foldl _ _ events' !! k) as [c'|].
  - destruct Q1 as (e & Hf & Hc), Q2 as (e' & Hf' & Hc').
    assert (first_of key events k e' (ce_value c')) as Hf2.
    { destruct Hf' as (? & ? & Hm). unfold first_of. setoid_rewrite Hp. auto. }
    destruct (first_of_unique key events k e e' _ _ Hids Hf Hf2) as [<- Hv]. destruct c, c'. cbn in *.
    by subst.
  - destruct Q1 as (e & (He & Hk & _) & _). rewrite Hp in He. by destruct (Q2 e (ce_value c) He).
  - destruct Q2 as (e & (He & Hk & _) & _). rewrite <- Hp in He. by destruct (Q1 e (ce_value c') He).
  - done.
Qed.

(** Events of one journal name it in every order. *)
Lemma journal_fold l j j0 :
  (∀ e, e ∈ l → et_journal_id (ev_target e) = j) → j0 = j ∨ j0 = "journal:default" →
  foldl journal_step j0 l = match l with [] => j0 | _ => j end.
Proof using.
  revert j0. induction l as [|e l IH]; intros j0 Hl Hj; [done|]. cbn [foldl].
  assert (journal_step j0 e = j) as ->.
  { unfold journal_step. rewrite (Hl e) by by left. case_bool_decide; [done|].
    destruct (String.eqb_spec j0 "journal:default"); [done|]. by destruct Hj. }
  rewrite IH by (intros; first [by left|apply Hl; by right]). by destruct l.
Qed.

Lemma reduced_perm j :
  (∀ e, e ∈ events → et_journal_id (ev_target e) = j) → reduced events = reduced events'.
Proof using Hp Hids.
  intros Hj.
  destruct (reduced_fields events) as (F1 & F2 & F3 & F4 & F5 & F6 & F7 & F8 & F9).
  destruct (reduced_fields events') as (G1 & G2 & G3 & G4 & G5 & G6 & G7 & G8 & G9).
  pose proof (filed_perm (λ x, fst <$> opens x)) as Po.
  pose proof (filed_perm (λ x, fst <$> responds x)) as Pr. cbn beta in Po, Pr.
  rewrite (filed_perm observes), <- G2 in F2. rewrite (filed_perm assesses), <- G3 in F3.
  rewrite (filed_perm validates), <- G4 in F4. rewrite Po, <- G6 in F6. rewrite Pr, <- G7 in F7.
  rewrite (retained_perm captures), <- G1 in F1. rewrite (retained_perm opens), <- G5 in F5.
  rewrite (retained_perm responds), <- G8 in F8.
  rewrite (journal_fold events j) in F9 by auto.
  rewrite (journal_fold events' j) in G9 by (try setoid_rewrite <- Hp; auto).
  assert (sr_journal_id (reduced events) = sr_journal_id (reduced events')) as F9'.
  { rewrite F9, G9. destruct events, events'; try done; by apply Permutation_length in Hp. }
  clear - F1 F2 F3 F4 F5 F6 F7 F8 F9'. destruct (reduced events), (reduced events'). cbn in *.
  by subst.
Qed.

#[local] Instance hash_entry_strict : StrictCmp hash_entry_cmp.
Proof using.
  unfold hash_entry_cmp. split; [apply _|]. intros [a b] [c d] Heq. cbn in Heq.
  apply (cmp_eq (pair_cmp String.compare String.compare)) in Heq. by simplify_eq.
Qed.

Lemma event_set_hash_perm : event_set_hash_for_events events = event_set_hash_for_events events'.
Proof using Hp.
  unfold event_set_hash_for_events. cbn zeta.
  rewrite (sort_by_canonical hash_entry_cmp (hash_entry <$> events) (hash_entry <$> events'));
    [done| |by rewrite Hp].
  intros x y _ _. apply (cmp_eq hash_entry_cmp).
Qed.
End reordering.

(** C23. Session state says exactly what a log of distinct event ids says: the event count is the length of
    the log; the other counts are the numbers of distinct revisions, observations,
    assessments, validation checks and input requests its events name; a request counts
    as open exactly when no response answers it, and as operative by the mode of its
    first event, where a duplicated id is read from the event with the smallest event id;
    the current revision is the only captured one, with the object of its first capture,
    and there is none otherwise; the diagnostics are exactly the ids that two or more
    events record. *)
Theorem session_state_exact events s (Hids : NoDup (ev_event_id <$> events))
    (Hs : SessionState_from_events events = Ok s) :
  ss_event_count s = length events ∧
  counted (ss_revision_count s) (mentions captures events) ∧
  counted (ss_observation_count s) (λ i, ∃ id, filed observes events i id) ∧
  counted (ss_assessment_count s) (λ i, ∃ id, filed assesses events i id) ∧
  counted (ss_validation_check_count s) (λ i, ∃ id, filed validates events i id) ∧
  counted (ss_input_request_count s) (mentions opens events) ∧
  counted (ss_open_input_request_count s) (λ q, mentions opens events q ∧ ¬ answered events q) ∧
  counted (ss_open_operative_input_request_count s)
    (λ q, (∃ e, first_of opens events q e Operative) ∧ ¬ answered events q) ∧
  (∀ r, ss_current_revision_id s = Some r ↔ only_revision events r) ∧
  (∀ o, ss_current_object_id s = Some o ↔
    ∃ r e, only_revision events r ∧ first_of captures events r e o) ∧
  (∀ d, d ∈ ss_diagnostics s ↔
    ∃ code label key, (code, label, key) ∈ families ∧ duplicated events code label key d).
Proof.
  apply from_events_inv in Hs as (_ & h & _ & ->).
  destruct (reduced_fields events) as (F1 & F2 & F3 & F4 & F5 & F6 & F7 & F8 & _).
  unfold finish. cbn [ss_event_count ss_revision_count ss_observation_count ss_assessment_count
    ss_validation_check_count ss_input_request_count ss_open_input_request_count
    ss_open_operative_input_request_count ss_current_revision_id ss_current_object_id ss_diagnostics].
  assert (∀ q, q ∉ responded_input_request_ids (reduced events) ↔ ¬ answered events q) as Hans.
  { intros q. by rewrite responded_spec. }
  rewrite F1, F2, F3, F4, F5, F6, F7. split_and!; [done| | | | | | | | | |].
  - apply counted_map. apply retained_some.
  - apply counted_map. intros k. apply filed_spec.
  - apply counted_map. intros k. apply filed_spec.
  - apply counted_map. intros k. apply filed_spec.
  - apply counted_map. apply retained_some.
  - rewrite keys_filter. apply counted_keys. intros q. cbn [fst].
    rewrite <- retained_some, <- Hans. unfold is_Some. naive_solver.
  - apply counted_keys. intros q. cbn [fst snd].
    rewrite <- (canonical_value opens events q Operative Hids), <- Hans, fmap_Some.
    split; [intros (c & ? & ? & ?); eauto|]. intros [(c & ? & ?) ?]. eauto.
  - intros r. rewrite fmap_Some. split.
    + intros ([k c] & [_ Hk]%sole_entry_spec & ->). intros r'. by rewrite <- retained_some, Hk.
    + intros Ho. assert (is_Some (foldl (λ m e, retain_event m e (captures (sem e))) ∅ events !! r))
        as [c Hc] by by apply retained_some, Ho.
      exists (r, c). split; [|done]. apply sole_entry_spec. split; [done|]. intros k'.
      rewrite retained_some. apply Ho.
  - intros o. rewrite fmap_Some. split.
    + intros ([k c] & [Hc Hk]%sole_entry_spec & ->). exists k.
      assert (ce_value <$> (foldl (λ m e, retain_event m e (captures (sem e))) ∅ events !! k) =
        Some (ce_value c)) as Hv by by rewrite Hc.
      apply canonical_value in Hv as [e He]; [|done]. exists e. split; [|done].
      intros r'. by rewrite <- retained_some, Hk.
    + intros (r & e & Ho & Hf).
      assert (∃ e, first_of captures events r e o) as Hv by eauto.
      apply (canonical_value captures events r o Hids), fmap_Some in Hv as (c & Hc & ->).
      exists (r, c). split; [|done]. apply sole_entry_spec. split; [done|].
      intros k'. rewrite retained_some. apply Ho.
  - intros d. rewrite !elem_of_append, elem_of_nil. unfold families.
    pose proof (filed_family events) as Hf. rewrite (Hf observes), (Hf assesses), (Hf validates).
    specialize (Hf (λ x, fst <$> opens x)) as Ho. specialize (Hf (λ x, fst <$> responds x)) as Hr.
    cbn beta in Ho, Hr. rewrite Ho, Hr. clear Hf Ho Hr.
    setoid_rewrite elem_of_cons. setoid_rewrite elem_of_cons. setoid_rewrite elem_of_cons.
    setoid_rewrite elem_of_cons. setoid_rewrite list_elem_of_singleton. split.
    + intros [[[[[[]|?]|?]|?]|?]|?]; do 3 eexists; (split; [|eassumption]); tauto.
    + intros (code & label & key & Hk & Hd).
      destruct Hk as [[= -> -> ->]|[[= -> -> ->]|[[= -> -> ->]|[[= -> -> ->]|[= -> -> ->]]]]]; tauto.
Qed.

(** Session state does not depend on the order in which the events of a journal are
    read: every permutation of a log with distinct event ids that belongs to one journal
    gives the same state, event-set hash and diagnostics included. *)
Theorem session_state_order_independent events events' s j
    (Hp : events ≡ₚ events') (Hids : NoDup (ev_event_id <$> events))
    (Hj : ∀ e, e ∈ events → et_journal_id (ev_target e) = j)
    (Hs : SessionState_from_events events = Ok s) :
  SessionState_from_events events' = Ok s.
Proof.
  apply from_events_inv in Hs as (Hr & h & Hh & ->). apply from_events_inv.
  split; [by setoid_rewrite <- Hp|]. exists h. split; [by rewrite <- (event_set_hash_perm _ _ Hp)|].
  by rewrite (reduced_perm events events' Hp Hids j Hj), Hp.
Qed.
End state.

(** *** Witnesses: a capture, an answered and an open request, a duplicated observation *)

Module Example.
Definition failure {A} : result A := Err (InvalidEvent "payload").
Definition target : ReviewTargetRef := TRevision "rev:a".

(** A payload is the id its event records. *)
Definition id_of {A} (v : json) (f : string → A) : result A :=
  match v with JString i => Ok (f i) | _ => failure end.

#[local] Instance decoders : Decoders := {|
  from_work_object_proposed := λ v, id_of v (λ i, {| wo_engagement_id := "engagement:e";
    wo_work_object := ProposeRevision {| rv_id := i; rv_object_id := "obj:o";
      rv_git_provenance := None |} None "sha256:a" [] |});
  from_change_declared := λ _, failure; from_membership_asserted := λ _, failure;
  from_membership_withdrawn := λ _, failure; from_relation_asserted := λ _, failure;
  from_relation_withdrawn := λ _, failure; from_link_asserted := λ _, failure;
  from_assessment_recorded := λ _, failure;
  from_input_request_opened := λ v, id_of v (λ i, {| io_input_request_id := i; io_target := target;
    io_task_target := None; io_reason_code := FailedGate; io_title := "t"; io_body := None;
    io_body_content_type := TextPlain; io_body_artifact_path := None; io_body_byte_size := None;
    io_body_content_hash := None; io_target_fingerprint := None |});
  from_input_request_responded := λ v, id_of v (λ i, {| ir_input_request_response_id := i;
    ir_input_request_id := "input:1"; ir_revision_id := None; ir_task_target := None;
    ir_outcome := OApproved; ir_reason := None; ir_reason_content_type := TextPlain;
    ir_reason_artifact_path := None; ir_reason_byte_size := None; ir_reason_content_hash := None;
    ir_target_fingerprint := None |});
  from_fact_ported := λ _, failure
|}.

#[local] Instance review_decoders : ReviewDecoders := {|
  from_commit_associated := λ _, failure; from_commit_withdrawn := λ _, failure;
  from_ref_associated := λ _, failure; from_ref_withdrawn := λ _, failure;
  from_observation_recorded := λ v, id_of v (λ i, {| ob_observation_id := i; ob_target := target;
    ob_title := "t"; ob_body := None; ob_body_content_type := TextPlain;
    ob_body_artifact_path := None; ob_body_byte_size := None; ob_body_content_hash := None;
    ob_tags := []; ob_confidence := None; ob_supersedes_observation_ids := [];
    ob_responds_to_observation_ids := [] |});
  from_relation_attested := λ _, failure; from_validation_recorded := λ _, failure;
  from_checkpoint_captured := λ _, failure; from_task_observation := λ _, failure
|}.

Definition event (id : EventId) (t : EventType) (mode : AssertionMode) (payload : string)
    : ShoreEvent := {|
  ev_schema := EVENT_SCHEMA; ev_version := EVENT_VERSION; ev_event_id := id;
  ev_event_type := t; ev_idempotency_key := id; ev_target := for_journal "journal:j";
  ev_writer := shore_local "0.1"; ev_occurred_at := "2025-01-01T00:00:00.000Z";
  ev_payload_hash := "sha256:0"; ev_assertion_mode := mode; ev_signer := None;
  ev_signature := None; ev_source_ref := None; ev_ingest := None; ev_content_encoding := [];
  ev_payload_version := 1; ev_payload := JString payload |}.

Definition events : list ShoreEvent :=
  [event "evt:1" WorkObjectProposed Advisory "rev:a";
   event "evt:2" InputRequestOpened Operative "input:1";
   event "evt:3" InputRequestOpened Operative "input:2";
   event "evt:4" InputRequestResponded Advisory "response:1";
   event "evt:5" ReviewObservationRecorded Advisory "obs:1";
   event "evt:6" ReviewObservationRecorded Advisory "obs:1"].

Definition state : SessionState :=
  ok_value (finish StateReducer_default 0 "")
    (@SessionState_from_events example_digest decoders review_decoders events).

Lemma state_ok : @SessionState_from_events example_digest decoders review_decoders events = Ok state.
Proof. apply is_ok_value. vm_compute. reflexivity. Qed.

Lemma events_distinct : NoDup (ev_event_id <$> events).
Proof. apply (bool_decide_unpack _). vm_compute. exact I. Qed.

Lemma session_state_exact_witness :
  counted 1 (λ q, mentions opens events q ∧ ¬ answered events q).
Proof.
  assert (ss_open_input_request_count state = 1) as <- by (vm_compute; reflexivity).
  apply (@session_state_exact example_digest decoders review_decoders
    events state events_distinct state_ok).
Defined.

Lemma session_state_order_independent_witness :
  @SessionState_from_events example_digest decoders review_decoders (reverse events) = Ok state.
Proof.
  apply (@session_state_order_independent example_digest decoders
    review_decoders events (reverse events) state "journal:j").
  - by rewrite reverse_Permutation.
  - exact events_distinct.
  - apply Forall_forall. unfold events. repeat (constructor; [reflexivity|]). constructor.
  - exact state_ok.
Defined.
End Example.
