(* ===== verification/Attention.v ===== *)
(** * Attention ([src/src/session/workflow/attention/items.rs], and the record passes of
    [workflow/assessment/view.rs] and [workflow/input_request/view.rs])

    What is outstanding in a review record, as peer items: open asks, ambiguous and
    stale decisions, competing heads, failed checks and outstanding follow-ups. *)

From S2P Require Import Prelude RustStr BTree Instant Model Acknowledgement UnionFind Tarjan.
From S2P Require Import Supersession CanonicalHash Crypto Events ChangeClaims Relations Payloads.
From S2P Require Import ChangeGraph ChangeProjection Replacement Subjects SessionState.

(** ** Records *)

#[export] Instance ValidationStatus_eq_dec : EqDecision ValidationStatus.
Proof. solve_decision. Defined.

(** [sorted_unique]. *)
Definition sorted_unique (values : list string) : list string :=
  dedup (sort_by String.compare values).

(** [left < right] on event ids. *)
Definition id_before (left right : EventId) : bool :=
  match String.compare left right with Lt => true | _ => false end.

(** [current.is_none_or(|existing| candidate.event_id < existing.event_id)]. *)
Definition should_replace_representative (current : option ShoreEvent) (candidate : ShoreEvent)
    : bool :=
  match current with
  | None => true
  | Some existing => id_before (ev_event_id candidate) (ev_event_id existing)
  end.

Record AssessmentEventRecord := {
  aer_event : ShoreEvent;
  aer_payload : ReviewAssessmentRecordedPayload;
  aer_track_id : TrackId
}.

Record InputRequestOpenRecord := {
  ior_event : ShoreEvent;
  ior_payload : InputRequestOpenedPayload;
  ior_track_id : TrackId
}.

Record InputRequestResponseRecord := {
  irr_event : ShoreEvent;
  irr_payload : InputRequestRespondedPayload
}.

Record InputRequestProjectionRecords := {
  irp_request_records : gmap InputRequestId InputRequestOpenRecord;
  irp_responses : gmap InputRequestId (list InputRequestResponseRecord)
}.

Record ValidationRecord := {
  vr_event : ShoreEvent;
  vr_payload : ValidationCheckRecordedPayload;
  vr_track_id : TrackId
}.

Definition sort_time (r : ValidationRecord) : string :=
  default (ev_occurred_at (vr_event r)) (vc_completed_at (vr_payload r)).

Definition response_cmp (left right : InputRequestResponseRecord) : comparison :=
  then_with (String.compare (ev_occurred_at (irr_event left)) (ev_occurred_at (irr_event right)))
    (String.compare (ev_event_id (irr_event left)) (ev_event_id (irr_event right))).

Definition sort_response_records (records : list InputRequestResponseRecord)
    : list InputRequestResponseRecord := sort_by response_cmp records.

Section collect.
Context `{Decoders} `{ReviewDecoders}.

Abbreviation assessment_map := (gmap RevisionId (gmap AssessmentId AssessmentEventRecord)).

Definition collect_assessment (by_revision : assessment_map) (event : ShoreEvent)
    : result assessment_map :=
  let? revision := event_subject_revision_id event in
  match revision with
  | None => Ok by_revision
  | Some revision_id =>
      let? payload := from_assessment_recorded (ev_payload event) in
      let? track_id := ok_or (et_track_id (ev_target event))
        (Message "assessment event missing track id") in
      let assessment_id := ap_assessment_id payload in
      let records := default ∅ (by_revision !! revision_id) in
      let records :=
        if should_replace_representative (aer_event <$> records !! assessment_id) event
        then <[assessment_id := {| aer_event := event; aer_payload := payload;
               aer_track_id := track_id |}]> records
        else records in
      Ok (<[revision_id := records]> by_revision)
  end.

Definition collect_assessment_records_by_revision (events : list ShoreEvent)
    : result assessment_map :=
  try_fold collect_assessment ∅
    (filter (λ event, ev_event_type event = ReviewAssessmentRecorded) events).

(** The two maps the request pass fills. *)
Record RequestLoop := {
  rql_requests : gmap InputRequestId InputRequestOpenRecord;
  rql_responses : gmap InputRequestResponseId InputRequestResponseRecord
}.

Definition collect_request (s : RequestLoop) (event : ShoreEvent) : result RequestLoop :=
  match ev_event_type event with
  | InputRequestOpened =>
      let? payload := decode_input_request_opened_payload (ev_payload event) in
      let? track_id := ok_or (et_track_id (ev_target event))
        (Message "input request event missing track id") in
      let input_request_id := io_input_request_id payload in
      Ok (if should_replace_representative (ior_event <$> rql_requests s !! input_request_id) event
          then {| rql_requests := <[input_request_id := {| ior_event := event;
                    ior_payload := payload; ior_track_id := track_id |}]> (rql_requests s);
                  rql_responses := rql_responses s |}
          else s)
  | InputRequestResponded =>
      let? payload := from_input_request_responded (ev_payload event) in
      let response_id := ir_input_request_response_id payload in
      Ok (if should_replace_representative (irr_event <$> rql_responses s !! response_id) event
          then {| rql_requests := rql_requests s;
                  rql_responses := <[response_id := {| irr_event := event;
                    irr_payload := payload |}]> (rql_responses s) |}
          else s)
  | _ => Ok s
  end.

(** Responses grouped by the request they answer, in time order. *)
Definition group_responses (records : gmap InputRequestResponseId InputRequestResponseRecord)
    : gmap InputRequestId (list InputRequestResponseRecord) :=
  sort_response_records <$> foldl (λ m record,
    let request := ir_input_request_id (irr_payload record) in
    <[request := default [] (m !! request) ++ [record]]> m) ∅ (map_values records).

Definition collect_input_request_projection_records (events : list ShoreEvent)
    : result InputRequestProjectionRecords :=
  let? s := try_fold collect_request {| rql_requests := ∅; rql_responses := ∅ |} events in
  Ok {| irp_request_records := rql_requests s; irp_responses := group_responses (rql_responses s) |}.

Definition open_input_request_ids (records : InputRequestProjectionRecords)
    : gset InputRequestId :=
  set_of_list (filter (λ id, ¬ is_Some (irp_responses records !! id))
    (map_keys (irp_request_records records))).

Definition capture_step (representatives : gmap RevisionId ShoreEvent) (event : ShoreEvent)
    : result (gmap RevisionId ShoreEvent) :=
  let? payload := from_work_object_proposed (ev_payload event) in
  Ok (match wo_work_object payload with
      | ProposeRevision revision _ _ _ =>
          if should_replace_representative (representatives !! rv_id revision) event
          then <[rv_id revision := event]> representatives else representatives
      | ProposeTaskAttempt _ _ _ _ _ _ _ => representatives
      end).

Definition captured_at_map (events : list ShoreEvent) : result (gmap RevisionId string) :=
  let? representatives := try_fold capture_step ∅
    (filter (λ event, ev_event_type event = WorkObjectProposed) events) in
  Ok (ev_occurred_at <$> representatives).

Definition validation_step (records : gmap ValidationCheckId ValidationRecord)
    (event : ShoreEvent) : result (gmap ValidationCheckId ValidationRecord) :=
  let? payload := from_validation_recorded (ev_payload event) in
  let? track_id := ok_or (et_track_id (ev_target event))
    (Message "validation event missing track id") in
  let id := vc_validation_check_id payload in
  Ok (if should_replace_representative (vr_event <$> records !! id) event
      then <[id := {| vr_event := event; vr_payload := payload; vr_track_id := track_id |}]> records
      else records).

Definition validation_records (events : list ShoreEvent)
    : result (gmap ValidationCheckId ValidationRecord) :=
  try_fold validation_step ∅
    (filter (λ event, ev_event_type event = ValidationCheckRecorded) events).
End collect.

(** ** Items *)

Inductive AttentionTier := Primary | Secondary.
Inductive AttentionFreshnessState := FreshCurrent | FreshSuperseded.

#[export] Instance AttentionFreshnessState_eq_dec : EqDecision AttentionFreshnessState.
Proof. solve_decision. Defined.

Record AttentionFreshness := {
  fr_state : AttentionFreshnessState;
  fr_superseded_by : list RevisionId
}.

Definition AttentionFreshness_current : AttentionFreshness :=
  {| fr_state := FreshCurrent; fr_superseded_by := [] |}.

Record AttentionAssessmentRecord := {
  ar_assessment_id : AssessmentId;
  ar_assessment : ReviewAssessment;
  ar_track_id : TrackId;
  ar_recorded_by : ActorId;
  ar_recorded_at : string;
  ar_related_observation_ids : list ObservationId;
  ar_related_input_request_ids : list InputRequestId;
  ar_revision_scoped : bool
}.

Inductive AttentionDetail :=
| DOpenInputRequest (input_request_id : InputRequestId) (mode : AssertionMode)
    (reason_code : InputRequestReasonCode) (title : string) (track_id : TrackId)
    (opened_by : ActorId)
| DAmbiguousAssessment (assessments : list AttentionAssessmentRecord)
| DCompetingHeads (head_revision_ids : list RevisionId) (thread_revision_count : nat)
| DStaleAssessment (assessment_id : AssessmentId) (assessment : ReviewAssessment)
    (track_id : TrackId) (recorded_by : ActorId) (head_revision_ids : list RevisionId)
| DFailedValidation (validation_check_id : ValidationCheckId) (check_name : string)
    (status : ValidationStatus) (exit_code : option Z) (track_id : TrackId)
    (recorded_by : ActorId) (log_artifact_content_hashes : list string)
| DFollowUpOutstanding (assessment_id : AssessmentId) (track_id : TrackId)
    (recorded_by : ActorId) (open_input_request_ids : list InputRequestId).

Record AttentionItem := {
  ai_id : string;
  ai_tier : AttentionTier;
  ai_revision_id : option RevisionId;
  ai_freshness : AttentionFreshness;
  ai_observed_at : string;
  ai_detail : AttentionDetail
}.

Record AttentionProjection := {
  apj_items : list AttentionItem;
  apj_diagnostics : list ProjectionDiagnostic
}.

Definition tier_for (detail : AttentionDetail) : AttentionTier :=
  match detail with DOpenInputRequest _ Advisory _ _ _ _ => Secondary | _ => Primary end.

Definition tier_rank (tier : AttentionTier) : nat :=
  match tier with Primary => 0 | Secondary => 1 end.

Definition item_cmp (left right : AttentionItem) : comparison :=
  then_with (Nat.compare (tier_rank (ai_tier left)) (tier_rank (ai_tier right)))
    (then_with (compare_event_instants (ai_observed_at left) (ai_observed_at right))
      (String.compare (ai_id left) (ai_id right))).

Definition sort_items (items : list AttentionItem) : list AttentionItem := sort_by item_cmp items.

(** [Iterator::max] over strings. *)
Definition max_string (l : list string) : option string :=
  foldl (λ m x, Some (match m with
    | None => x
    | Some y => match String.compare x y with Lt => y | _ => x end
    end)) None l.

Definition freshness_for (supersession : SupersessionView) (revision : RevisionId)
    : AttentionFreshness :=
  let superseders := stale_by_superseding_revision supersession revision in
  if bool_decide (superseders = ∅) then AttentionFreshness_current
  else {| fr_state := FreshSuperseded; fr_superseded_by := iter_set superseders |}.

Abbreviation current_map := (gmap RevisionId (list AttentionAssessmentRecord)).

Definition attention_record (record : AssessmentEventRecord) : AttentionAssessmentRecord :=
  let payload := aer_payload record in
  {| ar_assessment_id := ap_assessment_id payload; ar_assessment := ap_assessment payload;
     ar_track_id := aer_track_id record; ar_recorded_by := w_actor_id (ev_writer (aer_event record));
     ar_recorded_at := ev_occurred_at (aer_event record);
     ar_related_observation_ids := sorted_unique (ap_related_observation_ids payload);
     ar_related_input_request_ids := sorted_unique (ap_related_input_request_ids payload);
     ar_revision_scoped := match ap_target payload with TRevision _ => true | _ => false end |}.

Definition peer_cmp (left right : AttentionAssessmentRecord) : comparison :=
  then_with (String.compare (ar_recorded_at left) (ar_recorded_at right))
    (String.compare (ar_assessment_id left) (ar_assessment_id right)).

(** The records of one revision that no other record of it replaces, in time order. *)
Definition current_peers (records : gmap AssessmentId AssessmentEventRecord)
    : list AttentionAssessmentRecord :=
  let replaced : gset AssessmentId := set_of_list
    (concat ((λ r, ap_replaces_assessment_ids (aer_payload r)) <$> map_values records)) in
  sort_by peer_cmp (attention_record <$>
    filter (λ r, ap_assessment_id (aer_payload r) ∉ replaced) (map_values records)).

(** Whether every head of the thread carries a revision-scoped judgment. *)
Definition thread_heads_all_assessed (supersession : SupersessionView)
    (current_by_revision : current_map) (revision : RevisionId) : bool :=
  match component_of supersession revision with
  | None => false
  | Some component =>
      if 0 <? size (component ∩ sv_cycle_revisions supersession) then false
      else
        let heads := heads_for supersession revision in
        negb (bool_decide (heads = ∅)) &&
        forallb (λ head, match current_by_revision !! head with
                         | Some peers => existsb ar_revision_scoped peers
                         | None => false
                         end) (iter_set heads)
  end.

Definition accepting (record : AttentionAssessmentRecord) : bool :=
  match ar_assessment record with Accepted | AcceptedWithFollowUp => true | _ => false end.

Definition assessment_subsumes_failure (peers : list AttentionAssessmentRecord)
    (failure_time : string) : bool :=
  match peers with
  | [] => false
  | _ =>
      if negb (forallb accepting peers) then false
      else match parse_event_instant failure_time with
      | None => false
      | Some failure_instant =>
          existsb (λ record, ar_revision_scoped record &&
            match parse_event_instant (ar_recorded_at record) with
            | Some instant => (failure_instant <? instant)%Z
            | None => false
            end) peers
      end
  end.

Definition mk_item (id : string) (revision_id : option RevisionId)
    (freshness : AttentionFreshness) (observed_at : string) (detail : AttentionDetail)
    : AttentionItem :=
  {| ai_id := id; ai_tier := tier_for detail; ai_revision_id := revision_id;
     ai_freshness := freshness; ai_observed_at := observed_at; ai_detail := detail |}.

Definition ambiguous_assessment_item (current_by_revision : current_map)
    (supersession : SupersessionView) (entry : RevisionId * list AttentionAssessmentRecord)
    : list AttentionItem :=
  let '(revision_id, peers) := entry in
  if length peers <? 2 then []
  else
    let freshness := freshness_for supersession revision_id in
    if bool_decide (fr_state freshness = FreshSuperseded) &&
        thread_heads_all_assessed supersession current_by_revision revision_id then []
    else [mk_item ("ambiguous_assessment:" +:+ revision_id) (Some revision_id) freshness
      (default EmptyString (max_string (ar_recorded_at <$> peers))) (DAmbiguousAssessment peers)].

Definition ambiguous_assessment_items (current_by_revision : current_map)
    (supersession : SupersessionView) (items : list AttentionItem) : list AttentionItem :=
  items ++ concat (ambiguous_assessment_item current_by_revision supersession <$>
    iter_map current_by_revision).

Definition stale_assessment_item (current_by_revision : current_map)
    (supersession : SupersessionView) (entry : RevisionId * list AttentionAssessmentRecord)
    : list AttentionItem :=
  let '(revision_id, peers) := entry in
  let freshness := freshness_for supersession revision_id in
  if negb (bool_decide (fr_state freshness = FreshSuperseded)) then []
  else if thread_heads_all_assessed supersession current_by_revision revision_id then []
  else (λ record, mk_item ("stale_assessment:" +:+ ar_assessment_id record) (Some revision_id)
    freshness (ar_recorded_at record)
    (DStaleAssessment (ar_assessment_id record) (ar_assessment record) (ar_track_id record)
      (ar_recorded_by record) (iter_set (heads_for supersession revision_id)))) <$> peers.

Definition stale_assessment_items (current_by_revision : current_map)
    (supersession : SupersessionView) (items : list AttentionItem) : list AttentionItem :=
  items ++ concat (stale_assessment_item current_by_revision supersession <$>
    iter_map current_by_revision).

Definition follow_up_item (open_request_ids : gset InputRequestId)
    (supersession : SupersessionView) (revision_id : RevisionId)
    (record : AttentionAssessmentRecord) : list AttentionItem :=
  if negb (bool_decide (ar_assessment record = AcceptedWithFollowUp)) then []
  else
    let open_linked := filter (λ id, id ∈ open_request_ids) (ar_related_input_request_ids record) in
    match open_linked with
    | [] => []
    | _ => [mk_item ("follow_up_outstanding:" +:+ ar_assessment_id record) (Some revision_id)
        (freshness_for supersession revision_id) (ar_recorded_at record)
        (DFollowUpOutstanding (ar_assessment_id record) (ar_track_id record)
          (ar_recorded_by record) open_linked)]
    end.

Definition follow_up_outstanding_items (current_by_revision : current_map)
    (open_request_ids : gset InputRequestId) (supersession : SupersessionView)
    (items : list AttentionItem) : list AttentionItem :=
  items ++ concat ((λ entry, concat (follow_up_item open_request_ids supersession entry.1 <$>
    entry.2)) <$> iter_map current_by_revision).

Definition competing_heads_item (supersession : SupersessionView)
    (captured_at : gmap RevisionId string) (component : gset RevisionId)
    : result (list AttentionItem) :=
  let heads := iter_set (component ∩ sv_heads supersession) in
  if length heads <? 2 then Ok []
  else match iter_set component with
  | [] => Err (Panicked "a connected component is non-empty")
  | smallest :: _ =>
      Ok [mk_item ("competing_heads:" +:+ smallest) None AttentionFreshness_current
        (default EmptyString (max_string (omap (λ head, captured_at !! head) heads)))
        (DCompetingHeads heads (size component))]
  end.

Definition competing_heads_items (supersession : SupersessionView)
    (captured_at : gmap RevisionId string) (items : list AttentionItem)
    : result (list AttentionItem) :=
  try_fold (λ items component,
    let? more := competing_heads_item supersession captured_at component in
    Ok (items ++ more)) items (sv_components supersession).

(** ** Failed checks *)

Definition is_failing (status : ValidationStatus) : bool :=
  match status with VFailed | VErrored => true | _ => false end.

Definition check_group (r : ValidationRecord) : string * string * string :=
  match vc_target (vr_payload r) with
  | VRevision revision_id => (revision_id, vr_track_id r, vc_check_name (vr_payload r))
  end.

Definition group_validations (records : gmap ValidationCheckId ValidationRecord)
    : gmap (string * string * string) (list ValidationRecord) :=
  foldl (λ m r, <[check_group r := default [] (m !! check_group r) ++ [r]]> m) ∅
    (map_values records).

(** The latest time of the records that are not skipped, as strings compare. *)
Definition group_max_time (group : list ValidationRecord) : option string :=
  max_string (sort_time <$> filter (λ r, vc_status (vr_payload r) ≠ VSkipped) group).

Definition failed_validation_item (supersession : SupersessionView) (revision_id : RevisionId)
    (max_time : string) (r : ValidationRecord) : list AttentionItem :=
  let payload := vr_payload r in
  if negb (String.eqb (sort_time r) max_time) then []
  else if negb (is_failing (vc_status payload)) then []
  else [mk_item ("failed_validation:" +:+ vc_validation_check_id payload) (Some revision_id)
    (freshness_for supersession revision_id) (sort_time r)
    (DFailedValidation (vc_validation_check_id payload) (vc_check_name payload)
      (vc_status payload) (vc_exit_code payload) (vr_track_id r)
      (w_actor_id (ev_writer (vr_event r))) (vc_log_artifact_content_hashes payload))].

Definition failed_validation_group (supersession : SupersessionView)
    (current_by_revision : current_map)
    (entry : string * string * string * list ValidationRecord) : list AttentionItem :=
  let '((revision_id, _, _), group) := entry in
  if negb (bool_decide (revision_id ∈ sv_heads supersession)) then []
  else match group_max_time group with
  | None => []
  | Some max_time =>
      let peers := default [] (current_by_revision !! revision_id) in
      if assessment_subsumes_failure peers max_time then []
      else concat (failed_validation_item supersession revision_id max_time <$>
        sort_by (λ l r, String.compare (vc_validation_check_id (vr_payload l))
          (vc_validation_check_id (vr_payload r))) group)
  end.

Section projection.
Context `{Digest} `{Decoders} `{ReviewDecoders}.

Definition failed_validation_items (events : list ShoreEvent) (supersession : SupersessionView)
    (current_by_revision : current_map) (items : list AttentionItem)
    : result (list AttentionItem) :=
  let? records := validation_records events in
  Ok (items ++ concat (failed_validation_group supersession current_by_revision <$>
    iter_map (group_validations records))).

Definition current_assessment_records_by_revision (events : list ShoreEvent)
    : result current_map :=
  let? by_revision := collect_assessment_records_by_revision events in
  Ok (current_peers <$> by_revision).

(** ** Open requests *)

Definition open_input_request_item (supersession : SupersessionView)
    (responses : gmap InputRequestId (list InputRequestResponseRecord))
    (entry : InputRequestId * InputRequestOpenRecord) : result (list AttentionItem) :=
  let '(input_request_id, record) := entry in
  if bool_decide (is_Some (responses !! input_request_id)) then Ok []
  else
    let? revision := event_subject_revision_id (ior_event record) in
    match revision with
    | None => Ok []
    | Some revision_id =>
        let event := ior_event record in
        Ok [mk_item ("open_input_request:" +:+ input_request_id) (Some revision_id)
          (freshness_for supersession revision_id) (ev_occurred_at event)
          (DOpenInputRequest input_request_id (ev_assertion_mode event)
            (io_reason_code (ior_payload record)) (io_title (ior_payload record))
            (ior_track_id record) (w_actor_id (ev_writer event)))]
    end.

Definition open_input_request_items (records : InputRequestProjectionRecords)
    (supersession : SupersessionView) (items : list AttentionItem)
    : result (list AttentionItem) :=
  try_fold (λ items entry,
    let? more := open_input_request_item supersession (irp_responses records) entry in
    Ok (items ++ more)) items (iter_map (irp_request_records records)).

(** ** The projection *)

Definition item_covers_scope (item : AttentionItem) (scope : RevisionId)
    (scope_component : option (gset RevisionId)) : bool :=
  match ai_revision_id item with
  | Some revision_id => String.eqb revision_id scope
  | None =>
      match ai_detail item with
      | DCompetingHeads head_revision_ids _ =>
          match scope_component with
          | Some component => existsb (λ head, bool_decide (head ∈ component)) head_revision_ids
          | None => false
          end
      | _ => false
      end
  end.

Definition scope_attention_items (items : list AttentionItem) (scope : RevisionId)
    (supersession : SupersessionView) : list AttentionItem :=
  filter (λ item, item_covers_scope item scope (component_of supersession scope) = true) items.

Definition attention_from_events_with_changes (events : list ShoreEvent)
    (scope : option RevisionId) (changes : ChangeProjection) : result AttentionProjection :=
  let? legacy := SupersessionView_from_events events in
  let views := change_aware_supersession legacy changes in
  let supersession := as_replacement views in
  let? current_assessments := current_assessment_records_by_revision events in
  let? captured_at := captured_at_map events in
  let? request_records := collect_input_request_projection_records events in
  let open_request_ids := open_input_request_ids request_records in
  let? items := open_input_request_items request_records supersession [] in
  let items := ambiguous_assessment_items current_assessments supersession items in
  let? items := competing_heads_items (as_competition views) captured_at items in
  let items := stale_assessment_items current_assessments supersession items in
  let? items := failed_validation_items events supersession current_assessments items in
  let items := follow_up_outstanding_items current_assessments open_request_ids supersession items in
  let items := match scope with
               | Some scope => scope_attention_items items scope supersession
               | None => items
               end in
  Ok {| apj_items := sort_items items; apj_diagnostics := sv_diagnostics supersession |}.

Definition attention_from_events (events : list ShoreEvent) (scope : option RevisionId)
    : result AttentionProjection :=
  let? changes := project_changes events in
  attention_from_events_with_changes events scope changes.

Record AttentionListResult := {
  alr_event_set_hash : string;
  alr_event_count : nat;
  alr_revision : option RevisionId;
  alr_items : list AttentionItem;
  alr_diagnostics : list ProjectionDiagnostic
}.

Definition list_attention_from_events (revision : option RevisionId) (events : list ShoreEvent)
    (skipped_diagnostics : list ProjectionDiagnostic) : result AttentionListResult :=
  let? event_set_hash := event_set_hash_for_events events in
  let? projection := attention_from_events events revision in
  Ok {| alr_event_set_hash := event_set_hash; alr_event_count := length events;
        alr_revision := revision; alr_items := apj_items projection;
        alr_diagnostics := apj_diagnostics projection ++ skipped_diagnostics |}.

(** ** The events a scoped fold reads *)

Definition attention_subject (event : ShoreEvent) : result (option RevisionId) :=
  match ev_event_type event with
  | WorkObjectProposed =>
      let? payload := from_work_object_proposed (ev_payload event) in
      Ok (match wo_work_object payload with
          | ProposeRevision revision _ _ _ => Some (rv_id revision)
          | ProposeTaskAttempt _ _ _ _ _ _ _ => None
          end)
  | ReviewObservationRecorded | ReviewAssessmentRecorded | InputRequestOpened
  | InputRequestResponded | ValidationCheckRecorded => event_subject_revision_id event
  | _ => Ok None
  end.

Definition anchored_in (revisions : gset RevisionId) (subject : option RevisionId) : bool :=
  match subject with Some revision => bool_decide (revision ∈ revisions) | None => false end.

Definition subject_step (revisions : gset RevisionId)
    (s : list (option RevisionId) * gset InputRequestId) (event : ShoreEvent)
    : result (list (option RevisionId) * gset InputRequestId) :=
  let? subject := attention_subject event in
  let? requests :=
    if bool_decide (ev_event_type event = InputRequestOpened) && anchored_in revisions subject then
      let? payload := decode_input_request_opened_payload (ev_payload event) in
      Ok (s.2 ∪ {[io_input_request_id payload]})
    else Ok s.2 in
  Ok (s.1 ++ [subject], requests).

Definition select_step (revisions : gset RevisionId) (requests : gset InputRequestId)
    (selected : list ShoreEvent) (p : ShoreEvent * option RevisionId)
    : result (list ShoreEvent) :=
  let '(event, subject) := p in
  let anchored := anchored_in revisions subject in
  let? answers :=
    if bool_decide (ev_event_type event = InputRequestResponded) then
      let? payload := from_input_request_responded (ev_payload event) in
      Ok (bool_decide (ir_input_request_id payload ∈ requests))
    else Ok false in
  Ok (if anchored || answers then selected ++ [event] else selected).

Definition attention_events_for_revisions (events : list ShoreEvent)
    (revisions : gset RevisionId) : result (list ShoreEvent) :=
  let? (subjects, requests) := try_fold (subject_step revisions) ([], ∅) events in
  try_fold (select_step revisions requests) [] (zip events subjects).
End projection.
