(* ===== verification/AttentionProofs.v ===== *)
(** * Attention is exact, ordered and order-independent *)

From S2P Require Import Prelude RustStr BTree Instant Model Acknowledgement UnionFind Tarjan.
From S2P Require Import Supersession CanonicalHash Crypto Events ChangeClaims Relations Payloads.
From S2P Require Import ChangeGraph ChangeProjection ChangeViews ChangeEvents Replacement.
From S2P Require Import ReplacementProofs Subjects SessionState SessionStateProofs Attention.

(** ** Representatives

    The record passes keep, per key, the record of the event with the smallest id. *)

Section representatives.
Context {K R : Type} `{Countable K} (ev : R → ShoreEvent).

Definition keep_first (m : gmap K R) (p : K * R) : gmap K R :=
  if should_replace_representative (ev <$> m !! p.1) (ev p.2) then <[p.1 := p.2]> m else m.

(** [r] is the first record of [k]. *)
Definition first_record (l : list (K * R)) (k : K) (r : R) : Prop :=
  (k, r) ∈ l ∧ ∀ r', (k, r') ∈ l → String.compare (ev_event_id (ev r)) (ev_event_id (ev r')) ≠ Gt.

(** Two records of one event are one record. *)
Definition one_record_per_event (l : list (K * R)) : Prop :=
  ∀ k r r', (k, r) ∈ l → (k, r') ∈ l → ev_event_id (ev r) = ev_event_id (ev r') → r = r'.

Lemma keep_first_spec l k :
  match foldl keep_first ∅ l !! k with
  | None => ∀ r, (k, r) ∉ l
  | Some r => first_record l k r
  end.
Proof.
  induction l as [|[k' r'] l IH] using rev_ind; [cbn; rewrite lookup_empty; by intros r ?%elem_of_nil|].
  rewrite foldl_app. cbn [foldl]. set (m := foldl keep_first ∅ l) in *.
  assert (∀ p, p ∈ l ++ [(k', r')] ↔ p ∈ l ∨ p = (k', r')) as Hin.
  { intros p. by rewrite elem_of_app, list_elem_of_singleton. }
  unfold keep_first. cbn [fst snd]. destruct (decide (k' = k)) as [->|Hne].
  2:{ assert ((if should_replace_representative (ev <$> m !! k') (ev r') then <[k':=r']> m else m)
        !! k = m !! k) as ->.
      { destruct (should_replace_representative _ _); [by rewrite lookup_insert_ne|done]. }
      destruct (m !! k) as [r|].
      - destruct IH as [Hr Hmin]. split; [apply Hin; by left|].
        intros r'' [?|[= -> ->]]%Hin; [by apply Hmin|done].
      - intros r [?|[= -> ->]]%Hin; [by apply (IH r)|done]. }
  destruct (m !! k) as [r|] eqn:Em; cbn [fmap option_fmap option_map should_replace_representative].
  - destruct IH as [Hr Hmin]. unfold id_before.
    destruct (String.compare (ev_event_id (ev r')) (ev_event_id (ev r))) eqn:Ec.
    2:{ rewrite lookup_insert_eq. split; [apply Hin; by right|]. intros r'' [Hl|[= ->]]%Hin.
        - apply (cmp_le_trans String.compare _ (ev_event_id (ev r))); [by rewrite Ec|by apply Hmin].
        - by rewrite (cmp_refl String.compare). }
    all: rewrite Em; split; [apply Hin; by left|]; intros r'' [Hl|[= ->]]%Hin; [by apply Hmin|];
      rewrite (cmp_opp String.compare), Ec; done.
  - rewrite lookup_insert_eq. split; [apply Hin; by right|]. intros r'' [Hl|[= ->]]%Hin.
    + by destruct (IH r'').
    + by rewrite (cmp_refl String.compare).
Qed.

Lemma first_record_unique l k r r' :
  one_record_per_event l → first_record l k r → first_record l k r' → r = r'.
Proof.
  intros Hone [Hr Hmin] [Hr' Hmin']. apply (Hone k); [done..|]. apply (cmp_eq String.compare).
  specialize (Hmin r' Hr'). specialize (Hmin' r Hr). rewrite (cmp_opp String.compare) in Hmin'.
  by destruct (String.compare _ _).
Qed.

Lemma keep_first_lookup l k r :
  one_record_per_event l → foldl keep_first ∅ l !! k = Some r ↔ first_record l k r.
Proof.
  intros Hone. pose proof (keep_first_spec l k) as Hs. destruct (foldl keep_first ∅ l !! k) as [x|].
  - split; [by intros [= <-]|]. intros Hr. f_equal. by eapply first_record_unique.
  - split; [done|]. intros [Hr _]. by destruct (Hs r).
Qed.

Lemma keep_first_elem l k r : foldl keep_first ∅ l !! k = Some r → (k, r) ∈ l.
Proof. intros Hk. pose proof (keep_first_spec l k) as Hs. rewrite Hk in Hs. apply Hs. Qed.

Lemma keep_first_perm l l' :
  l ≡ₚ l' → one_record_per_event l → foldl keep_first ∅ l = foldl keep_first ∅ l'.
Proof.
  intros Hp Hone. apply map_eq. intros k. apply option_eq. intros r.
  assert (one_record_per_event l') as Hone' by (intros ???; rewrite <- !Hp; apply Hone).
  rewrite !keep_first_lookup by done. unfold first_record. by setoid_rewrite Hp.
Qed.
End representatives.

(** ** What each event records *)

Section entries.
Context `{Decoders} `{ReviewDecoders}.

Definition of_type (t : EventType) {A} (e : ShoreEvent) (r : result (option A)) : result (option A) :=
  if bool_decide (ev_event_type e = t) then r else Ok None.

Definition opening (e : ShoreEvent) : result (option (InputRequestId * InputRequestOpenRecord)) :=
  of_type InputRequestOpened e (
    let? payload := decode_input_request_opened_payload (ev_payload e) in
    let? track_id := ok_or (et_track_id (ev_target e))
      (Message "input request event missing track id") in
    Ok (Some (io_input_request_id payload,
      {| ior_event := e; ior_payload := payload; ior_track_id := track_id |}))).

Definition response (e : ShoreEvent)
    : result (option (InputRequestResponseId * InputRequestResponseRecord)) :=
  of_type InputRequestResponded e (
    let? payload := from_input_request_responded (ev_payload e) in
    Ok (Some (ir_input_request_response_id payload,
      {| irr_event := e; irr_payload := payload |}))).

Definition validation (e : ShoreEvent) : result (option (ValidationCheckId * ValidationRecord)) :=
  of_type ValidationCheckRecorded e (
    let? payload := from_validation_recorded (ev_payload e) in
    let? track_id := ok_or (et_track_id (ev_target e))
      (Message "validation event missing track id") in
    Ok (Some (vc_validation_check_id payload,
      {| vr_event := e; vr_payload := payload; vr_track_id := track_id |}))).

Definition capture (e : ShoreEvent) : result (option (RevisionId * ShoreEvent)) :=
  of_type WorkObjectProposed e (
    let? payload := from_work_object_proposed (ev_payload e) in
    Ok (match wo_work_object payload with
        | ProposeRevision revision _ _ _ => Some (rv_id revision, e)
        | ProposeTaskAttempt _ _ _ _ _ _ _ => None
        end)).

Definition judgment (e : ShoreEvent)
    : result (option (RevisionId * AssessmentId * AssessmentEventRecord)) :=
  of_type ReviewAssessmentRecorded e (
    let? revision := event_subject_revision_id e in
    match revision with
    | None => Ok None
    | Some revision_id =>
        let? payload := from_assessment_recorded (ev_payload e) in
        let? track_id := ok_or (et_track_id (ev_target e))
          (Message "assessment event missing track id") in
        Ok (Some (revision_id, ap_assessment_id payload,
          {| aer_event := e; aer_payload := payload; aer_track_id := track_id |}))
    end).

(** Every pass reads its own family of events. *)
Record readable_events (events : list ShoreEvent) : Prop := {
  re_opening e : e ∈ events → is_ok (opening e) = true;
  re_response e : e ∈ events → is_ok (response e) = true;
  re_validation e : e ∈ events → is_ok (validation e) = true;
  re_capture e : e ∈ events → is_ok (capture e) = true;
  re_judgment e : e ∈ events → is_ok (judgment e) = true
}.

Lemma of_type_filter {A} (f : ShoreEvent → result (option A)) t (events : list ShoreEvent) :
  (∀ e, ev_event_type e ≠ t → f e = Ok None) →
  omap (yield f) (filter (λ e, ev_event_type e = t) events) = omap (yield f) events ∧
  ((∀ e, e ∈ filter (λ e, ev_event_type e = t) events → is_ok (f e) = true) ↔
   (∀ e, e ∈ events → is_ok (f e) = true)).
Proof.
  intros Hf. split.
  - induction events as [|e events IH]; [done|]. rewrite filter_cons. cbn [omap list_omap].
    case_decide as Ht; cbn [omap list_omap]; rewrite IH; [done|]. unfold yield at 2. by rewrite (Hf e Ht).
  - setoid_rewrite list_elem_of_filter. split.
    + intros Hok e He. destruct (decide (ev_event_type e = t)); [by apply Hok|]. by rewrite Hf.
    + intros Hok e [_ He]. by apply Hok.
Qed.

(** A pass over the events of one type. *)
Lemma typed_pass {A S} t (f : ShoreEvent → result (option A)) (g : S → A → S)
    (step : S → ShoreEvent → result S) (events : list ShoreEvent) s out :
  (∀ e, ev_event_type e ≠ t → f e = Ok None) →
  (∀ s e, ev_event_type e = t →
    step s e = let? o := f e in Ok (match o with Some y => g s y | None => s end)) →
  try_fold step s (filter (λ e, ev_event_type e = t) events) = Ok out ↔
  (∀ e, e ∈ events → is_ok (f e) = true) ∧ out = foldl g s (omap (yield f) events).
Proof.
  intros Hf Hstep. destruct (of_type_filter f t events Hf) as [Ho Hok].
  rewrite <- Ho, <- Hok, <- try_fold_absorb. clear Ho Hok. revert s.
  assert (∀ e, e ∈ filter (λ e, ev_event_type e = t) events → ev_event_type e = t) as Hl.
  { by intros e [? _]%list_elem_of_filter. }
  revert Hl. generalize (filter (λ e, ev_event_type e = t) events).
  induction l as [|e l IH]; intros Hl s; [done|]. cbn [try_fold].
  rewrite Hstep by (apply Hl; by left).
  destruct (f e) as [o|]; cbn [rbind]; [|done]. apply IH. intros x Hx. apply Hl. by right.
Qed.

Definition validations (events : list ShoreEvent) := omap (yield validation) events.
Definition openings (events : list ShoreEvent) := omap (yield opening) events.
Definition responses (events : list ShoreEvent) := omap (yield response) events.
Definition captures (events : list ShoreEvent) := omap (yield capture) events.
Definition judgments (events : list ShoreEvent) := omap (yield judgment) events.

Lemma validation_records_spec events m :
  validation_records events = Ok m ↔
  (∀ e, e ∈ events → is_ok (validation e) = true) ∧
  m = foldl (keep_first vr_event) ∅ (validations events).
Proof.
  apply typed_pass; [intros e Ht; unfold validation, of_type; by rewrite bool_decide_false|].
  intros s e Ht. unfold validation, of_type, validation_step. rewrite bool_decide_true by done.
  destruct (from_validation_recorded _) as [p|]; [|done]. cbn [rbind].
  by destruct (et_track_id _).
Qed.

Lemma captured_at_map_spec events m :
  captured_at_map events = Ok m ↔
  (∀ e, e ∈ events → is_ok (capture e) = true) ∧
  m = ev_occurred_at <$> foldl (keep_first id) ∅ (captures events).
Proof.
  unfold captured_at_map. rewrite bind_Ok. setoid_rewrite (typed_pass _ capture (keep_first id)).
  - split; [intros (x & [Hok ->] & [= <-]); done|]. intros [Hok ->]. eauto.
  - intros e Ht. unfold capture, of_type. by rewrite bool_decide_false.
  - intros s e Ht. unfold capture, of_type, capture_step, keep_first. rewrite bool_decide_true by done.
    destruct (from_work_object_proposed _) as [p|]; [|done]. cbn [rbind].
    destruct (wo_work_object p); [|done]. cbn [fst snd]. by destruct (s !! rv_id revision).
Qed.

Lemma collect_requests_spec events s0 s :
  try_fold collect_request s0 events = Ok s ↔
  (∀ e, e ∈ events → is_ok (opening e) = true ∧ is_ok (response e) = true) ∧
  s = {| rql_requests := foldl (keep_first ior_event) (rql_requests s0) (openings events);
         rql_responses := foldl (keep_first irr_event) (rql_responses s0) (responses events) |}.
Proof.
  revert s0. induction events as [|e events IH]; intros s0; cbn [try_fold].
  { split; [intros [= ->]; split; [by intros ? ?%elem_of_nil|by destruct s]|].
    intros [_ ->]. by destruct s0. }
  setoid_rewrite elem_of_cons. unfold openings, responses. cbn [omap list_omap].
  fold (openings events). fold (responses events).
  assert (collect_request s0 e = let? o := opening e in let? r := response e in
    Ok {| rql_requests := match o with Some p => keep_first ior_event (rql_requests s0) p
                                     | None => rql_requests s0 end;
          rql_responses := match r with Some p => keep_first irr_event (rql_responses s0) p
                                      | None => rql_responses s0 end |}) as ->.
  { unfold collect_request, opening, response, of_type, keep_first. destruct s0 as [m n].
    destruct (ev_event_type e) eqn:Et; rewrite ?bool_decide_false by done; try done.
    - rewrite bool_decide_true by done.
      destruct (decode_input_request_opened_payload _) as [p|]; [|done]. cbn [rbind].
      destruct (et_track_id _); [|done]. cbn. by destruct (should_replace_representative _ _).
    - rewrite bool_decide_true by done. destruct (from_input_request_responded _) as [p|]; [|done].
      cbn. by destruct (should_replace_representative _ _). }
  unfold yield. destruct (opening e) as [o|] eqn:Eo; cbn [rbind].
  2:{ split; [done|]. intros [Hok _]. specialize (Hok e (or_introl eq_refl)). rewrite Eo in Hok.
      by destruct Hok. }
  destruct (response e) as [r|] eqn:Er; cbn [rbind].
  2:{ split; [done|]. intros [Hok _]. specialize (Hok e (or_introl eq_refl)). rewrite Er in Hok.
      by destruct Hok. }
  rewrite IH. cbn [rql_requests rql_responses].
  assert (is_ok (opening e) = true ∧ is_ok (response e) = true) as He by by rewrite Eo, Er.
  split.
  - intros [Hok ->]. split; [intros x [->|Hx]; [done|by apply Hok]|]. by destruct o, r.
  - intros [Hok ->]. split; [intros x Hx; apply Hok; by right|]. by destruct o, r.
Qed.

(** The nested map of assessments is the flat one, by revision. *)
Definition nest (m : gmap RevisionId (gmap AssessmentId AssessmentEventRecord))
    (p : RevisionId * AssessmentId * AssessmentEventRecord)
    : gmap RevisionId (gmap AssessmentId AssessmentEventRecord) :=
  <[p.1.1 := keep_first aer_event (default ∅ (m !! p.1.1)) (p.1.2, p.2)]> m.

Lemma nest_spec l r :
  let m := foldl nest ∅ l in
  (is_Some (m !! r) ↔ ∃ a x, (r, a, x) ∈ l) ∧
  ∀ a, default ∅ (m !! r) !! a = foldl (keep_first aer_event) ∅ l !! (r, a).
Proof.
  cbn zeta. induction l as [|[[r' a'] x'] l [IH1 IH2]] using rev_ind.
  { cbn. rewrite !lookup_empty. split; [|done]. split; [by intros [? ?]|by intros (? & ? & ?%elem_of_nil)]. }
  rewrite !foldl_app. cbn [foldl]. unfold nest at 1 3. unfold keep_first at 3. cbn [fst snd].
  destruct (decide (r' = r)) as [->|Hne].
  - rewrite lookup_insert_eq. split.
    + split; [|by eexists]. intros _. exists a', x'. apply elem_of_app. right. by left.
    + intros a. cbn [from_option id]. unfold keep_first at 1. cbn [fst snd]. rewrite IH2.
      destruct (should_replace_representative _ _); [|apply IH2].
      destruct (decide (a' = a)) as [->|Ha]; [by rewrite !lookup_insert_eq|].
      rewrite !lookup_insert_ne by congruence. apply IH2.
  - rewrite lookup_insert_ne by done. split.
    + rewrite IH1. split; intros (a & x & Hin); exists a, x.
      * apply elem_of_app. by left.
      * apply elem_of_app in Hin as [?|[= ? ?]%list_elem_of_singleton]; [done|congruence].
    + intros a. rewrite IH2. destruct (should_replace_representative _ _); [|done].
      by rewrite lookup_insert_ne by congruence.
Qed.

Lemma collect_assessments_spec events m :
  collect_assessment_records_by_revision events = Ok m ↔
  (∀ e, e ∈ events → is_ok (judgment e) = true) ∧ m = foldl nest ∅ (judgments events).
Proof.
  apply typed_pass; [intros e Ht; unfold judgment, of_type; by rewrite bool_decide_false|].
  intros s e Ht. unfold judgment, of_type, collect_assessment. rewrite bool_decide_true by done.
  destruct (event_subject_revision_id e) as [[r|]|]; [|done..]. cbn [rbind].
  destruct (from_assessment_recorded _) as [p|]; [|done]. cbn [rbind]. by destruct (et_track_id _).
Qed.
End entries.

(** ** Shared lemmas *)

Lemma elem_of_values {K V} `{Countable K} `{!Ord K} (m : gmap K V) v :
  v ∈ map_values m ↔ ∃ k, m !! k = Some v.
Proof.
  unfold map_values. rewrite list_elem_of_fmap. split.
  - intros ([k v'] & -> & Hk%elem_of_iter_map). eauto.
  - intros (k & Hk). exists (k, v). by rewrite elem_of_iter_map.
Qed.

(** Pushing each element onto the entry of its group. *)
Definition group_by {A G} `{Countable G} (f : A → G) (l : list A) : gmap G (list A) :=
  foldl (λ m x, <[f x := default [] (m !! f x) ++ [x]]> m) ∅ l.

Lemma group_by_spec {A G} `{Countable G} (f : A → G) l g :
  (∀ x, x ∈ default [] (group_by f l !! g) ↔ x ∈ l ∧ f x = g) ∧
  (is_Some (group_by f l !! g) ↔ ∃ x, x ∈ l ∧ f x = g).
Proof.
  assert (∀ x, x ∈ default [] (group_by f l !! g) ↔ x ∈ l ∧ f x = g) as Hx.
  { unfold group_by. induction l as [|y l IH] using rev_ind; intros x.
    { cbn. rewrite lookup_empty. cbn. rewrite elem_of_nil. tauto. }
    rewrite foldl_app, elem_of_app, list_elem_of_singleton. cbn [foldl].
    destruct (decide (f y = g)) as [<-|Hne].
    - rewrite lookup_insert_eq. cbn [from_option id]. rewrite elem_of_app, list_elem_of_singleton, IH.
      split; [intros [?| ->]; tauto|]. intros [[?| ->] ?]; tauto.
    - rewrite lookup_insert_ne by done. rewrite IH. split; [tauto|].
      intros [[?| ->] ?]; [tauto|done]. }
  split; [done|]. split.
  - intros [xs Hg]. assert (xs ≠ []) as Hne.
    { clear Hx. revert xs Hg. unfold group_by. induction l as [|y l IH] using rev_ind; [done|]. intros xs.
      rewrite foldl_app. cbn [foldl]. destruct (decide (f y = g)) as [<-|Hne].
      - rewrite lookup_insert_eq. intros [= <-]. by destruct (default _ _).
      - rewrite lookup_insert_ne by done. apply IH. }
    destruct xs as [|x xs]; [done|]. exists x. apply Hx. rewrite Hg. by left.
  - intros (x & Hxl). apply Hx in Hxl. destruct (group_by f l !! g); [by eexists|].
    by apply elem_of_nil in Hxl.
Qed.

Lemma max_string_spec l t :
  max_string l = Some t ↔ t ∈ l ∧ ∀ x, x ∈ l → String.compare x t ≠ Gt.
Proof.
  assert (match max_string l with
          | None => l = []
          | Some t => t ∈ l ∧ ∀ x, x ∈ l → String.compare x t ≠ Gt end) as Hm.
  { unfold max_string. induction l as [|y l IH] using rev_ind; [done|]. rewrite foldl_app. cbn [foldl].
    destruct (foldl _ None l) as [u|].
    - destruct IH as [Hu Hmax]. destruct (String.compare y u) eqn:E.
      2:{ split; [set_solver|]. intros x [?| ->%list_elem_of_singleton]%elem_of_app; [by apply Hmax|].
          by rewrite E. }
      all: split; [set_solver|]; intros x [Hx| ->%list_elem_of_singleton]%elem_of_app;
        [|by rewrite (cmp_refl String.compare)];
        apply (cmp_le_trans String.compare _ u); [by apply Hmax|];
        rewrite (cmp_opp String.compare), E; done.
    - subst. split; [by left|]. intros x ->%list_elem_of_singleton.
      by rewrite (cmp_refl String.compare). }
  destruct (max_string l) as [u|].
  - destruct Hm as [Hu Hmax]. split; [by intros [= <-]|]. intros [Ht Hmax']. f_equal.
    apply (cmp_eq String.compare). specialize (Hmax t Ht). specialize (Hmax' u Hu).
    rewrite (cmp_opp String.compare) in Hmax. by destruct (String.compare u t).
  - subst. split; [done|]. by intros [?%elem_of_nil _].
Qed.

Lemma max_string_None l : max_string l = None ↔ l = [].
Proof.
  split; [|by intros ->]. destruct l as [|x l]; [done|]. unfold max_string. cbn [foldl].
  revert x. induction l as [|y l IH]; intros x; cbn [foldl]; [done|]. by intros ?%IH.
Qed.

(** ** What the log says *)

Section spec.
Context `{Decoders} `{ReviewDecoders}.
Context (events : list ShoreEvent) (sup comp : SupersessionView).
Context (cmp : string → string → comparison).

(** [cmp] is an order of the recorded times: none of [l] is after [t]. *)
Definition latest (l : list string) (t : string) : Prop :=
  t ∈ l ∧ ∀ x, x ∈ l → cmp x t ≠ Gt.

Definition peer_order (left right : AttentionAssessmentRecord) : comparison :=
  then_with (cmp (ar_recorded_at left) (ar_recorded_at right))
    (String.compare (ar_assessment_id left) (ar_assessment_id right)).

(** The first opening of a request, and whether some response answers it. *)
Abbreviation opened := (first_record ior_event (openings events)).
Definition unanswered (q : InputRequestId) : Prop :=
  ∀ i x, first_record irr_event (responses events) i x → ir_input_request_id (irr_payload x) ≠ q.

(** A standing judgment of a revision: nothing recorded on the revision replaces it. *)
Definition standing (r : RevisionId) (x : AssessmentEventRecord) : Prop :=
  ∃ a, first_record aer_event (judgments events) (r, a) x ∧
  ∀ b y, first_record aer_event (judgments events) (r, b) y →
    a ∉ ap_replaces_assessment_ids (aer_payload y).

(** The standing judgments of a revision, oldest first. *)
Record peers_of (r : RevisionId) (peers : list AttentionAssessmentRecord) : Prop := {
  po_sorted : StronglySorted (cmp_le peer_order) peers;
  po_distinct : NoDup (ar_assessment_id <$> peers);
  po_standing y : y ∈ peers ↔ ∃ x, standing r x ∧ y = attention_record x
}.

Definition superseded_in (r : RevisionId) : Prop := stale_by_superseding_revision sup r ≠ ∅.

(** The revision itself has been judged. *)
Definition judged (r : RevisionId) : Prop :=
  ∃ x, standing r x ∧ ar_revision_scoped (attention_record x) = true.

(** The thread has moved past the revision and every head of it has been judged. *)
Definition settled_thread (r : RevisionId) : Prop :=
  ∃ C, component_of sup r = Some C ∧ C ∩ sv_cycle_revisions sup = ∅ ∧
    heads_for sup r ≠ ∅ ∧ ∀ h, h ∈ heads_for sup r → judged h.

(** Later unanimous acceptance of a revision. *)
Definition accepted_after (r : RevisionId) (time : string) : Prop :=
  (∀ x, standing r x → accepting (attention_record x) = true) ∧
  ∃ x t f, standing r x ∧ ar_revision_scoped (attention_record x) = true ∧
    parse_event_instant time = Some f ∧
    parse_event_instant (ev_occurred_at (aer_event x)) = Some t ∧ (f < t)%Z.

(** Checks. *)
Abbreviation check := (first_record vr_event (validations events)).

(** When the revisions of a set were first captured. *)
Definition capture_times_of (X : gset RevisionId) : list string :=
  omap (λ h, ev_occurred_at <$> (foldl (keep_first id) ∅ (captures events) !! h)) (iter_set X).

Definition latest_of_group (x : ValidationRecord) : Prop :=
  ∀ v y, check v y → check_group y = check_group x → vc_status (vr_payload y) ≠ VSkipped →
    cmp (sort_time y) (sort_time x) ≠ Gt.

Inductive outstanding : AttentionItem → Prop :=
| outstanding_request q x r :
    opened q x → unanswered q → event_subject_revision_id (ior_event x) = Ok (Some r) →
    outstanding (mk_item ("open_input_request:" +:+ q) (Some r) (freshness_for sup r)
      (ev_occurred_at (ior_event x))
      (DOpenInputRequest q (ev_assertion_mode (ior_event x)) (io_reason_code (ior_payload x))
        (io_title (ior_payload x)) (ior_track_id x) (w_actor_id (ev_writer (ior_event x)))))
| outstanding_ambiguity r peers t :
    peers_of r peers → 2 ≤ length peers → ¬ (superseded_in r ∧ settled_thread r) →
    latest (ar_recorded_at <$> peers) t →
    outstanding (mk_item ("ambiguous_assessment:" +:+ r) (Some r) (freshness_for sup r) t
      (DAmbiguousAssessment peers))
| outstanding_competition C smallest t :
    C ∈ sv_components comp → 2 ≤ size (C ∩ sv_heads comp) → head (iter_set C) = Some smallest →
    latest (capture_times_of (C ∩ sv_heads comp)) t ∨
      capture_times_of (C ∩ sv_heads comp) = [] ∧ t = "" →
    outstanding (mk_item ("competing_heads:" +:+ smallest) None AttentionFreshness_current t
      (DCompetingHeads (iter_set (C ∩ sv_heads comp)) (size C)))
| outstanding_stale r x :
    standing r x → superseded_in r → ¬ settled_thread r →
    outstanding (mk_item ("stale_assessment:" +:+ ap_assessment_id (aer_payload x)) (Some r)
      (freshness_for sup r) (ev_occurred_at (aer_event x))
      (DStaleAssessment (ap_assessment_id (aer_payload x)) (ap_assessment (aer_payload x))
        (aer_track_id x) (w_actor_id (ev_writer (aer_event x))) (iter_set (heads_for sup r))))
| outstanding_failure v x r :
    check v x → vc_target (vr_payload x) = VRevision r → r ∈ sv_heads sup →
    is_failing (vc_status (vr_payload x)) = true → latest_of_group x →
    ¬ accepted_after r (sort_time x) →
    outstanding (mk_item ("failed_validation:" +:+ v) (Some r) (freshness_for sup r) (sort_time x)
      (DFailedValidation v (vc_check_name (vr_payload x)) (vc_status (vr_payload x))
        (vc_exit_code (vr_payload x)) (vr_track_id x) (w_actor_id (ev_writer (vr_event x)))
        (vc_log_artifact_content_hashes (vr_payload x))))
| outstanding_follow_up r x linked :
    standing r x → ap_assessment (aer_payload x) = AcceptedWithFollowUp →
    StronglySorted (cmp_lt String.compare) linked →
    (∀ q, q ∈ linked ↔ q ∈ ap_related_input_request_ids (aer_payload x) ∧
      (∃ y, opened q y) ∧ unanswered q) →
    linked ≠ [] →
    outstanding (mk_item ("follow_up_outstanding:" +:+ ap_assessment_id (aer_payload x)) (Some r)
      (freshness_for sup r) (ev_occurred_at (aer_event x))
      (DFollowUpOutstanding (ap_assessment_id (aer_payload x)) (aer_track_id x)
        (w_actor_id (ev_writer (aer_event x))) linked)).
End spec.

(** ** The record maps, by the log *)

Section maps.
Context `{Decoders} `{ReviewDecoders}.
Context (events : list ShoreEvent) (Hids : NoDup (ev_event_id <$> events)).

Lemma one_record_yield {K R} (f : ShoreEvent → result (option (K * R))) (ev : R → ShoreEvent) :
  (∀ e k r, f e = Ok (Some (k, r)) → ev r = e) → one_record_per_event ev (omap (yield f) events).
Proof.
  intros Hf k r r'. rewrite !list_elem_of_omap. unfold yield.
  intros (e & He & E) (e' & He' & E') Hid.
  destruct (f e) as [o|] eqn:F; [subst o|done]. destruct (f e') as [o|] eqn:F'; [subst o|done].
  rewrite (Hf _ _ _ F), (Hf _ _ _ F') in Hid.
  assert (e = e') as <- by by apply (NoDup_fmap_same ev_event_id events).
  congruence.
Qed.

Lemma yield_event {K R} (f : ShoreEvent → result (option (K * R))) (ev : R → ShoreEvent) k r :
  (∀ e k r, f e = Ok (Some (k, r)) → ev r = e) → (k, r) ∈ omap (yield f) events → ev r ∈ events.
Proof using.
  intros Hf. rewrite list_elem_of_omap. unfold yield. intros (e & He & E).
  destruct (f e) as [o|] eqn:F; [subst o|done]. by rewrite (Hf _ _ _ F).
Qed.

(** [pass_inv]: the event behind an entry. *)
Ltac pass_inv :=
  intros e k r; unfold opening, response, validation, capture, judgment, of_type;
  case_bool_decide; [|done];
  repeat (match goal with |- context [rbind ?x _] => destruct x as [?|?]; cbn [rbind]; [|done] end ||
    match goal with |- context [match ?x with _ => _ end] => destruct x; try done end);
  by intros [= <- <-].

Lemma openings_one : one_record_per_event ior_event (openings events).
Proof. apply one_record_yield. pass_inv. Qed.
Lemma responses_one : one_record_per_event irr_event (responses events).
Proof. apply one_record_yield. pass_inv. Qed.
Lemma validations_one : one_record_per_event vr_event (validations events).
Proof. apply one_record_yield. pass_inv. Qed.
Lemma captures_one : one_record_per_event id (captures events).
Proof. apply one_record_yield. pass_inv. Qed.
Lemma captures_recorded h c : (h, c) ∈ captures events → c ∈ events.
Proof using. apply (yield_event capture id). pass_inv. Qed.
Lemma judgments_recorded q x : (q, x) ∈ judgments events → aer_event x ∈ events.
Proof using. apply (yield_event judgment aer_event). pass_inv. Qed.
Lemma judgments_one : one_record_per_event aer_event (judgments events).
Proof. apply one_record_yield. pass_inv. Qed.

(** Keys are the ids of the payloads. *)
Lemma judgment_key r a x : (r, a, x) ∈ judgments events → ap_assessment_id (aer_payload x) = a.
Proof.
  unfold judgments. rewrite list_elem_of_omap. intros (e & _ & E). revert E.
  unfold yield, judgment, of_type. case_bool_decide; [|done].
  destruct (event_subject_revision_id e) as [[?|]|]; [|done..]. cbn [rbind].
  destruct (from_assessment_recorded _); [|done]. cbn [rbind]. destruct (et_track_id _); [|done].
  by intros [= _ <- <-].
Qed.

Lemma validation_key v x : (v, x) ∈ validations events → vc_validation_check_id (vr_payload x) = v.
Proof.
  unfold validations. rewrite list_elem_of_omap. intros (e & _ & E). revert E.
  unfold yield, validation, of_type. case_bool_decide; [|done].
  destruct (from_validation_recorded _); [|done]. cbn [rbind]. destruct (et_track_id _); [|done].
  by intros [= <- <-].
Qed.

#[local] Instance peer_cmp_total : TotalCmp peer_cmp.
Proof using. unfold peer_cmp. apply _. Qed.

Lemma records_lookup r a x :
  default ∅ (foldl nest ∅ (judgments events) !! r) !! a = Some x ↔
  first_record aer_event (judgments events) (r, a) x.
Proof using Hids.
  destruct (nest_spec (judgments events) r) as [_ ->].
  apply keep_first_lookup, judgments_one.
Qed.

(** The values of the nested map at a revision. *)
Lemma elem_of_records r x :
  x ∈ map_values (default ∅ (foldl nest ∅ (judgments events) !! r)) ↔
  first_record aer_event (judgments events) (r, ap_assessment_id (aer_payload x)) x.
Proof using Hids.
  rewrite elem_of_values. setoid_rewrite records_lookup. split.
  - intros (a & Ha). by rewrite (judgment_key r a x) by apply Ha.
  - eauto.
Qed.

Lemma standing_alt r x :
  standing events r x ↔
  x ∈ map_values (default ∅ (foldl nest ∅ (judgments events) !! r)) ∧
  ∀ y, y ∈ map_values (default ∅ (foldl nest ∅ (judgments events) !! r)) →
    ap_assessment_id (aer_payload x) ∉ ap_replaces_assessment_ids (aer_payload y).
Proof using Hids.
  unfold standing. setoid_rewrite elem_of_records. split.
  - intros (a & Ha & Hr). pose proof (judgment_key r a x (proj1 Ha)) as <-. split; [done|].
    intros y Hy. by eapply Hr.
  - intros [Hx Hr]. exists (ap_assessment_id (aer_payload x)). split; [done|]. intros b y Hb.
    apply Hr. by rewrite (judgment_key r b y (proj1 Hb)).
Qed.

Lemma current_peers_spec r :
  peers_of events String.compare r (current_peers (default ∅ (foldl nest ∅ (judgments events) !! r))).
Proof using Hids.
  set (records := default ∅ _). unfold current_peers. cbn zeta. split.
  - apply sort_by_sorted. apply _.
  - rewrite (fmap_Permutation _ _ _ (sort_by_Permutation peer_cmp _)). rewrite <- list_fmap_compose.
    eapply sublist_NoDup; [|apply fmap_sublist, sublist_filter].
    assert (ap_assessment_id ∘ aer_payload <$> map_values records = map_keys records) as Hk.
    { unfold map_values, map_keys. rewrite <- list_fmap_compose. apply list_fmap_ext.
      intros i [a x] Hi%list_elem_of_lookup_2. apply elem_of_iter_map, records_lookup in Hi.
      cbn. by apply (judgment_key r), Hi. }
    change (NoDup (ap_assessment_id ∘ aer_payload <$> map_values records)).
    rewrite Hk. apply NoDup_map_keys.
  - intros y. rewrite elem_of_sort_by, list_elem_of_fmap.
    setoid_rewrite list_elem_of_filter. setoid_rewrite standing_alt. fold records.
    unfold set_of_list. setoid_rewrite elem_of_list_to_set. split.
    + intros (x & -> & Hr & Hx). exists x. split; [split; [done|]|done]. intros z Hz Hin. apply Hr.
      apply (elem_of_concat_fmap (λ r, ap_replaces_assessment_ids (aer_payload r))). eauto.
    + intros (x & [Hx Hr] & ->). exists x. split_and!; [done| |done].
      intros (z & Hz & Hin)%(elem_of_concat_fmap (λ r, ap_replaces_assessment_ids (aer_payload r))).
      by apply (Hr z).
Qed.

Lemma peers_of_unique r p p' : peers_of events String.compare r p → peers_of events String.compare r p' → p = p'.
Proof using.
  intros [S1 D1 E1] [S2 D2 E2]. apply (StronglySorted_unique_strong (cmp_le peer_cmp)); [|done..|].
  - intros x y Hx Hy Hxy Hyx. unfold cmp_le in *. assert (y ∈ p) as Hy' by (rewrite E1, <- E2; done).
    apply (NoDup_fmap_same ar_assessment_id p); [done..|].
    unfold peer_cmp, then_with in *. rewrite (cmp_opp String.compare (ar_recorded_at x)) in Hyx.
    rewrite (cmp_opp String.compare (ar_assessment_id x)) in Hyx.
    destruct (String.compare (ar_recorded_at x) _); cbn in *; [|done..].
    apply (cmp_eq String.compare). by destruct (String.compare (ar_assessment_id x) _).
  - apply NoDup_Permutation; [by eapply NoDup_fmap_1..|]. intros y. by rewrite E1, E2.
Qed.

Definition current_assessments : gmap RevisionId (list AttentionAssessmentRecord) :=
  current_peers <$> foldl nest ∅ (judgments events).

Lemma current_lookup r peers :
  current_assessments !! r = Some peers ↔ is_Some (current_assessments !! r) ∧ peers_of events String.compare r peers.
Proof using Hids.
  unfold current_assessments. rewrite lookup_fmap.
  pose proof (current_peers_spec r) as Hp.
  destruct (foldl nest ∅ (judgments events) !! r) as [records|]; cbn in *.
  - split; [by intros [= <-]|]. intros [_ Hp']. f_equal. by eapply peers_of_unique.
  - split; [done|]. by intros [[? ?] _].
Qed.

(** A revision with a standing judgment is in the map; one without is empty there. *)
Lemma current_standing r x :
  standing events r x → is_Some (current_assessments !! r).
Proof using Hids.
  intros [Hx _]%standing_alt. unfold current_assessments. rewrite lookup_fmap.
  destruct (foldl nest ∅ (judgments events) !! r); [by eexists|].
  cbn in Hx. apply elem_of_values in Hx as [k Hk]. by rewrite lookup_empty in Hk.
Qed.

Lemma elem_of_current r y :
  y ∈ default [] (current_assessments !! r) ↔ ∃ x, standing events r x ∧ y = attention_record x.
Proof using Hids.
  destruct (current_assessments !! r) as [peers|] eqn:E; cbn.
  - apply current_lookup in E as [_ Hp]. apply (po_standing _ _ _ _ Hp).
  - rewrite elem_of_nil. split; [done|]. intros (x & Hx & _). apply current_standing in Hx.
    rewrite E in Hx. by destruct Hx.
Qed.

(** Requests and their answers. *)
Definition request_map : gmap InputRequestId InputRequestOpenRecord :=
  foldl (keep_first ior_event) ∅ (openings events).
Definition answer_map : gmap InputRequestId (list InputRequestResponseRecord) :=
  group_responses (foldl (keep_first irr_event) ∅ (responses events)).

Lemma request_lookup q x :
  request_map !! q = Some x ↔ first_record ior_event (openings events) q x.
Proof using Hids. apply keep_first_lookup, openings_one. Qed.

Lemma answer_lookup q : answer_map !! q = None ↔ unanswered events q.
Proof using Hids.
  unfold answer_map, group_responses. rewrite lookup_fmap.
  change (foldl _ ∅ (map_values (foldl (keep_first irr_event) ∅ (responses events)))) with
    (group_by (λ record, ir_input_request_id (irr_payload record))
      (map_values (foldl (keep_first irr_event) ∅ (responses events)))).
  destruct (group_by_spec (λ record, ir_input_request_id (irr_payload record))
    (map_values (foldl (keep_first irr_event) ∅ (responses events))) q) as [_ Hg].
  rewrite fmap_None, eq_None_not_Some, Hg. unfold unanswered. setoid_rewrite elem_of_values.
  setoid_rewrite (λ k r, keep_first_lookup irr_event (responses events) k r responses_one).
  split; [intros Hn i x Hx Hq; apply Hn; eauto|]. intros Hn (x & (i & Hi) & Hq). by eapply Hn.
Qed.

Section views.
Context (sup : SupersessionView).

Lemma freshness_superseded r :
  fr_state (freshness_for sup r) = FreshSuperseded ↔ superseded_in sup r.
Proof using.
  unfold freshness_for, superseded_in. case_bool_decide as E; cbn; [by rewrite E|]. done.
Qed.

Lemma thread_assessed r :
  thread_heads_all_assessed sup current_assessments r = true ↔ settled_thread events sup r.
Proof using Hids.
  unfold thread_heads_all_assessed, settled_thread.
  destruct (component_of sup r) as [C|] eqn:EC; [|split; [done|by intros (? & ? & _)]].
  destruct (0 <? size (C ∩ sv_cycle_revisions sup)) eqn:En.
  { split; [done|]. intros (C' & [= <-] & Hn & _). rewrite Hn, size_empty in En. done. }
  assert (C ∩ sv_cycle_revisions sup = ∅) as Hn.
  { apply Nat.ltb_ge in En. apply leibniz_equiv, size_empty_inv. lia. }
  rewrite andb_true_iff, negb_true_iff, bool_decide_eq_false, forallb_forall.
  assert (∀ h, (match current_assessments !! h with Some peers => existsb ar_revision_scoped peers
    | None => false end) = true ↔ judged events h) as Hj.
  { intros h. unfold judged. pose proof (elem_of_current h) as He.
    destruct (current_assessments !! h) as [peers|]; cbn in He.
    - rewrite existsb_exists. setoid_rewrite <- list_elem_of_In. setoid_rewrite He. naive_solver.
    - split; [done|]. intros (x & Hx & _). exfalso.
      apply (not_elem_of_nil (attention_record x)), He. eauto. }
  setoid_rewrite <- list_elem_of_In. setoid_rewrite elem_of_iter_set. setoid_rewrite Hj. naive_solver.
Qed.

Lemma subsumes_spec r time :
  assessment_subsumes_failure (default [] (current_assessments !! r)) time = true ↔
  accepted_after events r time.
Proof using Hids.
  pose proof (elem_of_current r) as He. set (peers := default [] _) in *.
  unfold assessment_subsumes_failure, accepted_after.
  assert (forallb accepting peers = true ↔
    ∀ x, standing events r x → accepting (attention_record x) = true) as Ha.
  { rewrite forallb_forall. setoid_rewrite <- list_elem_of_In. setoid_rewrite He. naive_solver. }
  rewrite <- Ha. clear Ha. destruct peers as [|p peers'].
  { split; [done|]. intros (_ & x & ? & ? & Hx & _). exfalso.
    apply (not_elem_of_nil (attention_record x)), He. eauto. }
  set (peers := p :: peers') in *. destruct (forallb accepting peers); cbn [negb]; [|naive_solver].
  destruct (parse_event_instant time) as [f|]; [|naive_solver].
  rewrite existsb_exists. setoid_rewrite <- list_elem_of_In. setoid_rewrite He. split.
  - intros (y & (x & Hx & ->) & [Hs Ht]%andb_true_iff). split; [done|]. cbn [ar_recorded_at attention_record] in Ht.
    destruct (parse_event_instant (ev_occurred_at (aer_event x))) as [t|] eqn:E; [|done].
    exists x, t, f. apply Z.ltb_lt in Ht. auto.
  - intros (_ & x & t & f' & Hx & Hs & [= <-] & Ht & Hlt). exists (attention_record x).
    split; [eauto|]. rewrite Hs. cbn [ar_recorded_at attention_record]. rewrite Ht. by apply Z.ltb_lt.
Qed.
End views.
End maps.

(** ** The six passes *)

Definition kind (detail : AttentionDetail) : nat :=
  match detail with
  | DOpenInputRequest _ _ _ _ _ _ => 0
  | DAmbiguousAssessment _ => 1
  | DCompetingHeads _ _ => 2
  | DStaleAssessment _ _ _ _ _ => 3
  | DFailedValidation _ _ _ _ _ _ _ => 4
  | DFollowUpOutstanding _ _ _ _ => 5
  end.

Lemma latest_default l :
  latest String.compare l (default "" (max_string l)) ∨ l = [] ∧ default "" (max_string l) = "".
Proof.
  destruct (max_string l) as [t|] eqn:Hm; [left; by apply max_string_spec|right].
  by apply max_string_None in Hm.
Qed.

Lemma latest_default_eq l t :
  latest String.compare l t ∨ l = [] ∧ t = "" → t = default "" (max_string l).
Proof. intros [Hl|[-> ->]]; [|done]. apply max_string_spec in Hl. by rewrite Hl. Qed.

Section passes.
Context `{Decoders} `{ReviewDecoders}.
Context (events : list ShoreEvent) (Hids : NoDup (ev_event_id <$> events)).
Context (sup comp : SupersessionView).

Abbreviation outstanding := (outstanding events sup comp String.compare).
Abbreviation current := (current_assessments events).

Lemma open_pass out y :
  open_input_request_items {| irp_request_records := request_map events;
    irp_responses := answer_map events |} sup [] = Ok out →
  y ∈ out ↔ outstanding y ∧ kind (ai_detail y) = 0.
Proof.
  unfold open_input_request_items. cbn [irp_request_records irp_responses].
  intros (mores & Hm & ->)%try_fold_concat. cbn [app]. rewrite (elem_of_mores _ _ _ _ Hm). clear Hm. split.
  - intros ([q x] & more & Hin%elem_of_iter_map & Hf & Hy). unfold open_input_request_item in Hf.
    apply (request_lookup events Hids) in Hin. case_bool_decide as Ha;
      [injection Hf as <-; by apply elem_of_nil in Hy|].
    rewrite <- eq_None_not_Some, (answer_lookup events Hids) in Ha.
    destruct (event_subject_revision_id (ior_event x)) as [[r|]|] eqn:Er; cbn [rbind] in Hf;
      [|injection Hf as <-; by apply elem_of_nil in Hy|done].
    injection Hf as <-. apply list_elem_of_singleton in Hy as ->. split; [by constructor|done].
  - intros [Ho Hk]. destruct Ho as [q x r Hq Ha Hr| | | | |]; try discriminate Hk.
    exists (q, x). eexists. rewrite elem_of_iter_map. split; [by apply request_lookup|].
    unfold open_input_request_item. rewrite (proj2 (answer_lookup events Hids q)) by done.
    rewrite bool_decide_false by (by intros [? ?]). rewrite Hr. cbn [rbind].
    split; [reflexivity|]. by apply list_elem_of_singleton.
Qed.

Lemma ambiguous_pass y :
  y ∈ ambiguous_assessment_items current sup [] ↔ outstanding y ∧ kind (ai_detail y) = 1.
Proof.
  unfold ambiguous_assessment_items. cbn [app]. rewrite elem_of_concat_fmap. split.
  - intros ([r peers] & Hin%elem_of_iter_map & Hy). apply (current_lookup events Hids) in Hin as [_ Hp].
    unfold ambiguous_assessment_item in Hy. destruct (length peers <? 2) eqn:El; [by apply elem_of_nil in Hy|].
    apply Nat.ltb_ge in El. destruct (bool_decide _ && _) eqn:Es; [by apply elem_of_nil in Hy|].
    apply list_elem_of_singleton in Hy as ->. split; [|done].
    destruct (max_string (ar_recorded_at <$> peers)) as [t|] eqn:Em.
    + cbn [from_option id]. apply outstanding_ambiguity; [done..| |by apply max_string_spec]. intros [Hs Ht].
      apply freshness_superseded in Hs. apply (thread_assessed events Hids) in Ht.
      by rewrite bool_decide_true, Ht in Es.
    + apply max_string_None in Em. destruct peers; [cbn in El; lia|done].
  - intros [Ho Hk]. destruct Ho as [|r peers t Hp Hl Hs Ht| | | |]; try discriminate Hk.
    exists (r, peers). assert (current !! r = Some peers) as Hc.
    { apply current_lookup; [done|]. split; [|done]. destruct peers as [|p peers]; [cbn in Hl; lia|].
      destruct (proj1 (po_standing _ _ _ _ Hp p)) as (x & Hx & _); [by left|].
      by eapply current_standing. }
    rewrite elem_of_iter_map. split; [done|]. unfold ambiguous_assessment_item.
    rewrite (proj2 (Nat.ltb_ge _ _)) by done. destruct (bool_decide _ && _) eqn:Es.
    + exfalso. apply andb_true_iff in Es as [Es%bool_decide_eq_true Et]. apply Hs.
      split; [by apply freshness_superseded|]. by apply (thread_assessed events Hids).
    + apply max_string_spec in Ht. rewrite Ht. by apply list_elem_of_singleton.
Qed.

Lemma stale_pass y :
  y ∈ stale_assessment_items current sup [] ↔ outstanding y ∧ kind (ai_detail y) = 3.
Proof.
  unfold stale_assessment_items. cbn [app]. rewrite elem_of_concat_fmap. split.
  - intros ([r peers] & Hin%elem_of_iter_map & Hy). apply (current_lookup events Hids) in Hin as [_ Hp].
    unfold stale_assessment_item in Hy. destruct (negb _) eqn:Ef; [by apply elem_of_nil in Hy|].
    apply negb_false_iff, bool_decide_eq_true, freshness_superseded in Ef.
    destruct (thread_heads_all_assessed _ _ _) eqn:Et; [by apply elem_of_nil in Hy|].
    apply list_elem_of_fmap in Hy as (z & -> & Hz). apply (po_standing _ _ _ _ Hp) in Hz as (x & Hx & ->).
    split; [|done]. apply (outstanding_stale events sup comp String.compare r x Hx Ef).
    rewrite <- (thread_assessed events Hids), Et. done.
  - intros [Ho Hk]. destruct Ho as [| | |r x Hx Hs Ht| |]; try discriminate Hk.
    destruct (current_standing events Hids r x Hx) as [peers Hc]. exists (r, peers).
    rewrite elem_of_iter_map. split; [done|]. apply (current_lookup events Hids) in Hc as [_ Hp].
    unfold stale_assessment_item. rewrite bool_decide_true by by apply freshness_superseded.
    cbn [negb]. rewrite <- (thread_assessed events Hids), not_true_iff_false in Ht. rewrite Ht.
    apply list_elem_of_fmap. exists (attention_record x). split; [done|].
    apply (po_standing _ _ _ _ Hp). eauto.
Qed.

Lemma follow_up_pass y :
  y ∈ follow_up_outstanding_items current (open_input_request_ids {|
    irp_request_records := request_map events; irp_responses := answer_map events |}) sup [] ↔
  outstanding y ∧ kind (ai_detail y) = 5.
Proof.
  set (opens := open_input_request_ids _).
  assert (∀ q, q ∈ opens ↔ (∃ x, first_record ior_event (openings events) q x) ∧ unanswered events q)
    as Hopens.
  { intros q. unfold opens, open_input_request_ids, set_of_list. cbn [irp_request_records irp_responses].
    rewrite elem_of_list_to_set, list_elem_of_filter, elem_of_map_keys, <- eq_None_not_Some.
    rewrite (answer_lookup events Hids). unfold is_Some. setoid_rewrite (request_lookup events Hids). tauto. }
  assert (∀ x, let linked := filter (λ id, id ∈ opens) (ar_related_input_request_ids (attention_record x)) in
    StronglySorted (cmp_lt String.compare) linked ∧
    ∀ q, q ∈ linked ↔ q ∈ ap_related_input_request_ids (aer_payload x) ∧
      (∃ y, first_record ior_event (openings events) q y) ∧ unanswered events q) as Hlinked.
  { intros x. cbn zeta. cbn [ar_related_input_request_ids attention_record].
    change (sorted_unique ?l) with (sorted_dedup l). rewrite sorted_dedup_iter. split.
    - apply filter_sorted, iter_set_sorted.
    - intros q. rewrite list_elem_of_filter, elem_of_iter_set, Hopens. unfold set_of_list.
      rewrite elem_of_list_to_set. tauto. }
  unfold follow_up_outstanding_items. cbn [app]. rewrite elem_of_concat_fmap. split.
  - intros ([r peers] & Hin%elem_of_iter_map & Hy). apply (current_lookup events Hids) in Hin as [_ Hp].
    cbn [fst snd] in Hy. apply elem_of_concat_fmap in Hy as (z & Hz & Hy).
    apply (po_standing _ _ _ _ Hp) in Hz as (x & Hx & ->). unfold follow_up_item in Hy.
    destruct (negb _) eqn:Ef; [by apply elem_of_nil in Hy|].
    apply negb_false_iff, bool_decide_eq_true in Ef. destruct (Hlinked x) as [Hs Hq]. cbn zeta in Hy.
    set (linked := filter _ _) in *. destruct linked as [|l0 linked'] eqn:El; [by apply elem_of_nil in Hy|].
    rewrite <- El in *. apply list_elem_of_singleton in Hy as ->. split; [|done].
    apply (outstanding_follow_up events sup comp String.compare r x linked Hx Ef); [done..|]. by rewrite El.
  - intros [Ho Hk]. destruct Ho as [| | | | |r x linked Hx Ha Hs Hq Hne]; try discriminate Hk.
    destruct (current_standing events Hids r x Hx) as [peers Hc]. exists (r, peers).
    rewrite elem_of_iter_map. split; [done|]. apply (current_lookup events Hids) in Hc as [_ Hp].
    cbn [fst snd]. apply elem_of_concat_fmap. exists (attention_record x).
    split; [apply (po_standing _ _ _ _ Hp); eauto|]. unfold follow_up_item.
    rewrite bool_decide_true by done. cbn [negb]. destruct (Hlinked x) as [Hs' Hq']. cbn zeta.
    assert (filter (λ id, id ∈ opens) (ar_related_input_request_ids (attention_record x)) = linked) as ->.
    { transitivity (iter_set (set_of_list linked)); [|symmetry]; apply iter_set_unique; try done;
        intros q; unfold set_of_list; rewrite elem_of_list_to_set; [|done]. by rewrite Hq', Hq. }
    destruct linked; [done|]. by apply list_elem_of_singleton.
Qed.

Definition capture_times : gmap RevisionId string :=
  ev_occurred_at <$> foldl (keep_first id) ∅ (captures events).

Lemma competing_ok C : ∃ more, competing_heads_item comp capture_times C = Ok more.
Proof using.
  clear Hids.
  unfold competing_heads_item. destruct (_ <? 2) eqn:El; [eauto|]. apply Nat.ltb_ge in El.
  destruct (iter_set C) as [|s l] eqn:Es; [|eauto]. exfalso.
  rewrite length_iter_set in El. pose proof (length_iter_set C) as Hl. rewrite Es in Hl.
  assert (size (C ∩ sv_heads comp) ≤ size C) by (apply subseteq_size; set_solver). cbn in Hl. lia.
Qed.

Lemma competing_pass out y :
  competing_heads_items comp capture_times [] = Ok out →
  y ∈ out ↔ outstanding y ∧ kind (ai_detail y) = 2.
Proof.
  unfold competing_heads_items. intros (mores & Hm & ->)%try_fold_concat. cbn [app].
  rewrite (elem_of_mores _ _ _ _ Hm). clear Hm.
  assert (∀ l : list RevisionId, omap (λ h, capture_times !! h) l = omap (λ h, ev_occurred_at <$>
    (foldl (keep_first id) ∅ (captures events) !! h)) l) as Ht.
  { intros l. unfold capture_times. induction l as [|h l IH]; [done|]. cbn. rewrite IH.
    by rewrite lookup_fmap. }
  split.
  - intros (C & more & HC & Hf & Hy). unfold competing_heads_item in Hf.
    destruct (_ <? 2) eqn:El; [injection Hf as <-; by apply elem_of_nil in Hy|]. apply Nat.ltb_ge in El.
    rewrite length_iter_set in El. destruct (iter_set C) as [|s l] eqn:Es; [done|]. injection Hf as <-.
    apply list_elem_of_singleton in Hy as ->. split; [|done].
    apply (outstanding_competition events sup comp String.compare C s); [done..| |].
    + by rewrite Es.
    + rewrite Ht. apply latest_default.
  - intros [Ho Hk]. destruct Ho as [| |C s t HC Hl Hs Hmax| | |]; try discriminate Hk.
    apply latest_default_eq in Hmax as ->.
    exists C. eexists. split; [done|]. unfold competing_heads_item.
    rewrite length_iter_set, (proj2 (Nat.ltb_ge _ _)) by done.
    destruct (iter_set C) as [|s' l]; [done|]. injection Hs as ->. split; [reflexivity|].
    apply list_elem_of_singleton. by rewrite Ht.
Qed.

Definition check_map : gmap ValidationCheckId ValidationRecord :=
  foldl (keep_first vr_event) ∅ (validations events).

Lemma check_lookup v x : check_map !! v = Some x ↔ first_record vr_event (validations events) v x.
Proof using Hids. by apply keep_first_lookup, validations_one. Qed.

Lemma elem_of_checks x :
  x ∈ map_values check_map ↔
  first_record vr_event (validations events) (vc_validation_check_id (vr_payload x)) x.
Proof using Hids.
  rewrite elem_of_values. setoid_rewrite check_lookup. split.
  - intros (v & Hv). by rewrite (validation_key events v x) by apply Hv.
  - eauto.
Qed.

Lemma elem_of_group g x :
  x ∈ default [] (group_validations check_map !! g) ↔ x ∈ map_values check_map ∧ check_group x = g.
Proof using. apply (group_by_spec check_group (map_values check_map) g). Qed.

(** The latest time of a group with a record that is not skipped. *)
Lemma group_max_spec g x :
  x ∈ default [] (group_validations check_map !! g) → vc_status (vr_payload x) ≠ VSkipped →
  group_max_time (default [] (group_validations check_map !! g)) = Some (sort_time x) ↔
  latest_of_group events String.compare x.
Proof using Hids.
  intros Hx Hs. unfold group_max_time, latest_of_group. rewrite max_string_spec.
  assert (∀ t, t ∈ sort_time <$> filter (λ r, vc_status (vr_payload r) ≠ VSkipped)
      (default [] (group_validations check_map !! g)) ↔
    ∃ y, (∃ v, first_record vr_event (validations events) v y) ∧ check_group y = check_group x ∧
      vc_status (vr_payload y) ≠ VSkipped ∧ t = sort_time y) as Ht.
  { pose proof Hx as [_ Hg]%elem_of_group. intros t. rewrite list_elem_of_fmap.
    setoid_rewrite list_elem_of_filter. setoid_rewrite elem_of_group. setoid_rewrite elem_of_values.
    setoid_rewrite check_lookup. rewrite Hg. split.
    - intros (y & -> & ? & ? & ?). exists y. auto.
    - intros (y & ? & ? & ? & ->). exists y. auto. }
  setoid_rewrite Ht. split.
  - intros [_ Hmax] v y Hv Hg Hy. apply Hmax. exists y. eauto 10.
  - intros Hlat. split.
    + apply elem_of_group in Hx as [Hx%elem_of_checks _]. exists x. eauto 10.
    + intros t (y & (v & Hv) & Hg & Hy & ->). by eapply Hlat.
Qed.

Lemma failing_not_skipped s : is_failing s = true → s ≠ VSkipped.
Proof using. by destruct s. Qed.

Lemma failed_pass y :
  y ∈ concat (failed_validation_group sup current <$> iter_map (group_validations check_map)) ↔
  outstanding y ∧ kind (ai_detail y) = 4.
Proof using Hids.
  rewrite elem_of_concat_fmap. split.
  - intros ([[[r tr] name] group] & Hin%elem_of_iter_map & Hy). unfold failed_validation_group in Hy.
    assert (default [] (group_validations check_map !! (r, tr, name)) = group) as Hg by by rewrite Hin.
    destruct (negb _) eqn:Eh; [by apply elem_of_nil in Hy|].
    apply negb_false_iff, bool_decide_eq_true in Eh.
    destruct (group_max_time group) as [t|] eqn:Em; [|by apply elem_of_nil in Hy]. cbn zeta in Hy.
    destruct (assessment_subsumes_failure _ _) eqn:Es; [by apply elem_of_nil in Hy|].
    apply elem_of_concat_fmap in Hy as (x & Hx & Hy). rewrite elem_of_sort_by in Hx.
    unfold failed_validation_item in Hy. destruct (String.eqb_spec (sort_time x) t) as [<-|]; cbn [negb] in Hy;
      [|by apply elem_of_nil in Hy].
    destruct (is_failing _) eqn:Ef; cbn [negb] in Hy; [|by apply elem_of_nil in Hy].
    apply list_elem_of_singleton in Hy as ->. split; [|done]. rewrite <- Hg in Hx, Em.
    pose proof Hx as [Hv%elem_of_checks Hgr]%elem_of_group. unfold check_group in Hgr.
    destruct (vc_target (vr_payload x)) as [r'] eqn:Et. injection Hgr as -> _ _.
    apply (outstanding_failure events sup comp String.compare _ x r); [done..| |].
    + eapply group_max_spec; [exact Hx|by apply failing_not_skipped|exact Em].
    + by rewrite <- (subsumes_spec events Hids), Es.
  - intros [Ho Hk]. destruct Ho as [| | | |v x r Hv Ht Hh Hf Hl Ha|]; try discriminate Hk.
    assert (x ∈ map_values check_map) as Hx by (apply elem_of_values; exists v; by apply check_lookup).
    assert (x ∈ default [] (group_validations check_map !! check_group x)) as Hg by by apply elem_of_group.
    destruct (group_validations check_map !! check_group x) as [group|] eqn:Eg;
      [|by apply elem_of_nil in Hg]. cbn in Hg.
    exists (check_group x, group). rewrite elem_of_iter_map. split; [done|].
    assert (group_max_time group = Some (sort_time x)) as Em.
    { pose proof (group_max_spec (check_group x) x) as Hm. rewrite Eg in Hm. cbn [from_option id] in Hm.
      apply Hm; [done|by apply failing_not_skipped|done]. }
    unfold failed_validation_group, check_group. rewrite Ht.
    rewrite bool_decide_true by done. cbn [negb]. rewrite Em. cbn zeta.
    rewrite <- (subsumes_spec events Hids), not_true_iff_false in Ha. rewrite Ha.
    apply elem_of_concat_fmap. exists x. split; [by apply elem_of_sort_by|].
    unfold failed_validation_item. rewrite String.eqb_refl, Hf. cbn [negb].
    rewrite (validation_key events v x) by apply Hv. by apply list_elem_of_singleton.
Qed.
End passes.

(** ** The projection *)

#[export] Instance item_cmp_total : TotalCmp item_cmp.
Proof.
  unfold item_cmp. apply cmp_then.
  - apply (cmp_pullback (λ i, tier_rank (ai_tier i)) Nat.compare), _.
  - apply cmp_then; [apply (cmp_pullback ai_observed_at), _|apply (cmp_pullback ai_id), _].
Qed.

Section projection.
Context `{Decoders} `{ReviewDecoders}.

Abbreviation views legacy changes := (change_aware_supersession legacy changes).

(** The items of every pass, before the sort. *)
Definition all_items (events : list ShoreEvent) (sup : SupersessionView)
    (opens competing : list AttentionItem) : list AttentionItem :=
  opens ++ ambiguous_assessment_items (current_assessments events) sup [] ++ competing ++
  stale_assessment_items (current_assessments events) sup [] ++
  concat (failed_validation_group sup (current_assessments events) <$>
    iter_map (group_validations (check_map events))) ++
  follow_up_outstanding_items (current_assessments events) (open_input_request_ids {|
    irp_request_records := request_map events; irp_responses := answer_map events |}) sup [].

Definition scoped (scope : option RevisionId) (sup : SupersessionView) (items : list AttentionItem)
    : list AttentionItem :=
  match scope with Some scope => scope_attention_items items scope sup | None => items end.

Lemma attention_gathers events scope changes p :
  attention_from_events_with_changes events scope changes = Ok p ↔
  ∃ legacy opens competing,
    SupersessionView_from_events events = Ok legacy ∧ readable_events events ∧
    let sup := as_replacement (views legacy changes) in
    open_input_request_items {| irp_request_records := request_map events;
      irp_responses := answer_map events |} sup [] = Ok opens ∧
    competing_heads_items (as_competition (views legacy changes)) (capture_times events) [] =
      Ok competing ∧
    p = {| apj_items := sort_items (scoped scope sup (all_items events sup opens competing));
           apj_diagnostics := sv_diagnostics sup |}.
Proof.
  assert (∀ comp times items out, competing_heads_items comp times items = Ok out ↔
    ∃ more, competing_heads_items comp times [] = Ok more ∧ out = items ++ more) as Hcomp.
  { intros. apply try_fold_from. }
  unfold attention_from_events_with_changes. rewrite bind_Ok. cbn zeta. split.
  - intros (legacy & Hl & Hp). exists legacy.
    apply bind_Ok in Hp as (cur & Hc & Hp). apply bind_Ok in Hc as (nested & Hn & [= <-]).
    apply collect_assessments_spec in Hn as [Hj ->].
    apply bind_Ok in Hp as (times & [Hcap ->]%captured_at_map_spec & Hp).
    apply bind_Ok in Hp as (records & Hr & Hp).
    apply bind_Ok in Hr as (s & [Hq ->]%collect_requests_spec & [= <-]).
    apply bind_Ok in Hp as (opens & Ho & Hp). exists opens.
    apply bind_Ok in Hp as (items & (competing & Hcm & ->)%Hcomp & Hp). exists competing.
    apply bind_Ok in Hp as (items & Hf & [= <-]).
    apply bind_Ok in Hf as (checks & [Hv ->]%validation_records_spec & [= <-]).
    split_and!; [done| |done..|].
    + split; [intros e He; by apply Hq..|done|done|done].
    + do 2 f_equal. unfold all_items, ambiguous_assessment_items, stale_assessment_items,
        follow_up_outstanding_items. cbn [app]. unfold scoped. by rewrite <- !app_assoc.
  - intros (legacy & opens & competing & Hl & [Hq1 Hq2 Hv Hcap Hj] & Ho & Hc & ->). exists legacy.
    split; [done|]. unfold current_assessment_records_by_revision.
    rewrite (proj2 (collect_assessments_spec events _)) by done. cbn [rbind].
    rewrite (proj2 (captured_at_map_spec events _)) by done. cbn [rbind].
    unfold collect_input_request_projection_records.
    rewrite (proj2 (collect_requests_spec events _ _)) by (split; [intros e He; auto|done]). cbn [rbind].
    apply bind_Ok. exists opens. split; [done|].
    apply bind_Ok. eexists. split; [apply Hcomp; eauto|]. unfold failed_validation_items.
    rewrite (proj2 (validation_records_spec events _)) by done. cbn [rbind].
    do 3 f_equal. unfold all_items, ambiguous_assessment_items, stale_assessment_items,
        follow_up_outstanding_items. cbn [app]. unfold scoped. by rewrite <- !app_assoc.
Qed.

Lemma all_items_spec events sup comp opens competing y (Hids : NoDup (ev_event_id <$> events)) :
  open_input_request_items {| irp_request_records := request_map events;
    irp_responses := answer_map events |} sup [] = Ok opens →
  competing_heads_items comp (capture_times events) [] = Ok competing →
  y ∈ all_items events sup opens competing ↔ outstanding events sup comp String.compare y.
Proof.
  intros Ho Hc. unfold all_items. rewrite !elem_of_app.
  rewrite (open_pass events Hids sup comp _ _ Ho), (ambiguous_pass events Hids sup comp),
    (competing_pass events sup comp _ _ Hc), (stale_pass events Hids sup comp),
    (failed_pass events Hids sup comp), (follow_up_pass events Hids sup comp).
  assert (kind (ai_detail y) = 0 ∨ kind (ai_detail y) = 1 ∨ kind (ai_detail y) = 2 ∨
    kind (ai_detail y) = 3 ∨ kind (ai_detail y) = 4 ∨ kind (ai_detail y) = 5) as Hk
    by (destruct (ai_detail y); auto 10).
  tauto.
Qed.

(** A decoded opening has a subject. *)
Lemma opened_subject events q x :
  first_record ior_event (openings events) q x →
  event_subject_revision_id (ior_event x) = Ok (subject_revision_id
    match io_task_target (ior_payload x) with
    | Some task_target => TargetTask task_target
    | None => TargetReview (io_target (ior_payload x))
    end) ∧ io_input_request_id (ior_payload x) = q.
Proof.
  intros [Hin _]. unfold openings in Hin. apply list_elem_of_omap in Hin as (e & _ & E). revert E.
  unfold yield, opening, of_type. case_bool_decide as Ht; [|done].
  destruct (decode_input_request_opened_payload (ev_payload e)) as [p|] eqn:Ed; [|done]. cbn [rbind].
  destruct (et_track_id (ev_target e)); [|done]. cbn [ok_or rbind]. intros [= <- <-]. cbn.
  unfold event_subject_revision_id, reconstruct_subject. rewrite Ht, Ed. done.
Qed.

(** The proposals the captures read are those the supersession view reads. *)
Lemma captures_supersession events :
  (∀ e, e ∈ events → is_ok (capture e) = true) → ∃ view, SupersessionView_from_events events = Ok view.
Proof.
  intros Hc. unfold SupersessionView_from_events. eexists. apply bind_Ok. eexists. split; [|done].
  apply (try_fold_collect proposal_edge). split; [|reflexivity].
  intros e [Ht He]%list_elem_of_filter. specialize (Hc e He). revert Hc.
  unfold capture, of_type, proposal_edge. rewrite bool_decide_true by done.
  destruct (from_work_object_proposed (ev_payload e)) as [w|]; [|done]. cbn [rbind].
  by destruct (wo_work_object w).
Qed.

Lemma attention_ok events scope changes :
  is_ok (attention_from_events_with_changes events scope changes) = true ↔ readable_events events.
Proof.
  assert (readable_events events → ∀ sup, is_ok (open_input_request_items {|
      irp_request_records := request_map events; irp_responses := answer_map events |} sup []) = true)
    as Hopens.
  { intros Hr sup. apply try_fold_is_ok. intros [q x] Hq%elem_of_iter_map. unfold open_input_request_item.
    case_bool_decide; [done|]. pose proof (keep_first_spec ior_event (openings events) q) as Hf.
    cbn in Hq. unfold request_map in Hq. rewrite Hq in Hf. apply opened_subject in Hf as [-> _].
    by destruct (subject_revision_id _). }
  assert (∀ comp, is_ok (competing_heads_items comp (capture_times events) []) = true) as Hcomp.
  { intros comp. apply try_fold_is_ok. intros C _. by destruct (competing_ok events comp C) as [? ->]. }
  rewrite is_ok_ex. setoid_rewrite attention_gathers. split.
  - by intros (p & legacy & opens & competing & Hl & Hr & _).
  - intros Hr. destruct (captures_supersession events (re_capture _ Hr)) as [legacy Hl].
    set (v := views legacy changes).
    pose proof (Hopens Hr (as_replacement v)) as [opens Ho]%is_ok_ex.
    pose proof (Hcomp (as_competition v)) as [competing Hc]%is_ok_ex.
    eexists _, legacy, opens, competing. eauto.
Qed.

(** *** Reordering *)

Lemma supersession_perm events events' view :
  events ≡ₚ events' → SupersessionView_from_events events = Ok view →
  SupersessionView_from_events events' = Ok view.
Proof.
  intros Hp. unfold SupersessionView_from_events. rewrite !bind_Ok.
  intros (edges & [Hok ->]%(try_fold_collect proposal_edge) & [= <-]). cbn [app].
  exists (omap (yield proposal_edge) (filter (λ e, ev_event_type e = WorkObjectProposed) events')).
  split.
  - apply (try_fold_collect proposal_edge). split; [|done]. by setoid_rewrite <- Hp.
  - f_equal. apply from_edges_order_independent; unfold knows, declares; by setoid_rewrite Hp.
Qed.

Lemma readable_perm events events' : events ≡ₚ events' → readable_events events → readable_events events'.
Proof. intros Hp [? ? ? ? ?]. split; intros e; rewrite <- Hp; auto. Qed.

Section reordered.
Context (events events' : list ShoreEvent).
Context (Hp : events ≡ₚ events') (Hids : NoDup (ev_event_id <$> events)).

Lemma request_map_perm : request_map events = request_map events'.
Proof. apply keep_first_perm; [by apply omap_Permutation|by apply openings_one]. Qed.

Lemma answer_map_perm : answer_map events = answer_map events'.
Proof.
  unfold answer_map. f_equal. apply keep_first_perm; [by apply omap_Permutation|by apply responses_one].
Qed.

Lemma check_map_perm : check_map events = check_map events'.
Proof. apply keep_first_perm; [by apply omap_Permutation|by apply validations_one]. Qed.

Lemma capture_times_perm : capture_times events = capture_times events'.
Proof.
  unfold capture_times. f_equal. apply keep_first_perm; [by apply omap_Permutation|by apply captures_one].
Qed.

Lemma current_assessments_perm : current_assessments events = current_assessments events'.
Proof.
  unfold current_assessments. f_equal. apply map_eq. intros r.
  destruct (nest_spec (judgments events) r) as [Hs Hl].
  destruct (nest_spec (judgments events') r) as [Hs' Hl'].
  assert (foldl (keep_first aer_event) ∅ (judgments events) =
    foldl (keep_first aer_event) ∅ (judgments events')) as Heq.
  { apply keep_first_perm; [by apply omap_Permutation|by apply judgments_one]. }
  assert ((∃ a x, (r, a, x) ∈ judgments events) ↔ ∃ a x, (r, a, x) ∈ judgments events') as Hin.
  { unfold judgments. by setoid_rewrite Hp. }
  rewrite Hin, <- Hs' in Hs. rewrite Heq in Hl.
  destruct (foldl nest ∅ (judgments events) !! r) as [m|], (foldl nest ∅ (judgments events') !! r) as [m'|].
  - f_equal. apply map_eq. intros a. cbn in Hl, Hl'. by rewrite Hl, Hl'.
  - by destruct (proj1 Hs).
  - by destruct (proj2 Hs).
  - done.
Qed.

Lemma attention_perm scope changes p :
  attention_from_events_with_changes events scope changes = Ok p →
  attention_from_events_with_changes events' scope changes = Ok p.
Proof.
  rewrite !attention_gathers. intros (legacy & opens & competing & Hl & Hr & Ho & Hc & ->).
  exists legacy, opens, competing. unfold all_items in *.
  rewrite <- request_map_perm, <- answer_map_perm, <- check_map_perm, <- capture_times_perm,
    <- current_assessments_perm.
  split_and!; [by eapply supersession_perm|by eapply readable_perm|done..].
Qed.
End reordered.
End projection.

(** ** Properties *)

(** The times the log records: of its events, and of the checks it decodes. *)
Definition recorded_times `{Decoders} `{ReviewDecoders} (events : list ShoreEvent) : list string :=
  (ev_occurred_at <$> events) ++ ((λ p, sort_time p.2) <$> validations events).

(** The byte order of the recorded times is the order of their instants. *)
Definition times_agree `{Decoders} `{ReviewDecoders} (events : list ShoreEvent) : Prop :=
  ∀ a b, a ∈ recorded_times events → b ∈ recorded_times events →
    String.compare a b = compare_event_instants a b.

(** So it is when every time has the form the program records: the printed instant. *)
Lemma printed_times_agree `{Decoders} `{ReviewDecoders} events :
  (∀ t, t ∈ recorded_times events → ∃ i, four_digit_year i ∧ t = format_rfc3339_utc_millis i) →
  times_agree events.
Proof.
  intros Hall a b (i & Hi & ->)%Hall (j & Hj & ->)%Hall. unfold compare_event_instants.
  rewrite (proj2 (parse_format_roundtrip i Hi)), (proj2 (parse_format_roundtrip j Hj)).
  by apply format_lexical_order.
Qed.

Section chronology.
Context `{Decoders} `{ReviewDecoders}.
Context (events : list ShoreEvent) (cmp cmp' : string → string → comparison).
Context (Hcmp : ∀ a b, a ∈ recorded_times events → b ∈ recorded_times events → cmp a b = cmp' a b).

Lemma event_time e : e ∈ events → ev_occurred_at e ∈ recorded_times events.
Proof using. intros He. apply elem_of_app. left. by apply list_elem_of_fmap_2. Qed.

Lemma check_time v x :
  first_record vr_event (validations events) v x → sort_time x ∈ recorded_times events.
Proof using.
  intros [Hx _]. apply elem_of_app. right. apply list_elem_of_fmap. by exists (v, x).
Qed.

Lemma peer_time r (peers : list AttentionAssessmentRecord) y :
  (∀ y, y ∈ peers ↔ ∃ x, standing events r x ∧ y = attention_record x) → y ∈ peers →
  ar_recorded_at y ∈ recorded_times events.
Proof using.
  intros Hp (x & (a & [Hx _] & _) & ->)%Hp. cbn [attention_record ar_recorded_at].
  by apply event_time, (judgments_recorded events (r, a)).
Qed.

Lemma latest_ext l t : (∀ x, x ∈ l → x ∈ recorded_times events) → latest cmp l t → latest cmp' l t.
Proof using Hcmp. intros Hl [Ht Hmax]. split; [done|]. intros x Hx. rewrite <- Hcmp by auto. auto. Qed.

Lemma peers_of_ext r peers : peers_of events cmp r peers → peers_of events cmp' r peers.
Proof using Hcmp.
  intros [Hs Hd Hp]. split; [|done..].
  assert (∀ y, y ∈ peers → ar_recorded_at y ∈ recorded_times events) as Hin
    by (intros y; by apply (peer_time r)).
  clear Hd Hp.
  induction Hs as [|y peers Hs IH Hy]; constructor.
  - apply IH. intros z Hz. apply Hin. by right.
  - rewrite Forall_forall in *. intros z Hz. specialize (Hy z Hz). unfold cmp_le, peer_order in *.
    by rewrite <- Hcmp by (apply Hin; set_solver).
Qed.

Lemma capture_times_recorded X t : t ∈ capture_times_of events X → t ∈ recorded_times events.
Proof using.
  unfold capture_times_of. rewrite list_elem_of_omap. intros (h & _ & (e & He & ->)%fmap_Some).
  apply event_time. by eapply captures_recorded, keep_first_elem.
Qed.

Lemma outstanding_ext sup comp y :
  outstanding events sup comp cmp y → outstanding events sup comp cmp' y.
Proof using Hcmp.
  intros [q x r Hq Ha Hr|r peers t Hp Hl Hs Ht|C sm t HC Hl Hs Ht|r x Hx Hs Ht|v x r Hv Ht Hh Hf Hl Ha|
    r x linked Hx Ha Hs Hq Hne].
  - by constructor.
  - constructor; [by apply peers_of_ext|done|done|]. eapply latest_ext, Ht.
    intros z (p & -> & Hin)%list_elem_of_fmap. eapply peer_time, Hin. apply Hp.
  - apply (outstanding_competition _ _ _ _ C sm); [done..|].
    destruct Ht as [Ht|Ht]; [left|by right]. eapply latest_ext, Ht. apply capture_times_recorded.
  - by constructor.
  - apply (outstanding_failure _ _ _ _ v x r); [done..| |done]. intros w z Hw Hg Hz.
    rewrite <- Hcmp by (by eapply check_time). by apply (Hl w).
  - by apply (outstanding_follow_up _ _ _ _ r x linked).
Qed.
End chronology.

(** The item concerns the revision a read is scoped to. *)
Definition covers (sup : SupersessionView) (scope : RevisionId) (item : AttentionItem) : Prop :=
  item_covers_scope item scope (component_of sup scope) = true.

#[export] Instance covers_dec sup scope item : Decision (covers sup scope item).
Proof. unfold covers. apply _. Defined.


(** C22. Attention can be read exactly when its events can: the projection succeeds, for
    every scope and Change projection, if and only if every opening, response, check,
    capture and judgment in the log decodes and carries the track it needs. In
    particular the expectation that a competing component has a smallest revision is
    never violated, and decoding the captures is enough for the supersession view. *)
Theorem attention_reads `{Decoders} `{ReviewDecoders} events scope changes :
  is_ok (attention_from_events_with_changes events scope changes) = true ↔ readable_events events.
Proof. apply attention_ok. Qed.

(** The attention list does not depend on the order of the log: every permutation of
    a log with distinct event ids lists the same items, in the same order, with the same
    event-set hash and diagnostics, for every scope. *)
Theorem attention_order_independent `{DigestLaws} `{Decoders} `{ReviewDecoders}
    revision events events' skipped out
    (Hp : events ≡ₚ events') (Hids : NoDup (ev_event_id <$> events))
    (Hreq : requests_agree events) (Hfree : collision_free events)
    (Hout : list_attention_from_events revision events skipped = Ok out) :
  list_attention_from_events revision events' skipped = Ok out.
Proof.
  unfold list_attention_from_events, attention_from_events in *.
  apply bind_Ok in Hout as (h & Hh & Hout). apply bind_Ok in Hout as (p & Hpr & [= <-]).
  apply bind_Ok in Hpr as (changes & Hc & Ha).
  rewrite <- (event_set_hash_perm _ _ Hp), Hh. cbn [rbind].
  rewrite (project_changes_perm events events' changes) by done. cbn [rbind].
  rewrite (attention_perm events events' Hp Hids revision changes p Ha). cbn [rbind]. by rewrite Hp.
Qed.

(** *** Witnesses: a request, two judgments and a failed check *)

Module Log.
Definition failure {A} : result A := Err (InvalidEvent "payload").
Definition id_of {A} (v : json) (f : string → A) : result A :=
  match v with JString i => Ok (f i) | _ => failure end.

#[local] Instance decoders : Decoders := {|
  from_work_object_proposed := λ v, id_of v (λ i, {| wo_engagement_id := "engagement:e";
    wo_work_object := ProposeRevision {| rv_id := i; rv_object_id := "obj:o";
      rv_git_provenance := None |} None "sha256:a" [] |});
  from_change_declared := λ _, failure; from_membership_asserted := λ _, failure;
  from_membership_withdrawn := λ _, failure; from_relation_asserted := λ _, failure;
  from_relation_withdrawn := λ _, failure; from_link_asserted := λ _, failure;
  from_assessment_recorded := λ v, id_of v (λ i, {| ap_assessment_id := i;
    ap_target := TRevision "rev:a"; ap_assessment := Accepted; ap_summary := None;
    ap_summary_content_type := TextPlain; ap_summary_artifact_path := None;
    ap_summary_byte_size := None; ap_summary_content_hash := None;
    ap_replaces_assessment_ids := []; ap_related_observation_ids := [];
    ap_related_input_request_ids := [] |});
  from_input_request_opened := λ v, id_of v (λ i, {| io_input_request_id := i;
    io_target := TRevision "rev:a"; io_task_target := None; io_reason_code := FailedGate;
    io_title := "t"; io_body := None; io_body_content_type := TextPlain;
    io_body_artifact_path := None; io_body_byte_size := None; io_body_content_hash := None;
    io_target_fingerprint := None |});
  from_input_request_responded := λ v, id_of v (λ i, {| ir_input_request_response_id := i;
    ir_input_request_id := "input:1"; ir_revision_id := None; ir_task_target := None;
    ir_outcome := OApproved; ir_reason := None; ir_reason_content_type := TextPlain;
    ir_reason_artifact_path := None; ir_reason_byte_size := None; ir_reason_content_hash := None;
    ir_target_fingerprint := None |});
  from_fact_ported := λ _, failure
|}.

(** A check passes when its id says so. *)
#[local] Instance review_decoders : ReviewDecoders := {|
  from_commit_associated := λ _, failure; from_commit_withdrawn := λ _, failure;
  from_ref_associated := λ _, failure; from_ref_withdrawn := λ _, failure;
  from_observation_recorded := λ _, failure; from_relation_attested := λ _, failure;
  from_validation_recorded := λ v, id_of v (λ i, {| vc_validation_check_id := i;
    vc_target := VRevision "rev:a"; vc_check_name := "test"; vc_command := None;
    vc_status := if String.eqb i "check:passed" then VPassed else VFailed; vc_exit_code := None;
    vc_trigger := VManual; vc_source_fingerprint := None; vc_summary := None;
    vc_summary_content_type := TextPlain; vc_summary_artifact_path := None;
    vc_summary_byte_size := None; vc_summary_content_hash := None; vc_started_at := None;
    vc_completed_at := None; vc_log_artifact_content_hashes := [] |});
  from_checkpoint_captured := λ _, failure; from_task_observation := λ _, failure
|}.

Definition event (id : EventId) (t : EventType) (time payload : string) : ShoreEvent := {|
  ev_schema := EVENT_SCHEMA; ev_version := EVENT_VERSION; ev_event_id := id;
  ev_event_type := t; ev_idempotency_key := id;
  ev_target := {| et_journal_id := "journal:j"; et_subject_id := None; et_track_id := Some "track:t" |};
  ev_writer := shore_local "0.1"; ev_occurred_at := time;
  ev_payload_hash := "sha256:0"; ev_assertion_mode := Operative; ev_signer := None;
  ev_signature := None; ev_source_ref := None; ev_ingest := None; ev_content_encoding := [];
  ev_payload_version := 1; ev_payload := JString payload |}.

Definition day (d : string) : string := "2025-01-0" +:+ d +:+ "T00:00:00.000Z".

Definition log : list ShoreEvent :=
  [event "evt:1" WorkObjectProposed (day "1") "rev:a";
   event "evt:2" InputRequestOpened (day "4") "input:1";
   event "evt:3" ReviewAssessmentRecorded (day "2") "assess:1";
   event "evt:4" ReviewAssessmentRecorded (day "3") "assess:2";
   event "evt:5" ValidationCheckRecorded (day "5") "check:failed"].

Definition no_changes : ChangeProjection := {| cp_changes := ∅; cp_links := [] |}.
Definition no_items : AttentionProjection := {| apj_items := []; apj_diagnostics := [] |}.
Definition listed (events : list ShoreEvent) : AttentionProjection :=
  ok_value no_items (attention_from_events_with_changes events None no_changes).
Definition legacy (events : list ShoreEvent) : SupersessionView :=
  ok_value (from_edges []) (SupersessionView_from_events events).

Lemma log_distinct : NoDup (ev_event_id <$> log).
Proof. apply (bool_decide_unpack _). vm_compute. exact I. Qed.

Lemma log_times : times_agree log.
Proof.
  assert (Forall (λ a, Forall (λ b, String.compare a b = compare_event_instants a b)
    (recorded_times log)) (recorded_times log)) as Hall.
  { apply (bool_decide_unpack _). vm_compute. exact I. }
  intros a b Ha Hb. rewrite Forall_forall in Hall. specialize (Hall a Ha).
  rewrite Forall_forall in Hall. by apply Hall.
Qed.


Lemma log_requests_agree : @requests_agree mixing_digest decoders log.
Proof.
  assert (∀ e, e ∈ log → ev_event_type e = InputRequestOpened →
    e = event "evt:2" InputRequestOpened (day "4") "input:1") as Hone.
  { intros e He Ht. unfold log in He.
    repeat (apply elem_of_cons in He as [->|He]; [first [discriminate Ht|reflexivity]|]).
    by apply elem_of_nil in He. }
  intros e e' q r r' He He' E E'.
  rewrite (Hone e He (event_request _ _ _ E)) in E.
  rewrite (Hone e' He' (event_request _ _ _ E')) in E'. congruence.
Qed.

Definition log_list : AttentionListResult :=
  ok_value {| alr_event_set_hash := ""; alr_event_count := 0; alr_revision := None; alr_items := [];
    alr_diagnostics := [] |} (@list_attention_from_events mixing_digest _ _ (Some "rev:a") log []).

Lemma attention_order_independent_witness :
  length (alr_items log_list) = 3 ∧
  @list_attention_from_events mixing_digest _ _ (Some "rev:a") (reverse log) [] = Ok log_list.
Proof.
  split; [vm_compute; reflexivity|].
  apply (@attention_order_independent mixing_digest mixing_digest_laws decoders review_decoders
    (Some "rev:a") log (reverse log) [] log_list).
  - by rewrite reverse_Permutation.
  - exact log_distinct.
  - exact log_requests_agree.
  - apply (@distinct_collision_free mixing_digest mixing_digest_laws decoders),
      (bool_decide_unpack _). vm_compute. exact I.
  - apply is_ok_value. vm_compute. reflexivity.
Defined.

(** The latest check of a group is found by comparing the recorded strings. The two
    forms a time may have do not compare by instant: a check that passed in 1970, its
    time in the millisecond form, hides the same check's failure of 2025. *)
Definition mixed_forms : list ShoreEvent :=
  [event "evt:1" WorkObjectProposed (day "1") "rev:a";
   event "evt:2" ValidationCheckRecorded "unix-ms:0" "check:passed";
   event "evt:3" ValidationCheckRecorded (day "5") "check:failed"].

Lemma lexical_time_hides_failure :
  compare_event_instants "unix-ms:0" (day "5") = Lt ∧
  is_ok (attention_from_events_with_changes mixed_forms None no_changes) = true ∧
  apj_items (listed mixed_forms) = [] ∧
  apj_items (listed (filter (λ e, ev_event_id e ≠ "evt:2") mixed_forms)) ≠ [].
Proof. split_and!; vm_compute; done. Qed.

(** A response with neither a revision nor a task target is read by the projection and
    refused by the selection of a scoped fold. *)
Definition bare_response : list ShoreEvent :=
  [event "evt:1" WorkObjectProposed (day "1") "rev:a";
   event "evt:2" InputRequestOpened (day "2") "input:1";
   event "evt:3" InputRequestResponded (day "3") "response:1"].

Lemma bare_response_refused :
  attention_from_events_with_changes bare_response None no_changes = Ok no_items ∧
  is_ok (attention_events_for_revisions bare_response {["rev:a"]}) = false.
Proof. split; vm_compute; reflexivity. Qed.
End Log.
