(* ===== verification/CommitRange.v ===== *)
(** * Commit ranges of revisions ([src/src/session/projection/commit_range.rs])

    The git-free fold of proposals, associations and withdrawals into a view per
    revision: which commits and refs it currently claims, which it withdrew, and the
    diagnostics of withdrawals without association and of rewritten landings. *)

From S2P Require Import Prelude RustStr BTree Model Acknowledgement CanonicalHash Crypto Events.
From S2P Require Import ChangeClaims Relations Payloads Wire Subjects.

Definition REWRITTEN_COMMIT_ASSOCIATION_CODE : string := "rewritten_commit_association".
Definition RETRACTION_TARGET_MISSING_CODE : string := "retraction_target_missing".

Inductive CommitEdgeSource := CaptureTarget | Association.

#[export] Instance CommitEdgeSource_eq_dec : EqDecision CommitEdgeSource.
Proof. solve_decision. Defined.

Record CurrentCommitAssociation := {
  ce_commit_oid : string;
  ce_tree_oid : string;
  ce_commit_association_id : option CommitAssociationId;
  ce_source : CommitEdgeSource
}.

Record CurrentRefAssociation := {
  re_ref_association_id : RefAssociationId;
  re_ref_name : string;
  re_head_oid : string
}.

Record WithdrawnCommitAssociation := {
  wc_commit_oid : string;
  wc_tree_oid : string;
  wc_commit_association_id : CommitAssociationId;
  wc_commit_withdrawal_id : CommitWithdrawalId
}.

Record WithdrawnRefAssociation := {
  wr_ref_association_id : RefAssociationId;
  wr_ref_name : string;
  wr_head_oid : string;
  wr_ref_withdrawal_id : RefWithdrawalId
}.

Record RevisionCommitRangeView := {
  crv_revision_id : RevisionId;
  crv_anchored : bool;
  crv_current_commits : list CurrentCommitAssociation;
  crv_current_refs : list CurrentRefAssociation;
  crv_withdrawn_commits : list WithdrawnCommitAssociation;
  crv_withdrawn_refs : list WithdrawnRefAssociation;
  crv_diagnostics : list ProjectionDiagnostic
}.

Record RevisionCommitRangeProjection := { cu_units : gmap string RevisionCommitRangeView }.

(** ** Builders *)

Record CommitRangeBuilder := {
  cb_capture_target : option (string * string);
  cb_associated_commits : gmap string (string * string);
  cb_withdrawn_commits : gmap string string;
  cb_associated_refs : gmap string (string * string);
  cb_withdrawn_refs : gmap string string
}.

Definition builder_default : CommitRangeBuilder := {|
  cb_capture_target := None; cb_associated_commits := ∅; cb_withdrawn_commits := ∅;
  cb_associated_refs := ∅; cb_withdrawn_refs := ∅ |}.

Definition set_capture_target (t : option (string * string)) (b : CommitRangeBuilder) := {|
  cb_capture_target := t; cb_associated_commits := cb_associated_commits b;
  cb_withdrawn_commits := cb_withdrawn_commits b; cb_associated_refs := cb_associated_refs b;
  cb_withdrawn_refs := cb_withdrawn_refs b |}.

Definition insert_commit (id : string) (c : string * string) (b : CommitRangeBuilder) := {|
  cb_capture_target := cb_capture_target b;
  cb_associated_commits := <[id := c]> (cb_associated_commits b);
  cb_withdrawn_commits := cb_withdrawn_commits b; cb_associated_refs := cb_associated_refs b;
  cb_withdrawn_refs := cb_withdrawn_refs b |}.

Definition withdraw_commit (id w : string) (b : CommitRangeBuilder) := {|
  cb_capture_target := cb_capture_target b; cb_associated_commits := cb_associated_commits b;
  cb_withdrawn_commits := <[id := w]> (cb_withdrawn_commits b);
  cb_associated_refs := cb_associated_refs b; cb_withdrawn_refs := cb_withdrawn_refs b |}.

Definition insert_ref (id : string) (r : string * string) (b : CommitRangeBuilder) := {|
  cb_capture_target := cb_capture_target b; cb_associated_commits := cb_associated_commits b;
  cb_withdrawn_commits := cb_withdrawn_commits b;
  cb_associated_refs := <[id := r]> (cb_associated_refs b);
  cb_withdrawn_refs := cb_withdrawn_refs b |}.

Definition withdraw_ref (id w : string) (b : CommitRangeBuilder) := {|
  cb_capture_target := cb_capture_target b; cb_associated_commits := cb_associated_commits b;
  cb_withdrawn_commits := cb_withdrawn_commits b; cb_associated_refs := cb_associated_refs b;
  cb_withdrawn_refs := <[id := w]> (cb_withdrawn_refs b) |}.

(** [builders.entry(id).or_default()], then the update. *)
Definition at_builder (id : RevisionId) (f : CommitRangeBuilder → CommitRangeBuilder)
    (m : gmap string CommitRangeBuilder) : gmap string CommitRangeBuilder :=
  <[id := f (default builder_default (m !! id))]> m.

Definition revision_of (target : ReviewTargetRef) : option RevisionId :=
  match target with TRevision revision_id => Some revision_id | _ => None end.

Record AxisPartition (V W : Type) := {
  ax_current : list (string * V);
  ax_withdrawn : list (string * V * W);
  ax_missing_targets : list string
}.
Arguments ax_current {_ _} _.
Arguments ax_withdrawn {_ _} _.
Arguments ax_missing_targets {_ _} _.

(** The loop of [partition_axis]: what is current, what is withdrawn, and the
    withdrawals not used yet. *)
Definition partition_step {V W} (acc : list (string * V) * list (string * V * W) * gmap string W)
    (p : string * V) : list (string * V) * list (string * V * W) * gmap string W :=
  let '(current, history, withdrawn) := acc in
  match withdrawn !! p.1 with
  | Some w => (current, history ++ [(p.1, p.2, w)], delete p.1 withdrawn)
  | None => (current ++ [p], history, withdrawn)
  end.

Definition partition_axis {V W} (associated : gmap string V) (withdrawn : gmap string W)
    : AxisPartition V W :=
  let '(current, history, rest) :=
    fold_left partition_step (iter_map associated) ([], [], withdrawn) in
  {| ax_current := current; ax_withdrawn := history; ax_missing_targets := map_keys rest |}.

Definition range_diagnostic (code message : string) : ProjectionDiagnostic :=
  {| pd_code := code; pd_message := message |}.

Definition missing_diagnostic (revision_id : RevisionId) (missing : string)
    : ProjectionDiagnostic :=
  range_diagnostic RETRACTION_TARGET_MISSING_CODE
    ("revision " +:+ revision_id +:+ " withdraws association " +:+ missing +:+
     ", which has no matching association").

(** The commit oids of each tree among the association edges. *)
Definition oids_by_tree (commits : list CurrentCommitAssociation) : gmap string (gset string) :=
  foldl (λ m c, entry_extend m (ce_tree_oid c) {[ce_commit_oid c]}) ∅
    (List.filter (λ c, bool_decide (ce_source c = Association)) commits).

Definition rewritten_diagnostics (revision_id : RevisionId)
    (commits : list CurrentCommitAssociation) : list ProjectionDiagnostic :=
  omap (λ p, if 1 <? size p.2
    then Some (range_diagnostic REWRITTEN_COMMIT_ASSOCIATION_CODE
      ("revision " +:+ revision_id +:+ " has " +:+ dec (Z.of_nat (size p.2)) +:+
       " content-equivalent commit associations for tree " +:+ p.1 +:+
       " — a rewritten landing; withdraw the stale edge"))
    else None) (iter_map (oids_by_tree commits)).

Definition finish_builder (self : CommitRangeBuilder) (revision_id : RevisionId)
    : RevisionCommitRangeView :=
  let commit_axis := partition_axis (cb_associated_commits self) (cb_withdrawn_commits self) in
  let ref_axis := partition_axis (cb_associated_refs self) (cb_withdrawn_refs self) in
  let seed := match cb_capture_target self with
    | Some (commit_oid, tree_oid) =>
        [{| ce_commit_oid := commit_oid; ce_tree_oid := tree_oid;
            ce_commit_association_id := None; ce_source := CaptureTarget |}]
    | None => []
    end in
  let current_commits := sort_by (λ l r, String.compare (ce_commit_oid l) (ce_commit_oid r))
    (seed ++ ((λ p, {| ce_commit_oid := p.2.1; ce_tree_oid := p.2.2;
        ce_commit_association_id := Some p.1; ce_source := Association |}) <$>
      ax_current commit_axis)) in
  let withdrawn_commits := sort_by (λ l r, String.compare (wc_commit_oid l) (wc_commit_oid r))
    ((λ p, {| wc_commit_oid := p.1.2.1; wc_tree_oid := p.1.2.2;
        wc_commit_association_id := p.1.1; wc_commit_withdrawal_id := p.2 |}) <$>
      ax_withdrawn commit_axis) in
  let current_refs := sort_by (λ l r, then_with (String.compare (re_ref_name l) (re_ref_name r))
      (String.compare (re_head_oid l) (re_head_oid r)))
    ((λ p, {| re_ref_association_id := p.1; re_ref_name := p.2.1; re_head_oid := p.2.2 |}) <$>
      ax_current ref_axis) in
  let withdrawn_refs := sort_by (λ l r, String.compare (wr_ref_name l) (wr_ref_name r))
    ((λ p, {| wr_ref_association_id := p.1.1; wr_ref_name := p.1.2.1; wr_head_oid := p.1.2.2;
        wr_ref_withdrawal_id := p.2 |}) <$> ax_withdrawn ref_axis) in
  {| crv_revision_id := revision_id;
     crv_anchored := negb (match current_commits with [] => true | _ => false end);
     crv_current_commits := current_commits; crv_current_refs := current_refs;
     crv_withdrawn_commits := withdrawn_commits; crv_withdrawn_refs := withdrawn_refs;
     crv_diagnostics :=
       (missing_diagnostic revision_id <$>
         ax_missing_targets commit_axis ++ ax_missing_targets ref_axis) ++
       rewritten_diagnostics revision_id current_commits |}.

(** ** The fold *)

Section from_events.
Context `{Decoders} `{ReviewDecoders}.

Definition range_step (builders : gmap string CommitRangeBuilder) (event : ShoreEvent)
    : result (gmap string CommitRangeBuilder) :=
  match ev_event_type event with
  | WorkObjectProposed =>
      let? payload := from_work_object_proposed (ev_payload event) in
      Ok match wo_work_object payload with
         | ProposeRevision revision _ _ _ =>
             at_builder (rv_id revision)
               match rv_git_provenance revision with
               | Some {| gp_target := GitCommit commit_oid tree_oid |} =>
                   set_capture_target (Some (commit_oid, tree_oid))
               | _ => λ b, b
               end builders
         | ProposeTaskAttempt _ _ _ _ _ _ _ => builders
         end
  | RevisionCommitAssociated =>
      let? payload := from_commit_associated (ev_payload event) in
      Ok match revision_of (ca_target payload), ca_commit payload with
         | Some revision_id, GitCommit commit_oid tree_oid =>
             at_builder revision_id
               (insert_commit (ca_commit_association_id payload) (commit_oid, tree_oid)) builders
         | _, _ => builders
         end
  | RevisionCommitWithdrawn =>
      let? payload := from_commit_withdrawn (ev_payload event) in
      Ok match revision_of (cw_target payload) with
         | Some revision_id =>
             at_builder revision_id (withdraw_commit (cw_commit_association_id payload)
               (cw_commit_withdrawal_id payload)) builders
         | None => builders
         end
  | RevisionRefAssociated =>
      let? payload := from_ref_associated (ev_payload event) in
      Ok match revision_of (ra_target payload) with
         | Some revision_id =>
             at_builder revision_id (insert_ref (ra_ref_association_id payload)
               (ra_ref_name payload, ra_head_oid payload)) builders
         | None => builders
         end
  | RevisionRefWithdrawn =>
      let? payload := from_ref_withdrawn (ev_payload event) in
      Ok match revision_of (rw_target payload) with
         | Some revision_id =>
             at_builder revision_id (withdraw_ref (rw_ref_association_id payload)
               (rw_ref_withdrawal_id payload)) builders
         | None => builders
         end
  | _ => Ok builders
  end.

Definition commit_range_from_events (events : list ShoreEvent)
    : result RevisionCommitRangeProjection :=
  let? builders := try_fold range_step ∅ events in
  Ok {| cu_units := map_imap (λ revision_id b, Some (finish_builder b revision_id)) builders |}.
End from_events.

Definition range_unit (self : RevisionCommitRangeProjection) (revision_id : RevisionId)
    : option RevisionCommitRangeView := cu_units self !! revision_id.

Definition units_for_ref (self : RevisionCommitRangeProjection) (ref_name : string)
    : list RevisionCommitRangeView :=
  List.filter (λ view, existsb (λ current, String.eqb (re_ref_name current) ref_name)
    (crv_current_refs view)) (map_values (cu_units self)).
