(* ===== verification/CommitRangeProofs.v ===== *)
(** * The commit range of a revision is what its events claim

    [current = capture target ∪ (associated − withdrawn)], on both axes, whatever the
    order of the events, when no two of them claim differently under one id.  Association
    and withdrawal ids are digests of what they claim. *)

From Stdlib Require Import Permutation.
From S2P Require Import Prelude RustStr BTree Model Acknowledgement CanonicalHash Crypto Events.
From S2P Require Import ChangeClaims Relations Payloads Wire Subjects CommitRange.

(** ** Claims *)

Inductive Claim :=
| Seed (commit_oid tree_oid : string)
| CommitEdge (id commit_oid tree_oid : string)
| CommitWithdrawal (id withdrawal : string)
| RefEdge (id ref_name head_oid : string)
| RefWithdrawal (id withdrawal : string).

(** What at most one claim is about. *)
Inductive Slot := SSeed | SCommit (id : string) | SCommitW (id : string) | SRef (id : string)
| SRefW (id : string).

Definition slot (c : Claim) : Slot :=
  match c with
  | Seed _ _ => SSeed
  | CommitEdge id _ _ => SCommit id
  | CommitWithdrawal id _ => SCommitW id
  | RefEdge id _ _ => SRef id
  | RefWithdrawal id _ => SRefW id
  end.

Definition write (c : Claim) : CommitRangeBuilder → CommitRangeBuilder :=
  match c with
  | Seed oid tree => set_capture_target (Some (oid, tree))
  | CommitEdge id oid tree => insert_commit id (oid, tree)
  | CommitWithdrawal id w => withdraw_commit id w
  | RefEdge id name head => insert_ref id (name, head)
  | RefWithdrawal id w => withdraw_ref id w
  end.

Definition holds (b : CommitRangeBuilder) (c : Claim) : Prop :=
  match c with
  | Seed oid tree => cb_capture_target b = Some (oid, tree)
  | CommitEdge id oid tree => cb_associated_commits b !! id = Some (oid, tree)
  | CommitWithdrawal id w => cb_withdrawn_commits b !! id = Some w
  | RefEdge id name head => cb_associated_refs b !! id = Some (name, head)
  | RefWithdrawal id w => cb_withdrawn_refs b !! id = Some w
  end.

Lemma holds_write c b c' : holds (write c b) c' ↔ c' = c ∨ slot c' ≠ slot c ∧ holds b c'.
Proof.
  destruct c, c'; cbn; try (split; [by right|by intros [[=]|[_ ?]]]);
    rewrite ?lookup_insert_Some; naive_solver.
Qed.

Lemma holds_default c : ¬ holds builder_default c.
Proof. by destruct c. Qed.

Lemma option_pair_eq {A B} (o o' : option (A * B)) :
  (∀ x y, o = Some (x, y) ↔ o' = Some (x, y)) → o = o'.
Proof. intros Ho. apply option_eq. intros [x y]. apply Ho. Qed.

Lemma builder_ext b b' : (∀ c, holds b c ↔ holds b' c) → b = b'.
Proof.
  intros Hb. destruct b as [t a w r x], b' as [t' a' w' r' x'].
  assert (t = t') as -> by (apply option_pair_eq; intros; apply (Hb (Seed _ _))).
  assert (a = a') as ->.
  { apply map_eq. intros id. apply option_pair_eq. intros. apply (Hb (CommitEdge _ _ _)). }
  assert (w = w') as ->.
  { apply map_eq. intros id. apply option_eq. intros. apply (Hb (CommitWithdrawal _ _)). }
  assert (r = r') as ->.
  { apply map_eq. intros id. apply option_pair_eq. intros. apply (Hb (RefEdge _ _ _)). }
  assert (x = x') as ->; [|done].
  apply map_eq. intros id. apply option_eq. intros. apply (Hb (RefWithdrawal _ _)).
Qed.

#[export] Instance Claim_eq_dec : EqDecision Claim.
Proof. solve_decision. Defined.

(** ** What an event claims *)

Section claims.
Context `{Decoders} `{ReviewDecoders}.

(** The revision an event is about, and its claim on it, if any. *)
Definition event_claim (event : ShoreEvent) : result (option (RevisionId * option Claim)) :=
  match ev_event_type event with
  | WorkObjectProposed =>
      let? payload := from_work_object_proposed (ev_payload event) in
      Ok match wo_work_object payload with
         | ProposeRevision revision _ _ _ =>
             Some (rv_id revision, match rv_git_provenance revision with
               | Some {| gp_target := GitCommit oid tree |} => Some (Seed oid tree)
               | _ => None
               end)
         | ProposeTaskAttempt _ _ _ _ _ _ _ => None
         end
  | RevisionCommitAssociated =>
      let? p := from_commit_associated (ev_payload event) in
      Ok match revision_of (ca_target p), ca_commit p with
         | Some r, GitCommit oid tree => Some (r, Some (CommitEdge (ca_commit_association_id p) oid tree))
         | _, _ => None
         end
  | RevisionCommitWithdrawn =>
      let? p := from_commit_withdrawn (ev_payload event) in
      Ok ((λ r, (r, Some (CommitWithdrawal (cw_commit_association_id p)
        (cw_commit_withdrawal_id p)))) <$> revision_of (cw_target p))
  | RevisionRefAssociated =>
      let? p := from_ref_associated (ev_payload event) in
      Ok ((λ r, (r, Some (RefEdge (ra_ref_association_id p) (ra_ref_name p) (ra_head_oid p)))) <$>
        revision_of (ra_target p))
  | RevisionRefWithdrawn =>
      let? p := from_ref_withdrawn (ev_payload event) in
      Ok ((λ r, (r, Some (RefWithdrawal (rw_ref_association_id p) (rw_ref_withdrawal_id p)))) <$>
        revision_of (rw_target p))
  | _ => Ok None
  end.

Definition apply_claim (m : gmap string CommitRangeBuilder)
    (claim : option (RevisionId * option Claim)) : gmap string CommitRangeBuilder :=
  match claim with
  | Some (r, c) => at_builder r (match c with Some c => write c | None => λ b, b end) m
  | None => m
  end.

Lemma range_step_claim m event :
  range_step m event = let? claim := event_claim event in Ok (apply_claim m claim).
Proof.
  unfold range_step, event_claim. destruct (ev_event_type event); try done;
    match goal with |- rbind ?r _ = _ => destruct r as [p|]; cbn [rbind]; [|done] end.
  all: try by destruct (revision_of _).
  - destruct (wo_work_object p) as [rv ? ? ?|]; [|done].
    destruct (rv_git_provenance rv) as [[? ? []]|]; done.
  - by destruct (revision_of _), (ca_commit p).
Qed.

(** Some event mentions the revision; some event makes the claim. *)
Definition mentions (events : list ShoreEvent) (r : RevisionId) : Prop :=
  ∃ e c, e ∈ events ∧ event_claim e = Ok (Some (r, c)).
Definition claims (events : list ShoreEvent) (r : RevisionId) (c : Claim) : Prop :=
  ∃ e, e ∈ events ∧ event_claim e = Ok (Some (r, Some c)).

(** No two events claim differently about one thing. *)
Definition agreed (events : list ShoreEvent) : Prop :=
  ∀ r c c', claims events r c → claims events r c' → slot c = slot c' → c = c'.

Lemma mentions_cons e events r : mentions (e :: events) r ↔
  (∃ c, event_claim e = Ok (Some (r, c))) ∨ mentions events r.
Proof. unfold mentions. setoid_rewrite elem_of_cons. naive_solver. Qed.

Lemma claims_cons e events r c : claims (e :: events) r c ↔
  event_claim e = Ok (Some (r, Some c)) ∨ claims events r c.
Proof. unfold claims. setoid_rewrite elem_of_cons. naive_solver. Qed.

Definition builder_at (m : gmap string CommitRangeBuilder) (r : RevisionId) : CommitRangeBuilder :=
  default builder_default (m !! r).

Lemma apply_claim_holds m claim r c :
  holds (builder_at (apply_claim m claim) r) c ↔
  claim = Some (r, Some c) ∨
  (∀ c', claim = Some (r, Some c') → slot c ≠ slot c') ∧ holds (builder_at m r) c.
Proof.
  unfold builder_at. destruct claim as [[r' [c'|]]|]; cbn [apply_claim]; [| |naive_solver].
  all: unfold at_builder; destruct (decide (r' = r)) as [->|Hne];
    [rewrite lookup_insert_eq|rewrite lookup_insert_ne by done]; cbn [from_option id];
    [|naive_solver].
  - rewrite holds_write. naive_solver.
  - naive_solver.
Qed.

Lemma apply_claim_known m claim r :
  is_Some (apply_claim m claim !! r) ↔ (∃ c, claim = Some (r, c)) ∨ is_Some (m !! r).
Proof.
  destruct claim as [[r' c]|]; cbn [apply_claim]; [|naive_solver].
  unfold at_builder. rewrite lookup_insert_is_Some'. naive_solver.
Qed.

(** Under agreement a builder holds what it held and what the events claim. *)
Lemma fold_holds events m m' r :
  try_fold range_step m events = Ok m' → agreed events →
  (∀ c c', holds (builder_at m r) c → claims events r c' → slot c = slot c' → c = c') →
  (∀ c, holds (builder_at m' r) c ↔ holds (builder_at m r) c ∨ claims events r c) ∧
  (is_Some (m' !! r) ↔ is_Some (m !! r) ∨ mentions events r).
Proof.
  revert m. induction events as [|e events IH]; intros m; cbn [try_fold].
  { intros <-%Ok_eq _ _. unfold claims, mentions. setoid_rewrite elem_of_nil. naive_solver. }
  rewrite range_step_claim. intros (m1 & (claim & He & <-%Ok_eq)%bind_Ok & Hf)%bind_Ok Hag Hold.
  setoid_rewrite claims_cons in Hold. unfold agreed in Hag. setoid_rewrite claims_cons in Hag.
  rewrite mentions_cons. setoid_rewrite claims_cons. rewrite He in *.
  destruct (IH _ Hf) as [IHh IHs].
  - intros r' c c' Hc Hc'. apply (Hag r'); by right.
  - intros c c' Hc Hc' Hs. apply apply_claim_holds in Hc as [->|[_ Hc]].
    + by apply (Hag r); [left|right|].
    + by apply Hold; [|right|].
  - split.
    + intros c. rewrite IHh, apply_claim_holds. split.
      * intros [[->|[_ ?]]|?]; [by right; left|by left|by right; right].
      * intros [Hc|[[= ->]|?]]; [|by left; left|by right].
        destruct (decide (claim = Some (r, Some c))) as [|Hne]; [by left; left|].
        left. right. split; [|done]. intros c' -> Hs.
        rewrite (Hold c c' Hc (or_introl eq_refl) Hs) in Hne. done.
    + rewrite IHs, apply_claim_known. split.
      * intros [[[c ->]|?]|?]; [right; left; by exists c|by left|by right; right].
      * intros [?|[[c [= ->]]|?]]; [by left; right|left; left; by exists c|by right].
Qed.
End claims.

(** ** The partition of an axis *)

Lemma partition_fold {V W} (l : list (string * V)) cur hist (rest : gmap string W) :
  NoDup l.*1 →
  let '(cur', hist', rest') := fold_left partition_step l (cur, hist, rest) in
  (∀ id v, (id, v) ∈ cur' ↔ (id, v) ∈ cur ∨ (id, v) ∈ l ∧ rest !! id = None) ∧
  (∀ id v w, (id, v, w) ∈ hist' ↔ (id, v, w) ∈ hist ∨ (id, v) ∈ l ∧ rest !! id = Some w) ∧
  (∀ id, rest' !! id = if decide (id ∈ l.*1) then None else rest !! id).
Proof.
  revert cur hist rest. induction l as [|[k x] l IH]; intros cur hist rest Hnd; cbn [fold_left].
  { split_and!; intros; rewrite ?elem_of_nil; [tauto|tauto|]. by rewrite decide_False by set_solver. }
  rewrite fmap_cons in Hnd. apply NoDup_cons in Hnd as [Hk Hnd]. cbn [fst] in Hk.
  assert (∀ id v, (id, v) ∈ l → id ≠ k) as Hfresh.
  { intros id v Hin ->. apply Hk, list_elem_of_fmap. by exists (k, v). }
  unfold partition_step at 2. cbn [fst snd]. destruct (rest !! k) as [w0|] eqn:Hr.
  - specialize (IH cur (hist ++ [(k, x, w0)]) (delete k rest) Hnd).
    destruct (fold_left _ l _) as [[cur' hist'] rest']. destruct IH as (H1 & H2 & H3). split_and!.
    + intros id v. rewrite H1, elem_of_cons. split.
      * intros [?|[Hin Hd]]; [by left|]. right. split; [by right|].
        rewrite lookup_delete_ne in Hd; [done|]. symmetry. by eapply Hfresh.
      * intros [?|[[[= -> ->]|Hin] Hd]]; [by left|congruence|]. right. split; [done|].
        rewrite lookup_delete_ne; [done|]. symmetry. by eapply Hfresh.
    + intros id v w. rewrite H2, elem_of_app, list_elem_of_singleton, elem_of_cons. split.
      * intros [[?|[= -> -> ->]]|[Hin Hd]]; [by left|right; split; [by left|done]|].
        right. split; [by right|]. rewrite lookup_delete_ne in Hd; [done|]. symmetry. by eapply Hfresh.
      * intros [?|[[[= -> ->]|Hin] Hd]]; [by left; left|left; right; congruence|].
        right. split; [done|]. rewrite lookup_delete_ne; [done|]. symmetry. by eapply Hfresh.
    + intros id. rewrite H3, fmap_cons. cbn [fst]. destruct (decide (id = k)) as [->|Hne].
      * rewrite lookup_delete_eq, (decide_True (P:=k ∈ k :: _)) by by left. by case_decide.
      * rewrite lookup_delete_ne by done. by repeat case_decide; set_solver.
  - specialize (IH (cur ++ [(k, x)]) hist rest Hnd).
    destruct (fold_left _ l _) as [[cur' hist'] rest']. destruct IH as (H1 & H2 & H3). split_and!.
    + intros id v. rewrite H1, elem_of_app, list_elem_of_singleton, elem_of_cons. split.
      * intros [[?|[= -> ->]]|[? ?]]; [by left|right; split; [by left|done]|].
        right. split; [by right|done].
      * intros [?|[[[= -> ->]|?] ?]]; [by left; left|by left; right|by right].
    + intros id v w. rewrite H2, elem_of_cons. split.
      * intros [?|[? ?]]; [by left|]. right. split; [by right|done].
      * intros [?|[[[= -> ->]|?] ?]]; [by left|congruence|by right].
    + intros id. rewrite H3, fmap_cons. cbn [fst]. destruct (decide (id = k)) as [->|Hne].
      * rewrite (decide_True (P:=k ∈ k :: _)) by by left. by case_decide.
      * by repeat case_decide; set_solver.
Qed.

Lemma partition_axis_spec {V W} (associated : gmap string V) (withdrawn : gmap string W) :
  let p := partition_axis associated withdrawn in
  (∀ id v, (id, v) ∈ ax_current p ↔ associated !! id = Some v ∧ withdrawn !! id = None) ∧
  (∀ id v w, (id, v, w) ∈ ax_withdrawn p ↔ associated !! id = Some v ∧ withdrawn !! id = Some w) ∧
  (∀ id, id ∈ ax_missing_targets p ↔ is_Some (withdrawn !! id) ∧ associated !! id = None).
Proof.
  cbv zeta. unfold partition_axis.
  pose proof (partition_fold (iter_map associated) [] [] withdrawn
    (NoDup_map_keys associated)) as Hp.
  destruct (fold_left _ _ _) as [[cur hist] rest]. destruct Hp as (H1 & H2 & H3).
  cbn [ax_current ax_withdrawn ax_missing_targets]. split_and!.
  - intros id v. rewrite H1, elem_of_nil, elem_of_iter_map. tauto.
  - intros id v w. rewrite H2, elem_of_nil, elem_of_iter_map. tauto.
  - intros id. rewrite elem_of_map_keys, H3. change ((iter_map associated).*1) with (map_keys associated).
    destruct (decide (id ∈ map_keys associated)) as [Hin|Hin]; rewrite elem_of_map_keys in Hin.
    + split; [by intros []|]. intros [_ Hn]. rewrite Hn in Hin. by destruct Hin.
    + rewrite <- eq_None_not_Some in Hin. tauto.
Qed.

(** ** Properties *)

Section exact.
Context `{Decoders} `{ReviewDecoders}.

Lemma range_lookup events projection r :
  commit_range_from_events events = Ok projection →
  ∃ m, try_fold range_step ∅ events = Ok m ∧
    cu_units projection !! r = (λ b, finish_builder b r) <$> m !! r.
Proof.
  intros (m & Hm & <-%Ok_eq)%bind_Ok. exists m. split; [done|]. cbn [cu_units].
  rewrite map_lookup_imap. by destruct (m !! r).
Qed.

Lemma builder_claims events m r : try_fold range_step ∅ events = Ok m → agreed events →
  (∀ c, holds (builder_at m r) c ↔ claims events r c) ∧ (is_Some (m !! r) ↔ mentions events r).
Proof.
  intros Hm Hag.
  assert (∀ c, ¬ holds (builder_at ∅ r) c) as He.
  { intros c. unfold builder_at. rewrite lookup_empty. apply holds_default. }
  destruct (fold_holds events ∅ m r Hm Hag) as [Hh Hs].
  { intros c c' Hc. by apply He in Hc. }
  split; [intros c; rewrite Hh; specialize (He c); tauto|].
  rewrite Hs, lookup_empty. split; [by intros [[]|]|by right].
Qed.

Lemma fold_succeeds events m :
  is_ok (try_fold range_step m events) = true ↔ ∀ e, e ∈ events → is_ok (event_claim e) = true.
Proof.
  revert m. induction events as [|e events IH]; intros m; cbn [try_fold].
  { split; [by intros _ e ?%elem_of_nil|done]. }
  rewrite range_step_claim. setoid_rewrite elem_of_cons.
  destruct (event_claim e) as [claim|err] eqn:He; cbn [rbind].
  - rewrite IH. split; [intros Hall e' [->|?]; [by rewrite He|by apply Hall]|].
    intros Hall e' ?. apply Hall. by right.
  - split; [done|]. intros Hall. specialize (Hall e (or_introl eq_refl)). by rewrite He in Hall.
Qed.

Lemma claims_perm events events' r c : events ≡ₚ events' → claims events r c ↔ claims events' r c.
Proof. intros Hp. unfold claims. by setoid_rewrite Hp. Qed.

Lemma mentions_perm events events' r : events ≡ₚ events' → mentions events r ↔ mentions events' r.
Proof. intros Hp. unfold mentions. by setoid_rewrite Hp. Qed.

Lemma fold_perm events events' m : events ≡ₚ events' → agreed events →
  try_fold range_step ∅ events = Ok m → try_fold range_step ∅ events' = Ok m.
Proof.
  intros Hp Hag Hm.
  assert (is_ok (try_fold range_step ∅ events') = true) as Hok.
  { apply fold_succeeds. intros e He. rewrite <- Hp in He.
    revert e He. apply (fold_succeeds events ∅). by rewrite Hm. }
  destruct (try_fold range_step ∅ events') as [m'|] eqn:Hm'; [|done]. f_equal.
  assert (agreed events') as Hag'.
  { intros r c c'. rewrite <- !(claims_perm events events' r) by done. apply Hag. }
  apply map_eq. intros r.
  destruct (builder_claims events m r Hm Hag) as [Hc Hs].
  destruct (builder_claims events' m' r Hm' Hag') as [Hc' Hs'].
  rewrite <- (mentions_perm events events' r Hp), <- Hs in Hs'.
  assert (builder_at m' r = builder_at m r) as Hb.
  { apply builder_ext. intros c. by rewrite Hc, Hc', (claims_perm events events' r c Hp). }
  unfold builder_at in Hb. destruct (m !! r) as [b|], (m' !! r) as [b'|]; cbn in Hb; subst; try done.
  - by destruct Hs' as [_ []].
  - by destruct Hs' as [[] _].
Qed.

(** The view of a builder, by what the builder holds. *)
Lemma finish_current_commits b r c : c ∈ crv_current_commits (finish_builder b r) ↔
  (ce_source c = CaptureTarget ∧ ce_commit_association_id c = None ∧
    holds b (Seed (ce_commit_oid c) (ce_tree_oid c))) ∨
  (∃ id, ce_source c = Association ∧ ce_commit_association_id c = Some id ∧
    holds b (CommitEdge id (ce_commit_oid c) (ce_tree_oid c)) ∧
    ∀ w, ¬ holds b (CommitWithdrawal id w)).
Proof.
  cbn [finish_builder crv_current_commits holds]. rewrite elem_of_sort_by, elem_of_app.
  destruct (partition_axis_spec (cb_associated_commits b) (cb_withdrawn_commits b)) as [Hcur _].
  rewrite list_elem_of_fmap. f_equiv.
  - destruct c as [oid tree id src]. cbn. destruct (cb_capture_target b) as [[o t]|].
    + rewrite list_elem_of_singleton. naive_solver.
    + rewrite elem_of_nil. naive_solver.
  - split.
    + intros ([id [oid tree]] & -> & [Ha Hw]%Hcur). exists id. cbn. split_and!; [done..|].
      by rewrite Hw.
    + destruct c as [oid tree id' src]. cbn. intros (id & -> & -> & Ha & Hw).
      exists (id, (oid, tree)). split; [done|]. apply Hcur. split; [done|].
      apply eq_None_not_Some. intros [w Hs]. by apply (Hw w).
Qed.

Lemma finish_withdrawn_commits b r c : c ∈ crv_withdrawn_commits (finish_builder b r) ↔
  holds b (CommitEdge (wc_commit_association_id c) (wc_commit_oid c) (wc_tree_oid c)) ∧
  holds b (CommitWithdrawal (wc_commit_association_id c) (wc_commit_withdrawal_id c)).
Proof.
  cbn [finish_builder crv_withdrawn_commits holds]. rewrite elem_of_sort_by, list_elem_of_fmap.
  destruct (partition_axis_spec (cb_associated_commits b) (cb_withdrawn_commits b)) as (_ & Hw & _).
  split.
  - intros ([[id [oid tree]] w] & -> & ?%Hw). done.
  - destruct c as [oid tree id w]. intros Hc. exists (id, (oid, tree), w). split; [done|]. by apply Hw.
Qed.

Lemma finish_current_refs b r c : c ∈ crv_current_refs (finish_builder b r) ↔
  holds b (RefEdge (re_ref_association_id c) (re_ref_name c) (re_head_oid c)) ∧
  ∀ w, ¬ holds b (RefWithdrawal (re_ref_association_id c) w).
Proof.
  cbn [finish_builder crv_current_refs holds]. rewrite elem_of_sort_by, list_elem_of_fmap.
  destruct (partition_axis_spec (cb_associated_refs b) (cb_withdrawn_refs b)) as [Hcur _]. split.
  - intros ([id [name head]] & -> & [Ha Hw]%Hcur). cbn. split; [done|]. by rewrite Hw.
  - destruct c as [id name head]. cbn. intros [Ha Hw]. exists (id, (name, head)). split; [done|].
    apply Hcur. split; [done|]. apply eq_None_not_Some. intros [w Hs]. by apply (Hw w).
Qed.

Lemma finish_withdrawn_refs b r c : c ∈ crv_withdrawn_refs (finish_builder b r) ↔
  holds b (RefEdge (wr_ref_association_id c) (wr_ref_name c) (wr_head_oid c)) ∧
  holds b (RefWithdrawal (wr_ref_association_id c) (wr_ref_withdrawal_id c)).
Proof.
  cbn [finish_builder crv_withdrawn_refs holds]. rewrite elem_of_sort_by, list_elem_of_fmap.
  destruct (partition_axis_spec (cb_associated_refs b) (cb_withdrawn_refs b)) as (_ & Hw & _). split.
  - intros ([[id [name head]] w] & -> & ?%Hw). done.
  - destruct c as [id name head w]. intros Hc. exists (id, (name, head), w). split; [done|]. by apply Hw.
Qed.

(** C13. The commit range of a revision is what its events claim, whatever their order.
    When no two events claim differently under one id: a revision has a view exactly when
    an event mentions it; its current commits are the capture target, which no withdrawal
    affects, and the associations no event withdraws; its withdrawn commits are the
    associations with the withdrawal of each; the same on the ref axis; the revision is
    anchored exactly when it has a current commit; and any other order of the events gives
    the same projection. *)
Theorem commit_range_exact events projection
    (Hp : commit_range_from_events events = Ok projection) (Hag : agreed events) :
  (∀ r, is_Some (cu_units projection !! r) ↔ mentions events r) ∧
  (∀ r view, cu_units projection !! r = Some view →
    (∀ c, c ∈ crv_current_commits view ↔
      (ce_source c = CaptureTarget ∧ ce_commit_association_id c = None ∧
        claims events r (Seed (ce_commit_oid c) (ce_tree_oid c))) ∨
      (∃ id, ce_source c = Association ∧ ce_commit_association_id c = Some id ∧
        claims events r (CommitEdge id (ce_commit_oid c) (ce_tree_oid c)) ∧
        ∀ w, ¬ claims events r (CommitWithdrawal id w))) ∧
    (∀ c, c ∈ crv_withdrawn_commits view ↔
      claims events r (CommitEdge (wc_commit_association_id c) (wc_commit_oid c) (wc_tree_oid c)) ∧
      claims events r (CommitWithdrawal (wc_commit_association_id c) (wc_commit_withdrawal_id c))) ∧
    (∀ c, c ∈ crv_current_refs view ↔
      claims events r (RefEdge (re_ref_association_id c) (re_ref_name c) (re_head_oid c)) ∧
      ∀ w, ¬ claims events r (RefWithdrawal (re_ref_association_id c) w)) ∧
    (∀ c, c ∈ crv_withdrawn_refs view ↔
      claims events r (RefEdge (wr_ref_association_id c) (wr_ref_name c) (wr_head_oid c)) ∧
      claims events r (RefWithdrawal (wr_ref_association_id c) (wr_ref_withdrawal_id c))) ∧
    (crv_anchored view = true ↔ crv_current_commits view ≠ [])) ∧
  (∀ events', events ≡ₚ events' → commit_range_from_events events' = Ok projection).
Proof.
  destruct (range_lookup events projection EmptyString Hp) as (m & Hm & _). split_and!.
  - intros r. destruct (range_lookup events projection r Hp) as (m' & Hm' & ->).
    rewrite Hm in Hm'. apply Ok_eq in Hm' as <-. rewrite fmap_is_Some.
    apply (builder_claims events m r Hm Hag).
  - intros r view Hv. destruct (range_lookup events projection r Hp) as (m' & Hm' & Hl).
    rewrite Hm in Hm'. apply Ok_eq in Hm' as <-. rewrite Hl in Hv.
    apply fmap_Some in Hv as (b & Hb & ->).
    destruct (builder_claims events m r Hm Hag) as [Hc _]. unfold builder_at in Hc.
    rewrite Hb in Hc. cbn [from_option id] in Hc. split_and!.
    + intros c. rewrite finish_current_commits. by setoid_rewrite Hc.
    + intros c. by rewrite finish_withdrawn_commits, !Hc.
    + intros c. rewrite finish_current_refs. by setoid_rewrite Hc.
    + intros c. by rewrite finish_withdrawn_refs, !Hc.
    + cbn [finish_builder crv_anchored crv_current_commits]. by destruct (sort_by _ _).
  - intros events' Hperm. apply bind_Ok in Hp as (m' & Hm' & <-%Ok_eq).
    unfold commit_range_from_events. by rewrite (fold_perm events events' m' Hperm Hag Hm').
Qed.
End exact.

(** ** A capture, two associations and a withdrawal *)

Module Example.
Definition failure {A} : result A := Err (InvalidEvent "payload").
Definition revision : ReviewTargetRef := TRevision "rev:a".

#[local] Instance decoders : Decoders := {|
  from_work_object_proposed := λ _, Ok {| wo_engagement_id := "engagement:e";
    wo_work_object := ProposeRevision {| rv_id := "rev:a"; rv_object_id := "obj:o";
      rv_git_provenance := Some {| gp_source := GitCommitRange BaseTreeToTargetTree [];
        gp_base := GitCommit "c0" "t0"; gp_target := GitCommit "c1" "t1" |} |} None "sha256:a" [] |};
  from_change_declared := λ _, failure; from_membership_asserted := λ _, failure;
  from_membership_withdrawn := λ _, failure; from_relation_asserted := λ _, failure;
  from_relation_withdrawn := λ _, failure; from_link_asserted := λ _, failure;
  from_assessment_recorded := λ _, failure; from_input_request_opened := λ _, failure;
  from_input_request_responded := λ _, failure; from_fact_ported := λ _, failure
|}.

#[local] Instance review_decoders : ReviewDecoders := {|
  from_commit_associated := λ v,
    match v with
    | JString oid => Ok {| ca_commit_association_id := "assoc:" +:+ oid; ca_target := revision;
        ca_commit := GitCommit oid "t2" |}
    | _ => failure
    end;
  from_commit_withdrawn := λ _, Ok {| cw_commit_withdrawal_id := "withdraw:c2";
    cw_target := revision; cw_commit_association_id := "assoc:c2" |};
  from_ref_associated := λ _, failure; from_ref_withdrawn := λ _, failure;
  from_observation_recorded := λ _, failure; from_relation_attested := λ _, failure;
  from_validation_recorded := λ _, failure; from_checkpoint_captured := λ _, failure;
  from_task_observation := λ _, failure
|}.

Definition event (ty : EventType) (payload : json) : ShoreEvent := {|
  ev_schema := EVENT_SCHEMA; ev_version := EVENT_VERSION; ev_event_id := "evt:sha256:0";
  ev_event_type := ty; ev_idempotency_key := "key"; ev_target := for_journal "journal:default";
  ev_writer := shore_local "0.1"; ev_occurred_at := "2025-01-01T00:00:00.000Z";
  ev_payload_hash := "sha256:0"; ev_assertion_mode := Advisory; ev_signer := None;
  ev_signature := None; ev_source_ref := None; ev_ingest := None; ev_content_encoding := [];
  ev_payload_version := 1; ev_payload := payload |}.

(** The withdrawal comes first. *)
Definition events : list ShoreEvent :=
  [event RevisionCommitWithdrawn JNull; event WorkObjectProposed JNull;
   event RevisionCommitAssociated (JString "c2"); event RevisionCommitAssociated (JString "c3")].

Definition projection : RevisionCommitRangeProjection :=
  match commit_range_from_events events with Ok p => p | Err _ => {| cu_units := ∅ |} end.

Lemma projects : commit_range_from_events events = Ok projection ∧
  (λ v, ce_commit_oid <$> crv_current_commits v) <$> cu_units projection !! "rev:a" =
    Some ["c1"; "c3"].
Proof. split; vm_compute; reflexivity. Qed.

Lemma events_agree : agreed events.
Proof.
  intros r c c' (e & He & Hc) (e' & He' & Hc'). unfold events in He, He'.
  repeat (apply elem_of_cons in He as [->|He]); try (by apply elem_of_nil in He);
    repeat (apply elem_of_cons in He' as [->|He']); try (by apply elem_of_nil in He');
    vm_compute in Hc, Hc'; apply Ok_eq in Hc, Hc'; injection Hc as <- <-; injection Hc' as <-;
    vm_compute; by intros [=].
Qed.

Lemma commit_range_exact_witness :
  commit_range_from_events (reverse events) = Ok projection.
Proof.
  apply (commit_range_exact events projection (proj1 projects) events_agree).
  by rewrite reverse_Permutation.
Defined.
End Example.
