(* ===== verification/Liveness.v ===== *)
(** * Commit-graph liveness ([src/src/session/workflow/commit_range_liveness.rs])

    Each current commit of a revision against the live refs: merged, live, unreachable or
    missing, with the landing headline; commit by commit ([enrich_liveness]) and resolved
    once for a list of revisions ([LivenessBatch]); and how recorded refs relate to their
    current state.  Git's answers are the operations of the class [Git].  The memo tables
    are explicit state.  Slicing a string inside a character is a panic. *)

From S2P Require Import Prelude RustStr BTree Model Acknowledgement CanonicalHash Crypto Events.
From S2P Require Import ChangeClaims Relations Payloads Wire Journal Subjects CommitRange.

(** ** Git's answers ([src/src/git/command.rs]) *)

Inductive Ancestry := Ancestor | NotAncestor | MissingObject.

#[export] Instance Ancestry_eq_dec : EqDecision Ancestry.
Proof. solve_decision. Defined.

Record RefEntry := { ref_name : string; ref_oid : string }.
Record GitWorktree := { wt_head : option string; wt_branch : option string }.
Record GitReflogEntry := { rl_new_oid : string; rl_subject : string }.

Class Git := {
  git_for_each_ref : list string → result (list RefEntry);
  git_worktree_list : result (list GitWorktree);
  git_default_branch_ref : result (option string);
  git_rev_parse_commit_oid : string → result string;
  git_rev_list_range : string → result (list string);
  git_object_exists : string → result bool;
  git_is_ancestor : string → string → result Ancestry;
  git_rev_list_reachable : list string → result (gset string);
  git_rev_list_reflog_reachable : result (gset string);
  git_independent_commits : list string → result (list string);
  git_reflog_entries : string → result (list GitReflogEntry);
  git_commit_tree_oid : string → result string;
  git_ref_state_lines : result string
}.

(** ** Data *)

Inductive CommitGraphCondition := Merged | Live | Unreachable | MissingCommit.
Inductive Retention := RetainedByReflog | NotRetained.

#[export] Instance CommitGraphCondition_eq_dec : EqDecision CommitGraphCondition.
Proof. solve_decision. Defined.

Record CommitLiveness := {
  cl_commit_oid : string;
  cl_condition : CommitGraphCondition;
  cl_live_branch : option string;
  cl_retention : option Retention
}.

Inductive RefContinuity :=
| ContinuityCurrent | ContinuityAdvanced | ContinuityRewritten | ContinuityMoved
| ContinuityDeleted | ContinuityUnknown.

#[export] Instance RefContinuity_eq_dec : EqDecision RefContinuity.
Proof. solve_decision. Defined.

Record RefContinuityView := {
  rcv_ref_name : string;
  rcv_recorded_head_oid : string;
  rcv_current_tip_oid : option string;
  rcv_continuity : RefContinuity;
  rcv_rewrite_action : option string;
  rcv_same_tree : option bool
}.

Record LivenessEnrichment := {
  le_per_commit : list CommitLiveness;
  le_headline : option CommitGraphCondition;
  le_ref_continuity : list RefContinuityView;
  le_diagnostics : list ProjectionDiagnostic
}.

Record LiveTip := { lt_oid : string; lt_label : option string }.
Record IntegrationRef := { ir_oid : string; ir_label : string }.

(** The memo tables: ancestry and object probes, independent sets by their sorted
    commits, and the reflog set, if it was asked for and answered. *)
Record Caches := {
  ca_ancestry : gmap (string * string) Ancestry;
  ca_object_exists : gmap string bool;
  ca_independent : gmap (list string) (list string);
  ca_retention : option (option (gset string))
}.

Definition no_caches : Caches :=
  {| ca_ancestry := ∅; ca_object_exists := ∅; ca_independent := ∅; ca_retention := None |}.

Definition set_ancestry (m : gmap (string * string) Ancestry) (c : Caches) : Caches :=
  {| ca_ancestry := m; ca_object_exists := ca_object_exists c;
     ca_independent := ca_independent c; ca_retention := ca_retention c |}.
Definition set_object_exists (m : gmap string bool) (c : Caches) : Caches :=
  {| ca_ancestry := ca_ancestry c; ca_object_exists := m;
     ca_independent := ca_independent c; ca_retention := ca_retention c |}.
Definition set_independent (m : gmap (list string) (list string)) (c : Caches) : Caches :=
  {| ca_ancestry := ca_ancestry c; ca_object_exists := ca_object_exists c;
     ca_independent := m; ca_retention := ca_retention c |}.
Definition set_retention (r : option (option (gset string))) (c : Caches) : Caches :=
  {| ca_ancestry := ca_ancestry c; ca_object_exists := ca_object_exists c;
     ca_independent := ca_independent c; ca_retention := r |}.

(** ** Labels *)

Definition DIVERGENT_COMMIT_ASSOCIATION_CODE : string := "divergent_commit_association".
Definition REF_REWRITTEN_CODE : string := "ref_rewritten".
Definition SHORT_OID_LEN : nat := 12.

(** [str::is_char_boundary]: the end, or a byte that does not continue a character. *)
Definition is_char_boundary (s : string) (i : nat) : bool :=
  match String.get i s with
  | None => i =? String.length s
  | Some c => negb ((128 <=? byte_val c)%Z && (byte_val c <=? 191)%Z)
  end.

(** [&oid[..oid.len().min(SHORT_OID_LEN)]]. *)
Definition short_oid (oid : string) : result string :=
  let n := Nat.min (String.length oid) SHORT_OID_LEN in
  if is_char_boundary oid n then Ok (str_take n oid)
  else Err (Panicked "byte index is not a char boundary").

Definition short_ref_label (reference : string) : string :=
  match strip_prefix "refs/heads/" reference with
  | Some label => label
  | None => default reference (strip_prefix "refs/remotes/" reference)
  end.

Definition detached_label (oid : string) : result string :=
  let? short := short_oid oid in Ok ("(detached @ " +:+ short +:+ ")").

(** [slice::join]. *)
Definition join (sep : string) (parts : list string) : string :=
  match parts with
  | [] => EmptyString
  | p :: parts => p +:+ foldr (λ q acc, sep +:+ q +:+ acc) EmptyString parts
  end.

(** ** Commit by commit *)

Section liveness.
Context `{Git}.

Definition push_tip (acc : list LiveTip * gset string) (oid : string) (label : option string)
    : list LiveTip * gset string :=
  if bool_decide (oid ∈ acc.2) then acc
  else (acc.1 ++ [{| lt_oid := oid; lt_label := label |}], {[oid]} ∪ acc.2).

Definition worktree_tip (acc : list LiveTip * gset string) (worktree : GitWorktree)
    : result (list LiveTip * gset string) :=
  match wt_head worktree with
  | None => Ok acc
  | Some head =>
      let? label := match wt_branch worktree with
        | Some branch => Ok (short_ref_label branch)
        | None => detached_label head
        end in
      Ok (push_tip acc head (Some label))
  end.

Definition live_tips : result (list LiveTip) :=
  let? entries := git_for_each_ref ["refs/heads/"; "refs/remotes/"] in
  let refs := foldl (λ acc entry,
    push_tip acc (ref_oid entry) (Some (short_ref_label (ref_name entry)))) ([], ∅) entries in
  let? worktrees := git_worktree_list in
  let? tips := try_fold worktree_tip refs worktrees in
  Ok tips.1.

Definition ancestry (commit_oid tip_oid : string) : io Caches Ancestry := λ c,
  match ca_ancestry c !! (commit_oid, tip_oid) with
  | Some a => (Ok a, c)
  | None =>
      match git_is_ancestor commit_oid tip_oid with
      | Err e => (Err e, c)
      | Ok a => (Ok a, set_ancestry (<[(commit_oid, tip_oid) := a]> (ca_ancestry c)) c)
      end
  end.

Fixpoint first_containing_tip_label (commit_oid : string) (tips : list LiveTip)
    : io Caches (option (option string)) :=
  match tips with
  | [] => pure_io (Ok None)
  | tip :: tips =>
      if String.eqb (lt_oid tip) commit_oid then first_containing_tip_label commit_oid tips
      else
        let! a := ancestry commit_oid (lt_oid tip) in
        if bool_decide (a = Ancestor) then pure_io (Ok (Some (lt_label tip)))
        else first_containing_tip_label commit_oid tips
  end.

Definition broad_merged_label (commit_oid : string) (tips : list LiveTip)
    (default_branch : option (string * string)) : io Caches (option (option string)) :=
  let! found := first_containing_tip_label commit_oid tips in
  match found with
  | None => pure_io (Ok None)
  | Some fallback_label =>
      match default_branch with
      | None => pure_io (Ok (Some fallback_label))
      | Some (default_oid, default_label) =>
          if String.eqb default_oid commit_oid then pure_io (Ok (Some (Some default_label)))
          else
            let! a := ancestry commit_oid default_oid in
            pure_io (Ok (Some (if bool_decide (a = Ancestor) then Some default_label
              else fallback_label)))
      end
  end.

(** [tips.iter().find(|tip| tip.oid == commit_oid)]. *)
Definition find_tip (commit_oid : string) (tips : list LiveTip) : option LiveTip :=
  List.find (λ tip, String.eqb (lt_oid tip) commit_oid) tips.

(** What [classify] answers for a commit that has not landed. *)
Definition classify_unmerged (commit_oid : string) (tips : list LiveTip) (narrow : bool)
    : io Caches (CommitGraphCondition * option string) :=
  match find_tip commit_oid tips with
  | Some tip => pure_io (Ok (Live, lt_label tip))
  | None =>
      if narrow then
        let! found := first_containing_tip_label commit_oid tips in
        pure_io (Ok match found with
          | Some label => (Live, label)
          | None => (Unreachable, None)
          end)
      else pure_io (Ok (Unreachable, None))
  end.

Definition classify (commit_oid : string) (tips : list LiveTip)
    (integration : option IntegrationRef) (default_branch : option (string * string))
    : io Caches (CommitGraphCondition * option string) :=
  let! exists_ := pure_io (git_object_exists commit_oid) in
  if negb exists_ then pure_io (Ok (MissingCommit, None))
  else match integration with
  | Some integration =>
      let! merged :=
        if String.eqb (ir_oid integration) commit_oid then pure_io (Ok true)
        else let! a := ancestry commit_oid (ir_oid integration) in
             pure_io (Ok (bool_decide (a = Ancestor))) in
      if merged : bool then pure_io (Ok (Merged, Some (ir_label integration)))
      else classify_unmerged commit_oid tips true
  | None =>
      let! label := broad_merged_label commit_oid tips default_branch in
      match label with
      | Some label => pure_io (Ok (Merged, label))
      | None => classify_unmerged commit_oid tips false
      end
  end.

(** [ReflogRetention::of]. *)
Definition retention_of (commit_oid : string) (condition : CommitGraphCondition)
    : Caches → option Retention * Caches := λ c,
  if negb (bool_decide (condition = Unreachable)) then (None, c)
  else
    let set := match ca_retention c with
      | Some set => set
      | None => match git_rev_list_reflog_reachable with Ok set => Some set | Err _ => None end
      end in
    ((λ set, if bool_decide (commit_oid ∈ set) then RetainedByReflog else NotRetained) <$> set,
     set_retention (Some set) c).

(** The loop over the current commits, each commit once. *)
Fixpoint commit_conditions (classify : string → io Caches (CommitGraphCondition * option string))
    (commits : list CurrentCommitAssociation) (seen : gset string)
    : io Caches (list CommitLiveness) :=
  match commits with
  | [] => pure_io (Ok [])
  | commit :: commits =>
      let oid := ce_commit_oid commit in
      if bool_decide (oid ∈ seen) then commit_conditions classify commits seen
      else
        let! answer := classify oid in
        let! retention := λ c, let r := retention_of oid answer.1 c in (Ok r.1, r.2) in
        let! rest := commit_conditions classify commits ({[oid]} ∪ seen) in
        pure_io (Ok ({| cl_commit_oid := oid; cl_condition := answer.1;
                        cl_live_branch := answer.2; cl_retention := retention |} :: rest))
  end.

Definition condition_of (per_commit : list CommitLiveness) (oid : string)
    : option CommitGraphCondition :=
  cl_condition <$> List.find (λ c, String.eqb (cl_commit_oid c) oid) per_commit.

Definition agreed_condition (conditions : list CommitGraphCondition)
    : option CommitGraphCondition :=
  match conditions with
  | [] => None
  | first :: rest => if forallb (λ c, bool_decide (c = first)) rest then Some first else None
  end.

(** The association edges, each commit once. *)
Fixpoint claims_from (commits : list CurrentCommitAssociation) (seen : gset string)
    : list CurrentCommitAssociation :=
  match commits with
  | [] => []
  | c :: commits =>
      if negb (bool_decide (ce_source c = Association)) then claims_from commits seen
      else if bool_decide (ce_commit_oid c ∈ seen) then claims_from commits seen
      else c :: claims_from commits ({[ce_commit_oid c]} ∪ seen)
  end.

Definition is_alive (condition : option CommitGraphCondition) : bool :=
  match condition with Some (Live | Merged) => true | _ => false end.

Definition landing_analysis (view : RevisionCommitRangeView) (per_commit : list CommitLiveness)
    (independent : list string → io Caches (list string))
    : io Caches (option CommitGraphCondition * list ProjectionDiagnostic) :=
  let claims := claims_from (crv_current_commits view) ∅ in
  match claims with
  | [] => pure_io (Ok (agreed_condition (cl_condition <$> per_commit), []))
  | _ =>
      let alive := ce_commit_oid <$> List.filter (λ claim,
        is_alive (condition_of per_commit (ce_commit_oid claim))) claims in
      let! maximal := independent alive in
      let maximal := set_of_list maximal in
      let competing := List.filter (λ claim, bool_decide (ce_commit_oid claim ∈ maximal)) claims in
      match competing with
      | [] =>
          let condition := if forallb (λ claim,
              bool_decide (condition_of per_commit (ce_commit_oid claim) = Some MissingCommit)) claims
            then MissingCommit else Unreachable in
          pure_io (Ok (Some condition, []))
      | [claim] => pure_io (Ok (condition_of per_commit (ce_commit_oid claim), []))
      | _ =>
          let trees := set_of_list (ce_tree_oid <$> competing) in
          if size trees =? 1 then
            let merged := existsb (λ claim,
              bool_decide (condition_of per_commit (ce_commit_oid claim) = Some Merged)) competing in
            pure_io (Ok (Some (if merged then Merged else Live), []))
          else
            let! oids := pure_io (mapM (λ claim, short_oid (ce_commit_oid claim)) competing) in
            let oids := sort_by String.compare oids in
            pure_io (Ok (None, [{| pd_code := DIVERGENT_COMMIT_ASSOCIATION_CODE;
              pd_message := "revision " +:+ crv_revision_id view +:+ " has " +:+
                dec (Z.of_nat (length competing)) +:+ " competing landing commits (" +:+
                join ", " oids +:+
                "); none is an ancestor of another and their trees differ" |}]))
      end
  end.

Definition no_enrichment : LivenessEnrichment :=
  {| le_per_commit := []; le_headline := None; le_ref_continuity := []; le_diagnostics := [] |}.

(** The oid and label of an integration ref. *)
Definition resolve_integration (reference : string) : result IntegrationRef :=
  let? oid := git_rev_parse_commit_oid reference in
  Ok {| ir_oid := oid; ir_label := short_ref_label reference |}.

Definition detect_default_branch : option (string * string) :=
  match git_default_branch_ref with
  | Ok (Some reference) =>
      match git_rev_parse_commit_oid reference with
      | Ok oid => Some (oid, short_ref_label reference)
      | Err _ => None
      end
  | _ => None
  end.

Definition enrich_liveness (view : RevisionCommitRangeView) (integration_ref : option string)
    : result LivenessEnrichment :=
  match crv_current_commits view with
  | [] => Ok no_enrichment
  | commits =>
      let? tips := live_tips in
      let? integration := match integration_ref with
        | Some reference => let? r := resolve_integration reference in Ok (Some r)
        | None => Ok None
        end in
      let default_branch := match integration_ref with
        | Some _ => None
        | None => detect_default_branch
        end in
      fst ((let! per_commit := commit_conditions
              (λ oid, classify oid tips integration default_branch) commits ∅ in
            let! landing := landing_analysis view per_commit
              (λ oids, pure_io (git_independent_commits oids)) in
            pure_io (Ok {| le_per_commit := per_commit; le_headline := landing.1;
                           le_ref_continuity := []; le_diagnostics := landing.2 |})) no_caches)
  end.

Definition resolve_default_integration_ref : option string :=
  match git_default_branch_ref with Ok reference => reference | Err _ => None end.

Definition effective_integration_ref (explicit : option string) : option string :=
  match explicit with
  | Some reference => Some reference
  | None => resolve_default_integration_ref
  end.

Definition commit_graph_stamp `{Digest} : result string :=
  let nl := String newline EmptyString in
  let? lines := git_ref_state_lines in
  let? worktrees := git_worktree_list in
  Ok (sha256_bytes_hex (foldl (λ input worktree,
    input +:+ default "-" (wt_head worktree) +:+ " " +:+ default "-" (wt_branch worktree) +:+ nl)
    (lines +:+ nl +:+ "--worktrees--" +:+ nl) worktrees)).

(** ** A list of revisions at once *)

Record LivenessBatch := {
  lb_tips : list LiveTip;
  lb_broad_reachable : gset string;
  lb_integration : option IntegrationRef;
  lb_integration_reachable : gset string
}.

Definition build_batch (integration_ref : option string) : result LivenessBatch :=
  let? tips := live_tips in
  let? broad_reachable := git_rev_list_reachable (lt_oid <$> tips) in
  match integration_ref with
  | Some reference =>
      let? oid := git_rev_parse_commit_oid reference in
      let? reachable := git_rev_list_reachable [oid] in
      Ok {| lb_tips := tips; lb_broad_reachable := broad_reachable;
            lb_integration := Some {| ir_oid := oid; ir_label := short_ref_label reference |};
            lb_integration_reachable := reachable |}
  | None =>
      Ok {| lb_tips := tips; lb_broad_reachable := broad_reachable; lb_integration := None;
            lb_integration_reachable := ∅ |}
  end.

Definition ancestry_of (ancestor_oid descendant_oid : string) : io Caches Ancestry := λ c,
  match ca_ancestry c !! (ancestor_oid, descendant_oid) with
  | Some a => (Ok a, c)
  | None =>
      match git_is_ancestor ancestor_oid descendant_oid with
      | Err e => (Err e, c)
      | Ok a => (Ok a, set_ancestry (<[(ancestor_oid, descendant_oid) := a]> (ca_ancestry c)) c)
      end
  end.

Definition object_exists_of (commit_oid : string) : io Caches bool := λ c,
  match ca_object_exists c !! commit_oid with
  | Some b => (Ok b, c)
  | None =>
      match git_object_exists commit_oid with
      | Err e => (Err e, c)
      | Ok b => (Ok b, set_object_exists (<[commit_oid := b]> (ca_object_exists c)) c)
      end
  end.

Definition independent_of (oids : list string) : io Caches (list string) := λ c,
  let key := sort_by String.compare oids in
  match ca_independent c !! key with
  | Some maximal => (Ok maximal, c)
  | None =>
      match git_independent_commits oids with
      | Err e => (Err e, c)
      | Ok maximal => (Ok maximal, set_independent (<[key := maximal]> (ca_independent c)) c)
      end
  end.

Definition unreachable_or_missing (commit_oid : string)
    : io Caches (CommitGraphCondition * option string) :=
  let! exists_ := object_exists_of commit_oid in
  pure_io (Ok (if exists_ : bool then Unreachable else MissingCommit, None)).

(** The other tips a tip is an ancestor of: the first one's label. *)
Fixpoint tip_merged_into (commit_oid : string) (tips : list LiveTip)
    : io Caches (option (option string)) :=
  match tips with
  | [] => pure_io (Ok None)
  | other :: tips =>
      if String.eqb (lt_oid other) commit_oid then tip_merged_into commit_oid tips
      else
        let! a := ancestry_of commit_oid (lt_oid other) in
        if bool_decide (a = Ancestor) then pure_io (Ok (Some (lt_label other)))
        else tip_merged_into commit_oid tips
  end.

(** The part of [LivenessBatch::classify] after the mode's own merge check. *)
Definition batch_unmerged (self : LivenessBatch) (commit_oid : string) (narrow : bool)
    : io Caches (CommitGraphCondition * option string) :=
  match find_tip commit_oid (lb_tips self) with
  | Some tip =>
      let! merged := if narrow then pure_io (Ok None)
        else tip_merged_into commit_oid (lb_tips self) in
      pure_io (Ok match merged with
        | Some label => (Merged, label)
        | None => (Live, lt_label tip)
        end)
  | None =>
      if narrow && bool_decide (commit_oid ∈ lb_broad_reachable self) then pure_io (Ok (Live, None))
      else unreachable_or_missing commit_oid
  end.

Definition batch_classify (self : LivenessBatch) (use_integration : bool) (commit_oid : string)
    : io Caches (CommitGraphCondition * option string) :=
  match if use_integration then lb_integration self else None with
  | Some integration =>
      if bool_decide (commit_oid ∈ lb_integration_reachable self)
      then pure_io (Ok (Merged, Some (ir_label integration)))
      else batch_unmerged self commit_oid true
  | None =>
      if bool_decide (commit_oid ∈ lb_broad_reachable self) &&
         negb (existsb (λ tip, String.eqb (lt_oid tip) commit_oid) (lb_tips self))
      then pure_io (Ok (Merged, None))
      else batch_unmerged self commit_oid false
  end.

Definition batch_enrich (self : LivenessBatch) (use_integration : bool)
    (view : RevisionCommitRangeView) : io Caches LivenessEnrichment :=
  match crv_current_commits view with
  | [] => pure_io (Ok no_enrichment)
  | commits =>
      let! per_commit := commit_conditions (batch_classify self use_integration) commits ∅ in
      let! landing := landing_analysis view per_commit independent_of in
      pure_io (Ok {| le_per_commit := per_commit; le_headline := landing.1;
                     le_ref_continuity := []; le_diagnostics := landing.2 |})
  end.

Definition enrich_broad (self : LivenessBatch) (view : RevisionCommitRangeView)
    : io Caches LivenessEnrichment := batch_enrich self false view.

Definition enrich_merge (self : LivenessBatch) (view : RevisionCommitRangeView)
    : io Caches LivenessEnrichment := batch_enrich self true view.

(** ** Continuity of recorded refs *)

Definition rewrite_action_from_reflog (name recorded_head : string) : option string :=
  match git_reflog_entries name with
  | Err _ => None
  | Ok entries =>
      position ← list_find (λ entry, rl_new_oid entry = recorded_head) entries;
      match position.1 with
      | O => None
      | S before =>
          entry ← entries !! before;
          let action := trim (default EmptyString (head (split_char ":" (rl_subject entry)))) in
          if String.eqb action "commit (amend)" || starts_with "rebase" action
          then Some action else None
      end
  end.

Definition same_tree_of (recorded_head tip : string) : option bool :=
  match git_commit_tree_oid recorded_head, git_commit_tree_oid tip with
  | Ok recorded, Ok current => Some (String.eqb recorded current)
  | _, _ => None
  end.

Definition diagnose_one_ref (name recorded_head : string) : RefContinuityView :=
  let view continuity current_tip_oid rewrite_action same_tree := {|
    rcv_ref_name := name; rcv_recorded_head_oid := recorded_head;
    rcv_current_tip_oid := current_tip_oid; rcv_continuity := continuity;
    rcv_rewrite_action := rewrite_action; rcv_same_tree := same_tree |} in
  match git_for_each_ref [name] with
  | Err _ => view ContinuityUnknown None None None
  | Ok entries =>
      match ref_oid <$> List.find (λ entry, String.eqb (ref_name entry) name) entries with
      | None => view ContinuityDeleted None None None
      | Some tip =>
          if String.eqb tip recorded_head then view ContinuityCurrent (Some tip) None None
          else match git_is_ancestor recorded_head tip with
          | Ok Ancestor => view ContinuityAdvanced (Some tip) None None
          | Err _ => view ContinuityUnknown (Some tip) None None
          | Ok _ =>
              match rewrite_action_from_reflog name recorded_head with
              | Some action => view ContinuityRewritten (Some tip) (Some action)
                  (same_tree_of recorded_head tip)
              | None => view ContinuityMoved (Some tip) None None
              end
          end
      end
  end.

Definition rewrite_diagnostic (entry : RefContinuityView) : result ProjectionDiagnostic :=
  let? recorded := short_oid (rcv_recorded_head_oid entry) in
  let? tip := match rcv_current_tip_oid entry with
    | Some oid => short_oid oid
    | None => Ok "unknown"
    end in
  Ok {| pd_code := REF_REWRITTEN_CODE;
        pd_message := "recorded ref " +:+ short_ref_label (rcv_ref_name entry) +:+
          " was rewritten (" +:+ default "rewrite" (rcv_rewrite_action entry) +:+
          "): recorded head " +:+ recorded +:+ ", current tip " +:+ tip +:+
          "; record a commit association if the current tip realizes this revision, or capture a successor for a new reviewed content state" |}.

(** The loop over the current refs, each name and head once. *)
Fixpoint diagnose_refs (refs : list CurrentRefAssociation) (seen : gset (string * string))
    : result (list RefContinuityView * list ProjectionDiagnostic) :=
  match refs with
  | [] => Ok ([], [])
  | association :: refs =>
      let pair := (re_ref_name association, re_head_oid association) in
      if bool_decide (pair ∈ seen) then diagnose_refs refs seen
      else
        let entry := diagnose_one_ref pair.1 pair.2 in
        let? own := if bool_decide (rcv_continuity entry = ContinuityRewritten)
          then let? d := rewrite_diagnostic entry in Ok [d] else Ok [] in
        let? rest := diagnose_refs refs ({[pair]} ∪ seen) in
        Ok (entry :: rest.1, own ++ rest.2)
  end.

Definition diagnose_ref_continuity (view : RevisionCommitRangeView)
    : result (list RefContinuityView * list ProjectionDiagnostic) :=
  diagnose_refs (crv_current_refs view) ∅.
End liveness.
