(* ===== verification/LivenessProofs.v ===== *)
(** * The batched reachability answers as the per-commit walk does

    Over a commit graph git answers for, resolving the live refs once and classifying by
    set membership ([LivenessBatch]) gives the conditions, the headline and the
    diagnostics of the walk that asks git about every commit and tip ([enrich_liveness]),
    whatever the memo tables already hold.  Only the branch labels differ, which the list
    surfaces do not read. *)

From S2P Require Import Prelude RustStr BTree Model Acknowledgement CanonicalHash Crypto Events.
From S2P Require Import ChangeClaims Relations Payloads Wire Journal Subjects CommitRange Liveness.

(** ** What git documents *)

(** The commits of the repository and their ancestry, an ancestor of itself each. *)
Class CommitGraph := {
  stored : string → bool;
  ancestor : string → string → bool
}.

(** The commits of a set that no other commit of the set descends from. *)
Definition maximal_commits `{CommitGraph} (X : gset string) : gset string :=
  filter (λ x, set_Forall (λ y, ancestor x y = true → y = x) X) X.

Class GitLaws `{Git} `{CommitGraph} : Prop := {
  object_law oid : git_object_exists oid = Ok (stored oid);
  ancestor_law a b : git_is_ancestor a b =
    Ok (if stored a && stored b then if ancestor a b then Ancestor else NotAncestor
        else MissingObject);
  reachable_law tips X : git_rev_list_reachable tips = Ok X →
    Forall (λ t, stored t = true) tips ∧
    ∀ x, x ∈ X ↔ ∃ t, t ∈ tips ∧ ancestor x t = true;
  independent_law l : Forall (λ t, stored t = true) l →
    ∃ m, git_independent_commits l = Ok m ∧
      set_of_list m = maximal_commits (set_of_list l);
  ancestor_stored x t : stored t = true → ancestor x t = true → stored x = true;
  ancestor_refl t : stored t = true → ancestor t t = true
}.

Section liveness.
Context `{GitLaws}.

(** ** Memo tables *)

(** Every entry is what git answers. *)
Definition valid (c : Caches) : Prop :=
  (∀ a b r, ca_ancestry c !! (a, b) = Some r → git_is_ancestor a b = Ok r) ∧
  (∀ oid r, ca_object_exists c !! oid = Some r → git_object_exists oid = Ok r) ∧
  (∀ key m, ca_independent c !! key = Some m →
    ∃ l, sort_by String.compare l = key ∧ git_independent_commits l = Ok m) ∧
  (∀ set, ca_retention c = Some set →
    set = match git_rev_list_reflog_reachable with Ok set => Some set | Err _ => None end).

Lemma valid_no_caches : valid no_caches.
Proof. by split_and!. Qed.

(** From valid tables a computation answers within [P] and leaves them valid. *)
Definition yields {A} (m : io Caches A) (P : result A → Prop) : Prop :=
  ∀ c, valid c → P (m c).1 ∧ valid (m c).2.

Lemma yields_pure {A} (r : result A) (P : result A → Prop) : P r → yields (pure_io r) P.
Proof. by intros Hr c Hc. Qed.

Lemma yields_bind {A B} (m : io Caches A) (f : A → io Caches B) (P : result B → Prop) a :
  yields m (λ r, r = Ok a) → yields (f a) P → yields (let! x := m in f x) P.
Proof.
  intros Hm Hf c Hc. unfold io_bind. destruct (Hm c Hc) as [Hr Hv].
  destruct (m c) as [r c']. cbn in *. subst. by apply Hf.
Qed.

Lemma yields_bind_ex {A B} (m : io Caches A) (f : A → io Caches B) (Q : A → Prop)
    (P : result B → Prop) :
  yields m (λ r, ∃ a, r = Ok a ∧ Q a) → (∀ a, Q a → yields (f a) P) →
  yields (let! x := m in f x) P.
Proof.
  intros Hm Hf c Hc. unfold io_bind. destruct (Hm c Hc) as [(a & Hr & Ha) Hv].
  destruct (m c) as [r c']. cbn in *. subst. by apply Hf.
Qed.

(** ** Probes *)

Definition reaches (a b : string) : bool := stored a && stored b && ancestor a b.

Lemma is_ancestor_reaches a b :
  ∃ r, git_is_ancestor a b = Ok r ∧ bool_decide (r = Ancestor) = reaches a b.
Proof.
  rewrite ancestor_law. eexists. split; [done|]. unfold reaches.
  by destruct (stored a && stored b), (ancestor a b).
Qed.

Lemma yields_ancestry a b :
  yields (ancestry a b) (λ r, ∃ x, r = Ok x ∧ bool_decide (x = Ancestor) = reaches a b).
Proof.
  intros c (Ha & Ho & Hi & Hr). unfold ancestry.
  destruct (is_ancestor_reaches a b) as (r & Hg & Hd).
  destruct (ca_ancestry c !! (a, b)) as [r'|] eqn:Hl.
  { apply Ha in Hl. rewrite Hg in Hl. apply Ok_eq in Hl as <-. split; [by exists r|]. done. }
  rewrite Hg. split; [by exists r|]. split_and!; [|done..].
  intros a' b' x. cbn. destruct (decide ((a', b') = (a, b))) as [[= -> ->]|Hne].
  - rewrite lookup_insert_eq. by intros [= ->].
  - rewrite lookup_insert_ne by congruence. apply Ha.
Qed.

Lemma ancestry_of_eq a b : ancestry_of a b = ancestry a b.
Proof. done. Qed.

Lemma yields_object oid : yields (object_exists_of oid) (λ r, r = Ok (stored oid)).
Proof.
  intros c (Ha & Ho & Hi & Hr). unfold object_exists_of.
  destruct (ca_object_exists c !! oid) as [r'|] eqn:Hl.
  { apply Ho in Hl. rewrite object_law in Hl. cbn. split; [congruence|done]. }
  rewrite object_law. split; [done|]. split_and!; [done| |done..].
  intros o x. cbn. destruct (decide (o = oid)) as [->|Hne].
  - rewrite lookup_insert_eq. intros [= <-]. apply object_law.
  - rewrite lookup_insert_ne by congruence. apply Ho.
Qed.

Definition reflog_retention (oid : string) (condition : CommitGraphCondition)
    : option Retention :=
  if negb (bool_decide (condition = Unreachable)) then None
  else match git_rev_list_reflog_reachable with
  | Ok set => Some (if bool_decide (oid ∈ set) then RetainedByReflog else NotRetained)
  | Err _ => None
  end.

Lemma yields_retention oid condition :
  yields (λ c, let r := retention_of oid condition c in (Ok r.1, r.2))
    (λ r, r = Ok (reflog_retention oid condition)).
Proof.
  intros c Hc. unfold retention_of, reflog_retention. cbn.
  destruct (bool_decide (condition = Unreachable)); cbn; [|by split].
  destruct Hc as (Ha & Ho & Hi & Hr). destruct (ca_retention c) as [set|] eqn:Hs.
  - specialize (Hr set eq_refl). subst set. split.
    + by destruct git_rev_list_reflog_reachable.
    + split_and!; [done..|]. by intros ? [= <-].
  - split; [by destruct git_rev_list_reflog_reachable|]. split_and!; [done..|].
    by intros ? [= <-].
Qed.

(** ** Conditions *)

(** Some other tip descends from the commit. *)
Definition contained (oid : string) (tips : list LiveTip) : bool :=
  existsb (λ t, negb (String.eqb (lt_oid t) oid) && reaches oid (lt_oid t)) tips.

Definition is_tip (oid : string) (tips : list LiveTip) : bool :=
  existsb (λ t, String.eqb (lt_oid t) oid) tips.

(** The condition of a commit under the given tips and merge target. *)
Definition condition (tips : list LiveTip) (target : option string) (oid : string)
    : CommitGraphCondition :=
  if negb (stored oid) then MissingCommit
  else match target with
  | Some target =>
      if String.eqb target oid || reaches oid target then Merged
      else if is_tip oid tips || contained oid tips then Live else Unreachable
  | None =>
      if contained oid tips then Merged else if is_tip oid tips then Live else Unreachable
  end.

Lemma yields_first_containing oid tips :
  yields (first_containing_tip_label oid tips)
    (λ r, ∃ l, r = Ok l ∧ bool_decide (is_Some l) = contained oid tips).
Proof.
  induction tips as [|t tips IH]; cbn [first_containing_tip_label contained existsb].
  { apply yields_pure. by exists None. }
  destruct (String.eqb (lt_oid t) oid) eqn:E; cbn [negb andb orb]; [apply IH|].
  eapply yields_bind_ex; [apply yields_ancestry|]. intros a Ha. cbn beta. rewrite Ha.
  destruct (reaches oid (lt_oid t)); cbn [orb]; [|apply IH].
  apply yields_pure. eexists. split; [done|]. by apply bool_decide_eq_true.
Qed.

Lemma tip_merged_into_eq oid tips : tip_merged_into oid tips = first_containing_tip_label oid tips.
Proof. induction tips as [|t tips IH]; [done|]. cbn. by rewrite IH. Qed.

Lemma yields_broad_merged oid tips default_branch :
  yields (broad_merged_label oid tips default_branch)
    (λ r, ∃ l, r = Ok l ∧ bool_decide (is_Some l) = contained oid tips).
Proof.
  unfold broad_merged_label. eapply yields_bind_ex; [apply yields_first_containing|].
  intros [label|] Hl; [|apply yields_pure; by exists None].
  destruct default_branch as [[o d]|].
  2:{ apply yields_pure. eexists. by split; [done|]. }
  destruct (String.eqb o oid).
  { apply yields_pure. eexists. by split; [done|]. }
  eapply yields_bind_ex; [apply yields_ancestry|]. intros a _. apply yields_pure.
  eexists. by split; [done|].
Qed.

Lemma find_tip_is_tip oid tips : bool_decide (is_Some (find_tip oid tips)) = is_tip oid tips.
Proof.
  unfold find_tip, is_tip. induction tips as [|t tips IH]; [done|]. cbn.
  by destruct (String.eqb (lt_oid t) oid).
Qed.

(** The answer has the condition; its label is left open. *)
Definition conditioned (k : CommitGraphCondition)
    (r : result (CommitGraphCondition * option string)) : Prop := ∃ label, r = Ok (k, label).

Lemma yields_unmerged oid tips narrow : yields (classify_unmerged oid tips narrow)
  (conditioned (if is_tip oid tips || narrow && contained oid tips then Live else Unreachable)).
Proof.
  unfold classify_unmerged. rewrite <- find_tip_is_tip.
  destruct (find_tip oid tips) as [t|]; cbn.
  { apply yields_pure. by exists (lt_label t). }
  destruct narrow; cbn [andb]; [|apply yields_pure; by exists None].
  eapply yields_bind_ex; [apply yields_first_containing|]. intros l <-. apply yields_pure.
  destruct l as [label|]; cbn; by eexists.
Qed.

Lemma yields_classify oid tips integration default_branch :
  yields (classify oid tips integration default_branch)
    (conditioned (condition tips (ir_oid <$> integration) oid)).
Proof.
  unfold classify, condition. eapply yields_bind; [apply yields_pure, object_law|].
  destruct (stored oid) eqn:Hs; cbn [negb]; [|apply yields_pure; by exists None].
  destruct integration as [i|]; cbn [fmap option_fmap option_map].
  - destruct (String.eqb (ir_oid i) oid) eqn:Ei; cbn [orb].
    { eapply yields_bind; [by apply yields_pure|]. apply yields_pure. by eexists. }
    eapply (yields_bind _ _ _ (reaches oid (ir_oid i))).
    { eapply yields_bind_ex; [apply yields_ancestry|]. intros a <-. by apply yields_pure. }
    destruct (reaches oid (ir_oid i)); [apply yields_pure; by eexists|].
    apply (yields_unmerged oid tips true).
  - eapply yields_bind_ex; [apply yields_broad_merged|]. intros l Hl. rewrite <- Hl.
    destruct l as [label|]; cbn.
    { apply yields_pure. by eexists. }
    pose proof (yields_unmerged oid tips false) as Hu. cbn [andb] in Hu.
    by rewrite orb_false_r in Hu.
Qed.

(** ** The batch *)

(** What a batch that was built knows. *)
Definition built (b : LivenessBatch) : Prop :=
  Forall (λ t, stored (lt_oid t) = true) (lb_tips b) ∧
  (∀ x, x ∈ lb_broad_reachable b ↔
    ∃ t, t ∈ lb_tips b ∧ ancestor x (lt_oid t) = true) ∧
  ∀ i, lb_integration b = Some i → stored (ir_oid i) = true ∧
    ∀ x, x ∈ lb_integration_reachable b ↔ ancestor x (ir_oid i) = true.

Lemma build_batch_built integration_ref b : build_batch integration_ref = Ok b →
  built b ∧ live_tips = Ok (lb_tips b) ∧
  match integration_ref with
  | Some reference => ∃ i, resolve_integration reference = Ok i ∧ lb_integration b = Some i
  | None => lb_integration b = None
  end.
Proof.
  unfold build_batch. intros (tips & Ht & (X & HX & Hb)%bind_Ok)%bind_Ok.
  apply reachable_law in HX as [Hs HX]. rewrite Forall_fmap in Hs.
  assert (∀ x, x ∈ X ↔ ∃ t, t ∈ tips ∧ ancestor x (lt_oid t) = true) as HX'.
  { intros x. rewrite HX. split.
    - intros (o & (t & -> & Hin)%list_elem_of_fmap & Ha). by exists t.
    - intros (t & Hin & Ha). exists (lt_oid t). split; [|done]. apply list_elem_of_fmap. eauto. }
  destruct integration_ref as [reference|].
  - apply bind_Ok in Hb as (oid & Ho & (Y & HY & Hb)%bind_Ok). apply Ok_eq in Hb as <-.
    apply reachable_law in HY as [Hso HY]. rewrite Forall_singleton in Hso.
    split_and!; [split_and!; [done|done|]|done|].
    + intros i [= <-]. split; [done|]. intros x. cbn. rewrite HY.
      setoid_rewrite list_elem_of_singleton. naive_solver.
    + eexists. unfold resolve_integration. rewrite Ho. by split.
  - apply Ok_eq in Hb as <-. split_and!; [split_and!; [done|done|done]|done|done].
Qed.

Lemma is_tip_true oid tips : is_tip oid tips = true ↔ ∃ t, t ∈ tips ∧ lt_oid t = oid.
Proof.
  unfold is_tip. rewrite existsb_exists. setoid_rewrite String.eqb_eq.
  by setoid_rewrite list_elem_of_In.
Qed.

Lemma contained_true oid tips : contained oid tips = true ↔
  ∃ t, t ∈ tips ∧ lt_oid t ≠ oid ∧ reaches oid (lt_oid t) = true.
Proof.
  unfold contained. rewrite existsb_exists. split.
  - intros (t & Hin & [Hne%negb_true_iff%String.eqb_neq Hr]%andb_true_iff). exists t.
    by rewrite list_elem_of_In.
  - intros (t & Hin & Hne & Hr). exists t. rewrite <- list_elem_of_In, Hr, andb_true_r.
    by apply String.eqb_neq in Hne as ->.
Qed.

(** Membership in the resolved set is reachability from a tip. *)
Lemma reachable_spec b oid : built b →
  bool_decide (oid ∈ lb_broad_reachable b) = is_tip oid (lb_tips b) || contained oid (lb_tips b).
Proof.
  intros (Hs & HX & _). apply eq_true_iff_eq.
  rewrite bool_decide_eq_true, HX, orb_true_iff, is_tip_true, contained_true. split.
  - intros (t & Hin & Ha). destruct (decide (lt_oid t = oid)) as [He|He]; [left; eauto|right].
    exists t. split_and!; [done|done|]. rewrite Forall_forall in Hs. specialize (Hs t Hin).
    unfold reaches. rewrite Hs, (ancestor_stored oid (lt_oid t) Hs Ha), Ha. done.
  - rewrite Forall_forall in Hs. intros [(t & Hin & <-)|(t & Hin & _ & Hr)]; exists t.
    + split; [done|]. apply ancestor_refl, Hs, Hin.
    + unfold reaches in Hr. apply andb_true_iff in Hr as [_ Ha]. done.
Qed.

Lemma tip_stored b oid : built b →
  is_tip oid (lb_tips b) || contained oid (lb_tips b) = true → stored oid = true.
Proof.
  intros (Hs & _). rewrite Forall_forall in Hs.
  rewrite orb_true_iff, is_tip_true, contained_true.
  intros [(t & Hin & <-)|(t & _ & _ & Hr)]; [by apply Hs|].
  unfold reaches in Hr. by destruct (stored oid).
Qed.

Lemma yields_unreachable oid :
  yields (unreachable_or_missing oid) (conditioned (if stored oid then Unreachable else MissingCommit)).
Proof.
  unfold unreachable_or_missing. eapply yields_bind; [apply yields_object|]. cbn beta.
  apply yields_pure. by exists None.
Qed.

Lemma yields_batch_unmerged b oid narrow : built b →
  yields (batch_unmerged b oid narrow)
    (conditioned
      (if is_tip oid (lb_tips b) then
         if negb narrow && contained oid (lb_tips b) then Merged else Live
       else if narrow && contained oid (lb_tips b) then Live
       else if stored oid then Unreachable else MissingCommit)).
Proof.
  intros Hb. unfold batch_unmerged. rewrite <- (find_tip_is_tip oid).
  destruct (find_tip oid (lb_tips b)) as [t|] eqn:Hf; cbn.
  - destruct narrow; cbn [negb andb].
    { eapply yields_bind; [by apply yields_pure|]. apply yields_pure. by eexists. }
    rewrite tip_merged_into_eq. eapply yields_bind_ex; [apply yields_first_containing|].
    intros l <-. apply yields_pure. destruct l; cbn; by eexists.
  - rewrite reachable_spec by done.
    pose proof (find_tip_is_tip oid (lb_tips b)) as Ht. rewrite Hf in Ht. cbn in Ht.
    rewrite <- Ht. cbn [orb]. destruct (narrow && contained oid (lb_tips b)).
    + apply yields_pure. by eexists.
    + apply yields_unreachable.
Qed.

(** The batch gives every commit the condition the walk gives it. *)
Lemma yields_batch_classify b use oid : built b →
  yields (batch_classify b use oid)
    (conditioned (condition (lb_tips b) (ir_oid <$> if use then lb_integration b else None) oid)).
Proof.
  intros Hb. unfold batch_classify, condition.
  pose proof (reachable_spec b oid Hb) as Hreach. pose proof (tip_stored b oid Hb) as Hst.
  destruct (if use then lb_integration b else None) as [i|] eqn:Hi; cbn [fmap option_fmap option_map].
  - assert (lb_integration b = Some i) as Hi' by (by destruct use).
    destruct (proj2 (proj2 Hb) i Hi') as [His Hin].
    assert (bool_decide (oid ∈ lb_integration_reachable b) =
      stored oid && (String.eqb (ir_oid i) oid || reaches oid (ir_oid i))) as ->.
    { apply eq_true_iff_eq. rewrite bool_decide_eq_true, Hin, andb_true_iff, orb_true_iff.
      unfold reaches. rewrite His, String.eqb_eq. split.
      - intros Ha. pose proof (ancestor_stored oid _ His Ha) as Hso. rewrite Hso, Ha. auto.
      - intros [Hso [He|Ha]]; [by subst; apply ancestor_refl|].
        rewrite Hso in Ha. done. }
    destruct (stored oid) eqn:Hso; cbn [andb negb].
    + destruct (String.eqb (ir_oid i) oid || reaches oid (ir_oid i)); [apply yields_pure; by eexists|].
      pose proof (yields_batch_unmerged b oid true Hb) as Hu. cbn [negb andb] in Hu.
      rewrite Hso in Hu. by destruct (is_tip oid (lb_tips b)), (contained oid (lb_tips b)).
    + pose proof (yields_batch_unmerged b oid true Hb) as Hu. rewrite Hso in Hu.
      cbn [negb andb] in Hu. destruct (is_tip oid (lb_tips b)), (contained oid (lb_tips b)); cbn in *;
        try (by specialize (Hst eq_refl)); done.
  - fold (is_tip oid (lb_tips b)). rewrite Hreach.
    pose proof (yields_batch_unmerged b oid false Hb) as Hu. cbn [negb andb] in Hu.
    destruct (stored oid) eqn:Hso; cbn [negb];
      destruct (is_tip oid (lb_tips b)), (contained oid (lb_tips b)); cbn in *;
      try (by specialize (Hst eq_refl)); try done; apply yields_pure; by eexists.
Qed.

(** ** The enrichment *)

(** A row without its branch label. *)
Definition unlabelled (c : CommitLiveness) : CommitLiveness :=
  {| cl_commit_oid := cl_commit_oid c; cl_condition := cl_condition c; cl_live_branch := None;
     cl_retention := cl_retention c |}.

(** The rows of the current commits, each commit once. *)
Fixpoint rows (k : string → CommitGraphCondition) (commits : list CurrentCommitAssociation)
    (seen : gset string) : list CommitLiveness :=
  match commits with
  | [] => []
  | commit :: commits =>
      let oid := ce_commit_oid commit in
      if bool_decide (oid ∈ seen) then rows k commits seen
      else {| cl_commit_oid := oid; cl_condition := k oid; cl_live_branch := None;
              cl_retention := reflog_retention oid (k oid) |} :: rows k commits ({[oid]} ∪ seen)
  end.

Lemma yields_conditions f k commits seen : (∀ oid, yields (f oid) (conditioned (k oid))) →
  yields (commit_conditions f commits seen)
    (λ r, ∃ pc, r = Ok pc ∧ unlabelled <$> pc = rows k commits seen).
Proof.
  intros Hf. revert seen. induction commits as [|c commits IH]; intros seen;
    cbn [commit_conditions rows].
  { apply yields_pure. by exists []. }
  destruct (bool_decide (ce_commit_oid c ∈ seen)); [apply IH|].
  eapply (yields_bind_ex _ _ (λ a, a.1 = k (ce_commit_oid c))).
  { intros s Hs. destruct (Hf (ce_commit_oid c) s Hs) as [[label Hl] Hv].
    split; [|done]. by exists (k (ce_commit_oid c), label). }
  intros [cond label] Hc. cbn in Hc. subst cond.
  eapply yields_bind; [apply yields_retention|]. cbn [fst snd].
  eapply yields_bind_ex; [apply IH|]. intros rest Hrest. apply yields_pure.
  eexists. split; [done|]. rewrite fmap_cons, Hrest. done.
Qed.

Lemma condition_of_unlabelled pc oid :
  condition_of (unlabelled <$> pc) oid = condition_of pc oid.
Proof.
  unfold condition_of. induction pc as [|c pc IH]; [done|]. cbn.
  by destruct (String.eqb (cl_commit_oid c) oid).
Qed.

Lemma condition_of_rows k commits seen oid cond :
  condition_of (rows k commits seen) oid = Some cond → cond = k oid.
Proof.
  revert seen; induction commits as [|c commits IH]; intros seen; cbn [rows]; [done|].
  destruct (bool_decide (ce_commit_oid c ∈ seen)); [apply IH|]. unfold condition_of.
  cbn [List.find cl_commit_oid]. destruct (String.eqb_spec (ce_commit_oid c) oid) as [->|].
  - by intros [= <-].
  - apply IH.
Qed.

Lemma existsb_ext' {A} (f g : A → bool) l : (∀ x, f x = g x) → existsb f l = existsb g l.
Proof. intros Hfg. induction l as [|x l IH]; [done|]. cbn. by rewrite Hfg, IH. Qed.

Lemma forallb_ext' {A} (f g : A → bool) l : (∀ x, f x = g x) → forallb f l = forallb g l.
Proof. intros Hfg. induction l as [|x l IH]; [done|]. cbn. by rewrite Hfg, IH. Qed.

(** Some order of the maximal commits. *)
Definition independent (l : list string) : list string :=
  elements (maximal_commits (set_of_list l)).

(** The headline and diagnostics the rows determine. *)
Definition landing (view : RevisionCommitRangeView) (pc : list CommitLiveness)
    : result (option CommitGraphCondition * list ProjectionDiagnostic) :=
  (landing_analysis view pc (λ l, pure_io (Ok (independent l))) no_caches).1.

Lemma yields_landing view pc ind :
  (∀ l, Forall (λ t, stored t = true) l → yields (ind l)
    (λ r, ∃ m, r = Ok m ∧ set_of_list m = maximal_commits (set_of_list l))) →
  (∀ oid, is_alive (condition_of pc oid) = true → stored oid = true) →
  yields (landing_analysis view pc ind) (λ r, r = landing view (unlabelled <$> pc)).
Proof.
  intros Hind Hst. unfold landing, landing_analysis.
  destruct (claims_from (crv_current_commits view) ∅) as [|claim claims].
  { apply yields_pure. cbn. by rewrite <- list_fmap_compose. }
  set (all := claim :: claims). set (alive := List.filter _ all).
  assert (List.filter (λ c, is_alive (condition_of (unlabelled <$> pc) (ce_commit_oid c))) all =
    alive) as Halive.
  { apply List.filter_ext. intros c. by rewrite condition_of_unlabelled. }
  rewrite Halive. set (oids := ce_commit_oid <$> alive).
  assert (Forall (λ t, stored t = true) oids) as Hoids.
  { apply Forall_fmap, Forall_forall. intros c Hc%list_elem_of_In.
    unfold alive in Hc. apply filter_In in Hc as [_ Hc]. by apply Hst. }
  eapply yields_bind_ex; [apply Hind, Hoids|]. intros m Hm. cbn [io_bind pure_io].
  unfold independent. rewrite Hm.
  assert (set_of_list (elements (maximal_commits (set_of_list oids))) =
    maximal_commits (set_of_list oids)) as -> by apply list_to_set_elements_L.
  set (competing := List.filter _ all).
  destruct competing as [|c1 [|c2 rest]] eqn:Hcomp.
  - apply yields_pure. cbn [pure_io fst].
    rewrite (forallb_ext' (λ c, bool_decide (condition_of (unlabelled <$> pc) (ce_commit_oid c) =
      Some MissingCommit)) (λ c, bool_decide (condition_of pc (ce_commit_oid c) =
      Some MissingCommit))) by (intros c; by rewrite condition_of_unlabelled). done.
  - apply yields_pure. cbn. by rewrite condition_of_unlabelled.
  - destruct (size (set_of_list (ce_tree_oid <$> c1 :: c2 :: rest)) =? 1).
    + apply yields_pure. cbn [pure_io fst].
      rewrite (existsb_ext' (λ c, bool_decide (condition_of (unlabelled <$> pc) (ce_commit_oid c) =
        Some Merged)) (λ c, bool_decide (condition_of pc (ce_commit_oid c) = Some Merged)))
        by (intros c; by rewrite condition_of_unlabelled). done.
    + unfold io_bind at 2. cbn [pure_io fst].
      destruct (mapM _ (c1 :: c2 :: rest)) as [l|e] eqn:Hl.
      * eapply yields_bind; [by apply yields_pure|]. by apply yields_pure.
      * intros s Hs. unfold io_bind, pure_io. by cbn.
Qed.

Lemma yields_independent_git l : Forall (λ t, stored t = true) l →
  yields (pure_io (git_independent_commits l))
    (λ r, ∃ m, r = Ok m ∧ set_of_list m = maximal_commits (set_of_list l)).
Proof. intros Hl. by apply yields_pure, independent_law. Qed.

Lemma yields_independent_of l : Forall (λ t, stored t = true) l →
  yields (independent_of l)
    (λ r, ∃ m, r = Ok m ∧ set_of_list m = maximal_commits (set_of_list l)).
Proof.
  intros Hl c (Ha & Ho & Hi & Hr). unfold independent_of. cbv zeta.
  destruct (ca_independent c !! sort_by String.compare l) as [m|] eqn:Hm.
  - split; [|done]. exists m. split; [done|]. destruct (Hi _ _ Hm) as (l' & Hs & Hg).
    assert (l' ≡ₚ l) as Hp by (by rewrite <- (sort_by_Permutation String.compare l'), Hs,
      sort_by_Permutation).
    destruct (independent_law l') as (m' & Hg' & Hset); [by rewrite Hp|].
    rewrite Hg in Hg'. apply Ok_eq in Hg' as <-. rewrite Hset. unfold set_of_list.
    by rewrite Hp.
  - destruct (independent_law l Hl) as (m & Hg & Hset). rewrite Hg. split; [by exists m|].
    split_and!; [done|done| |done]. intros key m'. cbn.
    destruct (decide (key = sort_by String.compare l)) as [->|Hne].
    + rewrite lookup_insert_eq. intros [= <-]. by exists l.
    + rewrite lookup_insert_ne by done. apply Hi.
Qed.

(** An enrichment without its branch labels. *)
Definition without_labels (e : LivenessEnrichment) : LivenessEnrichment :=
  {| le_per_commit := unlabelled <$> le_per_commit e; le_headline := le_headline e;
     le_ref_continuity := le_ref_continuity e; le_diagnostics := le_diagnostics e |}.

(** What the tips and the merge target determine. *)
Definition enrichment (tips : list LiveTip) (target : option string)
    (view : RevisionCommitRangeView) : result LivenessEnrichment :=
  match crv_current_commits view with
  | [] => Ok no_enrichment
  | commits =>
      let per_commit := rows (condition tips target) commits ∅ in
      let? found := landing view per_commit in
      Ok {| le_per_commit := per_commit; le_headline := found.1; le_ref_continuity := [];
            le_diagnostics := found.2 |}
  end.

Lemma condition_stored tips target oid :
  is_alive (Some (condition tips target oid)) = true → stored oid = true.
Proof. unfold condition. by destruct (stored oid). Qed.

Lemma yields_enrich tips target view f ind :
  (∀ oid, yields (f oid) (conditioned (condition tips target oid))) →
  (∀ l, Forall (λ t, stored t = true) l → yields (ind l)
    (λ r, ∃ m, r = Ok m ∧ set_of_list m = maximal_commits (set_of_list l))) →
  crv_current_commits view ≠ [] →
  yields (let! per_commit := commit_conditions f (crv_current_commits view) ∅ in
          let! found := landing_analysis view per_commit ind in
          pure_io (Ok {| le_per_commit := per_commit; le_headline := found.1;
                         le_ref_continuity := []; le_diagnostics := found.2 |}))
    (λ r, without_labels <$> r = enrichment tips target view).
Proof.
  intros Hf Hind Hne. eapply yields_bind_ex; [by apply yields_conditions|]. intros pc Hpc.
  assert (∀ oid, is_alive (condition_of pc oid) = true → stored oid = true) as Hst.
  { intros oid Ha. rewrite <- condition_of_unlabelled, Hpc in Ha.
    destruct (condition_of (rows _ _ _) oid) as [cond|] eqn:Hc; [|done].
    apply condition_of_rows in Hc as ->. by eapply condition_stored. }
  pose proof (yields_landing view pc ind Hind Hst) as Hland. unfold enrichment.
  destruct (crv_current_commits view) as [|c0 cs]; [done|]. cbv zeta. rewrite <- Hpc.
  intros s Hs. unfold io_bind. destruct (Hland s Hs) as [Hr Hv].
  destruct (landing_analysis view pc ind s) as [r s']. cbn [fst snd] in *. subst r.
  by destruct (landing view (unlabelled <$> pc)) as [found|e].
Qed.

Lemma enrich_liveness_spec view integration_ref tips integration :
  live_tips = Ok tips →
  match integration_ref with
  | Some reference => ∃ i, resolve_integration reference = Ok i ∧ integration = Some i
  | None => integration = None
  end →
  without_labels <$> enrich_liveness view integration_ref =
    enrichment tips (ir_oid <$> integration) view.
Proof.
  intros Ht Hi. unfold enrich_liveness.
  destruct (crv_current_commits view) as [|c0 cs] eqn:Hcs.
  { unfold enrichment. by rewrite Hcs. }
  rewrite Ht. cbn [rbind].
  assert (match integration_ref with
    | Some reference => let? r := resolve_integration reference in Ok (Some r)
    | None => Ok None
    end = Ok integration) as ->.
  { destruct integration_ref; [|by subst]. destruct Hi as (i & -> & ->). done. }
  cbn [rbind]. set (d := match integration_ref with Some _ => None | None => _ end).
  rewrite <- Hcs.
  apply (yields_enrich tips (ir_oid <$> integration) view
    (λ oid, classify oid tips integration d) (λ l, pure_io (git_independent_commits l)));
    [intros oid; apply yields_classify|apply yields_independent_git|by rewrite Hcs|
     apply valid_no_caches].
Qed.

Lemma batch_enrich_spec b use view : built b →
  yields (batch_enrich b use view) (λ r, without_labels <$> r =
    enrichment (lb_tips b) (ir_oid <$> if use then lb_integration b else None) view).
Proof.
  intros Hb. unfold batch_enrich. destruct (crv_current_commits view) as [|c0 cs] eqn:Hcs.
  { apply yields_pure. unfold enrichment. by rewrite Hcs. }
  rewrite <- Hcs. apply yields_enrich; [|apply yields_independent_of|by rewrite Hcs].
  intros oid. by apply yields_batch_classify.
Qed.

(** C14. The reachability resolved once for a list of revisions answers as the walk that
    asks git about every commit and tip.  From a batch that was built, and whatever
    correct answers the memo tables already hold (none at the start), the merge-status
    enrichment and the broad one of any revision have the conditions, retention, headline
    and diagnostics [enrich_liveness] gives under the same integration ref, or fail as it
    does; only branch labels may differ.  The tables stay correct. *)
Theorem batch_matches_walk integration_ref b
    (Hbuild : build_batch integration_ref = Ok b) :
  valid no_caches ∧
  ∀ view c, valid c →
    valid (enrich_merge b view c).2 ∧ valid (enrich_broad b view c).2 ∧
    without_labels <$> (enrich_merge b view c).1 =
      without_labels <$> enrich_liveness view integration_ref ∧
    without_labels <$> (enrich_broad b view c).1 =
      without_labels <$> enrich_liveness view None.
Proof.
  split; [apply valid_no_caches|]. intros view c Hc.
  destruct (build_batch_built _ _ Hbuild) as (Hb & Ht & Hi).
  destruct (batch_enrich_spec b true view Hb c Hc) as [Hm Hvm].
  destruct (batch_enrich_spec b false view Hb c Hc) as [Hbr Hvb].
  split_and!; [done|done| |].
  - unfold enrich_merge. rewrite Hm. symmetry. apply enrich_liveness_spec; [done|].
    by destruct integration_ref.
  - unfold enrich_broad. rewrite Hbr. symmetry.
    apply (enrich_liveness_spec view None (lb_tips b) None); done.
Qed.
End liveness.

(** ** A repository *)

Module Example.
Definition commits : gset string := {["aaa"; "bbb"; "ccc"]}.

(** [aaa] is the parent of [bbb], the tip of [main]; nothing reaches [ccc]. *)
#[local] Instance graph : CommitGraph := {|
  stored oid := bool_decide (oid ∈ commits);
  ancestor a b := bool_decide (a ∈ commits) && bool_decide (b ∈ commits) &&
    (String.eqb a b || (String.eqb a "aaa" && String.eqb b "bbb"))
|}.

#[local] Instance git : Git := {|
  git_for_each_ref patterns := Ok [{| ref_name := "refs/heads/main"; ref_oid := "bbb" |}];
  git_worktree_list := Ok [{| wt_head := Some "bbb"; wt_branch := Some "refs/heads/main" |}];
  git_default_branch_ref := Ok (Some "refs/heads/main");
  git_rev_parse_commit_oid rev := Ok "bbb";
  git_rev_list_range range := Ok [];
  git_object_exists oid := Ok (stored oid);
  git_is_ancestor a b := Ok (if stored a && stored b
    then if ancestor a b then Ancestor else NotAncestor else MissingObject);
  git_rev_list_reachable tips :=
    if forallb stored tips
    then Ok (filter (λ x, existsb (ancestor x) tips = true) commits)
    else Err (Message "bad object");
  git_rev_list_reflog_reachable := Ok {["ccc"]};
  git_independent_commits l :=
    if forallb stored l then Ok (elements (maximal_commits (set_of_list l)))
    else Err (Message "bad object");
  git_reflog_entries name := Ok [];
  git_commit_tree_oid oid := Ok oid;
  git_ref_state_lines := Ok "bbb refs/heads/main "
|}.

Lemma git_laws : GitLaws.
Proof.
  split.
  - done.
  - done.
  - intros tips X. cbn [git_rev_list_reachable git].
    destruct (forallb stored tips) eqn:Hs; [|done]. intros Heq. apply Ok_eq in Heq as <-.
    rewrite forallb_forall in Hs. split.
    { apply Forall_forall. intros t Ht%list_elem_of_In. by apply Hs. }
    intros x. rewrite elem_of_filter, existsb_exists. setoid_rewrite <- list_elem_of_In. split.
    + intros [(t & Ht & Ha) _]. by exists t.
    + intros (t & Ht & Ha). split; [by exists t|]. cbn [ancestor graph] in Ha.
      apply andb_true_iff in Ha as [[Hx _]%andb_true_iff _]. by apply bool_decide_eq_true in Hx.
  - intros l Hl. cbn [git_independent_commits git].
    assert (forallb stored l = true) as ->.
    { apply forallb_forall. intros t Ht%list_elem_of_In. by rewrite Forall_forall in Hl; apply Hl. }
    eexists. split; [done|]. unfold set_of_list. by rewrite list_to_set_elements_L.
  - intros x t _. cbn [ancestor stored graph]. rewrite !andb_true_iff. by intros [[? _] _].
  - intros t. cbn [ancestor stored graph]. intros ->. by rewrite String.eqb_refl.
Qed.

Definition edge (oid tree id : string) : CurrentCommitAssociation :=
  {| ce_commit_oid := oid; ce_tree_oid := tree; ce_commit_association_id := Some id;
     ce_source := Association |}.

Definition view : RevisionCommitRangeView := {|
  crv_revision_id := "rev:1"; crv_anchored := true;
  crv_current_commits := [edge "aaa" "t1" "assoc:1"; edge "ccc" "t2" "assoc:2"];
  crv_current_refs := []; crv_withdrawn_commits := []; crv_withdrawn_refs := [];
  crv_diagnostics := [] |}.

Definition batch : LivenessBatch :=
  match build_batch (Some "main") with
  | Ok b => b
  | Err _ => {| lb_tips := []; lb_broad_reachable := ∅; lb_integration := None;
                lb_integration_reachable := ∅ |}
  end.

Lemma batch_built : build_batch (Some "main") = Ok batch.
Proof. vm_compute. reflexivity. Qed.

Lemma view_conditions :
  (λ e, cl_condition <$> le_per_commit e) <$> enrich_liveness view (Some "main") =
    Ok [Merged; Unreachable].
Proof. vm_compute. reflexivity. Qed.
End Example.

Lemma batch_matches_walk_witness :
  without_labels <$> (@enrich_merge Example.git Example.batch Example.view no_caches).1 =
  without_labels <$> @enrich_liveness Example.git Example.view (Some "main").
Proof.
  pose proof (@batch_matches_walk Example.git Example.graph Example.git_laws (Some "main")
    Example.batch Example.batch_built) as [Hc Hm].
  destruct (Hm Example.view no_caches Hc) as (_ & _ & He & _). exact He.
Defined.
