(* ===== verification/Artifacts.v ===== *)
(** * Content artifacts ([src/src/session/store], [src/src/session/workflow])

    Note bodies ([body_artifact.rs]) and captured objects ([object_artifact.rs]) as
    content-addressed documents, their validated storage over any content store
    ([content.rs]), and the artifacts a set of events refers to ([artifact_transfer.rs]).
    The document of a diff file is generated code: its two directions are operations of
    the classes [Serialize] and [Deserialize]. *)

From S2P Require Import Prelude RustStr BTree Model GitRaw GitPatch GitDiff CanonicalHash Crypto.
From S2P Require Import Events ChangeClaims Relations Payloads Wire Journal.

(** ** Paths *)

(** [Path::components] has a parent or root component (Unix). *)
Definition escapes (path : string) : bool :=
  starts_with "/" path || existsb (String.eqb "..") (split_char "/" path).

(** [str::strip_suffix]. *)
Definition strip_suffix (suffix s : string) : option string :=
  str_rev <$> strip_prefix (str_rev suffix) (str_rev s).

Definition invalid_artifact_path (relative_path : string) : ShoreError :=
  Message ("Invalid artifact path: " +:+ relative_path).

Definition validate_note_body_artifact_path (relative_path : string) : result string :=
  if escapes relative_path then Err (invalid_artifact_path relative_path)
  else match path ← strip_prefix "artifacts/notes/" relative_path; strip_suffix ".json" path with
  | None => Err (invalid_artifact_path relative_path)
  | Some stem =>
      if negb (String.length stem =? 64) || negb (all_bytes is_ascii_hexdigit stem)
      then Err (invalid_artifact_path relative_path) else Ok stem
  end.

Definition validate_body_artifact_read_path (relative_path : string) : result unit :=
  if negb (starts_with "artifacts/notes/" relative_path) || escapes relative_path
  then Err (invalid_artifact_path relative_path) else Ok tt.

Definition note_body_content_hash_from_path (relative_path : string) : result string :=
  let? stem := validate_note_body_artifact_path relative_path in
  Ok ("sha256:" +:+ stem).

(** ** Note bodies ([body_artifact.rs]) *)

Definition BODY_INLINE_LIMIT : nat := 4096.

Record NoteBodyEnvelope := {
  nb_schema : string;
  nb_version : N;
  nb_body : string;
  nb_content_encoding : list string
}.

#[export] Instance NoteBodyEnvelope_eq_dec : EqDecision NoteBodyEnvelope.
Proof. solve_decision. Defined.

Definition NoteBodyEnvelope_new (body : string) : NoteBodyEnvelope :=
  {| nb_schema := "shore.note-body"; nb_version := 1; nb_body := body;
     nb_content_encoding := [] |}.

#[export] Instance NoteBodyEnvelope_Serialize : Serialize NoteBodyEnvelope := λ e,
  JObject ([("schema", to_json (nb_schema e)); ("version", to_json (nb_version e));
            ("body", to_json (nb_body e))] ++
    skip_field (match nb_content_encoding e with [] => true | _ => false end)
      "contentEncoding" (nb_content_encoding e)).

#[export] Instance NoteBodyEnvelope_Deserialize `{JsonReader} : Deserialize NoteBodyEnvelope := λ v,
  let? o := struct_entries ["schema"; "version"; "body"; "contentEncoding"] 3 v in
  let? schema := req o "schema" in
  let? version := req o "version" in
  let? body := req o "body" in
  let? content_encoding := dflt o "contentEncoding" [] in
  Ok {| nb_schema := schema; nb_version := version; nb_body := body;
        nb_content_encoding := content_encoding |}.

Inductive BodyArtifactOutcome :=
| InlineBody (byte_size : nat)
| ArtifactBody (relative_path : string) (byte_size : nat) (body_envelope : NoteBodyEnvelope).

Section bodies.
Context `{Digest} `{JsonReader}.

Definition stage_body_artifact (body_bytes : string) : result BodyArtifactOutcome :=
  let? body := map_err (λ err, Message ("body artifact must be utf-8: " +:+ utf8_error_display err))
    (from_utf8 body_bytes) in
  let byte_size := String.length body_bytes in
  if String.length body_bytes <=? BODY_INLINE_LIMIT then Ok (InlineBody byte_size)
  else Ok (ArtifactBody ("artifacts/notes/" +:+ sha256_bytes_hex body_bytes +:+ ".json")
    byte_size (NoteBodyEnvelope_new body)).

Definition parse_note_body_artifact (bytes : string) : result NoteBodyEnvelope :=
  let? artifact := from_slice (A := NoteBodyEnvelope) bytes in
  if negb (String.eqb (nb_schema artifact) "shore.note-body") || negb (nb_version artifact =? 1)%N
  then Err (Message ("Unsupported note body artifact schema/version: " +:+ nb_schema artifact +:+
    " v" +:+ dec (Z.of_N (nb_version artifact))))
  else Ok artifact.

Definition validate_note_body_artifact_bytes (relative_path expected_content_hash bytes : string)
    : result NoteBodyEnvelope :=
  let? path_content_hash := note_body_content_hash_from_path relative_path in
  if negb (String.eqb path_content_hash expected_content_hash) then
    Err (Message ("note body artifact locator hash mismatch for " +:+ expected_content_hash))
  else
    let? artifact := parse_note_body_artifact bytes in
    if negb (String.eqb ("sha256:" +:+ sha256_bytes_hex (nb_body artifact)) expected_content_hash)
    then Err (Message ("note body artifact content hash mismatch for " +:+ expected_content_hash))
    else Ok artifact.
End bodies.

Inductive BodyArtifactField := FieldBody | FieldReason | FieldSummary.

Definition payload_field (f : BodyArtifactField) : string :=
  match f with
  | FieldBody => "bodyArtifactPath"
  | FieldReason => "reasonArtifactPath"
  | FieldSummary => "summaryArtifactPath"
  end.

Definition body_artifact_field (event_type : EventType) : option BodyArtifactField :=
  match event_type with
  | ReviewObservationRecorded | InputRequestOpened | ReviewNoteImported
  | TaskObservationRecorded => Some FieldBody
  | InputRequestResponded => Some FieldReason
  | ReviewAssessmentRecorded | ValidationCheckRecorded => Some FieldSummary
  | WorkObjectProposed | ReviewInitialized | RevisionRefAssociated | RevisionRefWithdrawn
  | RevisionCommitAssociated | RevisionCommitWithdrawn | TaskCheckpointCaptured
  | EventSignatureRecorded | ArtifactRemoved | ChangeDeclared | ChangeMembershipAsserted
  | ChangeMembershipWithdrawn | ChangeLinkAsserted | ChangeRevisionRelationAsserted
  | ChangeRevisionRelationWithdrawn | RevisionRelationAttested | ReviewFactPorted => None
  end.

(** ** Captured objects ([object_artifact.rs], [model/review.rs]) *)

Definition OBJECT_ARTIFACT_SCHEMA : string := "shore.object".
Definition OBJECT_ARTIFACT_VERSION : N := 2.

Record DiffSnapshot := {
  ds_review_id : string;
  ds_object_id : ObjectId;
  ds_files : list DiffFile
}.

Record ObjectArtifact := {
  oa_schema : string;
  oa_version : N;
  oa_snapshot : DiffSnapshot;
  oa_content_hash : string;
  oa_content_encoding : list string
}.

#[export] Instance DiffRow_eq_dec : EqDecision DiffRow.
Proof. solve_decision. Defined.
#[export] Instance ReviewHunk_eq_dec : EqDecision ReviewHunk.
Proof. solve_decision. Defined.
#[export] Instance FileMetadataKind_eq_dec : EqDecision FileMetadataKind.
Proof. solve_decision. Defined.
#[export] Instance FileMetadataRow_eq_dec : EqDecision FileMetadataRow.
Proof. solve_decision. Defined.
#[export] Instance DiffFile_eq_dec : EqDecision DiffFile.
Proof. solve_decision. Defined.
#[export] Instance DiffSnapshot_eq_dec : EqDecision DiffSnapshot.
Proof. solve_decision. Defined.
#[export] Instance ObjectArtifact_eq_dec : EqDecision ObjectArtifact.
Proof. solve_decision. Defined.

#[export] Instance DiffSnapshot_Serialize `{Serialize DiffFile} : Serialize DiffSnapshot := λ s,
  JObject [("review_id", to_json (ds_review_id s)); ("object_id", to_json (ds_object_id s));
           ("files", to_json (ds_files s))].

#[export] Instance DiffSnapshot_Deserialize `{JsonReader} `{!Deserialize DiffFile}
    : Deserialize DiffSnapshot := λ v,
  let? o := struct_entries ["review_id"; "object_id"; "files"] 3 v in
  let? review_id := req o "review_id" in
  let? object_id := req o "object_id" in
  let? files := req o "files" in
  Ok {| ds_review_id := review_id; ds_object_id := object_id; ds_files := files |}.

#[export] Instance ObjectArtifact_Serialize `{Serialize DiffFile} : Serialize ObjectArtifact := λ a,
  JObject ([("schema", to_json (oa_schema a)); ("version", to_json (oa_version a));
            ("snapshot", to_json (oa_snapshot a)); ("contentHash", to_json (oa_content_hash a))] ++
    skip_field (match oa_content_encoding a with [] => true | _ => false end)
      "contentEncoding" (oa_content_encoding a)).

#[export] Instance ObjectArtifact_Deserialize `{JsonReader} `{!Deserialize DiffFile}
    : Deserialize ObjectArtifact := λ v,
  let? o := struct_entries ["schema"; "version"; "snapshot"; "contentHash"; "contentEncoding"] 4 v in
  let? schema := req o "schema" in
  let? version := req o "version" in
  let? snapshot := req o "snapshot" in
  let? content_hash := req o "contentHash" in
  let? content_encoding := dflt o "contentEncoding" [] in
  Ok {| oa_schema := schema; oa_version := version; oa_snapshot := snapshot;
        oa_content_hash := content_hash; oa_content_encoding := content_encoding |}.

Inductive ObjectArtifactReadFailureKind := ReadMissing | ReadNonTextual | ReadMismatch.

(** [serde_json::Map::remove]. *)
Definition json_remove (o : list (string * json)) (key : string) : list (string * json) :=
  List.filter (λ p, negb (String.eqb p.1 key)) o.

Definition missing_object_artifact (object_id : ObjectId) : ShoreError :=
  Message ("missing artifact for snapshot " +:+ object_id +:+
    "; import referenced artifacts before reading").

Section objects.
Context `{Digest} `{JsonReader} `{!Serialize DiffFile} `{!Deserialize DiffFile}.

Definition object_artifact_content_hash (artifact : ObjectArtifact) : result string :=
  match to_json artifact with
  | JObject object =>
      match json_entry object "contentHash" with
      | None => Err (Message "object artifact hash material is missing contentHash")
      | Some _ =>
          sha256_json_prefixed
            (JObject (json_remove (json_remove object "contentHash") "contentEncoding"))
      end
  | _ => Err (Message "object artifact hash material must be an object")
  end.

Definition build_object_artifact_v2 (snapshot : DiffSnapshot) : result ObjectArtifact :=
  let artifact := {| oa_schema := OBJECT_ARTIFACT_SCHEMA; oa_version := OBJECT_ARTIFACT_VERSION;
    oa_snapshot := snapshot; oa_content_hash := EmptyString; oa_content_encoding := [] |} in
  let? content_hash := object_artifact_content_hash artifact in
  Ok {| oa_schema := oa_schema artifact; oa_version := oa_version artifact;
        oa_snapshot := oa_snapshot artifact; oa_content_hash := content_hash;
        oa_content_encoding := oa_content_encoding artifact |}.

Definition decode_and_validate_object_artifact (bytes : string) : result ObjectArtifact :=
  let? artifact := from_slice (A := ObjectArtifact) bytes in
  if negb (oa_version artifact =? OBJECT_ARTIFACT_VERSION)%N then
    Err (Message ("unsupported object artifact version " +:+ dec (Z.of_N (oa_version artifact)) +:+
      "; only v" +:+ dec (Z.of_N OBJECT_ARTIFACT_VERSION) +:+ " (object-scoped) is supported"))
  else
    let? expected := object_artifact_content_hash artifact in
    if negb (String.eqb (oa_content_hash artifact) expected) then
      Err (Message ("object artifact content hash mismatch for " +:+
        ds_object_id (oa_snapshot artifact)))
    else Ok artifact.

Definition artifact_file_stem (id : string) : string := sha256_bytes_hex id.

Definition content_hash_file_stem (content_hash : string) : string :=
  portable_sha256_file_stem content_hash.

Definition object_content_ref (object_id : ObjectId) : string :=
  "artifacts/objects/" +:+ artifact_file_stem object_id +:+ ".json".

Definition object_content_ref_for_hash (content_hash : string) : string :=
  "artifacts/objects/" +:+ content_hash_file_stem content_hash +:+ ".json".

Definition validate_bound_object_artifact (artifact : ObjectArtifact) (object_id : ObjectId)
    (content_hash : string) : result unit :=
  if negb (String.eqb (ds_object_id (oa_snapshot artifact)) object_id) then
    Err (Message ("object artifact locator mismatch for " +:+ object_id))
  else if negb (String.eqb (oa_content_hash artifact) content_hash) then
    Err (Message ("object artifact content hash mismatch for " +:+ content_hash))
  else Ok tt.

Definition object_artifact_bytes_match_object_id (bytes : string) (object_id : ObjectId)
    : result bool :=
  let? value := from_slice (A := json) bytes in
  Ok match snapshot ← json_get value "snapshot"; json_get snapshot "object_id" with
     | Some (JString id) => String.eqb id object_id
     | _ => false
     end.
End objects.

(** ** Validated storage ([content.rs]) *)

Section content.
Context `{Digest} `{JsonReader} `{!Serialize DiffFile} `{!Deserialize DiffFile}.
Context {S : Type} `{ContentStore S}.

Definition put_object (content_ref bytes : string) (artifact : ObjectArtifact)
    : io S ObjectArtifact :=
  let! outcome := put_once content_ref bytes in
  match outcome with
  | Created => pure_io (Ok artifact)
  | AlreadyExists =>
      let! existing_bytes := get content_ref in
      let! existing := pure_io (decode_and_validate_object_artifact existing_bytes) in
      pure_io (if bool_decide (oa_snapshot existing = oa_snapshot artifact) then Ok existing
        else Err (Message ("object artifact conflict for " +:+
          ds_object_id (oa_snapshot artifact))))
  end.

Definition read_object_bytes_if_exists (content_ref : string) : io S (option string) :=
  get_if_exists content_ref.

Definition read_object_bytes (content_ref : string) (object_id : ObjectId) : io S string :=
  let! bytes := get_if_exists content_ref in
  pure_io (ok_or bytes (missing_object_artifact object_id)).

Definition import_object (object_id : ObjectId) (expected_content_hash bytes : string)
    : io S CreateOutcome :=
  let! artifact := pure_io (decode_and_validate_object_artifact bytes) in
  if negb (String.eqb (ds_object_id (oa_snapshot artifact)) object_id) then
    pure_io (Err (Message ("object artifact locator mismatch for " +:+ object_id)))
  else if negb (String.eqb (oa_content_hash artifact) expected_content_hash) then
    pure_io (Err (Message ("object artifact content hash mismatch for " +:+
      expected_content_hash)))
  else
    let content_ref := object_content_ref_for_hash expected_content_hash in
    let! outcome := put_once content_ref bytes in
    match outcome with
    | Created => pure_io (Ok Created)
    | AlreadyExists =>
        let! existing_bytes := get content_ref in
        let! existing := pure_io (decode_and_validate_object_artifact existing_bytes) in
        pure_io (if bool_decide (existing = artifact) then Ok AlreadyExists
          else Err (Message ("object artifact conflict for " +:+ object_id)))
    end.

Definition put_note_body (content_ref bytes : string) : io S CreateOutcome :=
  let! outcome := put_once content_ref bytes in
  match outcome with
  | Created => pure_io (Ok Created)
  | AlreadyExists =>
      let! existing := get content_ref in
      pure_io (if String.eqb existing bytes then Ok AlreadyExists
        else Err (Message ("note body artifact conflict for " +:+ content_ref)))
  end.

Definition import_body (content_ref expected_content_hash bytes : string) : io S CreateOutcome :=
  let! artifact := pure_io
    (validate_note_body_artifact_bytes content_ref expected_content_hash bytes) in
  let! outcome := put_once content_ref bytes in
  match outcome with
  | Created => pure_io (Ok Created)
  | AlreadyExists =>
      let! existing_bytes := get content_ref in
      let! existing := pure_io
        (validate_note_body_artifact_bytes content_ref expected_content_hash existing_bytes) in
      pure_io (if bool_decide (existing = artifact) then Ok AlreadyExists
        else Err (Message ("note body artifact conflict for " +:+ expected_content_hash)))
  end.

Definition read_note_body_bytes (content_ref expected_content_hash : string) : io S string :=
  let! found := get_if_exists content_ref in
  match found with
  | Some bytes =>
      let! _ := pure_io
        (validate_note_body_artifact_bytes content_ref expected_content_hash bytes) in
      pure_io (Ok bytes)
  | None => pure_io (Err (Message ("missing artifact " +:+ expected_content_hash +:+
      "; import referenced artifacts before reading")))
  end.

Definition read_note_body (content_ref : string) : io S string :=
  let! found := get_if_exists content_ref in
  match found with
  | Some bytes =>
      let! artifact := pure_io (parse_note_body_artifact bytes) in
      pure_io (Ok (nb_body artifact))
  | None => pure_io (Err (Message ("missing artifact " +:+ content_ref +:+
      "; import referenced artifacts before reading")))
  end.

Definition load_body_artifact (relative_path : string) : io S (option string) :=
  let! _ := pure_io (validate_body_artifact_read_path relative_path) in
  let! body := read_note_body relative_path in
  pure_io (Ok (Some body)).

(** *** Object artifacts of a resolved store ([object_artifact.rs]) *)

Definition write_prepared_object_artifact_to (fingerprint_object_id : ObjectId)
    (artifact : ObjectArtifact) : io S ObjectArtifact :=
  if negb (String.eqb (ds_object_id (oa_snapshot artifact)) fingerprint_object_id) then
    pure_io (Err (Message ("object id " +:+ ds_object_id (oa_snapshot artifact) +:+
      " does not match revision fingerprint " +:+ fingerprint_object_id)))
  else
    let content_ref := object_content_ref_for_hash (oa_content_hash artifact) in
    let! bytes := pure_io (to_vec artifact) in
    put_object content_ref bytes artifact.

Definition read_bound_object_artifact_from_backend (object_id : ObjectId) (content_hash : string)
    : io S ObjectArtifact :=
  let! found := read_object_bytes_if_exists (object_content_ref_for_hash content_hash) in
  let! bytes :=
    match found with
    | Some bytes => pure_io (Ok bytes)
    | None => read_object_bytes (object_content_ref object_id) object_id
    end in
  let! artifact := pure_io (decode_and_validate_object_artifact bytes) in
  let! _ := pure_io (validate_bound_object_artifact artifact object_id content_hash) in
  pure_io (Ok artifact).

Definition classify_bound_object_artifact_read_failure_from_backend (object_id : ObjectId)
    (content_hash : string) : io S ObjectArtifactReadFailureKind :=
  let! found := read_object_bytes_if_exists (object_content_ref_for_hash content_hash) in
  let! bytes :=
    match found with
    | Some bytes => pure_io (Ok (Some bytes))
    | None => read_object_bytes_if_exists (object_content_ref object_id)
    end in
  pure_io (Ok match bytes with
    | None => ReadMissing
    | Some bytes => if is_ok (from_utf8 bytes) then ReadMismatch else ReadNonTextual
    end).

(** The scan of the stored objects for one with the id. *)
Fixpoint find_object_bytes (refs : list string) (object_id : ObjectId) : io S string :=
  match refs with
  | [] => pure_io (Err (missing_object_artifact object_id))
  | content_ref :: refs =>
      let! found := read_object_bytes_if_exists content_ref in
      match found with
      | None => find_object_bytes refs object_id
      | Some bytes =>
          let! matches := pure_io (object_artifact_bytes_match_object_id bytes object_id) in
          if matches : bool then pure_io (Ok bytes) else find_object_bytes refs object_id
      end
  end.

Definition read_object_artifact_bytes (object_id : ObjectId) : io S string :=
  let! found := read_object_bytes_if_exists (object_content_ref object_id) in
  match found with
  | Some bytes => pure_io (Ok bytes)
  | None =>
      let! refs := list_refs "artifacts/objects" in
      find_object_bytes refs object_id
  end.

Definition read_object_artifact (object_id : ObjectId) : io S ObjectArtifact :=
  let! bytes := read_object_artifact_bytes object_id in
  pure_io (decode_and_validate_object_artifact bytes).

Definition read_bound_object_artifact_bytes (object_id : ObjectId) (content_hash : string)
    : io S string :=
  let! found := read_object_bytes_if_exists (object_content_ref_for_hash content_hash) in
  match found with
  | Some bytes =>
      let! artifact := pure_io (decode_and_validate_object_artifact bytes) in
      let! _ := pure_io (validate_bound_object_artifact artifact object_id content_hash) in
      pure_io (Ok bytes)
  | None =>
      let! bytes := read_object_bytes (object_content_ref object_id) object_id in
      let! artifact := pure_io (decode_and_validate_object_artifact bytes) in
      let! _ := pure_io (validate_bound_object_artifact artifact object_id content_hash) in
      pure_io (Ok bytes)
  end.
End content.

(** ** Artifacts of events ([artifact_transfer.rs]) *)

Inductive ArtifactKind := KindObject | KindBody.

Inductive ArtifactLocator :=
| LocateObject (object_id : ObjectId)
| LocateBody (relative_path : string).

Record ArtifactRef := { art_locator : ArtifactLocator; art_content_hash : string }.

#[export] Instance ArtifactLocator_eq_dec : EqDecision ArtifactLocator.
Proof. solve_decision. Defined.
#[export] Instance ArtifactRef_eq_dec : EqDecision ArtifactRef.
Proof. solve_decision. Defined.

Definition artifact_kind (artifact : ArtifactRef) : ArtifactKind :=
  match art_locator artifact with LocateObject _ => KindObject | LocateBody _ => KindBody end.

Definition insert_artifact_ref (refs : gmap string ArtifactRef) (key : string)
    (artifact : ArtifactRef) : result (gmap string ArtifactRef) :=
  match refs !! key with
  | Some existing =>
      if bool_decide (existing = artifact) then Ok refs
      else Err (Message ("conflicting artifact reference for " +:+ art_content_hash artifact))
  | None => Ok (<[key := artifact]> refs)
  end.

Definition insert_body_ref (refs : gmap string ArtifactRef) (relative_path : option string)
    : result (gmap string ArtifactRef) :=
  match relative_path with
  | None => Ok refs
  | Some relative_path =>
      let? content_hash := note_body_content_hash_from_path relative_path in
      insert_artifact_ref refs ("body:" +:+ content_hash)
        {| art_locator := LocateBody relative_path; art_content_hash := content_hash |}
  end.

(** [Value::get] then [Value::as_str]. *)
Definition json_str_field (value : json) (key : string) : option string :=
  match json_get value key with Some (JString s) => Some s | _ => None end.

Section transfer.
Context `{Decoders}.

Definition referenced_artifacts_for_event (refs : gmap string ArtifactRef) (event : ShoreEvent)
    : result (gmap string ArtifactRef) :=
  if bool_decide (ev_event_type event = WorkObjectProposed) then
    let? payload := from_work_object_proposed (ev_payload event) in
    match wo_work_object payload with
    | ProposeRevision revision _ object_artifact_content_hash _ =>
        insert_artifact_ref refs ("object:" +:+ object_artifact_content_hash)
          {| art_locator := LocateObject (rv_object_id revision);
             art_content_hash := object_artifact_content_hash |}
    | ProposeTaskAttempt _ _ _ _ _ _ _ => Ok refs
    end
  else match body_artifact_field (ev_event_type event) with
  | Some field => insert_body_ref refs (json_str_field (ev_payload event) (payload_field field))
  | None => Ok refs
  end.

Definition referenced_artifacts (events : list ShoreEvent) : result (list ArtifactRef) :=
  let? refs := try_fold referenced_artifacts_for_event ∅ events in
  Ok (map_values refs).

Definition referenced_content_hashes_for_event (event : ShoreEvent) : result (list string) :=
  let? refs := referenced_artifacts_for_event ∅ event in
  Ok (art_content_hash <$> map_values refs).

Definition HASH_FIELDS : list string :=
  ["bodyContentHash"; "summaryContentHash"; "reasonContentHash"; "objectArtifactContentHash";
   "contentHash"].

(** The hashes one payload names in its flat fields. *)
Definition payload_hashes (payload : json) : list string :=
  match payload with
  | JObject _ =>
      omap (json_str_field payload) HASH_FIELDS ++
      match json_get payload "logArtifactContentHashes" with
      | Some (JArray values) => omap (λ v, match v with JString s => Some s | _ => None end) values
      | _ => []
      end
  | _ => []
  end.

Definition selected_support_content_hashes (events : list ShoreEvent) : result (gset string) :=
  let? artifacts := referenced_artifacts events in
  Ok (set_of_list (art_content_hash <$> artifacts) ∪
      set_of_list (concat ((λ event, payload_hashes (ev_payload event)) <$> events))).
End transfer.

Section transfer_io.
Context `{Digest} `{JsonReader} `{!Serialize DiffFile} `{!Deserialize DiffFile}.
Context {S : Type} `{ContentStore S}.

(** [export_artifact] and [import_artifact], after the store is resolved. *)
Definition export_artifact (artifact : ArtifactRef) : io S string :=
  match art_locator artifact with
  | LocateObject object_id =>
      let! bytes := read_bound_object_artifact_bytes object_id (art_content_hash artifact) in
      let! stored := pure_io (decode_and_validate_object_artifact bytes) in
      pure_io (if negb (String.eqb (oa_content_hash stored) (art_content_hash artifact))
        then Err (Message ("object artifact content hash mismatch for " +:+
          art_content_hash artifact))
        else Ok bytes)
  | LocateBody relative_path => read_note_body_bytes relative_path (art_content_hash artifact)
  end.

Definition import_artifact (artifact : ArtifactRef) (bytes : string) : io S CreateOutcome :=
  match art_locator artifact with
  | LocateObject object_id => import_object object_id (art_content_hash artifact) bytes
  | LocateBody relative_path => import_body relative_path (art_content_hash artifact) bytes
  end.
End transfer_io.
