(* ===== verification/ArtifactsProofs.v ===== *)
(** * Transferred artifacts are what their references name

    What is imported is validated first and never replaces a stored blob; what is exported
    decodes to the content the reference names; and an import can be exported again. *)

From S2P Require Import Prelude RustStr BTree Model GitRaw GitPatch GitDiff CanonicalHash Crypto.
From S2P Require Import Events ChangeClaims Relations Payloads Wire Journal Artifacts.

(** ** The contract of a content store *)

(** The blobs of a store, by reference; unfinished writes are not blobs. *)
Class ContentView (S : Type) := stored_blobs : S → gmap string string.

(** A blob is written once; reads and listings change none, an operation that fails
    changes none either, and a listing has the entries of its directory once each. *)
Class ContentLaws (S : Type) `{ContentStore S} `{ContentView S} : Prop := {
  blob_put_law ref bytes (s : S) :
    match (put_once ref bytes s).1 with
    | Ok Created => stored_blobs s !! ref = None ∧
        stored_blobs (put_once ref bytes s).2 = <[ref := bytes]> (stored_blobs s)
    | Ok AlreadyExists => is_Some (stored_blobs s !! ref) ∧
        stored_blobs (put_once ref bytes s).2 = stored_blobs s
    | Err _ => stored_blobs (put_once ref bytes s).2 = stored_blobs s
    end;
  blob_get_law ref (s : S) :
    stored_blobs (get ref s).2 = stored_blobs s ∧
    ∀ b, (get ref s).1 = Ok b → stored_blobs s !! ref = Some b;
  blob_read_law ref (s : S) :
    stored_blobs (get_if_exists ref s).2 = stored_blobs s ∧
    ∀ r, (get_if_exists ref s).1 = Ok r → r = stored_blobs s !! ref;
  blob_remove_law ref (s : S) :
    match (remove ref s).1 with
    | Ok Removed => is_Some (stored_blobs s !! ref) ∧
        stored_blobs (remove ref s).2 = delete ref (stored_blobs s)
    | Ok Missing => stored_blobs s !! ref = None ∧ stored_blobs (remove ref s).2 = stored_blobs s
    | Err _ => stored_blobs (remove ref s).2 = stored_blobs s
    end;
  blob_list_law prefix (s : S) :
    stored_blobs (list_refs prefix s).2 = stored_blobs s ∧
    ∀ refs, (list_refs prefix s).1 = Ok refs → NoDup refs ∧
      ∀ ref, ref ∈ refs ↔
        is_Some (stored_blobs s !! ref) ∧ Memory.is_immediate_child ref prefix = true
}.

#[export] Existing Instance Memory.InMemoryContentStore.
#[export] Instance InMemoryContentView : ContentView Memory.InMemoryStore := Memory.blobs.

(** The in-memory store meets the contract. *)
#[export] Instance InMemoryContentLaws : ContentLaws Memory.InMemoryStore.
Proof.
  split; unfold stored_blobs, InMemoryContentView.
  - intros ref bytes s. cbn. by destruct (Memory.blobs s !! ref) eqn:E; cbn; rewrite ?E.
  - intros ref s. cbn. split; [done|]. intros b. by destruct (Memory.blobs s !! ref); intros [= ->].
  - intros ref s. cbn. split; [done|]. by intros r <-%Ok_eq.
  - intros ref s. cbn. by destruct (Memory.blobs s !! ref) eqn:E; cbn; rewrite ?E.
  - intros prefix s. cbn. split; [done|]. intros refs <-%Ok_eq. split.
    + rewrite sort_by_Permutation. apply NoDup_ListNoDup, List.NoDup_filter, NoDup_ListNoDup.
      apply NoDup_fst_map_to_list.
    + intros ref. rewrite elem_of_sort_by, list_elem_of_In, List.filter_In, <- list_elem_of_In.
      rewrite list_elem_of_fmap. split.
      * intros [([k v] & -> & Hk%elem_of_map_to_list) Hc]. split; [by exists v|done].
      * intros [[v Hv] Hc]. split; [|done]. exists (ref, v). by rewrite elem_of_map_to_list.
Qed.

(** ** Transfer *)

Section transfer.
Context `{DigestLaws} `{JsonReader} `{!Serialize DiffFile} `{!Deserialize DiffFile}.
Context {S : Type} `{ContentStore S} `{!ContentView S} `{!ContentLaws S}.

(** Where an import stores the artifact. *)
Definition import_ref (artifact : ArtifactRef) : string :=
  match art_locator artifact with
  | LocateObject _ => object_content_ref_for_hash (art_content_hash artifact)
  | LocateBody relative_path => relative_path
  end.

(** The bytes are the content the reference names: for an object, a document of version 2
    with the object id, bound to the digest of its schema, version and snapshot; for a note
    body, the document of a body whose digest is the content hash and names the path. *)
Definition is_content (artifact : ArtifactRef) (bytes : string)
    (x : ObjectArtifact + NoteBodyEnvelope) : Prop :=
  match art_locator artifact, x with
  | LocateObject object_id, inl a =>
      from_slice bytes = Ok a ∧ oa_version a = 2%N ∧ ds_object_id (oa_snapshot a) = object_id ∧
      oa_content_hash a = art_content_hash artifact ∧
      sha256_json_prefixed (JObject [("schema", to_json (oa_schema a));
        ("version", to_json (oa_version a)); ("snapshot", to_json (oa_snapshot a))]) =
        Ok (art_content_hash artifact)
  | LocateBody path, inr n =>
      from_slice bytes = Ok n ∧ nb_schema n = "shore.note-body" ∧ nb_version n = 1%N ∧
      art_content_hash artifact = "sha256:" +:+ sha256_bytes_hex (nb_body n) ∧
      path = "artifacts/notes/" +:+ sha256_bytes_hex (nb_body n) +:+ ".json"
  | _, _ => False
  end.

(** What the validators make of the bytes. *)
Definition content_of (artifact : ArtifactRef) (bytes : string)
    : result (ObjectArtifact + NoteBodyEnvelope) :=
  match art_locator artifact with
  | LocateObject object_id =>
      let? a := decode_and_validate_object_artifact bytes in
      let? _ := validate_bound_object_artifact a object_id (art_content_hash artifact) in
      Ok (inl a)
  | LocateBody path =>
      let? n := validate_note_body_artifact_bytes path (art_content_hash artifact) bytes in
      Ok (inr n)
  end.

Lemma strip_suffix_Some t s r : strip_suffix t s = Some r ↔ s = r +:+ t.
Proof.
  unfold strip_suffix. rewrite fmap_Some. setoid_rewrite strip_prefix_Some. split.
  - intros (q & Hs & ->). apply (f_equal str_rev) in Hs.
    by rewrite str_rev_involutive, str_rev_append, str_rev_involutive in Hs.
  - intros ->. exists (str_rev r). by rewrite str_rev_append, str_rev_involutive.
Qed.

Lemma hex_no_slash stem : all_bytes is_ascii_hexdigit stem = true → contains_char "/" stem = false.
Proof. intros Ha. by apply (all_bytes_contains is_ascii_hexdigit). Qed.

(** The path of a note body is the hash it is stored under. *)
Lemma note_path_exact path h : note_body_content_hash_from_path path = Ok h ↔
  ∃ stem, path = "artifacts/notes/" +:+ stem +:+ ".json" ∧ h = "sha256:" +:+ stem ∧
    String.length stem = 64 ∧ all_bytes is_ascii_hexdigit stem = true.
Proof.
  unfold note_body_content_hash_from_path, validate_note_body_artifact_path. split.
  - intros (stem & Hs & <-%Ok_eq)%bind_Ok. destruct (escapes path); [done|].
    destruct (path' ← _; _) as [t|] eqn:Hb; [|done].
    apply bind_Some in Hb as (q & ->%strip_prefix_Some & ->%strip_suffix_Some).
    destruct (String.length t =? 64) eqn:Hl, (all_bytes is_ascii_hexdigit t) eqn:Hd; try done.
    apply Ok_eq in Hs as <-. apply Nat.eqb_eq in Hl. by exists t.
  - intros (stem & -> & -> & Hl & Hd).
    assert (escapes ("artifacts/notes/" +:+ stem +:+ ".json") = false) as ->.
    { unfold escapes.
      change ("artifacts/notes/" +:+ stem +:+ ".json") with
        ("artifacts" +:+ String "/" ("notes" +:+ String "/" (stem +:+ ".json"))).
      rewrite !split_char_append by done.
      rewrite split_char_single by (rewrite contains_char_append, hex_no_slash; done).
      cbn [existsb]. rewrite !orb_false_iff. split_and!; try done.
      destruct (String.eqb_spec ".." (stem +:+ ".json")) as [E|]; [|done].
      apply (f_equal String.length) in E. rewrite length_append, Hl in E. done. }
    rewrite strip_prefix_append. cbn [mbind option_bind].
    rewrite (proj2 (strip_suffix_Some ".json" (stem +:+ ".json") stem) eq_refl).
    by rewrite Hl, Hd.
Qed.

Lemma object_hash_material a : object_artifact_content_hash a =
  sha256_json_prefixed (JObject [("schema", to_json (oa_schema a));
    ("version", to_json (oa_version a)); ("snapshot", to_json (oa_snapshot a))]).
Proof.
  unfold object_artifact_content_hash. cbn [to_json ObjectArtifact_Serialize app].
  by destruct (oa_content_encoding a).
Qed.

Lemma hex_stem body : String.length (sha256_bytes_hex body) = 64 ∧
  all_bytes is_ascii_hexdigit (sha256_bytes_hex body) = true.
Proof.
  unfold sha256_bytes_hex. split; [by rewrite length_hex_lower, sha256_length|].
  pose proof (hex_lower_digits (sha256 body)) as Hd.
  induction (hex_lower (sha256 body)) as [|c s IH]; [done|]. cbn in Hd |- *.
  apply andb_true_iff in Hd as [Hc Hd]. unfold is_ascii_hexdigit at 1. by rewrite Hc, IH.
Qed.

Lemma object_content object_id h bytes a :
  (let? a := decode_and_validate_object_artifact bytes in
   let? _ := validate_bound_object_artifact a object_id h in Ok (@inl _ NoteBodyEnvelope a)) =
    Ok (inl a) ↔
  is_content {| art_locator := LocateObject object_id; art_content_hash := h |} bytes (inl a).
Proof.
  unfold decode_and_validate_object_artifact, validate_bound_object_artifact, is_content.
  cbn [art_locator art_content_hash].
  destruct (from_slice bytes) as [a'|e]; [|by split; [|intros [? _]]]. cbn [rbind]. split.
  - destruct (N.eqb_spec (oa_version a') OBJECT_ARTIFACT_VERSION) as [Hv|]; [|done].
    cbn [negb]. rewrite object_hash_material. destruct (sha256_json_prefixed _) as [d|] eqn:Hd; [|done].
    cbn [rbind]. destruct (String.eqb_spec (oa_content_hash a') d) as [<-|]; [|done]. cbn [negb rbind].
    destruct (String.eqb_spec (ds_object_id (oa_snapshot a')) object_id) as [Ho|]; [|done].
    destruct (String.eqb_spec (oa_content_hash a') h) as [<-|]; [|done]. cbn [negb rbind].
    intros Ha%Ok_eq. by injection Ha as <-.
  - intros (Ha%Ok_eq & Hv & Ho & Hh & Hd). subst a'.
    rewrite object_hash_material, Hd, Hv.
    change (2 =? OBJECT_ARTIFACT_VERSION)%N with true. cbn [negb rbind].
    rewrite Hh, String.eqb_refl. cbn [negb rbind]. by rewrite Ho, Hh, !String.eqb_refl.
Qed.

Lemma body_content path h bytes n :
  validate_note_body_artifact_bytes path h bytes = Ok n ↔
  is_content {| art_locator := LocateBody path; art_content_hash := h |} bytes (inr n).
Proof.
  unfold validate_note_body_artifact_bytes, parse_note_body_artifact, is_content.
  cbn [art_locator art_content_hash]. split.
  - intros (h' & (stem & -> & -> & _)%note_path_exact & Hr)%bind_Ok.
    destruct (String.eqb_spec ("sha256:" +:+ stem) h) as [<-|]; [|done].
    apply bind_Ok in Hr as (n' & (n'' & -> & Hn)%bind_Ok & Hr).
    destruct (String.eqb_spec (nb_schema n'') "shore.note-body") as [Hs|]; [|done].
    destruct (N.eqb_spec (nb_version n'') 1) as [Hv|]; [|done]. apply Ok_eq in Hn as <-.
    destruct (String.eqb_spec ("sha256:" +:+ sha256_bytes_hex (nb_body n'')) ("sha256:" +:+ stem))
      as [E|]; [|done]. apply Ok_eq in Hr as <-. split_and!; [done..|].
    apply append_inj_l in E. by rewrite E.
  - intros (-> & Hs & Hv & -> & ->). destruct (hex_stem (nb_body n)) as [Hl Hd].
    rewrite (proj2 (note_path_exact _ ("sha256:" +:+ sha256_bytes_hex (nb_body n))))
      by (by exists (sha256_bytes_hex (nb_body n))).
    cbn [rbind]. rewrite String.eqb_refl. cbn [negb rbind]. rewrite Hs, Hv.
    change (1 =? 1)%N with true. rewrite String.eqb_refl. cbn [negb orb rbind].
    by rewrite String.eqb_refl.
Qed.

(** The validators accept exactly the content the reference names. *)
Lemma content_exact artifact bytes x :
  content_of artifact bytes = Ok x ↔ is_content artifact bytes x.
Proof.
  destruct artifact as [[object_id|path] h]; unfold content_of; cbn [art_locator art_content_hash].
  - destruct x as [a|n]; [apply object_content|]. split; [|done].
    intros (a & _ & ([] & _ & Hx%Ok_eq)%bind_Ok)%bind_Ok. done.
  - destruct x as [a|n]; [split; [|done]; by intros (n & _ & Hx%Ok_eq)%bind_Ok|].
    rewrite <- body_content. split.
    + intros (n' & -> & Hx%Ok_eq)%bind_Ok. by injection Hx as <-.
    + by intros ->.
Qed.

(** A put that creates, or finds what [accept] accepts. *)
Definition put_checked (ref bytes : string) (accept : string → result CreateOutcome)
    : io S CreateOutcome :=
  let! outcome := put_once ref bytes in
  match outcome with
  | Created => pure_io (Ok Created)
  | AlreadyExists => let! existing := get ref in pure_io (accept existing)
  end.

Lemma put_checked_spec ref bytes accept s :
  let r := put_checked ref bytes accept s in
  (stored_blobs r.2 = stored_blobs s ∨
   stored_blobs s !! ref = None ∧ stored_blobs r.2 = <[ref := bytes]> (stored_blobs s)) ∧
  (∀ o, r.1 = Ok o → ∃ b, stored_blobs r.2 !! ref = Some b ∧ (b = bytes ∨ accept b = Ok o)).
Proof.
  cbv zeta. unfold put_checked, io_bind. pose proof (blob_put_law ref bytes s) as Hp.
  destruct (put_once ref bytes s) as [[[]|e] s1]; cbn [fst snd pure_io] in *.
  - destruct Hp as [Hn Hs]. split; [by right|]. intros o _. exists bytes.
    rewrite Hs, lookup_insert_eq. by split; [|left].
  - destruct Hp as [_ Hs]. pose proof (blob_get_law ref s1) as [Hk Hg].
    destruct (get ref s1) as [[b|e] s2]; cbn [fst snd pure_io] in *.
    + split; [left; congruence|]. intros o Ho. exists b. rewrite Hk. split; [by apply Hg|by right].
    + split; [left; congruence|done].
  - split; [by left|done].
Qed.

Lemma put_checked_accepts ref bytes accept s :
  is_ok (put_once ref bytes s).1 = true → is_ok (get ref (put_once ref bytes s).2).1 = true →
  (∀ b, stored_blobs s !! ref = Some b → is_ok (accept b) = true) →
  is_ok (put_checked ref bytes accept s).1 = true.
Proof.
  unfold put_checked, io_bind. pose proof (blob_put_law ref bytes s) as Hp.
  destruct (put_once ref bytes s) as [[[]|e] s1]; cbn [fst snd pure_io] in *; [done| |done].
  intros _ Hget Hacc. destruct Hp as [_ Hs]. pose proof (blob_get_law ref s1) as [_ Hg].
  destruct (get ref s1) as [[b|e] s2]; cbn [fst snd pure_io] in *; [|done].
  apply Hacc. rewrite <- Hs. by apply Hg.
Qed.

(** An import is the check of the bytes, then a put that accepts the same content. *)
Lemma import_checked artifact bytes s :
  match content_of artifact bytes with
  | Err _ => is_ok (import_artifact artifact bytes s).1 = false ∧
      (import_artifact artifact bytes s).2 = s
  | Ok x => ∃ accept, import_artifact artifact bytes s = put_checked (import_ref artifact) bytes accept s ∧
      ∀ b, is_ok (accept b) = true ↔ content_of artifact b = Ok x
  end.
Proof.
  unfold content_of, import_artifact, import_ref, put_checked.
  destruct (art_locator artifact) as [object_id|path].
  - unfold import_object, validate_bound_object_artifact.
    destruct (decode_and_validate_object_artifact bytes) as [a|e] eqn:Ha; cbn [rbind]; [|done].
    unfold io_bind, pure_io.
    destruct (String.eqb (ds_object_id (oa_snapshot a)) object_id) eqn:Hid; cbn [negb rbind]; [|done].
    destruct (String.eqb (oa_content_hash a) (art_content_hash artifact)) eqn:Hh;
      cbn [negb rbind]; [|done].
    exists (λ b, let? x := decode_and_validate_object_artifact b in
      if bool_decide (x = a) then Ok AlreadyExists
      else Err (Message ("object artifact conflict for " +:+ object_id))). split.
    + destruct (put_once _ _ s) as [[[]|] s1]; try done.
      destruct (get _ s1) as [[b|] s2]; [|done].
      by destruct (decode_and_validate_object_artifact b).
    + intros b. destruct (decode_and_validate_object_artifact b) as [x|e]; [|done]. cbn [rbind].
      case_bool_decide as Heq; [subst x; by rewrite Hid, Hh|]. split; [done|].
      intros (? & _ & Hx%Ok_eq)%bind_Ok. by injection Hx as ->.
  - unfold import_body.
    destruct (validate_note_body_artifact_bytes path _ bytes) as [n|e] eqn:Hn; cbn [rbind]; [|done].
    exists (λ b, let? x := validate_note_body_artifact_bytes path (art_content_hash artifact) b in
      if bool_decide (x = n) then Ok AlreadyExists
      else Err (Message ("note body artifact conflict for " +:+ art_content_hash artifact))). split.
    + unfold io_bind, pure_io. destruct (put_once _ _ s) as [[[]|] s1]; try done.
      destruct (get _ s1) as [[b|] s2]; [|done].
      by destruct (validate_note_body_artifact_bytes path _ b).
    + intros b. destruct (validate_note_body_artifact_bytes path _ b) as [x|e]; [|done].
      cbn [rbind]. case_bool_decide as Heq; [by subst x|]. split; [done|].
      intros Hx%Ok_eq. by injection Hx as ->.
Qed.

Lemma export_sound artifact s b :
  (export_artifact artifact s).1 = Ok b → is_ok (content_of artifact b) = true.
Proof.
  unfold export_artifact, content_of. destruct (art_locator artifact) as [object_id|path].
  - unfold read_bound_object_artifact_bytes, read_object_bytes, read_object_bytes_if_exists.
    set (h := art_content_hash artifact).
    assert (∀ b' (s' : S), ((let! bytes :=
        let! a := pure_io (decode_and_validate_object_artifact b') in
        let! _ := pure_io (validate_bound_object_artifact a object_id h) in pure_io (Ok b') in
      let! stored := pure_io (decode_and_validate_object_artifact bytes) in
      pure_io (if negb (String.eqb (oa_content_hash stored) h)
        then Err (Message ("object artifact content hash mismatch for " +:+ h))
        else Ok bytes)) s').1 = Ok b →
      is_ok (let? a := decode_and_validate_object_artifact b in
             let? _ := validate_bound_object_artifact a object_id h in
             Ok (@inl _ NoteBodyEnvelope a)) = true) as Hone.
    { intros b' s'. unfold io_bind, pure_io.
      destruct (decode_and_validate_object_artifact b') as [a|] eqn:Ha; [|done].
      destruct (validate_bound_object_artifact a object_id h) as [[]|] eqn:Hv; [|done]. rewrite Ha.
      destruct (negb _); [done|]. cbn [fst]. intros <-%Ok_eq. rewrite Ha. cbn [rbind]. by rewrite Hv. }
    unfold io_bind at 1 2. destruct (get_if_exists _ s) as [[[b'|]|] s1]; [apply Hone| |done].
    unfold io_bind at 1 2. destruct (get_if_exists _ s1) as [[[b'|]|] s2]; [apply Hone|done|done].
  - unfold read_note_body_bytes, io_bind, pure_io.
    destruct (get_if_exists path s) as [[[b'|]|] s1]; try done.
    destruct (validate_note_body_artifact_bytes path _ b') as [n|] eqn:Hn; [|done].
    cbn [fst]. intros <-%Ok_eq. by rewrite Hn.
Qed.

(** What is stored under the reference is exported, when the store answers. *)
Lemma export_stored artifact s b x :
  stored_blobs s !! import_ref artifact = Some b → content_of artifact b = Ok x →
  is_ok (get_if_exists (import_ref artifact) s).1 = true → (export_artifact artifact s).1 = Ok b.
Proof.
  unfold export_artifact, content_of, import_ref. intros Hb.
  destruct (art_locator artifact) as [object_id|path].
  - intros (a & Ha & ([] & Hv & _)%bind_Ok)%bind_Ok Hok.
    unfold read_bound_object_artifact_bytes, read_object_bytes_if_exists, io_bind, pure_io.
    pose proof (blob_read_law (object_content_ref_for_hash (art_content_hash artifact)) s) as [_ Hg].
    destruct (get_if_exists _ s) as [[r|] s1]; cbn [fst snd] in *; [|done].
    rewrite (Hg r eq_refl), Hb, Ha, Hv, Ha.
    unfold validate_bound_object_artifact in Hv. repeat case_match; try done.
  - intros (n & Hn & _)%bind_Ok Hok. unfold read_note_body_bytes, io_bind, pure_io.
    pose proof (blob_read_law path s) as [_ Hg].
    destruct (get_if_exists path s) as [[r|] s1]; cbn [fst snd] in *; [|done].
    by rewrite (Hg r eq_refl), Hb, Hn.
Qed.

(** C15. Artifacts transfer exactly.  The content a reference names is, for an object, the
    document with its object id whose schema, version and snapshot digest to the content
    hash, and for a note body the document of a body with that digest at the path the
    digest names.  Whether it succeeds or fails, an import keeps every stored blob, and adds
    at most the given bytes at the reference's own place, when they are that content.  Bytes
    that are not are refused and nothing changes.  Bytes that are, are accepted when the
    store answers and holds nothing or the same content at the place.  After a successful
    import the same content is at that place, be it these bytes or an earlier encoding, and
    an export returns it when the store answers.  Whatever an export returns is the content
    the reference names. *)
Theorem transfer_exact artifact bytes s :
  let r := import_artifact artifact bytes s in
  let put := put_once (import_ref artifact) bytes s in
  (stored_blobs r.2 = stored_blobs s ∨
   (∃ x, is_content artifact bytes x) ∧ stored_blobs s !! import_ref artifact = None ∧
   stored_blobs r.2 = <[import_ref artifact := bytes]> (stored_blobs s)) ∧
  ((∀ x, ¬ is_content artifact bytes x) → is_ok r.1 = false ∧ r.2 = s) ∧
  (∀ x, is_content artifact bytes x → is_ok put.1 = true →
    is_ok (get (import_ref artifact) put.2).1 = true →
    (∀ b, stored_blobs s !! import_ref artifact = Some b → is_content artifact b x) →
    is_ok r.1 = true) ∧
  (is_ok r.1 = true → ∃ b x, stored_blobs r.2 !! import_ref artifact = Some b ∧
    is_content artifact bytes x ∧ is_content artifact b x ∧
    (is_ok (get_if_exists (import_ref artifact) r.2).1 = true →
      (export_artifact artifact r.2).1 = Ok b)) ∧
  (∀ s' b, (export_artifact artifact s').1 = Ok b → ∃ x, is_content artifact b x).
Proof.
  cbv zeta. setoid_rewrite <- content_exact. pose proof (import_checked artifact bytes s) as Hi.
  split_and!; [| | | |intros s' b Hb%export_sound; destruct (content_of artifact b); [eauto|done]];
    destruct (content_of artifact bytes) as [x|e] eqn:Hx.
  - destruct Hi as (accept & -> & _).
    destruct (put_checked_spec (import_ref artifact) bytes accept s) as [[?|[? ?]] _]; [by left|].
    right. by split; [exists x|].
  - left. by destruct Hi as [_ ->].
  - intros Hno. by destruct (Hno x).
  - done.
  - intros x' <-%Ok_eq Hput Hget Hsame. destruct Hi as (accept & -> & Hacc).
    apply put_checked_accepts; [done..|]. intros b Hb. by apply Hacc, Hsame.
  - done.
  - destruct Hi as (accept & -> & Hacc).
    destruct (put_checked_spec (import_ref artifact) bytes accept s) as [_ Hok].
    destruct (put_checked _ _ _ s) as [[o|] s1]; [|done]. intros _. cbn [fst snd] in *.
    destruct (Hok o eq_refl) as (b & Hb & Hc). exists b, x.
    assert (content_of artifact b = Ok x) as Hbx
      by (destruct Hc as [->|Hc]; [done|apply Hacc; by rewrite Hc]).
    split_and!; [done..|]. by apply export_stored with (x := x).
  - destruct Hi as [-> _]. done.
Qed.
End transfer.

(** ** A note body, imported twice *)

Module Example.
#[local] Existing Instances example_digest example_digest_laws example_reader.
#[local] Instance file_to : Serialize DiffFile := λ _, JNull.
#[local] Instance file_from : Deserialize DiffFile := λ _, Err (Message "no files").

Definition reference : ArtifactRef := {|
  art_locator := LocateBody ("artifacts/notes/" +:+ sha256_bytes_hex "a note" +:+ ".json");
  art_content_hash := "sha256:" +:+ sha256_bytes_hex "a note" |}.
Definition bytes : string :=
  match to_vec (NoteBodyEnvelope_new "a note") with Ok b => b | Err _ => EmptyString end.
Definition empty : Memory.InMemoryStore := Memory.new 0.

Lemma imports : (import_artifact reference bytes empty).1 = Ok Created ∧
  is_ok (import_artifact reference "not a note" empty).1 = false.
Proof. split; vm_compute; reflexivity. Qed.

Lemma transfer_exact_witness : ∃ b x,
  (export_artifact reference (import_artifact reference bytes empty).2).1 = Ok b ∧
  is_content reference bytes x ∧ is_content reference b x.
Proof.
  destruct (transfer_exact reference bytes empty) as (_ & _ & _ & Hok & _).
  destruct Hok as (b & x & _ & Hc & Hb & He); [by rewrite (proj1 imports)|].
  exists b, x. split; [by apply He|done].
Defined.
End Example.
