(* ===== verification/ReviewCursor.v ===== *)
(** * Review cursors ([src/src/session/workflow/review_cursor.rs])

    A cursor binds a Change, one exact revision, the selected current set and the state
    of the source it was taken from; a token is its self-hashed document.  Selection,
    the two validations before a write, the resolution of a writer's revision, the source
    bindings with the canonical entries of a diff, and the digest of the Change graph are
    modelled; running git and reading the stored revision are arguments.  The URL-safe
    base64 codec is a parameter. *)

From S2P Require Import Prelude RustStr BTree Model Acknowledgement GitRaw GitPatch GitDiff.
From S2P Require Import CanonicalHash Crypto Events ChangeClaims Relations Liveness Payloads.
From S2P Require Import ChangeGraph ChangeProjection ChangeViews ChangeEvents ChangeDocuments.
From S2P Require Import Wire Journal EventCodec Capabilities Artifacts.

(** ** Source bindings *)

Definition REVIEW_CURSOR_SCHEMA_V1 : string := "pointbreak.review-cursor.v1".

Record ReviewSourcePathStateV1 := {
  ps_path : string;
  ps_content_hash : option string;
  ps_mode : string;
  ps_tracked : bool
}.

Record WorktreeSourceStateV1 := {
  ws_capture_mode : string;
  ws_base : option string;
  ws_path_scope : list string;
  ws_paths : list ReviewSourcePathStateV1
}.

Definition path_cmp (left right : ReviewSourcePathStateV1) : comparison :=
  String.compare (ps_path left) (ps_path right).

(** [windows(2).any(|pair| pair[0] == pair[1])]. *)
Fixpoint adjacent_equal (l : list string) : bool :=
  match l with
  | x :: ((y :: _) as l') => String.eqb x y || adjacent_equal l'
  | _ => false
  end.

Definition worktree_normalize (state : WorktreeSourceStateV1) : result WorktreeSourceStateV1 :=
  let paths := sort_by path_cmp (ws_paths state) in
  if adjacent_equal (ps_path <$> paths) then Err (Message "source state contains a duplicate path")
  else Ok {| ws_capture_mode := ws_capture_mode state; ws_base := ws_base state;
             ws_path_scope := sorted_dedup (ws_path_scope state); ws_paths := paths |}.

Inductive CommitProofStateV1 := PUnknown | PExact | PEquivalent | PExtension | PUnavailable.

#[export] Instance CommitProofStateV1_eq_dec : EqDecision CommitProofStateV1.
Proof. solve_decision. Defined.

Definition ReviewSourceFingerprintV1 : Type := string.

Inductive ReviewSourceBindingV1 :=
| Captured
| WorktreeMatchV1 (capture_mode : string) (base : option string) (path_scope : list string)
    (source_fingerprint : ReviewSourceFingerprintV1)
| CommitMatchV1 (commit_oid tree_oid comparison_base : string) (path_scope : list string)
    (proof_state : CommitProofStateV1) (proof_ref : option string)
    (source_fingerprint : ReviewSourceFingerprintV1).

#[export] Instance ReviewSourceBindingV1_eq_dec : EqDecision ReviewSourceBindingV1.
Proof. solve_decision. Defined.

Record CommitSourceStateV1 := {
  cst_commit_oid : string;
  cst_tree_oid : string;
  cst_comparison_base : string;
  cst_path_scope : list string;
  cst_proof_state : CommitProofStateV1;
  cst_proof_ref : option string
}.

Definition commit_normalize (state : CommitSourceStateV1) : CommitSourceStateV1 :=
  {| cst_commit_oid := cst_commit_oid state; cst_tree_oid := cst_tree_oid state;
     cst_comparison_base := cst_comparison_base state;
     cst_path_scope := sorted_dedup (cst_path_scope state);
     cst_proof_state := cst_proof_state state; cst_proof_ref := cst_proof_ref state |}.

(** ** Documents *)

Definition proof_state_text (s : CommitProofStateV1) : string :=
  match s with
  | PUnknown => "unknown" | PExact => "exact" | PEquivalent => "equivalent"
  | PExtension => "extension" | PUnavailable => "unavailable"
  end.
#[export] Instance CommitProofStateV1_Serialize : Serialize CommitProofStateV1 := λ s,
  JString (proof_state_text s).
#[export] Instance ReviewSourcePathStateV1_Serialize : Serialize ReviewSourcePathStateV1 := λ p,
  JObject ([("path", to_json (ps_path p))] ++ opt_field "contentHash" (ps_content_hash p) ++
    [("mode", to_json (ps_mode p)); ("tracked", to_json (ps_tracked p))]).
#[export] Instance WorktreeSourceStateV1_Serialize : Serialize WorktreeSourceStateV1 := λ s,
  JObject ([("captureMode", to_json (ws_capture_mode s))] ++ opt_field "base" (ws_base s) ++
    [("pathScope", to_json (ws_path_scope s)); ("paths", to_json (ws_paths s))]).
#[export] Instance CommitSourceStateV1_Serialize : Serialize CommitSourceStateV1 := λ s,
  JObject ([("commitOid", to_json (cst_commit_oid s)); ("treeOid", to_json (cst_tree_oid s));
    ("comparisonBase", to_json (cst_comparison_base s)); ("pathScope", to_json (cst_path_scope s));
    ("proofState", to_json (cst_proof_state s))] ++ opt_field "proofRef" (cst_proof_ref s)).
#[export] Instance ReviewSourceBindingV1_Serialize : Serialize ReviewSourceBindingV1 := λ b,
  match b with
  | Captured => JObject [("kind", JString "captured")]
  | WorktreeMatchV1 capture_mode base path_scope source_fingerprint =>
      JObject ([("kind", JString "worktree_match_v1"); ("captureMode", to_json capture_mode)] ++
        opt_field "base" base ++
        [("pathScope", to_json path_scope); ("sourceFingerprint", to_json source_fingerprint)])
  | CommitMatchV1 commit_oid tree_oid comparison_base path_scope proof_state proof_ref source_fingerprint =>
      JObject ([("kind", JString "commit_match_v1"); ("commitOid", to_json commit_oid);
        ("treeOid", to_json tree_oid); ("comparisonBase", to_json comparison_base);
        ("pathScope", to_json path_scope); ("proofState", to_json proof_state)] ++
        opt_field "proofRef" proof_ref ++ [("sourceFingerprint", to_json source_fingerprint)])
  end.

Section bindings.
Context `{Digest}.

Definition for_material {A} `{Serialize A} (material : A) : result ReviewSourceFingerprintV1 :=
  sha256_json_prefixed (to_json material).

Definition binding_worktree (state : WorktreeSourceStateV1) : result ReviewSourceBindingV1 :=
  let? state := worktree_normalize state in
  let? source_fingerprint := for_material state in
  Ok (WorktreeMatchV1 (ws_capture_mode state) (ws_base state) (ws_path_scope state) source_fingerprint).

Definition binding_commit (state : CommitSourceStateV1) : result ReviewSourceBindingV1 :=
  let state := commit_normalize state in
  let? source_fingerprint := for_material state in
  Ok (CommitMatchV1 (cst_commit_oid state) (cst_tree_oid state) (cst_comparison_base state)
    (cst_path_scope state) (cst_proof_state state) (cst_proof_ref state) source_fingerprint).
End bindings.

(** ** Cursors *)

Record ReviewCursorV1 := {
  rcu_schema : string;
  rcu_change_id : ChangeId;
  rcu_revision : RevisionRefV1;
  rcu_change_graph_token : string;
  rcu_selected_current_revisions : list RevisionRefV1;
  rcu_source_binding : ReviewSourceBindingV1;
  rcu_blocking_diagnostics : list string
}.

#[export] Instance ReviewCursorV1_eq_dec : EqDecision ReviewCursorV1.
Proof. solve_decision. Defined.

Record ReviewCursorSelectionV1 := { sel_cursor : ReviewCursorV1; sel_token : string }.

Record ReviewCursorRefusalV1 := {
  rfs_code : string;
  rfs_message : string;
  rfs_exact_candidates : list RevisionRefV1;
  rfs_diagnostics : list string
}.

Definition refusal_display (refusal : ReviewCursorRefusalV1) : string :=
  rfs_code refusal +:+ ": " +:+ rfs_message refusal.

Record ReviewCursorTokenWireV1 := { tw_cursor : ReviewCursorV1; tw_self_hash : string }.

#[export] Instance ReviewCursorV1_Serialize : Serialize ReviewCursorV1 := λ c,
  JObject [("schema", to_json (rcu_schema c)); ("changeId", to_json (rcu_change_id c));
    ("revision", to_json (rcu_revision c)); ("changeGraphToken", to_json (rcu_change_graph_token c));
    ("selectedCurrentRevisions", to_json (rcu_selected_current_revisions c));
    ("sourceBinding", to_json (rcu_source_binding c));
    ("blockingDiagnostics", to_json (rcu_blocking_diagnostics c))].
#[export] Instance ReviewCursorTokenWireV1_Serialize : Serialize ReviewCursorTokenWireV1 := λ w,
  JObject [("cursor", to_json (tw_cursor w)); ("selfHash", to_json (tw_self_hash w))].

Section decoders.
Context `{JsonReader}.

(** [try_from = "RevisionRefWireV1"]. *)
#[export] Instance RevisionRefV1_Deserialize : Deserialize RevisionRefV1 := λ v,
  let? o := strict_entries ["revisionId"; "objectArtifactContentHash"] 2 v in
  let? revision_id := req o "revisionId" in
  let? hash := req o "objectArtifactContentHash" in
  match RevisionRefV1_new revision_id hash with
  | Ok r => Ok r
  | Err e => de_error (ShoreError_display e)
  end.

#[export] Instance CommitProofStateV1_Deserialize : Deserialize CommitProofStateV1 := λ v,
  let? name := unit_variant v in
  if String.eqb name "unknown" then Ok PUnknown
  else if String.eqb name "exact" then Ok PExact
  else if String.eqb name "equivalent" then Ok PEquivalent
  else if String.eqb name "extension" then Ok PExtension
  else if String.eqb name "unavailable" then Ok PUnavailable
  else de_error "unknown variant".

(** The tag and the content of an internally tagged enumeration. *)
Definition tagged (tag : string) (v : json) : result (string * json) :=
  match v with
  | JObject o =>
      match List.filter (λ p, String.eqb p.1 tag) o with
      | [] => de_error "missing field"
      | [(_, JString kind)] => Ok (kind, JObject (List.filter (λ p, negb (String.eqb p.1 tag)) o))
      | [_] => de_error "invalid type"
      | _ => de_error "duplicate field"
      end
  | JArray (JString kind :: vs) => Ok (kind, JArray vs)
  | _ => de_error "invalid type"
  end.

#[export] Instance ReviewSourceBindingV1_Deserialize : Deserialize ReviewSourceBindingV1 := λ v,
  let? (kind, content) := tagged "kind" v in
  if String.eqb kind "captured" then
    match content with
    | JArray (_ :: _) => de_error "invalid length"
    | _ => Ok Captured
    end
  else if String.eqb kind "worktree_match_v1" then
    let? o := struct_entries ["captureMode"; "base"; "pathScope"; "sourceFingerprint"] 4 content in
    let? capture_mode := req o "captureMode" in
    let? base := opt o "base" in
    let? path_scope := req o "pathScope" in
    let? source_fingerprint := req o "sourceFingerprint" in
    Ok (WorktreeMatchV1 capture_mode base path_scope source_fingerprint)
  else if String.eqb kind "commit_match_v1" then
    let? o := struct_entries ["commitOid"; "treeOid"; "comparisonBase"; "pathScope"; "proofState";
      "proofRef"; "sourceFingerprint"] 7 content in
    let? commit_oid := req o "commitOid" in
    let? tree_oid := req o "treeOid" in
    let? comparison_base := req o "comparisonBase" in
    let? path_scope := req o "pathScope" in
    let? proof_state := req o "proofState" in
    let? proof_ref := opt o "proofRef" in
    let? source_fingerprint := req o "sourceFingerprint" in
    Ok (CommitMatchV1 commit_oid tree_oid comparison_base path_scope proof_state proof_ref
      source_fingerprint)
  else de_error "unknown variant".

#[export] Instance ReviewCursorV1_Deserialize : Deserialize ReviewCursorV1 := λ v,
  let? o := strict_entries ["schema"; "changeId"; "revision"; "changeGraphToken";
    "selectedCurrentRevisions"; "sourceBinding"; "blockingDiagnostics"] 7 v in
  let? schema := req o "schema" in
  let? change_id := req o "changeId" in
  let? revision := req o "revision" in
  let? change_graph_token := req o "changeGraphToken" in
  let? selected_current_revisions := req o "selectedCurrentRevisions" in
  let? source_binding := req o "sourceBinding" in
  let? blocking_diagnostics := req o "blockingDiagnostics" in
  Ok {| rcu_schema := schema; rcu_change_id := change_id; rcu_revision := revision;
        rcu_change_graph_token := change_graph_token;
        rcu_selected_current_revisions := selected_current_revisions;
        rcu_source_binding := source_binding; rcu_blocking_diagnostics := blocking_diagnostics |}.

#[export] Instance ReviewCursorTokenWireV1_Deserialize : Deserialize ReviewCursorTokenWireV1 := λ v,
  let? o := strict_entries ["cursor"; "selfHash"] 2 v in
  let? cursor := req o "cursor" in
  let? self_hash := req o "selfHash" in
  Ok {| tw_cursor := cursor; tw_self_hash := self_hash |}.
End decoders.

(** [base64::engine::general_purpose::URL_SAFE_NO_PAD]; a decoding error is its text. *)
Class UrlBase64 := {
  b64_encode : string → string;
  b64_decode : string → Result string string
}.
Class UrlBase64Laws `{UrlBase64} : Prop := {
  b64_roundtrip s : b64_decode (b64_encode s) = Ok s
}.

Section tokens.
Context `{Digest} `{JsonReader} `{UrlBase64}.

Definition encode_token (cursor : ReviewCursorV1) : result string :=
  let? self_hash := sha256_json_prefixed (to_json cursor) in
  let? bytes := canonical_json_bytes (to_json {| tw_cursor := cursor; tw_self_hash := self_hash |}) in
  Ok (b64_encode bytes).

Definition decode_token (token : string) : result ReviewCursorV1 :=
  let? bytes := match b64_decode token with
                | Ok bytes => Ok bytes
                | Err error => Err (Message ("invalid Review cursor token: " +:+ error))
                end in
  let? wire : ReviewCursorTokenWireV1 := from_slice bytes in
  let failed := Err (Message "Review cursor token failed its self-hash or schema check") in
  if negb (String.eqb (rcu_schema (tw_cursor wire)) REVIEW_CURSOR_SCHEMA_V1) then failed
  else
    let? expected := sha256_json_prefixed (to_json (tw_cursor wire)) in
    if negb (String.eqb (tw_self_hash wire) expected) then failed
    else Ok (tw_cursor wire).
End tokens.

(** ** Selection *)

Abbreviation selection := (Result ReviewCursorRefusalV1).

Definition refusal {A} (code message : string) (exact_candidates : list RevisionRefV1)
    (diagnostics : list string) : selection A :=
  Err {| rfs_code := code; rfs_message := message; rfs_exact_candidates := exact_candidates;
         rfs_diagnostics := diagnostics |}.

(** [map_err(internal_refusal)]. *)
Definition internal_refusal {A} (r : result A) : selection A :=
  match r with
  | Ok a => Ok a
  | Err error => refusal "review_cursor_internal_error" (ShoreError_display error) [] []
  end.

Definition one_exact_ref (revision_id : RevisionId) (projection : ChangeDocumentProjectionV1)
    : selection RevisionRefV1 :=
  match cdp_revision_refs projection !! revision_id with
  | Some [reference] => Ok reference
  | Some references => refusal "revision_artifact_conflicted"
      "the Revision has more than one object artifact hash" references []
  | None => refusal "revision_artifact_missing" "the Revision object artifact is unavailable" [] []
  end.

Definition exact_refs (revisions : gset RevisionId) (projection : ChangeDocumentProjectionV1)
    : selection (list RevisionRefV1) :=
  mapM (λ revision_id, one_exact_ref revision_id projection) (iter_set revisions).

Section cursors.
Context `{Digest} `{JsonReader} `{UrlBase64}.

Definition change_graph_document (change : ChangeView) : json :=
  JObject [("changeId", to_json (cv_change_id change)); ("members", to_json (cv_members change));
    ("effectiveSupersedes", to_json (cv_supersedes change));
    ("currentRevisions", to_json (cv_current_revisions change));
    ("blockingDiagnostics", to_json (cv_diagnostics change))].

Definition change_graph_token (change : ChangeView) : result string :=
  sha256_json_prefixed (change_graph_document change).

Definition unresolved (change : ChangeView) : bool :=
  bool_decide (cv_topology change = TReplacementDivergent) ||
  bool_decide (cv_topology change = TCycleConflicted) ||
  negb (bool_decide (cv_diagnostics change = [])).

Definition choose_revision (change : ChangeView) (projection : ChangeDocumentProjectionV1)
    (explicit_revision : option RevisionId) (allow_historical : bool)
    (source_binding : ReviewSourceBindingV1) (current : list RevisionRefV1)
    : selection RevisionRefV1 :=
  match explicit_revision with
  | None =>
      match current with
      | [reference] => Ok reference
      | _ => refusal "explicit_revision_required" "the Change has more than one current Revision"
               current []
      end
  | Some revision_id =>
      if negb (bool_decide (revision_id ∈ cv_members change)) then
        refusal "revision_not_a_change_member"
          "the exact Revision is not an active member of this Change" current []
      else
        let? reference := one_exact_ref revision_id projection in
        if negb (bool_decide (revision_id ∈ cv_current_revisions change)) &&
            (negb allow_historical || negb (bool_decide (source_binding = Captured)))
        then refusal "historical_revision_not_authorable"
          "a historical Revision requires explicit captured-resource selection" current []
        else Ok reference
  end.

Definition select_review_cursor (change : ChangeView) (projection : ChangeDocumentProjectionV1)
    (explicit_revision : option RevisionId) (allow_historical : bool)
    (source_binding : ReviewSourceBindingV1) : selection ReviewCursorSelectionV1 :=
  let? current := exact_refs (cv_current_revisions change) projection in
  if unresolved change then
    refusal "change_state_unresolved" "the Change graph is incomplete or conflicted" current
      (cv_diagnostics change)
  else
    let? revision := choose_revision change projection explicit_revision allow_historical
      source_binding current in
    let? token := internal_refusal (change_graph_token change) in
    let cursor := {| rcu_schema := REVIEW_CURSOR_SCHEMA_V1; rcu_change_id := cv_change_id change;
      rcu_revision := revision; rcu_change_graph_token := token;
      rcu_selected_current_revisions := current; rcu_source_binding := source_binding;
      rcu_blocking_diagnostics := [] |} in
    let? token := internal_refusal (encode_token cursor) in
    Ok {| sel_cursor := cursor; sel_token := token |}.

(** ** Validation *)

(** What both validations begin with. *)
Definition decode_for (token : string) (current_change : ChangeView) : selection ReviewCursorV1 :=
  let? cursor := match decode_token token with
                 | Ok cursor => Ok cursor
                 | Err error => refusal "invalid_review_cursor" (ShoreError_display error) [] []
                 end in
  let stale := refusal "change_graph_stale"
    "Change membership, replacement state, current set, or blocking diagnostics changed"
    (rcu_selected_current_revisions cursor) (cv_diagnostics current_change) in
  if negb (String.eqb (rcu_change_id cursor) (cv_change_id current_change)) then stale
  else
    let? graph := internal_refusal (change_graph_token current_change) in
    if negb (String.eqb (rcu_change_graph_token cursor) graph) then stale else Ok cursor.

(** What both validations end with: the same revision is selected again. *)
Definition reselect (cursor : ReviewCursorV1) (current_change : ChangeView)
    (current_projection : ChangeDocumentProjectionV1) (binding : ReviewSourceBindingV1)
    : selection ReviewCursorV1 :=
  let? selected := select_review_cursor current_change current_projection
    (Some (rr_revision_id (rcu_revision cursor))) false binding in
  let fresh := sel_cursor selected in
  if negb (bool_decide (rcu_revision cursor = rcu_revision fresh)) ||
      negb (bool_decide (rcu_selected_current_revisions cursor = rcu_selected_current_revisions fresh)) ||
      negb (bool_decide (rcu_blocking_diagnostics cursor = rcu_blocking_diagnostics fresh))
  then refusal "review_cursor_selection_stale"
    "the exact Revision, current candidate set, or blocking state changed"
    (rcu_selected_current_revisions fresh) (cv_diagnostics current_change)
  else Ok cursor.

Definition validate_review_cursor_for_write (token : string) (current_change : ChangeView)
    (current_projection : ChangeDocumentProjectionV1) (current_source_binding : ReviewSourceBindingV1)
    : selection ReviewCursorV1 :=
  let? cursor := decode_for token current_change in
  if negb (bool_decide (rcu_source_binding cursor = current_source_binding)) then
    refusal "source_binding_mismatch"
      "the code, documentation, tests, generated files, modes, untracked set, or scope changed"
      (rcu_selected_current_revisions cursor) []
  else reselect cursor current_change current_projection current_source_binding.

Definition validate_review_cursor_for_transition (token : string) (current_change : ChangeView)
    (current_projection : ChangeDocumentProjectionV1) : selection ReviewCursorV1 :=
  let? cursor := decode_for token current_change in
  reselect cursor current_change current_projection (rcu_source_binding cursor).

(** A refusal as the error of a workflow. *)
Definition workflow_input {A} (r : selection A) : result A :=
  match r with Ok a => Ok a | Err refusal => Err (WorkflowInputInvalid (refusal_display refusal)) end.

(** [ready] is the Change state of a capable reader; [current_binding] the recomputed
    source binding of a cursor, [current_review_source_binding] below. *)
Definition exact_revision_from_decoded_review_cursor
    (current_binding : ReviewCursorV1 → result ReviewSourceBindingV1) (token : string)
    (cursor : ReviewCursorV1) (ready : ChangeProjection * ChangeDocumentProjectionV1)
    : result RevisionId :=
  let? change := ok_or (cp_changes ready.1 !! rcu_change_id cursor)
    (WorkflowInputInvalid "the Review cursor Change is unavailable") in
  let? _ := workflow_input (validate_review_cursor_for_transition token change ready.2) in
  let? current_source_binding := current_binding cursor in
  let? validated := workflow_input (validate_review_cursor_for_write token change ready.2
    current_source_binding) in
  Ok (rr_revision_id (rcu_revision validated)).

Definition exact_revision_from_review_cursor_with_ready
    (current_binding : ReviewCursorV1 → result ReviewSourceBindingV1) (token : string)
    (ready : ChangeProjection * ChangeDocumentProjectionV1) : result RevisionId :=
  let? cursor := decode_token token in
  exact_revision_from_decoded_review_cursor current_binding token cursor ready.

(** [state] is [change_reader_state_for_repo], [None] inside where it is not ready. *)
Definition exact_revision_from_review_cursor
    (state : result (option (ChangeProjection * ChangeDocumentProjectionV1)))
    (current_binding : ReviewCursorV1 → result ReviewSourceBindingV1) (token : string)
    : result RevisionId :=
  let? cursor := decode_token token in
  let? state := state in
  let? ready := ok_or state
    (WorkflowInputInvalid "complete Change authority is unavailable for the Review cursor") in
  exact_revision_from_decoded_review_cursor current_binding token cursor ready.

Definition exact_revision_from_transition_cursor
    (state : result (option (ChangeProjection * ChangeDocumentProjectionV1))) (token : string)
    : result RevisionId :=
  let? cursor := decode_token token in
  let? state := state in
  let? ready := ok_or state
    (WorkflowInputInvalid "complete Change authority is unavailable for the Review cursor") in
  let? change := ok_or (cp_changes ready.1 !! rcu_change_id cursor)
    (WorkflowInputInvalid "the Review cursor Change is unavailable") in
  let? validated := workflow_input (validate_review_cursor_for_transition token change ready.2) in
  Ok (rr_revision_id (rcu_revision validated)).
End cursors.

(** ** The state of a source *)

(** [serde_json::to_value] of a source, as far as its label reads it. *)
Definition capture_mode_label (source : RevisionSource) : string :=
  let '(kind, mode, include_untracked) :=
    match source with
    | GitWorktree CombinedHeadToWorkingTree include_untracked _ =>
        ("git_worktree", "combined_head_to_working_tree", include_untracked)
    | GitCommitRange BaseTreeToTargetTree _ => ("git_commit_range", "base_tree_to_target_tree", false)
    | GitRootCommit EmptyTreeToTargetTree _ => ("git_root_commit", "empty_tree_to_target_tree", false)
    | GitStaged BaseTreeToIndexTree _ => ("git_staged", "base_tree_to_index_tree", false)
    | GitUnstaged IndexTreeToWorkingTree include_untracked _ =>
        ("git_unstaged", "index_tree_to_working_tree", include_untracked)
    end in
  kind +:+ ":" +:+ mode +:+ ":include_untracked=" +:+ (if include_untracked then "true" else "false").

Definition source_path_scope (source : RevisionSource) : list string :=
  match source with
  | GitWorktree _ _ pathspecs | GitCommitRange _ pathspecs | GitRootCommit _ pathspecs
  | GitStaged _ pathspecs | GitUnstaged _ _ pathspecs => pathspecs
  end.

Definition endpoint_identity (endpoint : ReviewEndpoint) : option string :=
  match endpoint with
  | GitCommit commit_oid _ => Some commit_oid
  | GitTree tree_oid | GitIndex tree_oid => Some tree_oid
  | GitWorkingTree _ => None
  end.

Definition source_path_states `{Digest} `{!Serialize DiffFile} (files : list DiffFile)
    : result (list ReviewSourcePathStateV1) :=
  mapM (λ file,
    let path := match df_new_path file with Some path => Some path | None => df_old_path file end in
    let? path := ok_or path (WorkflowInputInvalid "captured source entry has no path") in
    let? content_hash := sha256_json_prefixed (to_json file) in
    Ok {| ps_path := path; ps_content_hash := Some content_hash;
          ps_mode := default "none" (df_old_mode file) +:+ "->" +:+ default "none" (df_new_mode file);
          ps_tracked := negb (df_synthetic file) |}) files.

(** ** Canonical entries of a diff ([src/src/session/evidence/relation_proof.rs]) *)

Inductive CanonicalChangeV1 := CAdded | CDeleted | CModified | CRenamed | CCopied | CModeOnly.
Inductive CanonicalContentKindV1 := KText | KBinary | KSymlink | KSubmodule.

#[export] Instance CanonicalChangeV1_eq_dec : EqDecision CanonicalChangeV1.
Proof. solve_decision. Defined.
#[export] Instance CanonicalContentKindV1_eq_dec : EqDecision CanonicalContentKindV1.
Proof. solve_decision. Defined.

Record CanonicalRawEntryV1 := {
  re_path_identity : string;
  re_previous_path_identity : option string;
  re_change : CanonicalChangeV1;
  re_old_oid : option string;
  re_new_oid : option string;
  re_old_mode : option string;
  re_new_mode : option string;
  re_old_decoded_sha256 : option string;
  re_new_decoded_sha256 : option string;
  re_content_kind : CanonicalContentKindV1;
  re_untracked : bool
}.

#[export] Instance CanonicalRawEntryV1_eq_dec : EqDecision CanonicalRawEntryV1.
Proof. solve_decision. Defined.

(** The position of a variant in its enumeration, which its derived order compares. *)
Definition change_index (c : CanonicalChangeV1) : nat :=
  match c with
  | CAdded => 0 | CDeleted => 1 | CModified => 2 | CRenamed => 3 | CCopied => 4 | CModeOnly => 5
  end.
Definition kind_index (k : CanonicalContentKindV1) : nat :=
  match k with KText => 0 | KBinary => 1 | KSymlink => 2 | KSubmodule => 3 end.

Definition entry_tuple (e : CanonicalRawEntryV1) :=
  (re_path_identity e, (re_previous_path_identity e, (change_index (re_change e),
    (re_old_oid e, (re_new_oid e, (re_old_mode e, (re_new_mode e, (re_old_decoded_sha256 e,
      (re_new_decoded_sha256 e, (kind_index (re_content_kind e), Nat.b2n (re_untracked e))))))))))).

Definition entry_cmp (l r : CanonicalRawEntryV1) : comparison :=
  ord_cmp (entry_tuple l) (entry_tuple r).

(** [Vec::dedup]. *)
Fixpoint dedup_entries (l : list CanonicalRawEntryV1) : list CanonicalRawEntryV1 :=
  match l with
  | x :: ((y :: _) as l') => if decide (x = y) then dedup_entries l' else x :: dedup_entries l'
  | _ => l
  end.

Definition diff_file_path (file : DiffFile) : option string :=
  match df_new_path file with Some path => Some path | None => df_old_path file end.

Definition is_mode (mode : option string) (m : string) : bool := bool_decide (mode = Some m).

Section entries.
Context `{Digest}.

Definition path_identity (path : string) : string := "sha256:" +:+ sha256_bytes_hex path.

Definition canonical_entry (source_untracked_paths : gset string) (file : DiffFile)
    : CanonicalRawEntryV1 :=
  let path := default EmptyString (diff_file_path file) in
  let added := bool_decide (df_status file = Added) in
  {| re_path_identity := path_identity path;
     re_previous_path_identity :=
       match df_status file with
       | Renamed | Copied => path_identity <$> df_old_path file
       | _ => None
       end;
     re_change :=
       if df_is_mode_only file then CModeOnly
       else match df_status file with
            | Modified => CModified | Added => CAdded | Deleted => CDeleted
            | Renamed => CRenamed | Copied => CCopied
            end;
     re_old_oid := if added then None else df_old_oid file;
     re_new_oid := df_new_oid file;
     re_old_mode := if added then None else df_old_mode file;
     re_new_mode := df_new_mode file;
     re_old_decoded_sha256 := None;
     re_new_decoded_sha256 := None;
     re_content_kind :=
       if df_is_submodule file then KSubmodule
       else if is_mode (df_old_mode file) "120000" || is_mode (df_new_mode file) "120000" then KSymlink
       else if df_is_binary file then KBinary
       else KText;
     re_untracked := df_synthetic file || bool_decide (path_identity path ∈ source_untracked_paths) |}.

Definition canonical_diff_entries_with_untracked_paths (files : list DiffFile)
    (source_untracked_paths : gset string) : list CanonicalRawEntryV1 :=
  dedup_entries (sort_by entry_cmp (canonical_entry source_untracked_paths <$> files)).

Definition canonical_diff_entries (files : list DiffFile) : list CanonicalRawEntryV1 :=
  canonical_diff_entries_with_untracked_paths files ∅.

Definition canonical_candidate_diff_entries (candidate_files source_files : list DiffFile)
    : list CanonicalRawEntryV1 :=
  canonical_diff_entries_with_untracked_paths candidate_files
    (set_of_list (path_identity <$> omap diff_file_path
      (List.filter (λ file, df_synthetic file) source_files))).
End entries.

(** ** The binding of a live source *)

(** What a binding reads of a shown revision and of a fresh capture's fingerprint. *)
Record RevisionShown := {
  sh_object_artifact_content_hash : string;
  sh_git_provenance : option GitProvenance;
  sh_files : list DiffFile
}.

Record LiveFingerprint := {
  lf_revision_id : RevisionId;
  lf_source : RevisionSource;
  lf_base : ReviewEndpoint
}.

Definition ensure_exact_revision_artifact (shown : RevisionShown) (revision : RevisionRefV1)
    : result unit :=
  if bool_decide (sh_object_artifact_content_hash shown = rr_object_artifact_content_hash revision)
  then Ok ()
  else Err (WorkflowInputInvalid
    "review_cursor_artifact_mismatch: the exact Revision artifact binding changed").

Section live.
Context `{Digest} `{Git} `{!Serialize DiffFile}.
(** [prepare_mutable_source_for_provenance], [capture_commit_range_diff_files] and
    [exact_revision_source] with its variant over a ready reader, which run git or read
    the store. *)
Context (prepare : GitProvenance → result (list DiffFile * LiveFingerprint)).
Context (capture_range : string → string → list string → result (list DiffFile)).
Context (exact_source : RevisionRefV1 → result RevisionShown).

Definition worktree_source_binding_from_shown (revision : RevisionRefV1) (shown : RevisionShown)
    : result ReviewSourceBindingV1 :=
  let? _ := ensure_exact_revision_artifact shown revision in
  let? provenance := ok_or (sh_git_provenance shown) (WorkflowInputInvalid
    "the exact Revision has no Git source to compare with the worktree") in
  let? (files, fingerprint) := prepare provenance in
  if negb (bool_decide (lf_revision_id fingerprint = rr_revision_id revision)) ||
      negb (bool_decide (files = sh_files shown))
  then Err (WorkflowInputInvalid "review_cursor_source_changed: the live worktree no longer matches the exact Revision capture mode and scope")
  else
    let? paths := source_path_states files in
    binding_worktree {| ws_capture_mode := capture_mode_label (lf_source fingerprint);
      ws_base := endpoint_identity (lf_base fingerprint);
      ws_path_scope := source_path_scope (lf_source fingerprint); ws_paths := paths |}.

Definition commit_source_binding_from_shown (revision : RevisionRefV1) (commit_spec : string)
    (shown : RevisionShown) : result ReviewSourceBindingV1 :=
  let? _ := ensure_exact_revision_artifact shown revision in
  let? provenance := ok_or (sh_git_provenance shown) (WorkflowInputInvalid
    "the exact Revision has no Git source to compare with a commit") in
  let? commit_oid := git_rev_parse_commit_oid commit_spec in
  let? tree_oid := git_commit_tree_oid commit_oid in
  let? comparison_base := ok_or (endpoint_identity (gp_base provenance)) (WorkflowInputInvalid
    "the exact Revision has no stable Git base for commit comparison") in
  let path_scope := source_path_scope (gp_source provenance) in
  let? candidate := capture_range comparison_base commit_oid path_scope in
  if negb (bool_decide (canonical_candidate_diff_entries candidate (sh_files shown) =
                        canonical_diff_entries (sh_files shown)))
  then Err (WorkflowInputInvalid "review_cursor_source_changed: the selected commit does not materialize the exact Revision capture mode and scope")
  else
    let exact := match gp_target provenance with
                 | GitCommit captured _ => String.eqb captured commit_oid
                 | _ => false
                 end in
    binding_commit {| cst_commit_oid := commit_oid; cst_tree_oid := tree_oid;
      cst_comparison_base := comparison_base; cst_path_scope := path_scope;
      cst_proof_state := if exact then PExact else PEquivalent; cst_proof_ref := None |}.

Definition current_review_source_binding (cursor : ReviewCursorV1) : result ReviewSourceBindingV1 :=
  match rcu_source_binding cursor with
  | Captured => Ok Captured
  | WorktreeMatchV1 _ _ _ _ =>
      let? shown := exact_source (rcu_revision cursor) in
      worktree_source_binding_from_shown (rcu_revision cursor) shown
  | CommitMatchV1 commit_oid _ _ _ _ _ _ =>
      let? shown := exact_source (rcu_revision cursor) in
      commit_source_binding_from_shown (rcu_revision cursor) commit_oid shown
  end.

Inductive ReviewSourceRequestV1 := RequestCaptured | RequestWorktree | RequestCommit (revision_spec : string).

Definition review_source_binding_from_shown (revision : RevisionRefV1)
    (request : ReviewSourceRequestV1) (shown : RevisionShown) : result ReviewSourceBindingV1 :=
  match request with
  | RequestCaptured => Ok Captured
  | RequestWorktree => worktree_source_binding_from_shown revision shown
  | RequestCommit revision_spec => commit_source_binding_from_shown revision revision_spec shown
  end.

Definition review_source_binding (revision : RevisionRefV1) (request : ReviewSourceRequestV1)
    : result ReviewSourceBindingV1 :=
  match request with
  | RequestCaptured => Ok Captured
  | RequestWorktree =>
      let? shown := exact_source revision in
      worktree_source_binding_from_shown revision shown
  | RequestCommit revision_spec =>
      let? shown := exact_source revision in
      commit_source_binding_from_shown revision revision_spec shown
  end.
End live.
