(* ===== verification/ReviewCursorProofs.v ===== *)
(** * Proofs about review cursors

    Tokens read back, what a cursor that passes the check before a write guarantees,
    and that a fresh cursor passes it as long as the Change graph and the source stand. *)

From S2P Require Import Prelude RustStr BTree Model Acknowledgement GitRaw GitPatch GitDiff.
From S2P Require Import CanonicalHash Crypto Events ChangeClaims Relations Liveness Payloads.
From S2P Require Import ChangeGraph ChangeProjection ChangeViews ChangeEvents ChangeDocuments.
From S2P Require Import Wire Journal EventCodec Capabilities Artifacts ReviewCursor.

(** ** Reading canonical documents *)

Definition canonical_object (o : list (string * json)) : list (string * json) :=
  sort_by key_cmp (canonical_entries o).

Lemma canonical_object_keys o : (canonical_object o).*1 ≡ₚ o.*1.
Proof.
  unfold canonical_object. rewrite <- (canonical_entries_keys o).
  apply fmap_Permutation, sort_by_Permutation.
Qed.

Lemma canonical_object_NoDup o : NoDup o.*1 → NoDup (canonical_object o).*1.
Proof. by rewrite canonical_object_keys. Qed.

Lemma json_entry_canonical o k :
  NoDup o.*1 → json_entry (canonical_object o) k = canonical_json_value <$> json_entry o k.
Proof.
  intros Hnd. apply option_eq. intros c.
  rewrite json_entry_Some by by apply canonical_object_NoDup.
  unfold canonical_object. rewrite sort_by_Permutation, elem_of_canonical_entries, fmap_Some.
  split; intros (v & Hv & ->); exists v; (split; [|done]); by apply json_entry_Some.
Qed.

Section canonical_reading.
Context `{JsonReader}.

Lemma req_canonical {A} `{Serialize A} `{Deserialize A} o k (a : A) :
  NoDup o.*1 → json_entry o k = Some (to_json a) →
  from_json (canonical_json_value (to_json a)) = Ok a → req (canonical_object o) k = Ok a.
Proof. intros Hnd Hk. apply req_entry. by rewrite json_entry_canonical, Hk. Qed.

Lemma opt_canonical {A} `{Serialize A} `{Deserialize A} `{!SerializeNonNull A} o o' k (x : option A) :
  json_entry o' k = canonical_json_value <$> json_entry o k → json_entry o k = to_json <$> x →
  (∀ a, x = Some a → from_json (canonical_json_value (to_json a)) = Ok a) → opt o' k = Ok x.
Proof.
  unfold opt. intros -> -> Hx. destruct x as [a|]; cbn [fmap option_fmap option_map]; [|done].
  rewrite (Hx a eq_refl). pose proof (to_json_not_null a) as Hn.
  by destruct (to_json a); cbn [canonical_json_value].
Qed.

Lemma strict_canonical keys least o :
  NoDup o.*1 → (∀ k, k ∈ o.*1 → k ∈ keys) →
  strict_entries keys least (canonical_json_value (JObject o)) = Ok (canonical_object o).
Proof.
  intros Hnd Hkeys. unfold strict_entries. cbn [canonical_json_value].
  change (sort_by key_cmp _) with (canonical_object o).
  rewrite struct_object by by apply canonical_object_NoDup. cbn.
  unfold deny_unknown. rewrite (proj2 (forallb_forall _ _)); [done|].
  intros p Hp. apply bool_decide_eq_true, Hkeys. rewrite <- canonical_object_keys.
  apply list_elem_of_fmap. exists p. split; [done|]. by apply list_elem_of_In.
Qed.

Lemma strings_canonical (l : list string) : from_json (canonical_json_value (to_json l)) = Ok l.
Proof. rewrite <- (strings_roundtrip l). cbn. f_equal. rewrite <- list_fmap_compose. done. Qed.

(** An entry of a filtered object. *)
Lemma json_entry_filter (P : string → bool) o k :
  json_entry (List.filter (λ p, P p.1) o) k = if P k then json_entry o k else None.
Proof.
  induction o as [|[k' v] o IH]; cbn; [by destruct (P k)|].
  destruct (String.eqb_spec k' k) as [->|Hne].
  - destruct (P k) eqn:E; cbn; [by rewrite String.eqb_refl|]. by rewrite IH.
  - destruct (P k'); cbn; [|done]. by rewrite (proj2 (String.eqb_neq _ _) Hne).
Qed.

Lemma filter_key o tag v :
  NoDup o.*1 → json_entry o tag = Some v → List.filter (λ p, String.eqb p.1 tag) o = [(tag, v)].
Proof.
  induction o as [|[k w] o IH]; cbn; [done|]. intros [Hk Hnd]%NoDup_cons.
  destruct (String.eqb_spec k tag) as [->|Hne]; [|by apply IH].
  intros [= ->]. f_equal. clear IH Hnd. induction o as [|[k w] o IH]; cbn in *; [done|].
  apply not_elem_of_cons in Hk as [Hne Hk]. destruct (String.eqb_spec k tag); [congruence|auto].
Qed.

(** The tag and the remaining entries of an internally tagged variant. *)
Lemma tagged_canonical tag kind o :
  NoDup o.*1 → json_entry o tag = Some (JString kind) →
  ∃ o', tagged tag (canonical_json_value (JObject o)) = Ok (kind, JObject o') ∧ NoDup o'.*1 ∧
    ∀ k, k ≠ tag → json_entry o' k = canonical_json_value <$> json_entry o k.
Proof.
  intros Hnd Htag. exists (List.filter (λ p, negb (String.eqb p.1 tag)) (canonical_object o)).
  split_and!.
  - cbn [canonical_json_value tagged]. change (sort_by key_cmp _) with (canonical_object o).
    rewrite (filter_key _ tag (JString kind)); [done|by apply canonical_object_NoDup|].
    by rewrite json_entry_canonical, Htag.
  - apply canonical_object_NoDup in Hnd. clear Htag. induction (canonical_object o) as [|[k v] l IH];
      cbn in *; [constructor|]. apply NoDup_cons in Hnd as [Hk Hnd].
    destruct (negb (String.eqb k tag)); cbn; [|by apply IH]. apply NoDup_cons. split; [|by apply IH].
    intros Hin. apply Hk. apply list_elem_of_fmap in Hin as (p & -> & Hp).
    apply list_elem_of_fmap. exists p. split; [done|].
    by apply list_elem_of_In, filter_In, proj1, list_elem_of_In in Hp.
  - intros k Hne. rewrite (json_entry_filter (λ k, negb (String.eqb k tag))).
    rewrite (proj2 (String.eqb_neq _ _) Hne). cbn. by apply json_entry_canonical.
Qed.
End canonical_reading.

(** ** Tokens *)

(** The invariant of [RevisionRefV1]: its constructor accepts it. *)
Definition ref_ok (r : RevisionRefV1) : Prop :=
  RevisionRefV1_new (rr_revision_id r) (rr_object_artifact_content_hash r) = Ok r.

Record cursor_ok (c : ReviewCursorV1) : Prop := {
  co_schema : rcu_schema c = REVIEW_CURSOR_SCHEMA_V1;
  co_revision : ref_ok (rcu_revision c);
  co_current : Forall ref_ok (rcu_selected_current_revisions c)
}.

(** [literal_keys]: the side conditions on the constant keys of an object literal. *)
Ltac literal_keys :=
  match goal with
  | |- NoDup _ => apply (bool_decide_unpack _); vm_compute; exact I
  | |- ∀ k, k ∈ _ → k ∈ _ => apply Forall_forall, (bool_decide_unpack _); vm_compute; exact I
  end.

Section tokens.
Context `{JsonReader}.

Lemma ref_canonical (r : RevisionRefV1) :
  ref_ok r → from_json (canonical_json_value (to_json r)) = Ok r.
Proof.
  intros Hr. unfold from_json, RevisionRefV1_Deserialize. unfold to_json at 1, RevisionRefV1_Serialize.
  rewrite strict_canonical by literal_keys. cbn [rbind].
  rewrite (req_canonical _ "revisionId" (rr_revision_id r)); [|literal_keys|done..]. cbn [rbind].
  rewrite (req_canonical _ "objectArtifactContentHash" (rr_object_artifact_content_hash r));
    [|literal_keys|done..].
  cbn [rbind]. by rewrite Hr.
Qed.

Lemma refs_canonical (l : list RevisionRefV1) :
  Forall ref_ok l → from_json (canonical_json_value (to_json l)) = Ok l.
Proof.
  intros Hl. unfold from_json at 1, list_Deserialize, to_json at 1, list_Serialize.
  cbn [canonical_json_value]. induction Hl as [|r l Hr _ IH]; [done|].
  cbn [fmap list_fmap List.map mapM]. rewrite (ref_canonical r Hr). cbn [mbind Result_bind rbind].
  by rewrite IH.
Qed.

Lemma proof_state_canonical (p : CommitProofStateV1) :
  from_json (canonical_json_value (to_json p)) = Ok p.
Proof. by destruct p. Qed.

Lemma binding_canonical (b : ReviewSourceBindingV1) :
  from_json (canonical_json_value (to_json b)) = Ok b.
Proof.
  unfold from_json, ReviewSourceBindingV1_Deserialize.
  destruct b as [|m base scope f|c t cb scope ps pr f];
    unfold to_json at 1, ReviewSourceBindingV1_Serialize; [done|..].
  - edestruct (tagged_canonical "kind" "worktree_match_v1") as (o & -> & Hnd & Ho);
      [|reflexivity|]; [destruct base; literal_keys|].
    cbn [rbind String.eqb Ascii.eqb Bool.eqb]. rewrite struct_object by done. cbn [rbind].
    rewrite (req_entry _ "captureMode" (JString m) m); [|by rewrite Ho by done|done]. cbn [rbind].
    rewrite (opt_canonical _ o "base" base (Ho "base" ltac:(done))); [|by destruct base|done]. cbn [rbind].
    rewrite (req_entry _ "pathScope" (canonical_json_value (to_json scope)) scope);
      [|rewrite Ho by done; by destruct base|apply strings_canonical]. cbn [rbind].
    rewrite (req_entry _ "sourceFingerprint" (JString f) f);
      [done|rewrite Ho by done; by destruct base|done].
  - edestruct (tagged_canonical "kind" "commit_match_v1") as (o & -> & Hnd & Ho);
      [|reflexivity|]; [destruct pr; literal_keys|].
    cbn [rbind String.eqb Ascii.eqb Bool.eqb]. rewrite struct_object by done. cbn [rbind].
    rewrite (req_entry _ "commitOid" (JString c) c); [|by rewrite Ho by done|done]. cbn [rbind].
    rewrite (req_entry _ "treeOid" (JString t) t); [|by rewrite Ho by done|done]. cbn [rbind].
    rewrite (req_entry _ "comparisonBase" (JString cb) cb); [|by rewrite Ho by done|done]. cbn [rbind].
    rewrite (req_entry _ "pathScope" (canonical_json_value (to_json scope)) scope);
      [|by rewrite Ho by done|apply strings_canonical]. cbn [rbind].
    rewrite (req_entry _ "proofState" (canonical_json_value (to_json ps)) ps);
      [|by rewrite Ho by done|apply proof_state_canonical]. cbn [rbind].
    rewrite (opt_canonical _ o "proofRef" pr (Ho "proofRef" ltac:(done))); [|by destruct pr|done]. cbn [rbind].
    rewrite (req_entry _ "sourceFingerprint" (JString f) f);
      [done|rewrite Ho by done; by destruct pr|done].
Qed.

Lemma cursor_canonical (c : ReviewCursorV1) :
  cursor_ok c → from_json (canonical_json_value (to_json c)) = Ok c.
Proof.
  intros [_ Hr Hl]. unfold from_json, ReviewCursorV1_Deserialize.
  unfold to_json at 1, ReviewCursorV1_Serialize. rewrite strict_canonical by literal_keys. cbn [rbind].
  rewrite (req_canonical _ "schema" (rcu_schema c)); [|literal_keys|done..]. cbn [rbind].
  rewrite (req_canonical _ "changeId" (rcu_change_id c)); [|literal_keys|done..]. cbn [rbind].
  rewrite (req_canonical _ "revision" (rcu_revision c));
    [|literal_keys|done|by apply ref_canonical]. cbn [rbind].
  rewrite (req_canonical _ "changeGraphToken" (rcu_change_graph_token c)); [|literal_keys|done..].
  cbn [rbind].
  rewrite (req_canonical _ "selectedCurrentRevisions" (rcu_selected_current_revisions c));
    [|literal_keys|done|by apply refs_canonical]. cbn [rbind].
  rewrite (req_canonical _ "sourceBinding" (rcu_source_binding c));
    [|literal_keys|done|apply binding_canonical]. cbn [rbind].
  rewrite (req_canonical _ "blockingDiagnostics" (rcu_blocking_diagnostics c));
    [|literal_keys|done|apply strings_canonical]. cbn [rbind].
  by destruct c.
Qed.
End tokens.

(** ** Documents *)

Lemma canonical_wf v : json_wf v → json_wf (canonical_json_value v).
Proof.
  induction v as [| | | |vs IH|o IH] using json_nested_ind; intros Hwf; cbn [canonical_json_value];
    try constructor; inversion Hwf as [| | | |? Hvs|? Hnd Ho]; subst.
  - apply Forall_fmap. rewrite Forall_forall in IH, Hvs |- *. intros v Hv. apply IH; auto.
  - by apply canonical_object_NoDup.
  - change (sort_by key_cmp _) with (canonical_object o). apply Forall_forall.
    intros c ([k c'] & -> & Hin)%list_elem_of_fmap. unfold canonical_object in Hin.
    rewrite sort_by_Permutation, elem_of_canonical_entries in Hin. destruct Hin as (v & Hin & ->).
    cbn. rewrite Forall_forall in IH. apply (IH _ Hin). by eapply wf_entry.
Qed.

#[export] Instance set_SerializeLaws {K} `{Countable K} `{!Ord K} `{!OrdLaws K}
  `{!Serialize K} `{!SerializeLaws K} : SerializeLaws (gset K).
Proof.
  split.
  - intros X. apply (to_json_wf (iter_set X)).
  - intros X Y Heq. apply (to_json_inj (iter_set X) (iter_set Y)) in Heq. apply set_eq. intros x.
    by rewrite <- (elem_of_iter_set x X), Heq, elem_of_iter_set.
Qed.

#[export] Instance pair_SerializeLaws {A B} `{SerializeLaws A} `{SerializeLaws B} :
  SerializeLaws (A * B).
Proof.
  split.
  - intros p. unfold to_json, pair_Serialize. apply wf_array. repeat constructor; apply to_json_wf.
  - intros [a b] [a' b'] Heq. unfold to_json at 1 2, pair_Serialize in Heq. cbn [fst snd] in Heq.
    assert (Forall2 json_equiv [to_json a; to_json b] [to_json a'; to_json b']) as Hall.
    { inversion Heq; subst; [repeat constructor|done]. }
    apply Forall2_cons in Hall as [Ha%to_json_inj Hall].
    apply Forall2_cons in Hall as [Hb%to_json_inj _]. by subst.
Qed.

Lemma binding_wf (b : ReviewSourceBindingV1) : json_wf (to_json b).
Proof.
  destruct b as [|m base scope f|c t cb scope ps pr f]; unfold to_json, ReviewSourceBindingV1_Serialize.
  - json_wf_literal.
  - destruct base; cbn [app opt_field]; json_wf_literal.
  - destruct pr; cbn [app opt_field]; json_wf_literal.
Qed.

Lemma cursor_wf (c : ReviewCursorV1) : json_wf (to_json c).
Proof.
  unfold to_json, ReviewCursorV1_Serialize. json_wf_literal. apply binding_wf.
Qed.

(** The parts of a Change that a graph digest covers. *)
Definition same_graph (l r : ChangeView) : Prop :=
  cv_change_id l = cv_change_id r ∧ cv_members l = cv_members r ∧
  cv_supersedes l = cv_supersedes r ∧ cv_current_revisions l = cv_current_revisions r ∧
  cv_diagnostics l = cv_diagnostics r.

Lemma change_graph_document_wf change : json_wf (change_graph_document change).
Proof. unfold change_graph_document. json_wf_literal. Qed.

Lemma graph_digest_binding `{DigestLaws} l r :
  json_digest (change_graph_document l) = json_digest (change_graph_document r) →
  same_graph l r ∨ json_collision (change_graph_document l) (change_graph_document r).
Proof.
  intros Heq. apply json_digest_binding in Heq as [Heq|Hc];
    [|by right|apply change_graph_document_wf..].
  left. unfold change_graph_document in Heq. json_fields Heq. done.
Qed.

Lemma same_graph_document l r : same_graph l r → change_graph_document l = change_graph_document r.
Proof. intros (H1 & H2 & H3 & H4 & H5). unfold change_graph_document. congruence. Qed.

(** ** Validation *)

Lemma one_exact_ref_Ok r d x :
  one_exact_ref r d = Ok x ↔ cdp_revision_refs d !! r = Some [x].
Proof.
  unfold one_exact_ref. destruct (_ !! r) as [[|y [|z l]]|]; split; try done; by intros [= ->].
Qed.

Lemma exact_refs_Ok revisions d l :
  exact_refs revisions d = Ok l ↔
  Forall2 (λ r x, cdp_revision_refs d !! r = Some [x]) (iter_set revisions) l.
Proof.
  unfold exact_refs. rewrite mapM_Ok.
  split; intros Hl; (eapply Forall2_impl; [exact Hl|]); intros r x; apply one_exact_ref_Ok.
Qed.

(** What the state of a Change must be for a cursor to stand. *)
Record cursor_stands (c : ReviewCursorV1) (change : ChangeView) (d : ChangeDocumentProjectionV1)
    : Prop := {
  st_resolved : cv_diagnostics change = [] ∧ cv_topology change ≠ TReplacementDivergent ∧
    cv_topology change ≠ TCycleConflicted;
  st_member : rr_revision_id (rcu_revision c) ∈ cv_members change;
  st_is_current : rr_revision_id (rcu_revision c) ∈ cv_current_revisions change;
  st_reference : cdp_revision_refs d !! rr_revision_id (rcu_revision c) = Some [rcu_revision c];
  st_current : Forall2 (λ r x, cdp_revision_refs d !! r = Some [x])
    (iter_set (cv_current_revisions change)) (rcu_selected_current_revisions c);
  st_blocking : rcu_blocking_diagnostics c = []
}.

Lemma unresolved_false change :
  unresolved change = false ↔ cv_diagnostics change = [] ∧
    cv_topology change ≠ TReplacementDivergent ∧ cv_topology change ≠ TCycleConflicted.
Proof.
  unfold unresolved. rewrite !orb_false_iff, negb_false_iff, !bool_decide_eq_false, bool_decide_eq_true.
  tauto.
Qed.

Section validation.
Context `{Digest} `{JsonReader} `{UrlBase64}.

Lemma choose_explicit change d r binding current x :
  choose_revision change d (Some r) false binding current = Ok x ↔
  r ∈ cv_members change ∧ r ∈ cv_current_revisions change ∧ cdp_revision_refs d !! r = Some [x].
Proof.
  unfold choose_revision. rewrite <- one_exact_ref_Ok.
  destruct (bool_decide_reflect (r ∈ cv_members change)) as [Hm|Hm]; cbn [negb];
    [|split; [done|by intros (? & _)]].
  rewrite bind_Ok. destruct (bool_decide_reflect (r ∈ cv_current_revisions change)) as [Hc|Hc];
    cbn [negb andb orb].
  - split; [intros (y & Hy & [= ->]); done|]. intros (_ & _ & Hx). by exists x.
  - split; [by intros (y & _ & ?)|by intros (_ & ? & _)].
Qed.

Lemma encode_token_Ok c : ∃ t, encode_token c = Ok t.
Proof. by eexists. Qed.

(** A selection, read back. *)
Lemma select_Ok change d explicit historical binding s :
  select_review_cursor change d explicit historical binding = Ok s ↔
  unresolved change = false ∧ ∃ current revision,
    exact_refs (cv_current_revisions change) d = Ok current ∧
    choose_revision change d explicit historical binding current = Ok revision ∧
    let c := {| rcu_schema := REVIEW_CURSOR_SCHEMA_V1; rcu_change_id := cv_change_id change;
      rcu_revision := revision; rcu_change_graph_token := json_digest (change_graph_document change);
      rcu_selected_current_revisions := current; rcu_source_binding := binding;
      rcu_blocking_diagnostics := [] |} in
    sel_cursor s = c ∧ encode_token c = Ok (sel_token s).
Proof.
  unfold select_review_cursor. rewrite bind_Ok. split.
  - intros (current & Hcur & Hs). destruct (unresolved change); [done|]. split; [done|].
    apply bind_Ok in Hs as (revision & Hrev & Hs). exists current, revision.
    split; [done|]. split; [done|]. cbn in Hs. by injection Hs as <-.
  - intros (-> & current & revision & Hcur & Hrev & Hs & Ht). exists current. split; [done|].
    rewrite Hrev. destruct s as [c t]. cbn in *. injection Ht as <-. by subst.
Qed.

Lemma decode_for_Ok token change c :
  decode_for token change = Ok c ↔
  decode_token token = Ok c ∧ rcu_change_id c = cv_change_id change ∧
  rcu_change_graph_token c = json_digest (change_graph_document change).
Proof.
  unfold decode_for. rewrite bind_Ok. cbn zeta. split.
  - intros (c' & Hc & Hs). destruct (decode_token token) as [c''|]; [|done]. injection Hc as ->.
    destruct (String.eqb_spec (rcu_change_id c') (cv_change_id change)); [|done]. cbn [negb] in Hs.
    apply bind_Ok in Hs as (g & Hg & Hs). injection Hg as <-.
    destruct (String.eqb_spec (rcu_change_graph_token c') (json_digest (change_graph_document change)));
      unfold json_digest in *; [|by rewrite (proj2 (String.eqb_neq _ _)) in Hs].
    rewrite (proj2 (String.eqb_eq _ _)) in Hs by done. by injection Hs as ->.
  - intros (-> & Hid & Hg). exists c. split; [done|].
    rewrite (proj2 (String.eqb_eq _ _) Hid). cbn [negb]. apply bind_Ok.
    exists (json_digest (change_graph_document change)). split; [done|].
    by rewrite (proj2 (String.eqb_eq _ _) Hg).
Qed.

Lemma reselect_Ok c change d binding c' :
  reselect c change d binding = Ok c' ↔ c' = c ∧ cursor_stands c change d.
Proof.
  unfold reselect. rewrite bind_Ok. split.
  - intros (s & (Hu & current & revision & Hcur & Hrev & Hs & _)%select_Ok & Hb). cbn zeta in Hs, Hb.
    rewrite Hs in Hb. cbn in Hb. apply choose_explicit in Hrev as (Hm & Hc & Href).
    destruct (bool_decide_reflect (rcu_revision c = revision)) as [<-|]; [|discriminate Hb].
    destruct (bool_decide_reflect (rcu_selected_current_revisions c = current)) as [<-|]; [|discriminate Hb].
    case_bool_decide as Hbl; [|discriminate Hb].
    cbn in Hb. injection Hb as <-. split; [done|].
    split; [by apply unresolved_false|done..|by apply exact_refs_Ok|done].
  - intros (-> & [Hu Hm Hc Href Hcur Hb]).
    edestruct encode_token_Ok as [t Ht]. eexists {| sel_cursor := _; sel_token := t |}. split.
    + apply select_Ok. split; [by apply unresolved_false|].
      exists (rcu_selected_current_revisions c), (rcu_revision c).
      split; [by apply exact_refs_Ok|]. split; [by apply choose_explicit|]. split; [reflexivity|exact Ht].
    + cbn. by rewrite Hb, !bool_decide_eq_true_2.
Qed.

Lemma validate_write_Ok token change d binding c :
  validate_review_cursor_for_write token change d binding = Ok c ↔
    decode_token token = Ok c ∧ rcu_change_id c = cv_change_id change ∧
    rcu_change_graph_token c = json_digest (change_graph_document change) ∧
    rcu_source_binding c = binding ∧ cursor_stands c change d.
Proof.
  unfold validate_review_cursor_for_write. rewrite bind_Ok. split.
  - intros (c' & (Hd & Hid & Hg)%decode_for_Ok & Hv).
    destruct (bool_decide_reflect (rcu_source_binding c' = binding)); [|done].
    cbn [negb] in Hv. by apply reselect_Ok in Hv as [-> Hst].
  - intros (Hd & Hid & Hg & Hb & Hst). exists c. split; [by apply decode_for_Ok|].
    rewrite bool_decide_eq_true_2 by done. by apply reselect_Ok.
Qed.

Lemma validate_transition_Ok token change d c :
  validate_review_cursor_for_transition token change d = Ok c ↔
    decode_token token = Ok c ∧ rcu_change_id c = cv_change_id change ∧
    rcu_change_graph_token c = json_digest (change_graph_document change) ∧ cursor_stands c change d.
Proof.
  unfold validate_review_cursor_for_transition. rewrite bind_Ok. split.
  - intros (c' & (Hd & Hid & Hg)%decode_for_Ok & [-> Hst]%reselect_Ok). done.
  - intros (Hd & Hid & Hg & Hst). exists c. split; [by apply decode_for_Ok|by apply reselect_Ok].
Qed.

(** The revision a writer targets. *)
Lemma workflow_input_Ok {A} (r : selection A) a : workflow_input r = Ok a ↔ r = Ok a.
Proof. destruct r; cbn; split; congruence. Qed.

(** C18. A writer obtains the revision of a cursor token exactly when the token decodes to
    a cursor of a Change the ready state has, the cursor carries the digest of that
    Change's present graph and the recomputed source binding, the Change is neither
    conflicted nor diagnosed, and the cursor's revision is a current member whose one
    exact reference is the cursor's, as are those of the whole current set.  The revision
    is the cursor's own, never a successor. *)
Theorem write_cursor_exact current_binding token ready r :
  exact_revision_from_review_cursor_with_ready current_binding token ready = Ok r ↔
  ∃ c change, decode_token token = Ok c ∧ cp_changes ready.1 !! rcu_change_id c = Some change ∧
    rcu_change_id c = cv_change_id change ∧
    rcu_change_graph_token c = json_digest (change_graph_document change) ∧
    current_binding c = Ok (rcu_source_binding c) ∧ cursor_stands c change ready.2 ∧
    r = rr_revision_id (rcu_revision c).
Proof.
  unfold exact_revision_from_review_cursor_with_ready, exact_revision_from_decoded_review_cursor.
  rewrite bind_Ok. split.
  - intros (c & Hd & (change & Hc & Hv)%bind_Ok).
    apply bind_Ok in Hv as (c1 & _ & (b & Hb & Hv)%bind_Ok).
    apply bind_Ok in Hv as (c2 & (Hd2 & Hid & Hg & <- & Hst)%workflow_input_Ok%validate_write_Ok & [= <-]).
    rewrite Hd in Hd2. injection Hd2 as <-. exists c, change.
    by destruct (cp_changes ready.1 !! rcu_change_id c); [injection Hc as ->|].
  - intros (c & change & Hd & Hc & Hid & Hg & Hb & Hst & ->). exists c. split; [done|].
    apply bind_Ok. exists change. split; [by rewrite Hc|]. apply bind_Ok. exists c.
    split; [by apply workflow_input_Ok, validate_transition_Ok|]. apply bind_Ok.
    exists (rcu_source_binding c). split; [done|]. apply bind_Ok. exists c.
    split; [by apply workflow_input_Ok, validate_write_Ok|done].
Qed.
End validation.

(** ** Fresh cursors *)

(** Every reference of a projection is well formed and under its own revision. *)
Definition docs_refs_ok (d : ChangeDocumentProjectionV1) : Prop :=
  ∀ r l x, cdp_revision_refs d !! r = Some l → x ∈ l → ref_ok x ∧ rr_revision_id x = r.

Lemma documents_refs_ok `{Digest} facts d :
  project_change_documents_from_facts facts = Ok d → docs_refs_ok d.
Proof.
  intros Hd r l x Hl Hx. destruct (projection_fields facts d Hd) as (_ & _ & _ & Hr & _).
  rewrite Hr in Hl. apply (proj1 (refs_lookup _ r)) in Hl as (hs & _ & (Hrev & Hh & ->)%ref_entry_exact).
  apply list_elem_of_fmap in Hx as (h & -> & Hin%elem_of_iter_set). split; [|done].
  unfold ref_ok, RevisionRefV1_new. cbn. by rewrite Hrev, (Hh h Hin).
Qed.

Section fresh.
Context `{Digest} `{JsonReader} `{UrlBase64} `{!JsonReaderLaws} `{!UrlBase64Laws}.

Lemma token_roundtrip c t : cursor_ok c → encode_token c = Ok t → decode_token t = Ok c.
Proof.
  intros Hc Ht.
  change (Ok (b64_encode (json_text (canonical_json_value
    (to_json {| tw_cursor := c; tw_self_hash := json_digest (to_json c) |})))) = Ok (E := ShoreError) t) in Ht.
  apply (f_equal (ok_value EmptyString)) in Ht. cbn [ok_value] in Ht. subst t.
  unfold decode_token. rewrite b64_roundtrip. cbn [rbind]. unfold from_slice.
  rewrite read_write.
  2:{ apply canonical_wf. unfold to_json at 1, ReviewCursorTokenWireV1_Serialize.
      apply wf_object; [literal_keys|]. apply List.Forall_cons; [apply cursor_wf|json_wf_literal]. }
  unfold from_json, ReviewCursorTokenWireV1_Deserialize.
  unfold to_json at 1, ReviewCursorTokenWireV1_Serialize. rewrite strict_canonical by literal_keys.
  cbn [rbind]. rewrite (req_canonical _ "cursor" c); [|literal_keys|done|by apply cursor_canonical].
  cbn [rbind]. erewrite (req_canonical _ "selfHash"); [|literal_keys|reflexivity|reflexivity].
  cbn [rbind tw_cursor tw_self_hash]. rewrite (co_schema c Hc), String.eqb_refl. cbn [negb].
  rewrite sha256_json_prefixed_Ok. cbn [rbind]. unfold json_digest. by rewrite String.eqb_refl.
Qed.

(** The revision a selection chooses is the one reference of some revision. *)
Lemma chosen_reference change d explicit historical binding current x :
  exact_refs (cv_current_revisions change) d = Ok current →
  choose_revision change d explicit historical binding current = Ok x →
  ∃ r, cdp_revision_refs d !! r = Some [x].
Proof.
  intros Hcur Hx. destruct explicit as [r|]; cbn in Hx.
  - destruct (negb _); [done|]. apply bind_Ok in Hx as (y & Hy%one_exact_ref_Ok & Hx).
    destruct (_ && _); [done|]. injection Hx as ->. by exists r.
  - destruct current as [|y [|? ?]]; try done. injection Hx as ->. apply exact_refs_Ok in Hcur.
    inversion Hcur as [|r ? ? ? Hr]; subst. by exists r.
Qed.

Lemma selected_cursor_ok change d explicit historical binding s :
  docs_refs_ok d → select_review_cursor change d explicit historical binding = Ok s →
  cursor_ok (sel_cursor s) ∧
  cdp_revision_refs d !! rr_revision_id (rcu_revision (sel_cursor s)) = Some [rcu_revision (sel_cursor s)].
Proof.
  intros Hd (_ & current & x & Hcur & Hx & -> & _)%select_Ok. cbn.
  destruct (chosen_reference _ _ _ _ _ _ _ Hcur Hx) as [r Hr].
  destruct (Hd r _ x Hr (list_elem_of_here _ _)) as [Hok Hid]. split; [|by rewrite Hid].
  split; cbn; [done..|]. apply exact_refs_Ok in Hcur. clear Hx.
  induction Hcur as [|r' y l k Hy _ IH]; constructor; [|done].
  by apply (Hd r' _ y Hy), list_elem_of_here.
Qed.

Lemma selected_decodes facts change d explicit historical binding s :
  project_change_documents_from_facts facts = Ok d →
  select_review_cursor change d explicit historical binding = Ok s →
  decode_token (sel_token s) = Ok (sel_cursor s).
Proof.
  intros Hd%documents_refs_ok Hs. destruct (selected_cursor_ok _ _ _ _ _ _ Hd Hs) as [Hok _].
  apply token_roundtrip; [done|]. apply select_Ok in Hs as (_ & current & x & _ & _ & -> & Ht). done.
Qed.

(** C19. A cursor selected at one state of a Change and accepted before a write at a later
    one is the selected cursor, and nothing it depends on has moved in between: the source
    binding is the same, and members, replacements, current revisions and diagnostics of
    the Change are the same with the same exact references of every current revision,
    unless the documents of the two graphs are a collision of the digest. *)
Theorem write_cursor_binds `{!DigestLaws} facts d0 d1 change0 change1 explicit historical b0 b1 s c
    (Hd : project_change_documents_from_facts facts = Ok d0)
    (Hs : select_review_cursor change0 d0 explicit historical b0 = Ok s)
    (Hv : validate_review_cursor_for_write (sel_token s) change1 d1 b1 = Ok c) :
  c = sel_cursor s ∧ b1 = b0 ∧
  (same_graph change0 change1 ∧
    (∀ r, r ∈ cv_current_revisions change1 → cdp_revision_refs d1 !! r = cdp_revision_refs d0 !! r) ∨
   json_collision (change_graph_document change0) (change_graph_document change1)).
Proof.
  pose proof (selected_decodes _ _ _ _ _ _ _ Hd Hs) as Hdec.
  apply validate_write_Ok in Hv as (Hdec' & _ & Hg & <- & Hst).
  rewrite Hdec in Hdec'. injection Hdec' as <-.
  apply select_Ok in Hs as (_ & current & x & Hcur%exact_refs_Ok & _ & Hc & _). cbn zeta in Hc.
  destruct Hst as [_ _ _ _ Hcur' _]. rewrite Hc in Hg, Hcur' |- *. cbn in Hg, Hcur' |- *.
  split; [done|]. split; [done|].
  apply graph_digest_binding in Hg as [Hg|Hg]; [left|by right]. split; [done|].
  destruct Hg as (_ & _ & _ & Hsame & _). rewrite Hsame in Hcur. intros r Hr%elem_of_iter_set.
  apply list_elem_of_lookup in Hr as [i Hi].
  destruct (Forall2_lookup_l _ _ _ _ _ Hcur Hi) as (y & Hy & ->).
  destruct (Forall2_lookup_l _ _ _ _ _ Hcur' Hi) as (z & Hz & ->). congruence.
Qed.

(** C20. A cursor of a current revision stays usable: as long as the Change graph and its
    topology, whose current revisions are members, the references of its current revisions
    and the source stand, the check before a write accepts the selected token, whatever has happened to the Change's lifecycle, its
    qualified revisions, its obligations or anything else the projections hold. *)
Theorem fresh_cursor_validates facts d0 d1 change0 change1 explicit historical binding s
    (Hd : project_change_documents_from_facts facts = Ok d0)
    (Hs : select_review_cursor change0 d0 explicit historical binding = Ok s)
    (Hcurrent : rr_revision_id (rcu_revision (sel_cursor s)) ∈ cv_current_revisions change0)
    (Hmembers : cv_current_revisions change0 ⊆ cv_members change0)
    (Hgraph : same_graph change0 change1) (Htop : cv_topology change1 = cv_topology change0)
    (Hrefs : ∀ r, r ∈ cv_current_revisions change0 →
      cdp_revision_refs d1 !! r = cdp_revision_refs d0 !! r) :
  validate_review_cursor_for_write (sel_token s) change1 d1 binding = Ok (sel_cursor s).
Proof.
  apply validate_write_Ok. split; [by eapply selected_decodes|].
  destruct (selected_cursor_ok _ _ _ _ _ _ (documents_refs_ok _ _ Hd) Hs) as [_ Href].
  apply select_Ok in Hs as (Hu%unresolved_false & current & x & Hcur%exact_refs_Ok & _ & Hc & _).
  cbn zeta in Hc. pose proof (same_graph_document _ _ Hgraph) as Hdoc.
  destruct Hgraph as (Hid & Hm & _ & Hcr & Hdiag). rewrite Hc in Hcurrent, Href |- *.
  cbn [rcu_change_id rcu_revision rcu_change_graph_token rcu_source_binding rcu_selected_current_revisions
    rcu_blocking_diagnostics] in Hcurrent, Href |- *.
  rewrite <- Hid, <- Hdoc. split_and!; [done..|].
  split; cbn [rcu_change_id rcu_revision rcu_change_graph_token rcu_source_binding rcu_selected_current_revisions
    rcu_blocking_diagnostics];
    rewrite <- ?Hdiag, ?Htop, <- ?Hm, <- ?Hcr; [done|by apply Hmembers|done| | |done].
  - by rewrite Hrefs.
  - apply Forall2_same_length_lookup_2; [by eapply Forall2_length|]. intros i r y Hr Hy.
    rewrite Hrefs by by apply elem_of_iter_set, (list_elem_of_lookup_2 _ i).
    by apply (Forall2_lookup_lr _ _ _ _ _ _ Hcur Hr Hy).
Qed.
End fresh.

(** ** Source bindings *)

#[export] Instance bool_SerializeLaws : SerializeLaws bool.
Proof. split; [constructor|]. intros a b Heq. by inversion Heq. Qed.

#[export] Instance ReviewSourcePathStateV1_SerializeLaws : SerializeLaws ReviewSourcePathStateV1.
Proof.
  split.
  - intros [p [h|] m t]; unfold to_json, ReviewSourcePathStateV1_Serialize; cbn [app opt_field ps_content_hash];
      json_wf_literal.
  - intros [p h m t] [p' h' m' t'] Heq. unfold to_json at 1 2, ReviewSourcePathStateV1_Serialize in Heq.
    f_equal.
    + eapply to_json_inj, (equiv_field _ _ "path"); [exact Heq|reflexivity..].
    + eapply (equiv_opt_field _ _ "contentHash"); [exact Heq|by destruct h|by destruct h'].
    + eapply to_json_inj, (equiv_field _ _ "mode"); [exact Heq|by destruct h|by destruct h'].
    + eapply to_json_inj, (equiv_field _ _ "tracked"); [exact Heq|by destruct h|by destruct h'].
Qed.

#[export] Instance WorktreeSourceStateV1_SerializeLaws : SerializeLaws WorktreeSourceStateV1.
Proof.
  split.
  - intros [m [b|] sc ps]; unfold to_json, WorktreeSourceStateV1_Serialize; cbn [app opt_field ws_base];
      json_wf_literal.
  - intros [m b sc ps] [m' b' sc' ps'] Heq. unfold to_json at 1 2, WorktreeSourceStateV1_Serialize in Heq.
    f_equal.
    + eapply to_json_inj, (equiv_field _ _ "captureMode"); [exact Heq|reflexivity..].
    + eapply (equiv_opt_field _ _ "base"); [exact Heq|by destruct b|by destruct b'].
    + eapply to_json_inj, (equiv_field _ _ "pathScope"); [exact Heq|by destruct b|by destruct b'].
    + eapply to_json_inj, (equiv_field _ _ "paths"); [exact Heq|by destruct b|by destruct b'].
Qed.

Lemma adjacent_equal_false l : adjacent_equal l = false → StronglySorted (cmp_le String.compare) l → NoDup l.
Proof.
  induction l as [|x [|y l] IH]; intros Ha Hs; [constructor|by apply NoDup_singleton|].
  cbn in Ha. apply orb_false_iff in Ha as [Hne Ha]. inversion Hs as [|? ? Hs' Hx]; subst.
  apply NoDup_cons. split; [|by apply IH]. intros Hin.
  assert (cmp_le String.compare y x) as Hyx.
  { apply elem_of_cons in Hin as [->|Hin]; [unfold cmp_le; by rewrite (cmp_refl String.compare)|].
    inversion Hs' as [|? ? _ Hy]; subst. by eapply Forall_forall in Hy. }
  apply Forall_cons in Hx as [Hxy _]. unfold cmp_le in *. rewrite (cmp_opp String.compare) in Hyx.
  destruct (String.compare x y) eqn:E; [|done..].
  apply (cmp_eq String.compare) in E. subst. by rewrite String.eqb_refl in Hne.
Qed.

#[local] Instance path_cmp_total : TotalCmp path_cmp.
Proof. apply (cmp_pullback ps_path String.compare), _. Qed.

Lemma normalize_Ok s n :
  worktree_normalize s = Ok n ↔ NoDup (ps_path <$> ws_paths s) ∧
    n = {| ws_capture_mode := ws_capture_mode s; ws_base := ws_base s;
           ws_path_scope := sorted_dedup (ws_path_scope s); ws_paths := sort_by path_cmp (ws_paths s) |}.
Proof.
  unfold worktree_normalize.
  assert (NoDup (ps_path <$> ws_paths s) ↔ NoDup (ps_path <$> sort_by path_cmp (ws_paths s))) as ->
    by by rewrite sort_by_Permutation.
  assert (StronglySorted (cmp_le String.compare) (ps_path <$> sort_by path_cmp (ws_paths s))) as Hs.
  { pose proof (sort_by_sorted path_cmp (ws_paths s)) as Hs.
    induction Hs as [|p l _ IH Hp]; cbn; constructor; [done|]. by apply Forall_fmap. }
  destruct (adjacent_equal _) eqn:E.
  - split; [done|]. intros [Hnd _]. exfalso. revert E Hnd.
    generalize (ps_path <$> sort_by path_cmp (ws_paths s)). intros l. clear.
    induction l as [|x [|y l] IH]; cbn; [done..|]. intros [->%String.eqb_eq|E]%orb_true_iff Hnd;
      apply NoDup_cons in Hnd as [Hn Hnd]; [apply Hn; left|by apply IH].
  - split; [intros [= <-]; split; [by apply adjacent_equal_false|done]|]. by intros [_ ->].
Qed.

(** Two captured states of a worktree, up to the order in which they were listed. *)
Definition same_worktree (l r : WorktreeSourceStateV1) : Prop :=
  ws_capture_mode l = ws_capture_mode r ∧ ws_base l = ws_base r ∧
  (∀ p, p ∈ ws_path_scope l ↔ p ∈ ws_path_scope r) ∧ ws_paths l ≡ₚ ws_paths r.

Lemma same_worktree_normal l r n n' :
  worktree_normalize l = Ok n → worktree_normalize r = Ok n' → n = n' ↔ same_worktree l r.
Proof.
  intros [Hl ->]%normalize_Ok [_ ->]%normalize_Ok. unfold same_worktree. split.
  - intros [= Hm Hb Hsc Hp]. split_and!; [done..| |].
    + rewrite !sorted_dedup_iter in Hsc. intros p.
      rewrite <- !(elem_of_list_to_set (C := gset string)). fold (set_of_list (ws_path_scope l)).
      fold (set_of_list (ws_path_scope r)). by rewrite <- !elem_of_iter_set, Hsc.
    + by rewrite <- (sort_by_Permutation path_cmp (ws_paths l)), Hp, sort_by_Permutation.
  - intros (-> & -> & Hsc & Hp). f_equal.
    + rewrite !sorted_dedup_iter. f_equal. apply set_eq. intros p. unfold set_of_list.
      rewrite !elem_of_list_to_set. apply Hsc.
    + apply sort_by_canonical; [apply _| |done]. intros x y Hx Hy Heq.
      apply (cmp_eq String.compare) in Heq.
      apply list_elem_of_lookup in Hx as [i Hi], Hy as [j Hj].
      assert (i = j) as ->; [|congruence]. eapply (NoDup_lookup _ i j (ps_path x)); [exact Hl| |].
      * by rewrite list_lookup_fmap, Hi.
      * by rewrite list_lookup_fmap, Hj, Heq.
Qed.

(** C38. A worktree state binds exactly when no path is listed twice, and two states have
    one binding exactly when they agree on capture mode, base, scope and every path's
    content hash, mode and tracking, in whatever order they were listed, unless their
    normalised documents are a collision of the digest. *)
Theorem worktree_binding_exact `{DigestLaws} (l r : WorktreeSourceStateV1) :
  ((∃ b, binding_worktree l = Ok b) ↔ NoDup (ps_path <$> ws_paths l)) ∧
  ∀ n n' b b', worktree_normalize l = Ok n → worktree_normalize r = Ok n' →
    binding_worktree l = Ok b → binding_worktree r = Ok b' →
    (b = b' ↔ same_worktree l r) ∨ json_collision (to_json n) (to_json n').
Proof.
  unfold binding_worktree. split.
  - split.
    + by intros (b & (n & [Hnd _]%normalize_Ok & _)%bind_Ok).
    + intros Hnd. eexists. apply bind_Ok. eexists. split; [by apply normalize_Ok|reflexivity].
  - intros n n' b b' Hn Hn' Hb Hb'. rewrite <- (same_worktree_normal l r n n' Hn Hn').
    rewrite Hn in Hb. rewrite Hn' in Hb'. unfold for_material in Hb, Hb'. cbn [rbind] in Hb, Hb'.
    rewrite sha256_json_prefixed_Ok in Hb, Hb'. cbn [rbind] in Hb, Hb'.
    destruct (decide (json_digest (to_json n) = json_digest (to_json n'))) as [Heq|Hne].
    + apply json_digest_binding in Heq as [Heq%to_json_inj|Hc]; [|by right|apply to_json_wf..].
      left. subst. split; [done|]. congruence.
    + left. split; [|intros ->; congruence]. intros ->. destruct Hne. congruence.
Qed.

(** *** Witnesses: one captured revision, before and after its acceptance *)

Module Sample.
Definition codec : UrlBase64 := {| b64_encode s := s; b64_decode := Ok |}.

Lemma codec_laws : @UrlBase64Laws codec.
Proof. by split. Qed.

#[local] Existing Instances example_digest example_reader codec.

Definition artifact : string :=
  "sha256:aaaaaaaaaaaaaaaaaaaaaaaaaaaaaaaaaaaaaaaaaaaaaaaaaaaaaaaaaaaaaaaa".

Definition captured_facts : list ChangeDocumentProjectionFact :=
  [ChangeDocumentProjectionFact_new (FRevision "rev:a" artifact) "evt:1" "actor:a" None].

Definition documents : ChangeDocumentProjectionV1 :=
  ok_value {| cdp_revision_refs := ∅; cdp_unavailable_revision_refs := ∅; cdp_membership_claims := [];
    cdp_relation_claims := []; cdp_diagnostics := []; cdp_projection_stamp := "" |}
    (project_change_documents_from_facts captured_facts).

Lemma documents_ok : project_change_documents_from_facts captured_facts = Ok documents.
Proof. apply is_ok_value. vm_compute. reflexivity. Qed.

Definition view (lifecycle : ChangeLifecycleV1) : ChangeView :=
  {| cv_change_id := "change:c"; cv_members := {["rev:a"]}; cv_current_revisions := {["rev:a"]};
     cv_supersedes := ∅; cv_topology := TInitial; cv_lifecycle := lifecycle;
     cv_qualified_current_revisions := ∅; cv_operative_obligations := ∅; cv_diagnostics := [] |}.

Definition no_cursor : ReviewCursorSelectionV1 :=
  {| sel_cursor := {| rcu_schema := ""; rcu_change_id := "";
       rcu_revision := {| rr_revision_id := ""; rr_object_artifact_content_hash := "" |};
       rcu_change_graph_token := ""; rcu_selected_current_revisions := [];
       rcu_source_binding := Captured; rcu_blocking_diagnostics := [] |}; sel_token := "" |}.

Definition selected : ReviewCursorSelectionV1 :=
  ok_value no_cursor (select_review_cursor (view LInProgress) documents None false Captured).

Lemma selected_ok : select_review_cursor (view LInProgress) documents None false Captured = Ok selected.
Proof. apply is_ok_value. vm_compute. reflexivity. Qed.

Lemma selected_revision : rr_revision_id (rcu_revision (sel_cursor selected)) = "rev:a".
Proof. vm_compute. reflexivity. Qed.

Definition revalidated : ReviewCursorV1 :=
  ok_value (sel_cursor no_cursor)
    (validate_review_cursor_for_write (sel_token selected) (view LAccepted) documents Captured).

Lemma revalidated_ok :
  validate_review_cursor_for_write (sel_token selected) (view LAccepted) documents Captured = Ok revalidated.
Proof. apply is_ok_value. vm_compute. reflexivity. Qed.

Lemma write_cursor_binds_witness : revalidated = sel_cursor selected.
Proof.
  exact (proj1 (@write_cursor_binds example_digest example_reader codec example_reader_laws codec_laws
    example_digest_laws captured_facts documents documents (view LInProgress) (view LAccepted) None false
    Captured Captured selected revalidated documents_ok selected_ok revalidated_ok)).
Defined.

Lemma fresh_cursor_validates_witness :
  validate_review_cursor_for_write (sel_token selected) (view LAccepted) documents Captured =
    Ok (sel_cursor selected).
Proof.
  refine (@fresh_cursor_validates example_digest example_reader codec example_reader_laws codec_laws
    captured_facts documents documents (view LInProgress) (view LAccepted) None false
    Captured selected documents_ok selected_ok _ _ _ _ _).
  - rewrite selected_revision. apply (bool_decide_unpack _). vm_compute. exact I.
  - exact (reflexivity _).
  - unfold same_graph. split_and!; reflexivity.
  - reflexivity.
  - intros r _. reflexivity.
Defined.

Definition file (p : string) : ReviewSourcePathStateV1 :=
  {| ps_path := p; ps_content_hash := None; ps_mode := "none->100644"; ps_tracked := true |}.
Definition worktree (paths : list string) : WorktreeSourceStateV1 :=
  {| ws_capture_mode := "git_worktree"; ws_base := None; ws_path_scope := []; ws_paths := file <$> paths |}.

Lemma worktree_binding_exact_witness :
  (∃ b, binding_worktree (worktree ["b"; "a"]) = Ok b) ∧ NoDup (ps_path <$> ws_paths (worktree ["b"; "a"])).
Proof.
  assert (NoDup (ps_path <$> ws_paths (worktree ["b"; "a"]))) as Hnd.
  { apply (bool_decide_unpack _). vm_compute. exact I. }
  split; [|exact Hnd].
  exact (proj2 (proj1 (@worktree_binding_exact example_digest example_digest_laws
    (worktree ["b"; "a"]) (worktree ["a"; "b"]))) Hnd).
Defined.

(** A path listed twice does not bind. *)
Example duplicate_path_refused :
  binding_worktree (worktree ["a"; "a"]) = Err (Message "source state contains a duplicate path").
Proof. vm_compute. reflexivity. Qed.
End Sample.
