(* ===== verification/Ssh.v ===== *)
(** * SSH keys and the SSH agent ([src/src/keys/ssh], [src/src/keys/discovery.rs])

    The agent's wire protocol, the public-key parser, the signer that asks the agent, the
    allowed-signers parser and the discovery of keys a repository's git configuration
    names.  Lengths on the wire are [u32]: a longer value is framed with its length
    modulo 2^32.  The agent's stream, git's configuration and the files are operations of
    classes. *)

From S2P Require Import Prelude RustStr BTree Model CanonicalHash Crypto Events Capabilities.

(** ** Integers on the wire *)

Definition u32_modulus : Z := 4294967296.

(** [n as u32]. *)
Definition as_u32 (n : nat) : Z := Z.of_nat n mod u32_modulus.

Definition low_byte (n : Z) : ascii := ascii_of_N (Z.to_N (Z.land n 255)).

(** [u32::to_be_bytes] and [u32::from_be_bytes]. *)
Definition to_be_bytes (n : Z) : string :=
  String (low_byte (Z.shiftr n 24)) (String (low_byte (Z.shiftr n 16))
    (String (low_byte (Z.shiftr n 8)) (String (low_byte n) EmptyString))).

Fixpoint be_value (acc : Z) (s : string) : Z :=
  match s with
  | EmptyString => acc
  | String c s => be_value (Z.lor (Z.shiftl acc 8) (byte_val c)) s
  end.

Definition from_be_bytes (s : string) : Z := be_value 0 s.

(** ** The agent protocol ([protocol.rs]) *)

Definition SSH_AGENT_FAILURE : Z := 5.
Definition SSH_AGENTC_REQUEST_IDENTITIES : Z := 11.
Definition SSH_AGENT_IDENTITIES_ANSWER : Z := 12.
Definition SSH_AGENTC_SIGN_REQUEST : Z := 13.
Definition SSH_AGENT_SIGN_RESPONSE : Z := 14.
Definition SSH_ED25519_TYPE : string := "ssh-ed25519".
Definition ED25519_SIGNATURE_LEN : nat := 64.

Definition agent_protocol (message : string) : ShoreError :=
  Message ("ssh-agent protocol error: " +:+ message).

Definition agent_failure (message : string) : ShoreError :=
  Message ("ssh-agent failure: " +:+ message).

Definition put_ssh_string (out value : string) : string :=
  out +:+ to_be_bytes (as_u32 (String.length value)) +:+ value.

(** The value read and the rest of the cursor. *)
Definition read_ssh_string (cursor : string) : option (string * string) :=
  if String.length cursor <? 4 then None
  else
    let len := from_be_bytes (str_take 4 cursor) in
    let rest := str_drop 4 cursor in
    if (Z.of_nat (String.length rest) <? len)%Z then None
    else Some (str_take (Z.to_nat len) rest, str_drop (Z.to_nat len) rest).

Definition read_agent_string (cursor : string) : result (string * string) :=
  ok_or (read_ssh_string cursor) (agent_protocol "truncated SSH string").

Definition read_u32 (cursor : string) : result (Z * string) :=
  if String.length cursor <? 4 then Err (agent_protocol "truncated u32")
  else Ok (from_be_bytes (str_take 4 cursor), str_drop 4 cursor).

Definition frame_message (body : string) : string :=
  to_be_bytes (as_u32 (String.length body)) +:+ body.

Definition unframe_message (frame : string) : result string :=
  let? read := ok_or (read_ssh_string frame) (agent_protocol "truncated agent message frame") in
  if negb (is_empty read.2) then Err (agent_protocol "trailing bytes after agent message")
  else Ok read.1.

Definition ed25519_key_blob (public_key : string) : string :=
  put_ssh_string (put_ssh_string EmptyString SSH_ED25519_TYPE) public_key.

Definition one_byte (b : Z) : string := String (low_byte b) EmptyString.

Definition request_identities_bytes : string :=
  frame_message (one_byte SSH_AGENTC_REQUEST_IDENTITIES).

Definition sign_request_bytes (public_key data : string) : string :=
  let body := one_byte SSH_AGENTC_SIGN_REQUEST in
  let body := put_ssh_string body (ed25519_key_blob public_key) in
  let body := put_ssh_string body data in
  frame_message (body +:+ to_be_bytes 0).

(** [split_first] on a message body. *)
Definition message_type (body : string) : result (Z * string) :=
  match body with
  | EmptyString => Err (agent_protocol "empty agent message body")
  | String c cursor => Ok (byte_val c, cursor)
  end.

(** The loop over the announced keys. *)
Fixpoint read_keys (nkeys : nat) (cursor : string) : result (list string) :=
  match nkeys with
  | O => Ok []
  | S n =>
      let? blob := read_agent_string cursor in
      let? comment := read_agent_string blob.2 in
      let? blobs := read_keys n comment.2 in
      Ok (blob.1 :: blobs)
  end.

Definition parse_identities_answer (frame : string) : result (list string) :=
  let? body := unframe_message frame in
  let? message := message_type body in
  if (message.1 =? SSH_AGENT_FAILURE)%Z then
    Err (agent_failure "agent refused to list identities")
  else if negb (message.1 =? SSH_AGENT_IDENTITIES_ANSWER)%Z then
    Err (agent_protocol "unexpected reply to identities request")
  else
    let? nkeys := read_u32 message.2 in
    read_keys (Z.to_nat nkeys.1) nkeys.2.

Section protocol.
Context `{Primitives}.

Definition parse_sign_response (frame : string) : result EventSignatureBytes :=
  let? body := unframe_message frame in
  let? message := message_type body in
  if (message.1 =? SSH_AGENT_FAILURE)%Z then
    Err (agent_failure "agent refused to sign (locked or no matching key)")
  else if negb (message.1 =? SSH_AGENT_SIGN_RESPONSE)%Z then
    Err (agent_protocol "unexpected reply to sign request")
  else
    let? signature_blob := read_agent_string message.2 in
    let? inner_type := read_agent_string signature_blob.1 in
    if negb (String.eqb inner_type.1 SSH_ED25519_TYPE) then
      Err (agent_protocol "signature is not an ssh-ed25519 signature")
    else
      let? raw := read_agent_string inner_type.2 in
      if negb (String.length raw.1 =? ED25519_SIGNATURE_LEN) then
        Err (agent_protocol "ssh-ed25519 signature is not 64 bytes")
      else Ok (EventSignatureBytes_from_bytes raw.1).
End protocol.

(** ** Public keys ([pubkey.rs]) *)

(** [Display] of the error for a text that is not Base64. *)
Class Base64Errors := base64_error : string → string.

Definition GIT_LITERAL_PREFIX : string := "key::".

Definition invalid_key (message : string) : ShoreError := WorkflowInputInvalid message.

Definition reject_unsupported_type (type_tag : string) : result unit :=
  if String.eqb type_tag SSH_ED25519_TYPE then Ok tt
  else if String.eqb type_tag "sk-ssh-ed25519@openssh.com" then Err (invalid_key
    "sk-ssh-ed25519 (FIDO/-sk) keys sign a hash+flags+counter construction, not the raw message, so they can never verify under the strict Ed25519 path; use a plain ssh-ed25519 key or `pointbreak key init`")
  else if starts_with "ssh-rsa" type_tag || starts_with "rsa-" type_tag then Err (invalid_key
    (type_tag +:+ " is an RSA key, not Ed25519; adopt a plain ssh-ed25519 key or run `pointbreak key init`"))
  else if starts_with "ecdsa-" type_tag then Err (invalid_key
    (type_tag +:+ " is an ECDSA key, not Ed25519; adopt a plain ssh-ed25519 key or run `pointbreak key init`"))
  else Err (invalid_key ("unsupported SSH key type " +:+ str_debug type_tag +:+
    ": only plain ssh-ed25519 keys are supported (or run `pointbreak key init`)")).

Definition recover_ed25519_public_key (blob : string) : result string :=
  let? inner_type := ok_or (read_ssh_string blob) (invalid_key "SSH key blob is truncated") in
  if negb (String.eqb inner_type.1 SSH_ED25519_TYPE) then
    Err (invalid_key "SSH key blob's inner type does not match ssh-ed25519")
  else
    let? key := ok_or (read_ssh_string inner_type.2)
      (invalid_key "SSH key blob is missing its public-key field") in
    if negb (String.length key.1 =? ED25519_PUBLIC_KEY_LEN) then
      Err (invalid_key "ssh-ed25519 public key is not 32 bytes")
    else if negb (is_empty key.2) then
      Err (invalid_key "trailing bytes after the ssh-ed25519 public key blob")
    else Ok key.1.

Section pubkey.
Context `{Primitives} `{Base64Errors}.

Definition parse_ssh_ed25519_public_key (input : string) : result SignerId :=
  let line := trim input in
  let line := default line (strip_prefix GIT_LITERAL_PREFIX line) in
  let fields := split_whitespace line in
  let? type_tag := ok_or (head fields) (invalid_key "empty SSH public key input") in
  let? _ := reject_unsupported_type type_tag in
  let? blob_b64 := ok_or (head (tail fields))
    (invalid_key "SSH public key is missing its base64 key blob") in
  let? blob := ok_or (base64_decode blob_b64)
    (invalid_key ("SSH key blob is not valid base64: " +:+ base64_error blob_b64)) in
  let? public_key := recover_ed25519_public_key blob in
  Ok (from_ed25519_public_key public_key).
End pubkey.

(** ** Allowed signers ([allowed_signers.rs]) *)

Inductive EnrollmentDiscoveryDiagnosticCode :=
| GitRepositoryUnavailable
| GitSshSigningNotConfigured
| GitUserSigningKeyMissing
| GitSigningKeyPublicKeyMissing
| GitSigningKeyUnsupported
| GitAllowedSignersFileUnreadable
| GitAllowedSignersLineMalformed
| GitAllowedSignersLineUnsupported
| OpensshCertAuthorityUnsupported.

#[export] Instance EnrollmentDiscoveryDiagnosticCode_eq_dec :
  EqDecision EnrollmentDiscoveryDiagnosticCode.
Proof. solve_decision. Defined.

Record AllowedSignerCandidate := {
  ac_line : nat;
  ac_principal_hints : list string;
  ac_signer_id : SignerId;
  ac_key_argument : string
}.

Record AllowedSignersDiagnostic := {
  ad_line : nat;
  ad_code : EnrollmentDiscoveryDiagnosticCode;
  ad_message : string
}.

Record AllowedSignersParse := {
  asp_candidates : list AllowedSignerCandidate;
  asp_diagnostics : list AllowedSignersDiagnostic
}.

Definition push_candidate (parsed : AllowedSignersParse) (c : AllowedSignerCandidate)
    : AllowedSignersParse :=
  {| asp_candidates := asp_candidates parsed ++ [c]; asp_diagnostics := asp_diagnostics parsed |}.

Definition push_line_diagnostic (parsed : AllowedSignersParse) (d : AllowedSignersDiagnostic)
    : AllowedSignersParse :=
  {| asp_candidates := asp_candidates parsed; asp_diagnostics := asp_diagnostics parsed ++ [d] |}.

Definition line_diagnostic (line : nat) (code : EnrollmentDiscoveryDiagnosticCode)
    (message : string) : AllowedSignersDiagnostic :=
  {| ad_line := line; ad_code := code; ad_message := message |}.

Definition looks_like_key_type (field : string) : bool :=
  starts_with "ssh-" field || starts_with "rsa-" field || starts_with "ecdsa-" field ||
  starts_with "sk-ssh-" field.

Definition principal_hints (principals : string) : list string :=
  List.filter (λ p, negb (is_empty p)) (trim <$> split_char "," principals).

(** [Iterator::position]. *)
Fixpoint position {A} (p : A → bool) (l : list A) : option nat :=
  match l with
  | [] => None
  | x :: l => if p x then Some 0 else S <$> position p l
  end.

Section allowed_signers.
Context `{Primitives} `{Base64Errors}.

Definition parse_allowed_signers_line (line : string) (line_number : nat)
    (parsed : AllowedSignersParse) : AllowedSignersParse :=
  let fields := split_whitespace line in
  if length fields <? 3 then
    push_line_diagnostic parsed (line_diagnostic line_number GitAllowedSignersLineMalformed
      "OpenSSH allowed-signers line must include principals, key type, and key blob")
  else match position looks_like_key_type fields with
  | None =>
      push_line_diagnostic parsed (line_diagnostic line_number GitAllowedSignersLineMalformed
        "OpenSSH allowed-signers line does not include a supported key type token")
  | Some key_index =>
      if 1 <? key_index then
        let options := take (key_index - 1) (drop 1 fields) in
        let code := if existsb (String.eqb "cert-authority") options
          then OpensshCertAuthorityUnsupported else GitAllowedSignersLineUnsupported in
        push_line_diagnostic parsed (line_diagnostic line_number code
          "OpenSSH allowed-signers options require richer trust semantics and are not enrollment candidates")
      else
        let key_type := nth key_index fields EmptyString in
        if negb (String.eqb key_type "ssh-ed25519") then
          push_line_diagnostic parsed (line_diagnostic line_number GitAllowedSignersLineUnsupported
            "OpenSSH allowed-signers line uses a non-plain-Ed25519 key type")
        else match fields !! (key_index + 1) with
        | None =>
            push_line_diagnostic parsed (line_diagnostic line_number GitAllowedSignersLineMalformed
              "OpenSSH allowed-signers Ed25519 line is missing its key blob")
        | Some blob =>
            let key_argument := "key::" +:+ key_type +:+ " " +:+ blob in
            match parse_ssh_ed25519_public_key key_argument with
            | Ok signer_id =>
                push_candidate parsed {| ac_line := line_number;
                  ac_principal_hints := principal_hints (nth 0 fields EmptyString);
                  ac_signer_id := signer_id; ac_key_argument := key_argument |}
            | Err error =>
                push_line_diagnostic parsed (line_diagnostic line_number GitAllowedSignersLineMalformed
                  ("OpenSSH allowed-signers Ed25519 key is malformed: " +:+
                   ShoreError_display error))
            end
        end
  end.

(** One turn of the loop over the numbered lines. *)
Definition allowed_signers_turn (parsed : AllowedSignersParse) (numbered : nat * string)
    : AllowedSignersParse :=
  let line := trim numbered.2 in
  if is_empty line || starts_with "#" line then parsed
  else parse_allowed_signers_line line (numbered.1 + 1) parsed.

Definition enumerate {A} (l : list A) : list (nat * A) := zip (seq 0 (length l)) l.

Definition parse_allowed_signers (input : string) : AllowedSignersParse :=
  fold_left allowed_signers_turn (enumerate (str_lines input))
    {| asp_candidates := []; asp_diagnostics := [] |}.
End allowed_signers.

(** ** The agent-backed signer ([signer.rs]) *)

Definition MAX_AGENT_FRAME : Z := 1048576.

(** [Read] and [Write] of the agent's stream; an I/O error is its text. *)
Class AgentDuplex (D : Type) := {
  write_all : string → D → Result string unit * D;
  flush : D → Result string unit * D;
  read_exact : nat → D → Result string string * D
}.

Definition stream_error (error : string) : ShoreError :=
  Message ("ssh-agent stream error: " +:+ error).

(** A stream operation followed by the rest, its error mapped. *)
Definition on_stream {D A B} (m : D → Result string A * D) (k : A → D → result B * D)
    : D → result B * D :=
  λ d, match m d with
       | (Ok a, d) => k a d
       | (Err e, d) => (Err (stream_error e), d)
       end.

Section signer.
Context `{Primitives} {D : Type} `{AgentDuplex D}.

Definition send_frame (frame : string) : D → result unit * D :=
  on_stream (write_all frame) (λ _, on_stream flush (λ _ d, (Ok tt, d))).

Definition recv_frame : D → result string * D :=
  on_stream (read_exact 4) (λ len_buf,
    let len := from_be_bytes len_buf in
    if (MAX_AGENT_FRAME <? len)%Z then
      λ d, (Err (Message "ssh-agent reply exceeds the maximum message size"), d)
    else on_stream (read_exact (Z.to_nat len)) (λ body d, (Ok (len_buf +:+ body), d))).

(** What one call of the connector gives, a request on it and the reply. *)
Definition exchange (connect : result D) (request : string) : result string :=
  let? stream := connect in
  match send_frame request stream with
  | (Err e, _) => Err e
  | (Ok _, stream) => (recv_frame stream).1
  end.

Record SshAgentSigner := {
  ss_signer_id : SignerId;
  ss_public_key : string;
  ss_connect : result D
}.

Definition ssh_sign_event_message (self : SshAgentSigner) (message : string)
    : result EventSignatureBytes :=
  let? response := exchange (ss_connect self) (sign_request_bytes (ss_public_key self) message) in
  parse_sign_response response.

(** [impl EventSigner for SshAgentSigner]. *)
Definition agent_signer (self : SshAgentSigner) : EventSigner := {|
  signer_id := ss_signer_id self; sign_event_message := ssh_sign_event_message self |}.

Inductive AgentUnavailable := Socket | KeyAbsent.

Definition list_identities (connect : result D) : result (list string) :=
  let? answer := exchange connect request_identities_bytes in
  parse_identities_answer answer.

(** The signer it builds connects through [real_connector]. *)
Definition preflight_with (real_connector : result D) (public_key : string) (connect : result D)
    : Result AgentUnavailable SshAgentSigner :=
  match list_identities connect with
  | Err _ => Err Socket
  | Ok blobs =>
      if negb (existsb (String.eqb (ed25519_key_blob public_key)) blobs) then Err KeyAbsent
      else Ok {| ss_signer_id := from_ed25519_public_key public_key;
                 ss_public_key := public_key; ss_connect := real_connector |}
  end.

Definition preflight_ssh_agent_signer (real_connector : result D) (public_key : string)
    : Result AgentUnavailable SshAgentSigner :=
  preflight_with real_connector public_key real_connector.

Definition agent_has_key_with (public_key : string) (connect : result D) : option bool :=
  match list_identities connect with
  | Err _ => None
  | Ok blobs => Some (existsb (String.eqb (ed25519_key_blob public_key)) blobs)
  end.
End signer.
Arguments SshAgentSigner : clear implicits.

(** ** Discovery of enrollment candidates ([discovery.rs]) *)

(** Git's configuration and the files, as they are when discovery runs; an I/O error is
    its text. *)
Class Repository := {
  git_worktree_root : string → result string;
  git_config_get : string → string → option string;
  git_config_path_get : string → string → option string;
  read_to_string : string → Result string string
}.

Definition USER_SIGNING_KEY_CONFIG : string := "user.signingKey".
Definition GPG_FORMAT_CONFIG : string := "gpg.format".
Definition ALLOWED_SIGNERS_FILE_CONFIG : string := "gpg.ssh.allowedSignersFile".
Definition GIT_USER_SIGNING_KEY_CANDIDATE_ID : string := "git-user-signing-key".
Definition GIT_SIGNING_KEY_SUGGESTED_NAME : string := "git-signing-key".

Inductive EnrollmentCandidateSource :=
| GitUserSigningKey
| GitAllowedSignersFile (path : string) (line : nat).

Record EnrollmentCandidate := {
  ec_id : string;
  ec_source : EnrollmentCandidateSource;
  ec_signer_id : SignerId;
  ec_key_argument : option string;
  ec_suggested_name : option string;
  ec_actor_hints : list string
}.

Inductive EnrollmentDiscoveryDiagnosticSource :=
| GitRepositorySource (path : string)
| GitConfigSource (git_config_key : string)
| FileSource (path : string) (line : option nat).

Record EnrollmentDiscoveryDiagnostic := {
  edd_code : EnrollmentDiscoveryDiagnosticCode;
  edd_message : string;
  edd_source : option EnrollmentDiscoveryDiagnosticSource
}.

Record EnrollmentDiscovery := {
  ed_candidates : list EnrollmentCandidate;
  ed_diagnostics : list EnrollmentDiscoveryDiagnostic
}.

Definition discovery_diagnostic (code : EnrollmentDiscoveryDiagnosticCode) (message : string)
    (source : option EnrollmentDiscoveryDiagnosticSource) : EnrollmentDiscoveryDiagnostic :=
  {| edd_code := code; edd_message := message; edd_source := source |}.

Definition discovered (discovery : EnrollmentDiscovery) (c : EnrollmentCandidate)
    : EnrollmentDiscovery :=
  {| ed_candidates := ed_candidates discovery ++ [c];
     ed_diagnostics := ed_diagnostics discovery |}.

Definition diagnosed (discovery : EnrollmentDiscovery) (d : EnrollmentDiscoveryDiagnostic)
    : EnrollmentDiscovery :=
  {| ed_candidates := ed_candidates discovery;
     ed_diagnostics := ed_diagnostics discovery ++ [d] |}.

Definition git_user_signing_key_candidate (signer_id : SignerId) (key_argument : string)
    : EnrollmentCandidate :=
  {| ec_id := GIT_USER_SIGNING_KEY_CANDIDATE_ID; ec_source := GitUserSigningKey;
     ec_signer_id := signer_id; ec_key_argument := Some key_argument;
     ec_suggested_name := Some GIT_SIGNING_KEY_SUGGESTED_NAME; ec_actor_hints := [] |}.

Definition resolve_config_path (worktree_root raw : string) : string :=
  if path_is_absolute raw then raw else path_join worktree_root raw.

Definition is_pub_path (path : string) : bool :=
  match path_extension path with Some extension => String.eqb extension "pub" | None => false end.

Definition public_companion_path (path : string) : string := path +:+ ".pub".

Definition looks_like_unprefixed_ssh_key (value : string) : bool :=
  starts_with "ssh-" value || starts_with "ecdsa-" value || starts_with "sk-ssh-" value.

(** [eq_ignore_ascii_case]. *)
Definition to_ascii_lowercase (c : ascii) : ascii :=
  if (65 <=? byte_val c)%Z && (byte_val c <=? 90)%Z
  then ascii_of_N (Z.to_N (byte_val c + 32)) else c.

Fixpoint eq_ignore_ascii_case (s t : string) : bool :=
  match s, t with
  | EmptyString, EmptyString => true
  | String c s, String d t =>
      Ascii.eqb (to_ascii_lowercase c) (to_ascii_lowercase d) && eq_ignore_ascii_case s t
  | _, _ => false
  end.

Section discovery.
Context `{Primitives} `{Base64Errors} `{Repository}.

Definition discover_user_signing_key (worktree_root signing_key : string)
    (discovery : EnrollmentDiscovery) : EnrollmentDiscovery :=
  let trimmed := trim signing_key in
  if starts_with "key::" trimmed then
    match parse_ssh_ed25519_public_key trimmed with
    | Ok signer_id => discovered discovery (git_user_signing_key_candidate signer_id trimmed)
    | Err error => diagnosed discovery (discovery_diagnostic GitSigningKeyUnsupported
        ("Git user.signingKey is not a supported Ed25519 SSH key: " +:+ ShoreError_display error)
        (Some (GitConfigSource USER_SIGNING_KEY_CONFIG)))
    end
  else if looks_like_unprefixed_ssh_key trimmed then
    diagnosed discovery (discovery_diagnostic GitSigningKeyUnsupported
      "Git user.signingKey inline SSH keys must use the key::ssh-ed25519 literal form"
      (Some (GitConfigSource USER_SIGNING_KEY_CONFIG)))
  else
    let configured_path := resolve_config_path worktree_root trimmed in
    let public_path := if is_pub_path configured_path then configured_path
      else public_companion_path configured_path in
    match read_to_string public_path with
    | Err error => diagnosed discovery (discovery_diagnostic GitSigningKeyPublicKeyMissing
        ("Git user.signingKey public key " +:+ path_display public_path +:+
         " is not readable: " +:+ error) (Some (FileSource public_path None)))
    | Ok public_key =>
        match parse_ssh_ed25519_public_key public_key with
        | Ok signer_id => discovered discovery
            (git_user_signing_key_candidate signer_id (path_display public_path))
        | Err error => diagnosed discovery (discovery_diagnostic GitSigningKeyUnsupported
            ("Git user.signingKey public key " +:+ path_display public_path +:+
             " is not a supported Ed25519 SSH key: " +:+ ShoreError_display error)
            (Some (FileSource public_path None)))
        end
    end.

Definition allowed_candidate (path : string) (c : AllowedSignerCandidate) : EnrollmentCandidate :=
  {| ec_id := "git-allowed-signers-file:" +:+ dec (Z.of_nat (ac_line c));
     ec_source := GitAllowedSignersFile path (ac_line c);
     ec_signer_id := ac_signer_id c; ec_key_argument := Some (ac_key_argument c);
     ec_suggested_name := None; ec_actor_hints := ac_principal_hints c |}.

Definition discover_allowed_signers_file (worktree_root allowed_signers_file : string)
    (discovery : EnrollmentDiscovery) : EnrollmentDiscovery :=
  let path := resolve_config_path worktree_root (trim allowed_signers_file) in
  match read_to_string path with
  | Err error => diagnosed discovery (discovery_diagnostic GitAllowedSignersFileUnreadable
      ("Git allowed signers file " +:+ path_display path +:+ " is not readable: " +:+ error)
      (Some (FileSource path None)))
  | Ok contents =>
      let parsed := parse_allowed_signers contents in
      let discovery := fold_left (λ d c, discovered d (allowed_candidate path c))
        (asp_candidates parsed) discovery in
      fold_left (λ d diagnostic, diagnosed d (discovery_diagnostic (ad_code diagnostic)
        (ad_message diagnostic) (Some (FileSource path (Some (ad_line diagnostic))))))
        (asp_diagnostics parsed) discovery
  end.

Definition discover_enrollment_candidates (repo : string) : EnrollmentDiscovery :=
  match git_worktree_root repo with
  | Err error =>
      {| ed_candidates := [];
         ed_diagnostics := [discovery_diagnostic GitRepositoryUnavailable
           (path_display repo +:+ " is not a usable Git worktree: " +:+ ShoreError_display error)
           (Some (GitRepositorySource repo))] |}
  | Ok worktree_root =>
      let discovery := {| ed_candidates := []; ed_diagnostics := [] |} in
      let gpg_format := git_config_get worktree_root GPG_FORMAT_CONFIG in
      let user_signing_key := git_config_path_get worktree_root USER_SIGNING_KEY_CONFIG in
      let allowed_signers_file := git_config_path_get worktree_root ALLOWED_SIGNERS_FILE_CONFIG in
      let discovery :=
        if negb (match gpg_format with
                 | Some format => eq_ignore_ascii_case format "ssh" | None => false end) then
          diagnosed discovery (discovery_diagnostic GitSshSigningNotConfigured
            "Git SSH signing is not configured; set gpg.format to ssh"
            (Some (GitConfigSource GPG_FORMAT_CONFIG)))
        else match user_signing_key with
        | Some signing_key => discover_user_signing_key worktree_root signing_key discovery
        | None => diagnosed discovery (discovery_diagnostic GitUserSigningKeyMissing
            "Git SSH signing is enabled, but user.signingKey is not configured"
            (Some (GitConfigSource USER_SIGNING_KEY_CONFIG)))
        end in
      match allowed_signers_file with
      | Some file => discover_allowed_signers_file worktree_root file discovery
      | None => discovery
      end
  end.
End discovery.
