(* ===== verification/SshProofs.v ===== *)
(** * What the SSH agent protocol and the key parsers guarantee

    The wire strings, frames, key blobs, identity lists and signature replies the readers
    accept are exactly those of the writers, within the [u32] lengths of the wire; what a
    reply can make the client hold is bounded; a key printed for SSH reads back as its
    signer id; a signature obtained from the agent is the agent's over the message
    itself. *)

From S2P Require Import Prelude RustStr BTree Model CanonicalHash Crypto Events Capabilities Ssh.
From S2P Require Import Signing CosignatureProofs.
From Stdlib Require Import ZArith.

(** ** Integers on the wire *)

Lemma byte_val_range c : (0 ≤ byte_val c < 256)%Z.
Proof. unfold byte_val. pose proof (N_ascii_bounded c). lia. Qed.

Lemma byte_val_low_byte n : byte_val (low_byte n) = (n mod 256)%Z.
Proof.
  unfold byte_val, low_byte. change 255%Z with (Z.ones 8). rewrite Z.land_ones by lia.
  change (2 ^ 8)%Z with 256%Z. pose proof (Z.mod_pos_bound n 256 ltac:(lia)).
  rewrite N_ascii_embedding by lia. lia.
Qed.

Lemma low_byte_byte_val c n : (n mod 256 = byte_val c)%Z → low_byte n = c.
Proof.
  intros Hn. rewrite <- byte_val_low_byte in Hn. unfold byte_val in Hn.
  apply N2Z.inj in Hn. rewrite <- (ascii_N_embedding (low_byte n)), Hn.
  apply ascii_N_embedding.
Qed.

Lemma lor_shiftl_byte acc b : (0 ≤ b < 256)%Z →
  Z.lor (Z.shiftl acc 8) b = (acc * 256 + b)%Z.
Proof.
  intros Hb. assert (Z.land (Z.shiftl acc 8) b = 0%Z) as Hland.
  { apply Z.bits_inj'. intros i Hi. rewrite Z.land_spec, Z.bits_0.
    destruct (decide (i < 8)%Z) as [Hlt|Hge]; [by rewrite Z.shiftl_spec_low|].
    rewrite <- (Z.mod_small b (2 ^ 8)) by (change (2 ^ 8)%Z with 256%Z; lia).
    by rewrite Z.mod_pow2_bits_high, andb_false_r by lia. }
  pose proof (Z.add_lor_land (Z.shiftl acc 8) b) as Hsum.
  rewrite Hland, Z.add_0_r in Hsum. by rewrite Hsum, Z.shiftl_mul_pow2 by lia.
Qed.

Lemma from_be_bytes_to n : (0 ≤ n < u32_modulus)%Z → from_be_bytes (to_be_bytes n) = n.
Proof.
  intros Hn. unfold from_be_bytes, to_be_bytes. cbn [be_value].
  rewrite !lor_shiftl_byte by apply byte_val_range. rewrite !byte_val_low_byte.
  rewrite !Z.shiftr_div_pow2 by lia. unfold u32_modulus in Hn.
  change (2 ^ 24)%Z with 16777216%Z. change (2 ^ 16)%Z with 65536%Z. change (2 ^ 8)%Z with 256%Z.
  Z.to_euclidean_division_equations. lia.
Qed.

Lemma to_be_bytes_from s : String.length s = 4 →
  to_be_bytes (from_be_bytes s) = s ∧ (0 ≤ from_be_bytes s < u32_modulus)%Z.
Proof.
  destruct s as [|a [|b [|c [|d [|]]]]]; cbn [String.length]; try lia. intros _.
  unfold from_be_bytes, to_be_bytes, u32_modulus. cbn [be_value].
  rewrite !lor_shiftl_byte by apply byte_val_range.
  pose proof (byte_val_range a). pose proof (byte_val_range b).
  pose proof (byte_val_range c). pose proof (byte_val_range d).
  split; [|lia]. rewrite !Z.shiftr_div_pow2 by lia.
  change (2 ^ 24)%Z with 16777216%Z. change (2 ^ 16)%Z with 65536%Z. change (2 ^ 8)%Z with 256%Z.
  f_equal; [|f_equal; [|f_equal; [|f_equal]]]; apply low_byte_byte_val;
    Z.to_euclidean_division_equations; lia.
Qed.

Lemma length_to_be_bytes n : String.length (to_be_bytes n) = 4.
Proof. done. Qed.

(** ** Wire strings *)

Lemma as_u32_small n : (Z.of_nat n < u32_modulus)%Z → as_u32 n = Z.of_nat n.
Proof. intros. apply Z.mod_small. lia. Qed.

Lemma str_take_app n s t : String.length s = n → str_take n (s +:+ t) = s.
Proof. intros <-. induction s as [|c s IH]; cbn; [by destruct t|]. by rewrite IH. Qed.

Lemma str_drop_app n s t : String.length s = n → str_drop n (s +:+ t) = t.
Proof. intros <-. induction s as [|c s IH]; cbn; [by destruct t|]. done. Qed.

(** A value the wire can frame. *)
Definition wire_size (s : string) : Prop := (Z.of_nat (String.length s) < u32_modulus)%Z.

Definition wire_string (value : string) : string := put_ssh_string EmptyString value.

Lemma put_wire_string out value : put_ssh_string out value = out +:+ wire_string value.
Proof. done. Qed.

Lemma length_wire_string v : String.length (wire_string v) = 4 + String.length v.
Proof. unfold wire_string, put_ssh_string. rewrite !length_append. done. Qed.

Lemma read_wire_string v rest :
  wire_size v → read_ssh_string (wire_string v +:+ rest) = Some (v, rest).
Proof.
  intros Hv. unfold wire_string, put_ssh_string, read_ssh_string.
  cbn [String.append]. rewrite append_assoc, as_u32_small by done.
  rewrite str_take_app, str_drop_app, from_be_bytes_to by (done || unfold wire_size in Hv; lia).
  rewrite !length_append, length_to_be_bytes, Nat2Z.id, str_take_app, str_drop_app by done.
  destruct (Nat.ltb_spec (4 + (String.length v + String.length rest)) 4); [lia|].
  destruct (Z.ltb_spec (Z.of_nat (String.length v + String.length rest))
    (Z.of_nat (String.length v))); [lia|done].
Qed.

Lemma Some_pair_eq {A B} (a a' : A) (b b' : B) : Some (a, b) = Some (a', b') → a = a' ∧ b = b'.
Proof. by intros [= -> ->]. Qed.

(** The reader accepts exactly what the writer frames. *)
Lemma read_ssh_string_Some c v rest :
  read_ssh_string c = Some (v, rest) ↔ wire_size v ∧ c = wire_string v +:+ rest.
Proof.
  split; [|intros [Hv ->]; by apply read_wire_string]. unfold read_ssh_string.
  destruct (Nat.ltb_spec (String.length c) 4) as [|Hc]; [done|].
  destruct (to_be_bytes_from (str_take 4 c)) as [Hto Hrange].
  { apply length_str_take. lia. }
  destruct (Z.ltb_spec (Z.of_nat (String.length (str_drop 4 c)))
    (from_be_bytes (str_take 4 c))) as [|Hlen]; [done|]. intros [Hv Hrest]%Some_pair_eq.
  assert (String.length v = Z.to_nat (from_be_bytes (str_take 4 c))) as Hsize.
  { rewrite <- Hv. apply length_str_take. lia. }
  assert (wire_size v) as Hw by (unfold wire_size; lia). split; [done|].
  unfold wire_string, put_ssh_string. cbn [String.append].
  rewrite as_u32_small, Hsize, Z2Nat.id, Hto, append_assoc by (done || lia).
  by rewrite <- Hv, <- Hrest, !str_take_drop.
Qed.

Lemma read_agent_string_Ok c v rest :
  read_agent_string c = Ok (v, rest) ↔ wire_size v ∧ c = wire_string v +:+ rest.
Proof.
  rewrite <- read_ssh_string_Some. unfold read_agent_string.
  destruct (read_ssh_string c); cbn [ok_or]; split; congruence.
Qed.

Lemma is_empty_true s : is_empty s = true ↔ s = EmptyString.
Proof. by destruct s. Qed.

Lemma unframe_message_Ok f body :
  unframe_message f = Ok body ↔ wire_size body ∧ f = frame_message body.
Proof.
  unfold unframe_message. split.
  - intros ([v rest] & Hr & Hb)%bind_Ok. cbn [fst snd] in Hb.
    destruct (read_ssh_string f) as [r|] eqn:Hf; [|done]. apply Ok_eq in Hr as ->.
    destruct (is_empty rest) eqn:E; [|done]. apply is_empty_true in E as ->.
    apply Ok_eq in Hb as <-. apply read_ssh_string_Some in Hf as [Hw ->].
    split; [done|]. by rewrite append_nil_r.
  - intros [Hw ->]. pose proof (read_wire_string body EmptyString Hw) as Hr.
    rewrite append_nil_r in Hr. unfold wire_string, put_ssh_string in Hr.
    cbn [String.append] in Hr. unfold frame_message. by rewrite Hr.
Qed.

(** ** Key blobs *)

Lemma recover_ed25519_public_key_Ok blob key :
  recover_ed25519_public_key blob = Ok key ↔
  String.length key = ED25519_PUBLIC_KEY_LEN ∧ blob = ed25519_key_blob key.
Proof.
  unfold recover_ed25519_public_key, ed25519_key_blob. split.
  - intros ([ty rest] & Hty & Hk)%bind_Ok. cbn [fst snd] in Hk.
    destruct (read_ssh_string blob) as [r|] eqn:Hblob; [|done]. apply Ok_eq in Hty as ->.
    destruct (String.eqb_spec ty SSH_ED25519_TYPE) as [->|]; [|done]. cbn [negb] in Hk.
    apply bind_Ok in Hk as ([k rest'] & Hkey & Hk). cbn [fst snd] in Hk.
    destruct (read_ssh_string rest) as [r|] eqn:Hrest; [|done]. apply Ok_eq in Hkey as ->.
    destruct (Nat.eqb_spec (String.length k) ED25519_PUBLIC_KEY_LEN) as [Hlen|]; [|done].
    destruct (is_empty rest') eqn:E; [|done]. apply is_empty_true in E as ->.
    apply Ok_eq in Hk as <-. split; [done|].
    apply read_ssh_string_Some in Hblob as [_ ->]. apply read_ssh_string_Some in Hrest as [_ ->].
    by rewrite append_nil_r.
  - intros [Hlen ->]. assert (wire_size key) as Hw by (unfold wire_size; rewrite Hlen; done).
    rewrite put_wire_string. change (put_ssh_string EmptyString SSH_ED25519_TYPE) with
      (wire_string SSH_ED25519_TYPE). rewrite read_wire_string by done. cbn [ok_or rbind fst snd].
    rewrite String.eqb_refl. cbn [negb]. rewrite <- (append_nil_r (wire_string key)).
    rewrite read_wire_string by done. cbn [ok_or rbind fst snd].
    by rewrite Hlen, Nat.eqb_refl.
Qed.

(** ** Replies *)

(** The messages an agent answers with; [rest] is what the parsers leave unread. *)
Definition identity_entries (keys : list (string * string)) : string :=
  foldr (λ key acc, wire_string key.1 +:+ wire_string key.2 +:+ acc) EmptyString keys.

Definition identities_body (keys : list (string * string)) (rest : string) : string :=
  one_byte SSH_AGENT_IDENTITIES_ANSWER +:+ to_be_bytes (Z.of_nat (length keys)) +:+
  identity_entries keys +:+ rest.

Definition signature_body (raw inner_rest rest : string) : string :=
  one_byte SSH_AGENT_SIGN_RESPONSE +:+
  wire_string (wire_string SSH_ED25519_TYPE +:+ wire_string raw +:+ inner_rest) +:+ rest.

Lemma wire_size_app s t : wire_size (s +:+ t) → wire_size s ∧ wire_size t.
Proof. unfold wire_size. rewrite length_append. lia. Qed.

Lemma wire_size_string v : wire_size (wire_string v) → wire_size v.
Proof. unfold wire_size. rewrite length_wire_string. lia. Qed.

Lemma read_keys_Ok n c blobs : read_keys n c = Ok blobs ↔ ∃ keys rest,
  length keys = n ∧ blobs = keys.*1 ∧ Forall (λ k, wire_size k.1 ∧ wire_size k.2) keys ∧
  c = identity_entries keys +:+ rest.
Proof.
  revert c blobs; induction n as [|n IH]; intros c blobs; cbn [read_keys]; split.
  - intros [= <-]. exists [], c. by rewrite Forall_nil.
  - intros (keys & rest & Hn & -> & _). by destruct keys.
  - intros ([b c1] & Hb & ([co c2] & Hc & (bs & Hbs & Heq)%bind_Ok)%bind_Ok)%bind_Ok.
    cbn [fst snd] in *. apply Ok_eq in Heq as <-.
    apply read_agent_string_Ok in Hb as [Hb ->]. apply read_agent_string_Ok in Hc as [Hc ->].
    apply IH in Hbs as (keys & rest & <- & -> & Hk & ->). exists ((b, co) :: keys), rest.
    split_and!; [done|done|by constructor|]. cbn [identity_entries foldr fst snd].
    by rewrite !append_assoc.
  - intros (keys & rest & Hn & -> & Hk & ->). destruct keys as [|[b co] keys]; [done|].
    apply Forall_cons in Hk as [[Hb Hc] Hk]. cbn [fst snd] in *. cbn [identity_entries foldr fst snd].
    fold (identity_entries keys). rewrite !append_assoc.
    rewrite (proj2 (read_agent_string_Ok _ _ _) (conj Hb eq_refl)). cbn [rbind fst snd].
    rewrite (proj2 (read_agent_string_Ok _ _ _) (conj Hc eq_refl)). cbn [rbind fst snd].
    rewrite (proj2 (IH _ (keys.*1))); [done|]. exists keys, rest. by injection Hn as ->.
Qed.

Lemma identity_entries_length keys :
  String.length (identity_entries keys) =
  sum_list_with (λ k, 8 + String.length k.1 + String.length k.2) keys.
Proof.
  induction keys as [|k keys IH]; [done|]. cbn [identity_entries foldr].
  fold (identity_entries keys). rewrite !length_append, !length_wire_string, IH. cbn. lia.
Qed.

Lemma sum_list_with_ge {A} (f : A → nat) b (l : list A) :
  (∀ x, b ≤ f x) → b * length l ≤ sum_list_with f l.
Proof. intros H. induction l as [|x l IH]; cbn; [lia|]. specialize (H x). lia. Qed.

Lemma identity_entries_sized keys rest : wire_size (identity_entries keys +:+ rest) →
  Forall (λ k, wire_size k.1 ∧ wire_size k.2) keys.
Proof.
  induction keys as [|k keys IH]; [by constructor|]. cbn [identity_entries foldr].
  fold (identity_entries keys). rewrite !append_assoc. intros [Hb Hk]%wire_size_app.
  apply wire_size_app in Hk as [Hc Hk]. constructor; [|by apply IH].
  auto using wire_size_string.
Qed.

Lemma read_u32_Ok c n rest : read_u32 c = Ok (n, rest) ↔
  (0 ≤ n < u32_modulus)%Z ∧ c = to_be_bytes n +:+ rest.
Proof.
  unfold read_u32. destruct (Nat.ltb_spec (String.length c) 4) as [Hc|Hc]; split; [done| | |].
  - intros [_ ->]. by rewrite length_append, length_to_be_bytes in Hc; lia.
  - destruct (to_be_bytes_from (str_take 4 c)) as [Hto Hr]; [apply length_str_take; lia|].
    intros Heq. apply Ok_eq, (f_equal Some) in Heq.
    apply Some_pair_eq in Heq as [<- <-]. by rewrite Hto, str_take_drop.
  - intros [Hn ->]. by rewrite str_take_app, str_drop_app, from_be_bytes_to by done.
Qed.

Lemma message_type_byte b cursor : (0 ≤ b < 256)%Z →
  message_type (one_byte b +:+ cursor) = Ok (b, cursor).
Proof.
  intros Hb. unfold one_byte. cbn [String.append message_type].
  by rewrite byte_val_low_byte, Z.mod_small.
Qed.

Lemma message_type_Ok body b cursor :
  message_type body = Ok (b, cursor) → body = one_byte b +:+ cursor.
Proof.
  destruct body as [|c body]; [done|]. cbn [message_type]. intros Heq.
  apply Ok_eq, (f_equal Some) in Heq. apply Some_pair_eq in Heq as [<- <-].
  unfold one_byte. cbn [String.append]. f_equal. symmetry. apply low_byte_byte_val.
  apply Z.mod_small, byte_val_range.
Qed.

Lemma parse_identities_answer_Ok f blobs : parse_identities_answer f = Ok blobs ↔
  ∃ keys rest, blobs = keys.*1 ∧ wire_size (identities_body keys rest) ∧
    f = frame_message (identities_body keys rest).
Proof.
  unfold parse_identities_answer. split.
  - intros (body & [Hw ->]%unframe_message_Ok & ([b cur] & Hm & Hrest)%bind_Ok)%bind_Ok.
    cbn [fst snd] in Hrest. apply message_type_Ok in Hm as ->.
    destruct (Z.eqb_spec b SSH_AGENT_FAILURE); [done|].
    destruct (Z.eqb_spec b SSH_AGENT_IDENTITIES_ANSWER) as [->|]; [|done]. cbn [negb] in Hrest.
    apply bind_Ok in Hrest as ([nkeys c] & [Hn ->]%read_u32_Ok & Hk). cbn [fst snd] in Hk.
    apply read_keys_Ok in Hk as (keys & rest & Hlen & -> & _ & ->). exists keys, rest.
    unfold identities_body. rewrite Hlen, Z2Nat.id by lia. done.
  - intros (keys & rest & -> & Hw & ->).
    rewrite (proj2 (unframe_message_Ok _ _) (conj Hw eq_refl)). cbn [rbind].
    unfold identities_body in *. rewrite message_type_byte by done. cbn [rbind fst snd].
    apply wire_size_app in Hw as [_ Hw]. apply wire_size_app in Hw as [_ Hw].
    assert ((0 ≤ Z.of_nat (length keys) < u32_modulus)%Z) as Hn.
    { apply wire_size_app in Hw as [Hw _]. unfold wire_size in Hw.
      rewrite identity_entries_length in Hw.
      pose proof (sum_list_with_ge (λ k : string * string,
        8 + String.length k.1 + String.length k.2) 8 keys ltac:(intros; cbn beta; lia)) as Hs. lia. }
    cbn [Z.eqb negb SSH_AGENT_IDENTITIES_ANSWER SSH_AGENT_FAILURE Pos.eqb].
    rewrite (proj2 (read_u32_Ok _ _ _) (conj Hn eq_refl)). cbn [rbind fst snd].
    apply read_keys_Ok. exists keys, rest. rewrite Nat2Z.id.
    eauto using identity_entries_sized.
Qed.

Section replies.
Context `{Primitives}.

Lemma parse_sign_response_Ok f sig : parse_sign_response f = Ok sig ↔
  ∃ raw inner_rest rest, String.length raw = ED25519_SIGNATURE_LEN ∧
    sig = EventSignatureBytes_from_bytes raw ∧ wire_size (signature_body raw inner_rest rest) ∧
    f = frame_message (signature_body raw inner_rest rest).
Proof.
  unfold parse_sign_response. split.
  - intros (body & [Hw ->]%unframe_message_Ok & ([b cur] & Hm & Hr)%bind_Ok)%bind_Ok.
    cbn [fst snd] in Hr. apply message_type_Ok in Hm as ->.
    destruct (Z.eqb_spec b SSH_AGENT_FAILURE); [done|].
    destruct (Z.eqb_spec b SSH_AGENT_SIGN_RESPONSE) as [->|]; [|done]. cbn [negb] in Hr.
    apply bind_Ok in Hr as ([blob rest] & [_ ->]%read_agent_string_Ok & Hr).
    apply bind_Ok in Hr as ([ty inner] & [_ Hty]%read_agent_string_Ok & Hr).
    cbn [fst snd] in *. destruct (String.eqb_spec ty SSH_ED25519_TYPE) as [->|]; [|done].
    apply bind_Ok in Hr as ([raw inner_rest] & [_ ->]%read_agent_string_Ok & Hr).
    cbn [fst snd] in *. destruct (Nat.eqb_spec (String.length raw) ED25519_SIGNATURE_LEN); [|done].
    apply Ok_eq in Hr as <-. exists raw, inner_rest, rest. by rewrite Hty in *.
  - intros (raw & inner_rest & rest & Hlen & -> & Hw & ->).
    rewrite (proj2 (unframe_message_Ok _ _) (conj Hw eq_refl)). cbn [rbind].
    unfold signature_body in *. rewrite message_type_byte by done. cbn [rbind fst snd].
    apply wire_size_app in Hw as [_ Hw]. apply wire_size_app in Hw as [Hw%wire_size_string _].
    cbn [Z.eqb negb SSH_AGENT_SIGN_RESPONSE SSH_AGENT_FAILURE Pos.eqb].
    rewrite (proj2 (read_agent_string_Ok _ _ _) (conj Hw eq_refl)). cbn [rbind fst snd].
    apply wire_size_app in Hw as [Ht%wire_size_string Hw].
    apply wire_size_app in Hw as [Hw%wire_size_string _].
    rewrite (proj2 (read_agent_string_Ok _ _ _) (conj Ht eq_refl)). cbn [rbind fst snd].
    rewrite String.eqb_refl. cbn [negb].
    rewrite (proj2 (read_agent_string_Ok _ _ _) (conj Hw eq_refl)). cbn [rbind fst snd].
    by rewrite Hlen, Nat.eqb_refl.
Qed.
End replies.

(** ** Streams *)

(** [read_exact] fills its buffer or fails. *)
Class AgentDuplexLaws (D : Type) `{AgentDuplex D} : Prop :=
  read_exact_length n (d d' : D) b : read_exact n d = (Ok b, d') → String.length b = n.

Section streams.
Context `{Primitives} {D : Type} `{AgentDuplex D} `{!AgentDuplexLaws D}.

(** The stream takes a request whole and then delivers a frame in the client's two reads. *)
Definition answers (d : D) (request frame : string) : Prop :=
  ∃ d1 d2 d3 d4, write_all request d = (Ok tt, d1) ∧ flush d1 = (Ok tt, d2) ∧
    read_exact 4 d2 = (Ok (str_take 4 frame), d3) ∧
    read_exact (Z.to_nat (from_be_bytes (str_take 4 frame))) d3 = (Ok (str_drop 4 frame), d4).

Definition declared (frame : string) : Z := from_be_bytes (str_take 4 frame).

Lemma answers_length d request frame : answers d request frame →
  4 ≤ String.length frame ∧ Z.of_nat (String.length frame) = (4 + declared frame)%Z.
Proof.
  intros (d1 & d2 & d3 & d4 & _ & _ & H4%read_exact_length & Hb%read_exact_length).
  rewrite <- (str_take_drop 4 frame), length_append, H4, Hb at 1 2.
  destruct (to_be_bytes_from _ H4) as [_ Hr]. unfold declared. split; lia.
Qed.

(** An exchange succeeds exactly when the agent delivers a frame of a permitted size. *)
Lemma exchange_Ok connect request frame : exchange connect request = Ok frame ↔
  ∃ d, connect = Ok d ∧ answers d request frame ∧ (declared frame ≤ MAX_AGENT_FRAME)%Z.
Proof.
  unfold exchange, send_frame, recv_frame, on_stream. split.
  - intros (d & -> & Hx)%bind_Ok. exists d. split; [done|].
    destruct (write_all request d) as [[[]|] d1] eqn:Hw; [|done].
    destruct (flush d1) as [[[]|] d2] eqn:Hf; [|done].
    destruct (read_exact 4 d2) as [[buf|] d3] eqn:H4; [|done].
    pose proof (read_exact_length _ _ _ _ H4) as Hlen.
    destruct (Z.ltb_spec MAX_AGENT_FRAME (from_be_bytes buf)); [done|].
    destruct (read_exact (Z.to_nat (from_be_bytes buf)) d3) as [[b|] d4] eqn:Hb; [|done].
    cbn [fst] in Hx. apply Ok_eq in Hx as <-. unfold answers, declared.
    rewrite str_take_app, str_drop_app by done. split; [|done].
    by exists d1, d2, d3, d4.
  - intros (d & -> & (d1 & d2 & d3 & d4 & Hw & Hf & H4 & Hb) & Hmax). cbn [rbind].
    rewrite Hw, Hf, H4. unfold declared in Hmax.
    destruct (Z.ltb_spec MAX_AGENT_FRAME (from_be_bytes (str_take 4 frame))); [lia|].
    rewrite Hb. cbn [fst]. by rewrite str_take_drop.
Qed.

Lemma wire_string_reads v rest :
  read_ssh_string (wire_string v +:+ rest) =
    let n := Z.to_nat (as_u32 (String.length v)) in
    Some (str_take n (v +:+ rest), str_drop n (v +:+ rest)).
Proof.
  assert (0 ≤ as_u32 (String.length v) < u32_modulus)%Z as Hr by (apply Z.mod_pos_bound; done).
  assert (as_u32 (String.length v) ≤ Z.of_nat (String.length v))%Z as Hle
    by (apply Z.mod_le; [lia|done]).
  unfold wire_string, put_ssh_string, read_ssh_string.
  cbn [String.append]. rewrite append_assoc, str_take_app, str_drop_app, from_be_bytes_to by done.
  rewrite !length_append, length_to_be_bytes.
  destruct (Nat.ltb_spec (4 + (String.length v + String.length rest)) 4); [lia|].
  destruct (Z.ltb_spec (Z.of_nat (String.length v + String.length rest))
    (as_u32 (String.length v))); [lia|done].
Qed.

(** C40. The sizes of what comes from the agent are bounded by the protocol's constants,
    whatever length or count it announces.  A frame accepted from the stream is its
    four-byte prefix and exactly the announced number of bytes, at most 2^20; the key
    blobs listed from it take, with eight bytes of framing each, less than that.  A wire
    string reads back as it was written exactly when its length fits in 32 bits; a longer
    one loses everything past its length modulo 2^32. *)
Theorem agent_reply_bounded :
  (∀ (connect : result D) request frame, exchange connect request = Ok frame →
    Z.of_nat (String.length frame) = (4 + declared frame)%Z ∧
    (declared frame ≤ MAX_AGENT_FRAME)%Z) ∧
  (∀ (connect : result D) blobs, list_identities connect = Ok blobs →
    (Z.of_nat (sum_list_with (λ b, 8 + String.length b)%nat blobs) + 5 ≤ MAX_AGENT_FRAME)%Z) ∧
  (∀ v rest, read_ssh_string (put_ssh_string EmptyString v +:+ rest) = Some (v, rest) ↔
    (Z.of_nat (String.length v) < u32_modulus)%Z) ∧
  (∀ v rest, ∃ read unread, read_ssh_string (put_ssh_string EmptyString v +:+ rest) =
      Some (read, unread) ∧ read +:+ unread = v +:+ rest ∧
    Z.of_nat (String.length read) = (Z.of_nat (String.length v) mod u32_modulus)%Z).
Proof.
  split_and!.
  - intros connect request frame (d & _ & Ha & Hm)%exchange_Ok.
    by apply answers_length in Ha as [_ Ha].
  - intros connect blobs (frame & (d & _ & Ha & Hm)%exchange_Ok & Hp)%bind_Ok.
    apply parse_identities_answer_Ok in Hp as (keys & rest & -> & Hw & ->).
    apply answers_length in Ha as [_ Ha].
    set (n := declared _) in *. unfold frame_message, identities_body in Ha.
    rewrite !length_append, identity_entries_length, !length_to_be_bytes in Ha.
    assert (sum_list_with (λ b, 8 + String.length b) keys.*1 ≤
      sum_list_with (λ k, 8 + String.length k.1 + String.length k.2) keys) as Hs.
    { clear. induction keys as [|k keys IH]; [done|]. rewrite fmap_cons.
      cbn [sum_list_with]. lia. }
    change (String.length (one_byte SSH_AGENT_IDENTITIES_ANSWER)) with 1 in Ha. lia.
  - intros v rest. split; [|by apply read_wire_string].
    intros [Hw _]%read_ssh_string_Some. done.
  - intros v rest. fold (wire_string v). rewrite wire_string_reads.
    eexists _, _. split; [done|]. split; [apply str_take_drop|].
    assert (0 ≤ as_u32 (String.length v) < u32_modulus)%Z by (apply Z.mod_pos_bound; done).
    assert (as_u32 (String.length v) ≤ Z.of_nat (String.length v))%Z
      by (apply Z.mod_le; [lia|done]).
    rewrite length_str_take by (rewrite length_append; lia). rewrite Z2Nat.id by lia. done.
Qed.

Lemma declared_frame body : wire_size body →
  declared (frame_message body) = Z.of_nat (String.length body).
Proof.
  unfold wire_size. intros Hw. unfold declared, frame_message.
  by rewrite str_take_app, as_u32_small, from_be_bytes_to by (done || lia).
Qed.

(** A reply of a permitted size, framed. *)
Definition replies (connect : result D) (request body : string) : Prop :=
  ∃ d, connect = Ok d ∧ answers d request (frame_message body) ∧
    (Z.of_nat (String.length body) ≤ MAX_AGENT_FRAME)%Z.

Lemma replies_exchange connect request body : replies connect request body ↔
  wire_size body ∧ exchange connect request = Ok (frame_message body).
Proof.
  rewrite exchange_Ok. unfold replies. split.
  - intros (d & -> & Ha & Hm).
    assert (wire_size body) as Hw by (unfold wire_size, u32_modulus, MAX_AGENT_FRAME in *; lia).
    split; [done|]. exists d. by rewrite declared_frame.
  - intros (Hw & d & -> & Ha & Hm). exists d. by rewrite declared_frame in Hm.
Qed.

Lemma list_identities_Ok (connect : result D) blobs : list_identities connect = Ok blobs ↔
  ∃ keys rest, blobs = keys.*1 ∧
    replies connect request_identities_bytes (identities_body keys rest).
Proof.
  unfold list_identities. split.
  - intros (f & Hx & (keys & rest & -> & Hw & ->)%parse_identities_answer_Ok)%bind_Ok.
    exists keys, rest. by rewrite replies_exchange.
  - intros (keys & rest & -> & [Hw Hx]%replies_exchange). rewrite Hx. cbn [rbind].
    apply parse_identities_answer_Ok. by exists keys, rest.
Qed.

Lemma ssh_sign_Ok (self : SshAgentSigner D) m sig : ssh_sign_event_message self m = Ok sig ↔
  ∃ raw inner_rest rest, String.length raw = ED25519_SIGNATURE_LEN ∧
    sig = EventSignatureBytes_from_bytes raw ∧
    replies (ss_connect self) (sign_request_bytes (ss_public_key self) m)
      (signature_body raw inner_rest rest).
Proof.
  unfold ssh_sign_event_message. split.
  - intros (f & Hx & (raw & ir & rest & Hlen & -> & Hw & ->)%parse_sign_response_Ok)%bind_Ok.
    exists raw, ir, rest. by rewrite replies_exchange.
  - intros (raw & ir & rest & Hlen & -> & [Hw Hx]%replies_exchange). rewrite Hx. cbn [rbind].
    apply parse_sign_response_Ok. by exists raw, ir, rest.
Qed.

Lemma existsb_eqb_elem x l : existsb (String.eqb x) l = true ↔ x ∈ l.
Proof.
  rewrite existsb_exists. setoid_rewrite String.eqb_eq. setoid_rewrite <- list_elem_of_In.
  naive_solver.
Qed.

Lemma length_key_blob key : String.length key = ED25519_PUBLIC_KEY_LEN →
  String.length (ed25519_key_blob key) = 51.
Proof.
  intros Hk. unfold ed25519_key_blob. rewrite put_wire_string, length_append.
  fold (wire_string SSH_ED25519_TYPE). rewrite !length_wire_string, Hk. done.
Qed.

(** Signing through the SSH agent.  The pre-flight succeeds exactly when the agent
    lists the blob of the key, and gives the signer of that key.  A signature is returned
    exactly when the agent answers the request for that key and message with a frame of a
    permitted size holding a 64-byte Ed25519 signature, and it is that signature.  The
    request of a message shorter than 2^32 - 64 bytes carries the key's blob, the message
    as it is, and no flags. *)
Theorem agent_signer_exact :
  (∀ (real connect : result D) key self, preflight_with real key connect = Ok self ↔
    self = {| ss_signer_id := from_ed25519_public_key key; ss_public_key := key;
              ss_connect := real |} ∧
    ∃ keys rest, ed25519_key_blob key ∈ keys.*1 ∧
      replies connect request_identities_bytes (identities_body keys rest)) ∧
  (∀ (self : SshAgentSigner D) m sig, @sign_event_message (agent_signer self) m = Ok sig ↔
    ∃ raw inner_rest rest, String.length raw = ED25519_SIGNATURE_LEN ∧
      sig = EventSignatureBytes_from_bytes raw ∧
      replies (ss_connect self) (sign_request_bytes (ss_public_key self) m)
        (signature_body raw inner_rest rest)) ∧
  (∀ key m, String.length key = ED25519_PUBLIC_KEY_LEN →
    (Z.of_nat (String.length m) + 64 < u32_modulus)%Z →
    ∃ body, unframe_message (sign_request_bytes key m) = Ok body ∧
    ∃ after_type, message_type body = Ok (SSH_AGENTC_SIGN_REQUEST, after_type) ∧
    ∃ after_key, read_ssh_string after_type = Some (ed25519_key_blob key, after_key) ∧
      read_ssh_string after_key = Some (m, to_be_bytes 0)).
Proof.
  split_and!.
  - intros real connect key self. unfold preflight_with.
    destruct (list_identities connect) as [blobs|e] eqn:Hl.
    + destruct (existsb (String.eqb (ed25519_key_blob key)) blobs) eqn:Hin; cbn [negb].
      * apply existsb_eqb_elem in Hin. apply list_identities_Ok in Hl as (keys & rest & -> & Hr).
        split; [|by intros [-> _]]. intros Hs. split; [congruence|]. by exists keys, rest.
      * split; [done|]. intros (_ & keys & rest & Hk & Hr).
        assert (list_identities connect = Ok keys.*1) as Hl'
          by (apply list_identities_Ok; by exists keys, rest).
        rewrite Hl in Hl'. apply Ok_eq in Hl' as ->. apply existsb_eqb_elem in Hk. congruence.
    + split; [done|]. intros (_ & keys & rest & Hk & Hr).
      assert (list_identities connect = Ok keys.*1) as Hl'
        by (apply list_identities_Ok; by exists keys, rest).
      by rewrite Hl in Hl'.
  - intros self m sig. apply ssh_sign_Ok.
  - intros key m Hkey Hm. eexists. split; [|eexists; split; [|eexists; split]].
    + apply unframe_message_Ok. split; [|reflexivity]. unfold wire_size.
      rewrite !put_wire_string, !length_append, !length_wire_string, length_key_blob by done.
      rewrite length_to_be_bytes. change (String.length (one_byte _)) with 1. lia.
    + rewrite !put_wire_string, !append_assoc. by apply message_type_byte.
    + apply read_wire_string. unfold wire_size. by rewrite length_key_blob.
    + apply read_wire_string. unfold wire_size. lia.
Qed.

(** An agent that signs with the key makes the agent-backed signer one whose signatures
    verify. *)
Lemma agent_signer_laws `{!PrimitivesLaws} (self : SshAgentSigner D) :
  String.length (ss_public_key self) = ED25519_PUBLIC_KEY_LEN →
  ss_signer_id self = from_ed25519_public_key (ss_public_key self) →
  verifying_key_ok (ss_public_key self) = true →
  (∀ m raw inner_rest rest, replies (ss_connect self)
      (sign_request_bytes (ss_public_key self) m) (signature_body raw inner_rest rest) →
    String.length raw = ED25519_SIGNATURE_LEN →
    signature_ok raw = true ∧ verify_strict (ss_public_key self) m raw = true) →
  SignerLaws (agent_signer self).
Proof.
  intros Hlen Hid Hk Hagent m sig. cbn [sign_event_message agent_signer signer_id].
  intros (raw & ir & rest & Hraw & -> & Hr)%ssh_sign_Ok.
  destruct (Hagent _ _ _ _ Hr Hraw) as [Hok Hv]. unfold verify_ed25519_strict, ed25519_public_key.
  rewrite Hid, decode_from_public_key by done. rewrite Hk. cbn [negb].
  unfold EventSignatureBytes_from_bytes. rewrite base64_roundtrip. cbn [negb].
  by rewrite Hok, Hv.
Qed.
End streams.

(** ** Public keys in text *)

Lemma trim_start_graph c s : is_graph c = true → trim_start (String c s) = String c s.
Proof.
  intros Hc. unfold trim_start. cbn [String.length trim_with]. by rewrite ws_len_graph.
Qed.

Lemma ws_len_last_graph c s : is_graph c = true → ws_len (s +:+ String c EmptyString) ≠
  S (String.length s) ∨ 3 ≤ String.length s.
Proof.
  unfold is_graph, in_range. intros [H1%Z.leb_le H2%Z.leb_le]%andb_true_iff.
  destruct s as [|a [|b [|d s]]]; cbn [String.append String.length]; [| | |right; lia]; left;
    unfold ws_len; repeat case_match; try done;
    repeat match goal with H : _ = true |- _ => revert H end; rewrite ?orb_true_iff, ?andb_true_iff;
    lia.
Qed.

Lemma ws_len_rev_graph c s : is_graph c = true → ws_len_rev (String c s) = 0.
Proof.
  intros Hc. unfold ws_len_rev. cbv zeta.
  assert (∀ n, n < 3 → (ws_len (str_rev (str_take (S n) (String c s))) =? S n) &&
    (S n <=? String.length (String c s)) = false) as Htry.
  { intros n Hn. destruct (Nat.leb_spec (S n) (String.length (String c s))) as [Hle|];
      [|by rewrite andb_false_r]. rewrite andb_true_r. apply Nat.eqb_neq.
    cbn [str_take]. rewrite str_rev_cons. cbn [String.length] in Hle.
    assert (String.length (str_rev (str_take n s)) = n) as Hlen.
    { clear -Hle. assert (∀ t, String.length (str_rev t) = String.length t) as ->.
      { intros t. induction t as [|d t IH]; [done|]. rewrite str_rev_cons, length_append, IH.
        cbn. lia. }
      apply length_str_take. lia. }
    destruct (ws_len_last_graph c (str_rev (str_take n s)) Hc); lia. }
  pose proof (Htry 0 ltac:(lia)) as T1. pose proof (Htry 1 ltac:(lia)) as T2.
  pose proof (Htry 2 ltac:(lia)) as T3. cbn [String.length is_empty negb] in *.
  rewrite andb_true_r in *. rewrite T1, T2, T3. done.
Qed.

Lemma trim_end_graph c s : is_graph c = true →
  trim_end (s +:+ String c EmptyString) = s +:+ String c EmptyString.
Proof.
  intros Hc. unfold trim_end. rewrite str_rev_append. cbn [str_rev str_rev_onto String.append].
  rewrite length_append, Nat.add_comm. cbn [String.length Nat.add trim_with].
  rewrite ws_len_rev_graph by done. fold (str_rev s). rewrite str_rev_cons.
  by rewrite str_rev_involutive.
Qed.

Lemma string_last s : s ≠ EmptyString → ∃ t c, s = t +:+ String c EmptyString.
Proof.
  induction s as [|c s IH]; [done|]. intros _. destruct s as [|d s].
  - by exists EmptyString, c.
  - destruct IH as (t & e & ->); [done|]. by exists (String c t), e.
Qed.

(** Text that starts and ends with visible characters is not trimmed. *)
Lemma trim_graph_word a w : is_graph a = true → all_bytes is_graph w = true → w ≠ EmptyString →
  ∀ s, trim (String a s +:+ w) = String a s +:+ w.
Proof.
  intros Ha Hw Hne s. destruct (string_last w Hne) as (t & c & ->).
  rewrite all_bytes_append in Hw. apply andb_true_iff in Hw as [_ Hc].
  cbn [all_bytes] in Hc. rewrite andb_true_r in Hc. unfold trim.
  cbn [String.append]. rewrite trim_start_graph by done.
  change (String a (s +:+ t +:+ String c EmptyString)) with
    (String a s +:+ (t +:+ String c EmptyString)). rewrite <- append_assoc.
  by apply trim_end_graph.
Qed.

(** Base64 text is made of visible characters. *)
Class Base64Text `{Primitives} : Prop := {
  base64_graph s : all_bytes is_graph (base64_encode s) = true;
  base64_nonempty s : s ≠ EmptyString → base64_encode s ≠ EmptyString
}.

Lemma trim_newline a s : is_graph a = true →
  trim (String a s +:+ String newline EmptyString) = trim (String a s).
Proof.
  intros Ha. unfold trim. cbn [String.append]. rewrite !trim_start_graph by done.
  change (String a (s +:+ String newline EmptyString)) with
    (String a s +:+ String newline EmptyString).
  unfold trim_end. rewrite str_rev_append, length_append.
  change (str_rev (String newline EmptyString)) with (String newline EmptyString).
  rewrite Nat.add_comm. cbn [String.length Nat.add trim_with String.append].
  change (ws_len_rev (String newline (str_rev (String a s)))) with 1. cbn [str_drop]. done.
Qed.

Section key_text.
Context `{PrimitivesLaws} `{!Base64Text} `{Base64Errors}.

(** A public key as files and configuration hold it. *)
Definition key_text (literal : bool) (key : string) (comment : option string) (nl : bool)
    : string :=
  (if literal then GIT_LITERAL_PREFIX else EmptyString) +:+ SSH_ED25519_TYPE +:+ " " +:+
  base64_encode (ed25519_key_blob key) +:+
  match comment with Some c => " " +:+ c | None => EmptyString end +:+
  (if nl then String newline EmptyString else EmptyString).

Definition key_fields (input : string) : list string :=
  split_whitespace (default (trim input) (strip_prefix GIT_LITERAL_PREFIX (trim input))).

Lemma parse_key_Ok input signer : parse_ssh_ed25519_public_key input = Ok signer ↔
  ∃ key b64 rest, key_fields input = SSH_ED25519_TYPE :: b64 :: rest ∧
    base64_decode b64 = Some (ed25519_key_blob key) ∧
    String.length key = ED25519_PUBLIC_KEY_LEN ∧ signer = from_ed25519_public_key key.
Proof.
  unfold parse_ssh_ed25519_public_key. cbv zeta. fold (key_fields input). split.
  - intros (ty & Hty & ([] & Hrej & (b64 & Hb & (blob & Hblob & Hk)%bind_Ok)%bind_Ok)%bind_Ok)%bind_Ok.
    apply bind_Ok in Hk as (key & [Hlen ->]%recover_ed25519_public_key_Ok & Hk).
    apply Ok_eq in Hk as <-. destruct (key_fields input) as [|f [|g rest]]; [done|done|].
    cbn [head tail ok_or] in *. apply Ok_eq in Hty as ->. apply Ok_eq in Hb as ->.
    destruct (base64_decode b64) as [b|] eqn:Hd; [|done]. apply Ok_eq in Hblob as ->.
    unfold reject_unsupported_type in Hrej.
    destruct (String.eqb_spec ty SSH_ED25519_TYPE) as [->|]; [|by repeat case_match].
    by exists key, b64, rest.
  - intros (key & b64 & rest & -> & Hd & Hlen & ->). cbn [head tail ok_or rbind].
    unfold reject_unsupported_type. rewrite String.eqb_refl. cbn [rbind]. rewrite Hd.
    cbn [ok_or rbind].
    by rewrite (proj2 (recover_ed25519_public_key_Ok _ _) (conj Hlen eq_refl)).
Qed.

Lemma key_text_fields literal key comment nl :
  match comment with Some c => all_bytes is_graph c = true ∧ c ≠ EmptyString | None => True end →
  key_fields (key_text literal key comment nl) =
    SSH_ED25519_TYPE :: base64_encode (ed25519_key_blob key) ::
    match comment with Some c => [c] | None => [] end.
Proof.
  intros Hc. unfold key_fields, key_text. set (b := base64_encode _).
  assert (all_bytes is_graph b = true ∧ b ≠ EmptyString) as [Hb Hne].
  { split; [apply base64_graph|]. by apply base64_nonempty. }
  set (line := SSH_ED25519_TYPE +:+ " " +:+ b +:+
    match comment with Some c => " " +:+ c | None => EmptyString end).
  assert (trim ((if literal then GIT_LITERAL_PREFIX else EmptyString) +:+ line) =
    (if literal then GIT_LITERAL_PREFIX else EmptyString) +:+ line) as Hline.
  { unfold line. destruct comment as [c|].
    - destruct Hc. rewrite <- !append_assoc.
      destruct literal; by apply (trim_graph_word _ c).
    - rewrite append_nil_r, <- !append_assoc. destruct literal; by apply (trim_graph_word _ b). }
  set (tail := if nl then String newline EmptyString else EmptyString).
  replace (SSH_ED25519_TYPE +:+ " " +:+ b +:+ _) with (line +:+ tail)
    by (unfold line; by rewrite !append_assoc).
  replace (trim _) with ((if literal then GIT_LITERAL_PREFIX else EmptyString) +:+ line).
  2:{ rewrite <- Hline at 1. rewrite <- append_assoc. unfold tail. destruct nl.
      - by destruct literal; unfold line, GIT_LITERAL_PREFIX, SSH_ED25519_TYPE;
          cbn [String.append]; rewrite <- trim_newline by done.
      - by rewrite append_nil_r. }
  replace (default _ _) with line.
  2:{ destruct literal; [by rewrite strip_prefix_append|done]. }
  unfold line. change (SSH_ED25519_TYPE +:+ " " +:+ ?x) with (SSH_ED25519_TYPE +:+ String " " x).
  rewrite split_whitespace_word by done. f_equal. destruct comment as [c|].
  - destruct Hc. change (" " +:+ c) with (String " " c).
    by rewrite split_whitespace_word, split_whitespace_last.
  - by rewrite append_nil_r, split_whitespace_last.
Qed.

(** SSH public keys and signer ids.  A text parses to a signer exactly when its first
    two words, after the git literal prefix if it is there, are the plain Ed25519 type and
    the Base64 of the wire blob of a 32-byte key, and the signer is the id of that key,
    which itself parses.  A key written as a line, as a git literal, with or without a
    comment and a final newline, parses to its own id. *)
Theorem ssh_public_key_roundtrip :
  (∀ input signer, parse_ssh_ed25519_public_key input = Ok signer ↔
    ∃ key b64 rest, key_fields input = SSH_ED25519_TYPE :: b64 :: rest ∧
      base64_decode b64 = Some (ed25519_key_blob key) ∧
      String.length key = ED25519_PUBLIC_KEY_LEN ∧ signer = from_ed25519_public_key key) ∧
  (∀ input signer, parse_ssh_ed25519_public_key input = Ok signer →
    SignerId_parse signer = Ok signer) ∧
  (∀ literal key comment nl, String.length key = ED25519_PUBLIC_KEY_LEN →
    match comment with Some c => all_bytes is_graph c = true ∧ c ≠ EmptyString | None => True end →
    parse_ssh_ed25519_public_key (key_text literal key comment nl) =
      Ok (from_ed25519_public_key key)) ∧
  (∀ blob key, recover_ed25519_public_key blob = Ok key ↔
    String.length key = ED25519_PUBLIC_KEY_LEN ∧ blob = ed25519_key_blob key).
Proof.
  split_and!.
  - apply parse_key_Ok.
  - intros input signer (key & b64 & rest & _ & _ & Hlen & ->)%parse_key_Ok.
    unfold SignerId_parse. by rewrite decode_from_public_key.
  - intros literal key comment nl Hlen Hc. apply parse_key_Ok.
    eexists key, _, _. split; [by apply key_text_fields|]. by rewrite base64_roundtrip.
  - apply recover_ed25519_public_key_Ok.
Qed.
End key_text.

(** ** Allowed signers *)

Section allowed_signers.
Context `{Primitives} `{Base64Errors}.

(** The lines that make a candidate: principals, the plain type and a key that parses;
    also a line of at least three words that starts with the plain type, whose type word
    is then read as the principals. *)
Definition candidate_of (fields : list string) (c : AllowedSignerCandidate) : Prop :=
  ∃ principals blob rest,
    (fields = principals :: "ssh-ed25519" :: blob :: rest ∧ looks_like_key_type principals = false ∨
     fields = "ssh-ed25519" :: blob :: rest ∧ rest ≠ [] ∧ principals = "ssh-ed25519") ∧
    ac_principal_hints c = principal_hints principals ∧
    ac_key_argument c = "key::ssh-ed25519 " +:+ blob ∧
    parse_ssh_ed25519_public_key (ac_key_argument c) = Ok (ac_signer_id c).

Definition push (parsed : AllowedSignersParse)
    (r : AllowedSignerCandidate + AllowedSignersDiagnostic) : AllowedSignersParse :=
  match r with inl c => push_candidate parsed c | inr d => push_line_diagnostic parsed d end.

(** What a line adds. *)
Definition line_adds (line : string) (n : nat)
    (r : AllowedSignerCandidate + AllowedSignersDiagnostic) : Prop :=
  match r with
  | inl c => ac_line c = n ∧ candidate_of (split_whitespace line) c
  | inr d => ad_line d = n ∧ ∀ c, ¬ candidate_of (split_whitespace line) c
  end.

Lemma position_Some {A} (p : A → bool) l i : position p l = Some i →
  ∃ x, l !! i = Some x ∧ p x = true ∧ ∀ j y, j < i → l !! j = Some y → p y = false.
Proof.
  revert i; induction l as [|x l IH]; intros i; cbn [position]; [done|].
  destruct (p x) eqn:Hx.
  { intros [= <-]. exists x. split_and!; [done|done|]. intros j y Hj. lia. }
  destruct (position p l) as [k|]; [|done]. intros [= <-].
  destruct (IH k eq_refl) as (y & Hy & Hp & Hall). exists y. split_and!; [done|done|].
  intros [|j] z Hj Hz; [by injection Hz as <-|]. apply (Hall j z); [lia|done].
Qed.

(** The words of a candidate line and where its key type is. *)
Lemma candidate_position fields c : candidate_of fields c →
  3 ≤ length fields ∧ ∃ i blob, position looks_like_key_type fields = Some i ∧ i ≤ 1 ∧
    fields !! i = Some "ssh-ed25519" ∧ fields !! (i + 1) = Some blob ∧
    parse_ssh_ed25519_public_key ("key::ssh-ed25519 " +:+ blob) = Ok (ac_signer_id c).
Proof.
  intros (p & blob & rest & [[-> Hp]|(-> & Hr & ->)] & _ & Harg & Hkey); rewrite Harg in Hkey.
  - split; [cbn; lia|]. exists 1, blob. cbn [position]. rewrite Hp.
    split_and!; [done|lia|done|done|done].
  - split; [destruct rest; [done|cbn; lia]|].
    exists 0, blob. split_and!; [done|lia|done|done|done].
Qed.

Lemma line_pushes line n : ∃ r, line_adds line n r ∧
  ∀ parsed, parse_allowed_signers_line line n parsed = push parsed r.
Proof.
  unfold parse_allowed_signers_line, line_adds. set (fields := split_whitespace line).
  destruct (Nat.ltb_spec (length fields) 3) as [Hlen|Hlen].
  { exists (inr (line_diagnostic n GitAllowedSignersLineMalformed
      "OpenSSH allowed-signers line must include principals, key type, and key blob")).
    split; [|done]. split; [done|]. intros c [Hc _]%candidate_position. lia. }
  destruct (position looks_like_key_type fields) as [i|] eqn:Hpos.
  2:{ eexists (inr _). split; [|done]. split; [done|].
      intros c (_ & j & b & Hj & _)%candidate_position. congruence. }
  destruct (Nat.ltb_spec 1 i) as [Hi|Hi].
  { eexists (inr _). split; [|done]. split; [done|].
    intros c (_ & j & b & Hj & Hle & _)%candidate_position. simplify_eq. lia. }
  destruct (lookup_lt_is_Some_2 fields i ltac:(lia)) as [ty Hty].
  assert (nth i fields EmptyString = ty) as -> by (by apply nth_lookup_Some).
  destruct (String.eqb_spec ty "ssh-ed25519") as [->|Hne]; cbn [negb].
  2:{ eexists (inr _). split; [|done]. split; [done|].
      intros c (_ & j & b & Hj & _ & Ht & _)%candidate_position. simplify_eq. }
  destruct (fields !! (i + 1)) as [blob|] eqn:Hblob.
  2:{ eexists (inr _). split; [|done]. split; [done|].
      intros c (_ & j & b & Hj & _ & _ & Ht & _)%candidate_position. simplify_eq. }
  change ("key::" +:+ "ssh-ed25519" +:+ " " +:+ blob) with ("key::ssh-ed25519 " +:+ blob).
  destruct (parse_ssh_ed25519_public_key ("key::ssh-ed25519 " +:+ blob)) as [s|e] eqn:Hkey.
  2:{ eexists (inr _). split; [|done]. split; [done|].
      intros c (_ & j & b & Hj & _ & _ & Ht & Hk)%candidate_position. simplify_eq. congruence. }
  eexists (inl _). split; [|done]. split; [done|].
  destruct (position_Some _ _ _ Hpos) as (t & _ & _ & Hbefore).
  destruct fields as [|f0 [|f1 [|f2 rest]]]; [cbn in Hlen; lia..|].
  destruct i as [|[|i]]; [| |lia]; cbn in Hty, Hblob; simplify_eq; cbn [nth].
  - exists "ssh-ed25519", blob, (f2 :: rest). split_and!; [by right|done|done|done].
  - exists f0, blob, rest. split_and!; [left; split; [done|]|done|done|done].
    by apply (Hbefore 0); [lia|].
Qed.

Definition significant (numbered : nat * string) : bool :=
  negb (is_empty (trim numbered.2) || starts_with "#" (trim numbered.2)).

Lemma turns_push l : ∃ rs,
  Forall2 (λ x r, line_adds (trim x.2) (x.1 + 1) r) (List.filter significant l) rs ∧
  ∀ parsed, fold_left allowed_signers_turn l parsed = fold_left push rs parsed.
Proof.
  induction l as [|x l (rs & Hrs & Hfold)]; [by exists []|]. cbn [List.filter fold_left].
  unfold significant at 1, allowed_signers_turn at 2. cbv zeta.
  destruct (is_empty (trim x.2) || starts_with "#" (trim x.2)); cbn [negb].
  { by exists rs. }
  destruct (line_pushes (trim x.2) (x.1 + 1)) as (r & Hr & Hp). exists (r :: rs).
  split; [by constructor|]. intros parsed. rewrite Hp. apply Hfold.
Qed.

Definition lefts {A B} (l : list (A + B)) : list A :=
  omap (λ r, match r with inl a => Some a | inr _ => None end) l.
Definition rights {A B} (l : list (A + B)) : list B :=
  omap (λ r, match r with inl _ => None | inr b => Some b end) l.

Lemma fold_push rs parsed : fold_left push rs parsed =
  {| asp_candidates := asp_candidates parsed ++ lefts rs;
     asp_diagnostics := asp_diagnostics parsed ++ rights rs |}.
Proof.
  revert parsed; induction rs as [|r rs IH]; intros [cs ds]; cbn [fold_left].
  { cbn. by rewrite !app_nil_r. }
  rewrite IH. destruct r; cbn; by rewrite <- app_assoc.
Qed.

Lemma candidate_of_unique fields c c' :
  candidate_of fields c → candidate_of fields c' → ac_line c = ac_line c' → c = c'.
Proof.
  destruct c, c'. intros (p & b & rest & Hf & Hh & Ha & Hk) (p' & b' & rest' & Hf' & Hh' & Ha' & Hk').
  cbn in *. intros ->.
  assert (p = p' ∧ b = b') as [-> ->].
  { destruct Hf as [[-> Hp]|(-> & _ & ->)], Hf' as [[Heq Hp']|(Heq & _ & ->)];
      injection Heq as; simplify_eq; done. }
  subst. rewrite Hk in Hk'. by apply Ok_eq in Hk' as ->.
Qed.

Definition result_line (r : AllowedSignerCandidate + AllowedSignersDiagnostic) : nat :=
  match r with inl c => ac_line c | inr d => ad_line d end.

Lemma results_lines rs :
  (ac_line <$> lefts rs) ++ (ad_line <$> rights rs) ≡ₚ result_line <$> rs.
Proof.
  induction rs as [|[c|d] rs IH]; [done| |]; cbn; [by constructor|].
  rewrite <- Permutation_middle. by constructor.
Qed.

Lemma results_sorted rs : StronglySorted lt (result_line <$> rs) →
  StronglySorted lt (ac_line <$> lefts rs) ∧ StronglySorted lt (ad_line <$> rights rs).
Proof.
  induction rs as [|r rs IH]; [by repeat constructor|].
  rewrite fmap_cons. intros [Hs Hall]%StronglySorted_inv. destruct (IH Hs) as [Hl Hr].
  rewrite <- results_lines, Forall_app in Hall. destruct Hall.
  destruct r; cbn; (split; [try by constructor|try by constructor]); done.
Qed.

Lemma StronglySorted_filter {A B} (R : relation B) (f : A → B) p l :
  StronglySorted R (f <$> l) → StronglySorted R (f <$> List.filter p l).
Proof.
  induction l as [|x l IH]; [done|]. rewrite fmap_cons.
  intros [Hs Hall]%StronglySorted_inv. cbn [List.filter]. destruct (p x); [|by apply IH].
  rewrite fmap_cons. constructor; [by apply IH|]. apply Forall_fmap, Forall_forall.
  intros y Hy. rewrite list_elem_of_In, filter_In in Hy. destruct Hy as [Hy _].
  rewrite Forall_fmap, Forall_forall in Hall. apply Hall. by apply list_elem_of_In.
Qed.

Lemma enumerate_sorted {A} (l : list A) k :
  StronglySorted lt ((λ x, x.1 + 1) <$> zip (seq k (length l)) l).
Proof.
  revert k; induction l as [|x l IH]; intros k; cbn; constructor; [apply IH|].
  apply Forall_fmap, Forall_forall. intros [i y] Hi%elem_of_zip_l. cbn.
  apply elem_of_seq in Hi. lia.
Qed.

Lemma elem_of_enumerate {A} (l : list A) i x : (i, x) ∈ enumerate l ↔ l !! i = Some x.
Proof.
  unfold enumerate. rewrite list_elem_of_lookup. split.
  - intros (j & Hj). apply lookup_zip_Some in Hj as [Hs Hx].
    apply lookup_seq in Hs as [-> _]. done.
  - intros Hx. exists i. apply lookup_zip_Some. split; [|done].
    apply lookup_seq. apply lookup_lt_Some in Hx. lia.
Qed.

(** The allowed-signers parser accounts for every line.  The candidates are exactly
    those of the lines, neither blank nor comments, whose words are principals, the plain
    Ed25519 type and a key that parses (or at least three words starting with that type,
    without principals); each other such line gets exactly one diagnostic; candidates and
    diagnostics carry their line numbers and come in line order. *)
Theorem allowed_signers_exact input :
  let parsed := parse_allowed_signers input in
  (∀ c, c ∈ asp_candidates parsed ↔ ∃ i raw, str_lines input !! i = Some raw ∧
    significant (i, raw) = true ∧ ac_line c = i + 1 ∧
    candidate_of (split_whitespace (trim raw)) c) ∧
  (ac_line <$> asp_candidates parsed) ++ (ad_line <$> asp_diagnostics parsed) ≡ₚ
    (λ x, x.1 + 1) <$> List.filter significant (enumerate (str_lines input)) ∧
  StronglySorted lt (ac_line <$> asp_candidates parsed) ∧
  StronglySorted lt (ad_line <$> asp_diagnostics parsed).
Proof.
  cbv zeta. unfold parse_allowed_signers.
  destruct (turns_push (enumerate (str_lines input))) as (rs & Hrs & ->).
  rewrite fold_push. cbn [asp_candidates asp_diagnostics app].
  assert ((λ x, x.1 + 1) <$> List.filter significant (enumerate (str_lines input)) =
    result_line <$> rs) as Hlines.
  { clear -Hrs. induction Hrs as [|x r l rs Hr _ IH]; [done|]. rewrite !fmap_cons, IH.
    f_equal. destruct r; by destruct Hr. }
  split_and!.
  - intros c. unfold lefts. rewrite list_elem_of_omap. split.
    + intros (r & Hr & Hc). destruct r as [c'|]; [|done]. injection Hc as ->.
      apply list_elem_of_lookup in Hr as (j & Hj).
      destruct (Forall2_lookup_r _ _ _ _ _ Hrs Hj) as ([i raw] & Hx & Hl & Hcand).
      apply list_elem_of_lookup_2 in Hx. rewrite list_elem_of_In, filter_In in Hx.
      destruct Hx as [Hx%list_elem_of_In Hs]. apply elem_of_enumerate in Hx. by exists i, raw.
    + intros (i & raw & Hx & Hs & Hl & Hcand). apply elem_of_enumerate in Hx.
      assert ((i, raw) ∈ List.filter significant (enumerate (str_lines input))) as Hin.
      { apply list_elem_of_In, filter_In. split; [by apply list_elem_of_In|done]. }
      apply list_elem_of_lookup in Hin as (j & Hj).
      destruct (Forall2_lookup_l _ _ _ _ _ Hrs Hj) as (r & Hr & Hadds).
      apply list_elem_of_lookup_2 in Hr. destruct r as [c'|d]; cbn in Hadds.
      * exists (inl c'). split; [done|]. f_equal. destruct Hadds as [Hl' Hc'].
        eapply candidate_of_unique; [done..|]. congruence.
      * by destruct Hadds as [_ Hno%(λ H, H c)].
  - by rewrite Hlines, results_lines.
  - apply results_sorted. rewrite <- Hlines. apply StronglySorted_filter, enumerate_sorted.
  - apply results_sorted. rewrite <- Hlines. apply StronglySorted_filter, enumerate_sorted.
Qed.
End allowed_signers.

(** ** Discovery *)

Section discovery.
Context `{Primitives} `{Base64Errors} `{Repository}.

(** Where a candidate comes from, and that its signer is the one its key parses to. *)
Definition backed (root : string) (c : EnrollmentCandidate) : Prop :=
  match ec_source c with
  | GitUserSigningKey =>
      (∃ format, git_config_get root GPG_FORMAT_CONFIG = Some format ∧
        eq_ignore_ascii_case format "ssh" = true) ∧
      ∃ value, git_config_path_get root USER_SIGNING_KEY_CONFIG = Some value ∧
        (ec_key_argument c = Some (trim value) ∧
         parse_ssh_ed25519_public_key (trim value) = Ok (ec_signer_id c) ∨
         ∃ path contents, ec_key_argument c = Some (path_display path) ∧
           read_to_string path = Ok contents ∧
           parse_ssh_ed25519_public_key contents = Ok (ec_signer_id c))
  | GitAllowedSignersFile path line =>
      ∃ contents cand, read_to_string path = Ok contents ∧
        cand ∈ asp_candidates (parse_allowed_signers contents) ∧
        c = allowed_candidate path cand ∧ line = ac_line cand
  end.

Lemma fold_discovered path l d :
  fold_left (λ d c, discovered d (allowed_candidate path c)) l d =
  {| ed_candidates := ed_candidates d ++ (allowed_candidate path <$> l);
     ed_diagnostics := ed_diagnostics d |}.
Proof.
  revert d; induction l as [|c l IH]; intros [cs ds]; cbn; [by rewrite app_nil_r|].
  rewrite IH. cbn. by rewrite <- app_assoc.
Qed.

Lemma fold_diagnosed {A} (f : A → EnrollmentDiscoveryDiagnostic) l d :
  fold_left (λ d x, diagnosed d (f x)) l d =
  {| ed_candidates := ed_candidates d; ed_diagnostics := ed_diagnostics d ++ (f <$> l) |}.
Proof.
  revert d; induction l as [|c l IH]; intros [cs ds]; cbn; [by rewrite app_nil_r|].
  rewrite IH. cbn. by rewrite <- app_assoc.
Qed.

Lemma discover_allowed_candidates root file d c :
  c ∈ ed_candidates (discover_allowed_signers_file root file d) →
  c ∈ ed_candidates d ∨ backed root c.
Proof.
  unfold discover_allowed_signers_file. cbv zeta.
  destruct (read_to_string _) as [contents|] eqn:Hr; [|by left].
  rewrite fold_diagnosed, fold_discovered. cbn [ed_candidates].
  intros [Hc|(cand & -> & Hc)%list_elem_of_fmap]%elem_of_app; [by left|right].
  by exists contents, cand.
Qed.

Lemma discover_user_key_candidates root value d c :
  (∃ format, git_config_get root GPG_FORMAT_CONFIG = Some format ∧
    eq_ignore_ascii_case format "ssh" = true) →
  git_config_path_get root USER_SIGNING_KEY_CONFIG = Some value →
  c ∈ ed_candidates (discover_user_signing_key root value d) →
  c ∈ ed_candidates d ∨ backed root c.
Proof.
  intros Hf Hv. unfold discover_user_signing_key. cbv zeta.
  destruct (starts_with "key::" (trim value)).
  { destruct (parse_ssh_ed25519_public_key (trim value)) as [s|] eqn:Hk; [|by left].
    intros [Hc| ->%list_elem_of_singleton]%elem_of_app; [by left|right].
    split; [done|]. exists value. split; [done|]. by left. }
  destruct (looks_like_unprefixed_ssh_key _); [by left|].
  set (path := if is_pub_path _ then _ else _).
  destruct (read_to_string path) as [contents|] eqn:Hr; [|by left].
  destruct (parse_ssh_ed25519_public_key contents) as [s|] eqn:Hk; [|by left].
  intros [Hc| ->%list_elem_of_singleton]%elem_of_app; [by left|right].
  split; [done|]. exists value. split; [done|]. right. by exists path, contents.
Qed.

(** Discovery proposes only keys the repository's configuration names.  Every
    candidate belongs to a usable worktree; the signing-key candidate is there only when
    SSH signing is configured, and its signer is what its literal, or the public key file
    it names, parses to; every other candidate is a candidate of a line of a readable
    allowed-signers file.  A repository that is not a worktree gives one diagnostic and no
    candidate. *)
Theorem discovery_sound repo :
  (∀ c, c ∈ ed_candidates (discover_enrollment_candidates repo) →
    ∃ root, git_worktree_root repo = Ok root ∧ backed root c) ∧
  (∀ e, git_worktree_root repo = Err e →
    ed_candidates (discover_enrollment_candidates repo) = [] ∧
    edd_code <$> ed_diagnostics (discover_enrollment_candidates repo) =
      [GitRepositoryUnavailable]).
Proof.
  split; [|by intros e He; unfold discover_enrollment_candidates; rewrite He].
  intros c. unfold discover_enrollment_candidates.
  destruct (git_worktree_root repo) as [root|]; [|by intros ?%not_elem_of_nil].
  cbv zeta. set (d := if negb _ then _ else _).
  assert (c ∈ ed_candidates d → backed root c) as Hd.
  { unfold d. destruct (git_config_get root GPG_FORMAT_CONFIG) as [format|] eqn:Hf;
      [|by intros ?%not_elem_of_nil].
    destruct (eq_ignore_ascii_case format "ssh") eqn:Hssh; [|by intros ?%not_elem_of_nil].
    cbn [negb]. destruct (git_config_path_get root USER_SIGNING_KEY_CONFIG) as [value|] eqn:Hv;
      [|by intros ?%not_elem_of_nil].
    intros [?%not_elem_of_nil|Hb]%(discover_user_key_candidates root value); [done|done| |done].
    by exists format. }
  clearbody d. intros Hc. exists root. split; [done|].
  destruct (git_config_path_get root ALLOWED_SIGNERS_FILE_CONFIG); [|by apply Hd].
  apply discover_allowed_candidates in Hc as [Hc|Hc]; [by apply Hd|done].
Qed.
End discovery.

(** ** Concrete instances *)

Module Example.
Definition nibble (c : ascii) : option Z :=
  if is_ascii_digit c then Some (byte_val c - 48)%Z
  else if (97 <=? byte_val c)%Z && (byte_val c <=? 102)%Z then Some (byte_val c - 87)%Z else None.

Fixpoint hex_decode (s : string) : option string :=
  match s with
  | EmptyString => Some EmptyString
  | String a (String b s) =>
      x ← nibble a; y ← nibble b; rest ← hex_decode s;
      Some (String (ascii_of_N (Z.to_N (16 * x + y))) rest)
  | _ => None
  end.

(** Hexadecimal in the place of Base64: visible text that reads back. *)
Definition primitives : Primitives := {|
  bs58_encode := λ s, s; bs58_decode := Some;
  base64_encode := hex_lower; base64_decode := hex_decode;
  verifying_key_ok := λ _, true; signature_ok := λ s, String.length s =? 64;
  verify_strict := λ k m s, String.eqb s (str_take 64 (k +:+ m))
|}.

Lemma hex_byte c rest : hex_decode (hex_lower (String c rest)) =
  (rest' ← hex_decode (hex_lower rest); Some (String c rest')).
Proof.
  cbn [hex_lower hex_decode].
  destruct c as [[] [] [] [] [] [] [] []]; vm_compute (nibble _); cbn [mbind option_bind];
    destruct (hex_decode (hex_lower rest)); reflexivity.
Qed.

Lemma primitives_laws : @PrimitivesLaws primitives.
Proof.
  split; [done|done|]. cbn [base64_decode base64_encode primitives]. intros s.
  induction s as [|c s IH]; [done|]. by rewrite hex_byte, IH.
Qed.

Lemma base64_text : @Base64Text primitives.
Proof.
  split; cbn [base64_encode primitives]; [|by intros [|]].
  intros s. induction s as [|c s IH]; [done|]. cbn [hex_lower all_bytes]. rewrite IH, andb_true_r.
  destruct c as [[] [] [] [] [] [] [] []]; reflexivity.
Qed.

Definition key : string := "0123456789abcdef0123456789abcdef".
Lemma key_length : String.length key = ED25519_PUBLIC_KEY_LEN.
Proof. vm_compute. reflexivity. Qed.
Lemma comment_graph : all_bytes is_graph "work" = true ∧ "work" ≠ EmptyString.
Proof. by split. Qed.
Definition message : string := "a message of some forty bytes to be signed".

(** An agent that holds one key: it answers when the request is flushed. *)
Record Agent := { sent : string; pending : string }.

Definition agent_reply (request : string) : string :=
  if String.eqb request request_identities_bytes
  then frame_message (identities_body [(ed25519_key_blob key, "key")] EmptyString)
  else frame_message (signature_body (str_take 64 (key +:+ message)) EmptyString EmptyString).

#[local] Instance agent_duplex : AgentDuplex Agent := {
  write_all s d := (Ok tt, {| sent := sent d +:+ s; pending := pending d |});
  flush d := (Ok tt, {| sent := EmptyString; pending := pending d +:+ agent_reply (sent d) |});
  read_exact n d :=
    if n <=? String.length (pending d)
    then (Ok (str_take n (pending d)), {| sent := sent d; pending := str_drop n (pending d) |})
    else (Err "failed to fill whole buffer", d)
}.

Lemma agent_duplex_laws : AgentDuplexLaws Agent.
Proof.
  intros n d d' b. cbn [read_exact agent_duplex].
  destruct (Nat.leb_spec n (String.length (pending d))); [|done].
  intros Heq. apply (f_equal fst) in Heq. cbn [fst] in Heq. apply Ok_eq in Heq as <-.
  by apply length_str_take.
Qed.

Definition agent : Agent := {| sent := EmptyString; pending := EmptyString |}.

Lemma agent_lists : list_identities (Ok agent) = Ok [ed25519_key_blob key].
Proof. vm_compute. reflexivity. Qed.

Definition signer : SshAgentSigner Agent := {|
  ss_signer_id := @from_ed25519_public_key primitives key; ss_public_key := key;
  ss_connect := Ok agent |}.

Lemma agent_signs : @sign_event_message (@agent_signer primitives _ _ signer) message =
  Ok (hex_lower (str_take 64 (key +:+ message))).
Proof. vm_compute. reflexivity. Qed.
End Example.

Lemma agent_reply_bounded_witness :
  (Z.of_nat (sum_list_with (λ b, 8 + String.length b)%nat [ed25519_key_blob Example.key]) + 5 ≤
   MAX_AGENT_FRAME)%Z.
Proof.
  exact (proj1 (proj2 (@agent_reply_bounded Example.Agent Example.agent_duplex
    Example.agent_duplex_laws)) (Ok Example.agent) _ Example.agent_lists).
Defined.

Lemma agent_signer_exact_witness : ∃ raw inner_rest rest,
  String.length raw = ED25519_SIGNATURE_LEN ∧
  hex_lower (str_take 64 (Example.key +:+ Example.message)) =
    @EventSignatureBytes_from_bytes Example.primitives raw ∧
  @replies Example.Agent Example.agent_duplex (Ok Example.agent)
    (sign_request_bytes Example.key Example.message) (signature_body raw inner_rest rest).
Proof.
  exact (proj1 (proj1 (proj2 (@agent_signer_exact Example.primitives Example.Agent
    Example.agent_duplex Example.agent_duplex_laws)) Example.signer Example.message _)
    Example.agent_signs).
Defined.

Lemma ssh_public_key_roundtrip_witness :
  @parse_ssh_ed25519_public_key Example.primitives (λ _, EmptyString)
    (@key_text Example.primitives true Example.key (Some "work") true) =
  Ok (@from_ed25519_public_key Example.primitives Example.key).
Proof.
  apply (proj1 (proj2 (proj2 (@ssh_public_key_roundtrip Example.primitives
    Example.primitives_laws Example.base64_text (λ _, EmptyString))))
    true Example.key (Some "work") true Example.key_length Example.comment_graph).
Defined.
