(* ===== verification/Removal.v ===== *)
(** * Removing content ([src/src/session/projection/artifact_removal.rs],
    [src/src/session/workflow/artifact_removal])

    Removal claims and when they are operative for a reader; recording a removal per
    content hash of a selection; and the sweep that deletes the blobs of removed content.
    The stores of a repository are resolved by the caller: the operations run on a store
    that is journal and content store at once. *)

From S2P Require Import Prelude RustStr BTree Model Acknowledgement CanonicalHash Crypto Events.
From S2P Require Import GitDiff ChangeClaims Relations Payloads Wire Journal EventCodec Capabilities.
From S2P Require Import CapabilityRouter CapabilityProofs EventStore Signing Identity Cosignature.
From S2P Require Import Ingest Subjects CommitRange Liveness Artifacts.

(** ** Claims ([projection/artifact_removal.rs]) *)

Record RemovalClaim := { rc_content_hash : string; rc_event : ShoreEvent }.

Record ArtifactRemovalProjection := { ar_claims : gmap string (list RemovalClaim) }.

Inductive RemovalOperativeStatus :=
| NoClaim
| OperativePossession
| OperativeTrusted
| ClaimUnsigned
| ClaimUntrusted
| ClaimInvalid.

#[export] Instance RemovalOperativeStatus_eq_dec : EqDecision RemovalOperativeStatus.
Proof. solve_decision. Defined.

Inductive IdentityReuseKind := ReuseContentObject | ReuseRevision.

Definition IdentityReuseKind_as_str (kind : IdentityReuseKind) : string :=
  match kind with
  | ReuseContentObject => "content/object reuse"
  | ReuseRevision => "revision-id reuse"
  end.

Record IdentityReuse := {
  iu_content_hash : string;
  iu_revision_id : RevisionId;
  iu_kind : IdentityReuseKind
}.

Definition claim_reason (status : EventVerificationStatus) : RemovalOperativeStatus :=
  match status with Unsigned => ClaimUnsigned | _ => ClaimUntrusted end.

Definition status_rank (status : RemovalOperativeStatus) : Z :=
  match status with
  | ClaimInvalid => 0
  | ClaimUnsigned => 1
  | ClaimUntrusted => 2
  | _ => 3
  end.

Definition max_status (a b : RemovalOperativeStatus) : RemovalOperativeStatus :=
  if (status_rank a <=? status_rank b)%Z then b else a.

(** [entry(k).or_default().push(v)]. *)
Definition entry_push {A} (m : gmap string (list A)) (k : string) (a : A) : gmap string (list A) :=
  <[k := default [] (m !! k) ++ [a]]> m.

(** The operative arms under a policy. *)
Definition policy_operative (policy : RemovalPolicy) (arm_a arm_b : bool) : bool :=
  match policy with
  | RemovalAdvisory => false
  | PossessionOrTrusted => arm_a || arm_b
  | TrustedStrict => arm_b
  end.

Section projection.
Context `{Digest} `{JsonReader} `{Primitives} `{Decoders}.

Definition removal_step (claims : gmap string (list RemovalClaim)) (event : ShoreEvent)
    : result (gmap string (list RemovalClaim)) :=
  if bool_decide (ev_event_type event = ArtifactRemoved) then
    let? payload := from_json (A := ArtifactRemovedPayload) (ev_payload event) in
    Ok (entry_push claims (rm_content_hash payload)
      {| rc_content_hash := rm_content_hash payload; rc_event := event |})
  else Ok claims.

Definition removal_from_events (events : list ShoreEvent) : result ArtifactRemovalProjection :=
  let? claims := try_fold removal_step ∅ events in Ok {| ar_claims := claims |}.

Definition is_removed (self : ArtifactRemovalProjection) (content_hash : string) : bool :=
  bool_decide (is_Some (ar_claims self !! content_hash)).

Definition claimed_hashes (self : ArtifactRemovalProjection) : list string :=
  map_keys (ar_claims self).

(** The verification status, the possession arm and the trust arm of a claim. *)
Definition evaluate (claim : RemovalClaim) (trust : TrustSet) (cosig : CosignatureIndex)
    : result (EventVerificationStatus * bool * bool) :=
  let? status := verify_event_signature (rc_event claim) trust in
  let arm_a := negb (bool_decide (is_Some (ev_ingest (rc_event claim)))) in
  let? arm_b :=
    if bool_decide (status = Valid) then Ok true
    else let? set := cosignatures_for_target cosig (rc_event claim) trust in
         Ok (has_trusted_endorsement set) in
  Ok (status, arm_a, arm_b).

(** The loop over the claims; [best] is the reason so far. *)
Fixpoint strongest_claim (claims : list RemovalClaim) (trust : TrustSet) (policy : RemovalPolicy)
    (cosig : CosignatureIndex) (best : RemovalOperativeStatus) : result RemovalOperativeStatus :=
  match claims with
  | [] => Ok best
  | claim :: claims =>
      let? evaluated := evaluate claim trust cosig in
      let '(status, arm_a, arm_b) := evaluated in
      if bool_decide (status = Invalid) then strongest_claim claims trust policy cosig best
      else if policy_operative policy arm_a arm_b then
        Ok (if arm_b : bool then OperativeTrusted else OperativePossession)
      else strongest_claim claims trust policy cosig (max_status best (claim_reason status))
  end.

Definition operative_status (self : ArtifactRemovalProjection) (content_hash : string)
    (trust : TrustSet) (policy : RemovalPolicy) (cosig : CosignatureIndex)
    : result RemovalOperativeStatus :=
  match ar_claims self !! content_hash with
  | None => Ok NoClaim
  | Some claims => strongest_claim claims trust policy cosig ClaimInvalid
  end.

Definition is_operative_suppress (self : ArtifactRemovalProjection) (content_hash : string)
    (trust : TrustSet) (policy : RemovalPolicy) (cosig : CosignatureIndex) : result bool :=
  let? status := operative_status self content_hash trust policy cosig in
  Ok match status with OperativePossession | OperativeTrusted => true | _ => false end.

Definition is_erase_eligible (self : ArtifactRemovalProjection) (content_hash : string)
    (trust : TrustSet) (cosig : CosignatureIndex) : result bool :=
  is_operative_suppress self content_hash trust PossessionOrTrusted cosig.

Definition target_missing_diagnostics (self : ArtifactRemovalProjection)
    (events : list ShoreEvent) : result (list string) :=
  let? artifacts := referenced_artifacts events in
  let referenced := set_of_list (art_content_hash <$> artifacts) in
  Ok (List.filter (λ hash, negb (bool_decide (hash ∈ referenced))) (claimed_hashes self)).

(** One event of [binding_revisions_by_content_hash]. *)
Definition binding_step (m : gmap string (list RevisionId)) (event : ShoreEvent)
    : result (gmap string (list RevisionId)) :=
  if negb (bool_decide (ev_event_type event = WorkObjectProposed)) then Ok m
  else
    let? payload := from_work_object_proposed (ev_payload event) in
    Ok match wo_work_object payload with
       | ProposeRevision revision _ object_artifact_content_hash _ =>
           entry_push m object_artifact_content_hash (rv_id revision)
       | ProposeTaskAttempt _ _ _ _ _ _ _ => m
       end.

Definition binding_revisions_by_content_hash (events : list ShoreEvent)
    : result (gmap string (list RevisionId)) := try_fold binding_step ∅ events.

Definition revision_counts (revisions : list RevisionId) : gmap string nat :=
  foldl (λ m r, <[r := S (default 0 (m !! r))]> m) ∅ revisions.

Definition reuse_of (content_hash : string) (revisions : list RevisionId) : list IdentityReuse :=
  let counts := revision_counts revisions in
  omap (λ p, kind ← (if 2 <=? p.2 then Some ReuseRevision
                     else if 2 <=? size counts then Some ReuseContentObject else None);
    Some {| iu_content_hash := content_hash; iu_revision_id := p.1; iu_kind := kind |})
    (iter_map counts).

Definition identity_reuse_diagnostics (self : ArtifactRemovalProjection)
    (events : list ShoreEvent) (trust : TrustSet) (policy : RemovalPolicy)
    (cosig : CosignatureIndex) : result (list IdentityReuse) :=
  let? bindings := binding_revisions_by_content_hash events in
  try_fold (λ out p,
    let? operative := is_operative_suppress self p.1 trust policy cosig in
    if negb operative then Ok out else Ok (out ++ reuse_of p.1 p.2)) [] (iter_map bindings).
End projection.

(** ** Recording removals ([workflow/artifact_removal/mod.rs]) *)

Inductive RemoveSelector :=
| SelectSnapshot (object_id : ObjectId)
| SelectRevision (revision_id : RevisionId)
| SelectRef (reference : string)
| SelectRange (range : string)
| SelectUnreachable.

Record RemovedContent := {
  rmc_content_hash : string;
  rmc_created : bool;
  rmc_co_referencing_units : list RevisionId
}.

Record RemoveResult := {
  rr_acknowledgement : WriteAcknowledgementV1;
  rr_removed : list RemovedContent;
  rr_events_created : nat;
  rr_events_existing : nat;
  rr_diagnostics : list ProjectionDiagnostic
}.

Record ResolvedSelection := {
  rs_content_hashes : gset string;
  rs_targeted_units : gset string
}.

Definition co_referencing_units (index : gmap string (gset string)) (content_hash : string)
    (targeted_units : gset string) : list RevisionId :=
  match index !! content_hash with
  | Some units => List.filter (λ unit, negb (bool_decide (unit ∈ targeted_units))) (iter_set units)
  | None => []
  end.

Definition selection_for_units (targeted_units : gset string) (index : gmap string (gset string))
    : ResolvedSelection :=
  {| rs_content_hashes := set_of_list (List.filter (λ hash,
       match index !! hash with
       | Some units => existsb (λ unit, bool_decide (unit ∈ targeted_units)) (iter_set units)
       | None => false
       end) (map_keys index));
     rs_targeted_units := targeted_units |}.

Definition is_unreachable (condition : CommitGraphCondition) : bool :=
  match condition with Unreachable | MissingCommit => true | _ => false end.

Section selection.
Context `{Decoders} `{ReviewDecoders} `{Git}.

Definition unit_index_step (index : gmap string (gset string)) (event : ShoreEvent)
    : result (gmap string (gset string)) :=
  let? subject := event_subject_revision_id event in
  match subject with
  | None => Ok index
  | Some unit =>
      let? artifacts := referenced_artifacts [event] in
      Ok (foldl (λ index artifact, entry_extend index (art_content_hash artifact) {[unit]})
        index artifacts)
  end.

Definition content_hash_unit_index (events : list ShoreEvent)
    : result (gmap string (gset string)) := try_fold unit_index_step ∅ events.

Fixpoint capture_bound_to_snapshot (events : list ShoreEvent) (object_id : ObjectId)
    : result (RevisionId * string) :=
  match events with
  | [] => Err (Message ("unknown snapshot: " +:+ object_id))
  | event :: events =>
      if negb (bool_decide (ev_event_type event = WorkObjectProposed))
      then capture_bound_to_snapshot events object_id
      else
        let? payload := from_work_object_proposed (ev_payload event) in
        match wo_work_object payload with
        | ProposeRevision revision _ object_artifact_content_hash _ =>
            if String.eqb (rv_object_id revision) object_id
            then Ok (rv_id revision, object_artifact_content_hash)
            else capture_bound_to_snapshot events object_id
        | ProposeTaskAttempt _ _ _ _ _ _ _ => capture_bound_to_snapshot events object_id
        end
  end.

Definition units_anchored_on_oids (events : list ShoreEvent) (oids : gset string)
    : result (gset string) :=
  let? projection := commit_range_from_events events in
  Ok (set_of_list (omap (λ p,
    if existsb (λ commit, bool_decide (ce_commit_oid commit ∈ oids)) (crv_current_commits p.2)
    then Some p.1 else None) (iter_map (cu_units projection)))).

(** Whether every current commit of a unit is off the live graph, as far as git answers;
    a panic is not an answer. *)
Definition unit_unreachable (view : RevisionCommitRangeView) : result bool :=
  match crv_current_commits view with
  | [] => Ok false
  | _ =>
      match enrich_liveness view None with
      | Err (Panicked message) => Err (Panicked message)
      | Err _ => Ok false
      | Ok enrichment => Ok (
          negb (match le_per_commit enrichment with [] => true | _ => false end) &&
          forallb (λ commit, is_unreachable (cl_condition commit)) (le_per_commit enrichment))
      end
  end.

Definition unreachable_anchored_units (events : list ShoreEvent) : result (gset string) :=
  let? projection := commit_range_from_events events in
  try_fold (λ units p,
    let? all_unreachable := unit_unreachable p.2 in
    Ok (if all_unreachable : bool then {[p.1]} ∪ units else units)) ∅
    (iter_map (cu_units projection)).

Definition resolve_selector (selector : RemoveSelector) (events : list ShoreEvent)
    (index : gmap string (gset string)) : result ResolvedSelection :=
  match selector with
  | SelectSnapshot object_id =>
      let? bound := capture_bound_to_snapshot events object_id in
      Ok {| rs_content_hashes := {[bound.2]}; rs_targeted_units := {[bound.1]} |}
  | SelectRevision revision_id => Ok (selection_for_units {[revision_id]} index)
  | SelectRef reference =>
      let? oid := git_rev_parse_commit_oid reference in
      let? units := units_anchored_on_oids events {[oid]} in
      Ok (selection_for_units units index)
  | SelectRange range =>
      let? oids := git_rev_list_range range in
      let? units := units_anchored_on_oids events (set_of_list oids) in
      Ok (selection_for_units units index)
  | SelectUnreachable =>
      let? units := unreachable_anchored_units events in
      Ok (selection_for_units units index)
  end.
End selection.

Record RemoveOptions := {
  ro_selector : RemoveSelector;
  ro_signing : EventSigningOptions;
  ro_actor_id : option ActorId
}.

(** The locals of the loop of [remove_content], and the reasons a best-effort signer gave
    to its sink. *)
Record RemoveState := {
  st_derived : DerivedWriteAggregate;
  st_removed : list RemovedContent;
  st_events_created : nat;
  st_events_existing : nat;
  st_signing_skips : list string
}.

Definition remove_start : RemoveState :=
  {| st_derived := aggregate_default; st_removed := []; st_events_created := 0;
     st_events_existing := 0; st_signing_skips := [] |}.

Section remove_content.
Context `{Digest} `{JsonReader} `{Primitives} `{Decoders} `{ReviewDecoders} `{Git}.
Context {S : Type} `{Journal S} `{Authority S} `{Environment S}.

(** The event of one hash. *)
Definition removal_event (content_hash : string) (writer : Writer) (timestamp : string)
    : result ShoreEvent :=
  ShoreEvent_new ArtifactRemoved (artifact_removed_key content_hash)
    (for_journal "journal:default") writer ArtifactRemoved
    (to_json {| rm_content_hash := content_hash |}) timestamp.

Definition remove_one (options : RemoveOptions) (index : gmap string (gset string))
    (targeted_units : gset string) (writer : Writer) (st : RemoveState) (content_hash : string)
    : io S RemoveState :=
  let! timestamp := lift_env current_timestamp in
  let! event := pure_io (removal_event content_hash writer timestamp) in
  let! signed := pure_io (sign_event_if_requested event (ro_signing options)) in
  let! ack := record_event_once_acknowledged signed.1 in
  let! recorded := pure_io (aggregate_record (st_derived st) ack) in
  let created := match recorded.2 with
    | Acknowledgement.Created => true
    | Existing | ExistingDivergentSignature => false
    end in
  pure_io (Ok {|
    st_derived := recorded.1;
    st_removed := st_removed st ++ [{| rmc_content_hash := content_hash; rmc_created := created;
      rmc_co_referencing_units := co_referencing_units index content_hash targeted_units |}];
    st_events_created := st_events_created st + (if created then 1 else 0);
    st_events_existing := st_events_existing st + (if created then 0 else 1);
    st_signing_skips := st_signing_skips st ++ option_list signed.2 |}).

Fixpoint remove_each (options : RemoveOptions) (index : gmap string (gset string))
    (targeted_units : gset string) (writer : Writer) (st : RemoveState) (hashes : list string)
    : io S RemoveState :=
  match hashes with
  | [] => pure_io (Ok st)
  | content_hash :: hashes =>
      let! st := remove_one options index targeted_units writer st content_hash in
      remove_each options index targeted_units writer st hashes
  end.

(** [remove_content], after the stores are resolved; with the result, what the signing
    sink received. *)
Definition remove_content (options : RemoveOptions) : io S (RemoveResult * list string) :=
  let! events := list_events in
  let! index := pure_io (content_hash_unit_index events) in
  let! resolved := pure_io (resolve_selector (ro_selector options) events index) in
  let! writer := lift_env (writer_from_options (ro_actor_id options)) in
  let! st := remove_each options index (rs_targeted_units resolved) writer remove_start
    (iter_set (rs_content_hashes resolved)) in
  let '(acknowledgement, diagnostics) :=
    finish (st_derived st) (st_events_created st) (st_events_existing st) [] in
  pure_io (Ok ({| rr_acknowledgement := acknowledgement; rr_removed := st_removed st;
    rr_events_created := st_events_created st; rr_events_existing := st_events_existing st;
    rr_diagnostics := diagnostics |}, st_signing_skips st)).
End remove_content.

(** ** The sweep *)

Record CompactOptions := { co_trust_set : TrustSet; co_dry_run : bool }.

Record SkippedRemoval := { sr_content_hash : string; sr_reason : RemovalOperativeStatus }.

Inductive SweepOutcome := SweepRemoved | SweepMissing | HashMismatchSkipped.

#[export] Instance SweepOutcome_eq_dec : EqDecision SweepOutcome.
Proof. solve_decision. Defined.

Record SweptBlob := { sb_content_hash : string; sb_outcome : SweepOutcome }.

Record CompactResult := {
  cp_swept : list SweptBlob;
  cp_bytes_reclaimed : Z;
  cp_dry_run : bool;
  cp_skipped_ineligible : list SkippedRemoval
}.

Record OnDiskBlob := { ob_relative_path : string; ob_content_hash : string }.

Definition ref_file_name (content_ref : string) : string :=
  default content_ref (last (split_char "/" content_ref)).

Definition normalized_sha256_stem (stem : string) : option string :=
  if (String.length stem =? 64) && all_bytes is_ascii_hexdigit stem
  then Some ("sha256:" +:+ stem) else None.

Section blobs.
Context `{Digest} `{Decoders}.

(** One event of the two maps over the proposed revisions. *)
Definition proposed_revision (event : ShoreEvent) : result (option (Revision * string)) :=
  if negb (bool_decide (ev_event_type event = WorkObjectProposed)) then Ok None
  else
    let? payload := from_work_object_proposed (ev_payload event) in
    Ok match wo_work_object payload with
       | ProposeRevision revision _ hash _ => Some (revision, hash)
       | ProposeTaskAttempt _ _ _ _ _ _ _ => None
       end.

Definition object_content_hashes (events : list ShoreEvent) : result (gset string) :=
  try_fold (λ hashes event,
    let? proposed := proposed_revision event in
    Ok match proposed with Some (_, hash) => {[hash]} ∪ hashes | None => hashes end) ∅ events.

Definition snapshot_content_hash_by_file_stem (events : list ShoreEvent)
    : result (gmap string string) :=
  try_fold (λ by_stem event,
    let? proposed := proposed_revision event in
    Ok match proposed with
       | Some (revision, hash) => <[sha256_bytes_hex (rv_object_id revision) := hash]> by_stem
       | None => by_stem
       end) ∅ events.

(** The content hash of a file under [artifacts/objects]. *)
Definition object_blob_hash (object_hashes : gset string) (legacy : gmap string string)
    (relative_path : string) : option string :=
  let file_name := ref_file_name relative_path in
  let stem := default file_name (strip_suffix ".json" file_name) in
  let fallback := match legacy !! stem with
    | Some hash => Some hash
    | None => normalized_sha256_stem stem
    end in
  match normalized_sha256_stem stem with
  | Some stem_hash => if bool_decide (stem_hash ∈ object_hashes) then Some stem_hash else fallback
  | None => fallback
  end.
End blobs.

Section compact.
Context `{Digest} `{JsonReader} `{Primitives} `{Decoders}.
Context `{!Serialize DiffFile} `{!Deserialize DiffFile}.

Definition blob_content_matches_claim (blob : OnDiskBlob) (bytes : string) : bool :=
  if starts_with "artifacts/objects/" (ob_relative_path blob) then
    match decode_and_validate_object_artifact bytes with
    | Ok artifact => String.eqb (oa_content_hash artifact) (ob_content_hash blob)
    | Err _ => false
    end
  else is_ok (validate_note_body_artifact_bytes (ob_relative_path blob) (ob_content_hash blob)
    bytes).

Context {S : Type} `{Journal S} `{Authority S} `{ContentStore S}.

Definition on_disk_blobs (events : list ShoreEvent) : io S (list OnDiskBlob) :=
  let! object_hashes := pure_io (object_content_hashes events) in
  let! legacy := pure_io (snapshot_content_hash_by_file_stem events) in
  let! objects := list_refs "artifacts/objects" in
  let object_blobs := omap (λ path, hash ← object_blob_hash object_hashes legacy path;
    Some {| ob_relative_path := path; ob_content_hash := hash |}) objects in
  let! notes := list_refs "artifacts/notes" in
  let! note_blobs := pure_io (mapM (λ path,
    let? hash := note_body_content_hash_from_path path in
    Ok {| ob_relative_path := path; ob_content_hash := hash |}) notes) in
  pure_io (Ok (object_blobs ++ note_blobs)).

(** The locals of the loop of [compact_store]. *)
Record SweepState := {
  sw_swept : list SweptBlob;
  sw_bytes_reclaimed : Z;
  sw_skipped : list SkippedRemoval
}.

Definition swept (st : SweepState) (blob : OnDiskBlob) (outcome : SweepOutcome) (size : Z)
    : SweepState :=
  {| sw_swept := sw_swept st ++ [{| sb_content_hash := ob_content_hash blob;
                                    sb_outcome := outcome |}];
     sw_bytes_reclaimed := ((sw_bytes_reclaimed st + size) mod 2 ^ 64)%Z;
     sw_skipped := sw_skipped st |}.

Definition skipped (st : SweepState) (blob : OnDiskBlob) (reason : RemovalOperativeStatus)
    : SweepState :=
  {| sw_swept := sw_swept st; sw_bytes_reclaimed := sw_bytes_reclaimed st;
     sw_skipped := sw_skipped st ++ [{| sr_content_hash := ob_content_hash blob;
                                        sr_reason := reason |}] |}.

Definition sweep_blob (options : CompactOptions) (removal : ArtifactRemovalProjection)
    (cosig : CosignatureIndex) (st : SweepState) (blob : OnDiskBlob) : io S SweepState :=
  let hash := ob_content_hash blob in
  if negb (is_removed removal hash) then pure_io (Ok st)
  else
    let! eligible := pure_io (is_erase_eligible removal hash (co_trust_set options) cosig) in
    if negb eligible then
      let! reason := pure_io (operative_status removal hash (co_trust_set options)
        PossessionOrTrusted cosig) in
      pure_io (Ok (skipped st blob reason))
    else
      let! found := get_if_exists (ob_relative_path blob) in
      match found with
      | None => pure_io (Ok (swept st blob SweepMissing 0))
      | Some bytes =>
          if negb (blob_content_matches_claim blob bytes)
          then pure_io (Ok (swept st blob HashMismatchSkipped 0))
          else if co_dry_run options then pure_io (Ok (swept st blob SweepRemoved 0))
          else
            let! outcome := remove (ob_relative_path blob) in
            pure_io (Ok match outcome with
              | Removed => swept st blob SweepRemoved (Z.of_nat (String.length bytes))
              | Missing => swept st blob SweepMissing 0
              end)
      end.

Fixpoint sweep (options : CompactOptions) (removal : ArtifactRemovalProjection)
    (cosig : CosignatureIndex) (st : SweepState) (blobs : list OnDiskBlob) : io S SweepState :=
  match blobs with
  | [] => pure_io (Ok st)
  | blob :: blobs =>
      let! st := sweep_blob options removal cosig st blob in
      sweep options removal cosig st blobs
  end.

(** [compact_store], after the store is resolved; the sum of sizes wraps at 64 bits. *)
Definition compact_store (options : CompactOptions) : io S CompactResult :=
  let! events := list_events in
  let! removal := pure_io (removal_from_events events) in
  let! cosig := pure_io (build_index events) in
  let! blobs := on_disk_blobs events in
  let! st := sweep options removal cosig
    {| sw_swept := []; sw_bytes_reclaimed := 0; sw_skipped := [] |} blobs in
  pure_io (Ok {| cp_swept := sw_swept st; cp_bytes_reclaimed := sw_bytes_reclaimed st;
    cp_dry_run := co_dry_run options; cp_skipped_ineligible := sw_skipped st |}).
End compact.
