(* ===== verification/RemovalProofs.v ===== *)
(** * Removal is safe

    Which claims are operative; that the sweep deletes exactly the blobs whose removal is
    operative under the fixed erase rule and whose bytes still are the content removed; and
    which revisions a selector targets, the unreachable one only those no live ref reaches.
    Content they share with other revisions is selected with them, and reported. *)

From S2P Require Import Prelude RustStr BTree Model Acknowledgement CanonicalHash Crypto Events.
From S2P Require Import GitDiff ChangeClaims Relations Payloads Wire Journal EventCodec Capabilities.
From S2P Require Import CapabilityRouter CapabilityProofs EventStore Signing Identity Cosignature.
From S2P Require Import Ingest Subjects CommitRange Liveness LivenessProofs Artifacts Removal.
From S2P Require Import ChangeEvents CosignatureProofs ArtifactsProofs.

(** ** Operative claims *)

Section operative.
Context `{Digest} `{JsonReader} `{Primitives}.

(** The hash an event claims removed. *)
Definition claimed_hash (event : ShoreEvent) : option string :=
  if bool_decide (ev_event_type event = ArtifactRemoved) then
    match from_json (A := ArtifactRemovedPayload) (ev_payload event) with
    | Ok payload => Some (rm_content_hash payload)
    | Err _ => None
    end
  else None.

Definition claims_for (events : list ShoreEvent) (h : string) : list RemovalClaim :=
  omap (λ e, if bool_decide (claimed_hash e = Some h)
             then Some {| rc_content_hash := h; rc_event := e |} else None) events.

Definition claims_at (m : gmap string (list RemovalClaim)) (h : string) : list RemovalClaim :=
  default [] (m !! h).

Lemma removal_fold events m m' h :
  try_fold removal_step m events = Ok m' →
  claims_at m' h = claims_at m h ++ claims_for events h ∧
  (is_Some (m' !! h) ↔ is_Some (m !! h) ∨ claims_for events h ≠ []).
Proof.
  revert m. induction events as [|e events IH]; intros m; cbn [try_fold].
  { intros <-%Ok_eq. cbn. rewrite app_nil_r. naive_solver. }
  unfold removal_step at 1. intros (m1 & Hm1 & Hf)%bind_Ok.
  destruct (IH _ Hf) as [IHl IHd]. unfold claims_for in *. cbn [omap list_omap].
  destruct (decide (ev_event_type e = ArtifactRemoved)) as [Ht|Ht].
  - rewrite bool_decide_eq_true_2 in Hm1 by done. apply bind_Ok in Hm1 as (p & Hp & <-%Ok_eq).
    assert (claimed_hash e = Some (rm_content_hash p)) as ->.
    { unfold claimed_hash. rewrite bool_decide_eq_true_2 by done. by rewrite Hp. }
    unfold claims_at, entry_push in *. case_bool_decide as Hh.
    + apply (inj Some) in Hh as <-. rewrite lookup_insert_eq in IHl, IHd. cbn in IHl.
      rewrite IHl, <- app_assoc. split; [done|]. split; [by right|]. intros _. apply IHd. by left.
    + rewrite lookup_insert_ne in IHl, IHd by congruence. done.
  - rewrite bool_decide_eq_false_2 in Hm1 by done. apply Ok_eq in Hm1 as <-.
    assert (claimed_hash e = None) as ->; [|done].
    unfold claimed_hash. by rewrite bool_decide_eq_false_2.
Qed.

Lemma removal_claims events p h :
  removal_from_events events = Ok p →
  ar_claims p !! h = match claims_for events h with [] => None | l => Some l end.
Proof.
  intros (m & Hm & <-%Ok_eq)%bind_Ok. cbn [ar_claims].
  destruct (removal_fold events ∅ m h Hm) as [Hl Hd]. unfold claims_at in Hl.
  rewrite lookup_empty in Hl, Hd. cbn in Hl.
  destruct (m !! h) as [l|] eqn:E; cbn in Hl; subst.
  - destruct (claims_for events h); [|done]. destruct Hd as [[[]|] _]; done.
  - by rewrite <- Hl.
Qed.

Lemma elem_of_claims_for events h c :
  c ∈ claims_for events h ↔
  ∃ e, e ∈ events ∧ claimed_hash e = Some h ∧ c = {| rc_content_hash := h; rc_event := e |}.
Proof.
  unfold claims_for. rewrite list_elem_of_omap. split.
  - intros (e & He & Hc). case_bool_decide; [|done]. exists e. naive_solver.
  - intros (e & He & Hh & ->). exists e. by rewrite bool_decide_eq_true_2.
Qed.

(** The claim makes its removal operative: its own signature does not verify invalid, and
    an arm the policy reads holds. *)
Definition operative (trust : TrustSet) (policy : RemovalPolicy) (cosig : CosignatureIndex)
    (claim : RemovalClaim) : Prop :=
  ∃ status arm_a arm_b, evaluate claim trust cosig = Ok (status, arm_a, arm_b) ∧
    status ≠ Invalid ∧ policy_operative policy arm_a arm_b = true.

Definition suppresses (status : RemovalOperativeStatus) : bool :=
  match status with OperativePossession | OperativeTrusted => true | _ => false end.

Lemma max_status_reason best status :
  suppresses best = false → suppresses (max_status best (claim_reason status)) = false.
Proof. by destruct best, status. Qed.

Lemma strongest_exact claims trust policy cosig best status :
  strongest_claim claims trust policy cosig best = Ok status → suppresses best = false →
  suppresses status = true ↔ ∃ c, c ∈ claims ∧ operative trust policy cosig c.
Proof.
  revert best. induction claims as [|c claims IH]; intros best; cbn [strongest_claim].
  { intros <-%Ok_eq ->. split; [done|]. by intros (c & ?%elem_of_nil & _). }
  intros ([[st a] b] & He & Hs)%bind_Ok Hb.
  assert (operative trust policy cosig c ↔ st ≠ Invalid ∧ policy_operative policy a b = true)
    as Hc.
  { unfold operative. rewrite He. split; [|naive_solver]. by intros (? & ? & ? & [= -> -> ->] & ?). }
  setoid_rewrite elem_of_cons.
  case_bool_decide as Hi; [|destruct (policy_operative policy a b) eqn:Hp].
  - rewrite (IH _ Hs Hb). naive_solver.
  - apply Ok_eq in Hs as <-. destruct b; naive_solver.
  - rewrite (IH _ Hs) by by apply max_status_reason. naive_solver.
Qed.

(** An event claims the hash removed, operatively. *)
Definition removed_by (events : list ShoreEvent) (h : string) (trust : TrustSet)
    (policy : RemovalPolicy) (cosig : CosignatureIndex) : Prop :=
  ∃ e, e ∈ events ∧ claimed_hash e = Some h ∧
    operative trust policy cosig {| rc_content_hash := h; rc_event := e |}.

Lemma suppress_exact events p h trust policy cosig b :
  removal_from_events events = Ok p → is_operative_suppress p h trust policy cosig = Ok b →
  b = true ↔ removed_by events h trust policy cosig.
Proof.
  intros Hp (status & Hs & <-%Ok_eq)%bind_Ok.
  assert (removed_by events h trust policy cosig ↔
    ∃ c, c ∈ claims_for events h ∧ operative trust policy cosig c) as ->.
  { unfold removed_by. setoid_rewrite elem_of_claims_for. naive_solver. }
  unfold operative_status in Hs. rewrite (removal_claims events p h Hp) in Hs.
  destruct (claims_for events h) as [|c l] eqn:Hl.
  - apply Ok_eq in Hs as <-. split; [done|]. by intros (c & ?%elem_of_nil & _).
  - by apply strongest_exact with (best := ClaimInvalid).
Qed.
End operative.

(** ** Operations that leave a view of the store *)

Section keeps.
Context {S V : Type} (view : S → V).

(** The operation does not change the view. *)
Definition keeps {A} (m : io S A) : Prop := ∀ s, view (m s).2 = view s.

Lemma keeps_pure {A} (r : result A) : keeps (pure_io r).
Proof. done. Qed.

Lemma keeps_bind {A B} (m : io S A) (f : A → io S B) :
  keeps m → (∀ a, keeps (f a)) → keeps (let! a := m in f a).
Proof.
  intros Hm Hf s. unfold io_bind. specialize (Hm s). destruct (m s) as [[a|e] s1]; [|done].
  cbn in Hm. rewrite <- Hm. apply Hf.
Qed.

Lemma keeps_listing `{Digest} `{JsonReader} `{Primitives} `{Journal S} :
  (∀ key, keeps (event_exists key)) → keeps list_event_entries → keeps list_events.
Proof.
  intros Hx Hl. unfold list_events, list_events_untracked, event_entries_for_current_product,
    record_exists, inspect_journal_records, list_record_entries.
  repeat (apply keeps_bind; [|intros ?]); try apply keeps_pure; [apply Hx|].
  destruct (negb _); [apply Hl|].
  repeat (apply keeps_bind; [|intros ?]); try apply keeps_pure. apply Hl.
Qed.
End keeps.

(** ** The sweep *)

(** Reading the journal changes no blob. *)
Class JournalBlobLaws (S : Type) `{Journal S} `{ContentView S} : Prop := {
  blob_exists_law key (s : S) : stored_blobs (event_exists key s).2 = stored_blobs s;
  blob_entries_law (s : S) : stored_blobs (list_event_entries s).2 = stored_blobs s
}.

#[export] Existing Instance Memory.InMemoryJournal.
#[export] Instance InMemoryJournalBlobLaws `{Digest} : JournalBlobLaws Memory.InMemoryStore.
Proof. done. Qed.

Section sweep.
Context `{Digest} `{JsonReader} `{Primitives} `{Decoders}.
Context `{!Serialize DiffFile} `{!Deserialize DiffFile}.
Context {S : Type} `{Journal S} `{ContentStore S} `{!ContentView S} `{!ContentLaws S}.
Context `{!JournalBlobLaws S}.

Lemma keeps_list_events : keeps stored_blobs list_events.
Proof. apply keeps_listing; [intros key s; apply blob_exists_law|intros s; apply blob_entries_law]. Qed.

Context (options : CompactOptions) (removal : ArtifactRemovalProjection).
Context (cosig : CosignatureIndex).

(** The removal of the blob's content is erase-eligible and [bytes] are that content. *)
Definition erasable (blob : OnDiskBlob) (bytes : string) : Prop :=
  is_erase_eligible removal (ob_content_hash blob) (co_trust_set options) cosig = Ok true ∧
  blob_content_matches_claim blob bytes = true.

(** The content is claimed removed and eligible as far as that evaluates, and [bytes] are
    that content. *)
Definition owed (blob : OnDiskBlob) (bytes : string) : Prop :=
  is_removed removal (ob_content_hash blob) = true ∧
  is_erase_eligible removal (ob_content_hash blob) (co_trust_set options) cosig ≠ Ok false ∧
  blob_content_matches_claim blob bytes = true.

(** One blob: at most that blob goes, and only when it is erasable; when the step
    succeeds outside a preview, a blob whose erasure is owed is gone. *)
Lemma sweep_blob_spec st blob s :
  let r := sweep_blob options removal cosig st blob s in
  (stored_blobs r.2 = stored_blobs s ∨
   co_dry_run options = false ∧
   stored_blobs r.2 = delete (ob_relative_path blob) (stored_blobs s) ∧
   ∃ bytes, stored_blobs s !! ob_relative_path blob = Some bytes ∧ erasable blob bytes) ∧
  (is_ok r.1 = true → co_dry_run options = false → ∀ bytes,
   stored_blobs s !! ob_relative_path blob = Some bytes → owed blob bytes →
   stored_blobs r.2 !! ob_relative_path blob = None).
Proof.
  unfold sweep_blob, erasable, owed. cbv zeta.
  destruct (is_removed removal (ob_content_hash blob)) eqn:Hr; cbn [negb].
  2:{ split; [by left|]. by intros _ _ bytes _ [? _]. }
  unfold io_bind, pure_io.
  destruct (is_erase_eligible _ _ _ _) as [[]|e]; cbn [negb]; cycle 1.
  - destruct (operative_status _ _ _ _ _); split; try (by left); by intros _ _ ? _ (_ & ? & _).
  - split; [by left|]. by intros [=].
  - pose proof (blob_read_law (ob_relative_path blob) s) as [Hk Hg].
    destruct (get_if_exists (ob_relative_path blob) s) as [[found|e] s1]; cbn [fst snd] in *;
      [|by split; [left|intros [=]]].
    specialize (Hg found eq_refl). subst found. rewrite <- Hk.
    destruct (stored_blobs s1 !! ob_relative_path blob) as [bytes|] eqn:Hb; [|by split; [left|]].
    destruct (blob_content_matches_claim blob bytes) eqn:Hm; cbn [negb]; cycle 1.
    { split; [by left|]. intros _ _ ? [= <-] (_ & _ & ?). congruence. }
    destruct (co_dry_run options) eqn:Hd; [by split; [left|intros _ [=]]|].
    pose proof (blob_remove_law (ob_relative_path blob) s1) as Hrm.
    destruct (remove (ob_relative_path blob) s1) as [[[]|e] s2]; cbn [fst snd] in *.
    + destruct Hrm as [_ ->]. split; [right; naive_solver|]. intros _ _ ? _ _. apply lookup_delete_eq.
    + destruct Hrm as [Hn _]. congruence.
    + by split; [left|intros [=]].
Qed.

(** The frame of a step: what it leaves, and why what it deletes is erasable. *)
Lemma sweep_blob_frame st blob s :
  let r := sweep_blob options removal cosig st blob s in
  stored_blobs r.2 ⊆ stored_blobs s ∧
  (co_dry_run options = true → stored_blobs r.2 = stored_blobs s) ∧
  ∀ ref bytes, stored_blobs s !! ref = Some bytes → stored_blobs r.2 !! ref = None →
    ob_relative_path blob = ref ∧ erasable blob bytes.
Proof.
  cbv zeta. destruct (sweep_blob_spec st blob s) as [Hs _].
  destruct (sweep_blob options removal cosig st blob s) as [r s1]. cbn [fst snd] in *.
  destruct Hs as [Heq|(Hd & Heq & b & Hb & He)]; rewrite Heq.
  { split_and!; [done|done|]. intros. congruence. }
  split_and!; [apply delete_subseteq|congruence|].
  intros ref bytes Hr [<-|Hn]%lookup_delete_None; [|congruence].
  rewrite Hr in Hb. apply (inj Some) in Hb as ->. done.
Qed.

Lemma sweep_spec blobs st s :
  let r := sweep options removal cosig st blobs s in
  stored_blobs r.2 ⊆ stored_blobs s ∧
  (co_dry_run options = true → stored_blobs r.2 = stored_blobs s) ∧
  (∀ ref bytes, stored_blobs s !! ref = Some bytes → stored_blobs r.2 !! ref = None →
    ∃ blob, blob ∈ blobs ∧ ob_relative_path blob = ref ∧ erasable blob bytes) ∧
  (is_ok r.1 = true → co_dry_run options = false → ∀ blob bytes, blob ∈ blobs →
    stored_blobs s !! ob_relative_path blob = Some bytes → owed blob bytes →
    stored_blobs r.2 !! ob_relative_path blob = None).
Proof.
  revert st s. induction blobs as [|blob blobs IH]; intros st s; cbn [sweep].
  { split_and!; [done|done| |].
    - cbn. intros ref bytes Hb Hn. congruence.
    - by intros _ _ ? ? ?%elem_of_nil. }
  pose proof (sweep_blob_spec st blob s) as [_ Hc].
  destruct (sweep_blob_frame st blob s) as (Hsub1 & Hdry1 & Hsafe1). unfold io_bind.
  destruct (sweep_blob options removal cosig st blob s) as [[st1|e] s1]; cbn [fst snd] in *.
  2:{ split_and!; [done|done| |by intros [=]].
      intros ref bytes Hb Hn. exists blob. split; [left|by apply Hsafe1]. }
  destruct (IH st1 s1) as (Hsub & Hdry & Hsafe & Hall). clear IH.
  assert (∀ ref bytes b1, stored_blobs s !! ref = Some bytes →
    stored_blobs s1 !! ref = Some b1 → b1 = bytes) as Hsame.
  { intros ref bytes b1 Hb Hs1. apply (lookup_weaken _ _ _ _ Hs1) in Hsub1. congruence. }
  split_and!.
  - by etrans.
  - intros Hd. rewrite Hdry, Hdry1 by done. done.
  - intros ref bytes Hb Hn. destruct (stored_blobs s1 !! ref) as [b1|] eqn:Hs1.
    + pose proof (Hsame _ _ _ Hb Hs1) as ->.
      destruct (Hsafe ref bytes Hs1 Hn) as (b & ? & ?). exists b. split; [by right|done].
    + exists blob. split; [left|by apply Hsafe1].
  - intros Hok Hd b bytes Hin Hb He.
    destruct (stored_blobs s1 !! ob_relative_path b) as [b1|] eqn:Hs1.
    + pose proof (Hsame _ _ _ Hb Hs1) as ->.
      apply elem_of_cons in Hin as [->|Hin]; [|by eapply Hall].
      by rewrite (Hc eq_refl Hd bytes Hb He) in Hs1.
    + by eapply lookup_weaken_None.
Qed.
End sweep.

(** ** Accounting *)

(** The bytes a store holds. *)
Definition stored_bytes (m : gmap string string) : Z :=
  map_fold (λ _ bytes n, (Z.of_nat (String.length bytes) + n)%Z) 0%Z m.

Lemma stored_bytes_delete m ref bytes : m !! ref = Some bytes →
  (stored_bytes m = Z.of_nat (String.length bytes) + stored_bytes (delete ref m))%Z.
Proof.
  intros Hb. unfold stored_bytes.
  apply (map_fold_delete_L (λ _ b n, (Z.of_nat (String.length b) + n)%Z)); [lia|done].
Qed.

Section accounting.
Context `{Digest} `{JsonReader} `{Primitives} `{Decoders}.
Context `{!Serialize DiffFile} `{!Deserialize DiffFile}.
Context {S : Type} `{Journal S} `{ContentStore S} `{!ContentView S} `{!ContentLaws S}.
Context `{!JournalBlobLaws S}.
Context (options : CompactOptions) (removal : ArtifactRemovalProjection).
Context (cosig : CosignatureIndex).

(** The count moves by what left the store. *)
Definition counted (n n' : Z) (m m' : gmap string string) : Prop :=
  (n' = (n + (stored_bytes m - stored_bytes m')) mod 2 ^ 64)%Z.

Lemma counted_refl n m : (0 ≤ n < 2 ^ 64)%Z → counted n n m m.
Proof. intros Hn. unfold counted. rewrite Z.sub_diag, Z.add_0_r, Z.mod_small; lia. Qed.

Lemma counted_trans n1 n2 n3 m1 m2 m3 :
  counted n1 n2 m1 m2 → counted n2 n3 m2 m3 → counted n1 n3 m1 m3.
Proof.
  unfold counted. intros -> ->. rewrite Zplus_mod_idemp_l. f_equal. lia.
Qed.

Lemma sweep_blob_counted st blob s st' :
  (0 ≤ sw_bytes_reclaimed st < 2 ^ 64)%Z →
  (sweep_blob options removal cosig st blob s).1 = Ok st' →
  counted (sw_bytes_reclaimed st) (sw_bytes_reclaimed st') (stored_blobs s)
    (stored_blobs (sweep_blob options removal cosig st blob s).2).
Proof.
  intros Hn. unfold sweep_blob. cbv zeta.
  assert (∀ o, counted (sw_bytes_reclaimed st) (sw_bytes_reclaimed (swept st blob o 0))
    (stored_blobs s) (stored_blobs s)) as Hz.
  { intros o. unfold counted. cbn [swept sw_bytes_reclaimed]. by rewrite Z.sub_diag. }
  destruct (is_removed _ _); cbn [negb]; [|intros <-%Ok_eq; by apply counted_refl].
  unfold io_bind, pure_io.
  destruct (is_erase_eligible _ _ _ _) as [[]|e]; cbn [negb]; [| |done]; cycle 1.
  { destruct (operative_status _ _ _ _ _); [|done]. intros <-%Ok_eq. by apply counted_refl. }
  pose proof (blob_read_law (ob_relative_path blob) s) as [Hk Hg].
  destruct (get_if_exists (ob_relative_path blob) s) as [[found|e] s1]; cbn [fst snd] in *; [|done].
  specialize (Hg found eq_refl). subst found. rewrite <- Hk in *.
  destruct (stored_blobs s1 !! ob_relative_path blob) as [bytes|] eqn:Hb;
    [|intros <-%Ok_eq; apply Hz].
  destruct (blob_content_matches_claim blob bytes); cbn [negb]; [|intros <-%Ok_eq; apply Hz].
  destruct (co_dry_run options); [intros <-%Ok_eq; apply Hz|].
  pose proof (blob_remove_law (ob_relative_path blob) s1) as Hrm.
  destruct (remove (ob_relative_path blob) s1) as [[[]|e] s2]; cbn [fst snd] in *; [| |done].
  - intros <-%Ok_eq. destruct Hrm as [_ ->]. unfold counted. cbn [swept sw_bytes_reclaimed].
    rewrite (stored_bytes_delete _ _ _ Hb). f_equal. lia.
  - intros <-%Ok_eq. destruct Hrm as [_ ->]. apply Hz.
Qed.

Lemma counted_range n n' m m' : counted n n' m m' → (0 ≤ n' < 2 ^ 64)%Z.
Proof. unfold counted. intros ->. apply Z.mod_pos_bound. lia. Qed.

Lemma sweep_counted blobs st s st' :
  (0 ≤ sw_bytes_reclaimed st < 2 ^ 64)%Z →
  (sweep options removal cosig st blobs s).1 = Ok st' →
  counted (sw_bytes_reclaimed st) (sw_bytes_reclaimed st') (stored_blobs s)
    (stored_blobs (sweep options removal cosig st blobs s).2).
Proof.
  revert st s. induction blobs as [|blob blobs IH]; intros st s Hn; cbn [sweep].
  { intros <-%Ok_eq. by apply counted_refl. }
  pose proof (sweep_blob_counted st blob s) as Hc. unfold io_bind.
  destruct (sweep_blob options removal cosig st blob s) as [[st1|e] s1]; cbn [fst snd] in *; [|done].
  specialize (Hc st1 Hn eq_refl). intros Hs.
  eapply counted_trans; [done|]. apply IH; [by eapply counted_range|done].
Qed.
End accounting.

(** ** The whole sweep *)

Section compaction.
Context `{Digest} `{JsonReader} `{Primitives} `{Decoders}.
Context `{!Serialize DiffFile} `{!Deserialize DiffFile}.
Context {S : Type} `{Journal S} `{ContentStore S} `{!ContentView S} `{!ContentLaws S}.
Context `{!JournalBlobLaws S}.

(** The content hash the events and its name give a file of the store. *)
Definition names_content (events : list ShoreEvent) (ref h : string) : Prop :=
  (Memory.is_immediate_child ref "artifacts/objects" = true ∧
   ∃ hashes legacy, object_content_hashes events = Ok hashes ∧
     snapshot_content_hash_by_file_stem events = Ok legacy ∧
     object_blob_hash hashes legacy ref = Some h) ∨
  (Memory.is_immediate_child ref "artifacts/notes" = true ∧
   note_body_content_hash_from_path ref = Ok h).

(** The bytes are a document of the content. *)
Definition holds_content (ref bytes h : string) : Prop :=
  if starts_with "artifacts/objects/" ref then
    ∃ artifact, decode_and_validate_object_artifact bytes = Ok artifact ∧ oa_content_hash artifact = h
  else
    note_body_content_hash_from_path ref = Ok h ∧
    ∃ body, parse_note_body_artifact bytes = Ok body ∧ "sha256:" +:+ sha256_bytes_hex (nb_body body) = h.

Lemma matches_claim ref bytes h :
  blob_content_matches_claim {| ob_relative_path := ref; ob_content_hash := h |} bytes = true ↔
  holds_content ref bytes h.
Proof.
  unfold blob_content_matches_claim, holds_content. cbn [ob_relative_path ob_content_hash].
  destruct (starts_with _ ref).
  - destruct (decode_and_validate_object_artifact bytes) as [a|e].
    + rewrite String.eqb_eq. split; [by exists a|]. by intros (? & <-%Ok_eq & ?).
    + split; [done|]. by intros (? & ? & _).
  - unfold validate_note_body_artifact_bytes.
    destruct (note_body_content_hash_from_path ref) as [h'|e]; cbn [rbind]; [|naive_solver].
    destruct (String.eqb_spec h' h) as [->|Hne]; cbn [negb];
      [|split; [done|]; by intros [?%Ok_eq _]].
    destruct (parse_note_body_artifact bytes) as [b|e]; cbn [rbind];
      [|split; [done|]; by intros (_ & ? & ? & _)].
    destruct (String.eqb_spec ("sha256:" +:+ sha256_bytes_hex (nb_body b)) h) as [E|Hne];
      cbn [negb is_ok].
    + split; [|done]. intros _. split; [done|]. by exists b.
    + split; [done|]. by intros (_ & ? & <-%Ok_eq & ?).
Qed.

Lemma on_disk_spec events s :
  stored_blobs (on_disk_blobs events s).2 = stored_blobs s ∧
  ∀ blobs, (on_disk_blobs events s).1 = Ok blobs → ∀ ref h,
    {| ob_relative_path := ref; ob_content_hash := h |} ∈ blobs ↔
    is_Some (stored_blobs s !! ref) ∧ names_content events ref h.
Proof.
  unfold on_disk_blobs, io_bind, pure_io, names_content.
  destruct (object_content_hashes events) as [hashes|e]; [|done].
  destruct (snapshot_content_hash_by_file_stem events) as [legacy|e]; [|done].
  pose proof (blob_list_law "artifacts/objects" s) as [Hk1 Hl1].
  destruct (list_refs "artifacts/objects" s) as [[objects|e] s1]; cbn [fst snd] in *; [|done].
  pose proof (blob_list_law "artifacts/notes" s1) as [Hk2 Hl2].
  destruct (list_refs "artifacts/notes" s1) as [[notes|e] s2]; cbn [fst snd] in *;
    [|by rewrite Hk2].
  destruct (Hl1 _ eq_refl) as [_ Ho]. destruct (Hl2 _ eq_refl) as [_ Hn]. rewrite Hk1 in Hk2, Hn.
  destruct (mapM _ notes) as [note_blobs|e] eqn:Hm; cbn [fst snd]; [|done].
  split; [done|]. intros blobs <-%Ok_eq ref h. apply mapM_Ok in Hm.
  rewrite elem_of_app, list_elem_of_omap.
  assert ({| ob_relative_path := ref; ob_content_hash := h |} ∈ note_blobs ↔
    ref ∈ notes ∧ note_body_content_hash_from_path ref = Ok h) as ->.
  { clear Hn Hl2. induction Hm as [|path b notes note_blobs Hp Hm IH]; [set_solver|].
    apply bind_Ok in Hp as (h' & Hp & <-%Ok_eq). rewrite !elem_of_cons, IH. split.
    - intros [[= -> ->]|]; naive_solver.
    - intros [[->|Hin] Hh]; [|by right]. rewrite Hp in Hh. apply Ok_eq in Hh as ->. by left. }
  rewrite Hn. split.
  - intros [(path & [Hs Hc]%Ho & (h' & Hh & [= -> ->])%bind_Some)|[[Hs Hc] Hh]].
    + split; [done|]. left. split; [done|]. by exists hashes, legacy.
    + split; [done|]. by right.
  - intros [Hs [[Hc (? & ? & <-%Ok_eq & <-%Ok_eq & Hh)]|[Hc Hh]]]; [left|by right].
    exists ref. rewrite Ho. split; [done|]. by rewrite Hh.
Qed.

(** The content of the file is operatively removed under the fixed erase rule. *)
Definition erasure_due (events : list ShoreEvent) (trust : TrustSet) (ref bytes : string) : Prop :=
  ∃ h cosig, names_content events ref h ∧ build_index events = Ok cosig ∧
    removed_by events h trust PossessionOrTrusted cosig ∧ holds_content ref bytes h.

Lemma compact_runs options s events p cosig :
  (list_events s).1 = Ok events → removal_from_events events = Ok p →
  build_index events = Ok cosig →
  ∃ s1, stored_blobs s1 = stored_blobs s ∧
    compact_store options s = (let! blobs := on_disk_blobs events in
      let! st := sweep options p cosig
        {| sw_swept := []; sw_bytes_reclaimed := 0; sw_skipped := [] |} blobs in
      pure_io (Ok {| cp_swept := sw_swept st; cp_bytes_reclaimed := sw_bytes_reclaimed st;
        cp_dry_run := co_dry_run options; cp_skipped_ineligible := sw_skipped st |})) s1.
Proof.
  intros Hl Hp Hc. exists (list_events s).2. split; [apply keeps_list_events|].
  unfold compact_store. unfold io_bind at 1. destruct (list_events s) as [r s1]. cbn in Hl.
  subst r. unfold io_bind at 1, pure_io at 1. rewrite Hp.
  unfold io_bind at 1, pure_io at 1. by rewrite Hc.
Qed.

Lemma compact_stops options s :
  (∃ events p cosig, (list_events s).1 = Ok events ∧ removal_from_events events = Ok p ∧
    build_index events = Ok cosig) ∨
  is_ok (compact_store options s).1 = false ∧
  stored_blobs (compact_store options s).2 = stored_blobs s.
Proof.
  pose proof (keeps_list_events s) as Hk. unfold compact_store.
  set (k := λ events : list ShoreEvent, _). unfold io_bind.
  destruct (list_events s) as [[events|e] s1]; cbn [fst snd] in *; [|by right].
  destruct (removal_from_events events) as [p|e] eqn:Hp; [|by right].
  destruct (build_index events) as [cosig|e] eqn:Hc; [|by right].
  left. by exists events, p, cosig.
Qed.

Lemma erasable_due options events p cosig ref h bytes :
  removal_from_events events = Ok p →
  erasable options p cosig {| ob_relative_path := ref; ob_content_hash := h |} bytes →
  removed_by events h (co_trust_set options) PossessionOrTrusted cosig ∧ holds_content ref bytes h.
Proof.
  intros Hp [He Hm]. split; [|by apply matches_claim]. by apply (suppress_exact _ _ _ _ _ _ _ Hp He).
Qed.

Lemma due_owed options events p cosig ref h bytes :
  removal_from_events events = Ok p →
  removed_by events h (co_trust_set options) PossessionOrTrusted cosig →
  holds_content ref bytes h →
  owed options p cosig {| ob_relative_path := ref; ob_content_hash := h |} bytes.
Proof.
  intros Hp Hr Hh. split_and!; [| |by apply matches_claim].
  - unfold is_removed. apply bool_decide_eq_true_2. cbn [ob_content_hash].
    rewrite (removal_claims events p h Hp). destruct Hr as (e & He & Hc & _).
    destruct (claims_for events h) eqn:Hl; [|done].
    assert ({| rc_content_hash := h; rc_event := e |} ∈ claims_for events h) as Hin.
    { apply elem_of_claims_for. by exists e. }
    rewrite Hl in Hin. by apply elem_of_nil in Hin.
  - intros He. by apply (suppress_exact _ _ _ _ _ _ _ Hp He) in Hr.
Qed.

(** The sweep by the enumeration of the blobs. *)
Lemma compact_frame options s events p cosig :
  (list_events s).1 = Ok events → removal_from_events events = Ok p →
  build_index events = Ok cosig →
  let r := compact_store options s in
  stored_blobs r.2 ⊆ stored_blobs s ∧
  (co_dry_run options = true → stored_blobs r.2 = stored_blobs s) ∧
  (∀ ref bytes, stored_blobs s !! ref = Some bytes → stored_blobs r.2 !! ref = None →
    ∃ h, names_content events ref h ∧
      erasable options p cosig {| ob_relative_path := ref; ob_content_hash := h |} bytes) ∧
  (is_ok r.1 = true → co_dry_run options = false → ∀ ref bytes h,
    stored_blobs s !! ref = Some bytes → names_content events ref h →
    owed options p cosig {| ob_relative_path := ref; ob_content_hash := h |} bytes →
    stored_blobs r.2 !! ref = None).
Proof.
  intros Hl Hp Hc. cbv zeta.
  destruct (compact_runs options s events p cosig Hl Hp Hc) as (s1 & <- & ->).
  destruct (on_disk_spec events s1) as [Hk Hd]. unfold io_bind.
  destruct (on_disk_blobs events s1) as [[blobs|e] s2]; cbn [fst snd] in *.
  2:{ rewrite Hk. split_and!; [done|done|congruence|by intros [=]]. }
  specialize (Hd blobs eq_refl). rewrite <- Hk in *.
  destruct (sweep_spec options p cosig blobs {| sw_swept := []; sw_bytes_reclaimed := 0;
    sw_skipped := [] |} s2) as (Hsub & Hdry & Hsafe & Hall).
  destruct (sweep _ _ _ _ blobs s2) as [st s3]. cbn [fst snd] in *.
  assert (∀ ref bytes, stored_blobs s2 !! ref = Some bytes → stored_blobs s3 !! ref = None →
    ∃ h, names_content events ref h ∧
      erasable options p cosig {| ob_relative_path := ref; ob_content_hash := h |} bytes) as Hsafe'.
  { intros ref bytes Hb Hn. destruct (Hsafe ref bytes Hb Hn) as ([path h] & Hin & Hr & He).
    cbn [ob_relative_path] in Hr. subst path. apply Hd in Hin as [_ Hnm]. by exists h. }
  destruct st as [st|e]; cbn [fst snd pure_io is_ok] in *; split_and!; try done.
  intros _ Hdr ref bytes h Hb Hnm Ho.
  assert ({| ob_relative_path := ref; ob_content_hash := h |} ∈ blobs) as Hin by (by apply Hd).
  exact (Hall eq_refl Hdr _ bytes Hin Hb Ho).
Qed.

(** C6. The sweep deletes exactly what is due.  Whether it succeeds or stops at an error,
    no blob is added or altered, a preview deletes nothing, and every deleted blob was due
    for erasure: an event of the log claims its content removed, that claim's own signature
    does not verify invalid, it was recorded here or is backed by a trusted key, and the
    bytes deleted decoded to that very content.  A sweep that succeeds outside a preview
    leaves no blob that was due.  The render policy of the reader is no input. *)
Theorem compaction_exact options s :
  let r := compact_store options s in
  stored_blobs r.2 ⊆ stored_blobs s ∧
  (co_dry_run options = true → stored_blobs r.2 = stored_blobs s) ∧
  (∀ ref bytes, stored_blobs s !! ref = Some bytes → stored_blobs r.2 !! ref = None →
    ∃ events, (list_events s).1 = Ok events ∧
      erasure_due events (co_trust_set options) ref bytes) ∧
  (is_ok r.1 = true → co_dry_run options = false → ∃ events, (list_events s).1 = Ok events ∧
    ∀ ref bytes, stored_blobs s !! ref = Some bytes →
      erasure_due events (co_trust_set options) ref bytes → stored_blobs r.2 !! ref = None).
Proof.
  cbv zeta. destruct (compact_stops options s) as [(events & p & cosig & Hl & Hp & Hc)|[Hf ->]].
  2:{ rewrite Hf. split_and!; [done|done|congruence|done]. }
  destruct (compact_frame options s events p cosig Hl Hp Hc) as (Hsub & Hdry & Hsafe & Hall).
  split_and!; [done|done| |].
  - intros ref bytes Hb Hn. destruct (Hsafe ref bytes Hb Hn) as (h & Hnm & He).
    exists events. split; [done|]. exists h, cosig. split_and!; [done|done|..];
      by destruct (erasable_due options events p cosig ref h bytes Hp He).
  - intros Hok Hd. exists events. split; [done|].
    intros ref bytes Hb (h & cosig' & Hnm & Hc' & Hrb & Hh).
    rewrite Hc in Hc'. apply Ok_eq in Hc' as <-.
    apply (Hall Hok Hd ref bytes h Hb Hnm). by eapply due_owed.
Qed.

(** The bytes a sweep reports are the bytes that left the store, modulo 2^64, and none
    under a preview. *)
Theorem reclaimed_bytes_exact options s result
    (Hok : (compact_store options s).1 = Ok result) :
  cp_dry_run result = co_dry_run options ∧
  (cp_bytes_reclaimed result = (stored_bytes (stored_blobs s) -
    stored_bytes (stored_blobs (compact_store options s).2)) mod 2 ^ 64)%Z ∧
  (co_dry_run options = true → cp_bytes_reclaimed result = 0%Z).
Proof.
  destruct (compact_stops options s) as [(events & p & cosig & Hl & Hp & Hc)|[Hf _]].
  2:{ by rewrite Hok in Hf. }
  destruct (compact_runs options s events p cosig Hl Hp Hc) as (s1 & <- & Hr).
  rewrite Hr in Hok |- *. clear Hr. destruct (on_disk_spec events s1) as [Hk _]. unfold io_bind in *.
  destruct (on_disk_blobs events s1) as [[blobs|e] s2]; cbn [fst snd] in *; [|done].
  rewrite <- Hk. set (st0 := {| sw_swept := []; sw_bytes_reclaimed := 0; sw_skipped := [] |}) in *.
  pose proof (sweep_counted options p cosig blobs st0 s2) as Hcnt.
  destruct (sweep_spec options p cosig blobs st0 s2) as (_ & Hdry & _ & _).
  destruct (sweep _ _ _ _ blobs s2) as [[st|e] s3]; cbn [fst snd pure_io] in *; [|done].
  apply Ok_eq in Hok as <-. cbn [cp_dry_run cp_bytes_reclaimed].
  assert (sw_bytes_reclaimed st = ((stored_bytes (stored_blobs s2) -
    stored_bytes (stored_blobs s3)) mod 2 ^ 64)%Z) as Heq by (apply Hcnt; [cbn; lia|done]).
  split_and!; [done|done|]. intros Hd. by rewrite Heq, Hdry, Z.sub_diag.
Qed.
End compaction.

(** ** What the policies decide *)

Section policies.
Context `{Digest} `{JsonReader} `{Primitives}.

(** A carrier of the log makes a trusted endorsement of the event. *)
Definition endorsed (events : list ShoreEvent) (trust : TrustSet) (e : ShoreEvent) : Prop :=
  ∃ carrier m actor, carrier ∈ events ∧
    (inline_of e trust).1 ≠ Some (ev_idempotency_key carrier) ∧
    member_from e trust carrier m ∧ cm_classification m = EndorsementTrusted actor.

(** The reader trusts the claim: by its own signature or by an endorsement. *)
Definition trusts (events : list ShoreEvent) (trust : TrustSet) (e : ShoreEvent) : Prop :=
  verify_event_signature e trust = Ok Valid ∨ endorsed events trust e.

(** The claim takes effect under a policy: its signature does not verify invalid, and it
    was recorded by this store, where the policy counts possession, or is trusted. *)
Definition takes_effect (events : list ShoreEvent) (trust : TrustSet) (policy : RemovalPolicy)
    (e : ShoreEvent) : Prop :=
  verify_event_signature e trust ≠ Ok Invalid ∧
  match policy with
  | RemovalAdvisory => False
  | PossessionOrTrusted => ev_ingest e = None ∨ trusts events trust e
  | TrustedStrict => trusts events trust e
  end.

Lemma evaluate_exact events cosig trust c :
  build_index events = Ok cosig → NoDup (ev_idempotency_key <$> events) → ∃ st b,
  verify_event_signature (rc_event c) trust = Ok st ∧
  evaluate c trust cosig = Ok (st, negb (bool_decide (is_Some (ev_ingest (rc_event c)))), b) ∧
  (b = true ↔ trusts events trust (rc_event c)).
Proof.
  intros Hi Hnd. set (e := rc_event c).
  assert (∃ st, verify_event_signature e trust = Ok st) as [st Hst].
  { rewrite verify_event_signature_spec. repeat case_match; eauto. }
  exists st. unfold evaluate, trusts. fold e. rewrite Hst. cbn [rbind].
  case_bool_decide as Hv; [subst st; exists true; naive_solver|].
  destruct (cosignatures_spec events cosig e trust Hi Hnd) as (d & -> & Hd). cbn [rbind].
  eexists. split_and!; [done|done|]. unfold has_trusted_endorsement. cbn [cs_members].
  rewrite existsb_exists. split.
  - intros (m & Hm%list_elem_of_In & Hcl). right.
    destruct (cm_classification m) as [|actor|] eqn:E; [done| |done].
    apply elem_of_app in Hm as [Hm|Hm].
    + destruct (inline_of e trust).2 as [m'|] eqn:Hin; [|by apply elem_of_nil in Hm].
      apply list_elem_of_singleton in Hm as ->. apply inline_authoring in Hin. congruence.
    + unfold map_values in Hm. apply list_elem_of_fmap in Hm as ([k m'] & -> & Hm%elem_of_iter_map).
      apply Hd in Hm as (carrier & ? & <- & ? & ?). by exists carrier, m', actor.
  - intros [?|(carrier & m & actor & Hc & Hne & Hm & Hcl)]; [congruence|].
    exists m. rewrite Hcl. split; [|done]. apply list_elem_of_In, elem_of_app. right.
    unfold map_values. apply list_elem_of_fmap. exists (ev_idempotency_key carrier, m).
    split; [done|]. apply elem_of_iter_map, Hd. by exists carrier.
Qed.

Lemma operative_effect events cosig trust policy c :
  build_index events = Ok cosig → NoDup (ev_idempotency_key <$> events) →
  operative trust policy cosig c ↔ takes_effect events trust policy (rc_event c).
Proof.
  intros Hi Hnd. destruct (evaluate_exact events cosig trust c Hi Hnd) as (st & b & Hst & He & Hb).
  unfold operative, takes_effect. rewrite He, Hst.
  assert (negb (bool_decide (is_Some (ev_ingest (rc_event c)))) = true ↔ ev_ingest (rc_event c) = None)
    as Ha by (rewrite negb_true_iff, bool_decide_eq_false; symmetry; apply eq_None_not_Some).
  split.
  - intros (st' & a & b' & [= <- <- <-] & Hne & Hp). split; [congruence|].
    destruct policy; cbn in Hp; [done|apply orb_true_iff in Hp as [?%Ha|?%Hb]; auto|by apply Hb].
  - intros [Hne Hp]. do 3 eexists. split; [done|]. split; [congruence|].
    destruct policy; cbn; [done| |by apply Hb]. apply orb_true_iff. rewrite Ha, Hb. done.
Qed.

(** The events of the log that claim the hash removed. *)
Definition claims_removal (events : list ShoreEvent) (h : string) (e : ShoreEvent) : Prop :=
  e ∈ events ∧ claimed_hash e = Some h.

(** The reason of a removal without effect, over the verification of its claims. *)
Definition inoperative_reason (verified : EventVerificationStatus → Prop)
    (status : RemovalOperativeStatus) : Prop :=
  (verified Valid ∨ verified UntrustedKey → status = ClaimUntrusted) ∧
  (verified Unsigned → ¬ verified Valid → ¬ verified UntrustedKey → status = ClaimUnsigned) ∧
  (¬ verified Unsigned → ¬ verified Valid → ¬ verified UntrustedKey → status = ClaimInvalid).

Definition actionable (sts : list EventVerificationStatus) : RemovalOperativeStatus :=
  if existsb (λ st, match st with Valid | UntrustedKey => true | _ => false end) sts
  then ClaimUntrusted
  else if existsb (λ st, match st with Unsigned => true | _ => false end) sts
  then ClaimUnsigned else ClaimInvalid.

Lemma actionable_reason sts : inoperative_reason (λ v, v ∈ sts) (actionable sts).
Proof.
  unfold inoperative_reason, actionable.
  destruct (existsb _ sts) eqn:E1; [apply existsb_exists in E1 as (v & Hv%list_elem_of_In & ?)|].
  { split_and!; intros; [done|destruct v; done..]. }
  assert (Valid ∉ sts ∧ UntrustedKey ∉ sts) as [Hv Hu].
  { split; intros Hin%list_elem_of_In; apply not_true_iff_false in E1; apply E1, existsb_exists; eauto. }
  destruct (existsb (λ st, match st with Unsigned => true | _ => false end) sts) eqn:E2.
  - apply existsb_exists in E2 as (v & Hin%list_elem_of_In & ?). split_and!; intros; [tauto|done|].
    destruct v; done.
  - split_and!; intros; [tauto| |done]. apply not_true_iff_false in E2. destruct E2.
    apply existsb_exists. exists Unsigned. by rewrite <- list_elem_of_In.
Qed.

Lemma actionable_snoc pre st :
  actionable (pre ++ [st]) =
    if bool_decide (st = Invalid) then actionable pre else max_status (actionable pre) (claim_reason st).
Proof.
  unfold actionable. rewrite !existsb_app.
  by destruct (existsb _ pre), (existsb _ pre), st.
Qed.

(** The loop over the claims, where the index is of the log. *)
Lemma strongest_spec events cosig trust policy claims pre :
  build_index events = Ok cosig → NoDup (ev_idempotency_key <$> events) → ∃ status sts,
  strongest_claim claims trust policy cosig (actionable pre) = Ok status ∧
  Forall2 (λ c st, verify_event_signature (rc_event c) trust = Ok st) claims sts ∧
  (status = OperativeTrusted ∧ (∃ c, c ∈ claims ∧ takes_effect events trust policy (rc_event c) ∧
     trusts events trust (rc_event c)) ∨
   status = OperativePossession ∧ (∃ c, c ∈ claims ∧ takes_effect events trust policy (rc_event c) ∧
     ¬ trusts events trust (rc_event c)) ∨
   status = actionable (pre ++ sts)).
Proof.
  intros Hi Hnd. revert pre. induction claims as [|c claims IH]; intros pre; cbn [strongest_claim].
  { exists (actionable pre), []. rewrite app_nil_r. split_and!; [done|constructor|auto]. }
  destruct (evaluate_exact events cosig trust c Hi Hnd) as (st & b & Hst & He & Hb).
  pose proof (operative_effect events cosig trust policy c Hi Hnd) as Heff.
  unfold operative in Heff. rewrite He in Heff |- *. cbn [rbind].
  destruct (IH (pre ++ [st])) as (status & sts & Hs & Hsts & Hcase).
  rewrite actionable_snoc, <- app_assoc in *.
  assert (∀ P : RemovalClaim → Prop, (∃ c, c ∈ claims ∧ P c) → ∃ c', c' ∈ c :: claims ∧ P c') as Hmono.
  { intros P (c' & ? & ?). exists c'. split; [by right|done]. }
  case_bool_decide as Hinv; [|destruct (policy_operative policy _ b) eqn:Hp].
  - exists status, (st :: sts). split_and!; [done|by constructor|]. naive_solver.
  - exists (if b then OperativeTrusted else OperativePossession), (st :: sts).
    split_and!; [done|by constructor|].
    assert (takes_effect events trust policy (rc_event c)) as Hc by (apply Heff; eauto 8).
    destruct b; [left|right; left]; (split; [done|]); exists c; split_and!;
      [by left|done|by apply Hb|by left|done|by rewrite <- Hb].
  - exists status, (st :: sts). split_and!; [done|by constructor|]. naive_solver.
Qed.

Lemma claimed_events (P : ShoreEvent → Prop) events h :
  (∃ c, c ∈ claims_for events h ∧ P (rc_event c)) ↔ ∃ e, claims_removal events h e ∧ P e.
Proof.
  unfold claims_removal. setoid_rewrite elem_of_claims_for. split.
  - intros (c & (e & He & Hh & ->) & Hc). by exists e.
  - intros (e & [He Hh] & Hc). eexists. split; [by exists e|done].
Qed.

Lemma no_claims events h : claims_for events h = [] ↔ ∀ e, ¬ claims_removal events h e.
Proof.
  pose proof (claimed_events (λ _, True) events h) as Hc. split.
  - intros E e He. rewrite E in Hc. destruct (proj2 Hc) as (c & Hn & _); [by exists e|].
    by apply elem_of_nil in Hn.
  - intros Hno. destruct (claims_for events h) as [|c l]; [done|].
    destruct (proj1 Hc) as (e & He & _); [exists c; by split; [left|]|]. by destruct (Hno e).
Qed.

Lemma reason_of_claims events h trust sts :
  Forall2 (λ c st, verify_event_signature (rc_event c) trust = Ok st) (claims_for events h) sts →
  inoperative_reason
    (λ v, ∃ e, claims_removal events h e ∧ verify_event_signature e trust = Ok v) (actionable sts).
Proof.
  intros Hsts.
  assert (∀ v, v ∈ sts ↔ ∃ e, claims_removal events h e ∧ verify_event_signature e trust = Ok v)
    as Hv.
  { intros v. rewrite <- (claimed_events (λ e, verify_event_signature e trust = Ok v)).
    induction Hsts as [|c st l sts Hc Hl IH].
    - split; [by intros ?%elem_of_nil|]. by intros (c & ?%elem_of_nil & _).
    - setoid_rewrite elem_of_cons. rewrite IH. split.
      + intros [->|(c' & ? & ?)]; [exists c|exists c']; split_and!; auto.
      + intros (c' & [->|?] & Hc'); [left; congruence|right; eauto]. }
  pose proof (actionable_reason sts) as Hr. unfold inoperative_reason in *. by rewrite !Hv in Hr.
Qed.

(** The status of a hash, where the index is of the log. *)
Lemma status_spec events p cosig h trust policy :
  removal_from_events events = Ok p → build_index events = Ok cosig →
  NoDup (ev_idempotency_key <$> events) → ∃ status,
  operative_status p h trust policy cosig = Ok status ∧
  (status = NoClaim ↔ ∀ e, ¬ claims_removal events h e) ∧
  (status = OperativeTrusted → ∃ e, claims_removal events h e ∧
    takes_effect events trust policy e ∧ trusts events trust e) ∧
  (status = OperativePossession → ∃ e, claims_removal events h e ∧
    takes_effect events trust policy e ∧ ¬ trusts events trust e) ∧
  (suppresses status = false → status ≠ NoClaim →
    inoperative_reason
      (λ v, ∃ e, claims_removal events h e ∧ verify_event_signature e trust = Ok v) status).
Proof.
  intros Hp Hi Hnd. unfold operative_status. rewrite (removal_claims events p h Hp).
  setoid_rewrite <- no_claims.
  destruct (strongest_spec events cosig trust policy (claims_for events h) [] Hi Hnd)
    as (status & sts & Hs & Hsts%reason_of_claims & Hcase).
  rewrite (claimed_events (λ e, takes_effect events trust policy e ∧ trusts events trust e)),
    (claimed_events (λ e, takes_effect events trust policy e ∧ ¬ trusts events trust e)) in Hcase.
  destruct (claims_for events h) as [|c l]; [by exists NoClaim|].
  exists status. split; [exact Hs|]. cbn [app] in Hcase.
  assert (actionable sts ≠ NoClaim ∧ suppresses (actionable sts) = false)
    by (unfold actionable; repeat case_match; done).
  destruct Hcase as [[-> ?]|[[-> ?]| ->]]; split_and!; try done; try tauto;
    by destruct (actionable sts); intuition.
Qed.

Lemma suppress_effect events p cosig h trust policy :
  removal_from_events events = Ok p → build_index events = Ok cosig →
  NoDup (ev_idempotency_key <$> events) → ∃ b,
  is_operative_suppress p h trust policy cosig = Ok b ∧
  (b = true ↔ ∃ e, claims_removal events h e ∧ takes_effect events trust policy e).
Proof.
  intros Hp Hc Hnd. destruct (status_spec events p cosig h trust policy Hp Hc Hnd) as (status & Hs & _).
  assert (is_operative_suppress p h trust policy cosig = Ok (suppresses status)) as Hb.
  { unfold is_operative_suppress. by rewrite Hs. }
  exists (suppresses status). split; [done|]. rewrite (suppress_exact _ _ _ _ _ _ _ Hp Hb).
  unfold removed_by, claims_removal. setoid_rewrite (operative_effect events cosig trust policy _ Hc Hnd).
  cbn [rc_event]. naive_solver.
Qed.

Lemma effect_perm events events' h trust policy : events ≡ₚ events' →
  (∃ e, claims_removal events h e ∧ takes_effect events trust policy e) ↔
  ∃ e, claims_removal events' h e ∧ takes_effect events' trust policy e.
Proof.
  intros Hperm. unfold claims_removal, takes_effect, trusts, endorsed.
  destruct policy; by setoid_rewrite Hperm.
Qed.

End policies.

(** ** Selections *)

Section selections.
Context `{Decoders} `{ReviewDecoders}.

(** An event of the revision refers to the content. *)
Definition names (events : list ShoreEvent) (unit h : string) : Prop :=
  ∃ e artifacts, e ∈ events ∧ event_subject_revision_id e = Ok (Some unit) ∧
    referenced_artifacts [e] = Ok artifacts ∧ h ∈ art_content_hash <$> artifacts.

Definition units_at (index : gmap string (gset string)) (h : string) : gset string :=
  default ∅ (index !! h).

Lemma extend_units artifacts unit index h u :
  u ∈ units_at (foldl (λ index a, entry_extend index (art_content_hash a) {[unit]})
    index artifacts) h ↔
  u ∈ units_at index h ∨ u = unit ∧ h ∈ art_content_hash <$> artifacts.
Proof.
  revert index. induction artifacts as [|a artifacts IH]; intros index; cbn [foldl].
  { rewrite fmap_nil, elem_of_nil. tauto. }
  rewrite IH, fmap_cons, elem_of_cons. unfold units_at. rewrite lookup_entry_extend.
  case_decide as E; [subst h|]; cbn; set_solver.
Qed.

Lemma unit_index_fold events index index' h u :
  try_fold unit_index_step index events = Ok index' →
  u ∈ units_at index' h ↔ u ∈ units_at index h ∨ names events u h.
Proof.
  revert index. induction events as [|e events IH]; intros index; cbn [try_fold].
  { intros <-%Ok_eq. split; [by left|]. by intros [|(? & ? & ?%elem_of_nil & _)]. }
  unfold unit_index_step at 1. intros (index1 & (subject & Hs & H1)%bind_Ok & Hf)%bind_Ok.
  rewrite (IH _ Hf). clear IH Hf. unfold names. setoid_rewrite elem_of_cons.
  destruct subject as [unit|].
  2:{ apply Ok_eq in H1 as <-. split.
      - intros [?|(e' & arts & ? & ?)]; [by left|]. right. exists e', arts. split; [by right|done].
      - intros [?|(e' & arts & [->|?] & Hs' & ?)]; [by left| |right; by exists e', arts].
        rewrite Hs in Hs'. by apply Ok_eq in Hs'. }
  apply bind_Ok in H1 as (artifacts & Ha & <-%Ok_eq). rewrite extend_units. split.
  - intros [[?|[-> ?]]|(e' & arts & ? & ?)]; [by left| |].
    + right. exists e, artifacts. split; [by left|done].
    + right. exists e', arts. split; [by right|done].
  - intros [?|(e' & arts & [->|?] & Hs' & Ha' & ?)]; [by left; left| |].
    + rewrite Hs in Hs'. apply Ok_eq in Hs'. injection Hs' as ->.
      rewrite Ha in Ha'. apply Ok_eq in Ha' as <-. by left; right.
    + right. by exists e', arts.
Qed.

Lemma index_exact events index h u : content_hash_unit_index events = Ok index →
  u ∈ units_at index h ↔ names events u h.
Proof.
  intros Hi. rewrite (unit_index_fold events ∅ index h u Hi). unfold units_at.
  rewrite lookup_empty. set_solver.
Qed.

Lemma selection_units events index units h : content_hash_unit_index events = Ok index →
  h ∈ rs_content_hashes (selection_for_units units index) ↔ ∃ u, u ∈ units ∧ names events u h.
Proof.
  intros Hi. cbn [selection_for_units rs_content_hashes].
  unfold set_of_list. rewrite elem_of_list_to_set, list_elem_of_In, List.filter_In, <- list_elem_of_In, elem_of_map_keys.
  setoid_rewrite <- (index_exact events index h _ Hi). unfold units_at.
  destruct (index !! h) as [X|]; cbn.
  - rewrite List.existsb_exists. split.
    + intros (_ & u & Hu%list_elem_of_In & Hd%bool_decide_eq_true_1). exists u.
      split; [done|]. by apply elem_of_iter_set.
    + intros (u & Hu & Hx). split; [by exists X|]. exists u.
      rewrite <- list_elem_of_In, elem_of_iter_set. by rewrite bool_decide_eq_true_2.
  - split; [by intros [[] _]|]. set_solver.
Qed.

Lemma co_referencing_exact events index units h u : content_hash_unit_index events = Ok index →
  u ∈ co_referencing_units index h units ↔ names events u h ∧ u ∉ units.
Proof.
  intros Hi. rewrite <- (index_exact events index h u Hi). unfold co_referencing_units, units_at.
  destruct (index !! h) as [X|]; cbn; [|set_solver].
  rewrite list_elem_of_In, List.filter_In, <- list_elem_of_In, elem_of_iter_set, negb_true_iff.
  by rewrite bool_decide_eq_false.
Qed.

Context `{Git} `{!CommitGraph} `{!GitLaws}.

(** No live ref reaches the commit, or its object is gone. *)
Definition off_graph (tips : list LiveTip) (oid : string) : Prop :=
  stored oid = false ∨ is_tip oid tips = false ∧ contained oid tips = false.

Lemma off_graph_condition tips oid :
  is_unreachable (condition tips None oid) = true ↔ off_graph tips oid.
Proof.
  unfold condition, off_graph.
  destruct (stored oid), (contained oid tips), (is_tip oid tips); cbn;
    (split; [intros [=]; first [by left|by right]|by intros [?|[? ?]]]).
Qed.

Lemma rows_cover k commits seen c : c ∈ commits → ce_commit_oid c ∉ seen →
  ∃ r, r ∈ rows k commits seen ∧ cl_commit_oid r = ce_commit_oid c ∧
    cl_condition r = k (ce_commit_oid c).
Proof.
  revert seen. induction commits as [|d commits IH]; intros seen; cbn [rows]; [by intros ?%elem_of_nil|].
  rewrite elem_of_cons. intros Hc Hs. case_bool_decide as Hd.
  { apply IH; [|done]. destruct Hc as [->|]; done. }
  destruct (decide (ce_commit_oid c = ce_commit_oid d)) as [E|E].
  { eexists. split; [left|]. cbn. by rewrite E. }
  destruct (IH ({[ce_commit_oid d]} ∪ seen)) as (r & Hr & ?); [naive_solver|set_solver|].
  exists r. split; [by right|done].
Qed.

Lemma rows_from k commits seen r : r ∈ rows k commits seen →
  ∃ c, c ∈ commits ∧ cl_condition r = k (ce_commit_oid c).
Proof.
  revert seen. induction commits as [|d commits IH]; intros seen; cbn [rows]; [by intros ?%elem_of_nil|].
  setoid_rewrite elem_of_cons. case_bool_decide; [|rewrite elem_of_cons; intros [->|Hr]].
  - intros (c & ? & ?)%IH. eauto.
  - exists d. split; [by left|done].
  - apply IH in Hr as (c & ? & ?). eauto.
Qed.

(** No commit is alive, so no two of them compete for the landing. *)
Lemma landing_dead view pc : Forall (λ r, is_unreachable (cl_condition r) = true) pc →
  ∃ found, landing view pc = Ok found.
Proof.
  intros Hdead.
  assert (∀ oid, is_alive (condition_of pc oid) = false) as Hal.
  { intros oid. unfold condition_of. destruct (List.find _ pc) as [r|] eqn:Hr; [|done].
    apply List.find_some in Hr as [Hr%list_elem_of_In _].
    rewrite Forall_forall in Hdead. apply Hdead in Hr. cbn. by destruct (cl_condition r). }
  unfold landing, landing_analysis. destruct (claims_from _ ∅) as [|claim claims]; [by eexists|].
  set (all := claim :: claims).
  assert (∀ f, (∀ c, f c = false) → List.filter f all = []) as Hnil.
  { clearbody all. intros f Hf. induction all as [|c l IH]; cbn; [done|]. by rewrite Hf. }
  rewrite Hnil by (intros c; apply Hal). cbn [io_bind pure_io fst snd fmap list_fmap].
  unfold independent.
  rewrite Hnil by (intros c; apply bool_decide_eq_false_2; unfold set_of_list; set_solver).
  by eexists.
Qed.

(** What [enrich_liveness] finds, for a unit with commits and the live tips known. *)
Lemma enriched_rows view tips c0 cs : live_tips = Ok tips → crv_current_commits view = c0 :: cs →
  without_labels <$> enrich_liveness view None =
    let per_commit := rows (condition tips None) (c0 :: cs) ∅ in
    let? found := landing view per_commit in
    Ok {| le_per_commit := per_commit; le_headline := found.1; le_ref_continuity := [];
          le_diagnostics := found.2 |}.
Proof.
  intros Ht Hcs. rewrite (enrich_liveness_spec view None tips None Ht eq_refl).
  unfold enrichment. by rewrite Hcs.
Qed.

Lemma unreachable_rows en pc : le_per_commit (without_labels en) = pc →
  forallb (λ r, is_unreachable (cl_condition r)) (le_per_commit en) =
    forallb (λ r, is_unreachable (cl_condition r)) pc.
Proof.
  intros <-. cbn [without_labels le_per_commit].
  induction (le_per_commit en) as [|r l IH]; [done|]. cbn. by rewrite IH.
Qed.

(** A unit is unreachable exactly when it has current commits and the live tips, which git
    must know, reach none of them. *)
Lemma unit_unreachable_exact view : unit_unreachable view = Ok true ↔
  crv_current_commits view ≠ [] ∧ ∃ tips, live_tips = Ok tips ∧
    ∀ c, c ∈ crv_current_commits view → off_graph tips (ce_commit_oid c).
Proof.
  unfold unit_unreachable. destruct (crv_current_commits view) as [|c0 cs] eqn:Hcs.
  { split; [done|by intros [? _]]. }
  split.
  - destruct (enrich_liveness view None) as [en|e] eqn:He; [|by destruct e].
    intros [_ Hall]%Ok_eq%andb_true_iff. split; [done|].
    assert (∃ tips, live_tips = Ok tips) as [tips Ht].
    { unfold enrich_liveness in He. rewrite Hcs in He. apply bind_Ok in He as (tips & ? & _). eauto. }
    exists tips. split; [done|]. intros c Hc.
    pose proof (enriched_rows view tips c0 cs Ht Hcs) as Hspec. rewrite He in Hspec.
    symmetry in Hspec. apply bind_Ok in Hspec as (found & _ & Hen%Ok_eq).
    apply (f_equal le_per_commit) in Hen. cbn [le_per_commit] in Hen.
    rewrite (unreachable_rows en _ (eq_sym Hen)) in Hall.
    destruct (rows_cover (condition tips None) (c0 :: cs) ∅ c Hc) as (r & Hr & _ & Hk); [set_solver|].
    apply off_graph_condition. rewrite <- Hk.
    rewrite List.forallb_forall in Hall. by apply Hall, list_elem_of_In.
  - intros (_ & tips & Ht & Hoff).
    pose proof (enriched_rows view tips c0 cs Ht Hcs) as Hspec. cbv zeta in Hspec.
    set (pc := rows (condition tips None) (c0 :: cs) ∅) in *.
    assert (Forall (λ r, is_unreachable (cl_condition r) = true) pc) as Hdead.
    { apply Forall_forall. intros r (c & Hc & ->)%rows_from. by apply off_graph_condition, Hoff. }
    destruct (landing_dead view pc Hdead) as [found Hf]. rewrite Hf in Hspec. cbn [rbind] in Hspec.
    destruct (enrich_liveness view None) as [en|e]; [|done]. apply Ok_eq in Hspec.
    apply (f_equal le_per_commit) in Hspec as Hpc. cbn [le_per_commit] in Hpc.
    rewrite (unreachable_rows en pc Hpc). f_equal. apply andb_true_iff. split.
    + destruct (rows_cover (condition tips None) (c0 :: cs) ∅ c0) as (r & Hr & _); [by left|set_solver|].
      fold pc in Hr. rewrite <- Hpc in Hr. cbn [without_labels le_per_commit] in Hr.
      destruct (le_per_commit en); [by apply elem_of_nil in Hr|done].
    + apply List.forallb_forall. intros r Hr. rewrite Forall_forall in Hdead.
      by apply Hdead, list_elem_of_In.
Qed.

(** The event captures the object in a revision, and binds it to a content hash. *)
Definition captures (object_id u h : string) (e : ShoreEvent) : Prop :=
  ∃ revision, proposed_revision e = Ok (Some (revision, h)) ∧
    rv_object_id revision = object_id ∧ rv_id revision = u.

(** The first capture of the object in the log is by the revision, with the hash. *)
Definition first_capture (events : list ShoreEvent) (object_id u h : string) : Prop :=
  ∃ pre e post, events = pre ++ e :: post ∧ captures object_id u h e ∧
    ∀ d u' h', d ∈ pre → ¬ captures object_id u' h' d.

Lemma capture_first events object_id u h :
  capture_bound_to_snapshot events object_id = Ok (u, h) → first_capture events object_id u h.
Proof.
  induction events as [|e events IH]; cbn [capture_bound_to_snapshot]; [done|].
  assert ((∀ rv h', proposed_revision e = Ok (Some (rv, h')) → rv_object_id rv ≠ object_id) →
    capture_bound_to_snapshot events object_id = Ok (u, h) →
    first_capture (e :: events) object_id u h) as Hrest.
  { intros Hno (pre & e0 & post & -> & Hc & Hpre)%IH. exists (e :: pre), e0, post.
    split_and!; [done..|]. intros d u' h' [->|Hd]%elem_of_cons; [|by apply Hpre].
    intros (rv & Hrv & Ho & _). by apply (Hno rv h'). }
  unfold proposed_revision in Hrest.
  destruct (negb _) eqn:Ht; [by apply Hrest|].
  intros (payload & Hp & Hc)%bind_Ok. rewrite Hp in Hrest. cbn [rbind] in Hrest.
  destruct (wo_work_object payload) as [rv x hash y|] eqn:Hw; [|by apply Hrest].
  destruct (String.eqb_spec (rv_object_id rv) object_id) as [Ho|Ho];
    [|apply Hrest; [by intros ? ? [= <- <-]|done]].
  apply Ok_eq in Hc. injection Hc as <- <-. exists [], e, events.
  split_and!; [done| |by intros ? ? ? ?%elem_of_nil].
  exists rv. split; [|done]. unfold proposed_revision. rewrite Ht, Hp. cbn [rbind]. by rewrite Hw.
Qed.

Lemma first_capture_unique events object_id u h u' h' :
  first_capture events object_id u h → first_capture events object_id u' h' → u' = u ∧ h' = h.
Proof.
  intros (pre & e & post & -> & Hc & Hno) (pre' & e' & post' & Heq & Hc' & Hno').
  revert pre' Heq Hno'. induction pre as [|d pre IH]; intros [|d' pre'] [= Hd Heq] Hno'.
  - subst. destruct Hc as (rv & Hrv & _ & <-), Hc' as (rv' & Hrv' & _ & <-).
    rewrite Hrv in Hrv'. apply Ok_eq in Hrv'. by injection Hrv' as -> ->.
  - subst. destruct (Hno' d' u h); [by left|done].
  - subst. destruct (Hno e' u' h'); [by left|done].
  - apply (IH ltac:(intros; apply Hno; by right) pre' Heq). intros; apply Hno'; by right.
Qed.

(** The revisions a selector means. *)
Definition targeted (selector : RemoveSelector) (events : list ShoreEvent)
    (projection : RevisionCommitRangeProjection) (u : string) : Prop :=
  match selector with
  | SelectSnapshot object_id => ∃ h, first_capture events object_id u h
  | SelectRevision revision_id => u = revision_id
  | SelectRef reference => ∃ oid view c, git_rev_parse_commit_oid reference = Ok oid ∧
      cu_units projection !! u = Some view ∧ c ∈ crv_current_commits view ∧ ce_commit_oid c = oid
  | SelectRange range => ∃ oids view c, git_rev_list_range range = Ok oids ∧
      cu_units projection !! u = Some view ∧ c ∈ crv_current_commits view ∧ ce_commit_oid c ∈ oids
  | SelectUnreachable => ∃ view tips, cu_units projection !! u = Some view ∧
      crv_current_commits view ≠ [] ∧ live_tips = Ok tips ∧
      ∀ c, c ∈ crv_current_commits view → off_graph tips (ce_commit_oid c)
  end.

Lemma anchored_exact events oids units projection u :
  units_anchored_on_oids events oids = Ok units → commit_range_from_events events = Ok projection →
  u ∈ units ↔ ∃ view c, cu_units projection !! u = Some view ∧
    c ∈ crv_current_commits view ∧ ce_commit_oid c ∈ oids.
Proof.
  intros (projection' & -> & <-%Ok_eq)%bind_Ok <-%Ok_eq. unfold set_of_list.
  rewrite elem_of_list_to_set, list_elem_of_omap. split.
  - intros ([id view] & Hv%elem_of_iter_map & Hu). cbn [fst snd] in Hu.
    destruct (existsb _ _) eqn:Hx; [|done]. injection Hu as <-.
    apply List.existsb_exists in Hx as (c & Hc%list_elem_of_In & Ho%bool_decide_eq_true_1).
    by exists view, c.
  - intros (view & c & Hv & Hc & Ho). exists (u, view). split; [by apply elem_of_iter_map|].
    cbn [fst snd]. destruct (existsb _ _) eqn:Hx; [done|]. apply not_true_iff_false in Hx.
    destruct Hx. apply List.existsb_exists. exists c. rewrite <- list_elem_of_In. split; [done|].
    by rewrite bool_decide_eq_true_2.
Qed.

Lemma unreachable_fold l (units units' : gset string) u :
  try_fold (λ (units : gset string) p, let? gone := unit_unreachable p.2 in
    Ok (if gone : bool then {[p.1]} ∪ units else units)) units l = Ok units' →
  u ∈ units' ↔ u ∈ units ∨ ∃ view, (u, view) ∈ l ∧ unit_unreachable view = Ok true.
Proof.
  revert units. induction l as [|[r view] l IH]; intros units; cbn [try_fold].
  { intros <-%Ok_eq. split; [by left|]. by intros [|(? & ?%elem_of_nil & _)]. }
  intros (units1 & (gone & Hg & <-%Ok_eq)%bind_Ok & Hf)%bind_Ok. cbn [fst snd] in *.
  rewrite (IH _ Hf). setoid_rewrite elem_of_cons. split.
  - intros [Hin|(view' & ? & ?)]; [|right; exists view'; split; [by right|done]].
    destruct gone; [|by left]. apply elem_of_union in Hin as [->%elem_of_singleton|]; [|by left].
    right. exists view. split; [by left|done].
  - intros [?|(view' & [[= -> ->]|?] & Hx)].
    + left. destruct gone; set_solver.
    + rewrite Hg in Hx. apply Ok_eq in Hx as ->. left. set_solver.
    + right. by exists view'.
Qed.

Lemma unreachable_exact events units projection u :
  unreachable_anchored_units events = Ok units → commit_range_from_events events = Ok projection →
  u ∈ units ↔ targeted SelectUnreachable events projection u.
Proof.
  intros (projection' & -> & Hf)%bind_Ok <-%Ok_eq. rewrite (unreachable_fold _ _ _ _ Hf).
  cbn [targeted]. setoid_rewrite elem_of_iter_map. setoid_rewrite unit_unreachable_exact.
  split; [|naive_solver].
  intros [?%elem_of_empty|(view & Hv & Hne & tips & Ht & Hoff)]; [done|]. by exists view, tips.
Qed.

Lemma targeted_exact selector events index projection resolved u :
  commit_range_from_events events = Ok projection →
  resolve_selector selector events index = Ok resolved →
  u ∈ rs_targeted_units resolved ↔ targeted selector events projection u.
Proof.
  intros Hp. destruct selector as [o|r|ref|range|]; cbn [resolve_selector].
  - intros ([u' h] & Hc%capture_first & <-%Ok_eq)%bind_Ok. cbn. rewrite elem_of_singleton. split.
    + intros ->. by exists h.
    + intros (h' & Hc'). by destruct (first_capture_unique _ _ _ _ _ _ Hc Hc').
  - intros <-%Ok_eq. cbn. by rewrite elem_of_singleton.
  - intros (oid & Ho & (units & Hu & <-%Ok_eq)%bind_Ok)%bind_Ok.
    cbn [selection_for_units rs_targeted_units targeted]. rewrite (anchored_exact _ _ _ _ u Hu Hp). split.
    + intros (view & c & ? & ? & ?%elem_of_singleton). by exists oid, view, c.
    + intros (oid' & view & c & Ho' & ? & ? & Hc). rewrite Ho in Ho'. apply Ok_eq in Ho' as <-.
      exists view, c. by rewrite elem_of_singleton.
  - intros (oids & Ho & (units & Hu & <-%Ok_eq)%bind_Ok)%bind_Ok.
    cbn [selection_for_units rs_targeted_units targeted]. rewrite (anchored_exact _ _ _ _ u Hu Hp).
    unfold set_of_list. setoid_rewrite elem_of_list_to_set. split.
    + intros (view & c & ? & ? & ?). by exists oids, view, c.
    + intros (oids' & view & c & Ho' & ? & ? & ?). rewrite Ho in Ho'. apply Ok_eq in Ho' as <-.
      by exists view, c.
  - intros (units & Hu & <-%Ok_eq)%bind_Ok. by apply unreachable_exact.
Qed.

(** C12. A removal selects what its selector means, where it resolves.  The revisions it
    targets are exactly those the selector names: the one whose capture of the snapshot is
    first in the log, the revision itself, those with a current commit at the ref or in the
    range, or, for unreachable content, those that have current commits and none of whose
    current commits is at or below a live tip git knows of.  For a snapshot the only hash
    selected is the one that capture bound; for the others the hashes are exactly those an
    event of a targeted revision refers to.  The units reported for a hash are exactly the
    other revisions that refer to it. *)
Theorem selection_exact selector events index projection resolved
    (Hi : content_hash_unit_index events = Ok index)
    (Hp : commit_range_from_events events = Ok projection)
    (Hr : resolve_selector selector events index = Ok resolved) :
  (∀ u, u ∈ rs_targeted_units resolved ↔ targeted selector events projection u) ∧
  (∀ h, h ∈ rs_content_hashes resolved ↔
    match selector with
    | SelectSnapshot object_id => ∃ u, first_capture events object_id u h
    | _ => ∃ u, targeted selector events projection u ∧ names events u h
    end) ∧
  (∀ h u, u ∈ co_referencing_units index h (rs_targeted_units resolved) ↔
    names events u h ∧ ¬ targeted selector events projection u).
Proof.
  assert (∀ u, u ∈ rs_targeted_units resolved ↔ targeted selector events projection u) as Ht.
  { intros u. by apply targeted_exact with index. }
  split_and!; [done| |intros h u; rewrite <- Ht; by apply co_referencing_exact].
  intros h. destruct selector as [o|r|ref|range|]; cbn [resolve_selector] in Hr.
  1:{ apply bind_Ok in Hr as ([u h'] & Hc%capture_first & <-%Ok_eq). cbn.
      rewrite elem_of_singleton. split; [intros ->; by exists u|].
      intros (u' & Hc'). by destruct (first_capture_unique _ _ _ _ _ _ Hc Hc'). }
  all: setoid_rewrite <- Ht.
  - apply Ok_eq in Hr as <-. by apply selection_units.
  - apply bind_Ok in Hr as (oid & Ho & (units & Hu & <-%Ok_eq)%bind_Ok). by apply selection_units.
  - apply bind_Ok in Hr as (oids & Ho & (units & Hu & <-%Ok_eq)%bind_Ok). by apply selection_units.
  - apply bind_Ok in Hr as (units & Hu & <-%Ok_eq). by apply selection_units.
Qed.
End selections.

(** ** A store with a removed note *)

Module Example.
#[local] Existing Instances example_digest example_digest_laws example_reader example_reader_laws
  example_primitives.
#[local] Existing Instances LivenessProofs.Example.git LivenessProofs.Example.graph.

#[local] Instance authority : Authority Memory.InMemoryStore := pure_io (Ok ()).

(** Diff files do not occur. *)
#[local] Instance file_to : Serialize DiffFile := λ _, JNull.
#[local] Instance file_from : Deserialize DiffFile := λ _, Err (Message "no files").

Definition note_hash : string := "sha256:" +:+ sha256_bytes_hex "a note".
Definition note_ref : string := "artifacts/notes/" +:+ sha256_bytes_hex "a note" +:+ ".json".
Definition note_bytes : string :=
  match to_vec (NoteBodyEnvelope_new "a note") with Ok b => b | Err _ => EmptyString end.

(** A capture at a commit nothing reaches, bound to the note's hash. *)
#[local] Instance decoders : Decoders := {|
  from_work_object_proposed := λ v,
    match v with
    | JString r => Ok {| wo_engagement_id := "engagement:e";
        wo_work_object := ProposeRevision {| rv_id := r; rv_object_id := "obj:o";
          rv_git_provenance := Some {| gp_source := GitCommitRange BaseTreeToTargetTree [];
            gp_base := GitCommit "bbb" "t1";
            gp_target := GitCommit "ccc" "t2" |} |} None note_hash [] |}
    | _ => example_error
    end;
  from_change_declared := λ _, example_error;
  from_membership_asserted := λ _, example_error;
  from_membership_withdrawn := λ _, example_error;
  from_relation_asserted := λ _, example_error;
  from_relation_withdrawn := λ _, example_error;
  from_link_asserted := λ _, example_error;
  from_assessment_recorded := λ _, example_error;
  from_input_request_opened := λ _, example_error;
  from_input_request_responded := λ _, example_error;
  from_fact_ported := λ _, example_error
|}.

#[local] Instance review_decoders : ReviewDecoders := {|
  from_commit_associated := λ _, example_error;
  from_commit_withdrawn := λ _, example_error;
  from_ref_associated := λ _, example_error;
  from_ref_withdrawn := λ _, example_error;
  from_observation_recorded := λ _, example_error;
  from_relation_attested := λ _, example_error;
  from_validation_recorded := λ _, example_error;
  from_checkpoint_captured := λ _, example_error;
  from_task_observation := λ _, example_error
|}.

Definition or_example (r : result ShoreEvent) : ShoreEvent :=
  match r with Ok e => e | Err _ => example_event end.

Definition capture : ShoreEvent := or_example (ShoreEvent_new WorkObjectProposed "t:02:rev:a"
  (for_journal "journal:default") (shore_local "0.1") WorkObjectProposed (JString "rev:a")
  "2025-01-01T00:00:00.000Z").
Definition claim : ShoreEvent :=
  or_example (removal_event note_hash (shore_local "0.1") "2025-01-02T00:00:00.000Z").

Definition carrier (e : ShoreEvent) : string * string :=
  (ev_idempotency_key e, match to_vec e with Ok b => b | Err _ => EmptyString end).

(** A store of the events, with the note. *)
Definition store_of (events : list ShoreEvent) : Memory.InMemoryStore := {|
  Memory.events := list_to_map (carrier <$> events);
  Memory.blobs := {[ note_ref := note_bytes ]};
  Memory.list_event_entries_calls := 0; Memory.read_event_bytes_calls := 0;
  Memory.stamp_identity := 0; Memory.stamp_generation := 0 |}.

Definition store : Memory.InMemoryStore := store_of [capture; claim].
Definition options : CompactOptions := {| co_trust_set := TrustSet_default; co_dry_run := false |}.
Definition preview : CompactOptions := {| co_trust_set := TrustSet_default; co_dry_run := true |}.

Definition swept_result : result CompactResult := (compact_store options store).1.

(** The listing is by address. *)
Definition listed : list ShoreEvent :=
  match (list_events store).1 with Ok l => l | Err _ => [] end.
Definition index : gmap string (gset string) :=
  match content_hash_unit_index listed with Ok i => i | Err _ => ∅ end.
Definition projection : ArtifactRemovalProjection :=
  match removal_from_events listed with Ok p => p | Err _ => {| ar_claims := ∅ |} end.
Definition cosignatures : CosignatureIndex :=
  match build_index listed with Ok c => c | Err _ => {| carriers_by_target := ∅ |} end.

Lemma listed_events : (list_events store).1 = Ok listed ∧ length listed = 2.
Proof. split; vm_compute; reflexivity. Qed.

Lemma sweep_runs :
  (λ r, (cp_swept r, cp_bytes_reclaimed r)) <$> swept_result =
    Ok ([{| sb_content_hash := note_hash; sb_outcome := SweepRemoved |}],
        Z.of_nat (String.length note_bytes)) ∧
  stored_blobs (compact_store options store).2 !! note_ref = None.
Proof. split; vm_compute; reflexivity. Qed.

(** The one blob is due: the sweep deletes it, a preview keeps it. *)
Lemma compaction_exact_witness :
  stored_blobs (compact_store preview store).2 = stored_blobs store ∧
  ∃ events, (list_events store).1 = Ok events ∧
    erasure_due events (co_trust_set options) note_ref note_bytes.
Proof.
  split.
  - destruct (compaction_exact preview store) as (_ & Hdry & _). by apply Hdry.
  - destruct (compaction_exact options store) as (_ & _ & Hsafe & _).
    apply Hsafe; [vm_compute; reflexivity|apply sweep_runs].
Defined.

Definition swept_value : CompactResult :=
  match swept_result with
  | Ok r => r
  | Err _ => {| cp_swept := []; cp_bytes_reclaimed := 0; cp_dry_run := true;
                cp_skipped_ineligible := [] |}
  end.

Lemma sweep_value : (compact_store options store).1 = Ok swept_value.
Proof. vm_compute. reflexivity. Qed.

Lemma reclaimed_bytes_exact_witness :
  (cp_bytes_reclaimed swept_value = (stored_bytes (stored_blobs store) -
    stored_bytes (stored_blobs (compact_store options store).2)) mod 2 ^ 64)%Z.
Proof. exact (proj1 (proj2 (reclaimed_bytes_exact options store swept_value sweep_value))). Defined.

Lemma projected : removal_from_events listed = Ok projection.
Proof. vm_compute. reflexivity. Qed.

Lemma cosigned : build_index listed = Ok cosignatures.
Proof. vm_compute. reflexivity. Qed.

Lemma listed_keys : NoDup (ev_idempotency_key <$> listed).
Proof. apply (bool_decide_unpack _). vm_compute. exact I. Qed.

Lemma note_suppressed :
  is_operative_suppress projection note_hash TrustSet_default PossessionOrTrusted cosignatures =
    Ok true.
Proof. vm_compute. reflexivity. Qed.


Definition ranges : RevisionCommitRangeProjection :=
  match commit_range_from_events listed with Ok p => p | Err _ => {| cu_units := ∅ |} end.
Definition selected : ResolvedSelection :=
  match resolve_selector SelectUnreachable listed index with
  | Ok r => r
  | Err _ => {| rs_content_hashes := ∅; rs_targeted_units := ∅ |}
  end.

Lemma indexed : content_hash_unit_index listed = Ok index.
Proof.
  assert (is_ok (content_hash_unit_index listed) = true) as Hok by (vm_compute; reflexivity).
  unfold index. by destruct (content_hash_unit_index listed).
Qed.

Lemma ranged : commit_range_from_events listed = Ok ranges.
Proof.
  assert (is_ok (commit_range_from_events listed) = true) as Hok by (vm_compute; reflexivity).
  unfold ranges. by destruct (commit_range_from_events listed).
Qed.

Lemma selects : resolve_selector SelectUnreachable listed index = Ok selected ∧
  iter_set (rs_targeted_units selected) = ["rev:a"] ∧
  iter_set (rs_content_hashes selected) = [note_hash].
Proof. split_and!; vm_compute; reflexivity. Qed.

(** The capture's only commit is off the graph, so its note is selected. *)
Lemma selection_exact_witness : targeted SelectUnreachable listed ranges "rev:a".
Proof.
  destruct selects as (Hs & Hu & _).
  apply (@selection_exact _ _ _ _ LivenessProofs.Example.git_laws SelectUnreachable listed index
    ranges selected indexed ranged Hs).
  apply elem_of_iter_set. rewrite Hu. by left.
Defined.
End Example.
