(* ===== verification/RemovalSweep.v ===== *)
(** * What is removed here is swept

    The composition of recording a removal ([remove_content]) with the sweep
    ([compact_store]), through the journal: a removal this store recorded itself is
    operative by possession, so the next sweep that succeeds erases its content. *)

From S2P Require Import Prelude RustStr BTree Model Acknowledgement CanonicalHash Crypto Events.
From S2P Require Import GitDiff ChangeClaims Relations Payloads Wire Journal EventCodec Capabilities.
From S2P Require Import CapabilityRouter CapabilityProofs EventStore EventStoreProofs Signing.
From S2P Require Import Identity Cosignature Ingest Subjects CommitRange Liveness Artifacts Removal.
From S2P Require Import ArtifactsProofs RemovalProofs.

(** The environment leaves the records alone. *)
Class EnvironmentLaws (S : Type) `{JournalView S} `{Environment S} : Prop := {
  env_writer_law actor (s : S) : carriers (writer_from_options actor s).2 = carriers s;
  env_clock_law (s : S) : carriers (current_timestamp s).2 = carriers s
}.

Section composition.
Context `{JsonReaderLaws} `{Primitives} `{Decoders} `{ReviewDecoders} `{Git}.
Context `{!Serialize DiffFile} `{!Deserialize DiffFile}.
Context {S : Type} `{Journal S} `{JournalView S} `{!JournalLaws S}.
Context `{Authority S} `{!AuthorityLaws S} `{Environment S} `{!EnvironmentLaws S}.
Context `{ContentStore S} `{!ContentView S} `{!ContentLaws S} `{!JournalBlobLaws S}.

(** An unsigned claim on the hash, made here. *)
Record own_claim (h : string) (e : ShoreEvent) : Prop := {
  own_hash : claimed_hash e = Some h;
  own_unsigned : ev_signature e = None;
  own_local : ev_ingest e = None
}.

Lemma removal_event_own h writer timestamp e :
  removal_event h writer timestamp = Ok e →
  recordable e ∧ own_claim h e ∧ ev_idempotency_key e = artifact_removed_key h.
Proof.
  unfold removal_event, ShoreEvent_new. cbn [bool_decide negb].
  rewrite bool_decide_eq_true_2 by done. cbn [negb].
  destruct (String.eqb_spec (trim (artifact_removed_key h)) EmptyString) as [|Hk]; [done|].
  rewrite sha256_json_prefixed_Ok. cbn [rbind]. intros <-%Ok_eq. split_and!; [| |done].
  - split.
    + split; cbn; [done|done|done|done|]. unfold to_json, ArtifactRemovedPayload_Serialize.
      json_wf_literal.
    + unfold validate_event. cbn [rbind validate_schema_version ev_schema ev_version ev_event_type
        ev_event_id ev_idempotency_key ev_payload_hash ev_payload].
      unfold event_id_for_idempotency_key. rewrite sha256_json_prefixed_Ok. cbn.
      by rewrite !String.eqb_refl.
    + done.
  - by split.
Qed.

(** Recording keeps a store of events one, keeps its events, and adds what it created. *)
Lemma record_recordable e s ack :
  clean (carriers s) → recordable e → (record_event_once_acknowledged e s).1 = Ok ack →
  let s' := (record_event_once_acknowledged e s).2 in
  clean (carriers s') ∧ events_of (carriers s) ⊆ events_of (carriers s') ∧
  (ewa_outcome ack = Acknowledgement.Created →
    events_of (carriers s') !! ev_idempotency_key e = Some e).
Proof.
  intros Hc [Hwf Hv Hk] Hr. pose proof (event_once_refines s e Hwf) as [Ha Hno Hf].
  unfold record_event_once, io_bind in Ha, Hno, Hf.
  destruct (record_event_once_acknowledged e s) as [r s'].
  cbn [fst snd pure_io] in *. subst r. cbn [fst snd pure_io is_ok] in *. split_and!.
  - destruct Hf as [->|(Hn & b & Hb & ->)]; [done|]. split.
    + rewrite lookup_insert_ne by done. apply Hc.
    + intros k b' Hk'. apply lookup_insert_Some in Hk' as [[<- <-]|[_ Hk']]; [|by apply Hc].
      rewrite (event_at_own e b Hwf Hv Hb). by eexists.
  - apply events_of_mono. destruct Hf as [->|(Hn & b & Hb & ->)]; [done|by apply insert_subseteq].
  - destruct (is_ok (acquire_authority s).1 && admits_writes (carriers s));
      [|by destruct Hno as [? _]; [left|]].
    specialize (Ha eq_refl (clean_writable _ e Hc Hv)). unfold store_write in Ha.
    destruct (events_of (carriers s) !! ev_idempotency_key e) as [old|];
      injection Ha as Hout ->; [|intros _; apply lookup_insert_eq].
    intros Hcr. rewrite Hcr in Hout. unfold existing_outcome in Hout. by repeat case_decide.
Qed.

(** Every hash reported as newly removed has its claim among the events. *)
Definition reported (c : gmap string string) (removed : list RemovedContent) : Prop :=
  clean c ∧ ∀ r, r ∈ removed → rmc_created r = true →
    ∃ e, events_of c !! artifact_removed_key (rmc_content_hash r) = Some e ∧
      own_claim (rmc_content_hash r) e.

(** The result reports the hash as removed now, not before. *)
Definition newly_removed (result : RemoveResult) (h : string) : Prop :=
  ∃ r, r ∈ rr_removed result ∧ rmc_created r = true ∧ rmc_content_hash r = h.

Context (options : RemoveOptions) (Hunsigned : so_signer (ro_signing options) = None).

Lemma remove_one_reported index units writer st h s st' :
  reported (carriers s) (st_removed st) →
  (remove_one options index units writer st h s).1 = Ok st' →
  reported (carriers (remove_one options index units writer st h s).2) (st_removed st').
Proof using All.
  intros [Hc Hr]. unfold remove_one. unfold io_bind at 1 6, lift_env.
  pose proof (env_clock_law s) as Ht. destruct (current_timestamp s) as [t s1]. cbn [fst snd] in *.
  rewrite <- Ht in Hc, Hr. clear Ht.
  destruct (removal_event h writer t) as [e|] eqn:He; [|done].
  apply removal_event_own in He as (Hrec & Hown & Hkey).
  unfold sign_event_if_requested. rewrite Hunsigned. unfold pure_io, io_bind. cbn [fst snd].
  pose proof (record_recordable e s1) as Hw.
  destruct (record_event_once_acknowledged e s1) as [[ack|] s2]; cbn [fst snd] in *; [|done].
  destruct (Hw ack Hc Hrec eq_refl) as (Hc' & Hsub & Hnew).
  unfold aggregate_record, Acknowledgement.record.
  destruct (add (st_derived st) (ewa_derived ack) (ewa_diagnostics ack)) as [agg|]; [|done].
  cbn [mbind option_bind ok_or fst snd]. intros <-%Ok_eq. cbn [st_removed]. split; [done|].
  intros r [Hin| ->%list_elem_of_singleton]%elem_of_app Hcr; cbn [rmc_content_hash] in *.
  - destruct (Hr r Hin Hcr) as (e' & He' & ?). exists e'. split; [|done]. by eapply lookup_weaken.
  - cbn [rmc_created] in Hcr. exists e. rewrite <- Hkey. split; [|done].
    apply Hnew. by destruct (ewa_outcome ack).
Qed.

Lemma remove_each_reported index units writer hashes st s st' :
  reported (carriers s) (st_removed st) →
  (remove_each options index units writer st hashes s).1 = Ok st' →
  reported (carriers (remove_each options index units writer st hashes s).2) (st_removed st').
Proof using All.
  revert st s. induction hashes as [|h hashes IH]; intros st s Hr; cbn [remove_each].
  { by intros <-%Ok_eq. }
  pose proof (remove_one_reported index units writer st h s) as Hone. unfold io_bind.
  destruct (remove_one options index units writer st h s) as [[st1|] s1]; cbn [fst snd] in *;
    [|done]. apply IH. by apply Hone.
Qed.

Lemma list_events_keeps s : carriers (list_events s).2 = carriers s.
Proof.
  apply keeps_listing; [intros key s'; apply exists_law|].
  intros s'. by destruct (list_law s') as (l & _ & ? & _).
Qed.

Lemma remove_content_reported s result skips s1 :
  clean (carriers s) → remove_content options s = (Ok (result, skips), s1) →
  reported (carriers s1) (rr_removed result).
Proof using All.
  intros Hc. unfold remove_content. pose proof (list_events_keeps s) as Hk. unfold io_bind at 1.
  destruct (list_events s) as [[events|] s2]; cbn [fst snd] in *; [|done].
  unfold io_bind at 1, pure_io at 1. destruct (content_hash_unit_index events) as [index|]; [|done].
  unfold io_bind at 1, pure_io at 1.
  destruct (resolve_selector _ events index) as [resolved|]; [|done].
  unfold io_bind at 1, lift_env.
  pose proof (env_writer_law (ro_actor_id options) s2) as Hw.
  destruct (writer_from_options (ro_actor_id options) s2) as [writer s3]. cbn [fst snd] in *.
  unfold io_bind.
  pose proof (remove_each_reported index (rs_targeted_units resolved) writer
    (iter_set (rs_content_hashes resolved)) remove_start s3) as Hrep.
  destruct (remove_each _ _ _ _ _ _ s3) as [[st|] s4]; cbn [fst snd] in *; [|done].
  cbn [finish pure_io]. intros [= <- _ <-]. cbn [rr_removed]. apply Hrep; [|done].
  split; [by rewrite Hw, Hk|]. by intros r ?%elem_of_nil.
Qed.

Lemma strongest_evaluates claims trust policy cosig best status c :
  strongest_claim claims trust policy cosig best = Ok status → suppresses status = false →
  c ∈ claims → ∃ x, evaluate c trust cosig = Ok x.
Proof.
  revert best. induction claims as [|d claims IH]; intros best; cbn [strongest_claim];
    [by intros _ _ ?%elem_of_nil|].
  intros ([[st a] b] & He & Hs)%bind_Ok Hno [->|Hin]%elem_of_cons; [by eexists|].
  case_bool_decide; [by eapply IH|]. destruct (policy_operative policy a b); [|by eapply IH].
  apply Ok_eq in Hs as <-. by destruct b.
Qed.

(** A claim of one's own is eligible for erasure, or eligibility does not evaluate. *)
Lemma own_eligible events p h e trust cosig :
  removal_from_events events = Ok p → e ∈ events → own_claim h e →
  is_removed p h = true ∧ is_erase_eligible p h trust cosig ≠ Ok false.
Proof.
  intros Hp He [Hh Hu Hl].
  assert ({| rc_content_hash := h; rc_event := e |} ∈ claims_for events h) as Hin.
  { apply elem_of_claims_for. by exists e. }
  pose proof (removal_claims events p h Hp) as Hc.
  destruct (claims_for events h) as [|c l] eqn:Hcl; [by apply elem_of_nil in Hin|].
  split; [unfold is_removed; by rewrite Hc|]. intros Hel.
  assert (¬ removed_by events h trust PossessionOrTrusted cosig) as Hno.
  { intros Hr. by apply (suppress_exact _ _ _ _ _ _ _ Hp Hel) in Hr. }
  apply bind_Ok in Hel as (status & Hs & Hsup%Ok_eq). unfold operative_status in Hs.
  rewrite Hc in Hs. destruct (strongest_evaluates _ _ _ _ _ _ _ Hs Hsup Hin) as [[[st a] b] Hev].
  apply Hno. exists e. split_and!; [done..|]. exists st, a, b. split; [done|].
  unfold evaluate, verify_event_signature in Hev. cbn [rc_event] in Hev.
  rewrite Hu, Hl in Hev. cbn [rbind] in Hev. apply bind_Ok in Hev as (b' & _ & Hev%Ok_eq).
  by injection Hev as <- <- <-.
Qed.

(** C7. What is removed here is erased by the next sweep.  Of a store whose records are
    events, after [remove_content] recorded unsigned removals: a sweep that succeeds
    outside a preview leaves no file whose name gives a hash the removal reported as newly
    removed and whose bytes are that content, whatever the reader trusts. *)
Theorem removal_then_sweep s result skips s1 compact events h ref bytes
    (Hclean : clean (carriers s))
    (Hremove : remove_content options s = (Ok (result, skips), s1))
    (Hnew : newly_removed result h)
    (Hevents : (list_events s1).1 = Ok events)
    (Hok : is_ok (compact_store compact s1).1 = true) (Hdry : co_dry_run compact = false)
    (Hb : stored_blobs s1 !! ref = Some bytes)
    (Hnames : names_content events ref h)
    (Hholds : holds_content ref bytes h) :
  stored_blobs (compact_store compact s1).2 !! ref = None.
Proof using All.
  destruct (remove_content_reported s result skips s1 Hclean Hremove) as [Hc1 Hrep].
  destruct Hnew as (r & Hr & Hcreated & <-). destruct (Hrep r Hr Hcreated) as (e & He & Hown).
  destruct (listed_elem s1 events _ e Hc1 Hevents He) as [Hin _].
  destruct (compact_stops compact s1) as [(events' & p & cosig & Hl & Hp & Hc)|[Hf _]];
    [|congruence].
  rewrite Hevents in Hl. apply Ok_eq in Hl as <-.
  destruct (compact_frame compact s1 events p cosig Hevents Hp Hc) as (_ & _ & _ & Hall).
  apply (Hall Hok Hdry ref bytes (rmc_content_hash r) Hb Hnames).
  destruct (own_eligible events p _ e (co_trust_set compact) cosig Hp Hin Hown).
  split_and!; [done..|by apply matches_claim].
Qed.
End composition.

(** ** A note removed and swept *)

Module Example.
#[local] Existing Instances example_digest example_reader example_reader_laws example_primitives.
#[local] Existing Instances Memory.InMemoryView Memory.InMemoryLaws LivenessProofs.Example.git.
#[local] Existing Instances RemovalProofs.Example.authority RemovalProofs.Example.file_to
  RemovalProofs.Example.file_from RemovalProofs.Example.decoders
  RemovalProofs.Example.review_decoders.
Import RemovalProofs.Example.

#[local] Instance authority_laws : AuthorityLaws Memory.InMemoryStore.
Proof. done. Qed.

#[local] Instance environment : Environment Memory.InMemoryStore := {|
  writer_from_options := λ _ s, (shore_local "0.1", s);
  current_timestamp := λ s, ("2025-01-02T00:00:00.000Z", s)
|}.

#[local] Instance environment_laws : EnvironmentLaws Memory.InMemoryStore.
Proof. done. Qed.

Definition before : Memory.InMemoryStore := store_of [capture].
Definition removal : RemoveOptions := {| ro_selector := SelectUnreachable;
  ro_signing := {| so_signer := None; so_best_effort := false |}; ro_actor_id := None |}.
Definition after : Memory.InMemoryStore := (remove_content removal before).2.
Definition removed : RemoveResult * list string :=
  match (remove_content removal before).1 with
  | Ok r => r
  | Err _ => ({| rr_acknowledgement := wa_unchanged; rr_removed := []; rr_events_created := 0;
                 rr_events_existing := 0; rr_diagnostics := [] |}, [])
  end.
Definition note : RemovedContent :=
  {| rmc_content_hash := note_hash; rmc_created := true; rmc_co_referencing_units := [] |}.
Definition events_after : list ShoreEvent :=
  match (list_events after).1 with Ok l => l | Err _ => [] end.

Lemma before_clean : clean (carriers before).
Proof.
  split; [vm_compute; reflexivity|]. intros k b Hb.
  change (carriers before) with (list_to_map [carrier capture] : gmap string string) in Hb.
  cbn [list_to_map foldr uncurry] in Hb. apply lookup_insert_Some in Hb as [[<- <-]|[_ ?]]; [|done].
  eexists. vm_compute. reflexivity.
Qed.

Lemma removes : remove_content removal before = (Ok (removed.1, removed.2), after) ∧
  rr_removed removed.1 = [note].
Proof. split; vm_compute; reflexivity. Qed.

Lemma lists_after : (list_events after).1 = Ok events_after.
Proof. vm_compute. reflexivity. Qed.

Lemma sweeps : is_ok (compact_store options after).1 = true.
Proof. vm_compute. reflexivity. Qed.

Lemma note_after : stored_blobs after !! note_ref = Some note_bytes.
Proof. vm_compute. reflexivity. Qed.

Lemma note_named : names_content events_after note_ref note_hash.
Proof. right. split; vm_compute; reflexivity. Qed.

Lemma note_held : holds_content note_ref note_bytes note_hash.
Proof. apply matches_claim. vm_compute. reflexivity. Qed.

Lemma removal_then_sweep_witness : stored_blobs (compact_store options after).2 !! note_ref = None.
Proof.
  apply (removal_then_sweep removal eq_refl before removed.1 removed.2 after options events_after
    note_hash note_ref note_bytes before_clean (proj1 removes));
    [exists note; rewrite (proj2 removes); split; [by left|done]|exact lists_after|exact sweeps|reflexivity
    |exact note_after|exact note_named|exact note_held].
Defined.
End Example.
